(* ===== verification/_CoqProject ===== *)
-Q . S2P
Prelude.v
CArray.v
StrUtil.v
Tokenizer.v
Segment.v
SegmentSet.v
Thex.v
Hasher.v
MerkleTree.v
TigerTables.v
TigerHash.v
Base32.v
HashValue.v
SpeedCalc.v
Download.v
QueueItem.v
NextSegment.v
PartsInfo.v
CheckStream.v
TigerTree.v
LruCache.v
IpKey.v
AntiFlood.v
Text.v
PathUtil.v
XmlReader.v
XmlText.v
SimpleXML.v
XmlStream.v
FileQueue.v
UserQueue.v
QueueManager.v
QueueInvariant.v
QueueXml.v
QueueLines.v
QueueReload.v
StringSearch.v
Bloom.v
ShareBloom.v
Midl.v
MidlSort.v
MidlPairs.v
Natpmp.v
IpList.v
AdcCommand.v
KBucket.v
SearchQueue.v
DhtFlood.v
DhtIndex.v
BufferedSocket.v
JsonString.v
JsonParser.v
JsonFormatter.v
