(* ===== verification/Prelude.v ===== *)
(** * BlackLink verification development

    BlackLink is a client of the Direct Connect file sharing network, written in C++
    ([src/client], the part without user interface) with a few C libraries.  Users meet on
    hubs, search the files of others, and download them in blocks from several users at
    once; every file is named by the root of a hash tree over its contents, which is also
    what a downloaded block is checked against.  A distributed hash table finds sources
    without a hub.

    ** Parts and files

    A file of this library models the source files its own header names; a definition has
    the name of the function, method or type it translates.  A record has the fields of the
    class, an operation takes and returns it, and what a method gets from the outside (the
    clock, settings, outcomes of system calls, random numbers, callbacks of a listener) is an
    argument.

    - The hash of a file: [Thex] (the tree hash as a function of the leaves), [Hasher] (what
      the tree relies on of a hash function, a class with its laws), [MerkleTree]
      ([MerkleTree.h], proved against that interface), [TigerTables] and [TigerHash]
      ([TigerHash.h/.cpp], which discharge it), [TigerTree] (their composition), [Base32] and
      [HashValue] ([Base32.cpp], [HashValue.h], [CID.h]), [CheckStream]
      ([MerkleCheckOutputStream.h], the stream that checks a download).
    - The download queue: [Segment] and [SegmentSet] (ranges of a file and the set of done
      ones), [SpeedCalc] and [Download] (transfers), [QueueItem] (the item with its sources,
      segments and attributes), [NextSegment] ([getNextSegmentL], the choice of the next block),
      [PartsInfo] (the exchange of parts).  These are from [QueueItem.h/.cpp], [Segment.h],
      [SpeedCalc.h], [Transfer.h/.cpp], [Download.h/.cpp].  From [QueueManager.h/.cpp] are
      [FileQueue] (the items by target and by root), [UserQueue] (the items by priority and
      user, with [getNextL]) and [QueueManager] (the operations over both); [QueueInvariant] has
      the proofs about the whole.  [PathUtil] ([PathUtil.h], [Util.cpp]) has the names of files
      and the check of a target; [QueueXml] is the queue file, its writing and its loading,
      with the table of users of [ClientManager.cpp] that loading fills; [QueueLines] and
      [QueueReload] have the proof that what is written is read back.
    - The share: [Text] ([Text.cpp], UTF-8 and case), [StringSearch] ([StringSearch.h]),
      [Bloom] ([BloomFilter.h], [HashBloom.cpp]), [LruCache] ([LruCache.h]) and [ShareBloom]
      ([ShareManager::getHashBloom], which uses both).
    - The network: [BufferedSocket] ([BufferedSocket.cpp], from bytes to lines and blocks),
      [AdcCommand] ([AdcCommand.h/.cpp], from lines to commands and back), [SearchQueue]
      ([SearchQueue.cpp]), [IpKey] and [AntiFlood] ([IpKey.h], [RequestCounter.h],
      [AntiFlood.cpp]), [IpList] ([IpList.cpp], [Ip4Address.cpp]), [Natpmp]
      ([natpmp/natpmp.c]).
    - Numbers in text: [StrUtil] ([StrUtil.h]), used wherever a text is read or written; pieces
      of text: [Tokenizer] ([SimpleStringTokenizer.h], [StringTokenizer.h], [Wildcards.h]).
    - XML texts: [XmlReader] ([SimpleXMLReader.h/.cpp], the incremental reader, against the
      calls of a listener), [XmlText] (what it makes of tags as they are written, for any
      listener), [XmlStream] (the same text in pieces) and [SimpleXML] ([SimpleXML.h/.cpp], the
      tree of tags, which is such a listener).
    - JSON texts: [JsonString] and [JsonParser] ([JsonParser.cpp]), [JsonFormatter]
      ([JsonFormatter.cpp]); they use [Text].
    - The distributed hash table: [KBucket] ([dht/KBucket.cpp], the routing table),
      [DhtFlood] ([dht/Utils.cpp]), [DhtIndex] ([dht/IndexManager.cpp]).  They use
      [AdcCommand] and [HashValue].
    - The database of hashes: [CArray] (arrays with bounds), [Midl], [MidlSort] and
      [MidlPairs] ([lmdb/midl.c], the ID lists of LMDB).

    ** Conventions

    Integers are [Z] with the wrap-around written where the source can reach it; a header
    says where it cannot.  Bytes and characters are [Z], strings lists of them.  [None] is
    what the source leaves undefined (an access outside an array, a pointer to nothing, an
    iterator before the first element), a null pointer, or an exception, as each file says;
    so a theorem that an operation returns [Some] is also its memory safety.  Objects shared
    between components (downloads, nodes, cache items) live in a store and are reached by
    keys.  An operation runs under the lock of its object and is one atomic step.

    ** What the theorems show

    - Hashing: the tree and Tiger give the tree hash of the data however it is cut into
      pieces; both compile-time variants of Tiger agree; base32 and stored leaves read back;
      a download through the checking stream is accepted only with the blocks of the file.
    - The queue: an invariant of every reachable item; done segments cover exactly the bytes
      completed; a chosen block is inside the file and disjoint from what is done or
      running, and an unfinished item with nothing running is given one; parts are announced exactly.
    - The queue manager: in every state its operations reach, the items by target, by root and
      by user are the same items, and no operation gets stuck, under the preconditions
      [manager_op] states; a user is asked for the first of its items that has a block for
      it, and is given one while there is any; the automatic search finds an item to search for when there is one.
      Which items these are is stated on the fields of the items, apart from the code.
      Examples show what goes wrong without the preconditions.  The queue file that is
      written, read in any pieces, gives a queue with the same files, finished segments and
      sources, for items that can be saved ([savable]).
    - Containers: caches, buffers, the ring of samples and ID lists refine queues and lists;
      sorting (of up to 2^30 identifiers, beyond which an [int] of the code overflows) and merging sort and merge; the substring search finds exactly the substrings;
      filters have no false negatives.
    - The network: the lines and blocks handed on do not depend on how the bytes arrived, up to
      the first callback that stops the connection, compresses it or leaves a block of data;
      what is printed as a command parses back to it; searches leave at their intervals;
      requests over the limits are refused, and only these; retries of a request are sent at the times of the protocol and end.
    - Texts: UTF-8 and wide strings convert back; escapes are replaced in place as by a
      reference; the calls of the JSON parser do not depend on how the text is cut, and what
      the formatter writes is read back.  An XML document that is built tag by tag is the tree
      that was meant, and its text is read back to it; the reader returns, with the
      exceptions the theorem names, and tells its listener the same however a document is cut
      after its header.  Numbers that are printed are read back.  No directory of a validated file name
      is [.] or [..], and it is a fixed point of the validation.
    - The routing table: an invariant of every reachable table (its set of addresses only for
      updates that [careful_update] allows), the nearest nodes, the expiry.

    ** Loops and fuel

    A loop whose recursion is not structural is [while] of this file (or [whileM] of [CArray])
    with a fuel of [2^256] passes, held as a binary number: more than any loop can make on
    counters of 64 bits.  A measure of each loop shows that it returns before the fuel is used up, so that no
    theorem is about a result that does not come.  The loops of [BufferedSocket] take the
    number of unread bytes (each pass uses one up) and twice that, plus two, for the loop over
    the changes of mode; the bytewise reference that [readData] is proved equal to has no fuel.  [getHash] takes
    the depth of the tree, the loops over strings in [AdcCommand] and [Text] the length of the
    string, the JSON parser twice the length of the piece plus two (a character is looked at
    at most twice) and [unescape] the length plus one; the XML
    reader takes the characters of the buffer plus one (each pass but the last uses one up); all are shown to be enough.

    ** Not modelled

    The user interface, settings and localisation; files, threads, sockets and TLS (system
    calls); the contents of the XML files of settings and file lists (reading and writing XML
    itself is modelled, and the queue file); of the queue manager what works on files and file lists, the
    timers and the rechecking; the other managers that own the components above (share, hash,
    connection, search managers and the hubs), whose work is I/O and locking around them;
    the B-tree engine of LMDB and the other vendored libraries.  [MerkleTree::verifyRoot]
    cannot be instantiated; the big-endian byte swaps of Tiger are not compiled; [get_m] of the
    hash filter computes in floating point. *)

From Stdlib Require Export ZArith Lia.
From stdpp Require Export base numbers list gmap sorting.

Declare Scope bl_scope.
Delimit Scope bl_scope with bl.
#[global] Open Scope Z_scope.
#[global] Open Scope bl_scope.

(** ** Machine integers

    A [w]-bit unsigned integer is a [Z] in [0 .. 2^w); arithmetic that the
    source performs at width [w] is written with an explicit [wrap]. *)

Definition wrap (w z : Z) : Z := z mod 2 ^ w.

Abbreviation u8 := (wrap 8).
Abbreviation u16 := (wrap 16).
Abbreviation u32 := (wrap 32).
Abbreviation u64 := (wrap 64).

(** Two's complement reading of a [w]-bit pattern. *)
Definition swrap (w z : Z) : Z := (z + 2 ^ (w - 1)) mod 2 ^ w - 2 ^ (w - 1).

Lemma u64_add_u64 a b : u64 (u64 a + b) = u64 (a + b).
Proof. unfold wrap. apply Z.add_mod_idemp_l. lia. Qed.

Definition is_byte (b : Z) : Prop := 0 <= b < 256.
Definition bytes_ok (l : list Z) : Prop := Forall is_byte l.

(** ** Boolean comparisons used as loop and branch guards *)

Ltac zb :=
  repeat match goal with
  | H : (_ <? _) = true |- _ => apply Z.ltb_lt in H
  | H : (_ <? _) = false |- _ => apply Z.ltb_ge in H
  | H : (_ <=? _) = true |- _ => apply Z.leb_le in H
  | H : (_ <=? _) = false |- _ => apply Z.leb_gt in H
  | H : (_ =? _) = true |- _ => apply Z.eqb_eq in H
  | H : (_ =? _) = false |- _ => apply Z.eqb_neq in H
  | H : _ && _ = true |- _ => apply andb_prop in H as [? ?]
  | H : _ && _ = false |- _ => apply andb_false_iff in H
  | H : _ || _ = true |- _ => apply orb_prop in H
  | H : _ || _ = false |- _ => apply orb_false_elim in H as [? ?]
  | H : negb _ = true |- _ => apply negb_true_iff in H
  | H : negb _ = false |- _ => apply negb_false_iff in H
  end.

(** Split on the first [if] of the goal and keep what the test says. *)
Ltac case_if :=
  match goal with
  | |- context [if ?b then _ else _] =>
      let E := fresh "E" in destruct b eqn:E; zb
  end.

Ltac case_if_in H :=
  match type of H with
  | context [if ?b then _ else _] =>
      let E := fresh "E" in destruct b eqn:E; zb
  end.

(** ** Bounded loops

    Every [while] loop of the source is a step function returning the next
    state ([inl]) or the loop's result ([inr]), run for at most [fuel] steps.
    The fuel is a binary number, so that running out of it is never the
    reason an evaluation stops; [while_total] is how a loop's termination and
    result are proved: an invariant and a decreasing measure. *)

Section Loops.
Context {S R : Type}.
Variable step : S -> S + R.

Fixpoint iter_steps (p : positive) (s : S) : S + R :=
    match p with
    | xH => step s
    | xO q =>
        match iter_steps q s with
        | inl s' => iter_steps q s'
        | inr r => inr r
        end
    | xI q =>
        match step s with
        | inl s' =>
            match iter_steps q s' with
            | inl s'' => iter_steps q s''
            | inr r => inr r
            end
        | inr r => inr r
        end
    end.

Definition while (fuel : positive) (s : S) : option R :=
    match iter_steps fuel s with
    | inl _ => None
    | inr r => Some r
    end.

Variable I : S -> Prop.
Variable m : S -> Z.
Variable Q : R -> Prop.
Hypothesis step_ok : forall s, I s ->
    match step s with
    | inl s' => I s' /\ 0 <= m s' < m s
    | inr r => Q r
    end.

Lemma iter_steps_spec p s :
    I s ->
    match iter_steps p s with
    | inl s' => I s' /\ m s' + Z.pos p <= m s /\ 0 <= m s'
    | inr r => Q r
    end.
Proof.
    revert s; induction p as [q IH|q IH|]; intros s HI; cbn [iter_steps].
    - pose proof (step_ok s HI) as H. destruct (step s) as [s1|r]; [|done].
      destruct H as [H1 H2]. pose proof (IH s1 H1) as H.
      destruct (iter_steps q s1) as [s2|r]; [|done].
      destruct H as (H3 & H4 & H5). pose proof (IH s2 H3) as H.
      destruct (iter_steps q s2) as [s3|r]; [|done].
      destruct H as (? & ? & ?). split; [done|lia].
    - pose proof (IH s HI) as H. destruct (iter_steps q s) as [s1|r]; [|done].
      destruct H as (H1 & H2 & H3). pose proof (IH s1 H1) as H.
      destruct (iter_steps q s1) as [s2|r]; [|done].
      destruct H as (? & ? & ?). split; [done|lia].
    - pose proof (step_ok s HI) as H. destruct (step s) as [s1|r]; [|done].
      destruct H. split; [done|lia].
Qed.

Lemma while_total fuel s :
    I s -> m s < Z.pos fuel -> exists r, while fuel s = Some r /\ Q r.
Proof.
    intros HI Hm. unfold while. pose proof (iter_steps_spec fuel s HI) as H.
    destruct (iter_steps fuel s) as [s'|r]; [|by eauto]. lia.
Qed.
End Loops.

Arguments while : simpl never.
Strategy 1000 [iter_steps while].

(** One bound for every loop of the development: no loop of the modelled code
    runs for 2^256 iterations, and each loop's theorem proves so. *)
Definition loop_fuel : positive := Eval vm_compute in Pos.pow 2 256.

Lemma loop_fuel_val : Z.pos loop_fuel = 2 ^ 256.
Proof. reflexivity. Qed.

Lemma option_bind_Some_eq {A B} (f : A -> option B) x : (Some x ≫= f) = f x.
Proof. done. Qed.

(** ** Little-endian words *)

Fixpoint le_load (l : list Z) : Z :=
  match l with
  | [] => 0
  | b :: r => b + 256 * le_load r
  end.

Fixpoint le_store (n : nat) (w : Z) : list Z :=
  match n with
  | O => []
  | S n => w mod 256 :: le_store n (w / 256)
  end.

Lemma length_le_store n w : length (le_store n w) = n.
Proof. revert w. induction n as [|n IH]; intros w; simpl; [done|]. by rewrite IH. Qed.

Lemma le_load_store n w : 0 <= w < 2 ^ (8 * Z.of_nat n) -> le_load (le_store n w) = w.
Proof.
  revert w. induction n as [|n IH]; intros w Hw; cbn [le_store le_load].
  - simpl in Hw. lia.
  - rewrite IH.
    + pose proof (Z.div_mod w 256). lia.
    + replace (8 * Z.of_nat (S n)) with (8 + 8 * Z.of_nat n) in Hw by lia.
      rewrite Z.pow_add_r in Hw by lia. change (2 ^ 8) with 256 in Hw.
      split; [apply Z.div_pos; lia|]. apply Z.div_lt_upper_bound; lia.
Qed.

Lemma le_store_bytes n w : bytes_ok (le_store n w).
Proof.
  revert w. induction n as [|n IH]; intros w; cbn [le_store]; constructor; [|apply IH].
  apply Z.mod_pos_bound. lia.
Qed.

Lemma le_load_bound l : bytes_ok l -> 0 <= le_load l < 2 ^ (8 * Z.of_nat (length l)).
Proof.
  induction 1 as [|b l Hb _ IH]; cbn [le_load length]; [done|]. unfold is_byte in Hb.
  replace (8 * Z.of_nat (S (length l))) with (8 + 8 * Z.of_nat (length l)) by lia.
  rewrite Z.pow_add_r by lia. change (2 ^ 8) with 256. lia.
Qed.

Lemma le_store_load l : bytes_ok l -> le_store (length l) (le_load l) = l.
Proof.
  induction 1 as [|b l Hb _ IH]; cbn [le_load le_store length]; [done|]. unfold is_byte in Hb.
  rewrite (Z.mul_comm 256). f_equal.
  - rewrite Z.mod_add by lia. by apply Z.mod_small.
  - rewrite Z.div_add, Z.div_small, Z.add_0_l by lia. done.
Qed.

(** [memcpy(tmp + p, data, n)] into a buffer. *)
Definition buf_write (tmp : list Z) (p : nat) (data : list Z) : list Z :=
  take p tmp ++ data ++ drop (p + length data) tmp.

Lemma length_buf_write tmp p data :
  (p + length data <= length tmp)%nat -> length (buf_write tmp p data) = length tmp.
Proof. intros. unfold buf_write. rewrite !length_app, length_take, length_drop. lia. Qed.

Lemma buf_write_nil tmp p : buf_write tmp p [] = tmp.
Proof. unfold buf_write. simpl. by rewrite Nat.add_0_r, take_drop. Qed.

(** Induction two elements at a time, for lists of pairs stored flat. *)
Lemma list_pair_ind {A} (P : list A -> Prop) :
  P [] -> (forall a, P [a]) -> (forall a b l, P l -> P (a :: b :: l)) -> forall l, P l.
Proof.
  intros H0 H1 H2. fix IH 1. intros [|a [|b l]]; [done|apply H1|]. apply H2, IH.
Qed.

(** [%d] of a number below 1000. *)
Definition print_byte (b : Z) : list Z :=
  (if 100 <=? b then [48 + b / 100] else []) ++
  (if 10 <=? b then [48 + b / 10 mod 10] else []) ++ [48 + b mod 10].

Create HintDb bl.

(** A statement about a small range of numbers, by evaluation. *)
Lemma forallb_seqZ (f : Z -> bool) n x : forallb f (seqZ 0 n) = true -> 0 <= x < n -> f x = true.
Proof.
  rewrite forallb_forall. intros H Hx. apply H, list_elem_of_In, elem_of_seqZ. lia.
Qed.

(** Bits joined by [|] below the shifted ones are added. *)
Lemma lor_shiftl a n b : 0 <= n -> 0 <= b < 2 ^ n -> Z.lor (Z.shiftl a n) b = a * 2 ^ n + b.
Proof.
  intros Hn Hb. rewrite Z.shiftl_mul_pow2 by lia.
  assert (Z.land (a * 2 ^ n) b = 0) as Hl; [|rewrite Z.add_nocarry_lxor, Z.lxor_lor; auto].
  apply Z.bits_inj_0. intros k. rewrite Z.land_spec.
  destruct (Z.lt_ge_cases k 0); [rewrite Z.testbit_neg_r by lia; reflexivity|].
  destruct (Z.lt_ge_cases k n); [rewrite Z.mul_pow2_bits_low by lia; reflexivity|].
  pose proof (Z.pow_le_mono_r 2 n k ltac:(lia) ltac:(lia)).
  destruct (decide (b = 0)) as [->|]; [rewrite Z.bits_0; apply andb_false_r|].
  rewrite (Z.bits_above_log2 b k); [apply andb_false_r|lia|]. apply Z.log2_lt_pow2; lia.
Qed.

(** [memchr]: the position of the first [sep]. *)
Fixpoint memchr (sep : Z) (l : list Z) : option nat :=
  match l with [] => None | x :: l => if x =? sep then Some O else S <$> memchr sep l end.

Lemma memchr_None_cons sep x l : memchr sep (x :: l) = None -> (x =? sep) = false /\ memchr sep l = None.
Proof. cbn. destruct (x =? sep); [discriminate|]. destruct (memchr sep l); [discriminate|auto]. Qed.

Lemma memchr_Some sep l n : memchr sep l = Some n ->
  exists x r, l = x ++ sep :: r /\ length x = n /\ memchr sep x = None.
Proof.
  revert n. induction l as [|y l IH]; intros n H; cbn in H; [discriminate|]. destruct (y =? sep) eqn:E; zb.
  - injection H as <-. exists [], l. subst. auto.
  - destruct (memchr sep l) as [k|]; [|discriminate]. injection H as <-. destruct (IH k eq_refl) as (x & r & -> & <- & Hx).
    exists (y :: x), r. split; [reflexivity|]. split; [reflexivity|]. cbn. rewrite (proj2 (Z.eqb_neq _ _) E), Hx. reflexivity.
Qed.

(** Two writes in a row. *)
Lemma buf_write_join tgt p a b : (p + length a + length b <= length tgt)%nat ->
  buf_write (buf_write tgt p a) (p + length a) b = buf_write tgt p (a ++ b).
Proof.
  intros H. unfold buf_write.
  rewrite (take_app_ge _ _ (p + length a)) by (rewrite length_take; lia).
  rewrite drop_app_ge by (rewrite length_take; lia). rewrite length_take, Nat.min_l by lia.
  replace (p + length a - p)%nat with (length a) by lia. rewrite take_app_length.
  rewrite drop_app_ge by lia. rewrite drop_drop, length_app, <- !app_assoc. do 4 f_equal. lia.
Qed.
