(* ===== verification/CArray.v ===== *)
(** * C arrays

    The memory accesses of the C components: an array is the list of its cells, a
    read or a write outside it is undefined ([None]), so that a theorem that a routine
    returns [Some] is also its memory safety.  [get] and [set] are the total
    versions proofs use; [shuffled] is what a routine that only moves elements around
    inside a range guarantees. *)

From S2P Require Import Prelude.

Section Arrays.
Context {A : Type} `{Inhabited A}.
Implicit Types a b : list A.

Definition rd (a : list A) (i : Z) : option A := if 0 <=? i then a !! Z.to_nat i else None.
Definition wr (a : list A) (i : Z) (v : A) : option (list A) :=
  if (0 <=? i) && (i <? Z.of_nat (length a)) then Some (<[Z.to_nat i := v]> a) else None.

Definition get (a : list A) (i : Z) : A := a !!! Z.to_nat i.
Definition set (a : list A) (i : Z) (v : A) : list A := <[Z.to_nat i := v]> a.

Definition len (a : list A) : Z := Z.of_nat (length a).

Lemma len_nonneg a : 0 <= len a.
Proof. unfold len. lia. Qed.

Lemma rd_ok a i : 0 <= i < len a -> rd a i = Some (get a i).
Proof.
  unfold rd, get, len. intros Hi. destruct (0 <=? i) eqn:E; zb; [|lia].
  apply list_lookup_lookup_total_lt. lia.
Qed.

Lemma wr_ok a i v : 0 <= i < len a -> wr a i v = Some (set a i v).
Proof.
  unfold wr, set, len. intros Hi. destruct ((0 <=? i) && (i <? Z.of_nat (length a))) eqn:E; [done|].
  zb. destruct E; zb; lia.
Qed.

Lemma len_set a i v : len (set a i v) = len a.
Proof. unfold len, set. by rewrite length_insert. Qed.

Lemma get_set_eq a i v : 0 <= i < len a -> get (set a i v) i = v.
Proof. unfold get, set, len. intros Hi. apply list_lookup_total_insert_eq. lia. Qed.

Lemma get_set_ne a i j v : 0 <= i -> 0 <= j -> i <> j -> get (set a i v) j = get a j.
Proof. unfold get, set. intros Hi Hj Hij. apply list_lookup_total_insert_ne. lia. Qed.

Lemma get_set a i j v : 0 <= i < len a -> 0 <= j -> get (set a i v) j = if i =? j then v else get a j.
Proof.
  intros Hi Hj. case_if; [subst; by apply get_set_eq|]. apply get_set_ne; lia.
Qed.

Lemma set_set a i v w : set (set a i v) i w = set a i w.
Proof. unfold set. apply list_insert_insert_eq. Qed.

Lemma set_get a i : 0 <= i < len a -> set a i (get a i) = a.
Proof.
  unfold set, get, len. intros Hi. apply list_insert_id. apply list_lookup_lookup_total_lt. lia.
Qed.

Lemma set_comm a i j v w : 0 <= i -> 0 <= j -> i <> j -> set (set a i v) j w = set (set a j w) i v.
Proof. unfold set. intros. apply list_insert_insert_ne. lia. Qed.

(** Two arrays of the same length with the same cells are equal. *)
Lemma array_ext a b : len a = len b -> (forall i, 0 <= i < len a -> get a i = get b i) -> a = b.
Proof.
  unfold len, get. intros Hl Hi. apply (list_eq_same_length _ _ (length a)); [lia|done|].
  intros i x y Hlt Hx Hy. specialize (Hi (Z.of_nat i) ltac:(lia)). rewrite Nat2Z.id in Hi.
  apply list_lookup_total_correct in Hx, Hy. congruence.
Qed.

Definition swap (a : list A) (i j : Z) : list A := set (set a i (get a j)) j (get a i).

Lemma len_swap a i j : len (swap a i j) = len a.
Proof. unfold swap. by rewrite !len_set. Qed.

Lemma get_swap a i j k :
  0 <= i < len a -> 0 <= j < len a -> 0 <= k ->
  get (swap a i j) k = if k =? j then get a i else if k =? i then get a j else get a k.
Proof.
  intros Hi Hj Hk. unfold swap. rewrite get_set, get_set by (rewrite ?len_set; lia).
  rewrite (Z.eqb_sym k j), (Z.eqb_sym k i). done.
Qed.

(** The elements of [l, r] were moved around inside the range. *)
Definition shuffled (l r : Z) (a b : list A) : Prop :=
  len b = len a /\ b ≡ₚ a /\
  (forall k, 0 <= k -> k < l \/ r < k -> get b k = get a k) /\
  (forall k, l <= k <= r -> exists k', l <= k' <= r /\ get b k = get a k').

Lemma shuffled_refl l r a : shuffled l r a a.
Proof. split_and!; [done|done|done|]. intros k Hk. by exists k. Qed.

Lemma shuffled_trans l r a b c : shuffled l r a b -> shuffled l r b c -> shuffled l r a c.
Proof.
  intros (L1 & P1 & O1 & I1) (L2 & P2 & O2 & I2). split_and!; [lia|by rewrite P2| |].
  - intros k Hk Hko. by rewrite O2, O1.
  - intros k Hk. destruct (I2 k Hk) as (k1 & Hk1 & ->). by apply I1.
Qed.

Lemma shuffled_mono l r l' r' a b :
  l' <= l -> r <= r' -> 0 <= l' -> shuffled l r a b -> shuffled l' r' a b.
Proof.
  intros Hl Hr Hl0 (L1 & P1 & O1 & I1). split_and!; [done|done| |].
  - intros k Hk Hko. apply O1; lia.
  - intros k Hk. destruct (decide (l <= k <= r)) as [H1|H1].
    + destruct (I1 k H1) as (k1 & ? & ->). exists k1. split; [lia|done].
    + exists k. split; [lia|]. apply O1; lia.
Qed.

Lemma delete_insert_eq a (i : nat) v : delete i (<[i := v]> a) = delete i a.
Proof. revert i. induction a as [|x a IH]; intros [|i]; simpl; [done..|]. by rewrite IH. Qed.

(** Writing a cell, up to the order of the elements. *)
Lemma set_perm a i v : 0 <= i < len a -> get a i :: set a i v ≡ₚ v :: a.
Proof.
  unfold set, get, len. intros Hi. assert (Z.to_nat i < length a)%nat as Hlt by lia.
  pose proof (list_lookup_lookup_total_lt a (Z.to_nat i) Hlt) as Ha.
  rewrite (delete_Permutation a _ _ Ha) at 3.
  assert (<[Z.to_nat i := v]> a !! Z.to_nat i = Some v) as Hv by (by apply list_lookup_insert_eq).
  rewrite (delete_Permutation _ _ _ Hv), delete_insert_eq. apply Permutation_swap.
Qed.

Lemma swap_perm a i j : 0 <= i < len a -> 0 <= j < len a -> swap a i j ≡ₚ a.
Proof.
  intros Hi Hj. unfold swap.
  pose proof (set_perm a i (get a j) Hi) as H1.
  pose proof (set_perm (set a i (get a j)) j (get a i) ltac:(by rewrite len_set)) as H2.
  rewrite get_set in H2 by lia. destruct (i =? j) eqn:E; zb.
  - subst j. apply (Permutation_cons_inv (a := get a i)). rewrite H2. done.
  - apply (Permutation_cons_inv (a := get a j)). rewrite H2. done.
Qed.

Lemma shuffled_swap l r a i j :
  0 <= l -> l <= i <= r -> l <= j <= r -> r < len a -> shuffled l r a (swap a i j).
Proof.
  intros Hl Hi Hj Hr. split_and!.
  - apply len_swap.
  - apply swap_perm; lia.
  - intros k Hk Hko. rewrite get_swap by lia. do 2 (case_if; [lia|]). done.
  - intros k Hk. rewrite get_swap by lia. case_if; [by exists i|]. case_if; [by exists j|]. by exists k.
Qed.
End Arrays.

#[export] Hint Resolve shuffled_refl : bl.

(** ** C integers

    The result of an operation on [int]s of 32 bits: a result outside them is undefined. *)
Definition c_int (z : Z) : option Z := if (- 2 ^ 31 <=? z) && (z <? 2 ^ 31) then Some z else None.

Lemma c_int_ok z : - 2 ^ 31 <= z < 2 ^ 31 -> c_int z = Some z.
Proof. intros Hz. unfold c_int. replace (_ && _) with true by lia. done. Qed.

(** ** Loops whose body may be undefined *)

Definition whileM {S R : Type} (step : S -> option (S + R)) (s : S) : option R :=
  mjoin (while (fun s => match step s with
                         | None => inr None
                         | Some (inl s') => inl s'
                         | Some (inr r) => inr (Some r)
                         end) loop_fuel s).

Arguments whileM : simpl never.
Strategy 1000 [whileM].

Lemma whileM_total {S R} (step : S -> option (S + R)) (I : S -> Prop) (m : S -> Z) (Q : R -> Prop) s :
  (forall s, I s -> exists o, step s = Some o /\
     match o with inl s' => I s' /\ 0 <= m s' < m s | inr r => Q r end) ->
  I s -> m s < 2 ^ 256 -> exists r, whileM step s = Some r /\ Q r.
Proof.
  intros Hstep HI Hm. unfold whileM.
  edestruct (while_total (fun s => match step s with
                         | None => inr None
                         | Some (inl s') => inl s'
                         | Some (inr r) => inr (Some r)
                         end) I m (fun o => exists r, o = Some r /\ Q r)) as (o & -> & r & -> & Hr).
  - intros s' Hs'. destruct (Hstep s' Hs') as ([s1|r] & -> & H); [done|]. by exists r.
  - exact HI.
  - by rewrite loop_fuel_val.
  - by exists r.
Qed.

(** A body that is undefined at the start. *)
Lemma whileM_undefined {S R} (step : S -> option (S + R)) s : step s = None -> whileM step s = None.
Proof.
  intros Hs. unfold whileM.
  edestruct (while_total (fun s => match step s with
                         | None => inr None
                         | Some (inl s') => inl s'
                         | Some (inr r) => inr (Some r)
                         end) (eq s) (fun _ => 0) (eq None)) as (o & -> & <-).
  - intros s' <-. by rewrite Hs.
  - done.
  - rewrite loop_fuel_val. lia.
  - done.
Qed.
