(* ===== verification/StrUtil.v ===== *)
(** * Numbers as strings: [client/StrUtil.h]

    [Util::toString] of integers, [stringToInt] behind [Util::toInt], [toUInt32] and [toInt64].
    Strings are lists of bytes; the C string ends at the end of the list or at a zero. *)

From S2P Require Import Prelude.

Definition is_digit (c : Z) : bool := (48 <=? c) && (c <=? 57).
Definition isWhiteSpace (c : Z) : bool := (c =? 32) || (c =? 12) || (c =? 10) || (c =? 13) || (c =? 9) || (c =? 11).

(** The loop of [intToString]: the buffer has room for 64 characters, one of them the sign. *)
Fixpoint int_digits (fuel : nat) (negative : bool) (v : Z) (s : list Z) : option (list Z) :=
  if v =? 0 then Some s
  else
    match fuel with
    | O => None
    | S fuel =>
        let r := Z.rem v 10 in
        int_digits fuel negative (Z.quot v 10) ((if negative then 48 - r else 48 + r) :: s)
    end.

Definition intToString (v : Z) : option (list Z) :=
  let negative := v <? 0 in
  s ← int_digits 63 negative v [];
  let s := match s with [] => [48] | _ => s end in
  Some (if negative then 45 :: s else s).

(** An integer type: its width and whether it is signed.  Signed arithmetic must stay in range,
    unsigned arithmetic wraps. *)
Record IntType := mkInt { it_width : Z; it_signed : bool }.
Definition int_t := mkInt 32 true.
Definition uint32_t := mkInt 32 false.
Definition int64_t := mkInt 64 true.

Definition in_type (t : IntType) (v : Z) : option Z :=
  if it_signed t then if (- 2 ^ (it_width t - 1) <=? v) && (v <? 2 ^ (it_width t - 1)) then Some v else None
  else Some (wrap (it_width t) v).

(** [result*10 + *s - '0'], from left to right. *)
Fixpoint read_digits (t : IntType) (result : Z) (s : list Z) : option Z :=
  match s with
  | c :: s =>
      if is_digit c then
        r ← in_type t (result * 10); r ← in_type t (r + c); r ← in_type t (r - 48); read_digits t r s
      else Some result
  | [] => Some result
  end.

Fixpoint skip_spaces (s : list Z) : list Z :=
  match s with c :: r => if isWhiteSpace c then skip_spaces r else s | [] => [] end.

Definition stringToInt (t : IntType) (s : list Z) : option Z :=
  match skip_spaces s with
  | (c :: r) as s =>
      if it_signed t && (c =? 45) then v ← read_digits t 0 r; in_type t (- v)
      else read_digits t 0 (if c =? 43 then r else s)
  | [] => Some 0
  end.

Definition toInt := stringToInt int_t.
Definition toUInt32 := stringToInt uint32_t.
Definition toInt64 := stringToInt int64_t.

(** The number that digits denote. *)
Definition dec (ds : list Z) : Z := fold_left (fun n d => 10 * n + (d - 48)) ds 0.

Lemma int_digits_ok fuel v s : Z.abs v < 10 ^ Z.of_nat fuel ->
  exists ds, int_digits fuel (v <? 0) v s = Some (ds ++ s) /\ forallb is_digit ds = true /\ dec ds = Z.abs v /\
    (v = 0 -> ds = []) /\ (v <> 0 -> exists x r, ds = x :: r /\ x <> 48).
Proof.
  revert v s. induction fuel as [|fuel IH]; intros v s Hv.
  { assert (v = 0) as -> by lia. exists []. cbn. split; [reflexivity|]. repeat split. contradiction. }
  cbn [int_digits]. destruct (Z.eqb_spec v 0) as [-> |Hn].
  { exists []. repeat split. contradiction. }
  replace (if v <? 0 then 48 - Z.rem v 10 else 48 + Z.rem v 10) with (48 + Z.abs (Z.rem v 10)) by (destruct (Z.ltb_spec v 0); Z.to_euclidean_division_equations; lia).
  set (q := Z.quot v 10). set (d := Z.abs (Z.rem v 10)). assert (0 <= d < 10 /\ Z.abs v = 10 * Z.abs q + d /\ (q = 0 \/ (q <? 0) = (v <? 0))) as (Hd & Hq & Hs).
  { subst q d. destruct (Z.ltb_spec (Z.quot v 10) 0), (Z.ltb_spec v 0); Z.to_euclidean_division_equations; lia. }
  rewrite Nat2Z.inj_succ, Z.pow_succ_r in Hv by lia.
  destruct (IH q ((48 + d) :: s) ltac:(lia)) as (ds & H1 & H2 & H3 & H4 & H5). exists (ds ++ [48 + d]). split; [|split; [|split; [|split]]].
  - rewrite <- app_assoc. destruct Hs as [-> |<-]; [|exact H1]. rewrite (H4 eq_refl). destruct fuel; reflexivity.
  - rewrite forallb_app, H2. cbn. unfold is_digit. lia.
  - unfold dec in *. rewrite fold_left_app, H3. cbn. lia.
  - contradiction.
  - intros _. destruct (Z.eq_dec q 0) as [E|E].
    + rewrite (H4 E). exists (48 + d), []. split; [reflexivity|]. lia.
    + destruct (H5 E) as (x & r & -> & Hx). exists x, (r ++ [48 + d]). split; [reflexivity|exact Hx].
Qed.

(** The decimal digits of a number, without leading zeros. *)
Lemma intToString_ok v : Z.abs v < 10 ^ 63 ->
  exists x ds, intToString v = Some (if v <? 0 then 45 :: x :: ds else x :: ds) /\ forallb is_digit (x :: ds) = true /\
    dec (x :: ds) = Z.abs v /\ (x = 48 -> v = 0 /\ ds = []).
Proof.
  intros Hv. unfold intToString. destruct (int_digits_ok 63 v [] Hv) as (ds & -> & H2 & H3 & H4 & H5). cbn [mbind option_bind].
  rewrite app_nil_r. destruct (Z.eq_dec v 0) as [-> |Hn].
  - rewrite (H4 eq_refl). exists 48, []. repeat split.
  - destruct (H5 Hn) as (x & r & -> & Hx). exists x, r. split; [reflexivity|]. split; [exact H2|]. split; [exact H3|]. contradiction.
Qed.

(** ** Numbers are read back *)

Lemma dec_nonneg ds n : forallb is_digit ds = true -> 0 <= n -> n <= fold_left (fun n d => 10 * n + (d - 48)) ds n.
Proof.
  revert n. induction ds as [|d ds IH]; intros n H Hn; cbn in *; [lia|]. apply andb_prop in H as [Hd H]. unfold is_digit in Hd. zb.
  specialize (IH (10 * n + (d - 48)) H ltac:(lia)). lia.
Qed.

Lemma read_digits_ok w ds r tail : 0 < w -> forallb is_digit ds = true -> 0 <= r ->
  match tail with c :: _ => is_digit c = false | [] => True end ->
  let v := fold_left (fun n d => 10 * n + (d - 48)) ds r in v + 48 < 2 ^ (w - 1) ->
  read_digits (mkInt w true) r (ds ++ tail) = Some v.
Proof.
  intros Hw. revert r. induction ds as [|d ds IH]; intros r H Hr Ht v Hv; cbn [app].
  - destruct tail as [|c tail]; [reflexivity|]. cbn [read_digits]. rewrite Ht. reflexivity.
  - cbn [forallb] in H. apply andb_prop in H as [Hd H]. cbn [read_digits]. rewrite Hd. unfold is_digit in Hd. zb.
    pose proof (dec_nonneg ds (10 * r + (d - 48)) H ltac:(lia)) as Hle. subst v. cbn [fold_left] in Hv.
    assert (forall x, 0 <= x -> x < 2 ^ (w - 1) -> in_type (mkInt w true) x = Some x) as Hin.
    { intros x A1 A2. unfold in_type. cbn [it_signed it_width]. pose proof (Z.pow_pos_nonneg 2 (w - 1)).
      replace ((- 2 ^ (w - 1) <=? x) && (x <? 2 ^ (w - 1))) with true by lia. reflexivity. }
    rewrite Hin by lia. cbn [mbind option_bind]. rewrite Hin by lia. cbn [mbind option_bind]. rewrite Hin by lia. cbn [mbind option_bind].
    rewrite IH; [f_equal; cbn [fold_left]; f_equal; lia|exact H|lia|exact Ht|]. replace (r * 10 + d - 48) with (10 * r + (d - 48)) by lia. exact Hv.
Qed.

Lemma number_text w n tail : 48 + Z.abs n < 2 ^ (w - 1) -> 0 < w <= 64 ->
  match tail with c :: _ => is_digit c = false | [] => True end ->
  exists t, intToString n = Some t /\ stringToInt (mkInt w true) (t ++ tail) = Some n.
Proof.
  intros Hn Hw Ht. assert (2 ^ (w - 1) <= 2 ^ 63) by (apply Z.pow_le_mono_r; lia).
  destruct (intToString_ok n ltac:(lia)) as (x & ds & Hi & Hd & Hv & _). rewrite Hi. eexists. split; [reflexivity|].
  pose proof (read_digits_ok w (x :: ds) 0 tail ltac:(lia) Hd ltac:(lia) Ht) as Hr. unfold dec in Hv. cbv zeta in Hr. rewrite Hv in Hr.
  specialize (Hr ltac:(lia)). pose proof Hd as Hx. cbn [forallb] in Hx. apply andb_prop in Hx as [Hx _]. unfold is_digit in Hx. zb.
  destruct (Z.ltb_spec n 0); cbn [app] in *.
  - unfold stringToInt. change (skip_spaces (45 :: ?s)) with (45 :: s). cbn [it_signed andb]. change (45 =? 45) with true. cbv iota.
    rewrite Hr. cbn [mbind option_bind]. unfold in_type. cbn [it_signed it_width].
    replace ((- 2 ^ (w - 1) <=? - Z.abs n) && (- Z.abs n <? 2 ^ (w - 1))) with true by lia. f_equal. lia.
  - unfold stringToInt. assert (skip_spaces (x :: ds ++ tail) = x :: ds ++ tail) as ->.
    { cbn [skip_spaces]. unfold isWhiteSpace. replace (x =? 32) with false by lia. replace (x =? 12) with false by lia.
      replace (x =? 10) with false by lia. replace (x =? 13) with false by lia. replace (x =? 9) with false by lia.
      replace (x =? 11) with false by lia. reflexivity. }
    replace (x =? 45) with false by lia. replace (x =? 43) with false by lia. rewrite andb_false_r. cbv iota.
    rewrite Hr. f_equal. lia.
Qed.

(** A number that is printed is read back as itself, alone or before other text, up to 48 below
    the largest of its type: the loop adds the character before it subtracts the code of zero. *)
Theorem stringToInt_intToString w n tail : 48 + Z.abs n < 2 ^ (w - 1) -> 0 < w <= 64 ->
  match tail with c :: _ => is_digit c = false | [] => True end ->
  exists t, intToString n = Some t /\ stringToInt (mkInt w true) (t ++ tail) = Some n.
Proof. apply number_text. Qed.

Lemma stringToInt_intToString_witness : exists t, intToString (-1024) = Some t /\ toInt64 (t ++ [32; 49]) = Some (-1024).
Proof. apply (stringToInt_intToString 64 (-1024) [32; 49]); [reflexivity|lia|reflexivity]. Defined.

(** The largest number overflows on the way. *)
Example toInt_max : toInt [50; 49; 52; 55; 52; 56; 51; 54; 52; 55] = None.
Proof. reflexivity. Qed.
