(* ===== verification/Tokenizer.v ===== *)
(** * Cutting strings: [client/SimpleStringTokenizer.h], [client/StringTokenizer.h],
    [client/Wildcards.h]

    The two tokenizers and the translation of a list of patterns into the text of a regular
    expression.  The regular expressions themselves are those of the standard library: what
    [basic_regex::assign] makes of a text is an argument. *)

From S2P Require Import Prelude.

(** ** [std::string] *)

Fixpoint find_char (c : Z) (l : list Z) : option nat :=
  match l with [] => None | x :: l => if x =? c then Some O else S <$> find_char c l end.

(** [str.find(c, pos)] and [str.substr(pos, n)]. *)
Definition str_find (str : list Z) (c : Z) (pos : nat) : option nat := (fun i => (pos + i)%nat) <$> find_char c (drop pos str).
Definition substr (str : list Z) (pos n : nat) : list Z := take n (drop pos str).

(** [str.find(tok, pos)] of a string. *)
Fixpoint find_text (tok : list Z) (l : list Z) : option nat :=
  if bool_decide (take (length tok) l = tok) then Some O
  else match l with [] => None | _ :: l => S <$> find_text tok l end.

(** ** [class SimpleStringTokenizer]

    The state is [start]; an answer comes with the new one. *)

Definition getNextToken (str : list Z) (c : Z) (start : nat) : option (list Z) * nat :=
  if (length str <=? start)%nat then (None, start)
  else
    let next := default (length str) (str_find str c start) in
    (Some (substr str start (next - start)), (next + 1)%nat).

(** The loop of [getNextNonEmptyToken] over separators. *)
Fixpoint skip_separators (l : list Z) (c : Z) (start : nat) : nat :=
  match l with x :: l => if x =? c then skip_separators l c (S start) else start | [] => start end.

Definition getNextNonEmptyToken (str : list Z) (c : Z) (start : nat) : option (list Z) * nat :=
  let start := skip_separators (drop start str) c start in
  if (length str <=? start)%nat then (None, start)
  else
    let next := default (length str) (str_find str c start) in
    (Some (substr str start (next - start)), (next + 1)%nat).

(** [while (t.getNextNonEmptyToken(s)) ...] and the same for [getNextToken]. *)
Fixpoint all_tokens (next : nat -> option (list Z) * nat) (fuel start : nat) : option (list (list Z)) :=
  match fuel with
  | O => None
  | S fuel =>
      match next start with
      | (None, _) => Some []
      | (Some t, start) => cons t <$> all_tokens next fuel start
      end
  end.

(** ** [class StringTokenizer]

    The loop of [slice]; [find] is [str.find(tok, pos)]. *)
Fixpoint slice_loop (find : nat -> option nat) (str : list Z) (tokLen fuel pos : nat) (tokens : list (list Z)) : option (list (list Z)) :=
  match fuel with
  | O => None
  | S fuel =>
      match find pos with
      | Some next => slice_loop find str tokLen fuel (next + tokLen) (tokens ++ [substr str pos (next - pos)])
      | None => Some (if (pos <? length str)%nat then tokens ++ [drop pos str] else tokens)
      end
  end.

Definition StringTokenizer_char (str : list Z) (tok : Z) : option (list (list Z)) :=
  slice_loop (str_find str tok) str 1 (S (length str)) 0 [].

(** With an empty [tok] the loop would not end. *)
Definition StringTokenizer_text (str tok : list Z) : option (list (list Z)) :=
  slice_loop (fun pos => (fun i => (pos + i)%nat) <$> find_text tok (drop pos str)) str (length tok) (S (length str)) 0 [].

(** ** [Wildcards::regexFromPatternList] *)

Definition regex_special (c : Z) : bool :=
  existsb (Z.eqb c) [93; 94; 36; 92; 46; 43; 40; 41; 123; 125; 124].

(** The characters of a set, from the one after the bracket to the closing one at [n]: the text
    and what follows, [None] where the function returns false. *)
Definition pattern_set (l : list Z) (n : nat) : option (list Z) :=
  let neg := bool_decide (l !! O = Some 33) in
  let j := if neg then 1%nat else O in
  if neg && (j =? n)%nat then None
  else
    let pre := if neg then [94] else [] in
    if bool_decide (l !! j = Some 45) then
      if (j + 1 =? n)%nat then None
      else Some (pre ++ [92; 99; 97; 45] ++ substr l (j + 1) (n - (j + 1) + 1))
    else Some (pre ++ substr l j (n - j + 1)).

(** The loop over the characters of a pattern. *)
Fixpoint pattern_text (fuel : nat) (l : list Z) : option (list Z) :=
  match fuel, l with
  | _, [] => Some []
  | O, _ => None
  | S fuel, c :: r =>
      if c =? 42 then app [46; 42] <$> pattern_text fuel r
      else if c =? 63 then cons 46 <$> pattern_text fuel r
      else if c =? 91 then
        match find_char 93 r with
        | None => app [92; 91] <$> pattern_text fuel r
        | Some n =>
            set ← pattern_set r n;
            app (91 :: set) <$> pattern_text fuel (drop (n + 1) r)
        end
      else app (if regex_special c then [92; c] else [c]) <$> pattern_text fuel r
  end.

Fixpoint patterns_text (l : list (list Z)) (reStr : list Z) : option (list Z) :=
  match l with
  | [] => Some reStr
  | p :: l =>
      t ← pattern_text (length p) p;
      patterns_text l (reStr ++ (if bool_decide (reStr = []) then [] else [124]) ++ t)
  end.

Section Regex.
Context {Regex : Type} (regex_assign : list Z -> bool -> option Regex).

(** [None] where it returns false. *)
Definition regexFromPatternList (s : list Z) (ignoreCase : bool) : option Regex :=
  if bool_decide (s = []) then None
  else
    tokens ← all_tokens (getNextNonEmptyToken s 59) (S (S (length s))) 0;
    reStr ← patterns_text tokens [];
    regex_assign reStr ignoreCase.
End Regex.

(** ** What the tokenizers give *)

(** The pieces between separators, all of them. *)
Fixpoint split (c : Z) (l : list Z) : list (list Z) :=
  match l with
  | [] => [[]]
  | x :: l => if x =? c then [] :: split c l else match split c l with p :: r => (x :: p) :: r | [] => [[x]] end
  end.

Definition not_empty (t : list Z) : bool := negb (bool_decide (t = [])).

Lemma split_find c l :
  match find_char c l with
  | Some i => split c l = take i l :: split c (drop (S i) l) /\ (i < length l)%nat
  | None => split c l = [l]
  end.
Proof.
  induction l as [|x l IH]; cbn [find_char split]; [reflexivity|]. destruct (x =? c); [split; [reflexivity|cbn; lia]|].
  destruct (find_char c l) as [i|]; cbn [fmap option_fmap option_map].
  - destruct IH as [-> Hi]. split; [reflexivity|cbn; lia].
  - rewrite IH. reflexivity.
Qed.

Lemma skip_separators_spec c l start : exists k, skip_separators l c start = (start + k)%nat /\ (k <= length l)%nat /\
  List.filter not_empty (split c (drop k l)) = List.filter not_empty (split c l) /\ head (drop k l) <> Some c.
Proof.
  revert start. induction l as [|x l IH]; intros start; cbn [skip_separators].
  - exists O. rewrite Nat.add_0_r. repeat split; try lia. discriminate.
  - destruct (Z.eqb_spec x c) as [->|Hx].
    + destruct (IH (S start)) as (k & -> & Hk & Hf & Hh). exists (S k). cbn [drop split length]. rewrite Z.eqb_refl. repeat split; [lia|lia|exact Hf|exact Hh].
    + exists O. rewrite Nat.add_0_r. repeat split; [cbn; lia|]. cbn. congruence.
Qed.

Lemma find_next str c start : (start <= length str)%nat ->
  let next := default (length str) (str_find str c start) in
  (start <= next <= length str)%nat /\
  split c (drop start str) = match str_find str c start with
    | Some _ => substr str start (next - start) :: split c (drop (next + 1) str)
    | None => [substr str start (next - start)]
    end /\ (str_find str c start = None -> next = length str).
Proof.
  intros Hs. unfold str_find, substr. pose proof (split_find c (drop start str)) as H. destruct (find_char c (drop start str)) as [i|]; cbn.
  - destruct H as [-> Hi]. rewrite length_drop in Hi. replace (start + i - start)%nat with i by lia. rewrite drop_drop.
    replace (start + i + 1)%nat with (start + S i)%nat by lia. repeat split; [lia|lia|discriminate].
  - rewrite H, take_ge by (rewrite length_drop; lia). repeat split; lia.
Qed.

Lemma take_nonempty {A} (n : nat) (l : list A) : (0 < n)%nat -> l <> [] -> take n l <> [].
Proof. destruct n, l; cbn; [lia|lia|congruence|discriminate]. Qed.

Lemma nonempty_tokens str c fuel start : (length str + 1 - start < fuel)%nat ->
  all_tokens (getNextNonEmptyToken str c) fuel start = Some (List.filter not_empty (split c (drop start str))).
Proof.
  revert start. induction fuel as [|fuel IH]; intros start Hf; [lia|]. cbn [all_tokens]. unfold getNextNonEmptyToken.
  destruct (skip_separators_spec c (drop start str) start) as (k & -> & Hk & <- & Hh). rewrite drop_drop in *. rewrite length_drop in Hk.
  destruct (Nat.leb_spec (length str) (start + k)) as [Hl|Hl]; [rewrite (drop_ge str (start + k)) by lia; reflexivity|].
  destruct (find_next str c (start + k)) as (Hn & Hsp & Hnone); [lia|].
  set (next := default (length str) (str_find str c (start + k))) in *. rewrite IH by lia. cbn [fmap option_fmap option_map]. f_equal. rewrite Hsp.
  assert (Hne : substr str (start + k) (next - (start + k)) <> []).
  { assert (next <> (start + k)%nat) as Hd.
    { subst next. unfold str_find. destruct (drop (start + k) str) as [|x l] eqn:E; [apply (f_equal length) in E; rewrite length_drop in E; cbn in E; lia|].
      cbn [find_char]. destruct (Z.eqb_spec x c) as [->|]; [exfalso; apply Hh; reflexivity|]. destruct (find_char c l); cbn; lia. }
    apply take_nonempty; [lia|]. intros E. apply (f_equal length) in E. rewrite length_drop in E. cbn in E. lia. }
  assert (Hb : not_empty (substr str (start + k) (next - (start + k))) = true) by (unfold not_empty; rewrite bool_decide_false by exact Hne; reflexivity).
  destruct (str_find str c (start + k)); cbn [List.filter]; rewrite Hb; [reflexivity|].
  rewrite Hnone, drop_ge by (reflexivity || lia). reflexivity.
Qed.

(** All pieces but a last empty one. *)
Definition drop_last_empty (l : list (list Z)) : list (list Z) := if bool_decide (last l = Some []) then removelast l else l.

Lemma drop_last_cons t l : l <> [] -> drop_last_empty (t :: l) = t :: drop_last_empty l.
Proof. intros Hl. unfold drop_last_empty. destruct l as [|u l]; [congruence|]. cbn [last removelast]. case_bool_decide; reflexivity. Qed.

Lemma split_not_nil c l : split c l <> [].
Proof. destruct l as [|x l]; cbn; [discriminate|]. destruct (x =? c); [discriminate|]. destruct (split c l); discriminate. Qed.

Lemma drop_last_singleton (t : list Z) : drop_last_empty [t] = if not_empty t then [t] else [].
Proof. unfold drop_last_empty, not_empty. cbn. destruct t; [rewrite bool_decide_true by reflexivity; reflexivity|]. rewrite !bool_decide_false by discriminate. reflexivity. Qed.

Lemma slice_tokens str c fuel pos tokens : (pos <= length str)%nat -> (length str - pos < fuel)%nat ->
  slice_loop (str_find str c) str 1 fuel pos tokens = Some (tokens ++ drop_last_empty (split c (drop pos str))).
Proof.
  revert pos tokens. induction fuel as [|fuel IH]; intros pos tokens Hp Hf; [lia|]. cbn [slice_loop].
  destruct (find_next str c pos Hp) as (Hn & Hsp & Hnone). destruct (str_find str c pos) as [next|] eqn:E; cbn in Hn, Hsp.
  - assert (next < length str)%nat.
    { unfold str_find in E. pose proof (split_find c (drop pos str)) as H. destruct (find_char c (drop pos str)); [|discriminate]. cbn in E.
      injection E as <-. destruct H as [_ H]. rewrite length_drop in H. lia. }
    rewrite IH by lia. rewrite Hsp, drop_last_cons, <- app_assoc by apply split_not_nil. reflexivity.
  - pose proof (split_find c (drop pos str)) as H. unfold str_find in E. destruct (find_char c (drop pos str)); [discriminate|]. rewrite H.
    rewrite drop_last_singleton. unfold not_empty. destruct (Nat.ltb_spec pos (length str)).
    + rewrite bool_decide_false; [reflexivity|]. intros E0. apply (f_equal length) in E0. rewrite length_drop in E0. cbn in E0. lia.
    + rewrite drop_ge by lia. rewrite bool_decide_true by reflexivity. rewrite app_nil_r. reflexivity.
Qed.

(** The tokenizers cut a string at the separators: [SimpleStringTokenizer] gives the pieces that are
    not empty, [StringTokenizer] all but a last empty one. *)
Theorem tokenizers_split str c :
  all_tokens (getNextNonEmptyToken str c) (S (S (length str))) 0 = Some (List.filter not_empty (split c str)) /\
  StringTokenizer_char str c = Some (drop_last_empty (split c str)).
Proof.
  split; [apply nonempty_tokens; lia|]. unfold StringTokenizer_char. apply (slice_tokens str c (S (length str)) 0 []); lia.
Qed.
