(* ===== verification/Segment.v ===== *)
(** * Segments of a file: [client/Segment.h] and the rounding helpers of
    [client/Util.h]

    A segment is a half-open range [start, start + size) of file positions.
    [int64_t] values are [Z]: every operation here is an addition or a comparison of
    positions inside a file of less than [2^63] bytes, where nothing wraps. *)

From S2P Require Import Prelude.

(** [class Segment]. *)
Record Segment := mkSegment { getStart : Z; getSize : Z; overlapped : bool }.

#[global] Instance Segment_eq_dec : EqDecision Segment.
Proof. solve_decision. Defined.

#[global] Instance Segment_inhabited : Inhabited Segment :=
  populate (mkSegment 0 (-1) false).

(** The default constructor and the constructor with a default third argument. *)
Definition Segment_default : Segment := mkSegment 0 (-1) false.
Definition mkSeg (start size : Z) : Segment := mkSegment start size false.

Definition getEnd (s : Segment) : Z := getStart s + getSize s.

Definition setSize (s : Segment) (n : Z) : Segment :=
  mkSegment (getStart s) n (overlapped s).

Definition setOverlapped_seg (s : Segment) (b : bool) : Segment :=
  mkSegment (getStart s) (getSize s) b.

Definition overlaps (s rhs : Segment) : bool :=
  (getStart s <? getEnd rhs) && (getStart rhs <? getEnd s).

(** [operator<] and [operator==]: neither looks at the [overlapped] flag. *)
Definition seg_lt (s rhs : Segment) : bool :=
  (getStart s <? getStart rhs) ||
  ((getStart s =? getStart rhs) && (getSize s <? getSize rhs)).

Definition seg_eq (s rhs : Segment) : bool :=
  (getStart s =? getStart rhs) && (getSize s =? getSize rhs).

Definition contains (s rhs : Segment) : bool :=
  (getStart s <=? getStart rhs) && (getEnd s =? getEnd rhs).

(** [Util::roundDown] and [Util::roundUp] ([int64_t]: C division truncates;
    [Z.quot] is that division). *)
Definition roundDown (size blockSize : Z) : Z :=
  ((size + blockSize ÷ 2) ÷ blockSize) * blockSize.

Definition roundUp (size blockSize : Z) : Z :=
  ((size + blockSize - 1) ÷ blockSize) * blockSize.

(** ** Facts about segments *)

(** The positions a segment stands for. *)
Definition seg_in (x : Z) (s : Segment) : Prop := getStart s <= x < getEnd s.

#[global] Instance seg_in_dec x s : Decision (seg_in x s).
Proof. unfold seg_in. apply _. Defined.

Ltac seg_unfold :=
  unfold overlaps, seg_lt, seg_eq, contains, seg_in, getEnd, mkSeg in *; cbn [getStart getSize] in *.

Lemma overlaps_spec s t :
  0 < getSize s -> 0 < getSize t ->
  overlaps s t = true <-> exists x, seg_in x s /\ seg_in x t.
Proof.
  intros Hs Ht. seg_unfold. rewrite andb_true_iff, !Z.ltb_lt. split.
  - intros [H1 H2]. exists (Z.max (getStart s) (getStart t)). lia.
  - intros (x & H1 & H2). lia.
Qed.

Lemma overlaps_comm s t : overlaps s t = overlaps t s.
Proof. seg_unfold. apply andb_comm. Qed.

Lemma seg_lt_irrefl s : seg_lt s s = false.
Proof. seg_unfold. rewrite !Z.ltb_irrefl, andb_false_r. done. Qed.

Lemma seg_lt_trans r s t : seg_lt r s = true -> seg_lt s t = true -> seg_lt r t = true.
Proof.
  seg_unfold. rewrite !orb_true_iff, !andb_true_iff, !Z.ltb_lt, !Z.eqb_eq. lia.
Qed.

Lemma seg_lt_total s t : seg_lt s t = false -> seg_lt t s = false -> seg_eq s t = true.
Proof.
  seg_unfold.
  rewrite !orb_false_iff, !andb_false_iff, !Z.ltb_ge, !Z.eqb_neq, andb_true_iff, !Z.eqb_eq.
  lia.
Qed.

Lemma roundUp_spec n b :
  0 <= n -> 0 < b ->
  n <= roundUp n b < n + b /\ (b | roundUp n b).
Proof.
  intros Hn Hb. unfold roundUp. rewrite Z.quot_div_nonneg by lia. split.
  - pose proof (Z.div_mod (n + b - 1) b ltac:(lia)).
    pose proof (Z.mod_pos_bound (n + b - 1) b Hb). lia.
  - apply Z.divide_factor_r.
Qed.

(** [roundDown] returns the multiple of the block size nearest to its
    argument: within half a block, on either side. *)
Lemma roundDown_spec n b :
  0 <= n -> 0 < b ->
  n - b < 2 * roundDown n b - n <= n + b /\ (b | roundDown n b).
Proof.
  intros Hn Hb. unfold roundDown.
  assert (0 <= b ÷ 2) by (apply Z.quot_pos; lia).
  rewrite !Z.quot_div_nonneg in * by lia. split.
  - pose proof (Z.div_mod (n + b / 2) b ltac:(lia)).
    pose proof (Z.mod_pos_bound (n + b / 2) b Hb).
    pose proof (Z.div_mod b 2 ltac:(lia)). pose proof (Z.mod_pos_bound b 2 ltac:(lia)).
    lia.
  - apply Z.divide_factor_r.
Qed.

Lemma roundDown_multiple n b : 0 <= n -> 0 < b -> (b | n) -> roundDown n b = n.
Proof.
  intros Hn Hb [k ->]. unfold roundDown.
  rewrite (Z.quot_div_nonneg b 2) by lia.
  pose proof (Z.div_pos b 2 ltac:(lia) ltac:(lia)).
  rewrite Z.quot_div_nonneg by lia.
  rewrite Z.add_comm, Z.div_add by lia.
  rewrite (Z.div_small (b / 2)); [lia|]. split; [lia|]. apply Z.div_lt; lia.
Qed.

Lemma roundUp_multiple n b : 0 <= n -> 0 < b -> (b | n) -> roundUp n b = n.
Proof.
  intros Hn Hb [k ->]. unfold roundUp. rewrite Z.quot_div_nonneg by lia.
  replace (k * b + b - 1) with (b - 1 + k * b) by lia.
  rewrite Z.div_add, Z.div_small by lia. lia.
Qed.

#[export] Hint Resolve seg_lt_irrefl seg_lt_trans : bl.
