(* ===== verification/SegmentSet.v ===== *)
(** * The set of downloaded segments of a queue item

    [QueueItem::doneSegments] is a [boost::container::flat_set<Segment>]
    ([client/QueueItem.h]): a vector kept sorted by [Segment::operator<] with no
    two equivalent elements.  [QueueItem::addSegmentL] ([client/QueueItem.cpp])
    inserts a segment and then merges adjacent or overlapping neighbours. *)

From S2P Require Import Prelude Segment.

Abbreviation SegmentSet := (list Segment).

(** ** [flat_set]: positions are indices into the vector *)

Fixpoint fs_lower_bound (s : Segment) (l : SegmentSet) : nat :=
  match l with
  | [] => 0
  | x :: r => if seg_lt x s then S (fs_lower_bound s r) else 0
  end.

(** [insert(s)]: the new vector and the position of [s] (or of the equivalent
    element that was already there, in which case nothing is inserted). *)
Definition fs_insert (s : Segment) (l : SegmentSet) : SegmentSet * nat :=
  let p := fs_lower_bound s l in
  match l !! p with
  | Some x => if seg_lt s x then (take p l ++ s :: drop p l, p) else (l, p)
  | None => (l ++ [s], p)
  end.

(** ** [QueueItem::addSegmentL] *)

(** The body of the consolidation loop; the state is the set, the running
    [doneSegmentsSize] and the index of [current]. *)
Definition consolidate_step (st : SegmentSet * Z * nat) : (SegmentSet * Z * nat) + (SegmentSet * Z) :=
  let '(l, sz, cur) := st in
  match l !! pred cur, l !! cur with
  | Some segPrev, Some segCurrent =>
      if getStart segCurrent <=? getEnd segPrev then
        let bigEnd := Z.max (getEnd segCurrent) (getEnd segPrev) in
        let big := mkSeg (getStart segPrev) (bigEnd - getStart segPrev) in
        let removedSize := getSize segPrev + getSize segCurrent in
        let '(l', p) := fs_insert big (delete (pred cur) (delete cur l)) in
        inl (l', sz - removedSize + getSize big, S p)
      else inl (l, sz, S cur)
  | _, _ => inr (l, sz)
  end.

Definition addSegmentL (l : SegmentSet) (sz : Z) (segment : Segment) : option (SegmentSet * Z) :=
  let l' := fst (fs_insert segment l) in
  let sz' := sz + getSize segment in
  if bool_decide (length l' = 1%nat) then Some (l', sz')
  else while consolidate_step loop_fuel (l', sz', 1%nat).

(** ** Reference: one left-to-right pass *)

Definition hull (p c : Segment) : Segment :=
  mkSeg (getStart p) (Z.max (getEnd c) (getEnd p) - getStart p).

Fixpoint merge_segs (p : Segment) (l : SegmentSet) : SegmentSet :=
  match l with
  | [] => [p]
  | c :: r => if getStart c <=? getEnd p then merge_segs (hull p c) r else p :: merge_segs c r
  end.

Definition consolidated (l : SegmentSet) : SegmentSet :=
  match l with [] => [] | p :: r => merge_segs p r end.

(** ** What the set means *)

Definition covered (x : Z) (l : SegmentSet) : Prop := Exists (seg_in x) l.

Definition total_size (l : SegmentSet) : Z := foldr (fun s a => getSize s + a) 0 l.

(** Strictly increasing for [operator<]: the representation invariant of the
    flat set. *)
Definition fs_sorted (l : SegmentSet) : Prop := StronglySorted (fun s t => seg_lt s t = true) l.

(** Disjoint, non-adjacent, non-empty segments in increasing order: what
    [addSegmentL] maintains. *)
Definition gapped (l : SegmentSet) : Prop :=
  StronglySorted (fun s t => getEnd s < getStart t) l /\ Forall (fun s => 0 < getSize s) l.

Lemma covered_cons x s l : covered x (s :: l) <-> seg_in x s \/ covered x l.
Proof. unfold covered. by rewrite Exists_cons. Qed.

Lemma covered_app x l1 l2 : covered x (l1 ++ l2) <-> covered x l1 \/ covered x l2.
Proof. unfold covered. by rewrite Exists_app. Qed.

Lemma total_size_app l1 l2 : total_size (l1 ++ l2) = total_size l1 + total_size l2.
Proof. unfold total_size. induction l1 as [|s l1 IH]; simpl; lia. Qed.

(** ** The flat set's insertion *)

Lemma fs_lower_bound_split s l :
  Forall (fun x => seg_lt x s = true) (take (fs_lower_bound s l) l) /\
  (forall x, l !! fs_lower_bound s l = Some x -> seg_lt x s = false).
Proof.
  induction l as [|y l [IH1 IH2]]; simpl; [done|].
  destruct (seg_lt y s) eqn:E; simpl; [by auto|]. split; [done|]. by intros ? [= <-].
Qed.

(** Insertion at the only place that keeps the vector sorted. *)
Lemma fs_insert_between s l1 l2 :
  Forall (fun x => seg_lt x s = true) l1 ->
  Forall (fun x => seg_lt s x = true) l2 ->
  fs_insert s (l1 ++ l2) = (l1 ++ s :: l2, length l1).
Proof.
  intros H1 H2. unfold fs_insert.
  assert (fs_lower_bound s (l1 ++ l2) = length l1) as ->.
  { induction H1 as [|x l1 Hx H1 IH]; simpl.
    - destruct H2 as [|y l2 Hy _]; simpl; [done|].
      destruct (seg_lt y s) eqn:E; [|done].
      pose proof (seg_lt_trans _ _ _ Hy E). rewrite seg_lt_irrefl in *. done.
    - by rewrite Hx, IH. }
  rewrite lookup_app_r, Nat.sub_diag by lia.
  destruct H2 as [|y l2 Hy _]; simpl.
  - by rewrite app_nil_r.
  - by rewrite Hy, take_app_length, drop_app_length.
Qed.

Lemma seg_lt_eq_l s t u : seg_eq s t = true -> seg_lt t u = true -> seg_lt s u = true.
Proof.
  seg_unfold. rewrite !orb_true_iff, !andb_true_iff, !Z.ltb_lt, !Z.eqb_eq. lia.
Qed.

(** Either the segment goes between its predecessors and its successors, or an
    equivalent one is present and the set does not change. *)
Lemma fs_insert_cases s l :
  fs_sorted l ->
  (exists l1 l2, l = l1 ++ l2 /\ Forall (fun x => seg_lt x s = true) l1 /\
     Forall (fun x => seg_lt s x = true) l2 /\ fst (fs_insert s l) = l1 ++ s :: l2) \/
  (exists x, x ∈ l /\ seg_eq s x = true /\ fst (fs_insert s l) = l).
Proof.
  intros Hs. destruct (fs_lower_bound_split s l) as [H1 H2].
  destruct (l !! fs_lower_bound s l) as [x|] eqn:Hx.
  - pose proof (H2 x eq_refl) as Hlt. pose proof (drop_S _ _ _ Hx) as Hd.
    destruct (seg_lt s x) eqn:E.
    + left. exists (take (fs_lower_bound s l) l), (drop (fs_lower_bound s l) l).
      split_and!; [by rewrite take_drop|done| |].
      * rewrite Hd. constructor; [done|].
        rewrite <-(take_drop (fs_lower_bound s l) l) in Hs. unfold fs_sorted in Hs.
        rewrite Hd in Hs. apply StronglySorted_app_1_r in Hs.
        apply StronglySorted_inv in Hs as [_ Hs]. eapply Forall_impl; [exact Hs|].
        intros y Hy. simpl in Hy. by eapply seg_lt_trans.
      * unfold fs_insert. by rewrite Hx, E.
    + right. exists x. split; [by eapply list_elem_of_lookup_2|]. split.
      * by apply seg_lt_total.
      * unfold fs_insert. by rewrite Hx, E.
  - left. exists l, []. apply lookup_ge_None in Hx.
    split_and!; [by rewrite app_nil_r| |done|].
    + by rewrite take_ge in H1 by done.
    + unfold fs_insert. rewrite lookup_ge_None_2 by done. done.
Qed.

Lemma fs_sorted_app l1 l2 :
  fs_sorted (l1 ++ l2) <->
  fs_sorted l1 /\ fs_sorted l2 /\ Forall (fun x => Forall (fun y => seg_lt x y = true) l2) l1.
Proof.
  unfold fs_sorted. induction l1 as [|x l1 IH]; simpl.
  - split; [|by intros (_ & ? & _)]. intros ?. split_and!; [constructor|done|constructor].
  - split.
    + intros [H1 H2]%StronglySorted_inv. apply Forall_app in H2 as [H2 H3].
      apply IH in H1 as (? & ? & ?). split_and!; [by constructor|done|by constructor].
    + intros ([H1 H2]%StronglySorted_inv & H3 & [H4 H5]%Forall_cons).
      constructor; [by apply IH|]. apply Forall_app. done.
Qed.

Lemma fs_insert_sorted s l : fs_sorted l -> fs_sorted (fst (fs_insert s l)).
Proof.
  intros Hs. destruct (fs_insert_cases s l Hs) as [(l1 & l2 & -> & H1 & H2 & ->)|(x & _ & _ & ->)];
    [|done].
  apply fs_sorted_app in Hs as (Hs1 & Hs2 & Hs3). apply fs_sorted_app. split_and!.
  - done.
  - constructor; done.
  - rewrite Forall_forall in H1, Hs3 |- *. intros y Hy.
    constructor; [by apply H1|by apply Hs3].
Qed.

(** ** The consolidation loop computes the reference *)

Lemma hull_lt_l x p c : seg_lt x p = true -> seg_lt p c = true -> seg_lt x (hull p c) = true.
Proof.
  unfold hull. seg_unfold.
  rewrite !orb_true_iff, !andb_true_iff, !Z.ltb_lt, !Z.eqb_eq. lia.
Qed.

Lemma hull_lt_r p c y : seg_lt p c = true -> seg_lt c y = true -> seg_lt (hull p c) y = true.
Proof.
  unfold hull. seg_unfold.
  rewrite !orb_true_iff, !andb_true_iff, !Z.ltb_lt, !Z.eqb_eq. lia.
Qed.

(** One iteration at index [S (length pre)]. *)
Lemma consolidate_step_mid pre p c rest sz :
  fs_sorted (pre ++ p :: c :: rest) ->
  consolidate_step (pre ++ p :: c :: rest, sz, S (length pre)) =
  if getStart c <=? getEnd p
  then inl (pre ++ hull p c :: rest, sz - (getSize p + getSize c) + getSize (hull p c),
            S (length pre))
  else inl (pre ++ p :: c :: rest, sz, S (S (length pre))).
Proof.
  intros Hs. unfold consolidate_step. simpl pred.
  assert ((pre ++ p :: c :: rest) !! S (length pre) = Some c) as ->.
  { rewrite lookup_app_r by lia. by replace (S (length pre) - length pre)%nat with 1%nat by lia. }
  assert (delete (S (length pre)) (pre ++ p :: c :: rest) = pre ++ p :: rest) as ->.
  { clear Hs. induction pre as [|y pre IH]; simpl in *; [done|]. by rewrite IH. }
  rewrite list_lookup_middle by done. case_if; [|done]. rewrite delete_middle.
  fold (hull p c).
  apply fs_sorted_app in Hs as (_ & [[_ Hc]%StronglySorted_inv Hp]%StronglySorted_inv & H3).
  apply Forall_cons in Hp as [Hpc _].
  rewrite fs_insert_between; [done| |].
  - rewrite Forall_forall in *. intros x Hx. apply hull_lt_l; [|done].
    specialize (H3 x Hx). by apply Forall_cons in H3 as [? _].
  - eapply Forall_impl; [exact Hc|]. intros y Hy. by apply hull_lt_r.
Qed.

Lemma fs_sorted_merge pre p c rest :
  fs_sorted (pre ++ p :: c :: rest) -> fs_sorted (pre ++ hull p c :: rest).
Proof.
  intros (H1 & [[H2 Hc]%StronglySorted_inv Hp]%StronglySorted_inv & H3)%fs_sorted_app.
  apply Forall_cons in Hp as [Hpc _].
  apply fs_sorted_app. split_and!; [done| |].
  - constructor; [done|]. eapply Forall_impl; [exact Hc|]. intros y Hy. by apply hull_lt_r.
  - rewrite Forall_forall in *. intros x Hx. specialize (H3 x Hx).
    apply Forall_cons in H3 as [? [_ ?]%Forall_cons].
    constructor; [by apply hull_lt_l|done].
Qed.

(** The loop run from any index returns the prefix followed by the merge of the
    rest, and keeps the difference between the counter and the total size. *)
Lemma consolidate_loop_total pre p rest sz :
  fs_sorted (pre ++ p :: rest) ->
  Z.of_nat (length (pre ++ p :: rest)) < 2 ^ 250 ->
  while consolidate_step loop_fuel (pre ++ p :: rest, sz, S (length pre)) =
  Some (pre ++ merge_segs p rest,
        sz - total_size (pre ++ p :: rest) + total_size (pre ++ merge_segs p rest)).
Proof.
  intros Hs Hlen.
  pose (I := fun st : SegmentSet * Z * nat =>
    exists pre' p' rest', st.1.1 = pre' ++ p' :: rest' /\ st.2 = S (length pre') /\
      fs_sorted st.1.1 /\ pre' ++ merge_segs p' rest' = pre ++ merge_segs p rest /\
      st.1.2 - total_size st.1.1 = sz - total_size (pre ++ p :: rest)).
  pose (m := fun st : SegmentSet * Z * nat =>
    2 * Z.of_nat (length st.1.1) - Z.of_nat st.2).
  destruct (while_total consolidate_step I m
    (fun r => r = (pre ++ merge_segs p rest,
        sz - total_size (pre ++ p :: rest) + total_size (pre ++ merge_segs p rest)))
    ) with (fuel := loop_fuel) (s := (pre ++ p :: rest, sz, S (length pre)))
    as (r & Hr & ->); [| | |done].
  - intros [[l z] cur] (pre' & p' & rest' & Hl & Hcur & Hs' & Hm & Hz).
    simpl in Hl, Hcur, Hz, Hs'. subst l cur. destruct rest' as [|c rest'].
    + unfold consolidate_step. simpl pred.
      rewrite list_lookup_middle by done.
      rewrite lookup_ge_None_2 by (rewrite length_app; simpl; lia).
      simpl in Hm. rewrite <-Hm. f_equal. lia.
    + rewrite consolidate_step_mid by done. simpl in Hm. unfold m.
      destruct (getStart c <=? getEnd p') eqn:E; cbn [fst snd].
      * split.
        -- exists pre', (hull p' c), rest'. split_and!; [done|done| |done|].
           ++ by eapply fs_sorted_merge.
           ++ simpl. rewrite !total_size_app in *. simpl in *. lia.
        -- rewrite !length_app. cbn [length]. lia.
      * split.
        -- exists (pre' ++ [p']), c, rest'. simpl. rewrite <-!app_assoc. simpl.
           split_and!; [done|rewrite length_app; simpl; lia|done|done|done].
        -- rewrite !length_app. cbn [length]. lia.
  - exists pre, p, rest. done.
  - unfold m. cbn [fst snd]. rewrite loop_fuel_val, length_app in *. cbn [length] in *. lia.
Qed.

(** [addSegmentL] returns, and its result is the reference pass over the set
    with the segment inserted. *)
Lemma addSegmentL_eq l sz s :
  fs_sorted l -> Z.of_nat (length l) < 2 ^ 200 ->
  addSegmentL l sz s =
  Some (consolidated (fst (fs_insert s l)),
        sz + getSize s - total_size (fst (fs_insert s l))
        + total_size (consolidated (fst (fs_insert s l)))).
Proof.
  intros Hs Hlen. unfold addSegmentL.
  pose proof (fs_insert_sorted s l Hs) as Hs'.
  assert (Z.of_nat (length (fst (fs_insert s l))) < 2 ^ 201) as Hlen'.
  { destruct (fs_insert_cases s l Hs) as [(l1 & l2 & -> & _ & _ & ->)|(x & _ & _ & ->)];
      [|lia]. rewrite length_app in *. simpl. lia. }
  destruct (fst (fs_insert s l)) as [|p rest] eqn:E.
  - exfalso. destruct (fs_insert_cases s l Hs) as [([|? ?] & l2 & _ & _ & _ & H)|(x & Hx & _ & H)];
      rewrite E in H; try done. subst l. by apply not_elem_of_nil in Hx.
  - case_bool_decide as H1.
    + destruct rest; [|done]. simpl. do 2 f_equal. lia.
    + rewrite (consolidate_loop_total [] p rest); [|done|]; [done|].
      simpl in *. lia.
Qed.

(** ** What the merged set covers *)

Lemma covered_merge x p l :
  (forall c, c ∈ l -> getStart p <= getStart c) ->
  StronglySorted (fun s t => getStart s <= getStart t) l ->
  covered x (merge_segs p l) <-> covered x (p :: l).
Proof.
  revert p. induction l as [|c l IH]; intros p Hp Hs; simpl; [done|].
  apply StronglySorted_inv in Hs as [Hs Hc].
  pose proof (Hp c (list_elem_of_here _ _)) as Hpc. case_if.
  - rewrite IH; [|by intros ? ?; apply Hp; right|done].
    rewrite !covered_cons. unfold hull. seg_unfold. split.
    2:{ intros [H|[H|H]]; [left; lia|left; lia|by right]. }
    intros [H|H]; [|by auto]. destruct (decide (x < getEnd p)); seg_unfold; [left|right; left]; lia.
  - rewrite covered_cons, IH; [by rewrite !covered_cons| |done].
    rewrite Forall_forall in Hc. done.
Qed.

Lemma fs_sorted_starts l : fs_sorted l -> StronglySorted (fun s t => getStart s <= getStart t) l.
Proof.
  induction 1 as [|s l _ IH Hs]; constructor; [done|].
  eapply Forall_impl; [exact Hs|]. intros t. seg_unfold.
  rewrite orb_true_iff, andb_true_iff, !Z.ltb_lt, Z.eqb_eq. lia.
Qed.

Lemma covered_consolidated x l : fs_sorted l -> covered x (consolidated l) <-> covered x l.
Proof.
  intros Hs%fs_sorted_starts. destruct l as [|p l]; simpl; [done|].
  apply StronglySorted_inv in Hs as [Hs Hp]. rewrite Forall_forall in Hp. by apply covered_merge.
Qed.

Lemma merge_gapped p l :
  0 < getSize p -> Forall (fun s => 0 < getSize s) l ->
  (forall c, c ∈ l -> getStart p <= getStart c) ->
  StronglySorted (fun s t => getStart s <= getStart t) l ->
  gapped (merge_segs p l) /\ Forall (fun s => getStart p <= getStart s) (merge_segs p l).
Proof.
  revert p. induction l as [|c l IH]; intros p Hp Hl Hpc Hs; simpl.
  - split; [split|]; repeat constructor; lia.
  - apply StronglySorted_inv in Hs as [Hs Hc]. apply Forall_cons in Hl as [Hl1 Hl2].
    pose proof (Hpc c (list_elem_of_here _ _)) as H1. case_if.
    + apply (IH (hull p c)); [|done| |done]; unfold hull; seg_unfold; [lia|].
      intros d Hd. apply Hpc. by right.
    + rewrite Forall_forall in Hc.
      destruct (IH c Hl1 Hl2 Hc Hs) as [[H2 H3] H4]. split; [split|].
      * constructor; [done|]. eapply Forall_impl; [exact H4|]. simpl. lia.
      * by constructor.
      * constructor; [lia|]. eapply Forall_impl; [exact H4|]. simpl. lia.
Qed.

Lemma gapped_fs_sorted l : gapped l -> fs_sorted l.
Proof.
  intros [H1 H2]. induction H1 as [|s l _ IH Hs]; [constructor|].
  apply Forall_cons in H2 as [Hs0 H2]. constructor; [by apply IH|].
  eapply Forall_impl; [exact Hs|]. intros t Ht. seg_unfold.
  rewrite orb_true_iff, andb_true_iff, !Z.ltb_lt, Z.eqb_eq. lia.
Qed.

Lemma gapped_consolidated l :
  fs_sorted l -> Forall (fun s => 0 < getSize s) l -> gapped (consolidated l).
Proof.
  intros Hs%fs_sorted_starts Hl. destruct l as [|p l]; [by split; constructor|].
  apply StronglySorted_inv in Hs as [Hs Hp]. apply Forall_cons in Hl as [? ?].
  rewrite Forall_forall in Hp. by apply merge_gapped.
Qed.

(** A gapped set is its own consolidation. *)
Lemma gapped_consolidated_id l : gapped l -> consolidated l = l.
Proof.
  intros [Hg _]. destruct l as [|p l]; [done|]. simpl.
  revert p Hg. induction l as [|c l IH]; intros p [Hg Hp]%StronglySorted_inv; [done|]. simpl.
  apply Forall_cons in Hp as [Hpc _]. destruct (getStart c <=? getEnd p) eqn:E; zb; [lia|]. by rewrite IH.
Qed.

Lemma covered_fs_insert x s l :
  fs_sorted l -> covered x (fst (fs_insert s l)) <-> covered x l \/ seg_in x s.
Proof.
  intros Hs. destruct (fs_insert_cases s l Hs) as [(l1 & l2 & -> & _ & _ & ->)|(y & Hy & He & ->)].
  - rewrite !covered_app, covered_cons. tauto.
  - split; [by left|]. intros [?|?]; [done|]. unfold covered. rewrite Exists_exists. exists y.
    split; [done|]. seg_unfold. zb. lia.
Qed.

(** ** The completion test

    For a gapped set inside [0, n): the total size is [n] exactly when every
    position is covered, and exactly when the set is the one segment [0, n). *)

Lemma gapped_cons_inv s l :
  gapped (s :: l) -> gapped l /\ 0 < getSize s /\ Forall (fun t => getEnd s < getStart t) l.
Proof.
  intros [[H1 H2]%StronglySorted_inv [H3 H4]%Forall_cons]. done.
Qed.

Lemma gapped_total_bound lo n l :
  gapped l -> Forall (fun s => lo <= getStart s /\ getEnd s <= n) l -> lo <= n ->
  total_size l <= n - lo.
Proof.
  intros Hg Hin Hlo. revert lo Hin Hlo. induction l as [|s l IH]; intros lo Hin Hlo; simpl; [lia|].
  apply gapped_cons_inv in Hg as (Hg & Hs & Hl). apply Forall_cons in Hin as [Hin1 Hin2].
  assert (total_size l <= n - getEnd s); [|seg_unfold; lia].
  apply IH; [done| |lia]. apply Forall_and. split.
  - eapply Forall_impl; [exact Hl|]. simpl. lia.
  - eapply Forall_impl; [exact Hin2|]. simpl. lia.
Qed.

Lemma gapped_total_full n l :
  gapped l -> Forall (fun s => 0 <= getStart s /\ getEnd s <= n) l -> 0 < n ->
  total_size l = n -> exists s, l = [s] /\ getStart s = 0 /\ getSize s = n.
Proof.
  intros Hg Hin Hn Ht. destruct l as [|s l]; simpl in Ht; [lia|].
  apply gapped_cons_inv in Hg as (Hg & Hs & Hl). apply Forall_cons in Hin as [Hin1 Hin2].
  destruct l as [|t l].
  - simpl in Ht. exists s. seg_unfold. split_and!; [done|lia|lia].
  - exfalso. assert (total_size (t :: l) <= n - (getEnd s + 1)); [|seg_unfold; lia].
    apply Forall_cons in Hl as [Ht1 Ht2].
    apply gapped_total_bound; [done| |apply Forall_cons in Hin2 as [? _];
      apply gapped_cons_inv in Hg as (_ & ? & _); seg_unfold; lia].
    apply Forall_and. split; [|by eapply Forall_impl; [exact Hin2|]; simpl; lia].
    constructor; [lia|]. eapply Forall_impl; [exact Ht2|]. simpl. lia.
Qed.

Lemma gapped_cover_full n l :
  gapped l -> Forall (fun s => 0 <= getStart s /\ getEnd s <= n) l -> 0 < n ->
  (forall x, 0 <= x < n -> covered x l) -> total_size l = n.
Proof.
  intros Hg Hin Hn Hc. destruct l as [|s l]; [by specialize (Hc 0 ltac:(lia)); apply Exists_nil in Hc|].
  apply gapped_cons_inv in Hg as (Hg & Hs & Hl). apply Forall_cons in Hin as [Hin1 Hin2].
  assert (forall x, x < getStart s \/ x = getEnd s -> ~ covered x (s :: l)) as Hno.
  { intros x Hx. rewrite covered_cons. intros [H|H]; [seg_unfold; lia|].
    apply Exists_exists in H as (t & Ht & H). rewrite Forall_forall in Hl.
    specialize (Hl t Ht). seg_unfold. lia. }
  assert (getStart s = 0) as H0.
  { destruct (decide (getStart s = 0)); [done|]. destruct (Hno 0); [lia|]. apply Hc. lia. }
  assert (getEnd s = n) as H1.
  { destruct (decide (getEnd s = n)); [done|]. destruct (Hno (getEnd s)); [by right|].
    apply Hc. seg_unfold. lia. }
  destruct l as [|t l]; [simpl; seg_unfold; lia|]. exfalso.
  apply Forall_cons in Hl as [Hl _]. apply Forall_cons in Hin2 as [? _].
  apply gapped_cons_inv in Hg as (_ & ? & _). seg_unfold. lia.
Qed.
