(* ===== verification/Thex.v ===== *)
(** * The tree hash of a list of leaves

    The reference that [client/MerkleTree.h] implements: the hash tree over
    [n] leaves is the node over the tree of the first [k] leaves and the tree
    of the others, where [k] is the largest power of two below [n].  The
    section is parametric in the digest type and the node hash. *)

From S2P Require Import Prelude.

#[local] Open Scope nat_scope.

Section Thex.
Context {D : Type} (node : D -> D -> D) (d0 : D).

(** The split point for [n >= 2] leaves. *)
Definition split_at (n : nat) : nat := 2 ^ Nat.log2 (pred n).

Fixpoint thex_aux (fuel : nat) (l : list D) : D :=
  match fuel with
  | O => d0
  | S f =>
      match l with
      | [] => d0
      | [x] => x
      | _ => node (thex_aux f (take (split_at (length l)) l))
                  (thex_aux f (drop (split_at (length l)) l))
      end
  end.

Definition thex (l : list D) : D := thex_aux (length l) l.

Lemma split_at_bounds n : 2 <= n -> 0 < split_at n < n /\ n <= 2 * split_at n.
Proof.
  intros Hn. unfold split_at.
  pose proof (Nat.log2_spec (pred n) ltac:(lia)) as [H1 H2].
  rewrite Nat.pow_succ_r' in H2. lia.
Qed.

Lemma split_at_unique n i : 2 ^ i < n -> n <= 2 * 2 ^ i -> split_at n = 2 ^ i.
Proof.
  intros H1 H2. unfold split_at. f_equal. apply Nat.log2_unique; [lia|].
  rewrite Nat.pow_succ_r'. lia.
Qed.

Lemma thex_aux_fuel f1 f2 l :
  length l <= f1 -> length l <= f2 -> thex_aux f1 l = thex_aux f2 l.
Proof.
  revert f2 l. induction f1 as [|f1 IH]; intros f2 l H1 H2.
  - destruct l; simpl in *; [|lia]. by destruct f2.
  - destruct f2 as [|f2].
    { destruct l; simpl in *; [done|lia]. }
    destruct l as [|x [|y l]]; [done|done|].
    destruct (split_at_bounds (length (x :: y :: l))) as [H3 H4]; [simpl; lia|].
    cbn [thex_aux]. f_equal; apply IH; rewrite ?length_take, ?length_drop; lia.
Qed.

Lemma thex_aux_S f l :
  2 <= length l ->
  thex_aux (S f) l = node (thex_aux f (take (split_at (length l)) l))
                          (thex_aux f (drop (split_at (length l)) l)).
Proof. destruct l as [|x [|y l]]; cbn [length]; [lia|lia|done]. Qed.

Lemma thex_singleton x : thex [x] = x.
Proof. done. Qed.

(** The defining equation of the tree hash, at any power of two that is a valid
    split point. *)
Lemma thex_app i l1 l2 :
  length l1 = 2 ^ i -> 0 < length l2 <= 2 ^ i ->
  thex (l1 ++ l2) = node (thex l1) (thex l2).
Proof.
  intros H1 H2. pose proof (Nat.pow_nonzero 2 i ltac:(lia)) as Hp.
  assert (split_at (length (l1 ++ l2)) = length l1) as Hs.
  { rewrite H1. apply split_at_unique; rewrite length_app; lia. }
  unfold thex at 1. destruct (length (l1 ++ l2)) as [|n] eqn:E;
    pose proof E as E'; rewrite length_app in E'; [lia|].
  rewrite thex_aux_S by (rewrite E; lia).
  rewrite E, Hs, take_app_length, drop_app_length.
  f_equal; apply thex_aux_fuel; lia.
Qed.

(** Hashing perfect blocks of [2^j] leaves first, then the list of block
    hashes, gives the same root: this is why a tree stored at a coarser block
    size has the same root. *)
Lemma thex_blocks j (cs : list (list D)) r :
  Forall (fun c => length c = 2 ^ j) cs -> 0 < length r <= 2 ^ j ->
  thex (map thex (cs ++ [r])) = thex (concat cs ++ r).
Proof.
  remember (length cs) as n eqn:Hn. revert cs r Hn.
  induction n as [n IH] using lt_wf_ind. intros cs r -> Hcs Hr.
  destruct cs as [|c0 cs0] eqn:Ecs; [done|]. rewrite <-Ecs in *.
  assert (2 <= length (cs ++ [r])) as H2 by (rewrite length_app, Ecs; simpl; lia).
  destruct (split_at_bounds _ H2) as [Hk1 Hk2].
  remember (split_at (length (cs ++ [r]))) as k eqn:Hk. unfold split_at in Hk.
  remember (Nat.log2 (pred (length (cs ++ [r])))) as i eqn:Hi. clear Hi.
  rewrite length_app in Hk1, Hk2. simpl in Hk1, Hk2.
  rewrite <-(take_drop k cs), <-app_assoc, map_app.
  assert (Forall (fun c => length c = 2 ^ j) (take k cs)) as Ht by by apply Forall_take.
  assert (Forall (fun c => length c = 2 ^ j) (drop k cs)) as Hd by by apply Forall_drop.
  assert (length (take k cs) = k) as Hlt by (rewrite length_take; lia).
  assert (length (drop k cs) = length cs - k) as Hld by apply length_drop.
  rewrite (thex_app i); [|by rewrite length_map, Hlt|rewrite length_map, length_app; simpl; lia].
  rewrite (IH (length cs - k)); [|lia|lia|done|done].
  destruct (exists_last (l := take k cs)) as (cs1 & c1 & E1).
  { intros E. rewrite E in Hlt. simpl in Hlt. lia. }
  rewrite E1 in *. rewrite length_app in Hlt. simpl in Hlt.
  apply Forall_app in Ht as [Ht1 [Ht2 _]%Forall_cons].
  pose proof (Nat.pow_nonzero 2 j ltac:(lia)).
  rewrite (IH (length cs1)); [|lia|lia|done|lia].
  rewrite concat_app, concat_app. simpl. rewrite app_nil_r, <-!app_assoc.
  assert (forall xs, Forall (fun c : list D => length c = 2 ^ j) xs ->
            length (concat xs) = length xs * 2 ^ j) as Hconcat.
  { induction 1 as [|c xs Hc _ IHx]; simpl; [done|]. rewrite length_app. lia. }
  rewrite app_assoc. rewrite (thex_app (i + j) (concat cs1 ++ c1)); [done| |].
  - rewrite length_app, Hconcat by done. rewrite Nat.pow_add_r. lia.
  - rewrite length_app, (Hconcat (drop k cs)) by done. rewrite Nat.pow_add_r. nia.
Qed.

End Thex.

Lemma thex_ext {D : Type} (f g : D -> D -> D) d0 (l : list D) :
  (forall a b, f a b = g a b) -> thex f d0 l = thex g d0 l.
Proof.
  intros Hfg. unfold thex. generalize (length l) as n. intros n. revert l.
  induction n as [|n IH]; intros l; [done|]. destruct l as [|x [|y l]]; [done|done|].
  rewrite !thex_aux_S by (simpl; lia). by rewrite Hfg, !IH.
Qed.
