(* ===== verification/Hasher.v ===== *)
(** * The interface between the hash tree and the hash function

    [template <class Hasher> class MerkleTree] ([client/MerkleTree.h]) uses a
    hasher through its constructor, [update] and [finalize].  [Hasher] is that
    interface; [HasherLaws] states what the tree relies on: feeding the data in
    several pieces is, up to an equivalence that [finalize] cannot tell apart,
    feeding it at once.  [TigerHash] discharges it. *)

From S2P Require Import Prelude.

Class Hasher := {
  h_state : Type;
  h_init : h_state;
  h_update : h_state -> list Z -> h_state;
  h_finalize : h_state -> list Z;
  h_bytes : nat
}.

Class HasherLaws (H : Hasher) := {
  h_ok : h_state -> Prop;
  h_equiv : relation h_state;
  h_equiv_equivalence :: Equivalence h_equiv;
  h_update_proper :: Proper (h_equiv ==> (=) ==> h_equiv) h_update;
  h_finalize_proper :: Proper (h_equiv ==> (=)) h_finalize;
  h_init_ok : h_ok h_init;
  h_update_ok s a : h_ok s -> h_ok (h_update s a);
  h_update_app s a b : h_ok s -> h_equiv (h_update (h_update s a) b) (h_update s (a ++ b));
  h_finalize_length s : h_ok s -> length (h_finalize s) = h_bytes
}.

(** The digest of a whole message. *)
Definition digest {H : Hasher} (msg : list Z) : list Z := h_finalize (h_update h_init msg).

Section Laws.
Context {H : Hasher} {HL : HasherLaws H}.

Lemma digest_two a b :
  h_finalize (h_update (h_update h_init a) b) = digest (a ++ b).
Proof. unfold digest. by rewrite (h_update_app h_init a b h_init_ok). Qed.

Lemma digest_three a b c :
  h_finalize (h_update (h_update (h_update h_init a) b) c) = digest (a ++ b ++ c).
Proof.
  unfold digest. rewrite (h_update_app h_init a b h_init_ok).
  by rewrite (h_update_app h_init (a ++ b) c h_init_ok), app_assoc.
Qed.

Lemma digest_length m : length (digest m) = h_bytes.
Proof. apply h_finalize_length, h_update_ok, h_init_ok. Qed.
End Laws.
