(* ===== verification/MerkleTree.v ===== *)
(** * The Merkle tree: [client/MerkleTree.h]

    The model follows the class: the partially reduced [blocks], the finished
    [leaves] and the counters.  [MerkleTree_stream] is its contract: whatever
    the sizes of the pieces the data arrives in, the root is the tree hash of
    the whole data, and the leaves are the tree hashes of its blocks. *)

From S2P Require Import Prelude Thex Hasher.

Definition MIN_BLOCK_SIZE : Z := 65536.
Definition BASE_BLOCK_SIZE : Z := 1024.

(** ** Block sizes *)

(** [calcBlockSize(fileSize, maxLevels)], all in [uint64_t]. *)
Definition calcBlockSize (fileSize maxLevels : Z) : option Z :=
  let maxHashes := u64 (Z.shiftl 1 (maxLevels - 1)) in
  while (fun blockSize =>
           if u64 (maxHashes * blockSize) <? fileSize
           then inl (u64 (Z.shiftl blockSize 1)) else inr blockSize)
        loop_fuel BASE_BLOCK_SIZE.

Definition calcBlocks2 (fileSize blockSize : Z) : Z :=
  Z.max ((fileSize + blockSize - 1) ÷ blockSize) 1.

Definition calcBlocks (fileSize : Z) : option Z :=
  bs ← calcBlockSize fileSize 10; Some (u16 (calcBlocks2 fileSize bs)).

Definition getMaxBlockSize (fileSize : Z) : option Z :=
  bs ← calcBlockSize fileSize 10; Some (Z.max bs MIN_BLOCK_SIZE).

Definition calcFullLeafCnt (ttrBlockSize : Z) : Z := ttrBlockSize `div` BASE_BLOCK_SIZE.

(** ** The tree *)

Record MerkleTree := mkTree {
  mt_blocks : list (list Z * Z);
  mt_leaves : list (list Z);
  mt_fileSize : Z;
  mt_blockSize : Z;
  mt_root : list Z
}.

Section Tree.
Context {H : Hasher}.

Definition MerkleValue0 : list Z := replicate h_bytes 0.

(** The three constructors. *)
Definition MerkleTree_new (blockSize : Z) : MerkleTree := mkTree [] [] 0 blockSize MerkleValue0.
Definition MerkleTree_default : MerkleTree := MerkleTree_new BASE_BLOCK_SIZE.
Definition MerkleTree_root (fileSize blockSize : Z) (root : list Z) : MerkleTree :=
  mkTree [] [root] fileSize blockSize root.

Definition combine (a b : list Z) : list Z :=
  h_finalize (h_update (h_update (h_update h_init [1]) a) b).

(** [getHash]: the inner loop finds the largest [blockSize * 2^i] below
    [length]; the recursion is at most 64 deep since [length] is an [int64_t]. *)
Definition getHash_split (blockSize length : Z) : option Z :=
  while (fun l => let l2 := l * 2 in if l2 <? length then inl l2 else inr l) loop_fuel blockSize.

Fixpoint getHash (fuel : nat) (t : MerkleTree) (start length : Z) : option (list Z) :=
  match fuel with
  | O => None
  | S f =>
      if length <=? mt_blockSize t then
        let idx := start ÷ mt_blockSize t in
        if idx <? Z.of_nat (List.length (mt_leaves t))
        then mt_leaves t !! Z.to_nat idx else Some MerkleValue0
      else
        l ← getHash_split (mt_blockSize t) length;
        a ← getHash f t start l;
        b ← getHash f t (start + l) (length - l);
        Some (combine a b)
  end.

Definition calcRoot (t : MerkleTree) : option MerkleTree :=
  r ← getHash 65 t 0 (mt_fileSize t);
  Some (mkTree (mt_blocks t) (mt_leaves t) (mt_fileSize t) (mt_blockSize t) r).

(** [load]: [None] when the loop for the block size does not end, [Some (false, t)]
    when the data is not a whole number of hashes. *)
Definition load_blockSize (fileSize hashCount : Z) : option Z :=
  while (fun bl => if swrap 64 (bl * hashCount) <? fileSize
                   then inl (swrap 64 (Z.shiftl bl 1)) else inr bl)
        loop_fuel BASE_BLOCK_SIZE.

Fixpoint split_hashes (n : nat) (data : list Z) : list (list Z) :=
  match n with
  | O => []
  | S n => take h_bytes data :: split_hashes n (drop h_bytes data)
  end.

Definition load (t : MerkleTree) (fileSize : Z) (data : list Z) : option (bool * MerkleTree) :=
  if bool_decide (length data `mod` h_bytes <> 0)%nat then Some (false, t)
  else
    let hashCount := (length data `div` h_bytes)%nat in
    bl ← load_blockSize fileSize (Z.of_nat hashCount);
    t' ← calcRoot (mkTree (mt_blocks t) (split_hashes hashCount data) fileSize bl (mt_root t));
    Some (true, t').

(** [reduceBlocks]: the state is the vector, the leaves and [size]. *)
Definition reduce_step (blockSize : Z) (st : list (list Z * Z) * list (list Z) * nat) :
  (list (list Z * Z) * list (list Z) * nat) + option (list (list Z * Z) * list (list Z)) :=
  let '(bl, lv, size) := st in
  match bl !! (size - 2)%nat, bl !! (size - 1)%nat with
  | Some a, Some b =>
      if a.2 =? b.2 then
        let '(bl', lv', size') :=
          if a.2 * 2 =? blockSize then (bl, lv ++ [combine a.1 b.1], (size - 2)%nat)
          else (<[(size - 2)%nat := (combine a.1 b.1, a.2 * 2)]> bl, lv, (size - 1)%nat) in
        if bool_decide (size' < 2)%nat then inr (Some (take size' bl', lv'))
        else inl (bl', lv', size')
      else inr (Some (take size bl, lv))
  | _, _ => inr None
  end.

Definition reduceBlocks (t : MerkleTree) : option MerkleTree :=
  if bool_decide (1 < length (mt_blocks t))%nat then
    '(bl, lv) ← mjoin (while (reduce_step (mt_blockSize t)) loop_fuel
                             (mt_blocks t, mt_leaves t, length (mt_blocks t)));
    Some (mkTree bl lv (mt_fileSize t) (mt_blockSize t) (mt_root t))
  else Some t.

(** One iteration of the loop of [update]: the hash of one base block. *)
Definition push_base (t : MerkleTree) (chunk : list Z) : option MerkleTree :=
  let h := h_finalize (h_update (h_update h_init [0]) chunk) in
  if BASE_BLOCK_SIZE <? mt_blockSize t then
    reduceBlocks (mkTree (mt_blocks t ++ [(h, BASE_BLOCK_SIZE)]) (mt_leaves t)
                         (mt_fileSize t) (mt_blockSize t) (mt_root t))
  else Some (mkTree (mt_blocks t) (mt_leaves t ++ [h]) (mt_fileSize t) (mt_blockSize t) (mt_root t)).

Definition update_step (data : list Z) (st : MerkleTree * Z) : (MerkleTree * Z) + option MerkleTree :=
  let '(t, i) := st in
  let len := Z.of_nat (length data) in
  let n := Z.min BASE_BLOCK_SIZE (len - i) in
  match push_base t (take (Z.to_nat n) (drop (Z.to_nat i) data)) with
  | None => inr None
  | Some t' => if i + n <? len then inl (t', i + n) else inr (Some t')
  end.

Definition is_empty {A} (l : list A) : bool := match l with [] => true | _ => false end.

Definition mt_update (t : MerkleTree) (data : list Z) : option MerkleTree :=
  if is_empty data && negb (is_empty (mt_leaves t) && is_empty (mt_blocks t)) then Some t
  else
    t' ← mjoin (while (update_step data) loop_fuel (t, 0));
    Some (mkTree (mt_blocks t') (mt_leaves t') (mt_fileSize t' + Z.of_nat (length data))
                 (mt_blockSize t') (mt_root t')).

Definition finalize_step (st : list (list Z * Z) * nat) :
  (list (list Z * Z) * nat) + option (list (list Z * Z)) :=
  let '(bl, size) := st in
  match bl !! (size - 2)%nat, bl !! (size - 1)%nat with
  | Some a, Some b =>
      let bl' := <[(size - 2)%nat := (combine a.1 b.1, a.2)]> bl in
      if bool_decide (size = 2%nat) then inr (Some (take 1 bl'))
      else inl (bl', (size - 1)%nat)
  | _, _ => inr None
  end.

Definition mt_finalize (t : MerkleTree) : option MerkleTree :=
  t1 ← (if is_empty (mt_leaves t) && is_empty (mt_blocks t) then mt_update t [] else Some t);
  bl ← (if bool_decide (1 < length (mt_blocks t1))%nat
        then mjoin (while finalize_step loop_fuel (mt_blocks t1, length (mt_blocks t1)))
        else Some (mt_blocks t1));
  let t2 := match bl with
            | [] => mkTree [] (mt_leaves t1) (mt_fileSize t1) (mt_blockSize t1) (mt_root t1)
            | b :: _ => mkTree [] (mt_leaves t1 ++ [b.1]) (mt_fileSize t1) (mt_blockSize t1) (mt_root t1)
            end in
  calcRoot t2.

Definition mt_setBlockSize (t : MerkleTree) (size : Z) : MerkleTree :=
  mkTree (mt_blocks t) (mt_leaves t) (mt_fileSize t) size (mt_root t).
Definition mt_setFileSize (t : MerkleTree) (size : Z) : MerkleTree :=
  mkTree (mt_blocks t) (mt_leaves t) size (mt_blockSize t) (mt_root t).

Definition getLeafData (t : MerkleTree) : list Z := concat (mt_leaves t).

Definition mt_clear (t : MerkleTree) : MerkleTree :=
  mkTree [] [] 0 (mt_blockSize t) (mt_root t).
End Tree.

(** ** The binary counter

    While a block is being filled, [blocks] is a binary counter: it holds the
    tree hashes of consecutive pieces of the leaves seen so far, whose lengths
    are strictly decreasing powers of two. *)

Section Counter.
Local Open Scope nat_scope.
Context {H : Hasher} {HL : HasherLaws H}.

Abbreviation tree := (thex combine MerkleValue0).
Abbreviation piece := (list (list Z)).

Definition pow2 (n : nat) : Prop := exists i, n = 2 ^ i.

Definition blk (p : piece) : list Z * Z := (tree p, BASE_BLOCK_SIZE * Z.of_nat (length p))%Z.

Definition decr (ps : list piece) : Prop :=
  StronglySorted (fun p q => length q < length p) ps /\ Forall (fun p => pow2 (length p)) ps.

Lemma pow2_pos n : pow2 n -> 0 < n.
Proof. intros [i ->]. pose proof (Nat.pow_nonzero 2 i). lia. Qed.

Lemma pow2_lt a b : pow2 a -> pow2 b -> a < b -> 2 * a <= b.
Proof.
  intros [i ->] [j ->] Hlt. apply Nat.pow_lt_mono_r_iff in Hlt; [|lia].
  rewrite <-Nat.pow_succ_r'. apply Nat.pow_le_mono_r; lia.
Qed.

Lemma pow2_double a : pow2 a -> pow2 (2 * a).
Proof. intros [i ->]. exists (S i). by rewrite Nat.pow_succ_r'. Qed.

Lemma decr_nil : decr [].
Proof. split; constructor. Qed.

Lemma decr_snoc ps q :
  decr ps -> pow2 (length q) -> Forall (fun p => length q < length p) ps -> decr (ps ++ [q]).
Proof.
  intros [H1 H2] Hq Hp. split; [|by apply Forall_app; auto].
  induction H1 as [|p ps H1 IH Hlt]; simpl.
  - repeat constructor.
  - apply Forall_cons in Hp as [? ?]. apply Forall_cons in H2 as [? ?].
    constructor; [by apply IH|]. apply Forall_app. auto.
Qed.

Lemma decr_app_inv ps qs :
  decr (ps ++ qs) -> decr ps /\ decr qs /\
  Forall (fun p => Forall (fun q => length q < length p) qs) ps.
Proof.
  unfold decr. intros [H1 [H2 H3]%Forall_app].
  induction ps as [|p ps IH]; simpl in *.
  - split_and!; [constructor|constructor|done|done|constructor].
  - apply StronglySorted_inv in H1 as [H1 [H4 H5]%Forall_app]. apply Forall_cons in H2 as [? ?].
    destruct IH as ([? ?] & [? ?] & ?); [done|done|].
    split_and!; try constructor; done.
Qed.

Lemma decr_snoc_inv ps q :
  decr (ps ++ [q]) -> decr ps /\ pow2 (length q) /\ Forall (fun p => length q < length p) ps.
Proof.
  intros (H1 & [_ H2] & H3)%decr_app_inv. apply Forall_cons in H2 as [? _].
  split_and!; [done|done|]. eapply Forall_impl; [exact H3|]. by intros p [? _]%Forall_cons.
Qed.

(** A piece is longer than all later pieces together. *)
Lemma decr_total p ps : decr (p :: ps) -> length (concat ps) < length p.
Proof.
  revert p. induction ps as [|q ps IH]; intros p [H1 H2]; simpl.
  - apply Forall_cons in H2 as [Hp _]. by apply pow2_pos.
  - apply StronglySorted_inv in H1 as [H1 [Hlt _]%Forall_cons].
    apply Forall_cons in H2 as [Hp H2]. pose proof H2 as [Hq _]%Forall_cons.
    pose proof (IH q (conj H1 H2)). rewrite length_app.
    pose proof (pow2_lt _ _ Hq Hp Hlt). lia.
Qed.

Lemma tree_decr p ps :
  decr (p :: ps) -> ps <> [] -> tree (concat (p :: ps)) = combine (tree p) (tree (concat ps)).
Proof.
  intros Hd Hne. pose proof (decr_total _ _ Hd) as Hlt. destruct Hd as [_ Hp].
  apply Forall_cons in Hp as [[i Hi] Hp].
  destruct ps as [|q ps]; [done|]. apply Forall_cons in Hp as [Hq%pow2_pos _].
  simpl in *. rewrite length_app in Hlt. apply (thex_app _ _ i); [done|].
  rewrite length_app. lia.
Qed.

Lemma tree_join p q :
  pow2 (length p) -> length q = length p -> tree (p ++ q) = combine (tree p) (tree q).
Proof.
  intros [i Hi] Hq. apply (thex_app _ _ i); [done|].
  pose proof (Nat.pow_nonzero 2 i ltac:(lia)). lia.
Qed.

(** What [reduceBlocks] leaves behind when [target] is the list of leaf hashes
    in the counter: a counter again, or a full block moved to the leaves. *)
Definition reduced (B : nat) (target : piece) (lv : list (list Z))
    (r : list (list Z * Z) * list (list Z)) : Prop :=
  (exists ps, r = (map blk ps, lv) /\ decr ps /\ concat ps = target /\
     Forall (fun p => length p < B) ps) \/
  (r = ([], lv ++ [tree target]) /\ length target = B).

Definition reduce_inv (B : nat) (target : piece) (lv : list (list Z))
    (st : list (list Z * Z) * list (list Z) * nat) : Prop :=
  exists ps q, st.1.2 = lv /\ st.2 = S (length ps) /\ 2 <= st.2 /\ st.2 <= length st.1.1 /\
    take st.2 st.1.1 = map blk (ps ++ [q]) /\ decr ps /\ pow2 (length q) /\
    Forall (fun p => length q <= length p) ps /\ Forall (fun p => length p < B) (ps ++ [q]) /\
    concat ps ++ q = target.

Lemma blk_size_eq p q : ((blk p).2 =? (blk q).2)%Z = bool_decide (length p = length q).
Proof.
  unfold blk, BASE_BLOCK_SIZE. cbn [snd]. apply eq_true_iff_eq.
  rewrite Z.eqb_eq, bool_decide_eq_true. lia.
Qed.

Lemma blk_double_eq p B :
  ((blk p).2 * 2 =? BASE_BLOCK_SIZE * Z.of_nat B)%Z = bool_decide (2 * length p = B).
Proof.
  unfold blk, BASE_BLOCK_SIZE. cbn [snd]. apply eq_true_iff_eq.
  rewrite Z.eqb_eq, bool_decide_eq_true. lia.
Qed.

Lemma lookup_take_map {A B} (f : A -> B) (bl : list B) (n : nat) (xs : list A) i x :
  take n bl = map f xs -> xs !! i = Some x -> bl !! i = Some (f x).
Proof.
  intros Ht Hx. assert (i < n).
  { apply lookup_lt_Some in Hx. apply (f_equal length) in Ht.
    rewrite length_take, length_map in Ht. lia. }
  rewrite <-(lookup_take_lt bl n i) by done. rewrite Ht.
  by rewrite list_lookup_fmap, Hx.
Qed.

Lemma reduce_step_ok B target lv st :
  pow2 B -> reduce_inv B target lv st ->
  match reduce_step (BASE_BLOCK_SIZE * Z.of_nat B) st with
  | inl st' => reduce_inv B target lv st' /\ (0 <= Z.of_nat st'.2 < Z.of_nat st.2)%Z
  | inr r => exists x, r = Some x /\ reduced B target lv x
  end.
Proof.
  intros HB (ps & q & E1 & E2 & Hsz & Hlen & Ht & Hd & Hq & Hqp & HlB & Hc).
  destruct st as [[bl lv'] size]. cbn [fst snd] in *. subst lv' size.
  destruct (exists_last (l := ps)) as (ps1 & p & ->); [by intros ->; simpl in *; lia|].
  assert (length (ps1 ++ [p]) = S (length ps1)) as E by (rewrite length_app; simpl; lia).
  rewrite E in *. unfold reduce_step.
  replace (S (S (length ps1)) - 2) with (length ps1) by lia.
  replace (S (S (length ps1)) - 1) with (S (length ps1)) by lia.
  rewrite (lookup_take_map blk bl _ _ (length ps1) p Ht)
    by (rewrite <-app_assoc; by apply list_lookup_middle).
  rewrite (lookup_take_map blk bl _ _ (S (length ps1)) q Ht)
    by (by apply list_lookup_middle).
  apply decr_snoc_inv in Hd as (Hd & Hp & Hps1).
  apply Forall_app in Hqp as [_ [Hqp _]%Forall_cons].
  apply Forall_app in HlB as [HlB [HqB _]%Forall_cons].
  apply Forall_app in HlB as [HlB [HpB _]%Forall_cons].
  rewrite blk_size_eq, blk_double_eq.
  case_bool_decide as Heq.
  - assert (length (p ++ q) = 2 * length p) as Hpq by (rewrite length_app; lia).
    case_bool_decide as Hfull; cbn [fst snd blk].
    + destruct ps1 as [|p' ps1]; simpl in Hc.
      * rewrite bool_decide_true by (simpl; lia). eexists; split; [done|]. right.
        simpl. rewrite app_nil_r in Hc. rewrite <-Hc, tree_join by done.
        split; [done|]. lia.
      * exfalso. apply Forall_cons in Hps1 as [H1 _]. apply Forall_cons in HlB as [H2 _].
        destruct Hd as [_ [H3 _]%Forall_cons]. pose proof (pow2_lt _ _ Hp H3 H1). lia.
    + rewrite <-tree_join by done.
      assert ((tree (p ++ q), (BASE_BLOCK_SIZE * Z.of_nat (length p) * 2)%Z) = blk (p ++ q)) as ->.
      { unfold blk. rewrite Hpq. f_equal. lia. }
      assert (take (S (length ps1)) (<[length ps1:=blk (p ++ q)]> bl) = map blk (ps1 ++ [p ++ q])) as Ht'.
      { rewrite (take_S_r _ _ (blk (p ++ q))) by (apply list_lookup_insert_eq; lia).
        rewrite take_insert_ge by lia. rewrite map_app. f_equal.
        apply (f_equal (take (length ps1))) in Ht. rewrite take_take, Nat.min_l in Ht by lia.
        rewrite Ht, <-app_assoc, map_app. by rewrite take_app_length' by by rewrite length_map. }
      assert (length (p ++ q) < B) as HB'.
      { pose proof (pow2_lt _ _ Hp HB HpB). lia. }
      assert (pow2 (length (p ++ q))) as Hp' by (rewrite Hpq; by apply pow2_double).
      case_bool_decide as Hsize.
      * rewrite Ht'. clear Ht' Ht. destruct ps1; simpl in Hsize; [|lia].
        eexists; split; [done|]. left. exists [p ++ q].
        simpl in Hc. simpl. rewrite app_nil_r in *.
        split_and!; [done|split; repeat constructor; done|done|by repeat constructor].
      * split; [|cbn [fst snd]; lia]. exists ps1, (p ++ q). cbn [fst snd].
        rewrite length_insert.
        split_and!; [done|done|lia|lia|done|done|done| | |].
        -- destruct Hd as [_ Hd]. rewrite Forall_forall in Hps1, Hd |- *. intros x Hx.
           rewrite Hpq. apply pow2_lt; auto.
        -- apply Forall_app; auto.
        -- rewrite <-Hc, concat_app. simpl. by rewrite app_nil_r, <-app_assoc.
  - eexists; split; [done|]. left. exists ((ps1 ++ [p]) ++ [q]). rewrite Ht.
    split_and!; [done| | |].
    + apply decr_snoc; [by apply decr_snoc|done|]. apply Forall_app. split; [|by constructor; [lia|]].
      eapply Forall_impl; [exact Hps1|]. simpl. lia.
    + rewrite concat_app. simpl. by rewrite app_nil_r.
    + rewrite !Forall_app. auto.
Qed.
End Counter.

(** ** Base blocks of the data *)

Section Chunks.
Local Open Scope nat_scope.

Definition BB : nat := Z.to_nat BASE_BLOCK_SIZE.

Fixpoint chunks_aux (fuel : nat) (l : list Z) : list (list Z) :=
  match fuel, l with
  | S f, _ :: _ => take BB l :: chunks_aux f (drop BB l)
  | _, _ => []
  end.

Definition chunks (l : list Z) : list (list Z) := chunks_aux (length l) l.

(** The base blocks of a file: an empty file has one empty block. *)
Definition base_blocks (l : list Z) : list (list Z) :=
  match l with [] => [[]] | _ => chunks l end.

Lemma BB_val : BB = 1024.
Proof. reflexivity. Qed.

Lemma BB_pos : 0 < BB.
Proof. rewrite BB_val. lia. Qed.

Opaque BB.

Lemma chunks_aux_fuel f1 f2 l :
  length l <= f1 -> length l <= f2 -> chunks_aux f1 l = chunks_aux f2 l.
Proof.
  revert f2 l. pose proof BB_pos. induction f1 as [|f1 IH]; intros [|f2] [|x l] H1 H2; simpl in *; try done; try lia.
  f_equal. apply IH; rewrite length_drop; simpl; lia.
Qed.

Lemma chunks_step l : l <> [] -> chunks l = take BB l :: chunks (drop BB l).
Proof.
  intros Hl. pose proof BB_pos. unfold chunks. destruct l as [|x l]; [done|]. cbn [length chunks_aux].
  f_equal. apply chunks_aux_fuel; rewrite ?length_drop; simpl; lia.
Qed.

Lemma chunks_app k l1 l2 : length l1 = k * BB -> chunks (l1 ++ l2) = chunks l1 ++ chunks l2.
Proof.
  pose proof BB_pos. revert l1. induction k as [|k IH]; intros l1 Hl.
  - by destruct l1.
  - assert (l1 <> []) by (intros ->; simpl in *; lia).
    rewrite (chunks_step l1) by done.
    rewrite chunks_step by (destruct l1; done).
    rewrite take_app_le, drop_app_le by lia. simpl. f_equal. apply IH. rewrite length_drop. lia.
Qed.

Lemma chunks_short l : l <> [] -> length l <= BB -> chunks l = [l].
Proof.
  intros Hl Hb. rewrite chunks_step, take_ge, drop_ge by done. done.
Qed.

(** How many base blocks a file has. *)
Lemma chunks_length l :
  l <> [] -> (length (chunks l) - 1) * BB < length l <= length (chunks l) * BB.
Proof.
  pose proof BB_pos.
  remember (length l) as n eqn:Hn. revert l Hn. induction n as [n IH] using lt_wf_ind.
  intros l -> Hl. assert (0 < length l) by (destruct l; simpl; [done|lia]).
  rewrite chunks_step by done. cbn [length].
  destruct (decide (length l <= BB)).
  - rewrite drop_ge by done. simpl. lia.
  - specialize (IH (length (drop BB l)) ltac:(rewrite length_drop; lia) _ eq_refl).
    assert (drop BB l <> []) as Hd.
    { intros E. apply (f_equal length) in E. rewrite length_drop in E. simpl in E. lia. }
    specialize (IH Hd). rewrite length_drop in IH.
    destruct (length (chunks (drop BB l))); nia.
Qed.
End Chunks.

(** ** The streaming invariant *)

Section Stream.
Context {H : Hasher} {HL : HasherLaws H}.
Abbreviation tree := (thex combine MerkleValue0).

Definition leaf_hash (d : list Z) : list Z := digest (0 :: d).
Definition node_hash (a b : list Z) : list Z := digest (1 :: a ++ b).

Lemma combine_node a b : combine a b = node_hash a b.
Proof. unfold combine, node_hash. by rewrite digest_three. Qed.

(** [L] is the list of base-block hashes seen so far. *)
Definition mt_inv (j : nat) (t : MerkleTree) (L : list (list Z)) : Prop :=
  exists cs ps, mt_blockSize t = BASE_BLOCK_SIZE * Z.of_nat (2 ^ j) /\
    mt_leaves t = map tree cs /\ Forall (fun c => length c = (2 ^ j)%nat) cs /\
    mt_blocks t = map blk ps /\ decr ps /\ Forall (fun p => (length p < 2 ^ j)%nat) ps /\
    L = concat cs ++ concat ps.

Lemma reduceBlocks_ok B ps q t :
  pow2 B -> mt_blocks t = map blk (ps ++ [q]) -> ps <> [] -> decr ps -> pow2 (length q) ->
  Forall (fun p => length q <= length p)%nat ps -> Forall (fun p => length p < B)%nat (ps ++ [q]) ->
  mt_blockSize t = BASE_BLOCK_SIZE * Z.of_nat B -> Z.of_nat (length ps) < 2 ^ 200 ->
  exists r, reduceBlocks t = Some (mkTree r.1 r.2 (mt_fileSize t) (mt_blockSize t) (mt_root t)) /\
    reduced B (concat ps ++ q) (mt_leaves t) r.
Proof.
  intros HB Hb Hne Hd Hq Hqp HlB Hbs Hlen. unfold reduceBlocks.
  assert (length (mt_blocks t) = S (length ps)) as Hl.
  { rewrite Hb, length_map, length_app. simpl. lia. }
  rewrite bool_decide_true by (destruct ps; [done|simpl in *; lia]). rewrite Hbs.
  destruct (while_total (reduce_step (BASE_BLOCK_SIZE * Z.of_nat B))
    (reduce_inv B (concat ps ++ q) (mt_leaves t)) (fun st => Z.of_nat st.2)
    (fun r => exists x, r = Some x /\ reduced B (concat ps ++ q) (mt_leaves t) x)
    (fun st Hst => reduce_step_ok B _ _ st HB Hst) loop_fuel
    (mt_blocks t, mt_leaves t, length (mt_blocks t))) as (r & -> & [bl lv] & -> & Hr).
  - exists ps, q. cbn [fst snd]. rewrite take_ge by lia.
    split_and!; try done; lia || (destruct ps; [done|simpl in *; lia]).
  - rewrite loop_fuel_val. cbn [snd]. lia.
  - exists (bl, lv). simpl. by rewrite <-Hbs.
Qed.

Lemma push_base_ok j t L chunk :
  mt_inv j t L -> Z.of_nat (length L) < 2 ^ 100 ->
  exists t', push_base t chunk = Some t' /\ mt_inv j t' (L ++ [leaf_hash chunk]) /\
    mt_fileSize t' = mt_fileSize t.
Proof.
  intros (cs & ps & Hbs & Hlv & Hcs & Hb & Hd & HpB & HLe) Hlen. unfold push_base.
  rewrite digest_two. cbn [app]. fold (leaf_hash chunk). set (h := leaf_hash chunk).
  destruct (BASE_BLOCK_SIZE <? mt_blockSize t) eqn:E; zb.
  - assert (1 < 2 ^ j)%nat as Hj by (unfold BASE_BLOCK_SIZE in *; lia).
    assert (mt_blocks t ++ [(h, BASE_BLOCK_SIZE)] = map blk (ps ++ [[h]])) as Hb'.
    { rewrite Hb, map_app. f_equal. }
    destruct ps as [|p ps].
    + eexists; split; [unfold reduceBlocks; cbn [mt_blocks]; rewrite Hb'; done|].
      split; [|done]. exists cs, [[h]]. cbn [mt_blockSize mt_leaves mt_blocks].
      split_and!; try done.
      * split; repeat constructor. by exists 0%nat.
      * by constructor.
      * rewrite HLe. simpl. by rewrite app_nil_r.
    + destruct (reduceBlocks_ok (2 ^ j) (p :: ps) [h] (mkTree (mt_blocks t ++ [(h, BASE_BLOCK_SIZE)])
        (mt_leaves t) (mt_fileSize t) (mt_blockSize t) (mt_root t))) as (r & -> & Hr).
      * by exists j.
      * done.
      * done.
      * done.
      * by exists 0%nat.
      * destruct Hd as [_ Hd]. eapply Forall_impl; [exact Hd|]. intros x Hx%pow2_pos. simpl. lia.
      * apply Forall_app; split; [done|]. by constructor.
      * done.
      * assert (length (p :: ps) <= length (concat (p :: ps)))%nat as Hle.
        { destruct Hd as [_ Hd]. clear -Hd. induction Hd as [|x l Hx%pow2_pos _ IH]; simpl; [lia|].
          rewrite length_app. lia. }
        rewrite HLe, length_app in Hlen. lia.
      * eexists; split; [done|]. split; [|done].
        destruct Hr as [(ps' & -> & Hd' & Hc' & HpB')|[-> Hfull]]; cbn [mt_leaves fst snd].
        -- exists cs, ps'. cbn [mt_blockSize mt_leaves mt_blocks]. split_and!; try done.
           rewrite Hc', HLe. by rewrite app_assoc.
        -- exists (cs ++ [concat (p :: ps) ++ [h]]), []. cbn [mt_blockSize mt_leaves mt_blocks].
           split_and!; try done.
           ++ by rewrite map_app, Hlv.
           ++ apply Forall_app. auto.
           ++ apply decr_nil.
           ++ rewrite HLe, concat_app. simpl. by rewrite !app_nil_r, <-!app_assoc.
  - eexists; split; [done|]. split; [|done].
    assert (2 ^ j = 1)%nat as Hj.
    { pose proof (Nat.pow_nonzero 2 j ltac:(lia)). unfold BASE_BLOCK_SIZE in *. lia. }
    destruct ps as [|p ps].
    2:{ exfalso. apply Forall_cons in HpB as [? _]. destruct Hd as [_ [Hp%pow2_pos _]%Forall_cons]. lia. }
    exists (cs ++ [[h]]), []. cbn [mt_blockSize mt_leaves mt_blocks]. split_and!; try done.
    + by rewrite map_app, Hlv.
    + apply Forall_app. split; [done|]. by constructor.
    + rewrite HLe, concat_app. simpl. by rewrite !app_nil_r.
Qed.

(** The loop of [update] on non-empty data, or on empty data for a fresh tree. *)
Lemma update_loop_ok j t L data :
  mt_inv j t L -> Z.of_nat (length L) + Z.of_nat (length data) < 2 ^ 90 ->
  exists t', mjoin (while (update_step data) loop_fuel (t, 0)) = Some t' /\
    mt_inv j t' (L ++ map leaf_hash (base_blocks data)) /\ mt_fileSize t' = mt_fileSize t.
Proof.
  intros Ht Hlen.
  pose (I := fun st : MerkleTree * Z => exists k, st.2 = Z.of_nat (k * BB) /\
    (data <> [] -> st.2 < Z.of_nat (length data)) /\ (data = [] -> k = 0%nat) /\
    mt_inv j st.1 (L ++ map leaf_hash (chunks (take (k * BB) data))) /\
    mt_fileSize st.1 = mt_fileSize t).
  destruct (while_total (update_step data) I (fun st => Z.of_nat (length data) - st.2)
    (fun r => exists t', r = Some t' /\ mt_inv j t' (L ++ map leaf_hash (base_blocks data)) /\
       mt_fileSize t' = mt_fileSize t)) with (fuel := loop_fuel) (s := (t, 0)) as (r & -> & Hr).
  - intros [t1 i] (k & Hi & Hlt & Hk & Hinv & Hfs). cbn [fst snd] in *. unfold update_step.
    assert (length (map leaf_hash (chunks (take (k * BB) data))) <= length data)%nat as Hcl.
    { rewrite length_map. destruct (decide (take (k * BB) data = [])) as [->|Hne]; [simpl; lia|].
      pose proof (chunks_length _ Hne) as Hc. rewrite length_take in Hc.
      pose proof BB_pos. destruct (length (chunks (take (k * BB) data))); nia. }
    destruct (push_base_ok j t1 _
      (take (Z.to_nat (Z.min BASE_BLOCK_SIZE (Z.of_nat (length data) - i))) (drop (Z.to_nat i) data)) Hinv)
      as (t2 & -> & Hinv2 & Hfs2); [rewrite length_app; lia|].
    assert (Z.of_nat BB = BASE_BLOCK_SIZE) as HBB by (rewrite BB_val; done).
    rewrite Hi, Nat2Z.id in Hinv2.
    set (n := Z.min BASE_BLOCK_SIZE (Z.of_nat (length data) - Z.of_nat (k * BB))) in *.
    assert (take (Z.to_nat n) (drop (k * BB) data) = take BB (drop (k * BB) data)) as Htk.
    { destruct (decide (BASE_BLOCK_SIZE <= Z.of_nat (length data) - Z.of_nat (k * BB))).
      - f_equal. lia.
      - rewrite !take_ge; [done| |]; rewrite length_drop; lia. }
    rewrite Htk, <-app_assoc in Hinv2. rewrite Hi. fold n. subst i. pose proof BB_pos as HBp.
    destruct (decide (data = [])) as [->|Hne].
    + assert (k = 0%nat) as -> by by apply Hk.
      assert ((Z.of_nat (0 * BB) + n <? Z.of_nat (length (@nil Z))) = false) as ->.
      { apply Z.ltb_ge. unfold n. cbn [length]. lia. }
      eexists; split; [done|]. split; [|congruence]. by rewrite take_nil, drop_nil, take_nil in Hinv2.
    + specialize (Hlt Hne). destruct (Z.of_nat (k * BB) + n <? Z.of_nat (length data)) eqn:E; zb.
      * assert (Z.of_nat (k * BB) + n = Z.of_nat (S k * BB)) as Hn' by lia.
        split; [|cbn [snd]; lia]. exists (S k). cbn [fst snd]. rewrite Hn'.
        split_and!; [done|lia|done| |congruence].
        replace (take (S k * BB) data) with (take (k * BB) data ++ take BB (drop (k * BB) data)).
        2:{ rewrite take_take_drop. f_equal. lia. }
        rewrite (chunks_app k) by (rewrite length_take; lia).
        rewrite (chunks_short (take BB _)), map_app; [done| |rewrite length_take, length_drop; lia].
        intros E0. apply (f_equal length) in E0. rewrite length_take, length_drop in E0. cbn [length] in E0. lia.
      * eexists; split; [done|]. split; [|congruence].
        replace (base_blocks data) with (chunks (take (k * BB) data ++ take BB (drop (k * BB) data))).
        2:{ rewrite (take_ge (drop (k * BB) data)) by (rewrite length_drop; lia).
            rewrite take_drop. by destruct data. }
        rewrite (chunks_app k) by (rewrite length_take; lia).
        rewrite (chunks_short (take BB _)), map_app; [done| |rewrite length_take, length_drop; lia].
        intros E0. apply (f_equal length) in E0. rewrite length_take, length_drop in E0. cbn [length] in E0. lia.
  - exists 0%nat. cbn [fst snd]. split_and!; [done|destruct data; [done|simpl; lia]|done| |done].
    simpl. by rewrite app_nil_r.
  - rewrite loop_fuel_val. cbn [snd]. lia.
  - destruct Hr as (t' & -> & ? & ?). exists t'. done.
Qed.

Lemma mt_update_ok j t L data :
  mt_inv j t L -> Z.of_nat (length L) + Z.of_nat (length data) < 2 ^ 90 -> (data = [] -> L = []) ->
  exists t', mt_update t data = Some t' /\ mt_inv j t' (L ++ map leaf_hash (base_blocks data)) /\
    mt_fileSize t' = mt_fileSize t + Z.of_nat (length data).
Proof.
  intros Ht Hlen Hemp. unfold mt_update.
  assert (is_empty data && negb (is_empty (mt_leaves t) && is_empty (mt_blocks t)) = false) as ->.
  { destruct data; [|done]. specialize (Hemp eq_refl). subst L. simpl.
    destruct Ht as (cs & ps & _ & -> & Hcs & -> & [_ Hd] & _ & HLe).
    symmetry in HLe. apply app_nil in HLe as [H1 H2]. pose proof (Nat.pow_nonzero 2 j ltac:(lia)).
    assert (cs = []) as ->. { destruct cs as [|c cs]; [done|]. apply Forall_cons in Hcs as [Hc _].
      simpl in H1. apply app_nil in H1 as [-> _]. simpl in Hc. lia. }
    assert (ps = []) as ->. { destruct ps as [|p ps]; [done|]. apply Forall_cons in Hd as [Hp%pow2_pos _].
      simpl in H2. apply app_nil in H2 as [-> _]. simpl in Hp. lia. }
    done. }
  destruct (update_loop_ok j t L data Ht Hlen) as (t' & -> & Hinv & Hfs).
  eexists; split; [done|]. split; [done|]. simpl. lia.
Qed.

(** The loop of [finalize] folds the counter into one hash. *)
Lemma finalize_loop_ok ps :
  decr ps -> (2 <= length ps)%nat -> Z.of_nat (length ps) < 2 ^ 200 ->
  exists b, mjoin (while finalize_step loop_fuel (map blk ps, length (map blk ps))) = Some [b] /\
    b.1 = tree (concat ps).
Proof.
  intros Hd Hl Hlen.
  pose (I := fun st : list (list Z * Z) * nat => exists qs rs, ps = qs ++ rs /\ rs <> [] /\
    (2 <= st.2)%nat /\ st.2 = S (length qs) /\ (st.2 <= length st.1)%nat /\
    map fst (take st.2 st.1) = map tree qs ++ [tree (concat rs)]).
  destruct (while_total finalize_step I (fun st => Z.of_nat st.2)
    (fun r => exists b, r = Some [b] /\ b.1 = tree (concat ps)))
    with (fuel := loop_fuel) (s := (map blk ps, length (map blk ps))) as (r & -> & b & -> & Hb).
  - intros [bl size] (qs & rs & Hps & Hrs & H2 & Hsz & Hle & Hmap). cbn [fst snd] in *. subst size.
    destruct (exists_last (l := qs)) as (qs1 & q & ->); [by intros ->; simpl in *; lia|].
    assert (length (qs1 ++ [q]) = S (length qs1)) as E by (rewrite length_app; simpl; lia).
    rewrite E in *. unfold finalize_step.
    replace (S (S (length qs1)) - 2)%nat with (length qs1) by lia.
    replace (S (S (length qs1)) - 1)%nat with (S (length qs1)) by lia.
    rewrite map_app, <-app_assoc in Hmap. cbn [map app] in Hmap.
    destruct (bl !! length qs1) as [a|] eqn:Ea; [|apply lookup_ge_None in Ea; lia].
    destruct (bl !! S (length qs1)) as [c|] eqn:Ec; [|apply lookup_ge_None in Ec; lia].
    rewrite (take_S_r _ _ c), (take_S_r _ _ a), !map_app in Hmap by done. simpl in Hmap.
    rewrite <-app_assoc in Hmap. simpl in Hmap.
    apply app_inj_1 in Hmap as [Hm1 [= Ha Hc]]; [|rewrite !length_map, length_take; lia].
    assert (decr (q :: rs)) as Hdq.
    { rewrite Hps, <-app_assoc in Hd. by apply decr_app_inv in Hd as (_ & ? & _). }
    assert (combine a.1 c.1 = tree (concat (q :: rs))) as Hcomb.
    { rewrite Ha, Hc. symmetry. by apply tree_decr. }
    assert (map fst (take (S (length qs1)) (<[length qs1:=(combine a.1 c.1, a.2)]> bl)) =
            map tree qs1 ++ [tree (concat (q :: rs))]) as Hnew.
    { rewrite (take_S_r _ _ (combine a.1 c.1, a.2)) by (apply list_lookup_insert_eq; lia).
      rewrite take_insert_ge by lia. rewrite map_app, Hm1. simpl. by rewrite Hcomb. }
    case_bool_decide as Hs2.
    + assert (qs1 = []) as -> by (destruct qs1; [done|simpl in *; lia]). simpl in Hnew, Hps.
      destruct (take 1 _) as [|b0 [|]] eqn:Et; simpl in Hnew |- *.
      * done.
      * exists b0. simpl in Hnew. injection Hnew as Hnew. subst ps. done.
      * done.
    + split; [|cbn [snd]; lia]. exists qs1, (q :: rs). cbn [fst snd].
      rewrite length_insert. split_and!; [by rewrite Hps, <-app_assoc|done|lia|done|lia|done].
  - destruct (exists_last (l := ps)) as (qs & q & E); [by intros ->; simpl in *; lia|].
    exists qs, [q]. cbn [fst snd]. rewrite length_map, take_ge by (rewrite length_map; lia).
    rewrite map_map. cbn [concat blk fst]. rewrite app_nil_r.
    assert (length ps = S (length qs)) by (rewrite E, length_app; simpl; lia).
    split_and!; [done|done|done|done|lia|]. rewrite E, map_app. done.
  - rewrite loop_fuel_val. cbn [snd]. rewrite length_map. lia.
  - exists b. done.
Qed.

(** ** The root from the leaves *)

Lemma getHash_split_ok bs len :
  0 < bs < len -> len < 2 ^ 250 ->
  exists i, getHash_split bs len = Some (bs * 2 ^ Z.of_nat i) /\
    bs * 2 ^ Z.of_nat i < len <= 2 * (bs * 2 ^ Z.of_nat i).
Proof.
  intros Hbs Hlen. unfold getHash_split.
  match goal with |- context [while ?step _ _] =>
    destruct (while_total step (fun l => exists i, l = bs * 2 ^ Z.of_nat i /\ l < len)
      (fun l => len - l) (fun l => exists i, l = bs * 2 ^ Z.of_nat i /\ l < len <= 2 * l))
      with (fuel := loop_fuel) (s := bs) as (r & -> & i & -> & Hr)
  end.
  - intros l (i & -> & Hl). pose proof (Z.pow_pos_nonneg 2 (Z.of_nat i) ltac:(lia) ltac:(lia)).
    case_if.
    + split; [|nia]. exists (S i). rewrite Nat2Z.inj_succ, Z.pow_succ_r by lia. lia.
    + exists i. lia.
  - exists 0%nat. simpl. lia.
  - rewrite loop_fuel_val. lia.
  - by exists i.
Qed.

Lemma getHash_S f t start len :
  getHash (S f) t start len =
  if len <=? mt_blockSize t then
    let idx := start ÷ mt_blockSize t in
    if idx <? Z.of_nat (length (mt_leaves t)) then mt_leaves t !! Z.to_nat idx else Some MerkleValue0
  else
    l ← getHash_split (mt_blockSize t) len;
    a ← getHash f t start l; b ← getHash f t (start + l) (len - l); Some (combine a b).
Proof. done. Qed.

(** [getHash] over a range of [n] leaves is the tree hash of those leaves. *)
Lemma getHash_ok f t a n bs len :
  mt_blockSize t = bs -> 0 < bs -> (1 <= n)%nat -> Z.of_nat n <= 2 ^ Z.of_nat f ->
  (a + n <= length (mt_leaves t))%nat -> len < 2 ^ 250 ->
  (n <> 1%nat -> Z.of_nat (pred n) * bs < len) -> len <= Z.of_nat n * bs ->
  getHash (S f) t (bs * Z.of_nat a) len = Some (tree (take n (drop a (mt_leaves t)))).
Proof.
  intros Hbs Hpos Hn1. revert n a len Hn1. induction f as [|f IH]; intros n a len Hn1 Hnf Han Hl Hlo Hhi;
    rewrite getHash_S, Hbs; cbv zeta.
  all: destruct (decide (n = 1%nat)) as [->|Hn].
  1,3: destruct (len <=? bs) eqn:E; zb; [|lia];
    rewrite Z.quot_div_nonneg, Z.mul_comm, Z.div_mul by lia;
    replace (Z.of_nat a <? _) with true by (symmetry; apply Z.ltb_lt; lia);
    rewrite Nat2Z.id; destruct (mt_leaves t !! a) as [x|] eqn:Ex;
    [by rewrite (drop_S _ _ _ Ex)|apply lookup_ge_None in Ex; lia].
  - simpl in Hnf. lia.
  - specialize (Hlo Hn). destruct (len <=? bs) eqn:E; zb; [nia|].
    destruct (getHash_split_ok bs len) as (i & -> & Hi); [lia|done|]. cbn [mbind option_bind].
    pose proof (Z.pow_pos_nonneg 2 (Z.of_nat i) ltac:(lia) ltac:(lia)) as Hip.
    set (k := Z.to_nat (2 ^ Z.of_nat i)).
    assert (2 ^ Z.of_nat i = Z.of_nat k) as Hk by lia. rewrite Hk in *.
    assert (k = 2 ^ i)%nat as Hk'.
    { apply Nat2Z.inj. rewrite <-Hk, Nat2Z.inj_pow. done. }
    assert (k < n)%nat by nia. assert (n <= 2 * k)%nat by nia.
    rewrite Nat2Z.inj_succ, Z.pow_succ_r in Hnf by lia.
    assert (2 ^ Z.of_nat i <= 2 ^ Z.of_nat f) as Hif.
    { destruct (decide (i <= f)%nat); [apply Z.pow_le_mono_r; lia|].
      assert (2 ^ Z.of_nat (S f) <= 2 ^ Z.of_nat i) as H' by (apply Z.pow_le_mono_r; lia).
      rewrite Nat2Z.inj_succ, Z.pow_succ_r in H' by lia. lia. }
    rewrite (IH k a); [|lia|lia|lia|nia|nia|lia]. cbn [mbind option_bind].
    replace (bs * Z.of_nat a + bs * Z.of_nat k) with (bs * Z.of_nat (a + k)) by lia.
    rewrite (IH (n - k)%nat (a + k)%nat); [|lia|lia|lia|nia|nia|nia]. cbn [mbind option_bind].
    f_equal. rewrite <-(take_drop k (take n (drop a (mt_leaves t)))).
    rewrite (thex_app _ _ i).
    + rewrite take_take, Nat.min_l, <-drop_drop by lia.
      f_equal. f_equal. rewrite skipn_firstn_comm. done.
    + rewrite length_take, length_take, length_drop. lia.
    + rewrite length_drop, length_take, length_drop. lia.
Qed.

(** The leaves after [finalize]: the tree hashes of the blocks of [L]. *)
Definition leaves_of (j : nat) (L lv : list (list Z)) : Prop :=
  exists cs r, lv = map tree (cs ++ [r]) /\ Forall (fun c => length c = (2 ^ j)%nat) cs /\
    (0 < length r <= 2 ^ j)%nat /\ L = concat cs ++ r.

Lemma concat_length_const {A} (n : nat) (cs : list (list A)) :
  Forall (fun c => length c = n) cs -> length (concat cs) = (length cs * n)%nat.
Proof. induction 1 as [|c cs Hc _ IH]; simpl; [done|]. rewrite length_app. lia. Qed.

Lemma calcRoot_leaves j t L :
  mt_blockSize t = BASE_BLOCK_SIZE * Z.of_nat (2 ^ j) -> leaves_of j L (mt_leaves t) ->
  mt_fileSize t < 2 ^ 63 -> (length L <> 1%nat -> Z.of_nat (pred (length L)) * BASE_BLOCK_SIZE < mt_fileSize t) ->
  mt_fileSize t <= Z.of_nat (length L) * BASE_BLOCK_SIZE ->
  calcRoot t = Some (mkTree (mt_blocks t) (mt_leaves t) (mt_fileSize t) (mt_blockSize t) (tree L)).
Proof.
  intros Hbs (cs & r & Hlv & Hcs & Hr & ->) Hfs Hlo Hhi. unfold calcRoot.
  rewrite length_app, (concat_length_const (2 ^ j)) in Hlo, Hhi by done.
  pose proof (Nat.pow_nonzero 2 j ltac:(lia)) as Hp. unfold BASE_BLOCK_SIZE in *.
  assert (length (mt_leaves t) = S (length cs)) as Hl by (rewrite Hlv, length_map, length_app; simpl; lia).
  change 65%nat with (S 64). replace 0 with (1024 * Z.of_nat (2 ^ j) * Z.of_nat 0) by lia.
  assert (length cs <> 0%nat -> Z.of_nat (length cs) * (1024 * Z.of_nat (2 ^ j)) < mt_fileSize t) as Hlo'.
  { intros ?. specialize (Hlo ltac:(nia)). nia. }
  rewrite (getHash_ok 64 t 0 (S (length cs)) (1024 * Z.of_nat (2 ^ j))); [|done|lia|lia| |lia|lia| |nia].
  - cbn [mbind option_bind]. rewrite drop_0, take_ge by lia.
    by rewrite Hlv, (thex_blocks _ _ j).
  - change (2 ^ Z.of_nat 64) with (2 ^ 64). destruct (decide (length cs = 0%nat)) as [->|]; [lia|].
    specialize (Hlo' ltac:(lia)). nia.
  - intros Hne. simpl pred. apply Hlo'. lia.
Qed.

Lemma decr_small j (ps : list (list (list Z))) :
  decr ps -> Forall (fun p => (length p < 2 ^ j)%nat) ps -> (length (concat ps) < 2 ^ j)%nat.
Proof using HL.
  intros Hd HpB. destruct ps as [|p ps]; [pose proof (Nat.pow_nonzero 2 j); simpl; lia|].
  pose proof (decr_total _ _ Hd). destruct Hd as [_ [Hp _]%Forall_cons].
  apply Forall_cons in HpB as [HpB _]. pose proof (pow2_lt _ _ Hp (ex_intro _ j eq_refl) HpB).
  simpl. rewrite length_app. lia.
Qed.

Lemma mt_finalize_ok j t L :
  mt_inv j t L -> L <> [] -> Z.of_nat (length L) < 2 ^ 100 ->
  mt_fileSize t < 2 ^ 63 -> (length L <> 1%nat -> Z.of_nat (pred (length L)) * BASE_BLOCK_SIZE < mt_fileSize t) ->
  mt_fileSize t <= Z.of_nat (length L) * BASE_BLOCK_SIZE ->
  exists t', mt_finalize t = Some t' /\ mt_root t' = tree L /\ leaves_of j L (mt_leaves t') /\
    mt_fileSize t' = mt_fileSize t /\ mt_blockSize t' = mt_blockSize t /\ mt_blocks t' = [].
Proof.
  intros (cs & ps & Hbs & Hlv & Hcs & Hb & Hd & HpB & HLe) Hne Hlen Hfs Hlo Hhi. unfold mt_finalize.
  assert (is_empty (mt_leaves t) && is_empty (mt_blocks t) = false) as ->.
  { rewrite Hlv, Hb. destruct cs, ps; try done. }
  cbn [mbind option_bind].
  pose proof (decr_small j ps Hd HpB) as HpsB.
  assert (length ps <= length (concat ps))%nat as Hle.
  { destruct Hd as [_ Hd]. clear -Hd. induction Hd as [|x l Hx%pow2_pos _ IH]; simpl; [lia|].
    rewrite length_app. lia. }
  assert (exists bl, (if bool_decide (1 < length (mt_blocks t))%nat
      then mjoin (while finalize_step loop_fuel (mt_blocks t, length (mt_blocks t)))
      else Some (mt_blocks t)) = Some bl /\
      match bl with [] => ps = [] | b :: _ => ps <> [] /\ b.1 = tree (concat ps) end) as (bl & -> & Hbl).
  { rewrite Hb. case_bool_decide as Hc; rewrite length_map in Hc.
    - destruct (finalize_loop_ok ps) as (b & -> & Hb1); [done|lia| |].
      + rewrite HLe, length_app in Hlen. lia.
      + exists [b]. split; [done|]. split; [by intros ->; simpl in *; lia|done].
    - eexists; split; [done|]. destruct ps as [|p [|? ?]]; simpl in *; [done| |lia].
      split; [done|]. by rewrite app_nil_r. }
  cbn [mbind option_bind].
  assert (exists lv, match bl with
     | [] => mkTree [] (mt_leaves t) (mt_fileSize t) (mt_blockSize t) (mt_root t)
     | b :: _ => mkTree [] (mt_leaves t ++ [b.1]) (mt_fileSize t) (mt_blockSize t) (mt_root t)
     end = mkTree [] lv (mt_fileSize t) (mt_blockSize t) (mt_root t) /\ leaves_of j L lv) as (lv & -> & Hleaves).
  { destruct bl as [|b bl].
    - subst ps. eexists; split; [done|]. simpl in HLe. rewrite app_nil_r in HLe.
      destruct (exists_last (l := cs)) as (cs1 & c & ->).
      { intros ->. by simpl in HLe. }
      apply Forall_app in Hcs as [Hcs [Hc _]%Forall_cons].
      exists cs1, c. split_and!; [done|done|pose proof (Nat.pow_nonzero 2 j); lia|lia|].
      rewrite HLe, concat_app. simpl. by rewrite app_nil_r.
    - destruct Hbl as [Hps Hb1]. eexists; split; [done|]. exists cs, (concat ps).
      split_and!; [by rewrite map_app, Hlv, Hb1|done| |lia|done].
      destruct ps; [done|]. cbn [length] in Hle. lia. }
  rewrite (calcRoot_leaves j _ L) by done. eexists; split; [done|]. done.
Qed.

(** ** Feeding a file *)

Definition run_updates (t : MerkleTree) (ds : list (list Z)) : option MerkleTree :=
  foldl (fun o d => t ← o; mt_update t d) (Some t) ds.

(** The specification: the root over the base blocks of the whole data. *)
Definition file_root (data : list Z) : list Z :=
  thex node_hash MerkleValue0 (map leaf_hash (base_blocks data)).

Lemma tree_file_root data : tree (map leaf_hash (base_blocks data)) = file_root data.
Proof. apply thex_ext, combine_node. Qed.

Lemma mt_inv_new j : mt_inv j (MerkleTree_new (BASE_BLOCK_SIZE * Z.of_nat (2 ^ j))) [].
Proof. exists [], []. split_and!; try done. apply decr_nil. Qed.

Definition whole_blocks (d : list Z) : Prop := d <> [] /\ exists k, length d = (k * BB)%nat.

Lemma run_updates_whole j ds :
  Forall whole_blocks ds -> Z.of_nat (length (concat ds)) < 2 ^ 63 ->
  exists t, run_updates (MerkleTree_new (BASE_BLOCK_SIZE * Z.of_nat (2 ^ j))) ds = Some t /\
    mt_inv j t (map leaf_hash (chunks (concat ds))) /\
    mt_fileSize t = Z.of_nat (length (concat ds)) /\ exists k, length (concat ds) = (k * BB)%nat.
Proof.
  intros Hds. induction ds as [|d ds IH] using rev_ind; intros Hlen.
  - eexists; split; [done|]. split; [apply mt_inv_new|]. split; [done|]. by exists 0%nat.
  - apply Forall_app in Hds as [Hds [[Hne [k Hk]] _]%Forall_cons].
    rewrite concat_app in *. simpl in *. rewrite app_nil_r, length_app in *.
    destruct IH as (t & Ht & Hinv & Hfs & k' & Hk'); [done|lia|].
    unfold run_updates in *. rewrite foldl_app, Ht. simpl.
    destruct (mt_update_ok j t _ d Hinv) as (t' & -> & Hinv' & Hfs').
    { rewrite length_map. destruct (decide (concat ds = [])) as [->|E]; [simpl; lia|].
      pose proof (chunks_length _ E). pose proof BB_pos. nia. }
    { done. }
    exists t'. split; [done|]. split; [|split; [lia|exists (k' + k)%nat; lia]].
    rewrite (chunks_app k') by done. rewrite map_app. by destruct d.
Qed.

Lemma base_blocks_length l :
  (length (base_blocks l) <> 1%nat -> (pred (length (base_blocks l)) * BB < length l)%nat) /\
  (length l <= length (base_blocks l) * BB)%nat /\ (1 <= length (base_blocks l))%nat.
Proof.
  destruct l as [|x l].
  - simpl. split_and!; [done|lia|lia].
  - pose proof (chunks_length (x :: l) ltac:(done)) as Hc. unfold base_blocks.
    set (n := length (chunks (x :: l))) in *. cbn [length] in *.
    assert (1 <= n)%nat by (destruct n; lia).
    split_and!; [|lia|lia]. intros _. replace (pred n) with (n - 1)%nat by lia. lia.
Qed.

(** Updates with whole blocks followed by one last piece of any size leave the
    hashes of the base blocks of the whole data. *)
Lemma run_updates_last j ds last :
  Forall whole_blocks ds -> Z.of_nat (length (concat ds ++ last)) < 2 ^ 63 ->
  exists t, run_updates (MerkleTree_new (BASE_BLOCK_SIZE * Z.of_nat (2 ^ j))) (ds ++ [last]) = Some t /\
    mt_inv j t (map leaf_hash (base_blocks (concat ds ++ last))) /\
    mt_fileSize t = Z.of_nat (length (concat ds ++ last)).
Proof.
  intros Hds Hlen. rewrite length_app in Hlen.
  destruct (run_updates_whole j ds Hds) as (t & Ht & Hinv & Hfs & k & Hk); [lia|].
  unfold run_updates in *. rewrite foldl_app, Ht. simpl.
  assert (concat ds = [] -> ds = []) as Hnil.
  { destruct ds as [|d ds]; [done|]. apply Forall_cons in Hds as [[Hd _] _].
    simpl. by intros [-> _]%app_nil. }
  destruct last as [|x last].
  - rewrite app_nil_r. destruct (concat ds) as [|y c] eqn:E.
    + destruct (mt_update_ok j t _ [] Hinv) as (t' & -> & Hinv' & Hfs'); [simpl; lia|done|].
      exists t'. split; [done|]. split; [done|]. rewrite Hfs'. simpl in *. lia.
    + exists t. split; [|split; [done|done]]. unfold mt_update.
      destruct Hinv as (cs & ps & _ & Hlv & _ & Hb & _ & _ & HLe).
      rewrite Hlv, Hb. rewrite chunks_step in HLe by done. by destruct cs, ps.
  - destruct (mt_update_ok j t _ (x :: last) Hinv) as (t' & -> & Hinv' & Hfs').
    { rewrite length_map. destruct (decide (concat ds = [])) as [->|E]; [simpl in *; lia|].
      pose proof (chunks_length _ E). pose proof BB_pos. nia. }
    { done. }
    exists t'. split; [done|]. rewrite Hfs', Hfs, length_app. split; [|lia].
    rewrite <-map_app in Hinv'. unfold base_blocks in Hinv'. rewrite <-(chunks_app k) in Hinv' by done.
    unfold base_blocks. by destruct (concat ds).
Qed.

(** A whole run: the updates and [finalize]. *)
Lemma stream_finalize j ds last :
  Forall whole_blocks ds -> Z.of_nat (length (concat ds ++ last)) < 2 ^ 63 ->
  exists t, (run_updates (MerkleTree_new (BASE_BLOCK_SIZE * Z.of_nat (2 ^ j))) (ds ++ [last])
             ≫= mt_finalize) = Some t /\
    mt_root t = tree (map leaf_hash (base_blocks (concat ds ++ last))) /\
    leaves_of j (map leaf_hash (base_blocks (concat ds ++ last))) (mt_leaves t) /\
    mt_fileSize t = Z.of_nat (length (concat ds ++ last)) /\
    mt_blockSize t = BASE_BLOCK_SIZE * Z.of_nat (2 ^ j).
Proof.
  intros Hds Hlen.
  destruct (run_updates_last j ds last Hds Hlen) as (t & -> & Hinv & Hfs). cbn [mbind option_bind].
  destruct (base_blocks_length (concat ds ++ last)) as (H1 & H2 & H3).
  assert (BASE_BLOCK_SIZE = Z.of_nat BB) as HBB by done. pose proof BB_pos.
  destruct (mt_finalize_ok j t _ Hinv) as (t' & -> & Hroot & Hlv & Hfs' & Hbs & _).
  - intros E. apply (f_equal length) in E. rewrite length_map in E. simpl in E. lia.
  - rewrite length_map. nia.
  - lia.
  - rewrite length_map, Hfs, HBB. intros ?. specialize (H1 ltac:(done)). nia.
  - rewrite length_map, Hfs, HBB. nia.
  - exists t'. destruct Hinv as (? & ? & Hb & _). rewrite Hroot, Hbs. split_and!; [done|done|done|lia|done].
Qed.

(** C1.  The hash of a file does not depend on how it was read: for any
    sequence of [update] calls whose pieces are whole 1024-byte blocks, except the last
    one, and any block size [1024 * 2^j] at which leaves are kept, [finalize]
    returns and the root is the tree hash over the 1024-byte blocks of the
    file; the leaves kept are the tree hashes of its [1024 * 2^j]-byte blocks. *)
Theorem MerkleTree_stream (j : nat) (ds : list (list Z)) (last : list Z)
  (Hds : Forall whole_blocks ds) (Hlen : Z.of_nat (length (concat ds ++ last)) < 2 ^ 63) :
  exists t, (run_updates (MerkleTree_new (BASE_BLOCK_SIZE * Z.of_nat (2 ^ j))) (ds ++ [last])
             ≫= mt_finalize) = Some t /\
    mt_root t = file_root (concat ds ++ last) /\
    leaves_of j (map leaf_hash (base_blocks (concat ds ++ last))) (mt_leaves t) /\
    mt_fileSize t = Z.of_nat (length (concat ds ++ last)).
Proof.
  destruct (stream_finalize j ds last Hds Hlen) as (t & Ht & Hr & Hl & Hs & _).
  exists t. rewrite <-tree_file_root. done.
Qed.
End Stream.

(** ** Block sizes *)

Lemma pow2_split i k : 1024 * 2 ^ Z.of_nat (i + k) = 1024 * 2 ^ Z.of_nat i * 2 ^ Z.of_nat k.
Proof. rewrite Nat2Z.inj_add, Z.pow_add_r by lia. lia. Qed.

Lemma pow2_nat_pos i : 0 < 2 ^ Z.of_nat i.
Proof. apply Z.pow_pos_nonneg; lia. Qed.

(** [while] doubling from the base block size as long as [f] holds; [P] is what
    is known of the exponents the loop reaches. *)
Lemma doubling_ok (f : Z -> bool) (nxt : Z -> Z) (N : nat) (P : nat -> Prop) :
  (N < 200)%nat -> P 0%nat ->
  (forall i, (i <= N)%nat -> P i -> f (1024 * 2 ^ Z.of_nat i) = true ->
     (i < N)%nat /\ nxt (1024 * 2 ^ Z.of_nat i) = 1024 * 2 ^ Z.of_nat (S i) /\ P (S i)) ->
  exists i, while (fun bl => if f bl then inl (nxt bl) else inr bl) loop_fuel BASE_BLOCK_SIZE =
      Some (1024 * 2 ^ Z.of_nat i) /\ (i <= N)%nat /\ P i /\ f (1024 * 2 ^ Z.of_nat i) = false /\
      (i <> 0%nat -> P (pred i) /\ f (1024 * 2 ^ Z.of_nat (pred i)) = true).
Proof.
  intros HN HP0 Hf.
  match goal with |- context [while ?step _ _] =>
    destruct (while_total step (fun l => exists i, l = 1024 * 2 ^ Z.of_nat i /\ (i <= N)%nat /\ P i /\
        (i <> 0%nat -> P (pred i) /\ f (1024 * 2 ^ Z.of_nat (pred i)) = true))
      (fun l => 1024 * 2 ^ Z.of_nat N - l)
      (fun r => exists i, r = 1024 * 2 ^ Z.of_nat i /\ (i <= N)%nat /\ P i /\ f (1024 * 2 ^ Z.of_nat i) = false /\
        (i <> 0%nat -> P (pred i) /\ f (1024 * 2 ^ Z.of_nat (pred i)) = true)))
      with (fuel := loop_fuel) (s := BASE_BLOCK_SIZE) as (r & -> & i & -> & Hr) end.
  - intros l (i & -> & Hi & HP & Hpred). destruct (f (1024 * 2 ^ Z.of_nat i)) eqn:E; [|by exists i].
    destruct (Hf i Hi HP E) as (Hlt & -> & HPS). split; [exists (S i); split_and!; [done|lia|done|done]|].
    assert (2 ^ Z.of_nat (S i) <= 2 ^ Z.of_nat N) by (apply Z.pow_le_mono_r; lia).
    rewrite Nat2Z.inj_succ, Z.pow_succ_r in * by lia. pose proof (pow2_nat_pos i). lia.
  - exists 0%nat. split_and!; [done|lia|done|done].
  - rewrite loop_fuel_val. unfold BASE_BLOCK_SIZE.
    assert (2 ^ Z.of_nat N <= 2 ^ 200) by (apply Z.pow_le_mono_r; lia). lia.
  - by exists i.
Qed.

Lemma calcBlockSize_ok fileSize :
  0 <= fileSize < 2 ^ 63 ->
  exists i, calcBlockSize fileSize 10 = Some (1024 * 2 ^ Z.of_nat i) /\ (i <= 44)%nat /\
    fileSize <= 512 * (1024 * 2 ^ Z.of_nat i) /\
    (i <> 0%nat -> 512 * (1024 * 2 ^ Z.of_nat (pred i)) < fileSize).
Proof.
  intros Hfs.
  assert (forall i, (i <= 44)%nat -> 512 * (1024 * 2 ^ Z.of_nat i) < 2 ^ 64) as Hb.
  { intros i Hi. assert (2 ^ Z.of_nat i <= 2 ^ 44) by (apply Z.pow_le_mono_r; lia). lia. }
  destruct (doubling_ok (fun b => u64 (512 * b) <? fileSize) (fun b => u64 (Z.shiftl b 1)) 44 (fun _ => True))
    as (i & Hw & Hi & _ & H1 & H2); [lia|done| |].
  - intros i Hi _. pose proof (Hb i Hi). pose proof (pow2_nat_pos i). unfold wrap at 1.
    rewrite Z.mod_small by lia. rewrite Z.ltb_lt. intros Hlt. split_and!; [| |done].
    + destruct (decide (i = 44%nat)) as [->|]; [|lia]. change (Z.of_nat 44) with 44 in Hlt. lia.
    + unfold wrap. rewrite Z.shiftl_mul_pow2, Nat2Z.inj_succ, Z.pow_succ_r by lia.
      rewrite Z.mod_small; lia.
  - exists i. split; [exact Hw|]. pose proof (Hb i Hi). pose proof (pow2_nat_pos i).
    unfold wrap in H1. rewrite Z.mod_small, Z.ltb_ge in H1 by lia.
    split_and!; [lia|lia|]. intros Hne. destruct (H2 Hne) as [_ H2'].
    pose proof (Hb (pred i) ltac:(lia)). pose proof (pow2_nat_pos (pred i)).
    unfold wrap in H2'. rewrite Z.mod_small, Z.ltb_lt in H2'; lia.
Qed.

(** [calcBlockSize(fileSize, 10)] returns the smallest power-of-two
    multiple of 1024 for which at most 512 blocks cover the file. *)
Theorem calcBlockSize_spec (fileSize : Z) (Hfs : 0 <= fileSize < 2 ^ 63) :
  exists i, calcBlockSize fileSize 10 = Some (1024 * 2 ^ Z.of_nat i) /\ (i <= 44)%nat /\
    fileSize <= 512 * (1024 * 2 ^ Z.of_nat i) /\
    (i <> 0%nat -> 512 * (1024 * 2 ^ Z.of_nat (pred i)) < fileSize).
Proof. by apply calcBlockSize_ok. Qed.

Lemma calcBlockSize_spec_witness :
  exists i, calcBlockSize 5000000000 10 = Some (1024 * 2 ^ Z.of_nat i) /\ (i <= 44)%nat /\
    5000000000 <= 512 * (1024 * 2 ^ Z.of_nat i) /\
    (i <> 0%nat -> 512 * (1024 * 2 ^ Z.of_nat (pred i)) < 5000000000).
Proof. apply (calcBlockSize_spec 5000000000). lia. Defined.

(** [calcBlocks(fileSize)] is the number of blocks at that size, between
    1 and 512: the cast to [uint16_t] loses nothing. *)
Theorem calcBlocks_uint16 (fileSize : Z) (Hfs : 0 <= fileSize < 2 ^ 63) :
  exists bs n, calcBlockSize fileSize 10 = Some bs /\ calcBlocks fileSize = Some n /\
    1 <= n <= 512 /\ n = calcBlocks2 fileSize bs /\ fileSize <= n * bs.
Proof.
  destruct (calcBlockSize_ok fileSize Hfs) as (i & Hb & _ & Hle & _).
  pose proof (pow2_nat_pos i). unfold calcBlocks, calcBlocks2. rewrite Hb. cbn [mbind option_bind].
  set (bs := 1024 * 2 ^ Z.of_nat i) in *.
  rewrite Z.quot_div_nonneg by lia.
  pose proof (Z.div_mod (fileSize + bs - 1) bs ltac:(lia)).
  pose proof (Z.mod_pos_bound (fileSize + bs - 1) bs ltac:(lia)).
  assert (0 <= (fileSize + bs - 1) / bs) by (apply Z.div_pos; lia).
  assert ((fileSize + bs - 1) / bs <= 512) by nia.
  unfold wrap. rewrite Z.mod_small by lia.
  set (q := (fileSize + bs - 1) / bs) in *. set (r := (fileSize + bs - 1) mod bs) in *.
  exists bs, (Z.max q 1). split_and!; [done|done|lia|lia|by rewrite Z.quot_div_nonneg by lia|].
  clearbody q r bs. nia.
Qed.

Lemma calcBlocks_uint16_witness :
  exists bs n, calcBlockSize 5000000000 10 = Some bs /\ calcBlocks 5000000000 = Some n /\
    1 <= n <= 512 /\ n = calcBlocks2 5000000000 bs /\ 5000000000 <= n * bs.
Proof. apply (calcBlocks_uint16 5000000000). lia. Defined.

Example calcBlockSize_values :
  calcBlockSize 0 10 = Some 1024 /\ calcBlockSize 524288 10 = Some 1024 /\
  calcBlockSize 524289 10 = Some 2048 /\ getMaxBlockSize 1000 = Some 65536.
Proof. vm_compute. done. Qed.

(** ** Loading stored leaves *)

Section Load.
Context {H : Hasher} {HL : HasherLaws H}.

Lemma split_hashes_concat (lv : list (list Z)) :
  (0 < h_bytes)%nat -> Forall (fun v => length v = h_bytes) lv ->
  split_hashes (length lv) (concat lv) = lv.
Proof.
  intros Hp. induction 1 as [|v lv Hv _ IH]; simpl; [done|].
  rewrite <-Hv, take_app_length, drop_app_length. by rewrite IH.
Qed.

Lemma swrap64_small z : - 2 ^ 63 <= z < 2 ^ 63 -> swrap 64 z = z.
Proof. intros Hz. unfold swrap. rewrite Z.mod_small; lia. Qed.

(** The block size chosen by [load] for [m] hashes: the smallest that covers
    the file. *)
Lemma load_blockSize_ok fs m :
  0 <= fs <= 2 ^ 62 -> 1 <= m < 2 ^ 50 ->
  exists i, load_blockSize fs m = Some (1024 * 2 ^ Z.of_nat i) /\ fs <= 1024 * 2 ^ Z.of_nat i * m /\
    (i <> 0%nat -> 1024 * 2 ^ Z.of_nat (pred i) * m < fs).
Proof.
  intros Hfs Hm.
  destruct (doubling_ok (fun b => swrap 64 (b * m) <? fs) (fun b => swrap 64 (Z.shiftl b 1)) 62
    (fun i => 1024 * 2 ^ Z.of_nat i * m < 2 ^ 63)) as (i & Hw & Hi & HP & H1 & H2); [lia|simpl; lia| |].
  - intros i Hi HP. pose proof (pow2_nat_pos i). rewrite swrap64_small, Z.ltb_lt by nia. intros Hlt.
    rewrite Nat2Z.inj_succ, Z.pow_succ_r by lia. split_and!.
    + destruct (decide (i = 62%nat)) as [->|]; [|lia]. change (Z.of_nat 62) with 62 in *. nia.
    + rewrite Z.shiftl_mul_pow2, swrap64_small; nia.
    + nia.
  - exists i. split; [exact Hw|]. pose proof (pow2_nat_pos i).
    rewrite swrap64_small, Z.ltb_ge in H1 by nia. split; [done|].
    intros Hne. destruct (H2 Hne) as [HP' H2']. pose proof (pow2_nat_pos (pred i)).
    rewrite swrap64_small, Z.ltb_lt in H2' by nia. done.
Qed.

(** The smallest power-of-two block size at which [m >= 2] blocks cover the file
    is the one the tree was built with. *)
Lemma block_exponent_unique i j m fs :
  1 <= m -> m * (1024 * 2 ^ Z.of_nat j) < fs -> fs <= (m + 1) * (1024 * 2 ^ Z.of_nat j) ->
  fs <= 1024 * 2 ^ Z.of_nat i * (m + 1) ->
  (i <> 0%nat -> 1024 * 2 ^ Z.of_nat (pred i) * (m + 1) < fs) -> i = j.
Proof.
  intros Hm H1 H2 H3 H4. pose proof (pow2_nat_pos i). pose proof (pow2_nat_pos j).
  destruct (Nat.lt_trichotomy i j) as [Hij|[->|Hij]]; [|done|]; exfalso.
  - assert (2 * 2 ^ Z.of_nat i <= 2 ^ Z.of_nat j).
    { rewrite <-Z.pow_succ_r by lia. apply Z.pow_le_mono_r; lia. } nia.
  - specialize (H4 ltac:(lia)).
    assert (2 ^ Z.of_nat j <= 2 ^ Z.of_nat (pred i)) by (apply Z.pow_le_mono_r; lia). nia.
Qed.

Lemma calcRoot_one bl v fs bs rt :
  0 < bs -> fs <= bs -> calcRoot (mkTree bl [v] fs bs rt) = Some (mkTree bl [v] fs bs v).
Proof.
  intros Hbs Hfs. unfold calcRoot. rewrite (getHash_S 64). cbn [mt_blockSize mt_leaves mt_fileSize].
  destruct (fs <=? bs) eqn:E; zb; [|lia]. rewrite Z.quot_0_l by lia. done.
Qed.

Lemma load_run t0 fs (lv : list (list Z)) bl t' :
  (0 < h_bytes)%nat -> Forall (fun v => length v = h_bytes) lv ->
  load_blockSize fs (Z.of_nat (length lv)) = Some bl ->
  calcRoot (mkTree (mt_blocks t0) lv fs bl (mt_root t0)) = Some t' ->
  load t0 fs (concat lv) = Some (true, t').
Proof.
  intros Hb Hlv Hbl Hr. unfold load.
  rewrite (concat_length_const h_bytes) by done.
  rewrite bool_decide_false by (rewrite Nat.Div0.mod_mul; lia).
  rewrite Nat.div_mul, split_hashes_concat by lia || done.
  rewrite Hbl, option_bind_Some_eq, Hr. done.
Qed.

(** Loading the leaves of a tree over [L] gives the same leaves and the same root,
    whatever tree the data is loaded into. *)
Lemma load_leaves_ok (j : nat) (L : list (list Z)) (t t0 : MerkleTree)
  (Hbs : mt_blockSize t = BASE_BLOCK_SIZE * Z.of_nat (2 ^ j))
  (Hlv : leaves_of j L (mt_leaves t))
  (Hroot : mt_root t = thex combine MerkleValue0 L)
  (Hbytes : (0 < h_bytes)%nat) (Hlen : Forall (fun v => length v = h_bytes) (mt_leaves t))
  (Hcnt : Z.of_nat (length (mt_leaves t)) < 2 ^ 50) (Hfs : 0 <= mt_fileSize t <= 2 ^ 62)
  (Hlo : length L <> 1%nat -> Z.of_nat (pred (length L)) * BASE_BLOCK_SIZE < mt_fileSize t)
  (Hhi : mt_fileSize t <= Z.of_nat (length L) * BASE_BLOCK_SIZE) :
  exists t', load t0 (mt_fileSize t) (getLeafData t) = Some (true, t') /\
    mt_leaves t' = mt_leaves t /\ mt_root t' = mt_root t /\ mt_fileSize t' = mt_fileSize t.
Proof.
  pose proof Hlv as (cs & r & Hmap & Hcs & Hr & HLe).
  assert (length (mt_leaves t) = S (length cs)) as Hl by (rewrite Hmap, length_map, length_app; simpl; lia).
  pose proof (Nat.pow_nonzero 2 j ltac:(lia)) as Hp.
  assert (length L = length cs * 2 ^ j + length r)%nat as HLl.
  { rewrite HLe, length_app, (concat_length_const (2 ^ j)) by done. done. }
  destruct (load_blockSize_ok (mt_fileSize t) (Z.of_nat (length (mt_leaves t)))) as (i & Hbl & H1 & H2);
    [done|lia|]. pose proof (pow2_nat_pos i).
  exists (mkTree (mt_blocks t0) (mt_leaves t) (mt_fileSize t) (1024 * 2 ^ Z.of_nat i)
    (thex combine MerkleValue0 L)).
  split; [|by rewrite Hroot]. apply (load_run _ _ _ _ _ Hbytes Hlen Hbl). clear Hbl Hroot.
  destruct (decide (cs = [])) as [->|Hne].
  - simpl length in Hl. rewrite Hl in H1. rewrite Hmap, HLe. cbn [app map concat].
    apply calcRoot_one; lia.
  - assert (1024 * 2 ^ Z.of_nat i = BASE_BLOCK_SIZE * Z.of_nat (2 ^ j)) as Hi.
    { assert (i = j) as ->; [|by rewrite Nat2Z.inj_pow].
      assert (Z.of_nat (2 ^ j) = 2 ^ Z.of_nat j) as Hj by (by rewrite Nat2Z.inj_pow).
      assert (1 <= length cs)%nat by (destruct cs; [done|simpl; lia]).
      unfold BASE_BLOCK_SIZE in *.
      apply (block_exponent_unique i j (Z.of_nat (length cs)) (mt_fileSize t));
        rewrite ?Hl in *; rewrite <-?Hj; nia. }
    rewrite Hi. rewrite (calcRoot_leaves j _ L); [done|done|done|simpl; lia|done|done].
Qed.

Lemma leaf_hash_length d : length (leaf_hash d) = h_bytes.
Proof. apply digest_length. Qed.

Lemma tree_length L : Forall (fun v => length v = h_bytes) L -> length (thex combine MerkleValue0 L) = h_bytes.
Proof.
  intros HL'. unfold thex. generalize (length L) at 1. intros f. revert L HL'.
  induction f as [|f IH]; intros L HL'; [apply length_replicate|]. simpl.
  destruct HL' as [|x L Hx [|y L' Hy HL']]; [apply length_replicate|done|].
  rewrite combine_node. apply digest_length.
Qed.

Lemma leaves_of_lengths j L lv :
  Forall (fun v => length v = h_bytes) L -> leaves_of j L lv -> Forall (fun v => length v = h_bytes) lv.
Proof.
  intros HL' (cs & r & -> & _ & _ & ->). apply Forall_app in HL' as [H1 H2].
  apply Forall_map. apply Forall_app. split.
  - induction cs as [|c cs IH]; simpl in *; constructor; apply Forall_app in H1 as [? ?]; [by apply tree_length|].
    by apply IH.
  - constructor; [by apply tree_length|constructor].
Qed.

Lemma leaves_of_count j L lv : leaves_of j L lv -> (length lv <= S (length L))%nat.
Proof.
  intros (cs & r & -> & Hcs & _ & ->). pose proof (Nat.pow_nonzero 2 j ltac:(lia)).
  rewrite length_map, !length_app, (concat_length_const (2 ^ j)) by done. simpl. nia.
Qed.

(** C23.  Storing a hashed file and reading it back: the leaf data of the tree a
    stream of updates builds, loaded into any tree, is accepted and gives the same
    leaves, the same file size and the same root. *)
Theorem load_getLeafData (j : nat) (ds : list (list Z)) (last : list Z) (t0 : MerkleTree)
  (Hds : Forall whole_blocks ds) (Hbytes : (0 < h_bytes)%nat)
  (Hlen : Z.of_nat (length (concat ds ++ last)) < 2 ^ 59) :
  exists t t', (run_updates (MerkleTree_new (BASE_BLOCK_SIZE * Z.of_nat (2 ^ j))) (ds ++ [last])
                ≫= mt_finalize) = Some t /\
    load t0 (mt_fileSize t) (getLeafData t) = Some (true, t') /\
    mt_leaves t' = mt_leaves t /\ mt_root t' = mt_root t /\ mt_fileSize t' = mt_fileSize t.
Proof.
  destruct (stream_finalize j ds last Hds) as (t & Ht & Hr & Hl & Hs & Hb); [lia|].
  destruct (base_blocks_length (concat ds ++ last)) as (H1 & H2 & H3).
  assert (BASE_BLOCK_SIZE = Z.of_nat BB) as HBB by done. pose proof BB_pos.
  assert (Z.of_nat BB = 1024) as HB by done.
  pose proof (leaves_of_count _ _ _ Hl) as Hc. rewrite length_map in Hc.
  destruct (load_leaves_ok j _ t t0 Hb Hl Hr Hbytes) as (t' & Hload & H4).
  - eapply leaves_of_lengths; [|exact Hl]. apply Forall_map, Forall_true. intros d. apply leaf_hash_length.
  - destruct (decide (length (base_blocks (concat ds ++ last)) = 1%nat)) as [E|E]; [lia|].
    specialize (H1 E). nia.
  - lia.
  - rewrite length_map, Hs, HBB. intros E. specialize (H1 E). nia.
  - rewrite length_map, Hs, HBB. nia.
  - exists t, t'. split; [done|]. split; [done|]. done.
Qed.
End Load.
