(* ===== verification/TigerHash.v ===== *)
(** * The Tiger hash: [client/TigerHash.h], [client/TigerHash.cpp]

    The little-endian build of the source.  [uint64_t] arithmetic is [Z] with an
    explicit [u64]; the 64-byte buffer [tmp] is a list, so that the stale bytes
    the source leaves in it are there too.  The result is that the buffered,
    incremental hash is the hash of the concatenated data, which is the contract
    [Hasher] that the Merkle tree relies on. *)

From S2P Require Import Prelude Hasher TigerTables.

(** ** The compression function *)

Definition tab (t : list Z) (i : Z) : Z := nth (Z.to_nat i) t 0.

(** [((c) >> (k*8)) & 0xFF] *)
Definition byte_of (c k : Z) : Z := Z.land (Z.shiftr c (k * 8)) 255.

(** [round(a,b,c,x)], 64-bit build ([TIGER_ARCH64]). *)
Definition round (a b c x : Z) : Z * Z * Z :=
  let c := Z.lxor c x in
  let a := u64 (a - Z.lxor (Z.lxor (Z.lxor (tab t1 (byte_of c 0)) (tab t2 (byte_of c 2)))
                                   (tab t3 (byte_of c 4))) (tab t4 (byte_of c 6))) in
  let b := u64 (b + Z.lxor (Z.lxor (Z.lxor (tab t4 (byte_of c 1)) (tab t3 (byte_of c 3)))
                                   (tab t2 (byte_of c 5))) (tab t1 (byte_of c 7))) in
  (a, b, c).

(** [round(a,b,c,x)], 32-bit build: the indices go through [uint32_t] and
    [uint8_t] casts. *)
Definition round32 (a b c x : Z) : Z * Z * Z :=
  let c := Z.lxor c x in
  let lo := u32 c in
  let hi := u32 (Z.shiftr c (4 * 8)) in
  let a := u64 (a - Z.lxor (Z.lxor (Z.lxor (tab t1 (u8 c)) (tab t2 (u8 (Z.shiftr lo (2 * 8)))))
                                   (tab t3 (u8 (Z.shiftr c (4 * 8))))) (tab t4 (u8 (Z.shiftr hi (2 * 8))))) in
  let b := u64 (b + Z.lxor (Z.lxor (Z.lxor (tab t4 (u8 (Z.shiftr lo (1 * 8)))) (tab t3 (u8 (Z.shiftr lo (3 * 8)))))
                                   (tab t2 (u8 (Z.shiftr hi (1 * 8))))) (tab t1 (u8 (Z.shiftr hi (3 * 8))))) in
  (a, b, c).

Record Xs := mkXs { x0 : Z; x1 : Z; x2 : Z; x3 : Z; x4 : Z; x5 : Z; x6 : Z; x7 : Z }.

(** The three passes differ in what multiplies: [mul] is [*= 5], [*= 7], [*= 9]. *)
Definition pass (mul : Z -> Z) (rnd : Z -> Z -> Z -> Z -> Z * Z * Z) (abc : Z * Z * Z) (x : Xs) : Z * Z * Z :=
  let '(a, b, c) := abc in
  let '(a, b, c) := rnd a b c (x0 x) in let b := mul b in
  let '(b, c, a) := rnd b c a (x1 x) in let c := mul c in
  let '(c, a, b) := rnd c a b (x2 x) in let a := mul a in
  let '(a, b, c) := rnd a b c (x3 x) in let b := mul b in
  let '(b, c, a) := rnd b c a (x4 x) in let c := mul c in
  let '(c, a, b) := rnd c a b (x5 x) in let a := mul a in
  let '(a, b, c) := rnd a b c (x6 x) in let b := mul b in
  let '(b, c, a) := rnd b c a (x7 x) in let c := mul c in
  (a, b, c).

Definition pass5 : Z * Z * Z -> Xs -> Z * Z * Z := pass (fun v => u64 (v * 5)) round.
Definition pass7 : Z * Z * Z -> Xs -> Z * Z * Z := pass (fun v => u64 (v * 7)) round.
Definition pass9 : Z * Z * Z -> Xs -> Z * Z * Z := pass (fun v => u64 (v * 9)) round.

(** The [TIGER_SLOW_MULT] variants: [b += b << 2], [b = (b << 3) - b], [b += b << 3]. *)
Definition pass5_slow : Z * Z * Z -> Xs -> Z * Z * Z := pass (fun v => u64 (v + u64 (Z.shiftl v 2))) round.
Definition pass7_slow : Z * Z * Z -> Xs -> Z * Z * Z := pass (fun v => u64 (u64 (Z.shiftl v 3) - v)) round.
Definition pass9_slow : Z * Z * Z -> Xs -> Z * Z * Z := pass (fun v => u64 (v + u64 (Z.shiftl v 3))) round.

(** [~x] on [uint64_t]. *)
Definition not64 (x : Z) : Z := 2 ^ 64 - 1 - x.

Definition key_schedule (x : Xs) : Xs :=
  let '(mkXs x0 x1 x2 x3 x4 x5 x6 x7) := x in
  let x0 := u64 (x0 - Z.lxor x7 0xA5A5A5A5A5A5A5A5) in
  let x1 := Z.lxor x1 x0 in
  let x2 := u64 (x2 + x1) in
  let x3 := u64 (x3 - Z.lxor x2 (u64 (Z.shiftl (not64 x1) 19))) in
  let x4 := Z.lxor x4 x3 in
  let x5 := u64 (x5 + x4) in
  let x6 := u64 (x6 - Z.lxor x5 (Z.shiftr (not64 x4) 23)) in
  let x7 := Z.lxor x7 x6 in
  let x0 := u64 (x0 + x7) in
  let x1 := u64 (x1 - Z.lxor x0 (u64 (Z.shiftl (not64 x7) 19))) in
  let x2 := Z.lxor x2 x1 in
  let x3 := u64 (x3 + x2) in
  let x4 := u64 (x4 - Z.lxor x3 (Z.shiftr (not64 x2) 23)) in
  let x5 := Z.lxor x5 x4 in
  let x6 := u64 (x6 + x5) in
  let x7 := u64 (x7 - Z.lxor x6 0x0123456789ABCDEF) in
  mkXs x0 x1 x2 x3 x4 x5 x6 x7.

Definition compress (abc : Z * Z * Z) (x : Xs) : Z * Z * Z :=
  let '(a, b, c) := pass5 abc x in
  let x := key_schedule x in
  let '(c, a, b) := pass7 (c, a, b) x in
  let x := key_schedule x in
  let '(b, c, a) := pass9 (b, c, a) x in
  (a, b, c).

(** The eight words of a 64-byte block. *)
Definition block_words (str : list Z) : Xs :=
  let w i := le_load (take 8 (drop (8 * i) str)) in
  mkXs (w 0%nat) (w 1%nat) (w 2%nat) (w 3%nat) (w 4%nat) (w 5%nat) (w 6%nat) (w 7%nat).

Definition tiger_compress (str : list Z) (state : Z * Z * Z) : Z * Z * Z :=
  let '(s0, s1, s2) := state in
  let '(a, b, c) := compress (s0, s1, s2) (block_words str) in
  (Z.lxor s0 a, u64 (b - s1), u64 (s2 + c)).

(** ** The hasher *)

Definition BLOCK_SIZE : nat := 64.

Record TigerHash := mkTiger { th_tmp : list Z; th_res : Z * Z * Z; th_pos : Z }.

Definition TigerHash_init : TigerHash :=
  mkTiger (replicate BLOCK_SIZE 0) (0x0123456789ABCDEF, 0xFEDCBA9876543210, 0xF096A5B4C3B2E187) 0.

(** [while (length >= BLOCK_SIZE)]: one iteration per unit of fuel; [update]
    gives it the length of the data. *)
Fixpoint bulk (fuel : nat) (res : Z * Z * Z) (str : list Z) : Z * Z * Z * list Z :=
  match fuel with
  | O => (res, str)
  | S f =>
      if (BLOCK_SIZE <=? length str)%nat
      then bulk f (tiger_compress (take BLOCK_SIZE str) res) (drop BLOCK_SIZE str)
      else (res, str)
  end.

Definition tiger_update (s : TigerHash) (data : list Z) : TigerHash :=
  let tmppos := Z.to_nat (Z.land (th_pos s) 63) in
  let '(tmp, res, str, pos) :=
    if (tmppos =? 0)%nat then (th_tmp s, th_res s, data, th_pos s)
    else
      let n := Nat.min (length data) (BLOCK_SIZE - tmppos) in
      let tmp := buf_write (th_tmp s) tmppos (take n data) in
      let res := if (tmppos + n =? BLOCK_SIZE)%nat then tiger_compress tmp (th_res s) else th_res s in
      (tmp, res, drop n data, u64 (th_pos s + Z.of_nat n)) in
  let '(res', rest) := bulk (length str) res str in
  mkTiger (buf_write tmp 0 rest) res' (u64 (pos + Z.of_nat (length str))).

Definition getResult (res : Z * Z * Z) : list Z :=
  let '(r0, r1, r2) := res in le_store 8 r0 ++ le_store 8 r1 ++ le_store 8 r2.

Definition tiger_finalize (s : TigerHash) : TigerHash :=
  let tmppos := Z.to_nat (Z.land (th_pos s) 63) in
  let tmp := buf_write (th_tmp s) tmppos [1] in
  let tmppos := S tmppos in
  let '(tmp, res) :=
    if (BLOCK_SIZE - 8 <? tmppos)%nat then
      let tmp := buf_write tmp tmppos (replicate (BLOCK_SIZE - tmppos) 0) in
      (replicate BLOCK_SIZE 0, tiger_compress tmp (th_res s))
    else (buf_write tmp tmppos (replicate (BLOCK_SIZE - tmppos - 8) 0), th_res s) in
  let tmp := buf_write tmp 56 (le_store 8 (u64 (Z.shiftl (th_pos s) 3))) in
  mkTiger tmp (tiger_compress tmp res) (th_pos s).

#[export] Instance TigerHasher : Hasher := {
  h_state := TigerHash;
  h_init := TigerHash_init;
  h_update := tiger_update;
  h_finalize s := getResult (th_res (tiger_finalize s));
  h_bytes := 24
}.

(** ** The buffered hash is the hash of the concatenation *)

Section Buffer.
Local Open Scope nat_scope.

Opaque tiger_compress.

Lemma bulk_fuel f1 f2 res str :
  length str <= f1 -> length str <= f2 -> bulk f1 res str = bulk f2 res str.
Proof.
  revert f2 res str. induction f1 as [|f1 IH]; intros f2 res str H1 H2.
  - destruct str; simpl in H1; [|lia]. by destruct f2.
  - destruct f2 as [|f2]; [destruct str; simpl in H2; [done|lia]|]. cbn [bulk].
    destruct (BLOCK_SIZE <=? length str) eqn:E; [|done].
    apply Nat.leb_le in E. unfold BLOCK_SIZE in *. apply IH; rewrite length_drop; lia.
Qed.

(** What has been absorbed of a message: the full blocks, and what is left. *)
Definition absorb (res : Z * Z * Z) (m : list Z) : Z * Z * Z * list Z := bulk (length m) res m.

Lemma absorb_block res b m :
  length b = BLOCK_SIZE -> absorb res (b ++ m) = absorb (tiger_compress b res) m.
Proof.
  intros Hb. unfold absorb. rewrite length_app, Hb. change (BLOCK_SIZE + length m) with (S (63 + length m)).
  cbn [bulk]. rewrite length_app, Hb.
  rewrite (proj2 (Nat.leb_le _ _)) by lia.
  rewrite <-Hb, take_app_length, drop_app_length. apply bulk_fuel; lia.
Qed.

Lemma absorb_short res m : length m < BLOCK_SIZE -> absorb res m = (res, m).
Proof.
  intros Hm. unfold absorb. destruct (length m) eqn:E; [done|]. cbn [bulk]. rewrite E.
  by rewrite (proj2 (Nat.leb_gt _ _)).
Qed.

Lemma absorb_app res m d :
  absorb res (m ++ d) = absorb (absorb res m).1 ((absorb res m).2 ++ d).
Proof.
  remember (length m) as n eqn:Hn. revert res m Hn. induction n as [n IH] using lt_wf_ind.
  intros res m ->. destruct (decide (length m < BLOCK_SIZE)) as [Hlt|Hge].
  - by rewrite (absorb_short res m).
  - assert (length (take BLOCK_SIZE m) = BLOCK_SIZE) as Hl by (rewrite length_take; lia).
    assert (length (drop BLOCK_SIZE m) < length m) as Hd
      by (rewrite length_drop; unfold BLOCK_SIZE in *; lia).
    pose proof (take_drop BLOCK_SIZE m) as Em.
    set (b := take BLOCK_SIZE m) in *. set (r := drop BLOCK_SIZE m) in *. clearbody b r. subst m.
    rewrite <-app_assoc, (absorb_block res b (r ++ d)), (absorb_block res b r) by done. by apply (IH (length r)).
Qed.

Lemma absorb_rest res m :
  exists k, length m = k * BLOCK_SIZE + length (absorb res m).2 /\ length (absorb res m).2 < BLOCK_SIZE.
Proof.
  remember (length m) as n eqn:Hn. revert res m Hn. induction n as [n IH] using lt_wf_ind.
  intros res m ->. destruct (decide (length m < BLOCK_SIZE)) as [Hlt|Hge].
  - exists 0. rewrite absorb_short by done. simpl. lia.
  - assert (length (take BLOCK_SIZE m) = BLOCK_SIZE) as Hl by (rewrite length_take; lia).
    destruct (IH (length (drop BLOCK_SIZE m))) with (res := tiger_compress (take BLOCK_SIZE m) res)
      (m := drop BLOCK_SIZE m) as (k & H1 & H2);
      [rewrite length_drop; unfold BLOCK_SIZE in *; lia|done|].
    replace (absorb res m) with (absorb (tiger_compress (take BLOCK_SIZE m) res) (drop BLOCK_SIZE m)).
    2:{ by rewrite <-absorb_block, take_drop. }
    exists (S k). rewrite length_drop in H1. lia.
Qed.

(** [s] is a state reached from chaining value [r0], after [64 * k0] bytes, by
    the message [m]: the buffer starts with what is left of [m], and its other
    bytes are whatever was there. *)
Definition hashed (r0 : Z * Z * Z) (k0 : Z) (m : list Z) (s : TigerHash) : Prop :=
  length (th_tmp s) = BLOCK_SIZE /\ th_pos s = u64 (64 * k0 + Z.of_nat (length m)) /\
  (absorb r0 m).1 = th_res s /\
  take (length (absorb r0 m).2) (th_tmp s) = (absorb r0 m).2.

Lemma tmppos_of r0 k0 m s :
  hashed r0 k0 m s -> Z.to_nat (Z.land (th_pos s) 63) = length (absorb r0 m).2.
Proof.
  intros (_ & -> & _ & _). destruct (absorb_rest r0 m) as (k & H1 & H2).
  set (r := length (absorb _ m).2) in *. rewrite H1. unfold BLOCK_SIZE in *.
  change 63%Z with (Z.ones 6). rewrite Z.land_ones by lia. unfold wrap.
  rewrite Z.mod_mod_divide by by exists (2 ^ 58)%Z.
  replace (64 * k0 + Z.of_nat (k * 64 + r))%Z with (Z.of_nat r + (k0 + Z.of_nat k) * 2 ^ 6)%Z by lia.
  rewrite Z.mod_add by lia. rewrite Z.mod_small by lia. lia.
Qed.

Lemma buf_write_0_take (tmp rest : list Z) :
  length rest <= length tmp -> take (length rest) (buf_write tmp 0 rest) = rest.
Proof. intros. unfold buf_write. simpl. by rewrite take_app_length. Qed.

(** [update] absorbs its data, wherever the buffer stands. *)
Lemma tiger_update_hashed r0 k0 m d s :
  hashed r0 k0 m s -> hashed r0 k0 (m ++ d) (tiger_update s d).
Proof.
  intros Hs. pose proof (tmppos_of r0 k0 m s Hs) as Hp. destruct Hs as (Hlen & Hpos & Hres & Htmp).
  unfold tiger_update. rewrite Hp. unfold hashed. rewrite absorb_app, Hres.
  destruct (absorb_rest r0 m) as (k & _ & Hr).
  set (rem := (absorb r0 m).2) in *.
  destruct (Nat.eqb_spec (length rem) 0) as [E|E].
  - assert (rem = []) as -> by (by destruct rem). simpl app. fold (absorb (th_res s) d).
    destruct (absorb_rest (th_res s) d) as (k2 & _ & Hr2).
    destruct (absorb (th_res s) d) as [res' rest] eqn:Ea. cbn [fst snd th_tmp th_pos th_res] in *.
    split_and!; [rewrite length_buf_write; lia| |done|apply buf_write_0_take; lia].
    rewrite Hpos, u64_add_u64, length_app. f_equal. lia.
  - remember (Nat.min (length d) (BLOCK_SIZE - length rem)) as n eqn:Hmin.
    assert (length (take n d) = n) as Hn by (rewrite length_take; lia).
    assert (take (length rem + n) (buf_write (th_tmp s) (length rem) (take n d)) = rem ++ take n d) as Hw.
    { unfold buf_write. rewrite Htmp, app_assoc. apply take_app_length'. rewrite length_app. lia. }
    assert (length (buf_write (th_tmp s) (length rem) (take n d)) = BLOCK_SIZE) as Hwl.
    { rewrite length_buf_write; rewrite ?Hn; lia. }
    set (tmp := buf_write (th_tmp s) (length rem) (take n d)) in *.
    destruct (Nat.eqb_spec (length rem + n) BLOCK_SIZE) as [Hfull|Hpart].
    + fold (absorb (tiger_compress tmp (th_res s)) (drop n d)).
      assert (absorb (th_res s) (rem ++ d) = absorb (tiger_compress tmp (th_res s)) (drop n d)) as Hab.
      { rewrite <-(take_drop n d) at 1. rewrite app_assoc, <-Hw, take_ge by lia. by apply absorb_block. }
      rewrite Hab. destruct (absorb_rest (tiger_compress tmp (th_res s)) (drop n d)) as (k2 & _ & Hr2).
      destruct (absorb _ (drop n d)) as [res' rest] eqn:Ea. cbn [fst snd th_tmp th_pos th_res] in *.
      split_and!; [rewrite length_buf_write; lia| |done|apply buf_write_0_take; lia].
      rewrite Hpos, u64_add_u64, <-Z.add_assoc, u64_add_u64, length_drop, length_app. apply (f_equal u64). lia.
    + assert (n = length d) as Hnd by lia. rewrite drop_ge by lia. cbn [length bulk].
      rewrite absorb_short by (rewrite length_app; lia). cbn [fst snd th_tmp th_pos th_res].
      split_and!; [rewrite length_buf_write; simpl; lia| |done|].
      * rewrite Hpos, u64_add_u64, <-Z.add_assoc, u64_add_u64, length_app. apply (f_equal u64). lia.
      * rewrite buf_write_nil, length_app, <-Hnd, Hw. f_equal. apply take_ge. lia.
Qed.

Lemma hashed_init : hashed (th_res TigerHash_init) 0 [] TigerHash_init.
Proof. done. Qed.

Lemma buf_write_adjacent (tmp a b : list Z) p q :
  p <= length tmp -> q = p + length a ->
  buf_write (buf_write tmp p a) q b = buf_write tmp p (a ++ b).
Proof.
  intros Hp ->. unfold buf_write at 1 2.
  assert (length (take p tmp ++ a) = p + length a) as Hl by (rewrite length_app, length_take; lia).
  rewrite (app_assoc (take p tmp) a), take_app_length', drop_app_ge by lia.
  unfold buf_write. rewrite <-!app_assoc. do 3 f_equal.
  rewrite Hl, drop_drop, length_app. f_equal. lia.
Qed.

Lemma buf_write_end (tmp a : list Z) p :
  p + length a = length tmp -> buf_write tmp p a = take p tmp ++ a.
Proof. intros Hp. unfold buf_write. rewrite drop_ge by lia. by rewrite app_nil_r. Qed.

(** The last blocks compressed by [finalize], from the remainder of the message. *)
Definition padded (rem : list Z) (len8 : list Z) : list (list Z) :=
  if BLOCK_SIZE - 8 <? S (length rem)
  then [rem ++ 1%Z :: replicate (BLOCK_SIZE - S (length rem)) 0%Z; replicate 56 0%Z ++ len8]
  else [rem ++ 1%Z :: replicate (BLOCK_SIZE - S (length rem) - 8) 0%Z ++ len8].

Lemma tiger_finalize_padded r0 k0 m s :
  hashed r0 k0 m s ->
  th_res (tiger_finalize s) =
  foldl (fun r b => tiger_compress b r) (th_res s)
    (padded (absorb r0 m).2 (le_store 8 (u64 (Z.shiftl (th_pos s) 3)))).
Proof.
  intros Hs. pose proof (tmppos_of r0 k0 m s Hs) as Hp. destruct Hs as (Hlen & _ & _ & Htmp).
  destruct (absorb_rest r0 m) as (k & _ & Hr).
  unfold tiger_finalize, padded. rewrite Hp.
  set (rem := (absorb r0 m).2) in *.
  set (len8 := le_store 8 _). assert (length len8 = 8) as Hl8 by apply length_le_store.
  clearbody len8. unfold BLOCK_SIZE in *.
  rewrite !(buf_write_adjacent (th_tmp s) [1%Z] _ (length rem) (S (length rem))) by (cbn [length]; lia).
  destruct (64 - 8 <? S (length rem)) eqn:E; cbn [th_res foldl].
  - rewrite (buf_write_end (th_tmp s))
      by (rewrite length_app, length_replicate; cbn [length] in *; lia).
    rewrite Htmp. rewrite buf_write_end by (rewrite length_replicate; lia).
    by rewrite take_replicate.
  - apply Nat.ltb_ge in E.
    rewrite buf_write_adjacent by (rewrite ?length_app, ?length_replicate; cbn [length]; lia).
    rewrite buf_write_end.
    + rewrite Htmp, <-app_assoc. done.
    + rewrite !length_app, length_replicate. cbn [length]. lia.
Qed.

(** ** The contract of the hasher *)

Definition tiger_ok (s : TigerHash) : Prop :=
  length (th_tmp s) = BLOCK_SIZE /\ (0 <= th_pos s < 2 ^ 64)%Z.

(** Equal up to the stale bytes of the buffer. *)
Definition same_prefix (s1 s2 : TigerHash) : Prop :=
  tiger_ok s1 /\ tiger_ok s2 /\ th_res s1 = th_res s2 /\ th_pos s1 = th_pos s2 /\
  take (Z.to_nat (Z.land (th_pos s1) 63)) (th_tmp s1) = take (Z.to_nat (Z.land (th_pos s1) 63)) (th_tmp s2).

Definition tiger_equiv (s1 s2 : TigerHash) : Prop := s1 = s2 \/ same_prefix s1 s2.

Lemma tiger_ok_hashed s :
  tiger_ok s ->
  hashed (th_res s) (th_pos s / 64) (take (Z.to_nat (Z.land (th_pos s) 63)) (th_tmp s)) s.
Proof.
  intros [Hl Hp]. change 63%Z with (Z.ones 6). rewrite Z.land_ones by lia. change (2 ^ 6)%Z with 64%Z.
  pose proof (Z.mod_pos_bound (th_pos s) 64 ltac:(lia)). pose proof (Z.div_mod (th_pos s) 64 ltac:(lia)).
  set (p := Z.to_nat (th_pos s `mod` 64)).
  assert (length (take p (th_tmp s)) = p) as Hlt by (rewrite length_take; unfold BLOCK_SIZE in *; lia).
  unfold hashed. rewrite absorb_short by (rewrite Hlt; unfold BLOCK_SIZE; lia). cbn [fst snd].
  rewrite Hlt. split_and!; [done| |done|done]. unfold wrap. rewrite Z.mod_small; lia.
Qed.

Lemma hashed_same r0 k0 m s1 s2 : hashed r0 k0 m s1 -> hashed r0 k0 m s2 -> same_prefix s1 s2.
Proof.
  intros H1 H2. unfold same_prefix. rewrite (tmppos_of r0 k0 m s1 H1).
  destruct H1 as (Hl1 & Hp1 & Hr1 & Ht1), H2 as (Hl2 & Hp2 & Hr2 & Ht2).
  unfold tiger_ok. rewrite Hp1, Hp2, <-Hr1, <-Hr2, Ht1, Ht2.
  pose proof (Z.mod_pos_bound (64 * k0 + Z.of_nat (length m)) (2 ^ 64) ltac:(lia)). done.
Qed.

Lemma same_prefix_hashed s1 s2 :
  same_prefix s1 s2 -> exists r0 k0 m, hashed r0 k0 m s1 /\ hashed r0 k0 m s2.
Proof.
  intros (H1 & H2 & Hr & Hp & Ht). do 3 eexists. split; [by apply tiger_ok_hashed|].
  rewrite Hr, Ht, Hp. by apply tiger_ok_hashed.
Qed.

Lemma tiger_update_ok s d : tiger_ok s -> tiger_ok (tiger_update s d).
Proof.
  intros Hs. pose proof (tiger_update_hashed _ _ _ d s (tiger_ok_hashed s Hs)) as H.
  by destruct (hashed_same _ _ _ _ _ H H) as [? _].
Qed.

Lemma tiger_update_app_equiv s a b :
  tiger_ok s -> tiger_equiv (tiger_update (tiger_update s a) b) (tiger_update s (a ++ b)).
Proof.
  intros Hs. right. pose proof (tiger_ok_hashed s Hs) as H.
  eapply hashed_same; [by do 2 apply tiger_update_hashed|].
  rewrite <-app_assoc. by apply tiger_update_hashed.
Qed.

#[export] Instance tiger_equiv_equivalence : Equivalence tiger_equiv.
Proof.
  split.
  - intros s. by left.
  - intros s t [->|(H1 & H2 & H3 & H4 & H5)]; [by left|right].
    unfold same_prefix. rewrite <-H4. done.
  - intros s t u [->|(H1 & H2 & H3 & H4 & H5)]; [done|].
    intros [->|(H6 & H7 & H8 & H9 & H10)]; right; unfold same_prefix; [done|].
    rewrite <-H4 in H10. split_and!; congruence || done.
Qed.

#[export] Instance tiger_update_proper : Proper (tiger_equiv ==> (=) ==> tiger_equiv) tiger_update.
Proof.
  intros s t [->|H] d _ <-; [by left|right].
  apply same_prefix_hashed in H as (r0 & k0 & m & H1 & H2).
  by eapply hashed_same; apply tiger_update_hashed.
Qed.

Lemma tiger_finalize_equiv s t : tiger_equiv s t -> th_res (tiger_finalize s) = th_res (tiger_finalize t).
Proof.
  intros [->|H]; [done|]. pose proof H as (_ & _ & Hr & Hp & _).
  apply same_prefix_hashed in H as (r0 & k0 & m & H1 & H2).
  by rewrite (tiger_finalize_padded _ _ _ _ H1), (tiger_finalize_padded _ _ _ _ H2), Hr, Hp.
Qed.
End Buffer.

#[export] Instance TigerHasherLaws : HasherLaws TigerHasher.
Proof.
  refine {| h_ok := tiger_ok : @h_state TigerHasher -> Prop;
            h_equiv := tiger_equiv : relation (@h_state TigerHasher) |}.
  - intros s t Hst. simpl. by rewrite (tiger_finalize_equiv s t Hst).
  - split; [reflexivity|]. simpl. lia.
  - exact tiger_update_ok.
  - exact tiger_update_app_equiv.
  - intros s _. simpl. destruct (th_res (tiger_finalize s)) as [[r0 r1] r2]. unfold getResult.
    by rewrite !length_app, !length_le_store.
Defined.

(** ** What the hash is *)

(** The padded message: a 1 byte, zeros up to the last 8 bytes of a block, and
    the length in bits. *)
Definition pad_zeros (n : nat) : nat :=
  if (56 <? S (n mod 64))%nat then (120 - S (n mod 64))%nat else (56 - S (n mod 64))%nat.

Definition pad (m : list Z) : list Z :=
  m ++ 1 :: replicate (pad_zeros (length m)) 0 ++ le_store 8 (u64 (Z.shiftl (u64 (Z.of_nat (length m))) 3)).

Lemma absorb_padded rem len8 r :
  (length rem < 64)%nat -> length len8 = 8%nat ->
  absorb r (rem ++ 1 :: replicate (pad_zeros (length rem)) 0 ++ len8) =
  (foldl (fun r b => tiger_compress b r) r (padded rem len8), []).
Proof.
  intros Hr Hl. unfold padded, pad_zeros, BLOCK_SIZE. rewrite Nat.mod_small by done.
  change (64 - 8)%nat with 56%nat. destruct (Nat.ltb_spec 56 (S (length rem))) as [E|E].
  - replace (120 - S (length rem))%nat with (64 - S (length rem) + 56)%nat by lia.
    rewrite replicate_add, <-app_assoc.
    replace (rem ++ 1 :: replicate (64 - S (length rem)) 0 ++ replicate 56 0 ++ len8)
      with ((rem ++ 1 :: replicate (64 - S (length rem)) 0) ++ replicate 56 0 ++ len8)
      by (rewrite <-app_assoc; done).
    rewrite absorb_block by (rewrite length_app; cbn [length]; rewrite length_replicate; unfold BLOCK_SIZE; lia).
    rewrite <-(app_nil_r (replicate 56 0 ++ len8)) at 1.
    rewrite absorb_block by (rewrite length_app, length_replicate; unfold BLOCK_SIZE; lia). done.
  - replace (56 - S (length rem))%nat with (64 - S (length rem) - 8)%nat by lia.
    rewrite <-(app_nil_r (rem ++ _)) at 1.
    rewrite absorb_block; [done|].
    rewrite length_app. cbn [length]. rewrite length_app, length_replicate. unfold BLOCK_SIZE. lia.
Qed.

Lemma digest_absorb m :
  digest m = getResult (absorb (th_res TigerHash_init) (pad m)).1.
Proof.
  unfold digest. cbn [h_finalize h_update h_init TigerHasher].
  pose proof (tiger_update_hashed _ _ _ m _ hashed_init) as Hh. cbn [app] in Hh.
  rewrite (tiger_finalize_padded _ _ _ _ Hh). destruct Hh as (_ & Hp & Hr & _).
  rewrite <-Hr, Hp. unfold pad. rewrite absorb_app.
  destruct (absorb_rest (th_res TigerHash_init) m) as (k & Hk & Hlt). unfold BLOCK_SIZE in *.
  replace (pad_zeros (length m)) with (pad_zeros (length (absorb (th_res TigerHash_init) m).2)).
  2:{ unfold pad_zeros. rewrite Hk, (Nat.add_comm (k * 64)), Nat.Div0.mod_add. done. }
  rewrite absorb_padded by (done || apply length_le_store). done.
Qed.

Lemma updates_hashed (ds : list (list Z)) m s :
  hashed (th_res TigerHash_init) 0 m s ->
  hashed (th_res TigerHash_init) 0 (m ++ concat ds) (foldl tiger_update s ds).
Proof.
  revert m s. induction ds as [|d ds IH]; intros m s Hs; simpl; [by rewrite app_nil_r|].
  rewrite app_assoc. by apply IH, tiger_update_hashed.
Qed.

(** C21.  Hashing is incremental: feeding the data in any sequence of pieces and
    finalizing gives the digest of the concatenated data, and that digest is
    the chaining of the compression function over the 64-byte blocks of the
    padded message, which is a whole number of blocks. *)
Theorem TigerHash_incremental (ds : list (list Z)) :
  getResult (th_res (tiger_finalize (foldl tiger_update TigerHash_init ds))) = digest (concat ds) /\
  digest (concat ds) = getResult (absorb (th_res TigerHash_init) (pad (concat ds))).1 /\
  (absorb (th_res TigerHash_init) (pad (concat ds))).2 = [].
Proof.
  split_and!; [|apply digest_absorb|].
  - pose proof (updates_hashed ds [] _ hashed_init) as H1. simpl app in H1.
    pose proof (tiger_update_hashed _ _ _ (concat ds) _ hashed_init) as H2. simpl app in H2.
    unfold digest. cbn [h_finalize h_update h_init TigerHasher]. f_equal.
    apply tiger_finalize_equiv. right. by eapply hashed_same.
  - unfold pad. set (m := concat ds). rewrite absorb_app.
    destruct (absorb_rest (th_res TigerHash_init) m) as (k & Hk & Hlt). unfold BLOCK_SIZE in *.
    replace (pad_zeros (length m)) with (pad_zeros (length (absorb (th_res TigerHash_init) m).2)).
    2:{ unfold pad_zeros. rewrite Hk, (Nat.add_comm (k * 64)), Nat.Div0.mod_add. done. }
    rewrite absorb_padded by (done || apply length_le_store). done.
Qed.

(** ** The build variants *)

Lemma u8_byte c k : 0 <= k -> u8 (Z.shiftr c (k * 8)) = byte_of c k.
Proof. intros Hk. unfold wrap, byte_of. change 255 with (Z.ones 8). by rewrite Z.land_ones. Qed.

Lemma u8_lo c k : 0 <= k <= 3 -> u8 (Z.shiftr (u32 c) (k * 8)) = byte_of c k.
Proof.
  intros Hk. unfold wrap, byte_of. change 255 with (Z.ones 8). rewrite <-!Z.land_ones by lia.
  apply Z.bits_inj'. intros n Hn. rewrite !Z.land_spec, !Z.shiftr_spec, Z.land_spec by lia.
  destruct (decide (n < 8)).
  - rewrite (Z.ones_spec_low 32) by lia. by rewrite andb_true_r.
  - rewrite (Z.ones_spec_high 8) by lia. by rewrite !andb_false_r.
Qed.

Lemma u8_hi c k : 0 <= k <= 3 -> u8 (Z.shiftr (u32 (Z.shiftr c (4 * 8))) (k * 8)) = byte_of c (4 + k).
Proof.
  intros Hk. rewrite u8_lo by done. unfold byte_of. f_equal. rewrite Z.shiftr_shiftr by lia.
  f_equal. lia.
Qed.

Lemma round32_round a b c x : round32 a b c x = round a b c x.
Proof.
  unfold round32, round. cbv zeta. rewrite !u8_hi, !u8_lo, u8_byte by lia.
  replace (u8 (Z.lxor c x)) with (byte_of (Z.lxor c x) 0); [done|].
  rewrite <-u8_byte by lia. by rewrite Z.shiftr_0_r.
Qed.

Lemma pass_ext mul1 mul2 rnd1 rnd2 abc x :
  (forall v, mul1 v = mul2 v) -> (forall a b c y, rnd1 a b c y = rnd2 a b c y) ->
  pass mul1 rnd1 abc x = pass mul2 rnd2 abc x.
Proof.
  intros Hm Hr. unfold pass. destruct abc as [[a b] c].
  do 8 (rewrite Hr; match goal with |- context [rnd2 ?a ?b ?c ?d] => destruct (rnd2 a b c d) as [[? ?] ?] end;
        rewrite Hm).
  done.
Qed.

Lemma u64_idem_add v w : u64 (v + u64 w) = u64 (v + w).
Proof. unfold wrap. by rewrite Zplus_mod_idemp_r. Qed.

Lemma u64_idem_sub v w : u64 (u64 v - w) = u64 (v - w).
Proof. unfold wrap. by rewrite Zminus_mod_idemp_l. Qed.

(** C22.  The build variants compute the same function: the round of the 32-bit
    build, which takes table indices through [uint32_t] and [uint8_t] casts, is the
    round of the 64-bit build, and the passes with shifts in place of
    multiplications are the passes with multiplications. *)
Theorem TigerHash_variants (abc : Z * Z * Z) (x : Xs) (a b c y : Z) :
  round32 a b c y = round a b c y /\
  pass5_slow abc x = pass5 abc x /\ pass7_slow abc x = pass7 abc x /\ pass9_slow abc x = pass9 abc x.
Proof.
  split_and!; [apply round32_round|..]; apply pass_ext; try done; intros v;
    rewrite ?u64_idem_add, ?u64_idem_sub, Z.shiftl_mul_pow2 by lia; f_equal; lia.
Qed.

(** Published test vectors: the empty message and a 43-byte one. *)
Example tiger_empty : digest [] =
  [0x32; 0x93; 0xAC; 0x63; 0x0C; 0x13; 0xF0; 0x24; 0x5F; 0x92; 0xBB; 0xB1;
   0x76; 0x6E; 0x16; 0x16; 0x7A; 0x4E; 0x58; 0x49; 0x2D; 0xDE; 0x73; 0xF3].
Proof. vm_compute. reflexivity. Qed.
