(* ===== verification/Base32.v ===== *)
(** * Base32: [client/Base32.h], [client/Base32.cpp]

    Encoding walks the source bytes five bits at a time with a byte index [i] and
    a bit index [index]; decoding writes five bits at a time.  A C string is the
    list of its characters before the terminating zero. *)

From S2P Require Import Prelude.

Definition base32Table : list Z :=
  replicate 50 (-1) ++ [26; 27; 28; 29; 30; 31] ++ replicate 9 (-1) ++
  [0; 1; 2; 3; 4; 5; 6; 7; 8; 9; 10; 11; 12; 13; 14; 15; 16; 17; 18; 19; 20; 21; 22; 23; 24; 25] ++
  replicate 6 (-1) ++
  [0; 1; 2; 3; 4; 5; 6; 7; 8; 9; 10; 11; 12; 13; 14; 15; 16; 17; 18; 19; 20; 21; 22; 23; 24; 25] ++
  replicate 133 (-1).

(** "ABCDEFGHIJKLMNOPQRSTUVWXYZ234567" *)
Definition base32Alphabet : list Z :=
  [65; 66; 67; 68; 69; 70; 71; 72; 73; 74; 75; 76; 77; 78; 79; 80; 81; 82; 83; 84; 85; 86; 87; 88; 89; 90;
   50; 51; 52; 53; 54; 55].

(** ** [Util::toBase32] *)

(** One iteration: the 5-bit word and the next position. *)
Definition enc_word (src : list Z) (i : nat) (index : Z) : Z * nat * Z :=
  let b := nth i src 0 in
  if 3 <? index then
    let word := Z.land b (Z.shiftr 255 index) in
    let index := Z.land (index + 5) 7 in
    let word := u8 (Z.shiftl word index) in
    let word := if (S i <? length src)%nat then Z.lor word (Z.shiftr (nth (S i) src 0) (8 - index)) else word in
    (word, S i, index)
  else
    let word := Z.land (Z.shiftr b (8 - (index + 5))) 31 in
    let index := Z.land (index + 5) 7 in
    (word, if index =? 0 then S i else i, index).

Definition toBase32_step (src : list Z) (st : list Z * nat * Z) : (list Z * nat * Z) + list Z :=
  let '(dst, i, index) := st in
  if (i <? length src)%nat then
    let '(word, i', index') := enc_word src i index in
    inl (dst ++ [nth (Z.to_nat word) base32Alphabet 0], i', index')
  else inr dst.

Definition toBase32 (src : list Z) (dst : list Z) : option (list Z) :=
  while (toBase32_step src) loop_fuel (dst, 0%nat, 0).

(** ** [Util::fromBase32] *)

(** [dst[p] |= v] on [uint8_t]; [None] is a write outside of the buffer. *)
Definition or_at (dst : list Z) (p : nat) (v : Z) : option (list Z) :=
  d ← dst !! p; Some (<[p := Z.lor d (u8 v)]> dst).

(** The loop over the characters; [hasError] says whether the caller passed an
    [errorPtr].  The result is the buffer and [*errorPtr]. *)
Fixpoint fromBase32_loop (src : list Z) (dst : list Z) (len : nat) (index : Z) (offset : nat)
    (hasError : bool) : option (list Z * bool) :=
  match src with
  | [] => Some (dst, false)
  | ch :: src' =>
      let tmp := nth (Z.to_nat ch) base32Table (-1) in
      if tmp =? -1 then
        if hasError then Some (dst, true) else fromBase32_loop src' dst len index offset hasError
      else if index <=? 3 then
        let index := Z.land (index + 5) 7 in
        if index =? 0 then
          dst ← or_at dst offset tmp;
          if (S offset =? len)%nat then Some (dst, false)
          else fromBase32_loop src' dst len index (S offset) hasError
        else
          dst ← or_at dst offset (Z.shiftl tmp (8 - index));
          fromBase32_loop src' dst len index offset hasError
      else
        let index := Z.land (index + 5) 7 in
        dst ← or_at dst offset (Z.shiftr tmp index);
        if (S offset =? len)%nat then Some (dst, false)
        else
          dst ← or_at dst (S offset) (Z.shiftl tmp (8 - index));
          fromBase32_loop src' dst len index (S offset) hasError
  end.

Definition fromBase32 (src : list Z) (len : nat) (hasError : bool) : option (list Z * bool) :=
  fromBase32_loop src (replicate len 0) len 0 0 hasError.

(** [Util::isBase32]: upper-case letters and the digits 2 to 7. *)
Definition isBase32_char (c : Z) : bool :=
  ((65 <=? c) && (c <=? 90)) || ((50 <=? c) && (c <=? 55)).

Definition isBase32 (src : list Z) : bool := forallb isBase32_char src.

Definition getBase32Chars : list Z := base32Alphabet.

(** ** The bit stream *)

(** Bit [j] of a byte string, most significant bit first. *)
Definition sbit (l : list Z) (j : nat) : bool :=
  Z.testbit (nth (j / 8)%nat l 0) (7 - Z.of_nat (j mod 8)%nat).

(** Bit [j] of a string of 5-bit words. *)
Definition wbit (ws : list Z) (j : nat) : bool :=
  Z.testbit (nth (j / 5)%nat ws 0) (4 - Z.of_nat (j mod 5)%nat).

Lemma sbit_split l p u : (u < 8)%nat -> sbit l (8 * p + u) = Z.testbit (nth p l 0) (7 - Z.of_nat u).
Proof.
  intros Hu. unfold sbit. rewrite Nat.mul_comm, Nat.div_add_l, Nat.div_small, Nat.add_0_r by lia.
  rewrite Nat.add_comm, Nat.Div0.mod_add, Nat.mod_small by lia. done.
Qed.

Lemma wbit_split ws k t : (t < 5)%nat -> wbit ws (5 * k + t) = Z.testbit (nth k ws 0) (4 - Z.of_nat t).
Proof.
  intros Ht. unfold wbit. rewrite Nat.mul_comm, Nat.div_add_l, Nat.div_small, Nat.add_0_r by lia.
  rewrite Nat.add_comm, Nat.Div0.mod_add, Nat.mod_small by lia. done.
Qed.

Lemma sbit_out l j : (8 * length l <= j)%nat -> sbit l j = false.
Proof.
  intros Hj. unfold sbit. rewrite nth_overflow; [apply Z.testbit_0_l|].
  apply Nat.div_le_lower_bound; lia.
Qed.

(** Bytes are determined by their bits. *)
Lemma byte_bits_eq a b :
  is_byte a -> is_byte b -> (forall u, (u < 8)%nat -> Z.testbit a (7 - Z.of_nat u) = Z.testbit b (7 - Z.of_nat u)) ->
  a = b.
Proof.
  intros Ha Hb H. apply Z.bits_inj'. intros n Hn. destruct (decide (n < 8)).
  - specialize (H (Z.to_nat (7 - n)) ltac:(lia)). by replace (7 - Z.of_nat (Z.to_nat (7 - n))) with n in H by lia.
  - unfold is_byte in *. change 256 with (2 ^ 8) in *.
    rewrite <-(Z.mod_small a (2 ^ 8)), <-(Z.mod_small b (2 ^ 8)) by lia.
    by rewrite !Z.mod_pow2_bits_high by lia.
Qed.

Lemma nth_ext_bits (l1 l2 : list Z) :
  bytes_ok l1 -> bytes_ok l2 -> length l1 = length l2 ->
  (forall j, (j < 8 * length l1)%nat -> sbit l1 j = sbit l2 j) -> l1 = l2.
Proof.
  intros H1 H2 Hl Hb. apply (nth_ext _ _ 0 0); [done|]. intros p Hp.
  unfold bytes_ok in *. rewrite List.Forall_forall in H1, H2.
  apply byte_bits_eq; [apply H1, nth_In; lia|apply H2, nth_In; lia|].
  intros u Hu. rewrite <-!sbit_split by done. apply Hb. lia.
Qed.

(** ** Encoding *)

(** The word of one iteration, from the current byte and the next one. *)
Definition enc_bits (index b0 b1 : Z) : Z :=
  if 3 <? index
  then Z.lor (u8 (Z.shiftl (Z.land b0 (Z.shiftr 255 index)) (Z.land (index + 5) 7)))
             (Z.shiftr b1 (8 - Z.land (index + 5) 7))
  else Z.land (Z.shiftr b0 (8 - (index + 5))) 31.

Definition all_bytes : list Z := seqZ 0 256.

Definition enc_bits_ok (index b0 b1 : Z) : bool :=
  let w := enc_bits index b0 b1 in
  (0 <=? w) && (w <? 32) &&
  forallb (fun t => Bool.eqb (Z.testbit w (4 - t))
    (if index + t <? 8 then Z.testbit b0 (7 - index - t) else Z.testbit b1 (15 - index - t))) (seqZ 0 5).

Lemma enc_bits_check :
  forallb (fun index => forallb (fun b0 => forallb (enc_bits_ok index b0) all_bytes) all_bytes) (seqZ 0 8) = true.
Proof. vm_compute. reflexivity. Qed.

Lemma enc_bits_spec index b0 b1 :
  0 <= index < 8 -> is_byte b0 -> is_byte b1 ->
  0 <= enc_bits index b0 b1 < 32 /\
  forall t, 0 <= t < 5 -> Z.testbit (enc_bits index b0 b1) (4 - t) =
    if index + t <? 8 then Z.testbit b0 (7 - index - t) else Z.testbit b1 (15 - index - t).
Proof.
  intros Hi H0 H1. pose proof enc_bits_check as H.
  eapply forallb_seqZ in H; [|exact Hi]. eapply forallb_seqZ in H; [|exact H0].
  eapply forallb_seqZ in H; [|exact H1]. unfold enc_bits_ok in H. zb. split; [lia|].
  intros t Ht. match goal with H : forallb _ _ = true |- _ => eapply forallb_seqZ in H; [|exact Ht];
    apply eqb_prop in H; exact H end.
Qed.

Lemma nth_is_byte l p : bytes_ok l -> is_byte (nth p l 0).
Proof.
  intros H. destruct (decide (p < length l)%nat).
  - unfold bytes_ok in H. rewrite List.Forall_forall in H. by apply H, nth_In.
  - rewrite nth_overflow by lia. unfold is_byte. lia.
Qed.

Lemma enc_word_spec src i index :
  bytes_ok src -> (i < length src)%nat -> 0 <= index < 8 ->
  let '(word, i', index') := enc_word src i index in
  0 <= word < 32 /\ 0 <= index' < 8 /\
  8 * Z.of_nat i' + index' = 8 * Z.of_nat i + index + 5 /\
  forall t, (t < 5)%nat -> Z.testbit word (4 - Z.of_nat t) = sbit src (8 * i + Z.to_nat index + t).
Proof.
  intros Hs Hi Hx.
  pose proof (enc_bits_spec index (nth i src 0) (nth (S i) src 0) Hx (nth_is_byte _ _ Hs) (nth_is_byte _ _ Hs))
    as [Hw Hb].
  assert (exists i' index', enc_word src i index = (enc_bits index (nth i src 0) (nth (S i) src 0), i', index') /\
    0 <= index' < 8 /\ 8 * Z.of_nat i' + index' = 8 * Z.of_nat i + index + 5) as (i' & index' & -> & Hi' & Hpos).
  { unfold enc_word, enc_bits. cbv zeta.
    assert (Z.land (index + 5) 7 = if 3 <? index then index - 3 else if index =? 3 then 0 else index + 5) as ->.
    { assert (index ∈ seqZ 0 8) as Hin by (apply elem_of_seqZ; lia).
      repeat (apply elem_of_cons in Hin as [->|Hin]; [reflexivity|]). by apply elem_of_nil in Hin. }
    destruct (3 <? index) eqn:E; zb.
    - do 2 eexists. split; [|split; [|]].
      + destruct (S i <? length src)%nat eqn:E2; [done|]. apply Nat.ltb_ge in E2.
        rewrite (nth_overflow src _ E2), Z.shiftr_0_l, Z.lor_0_r. done.
      + lia.
      + lia.
    - do 2 eexists. split; [done|]. destruct (index =? 3) eqn:E3; zb; simpl; [lia|].
      destruct (index + 5 =? 0) eqn:E4; zb; lia. }
  split_and!; [lia|lia|lia|lia|lia|]. intros t Ht. rewrite Hb by lia.
  destruct (index + Z.of_nat t <? 8) eqn:E; zb.
  - replace (8 * i + Z.to_nat index + t)%nat with (8 * i + (Z.to_nat index + t))%nat by lia.
    rewrite sbit_split by lia. f_equal. lia.
  - replace (8 * i + Z.to_nat index + t)%nat with (8 * S i + (Z.to_nat index + t - 8))%nat by lia.
    rewrite sbit_split by lia. f_equal. lia.
Qed.

Definition chr32 (w : Z) : Z := nth (Z.to_nat w) base32Alphabet 0.

(** The words of an encoding: enough of them to cover the data, each bit being
    the corresponding bit of the data (zero past the end). *)
Definition encodes (src ws : list Z) : Prop :=
  Forall (fun w => 0 <= w < 32) ws /\
  (8 * length src <= 5 * length ws < 8 * length src + 5)%nat /\
  forall j, (j < 5 * length ws)%nat -> wbit ws j = sbit src j.

Lemma toBase32_ok src dst :
  bytes_ok src -> Z.of_nat (length src) < 2 ^ 64 ->
  exists ws, toBase32 src dst = Some (dst ++ map chr32 ws) /\ encodes src ws.
Proof.
  intros Hs Hlen.
  pose (I := fun st : list Z * nat * Z => exists ws, st.1.1 = dst ++ map chr32 ws /\ 0 <= st.2 < 8 /\
    8 * Z.of_nat st.1.2 + st.2 = 5 * Z.of_nat (length ws) /\
    8 * Z.of_nat st.1.2 + st.2 < 8 * Z.of_nat (length src) + 5 /\
    Forall (fun w => 0 <= w < 32) ws /\ forall j, (j < 5 * length ws)%nat -> wbit ws j = sbit src j).
  unfold toBase32.
  destruct (while_total (toBase32_step src) I
    (fun st => 8 * Z.of_nat (length src) + 5 - 8 * Z.of_nat st.1.2 - st.2)
    (fun r => exists ws, r = dst ++ map chr32 ws /\ encodes src ws))
    with (fuel := loop_fuel) (s := (dst, 0%nat, 0)) as (r & -> & ws & -> & Hr).
  - intros [[d i] index] (ws & E1 & Hx & Hpos & Hlt & Hw & Hb). cbn [fst snd] in *. subst d.
    unfold toBase32_step. destruct (i <? length src)%nat eqn:E.
    + apply Nat.ltb_lt in E. pose proof (enc_word_spec src i index Hs E Hx) as Hstep.
      destruct (enc_word src i index) as [[word i'] index']. destruct Hstep as (Hw1 & Hx1 & Hpos1 & Hb1).
      split; [|cbn [fst snd]; lia]. exists (ws ++ [word]). cbn [fst snd]. rewrite length_app. cbn [length].
      split_and!; [by rewrite map_app, <-app_assoc|lia|lia|lia|lia|by apply Forall_app; auto|].
      intros j Hj. destruct (decide (j < 5 * length ws)%nat) as [Hlt'|Hge].
      * rewrite <-Hb by done. unfold wbit. rewrite app_nth1; [done|].
        apply Nat.Div0.div_lt_upper_bound; lia.
      * replace j with (5 * length ws + (j - 5 * length ws))%nat by lia.
        rewrite wbit_split by lia. rewrite app_nth2, Nat.sub_diag by lia. cbn [nth].
        rewrite Hb1 by lia. f_equal. lia.
    + apply Nat.ltb_ge in E. exists ws. split; [done|]. split_and!; [done|lia|lia|done].
  - exists []. cbn [fst snd length]. rewrite app_nil_r. split_and!; try done; lia.
  - rewrite loop_fuel_val. cbn [fst snd]. lia.
  - by exists ws.
Qed.

(** ** Decoding *)

Lemma chr32_table w : 0 <= w < 32 -> nth (Z.to_nat (chr32 w)) base32Table (-1) = w.
Proof.
  intros Hw. assert (forallb (fun w => nth (Z.to_nat (chr32 w)) base32Table (-1) =? w) (seqZ 0 32) = true) as H
    by (vm_compute; reflexivity).
  eapply forallb_seqZ in H; [|exact Hw]. by zb.
Qed.

(** What one word contributes to the current byte and to the next one. *)
Definition dec_lo (index w : Z) : Z :=
  if index <=? 3 then if index =? 3 then w else Z.shiftl w (8 - Z.land (index + 5) 7)
  else Z.shiftr w (Z.land (index + 5) 7).

Definition dec_hi (index w : Z) : Z :=
  if index <=? 3 then 0 else Z.shiftl w (8 - Z.land (index + 5) 7).

Definition dec_bits_ok (index w u : Z) : bool :=
  Bool.eqb (Z.testbit (u8 (dec_lo index w)) (7 - u))
           ((index <=? u) && (u <? index + 5) && Z.testbit w (4 - (u - index))) &&
  Bool.eqb (Z.testbit (u8 (dec_hi index w)) (7 - u))
           ((u + 8 <? index + 5) && Z.testbit w (4 - (u + 8 - index))).

Lemma dec_bits_spec index w u :
  0 <= index < 8 -> 0 <= w < 32 -> 0 <= u < 8 ->
  Z.testbit (u8 (dec_lo index w)) (7 - u) = (index <=? u) && (u <? index + 5) && Z.testbit w (4 - (u - index)) /\
  Z.testbit (u8 (dec_hi index w)) (7 - u) = (u + 8 <? index + 5) && Z.testbit w (4 - (u + 8 - index)).
Proof.
  intros Hi Hw Hu.
  assert (forallb (fun index => forallb (fun w => forallb (dec_bits_ok index w) (seqZ 0 8)) (seqZ 0 32)) (seqZ 0 8)
    = true) as H by (vm_compute; reflexivity).
  eapply forallb_seqZ in H; [|exact Hi]. eapply forallb_seqZ in H; [|exact Hw].
  eapply forallb_seqZ in H; [|exact Hu]. unfold dec_bits_ok in H. zb.
  split; by apply eqb_prop.
Qed.

Lemma u8_byte_range v : is_byte (u8 v).
Proof. unfold is_byte, wrap. change 256 with (2 ^ 8). apply Z.mod_pos_bound. lia. Qed.

Lemma lor_byte a b : is_byte a -> is_byte b -> is_byte (Z.lor a b).
Proof.
  unfold is_byte. intros Ha Hb. change 256 with (2 ^ 8) in *.
  rewrite <-(Z.mod_small a (2 ^ 8)), <-(Z.mod_small b (2 ^ 8)), <-!Z.land_ones, <-Z.land_lor_distr_l, Z.land_ones by lia.
  apply Z.mod_pos_bound. lia.
Qed.

Lemma or_at_ok dst p v :
  (p < length dst)%nat -> bytes_ok dst ->
  exists dst', or_at dst p v = Some dst' /\ length dst' = length dst /\ bytes_ok dst' /\
    forall j, (j < 8 * length dst)%nat ->
      sbit dst' j = sbit dst j || ((j / 8 =? p)%nat && Z.testbit (u8 v) (7 - Z.of_nat (j mod 8)%nat)).
Proof.
  intros Hp Hd. unfold or_at. destruct (dst !! p) as [d|] eqn:E; [|by apply lookup_ge_None in E; lia].
  eexists. split; [done|]. rewrite length_insert. split; [done|]. split.
  - apply Forall_insert; [done|]. apply lor_byte; [|apply u8_byte_range].
    unfold bytes_ok in Hd. rewrite Forall_lookup in Hd. by eapply Hd.
  - intros j Hj. unfold sbit. rewrite !nth_lookup.
    assert (j / 8 < length dst)%nat by (apply Nat.Div0.div_lt_upper_bound; lia).
    destruct (Nat.eqb_spec (j / 8) p) as [->|Hne].
    + rewrite list_lookup_insert_eq, E by lia. simpl. by rewrite Z.lor_spec.
    + rewrite list_lookup_insert_ne by done. simpl. by rewrite orb_false_r.
Qed.

Lemma index_step index : 0 <= index < 8 ->
  Z.land (index + 5) 7 = if index <=? 2 then index + 5 else index - 3.
Proof.
  intros Hi. assert (forallb (fun i => Z.land (i + 5) 7 =? if i <=? 2 then i + 5 else i - 3) (seqZ 0 8) = true) as H
    by (vm_compute; reflexivity).
  eapply forallb_seqZ in H; [|exact Hi]. by zb.
Qed.

Lemma wbit_app_l ws1 ws2 j : (j < 5 * length ws1)%nat -> wbit (ws1 ++ ws2) j = wbit ws1 j.
Proof.
  intros Hj. unfold wbit. rewrite app_nth1; [done|]. apply Nat.Div0.div_lt_upper_bound; lia.
Qed.

(** The bits of the buffer after [n] bits of the words have been written. *)
Definition decoded (ws : list Z) (n : nat) (dst : list Z) : Prop :=
  bytes_ok dst /\ forall j, (j < 8 * length dst)%nat -> sbit dst j = (j <? n)%nat && wbit ws j.

(** Writing one word at bit position [8 * offset + index] of the buffer. *)
Lemma write_word ws1 w ws2 dst offset index :
  let ws := ws1 ++ w :: ws2 in
  decoded ws (5 * length ws1) dst -> 0 <= index < 8 -> 0 <= w < 32 -> (offset < length dst)%nat ->
  (8 * offset + Z.to_nat index = 5 * length ws1)%nat ->
  exists d1, or_at dst offset (dec_lo index w) = Some d1 /\ length d1 = length dst /\ bytes_ok d1 /\
    ((index <= 3 \/ length dst = S offset) -> decoded ws (5 * S (length ws1)) d1) /\
    ((S offset < length dst)%nat -> exists d2, or_at d1 (S offset) (dec_hi index w) = Some d2 /\
      length d2 = length dst /\ decoded ws (5 * S (length ws1)) d2).
Proof.
  intros ws [Hb Hd] Hi Hw Ho Hpos.
  destruct (or_at_ok dst offset (dec_lo index w) Ho Hb) as (d1 & -> & Hl1 & Hb1 & Hs1).
  assert (forall t, (t < 5)%nat -> wbit ws (5 * length ws1 + t) = Z.testbit w (4 - Z.of_nat t)) as Hwb.
  { intros t Ht. rewrite wbit_split by done. unfold ws. by rewrite app_nth2, Nat.sub_diag by lia. }
  assert (forall j, (j < 8 * length dst)%nat ->
    sbit d1 j = (j <? Nat.min (5 * S (length ws1)) (8 * S offset))%nat && wbit ws j) as Hd1.
  { intros j Hj. rewrite Hs1, Hd by done.
    pose proof (Nat.div_mod_eq j 8) as Hdm. pose proof (Nat.mod_upper_bound j 8 ltac:(lia)) as Hm.
    destruct (Nat.eqb_spec (j / 8) offset) as [He|Hne].
    - destruct (dec_bits_spec index w (Z.of_nat (j mod 8))) as [-> _]; [lia..|]. cbn [andb].
      destruct (decide (j < 5 * length ws1)%nat).
      + rewrite !(proj2 (Nat.ltb_lt _ _)) by lia. cbn [andb].
        replace (index <=? _) with false by (symmetry; apply Z.leb_gt; lia). cbn [andb]. apply orb_false_r.
      + rewrite (proj2 (Nat.ltb_ge _ _)) by lia. cbn [andb orb].
        replace (index <=? _) with true by (symmetry; apply Z.leb_le; lia). cbn [andb].
        destruct (Z.ltb_spec (Z.of_nat (j mod 8)) (index + 5)).
        * rewrite (proj2 (Nat.ltb_lt _ _)) by lia. cbn [andb].
          replace j with (5 * length ws1 + (j - 5 * length ws1))%nat at 2 by lia.
          rewrite Hwb by lia. f_equal. lia.
        * rewrite (proj2 (Nat.ltb_ge _ _)) by lia. done.
    - cbn [andb]. rewrite orb_false_r. destruct (decide (j < 5 * length ws1)%nat).
      + by rewrite !(proj2 (Nat.ltb_lt _ _)) by lia.
      + by rewrite !(proj2 (Nat.ltb_ge _ _)) by lia. }
  exists d1. split_and!; [done|done|done| |].
  - intros Hc. split; [done|]. rewrite Hl1. intros j Hj. rewrite Hd1 by done.
    destruct Hc as [Hc|Hc].
    + by rewrite Nat.min_l by lia.
    + destruct (Nat.ltb_spec j (Nat.min (5 * S (length ws1)) (8 * S offset))),
        (Nat.ltb_spec j (5 * S (length ws1))); done || lia.
  - intros Ho2. destruct (or_at_ok d1 (S offset) (dec_hi index w) ltac:(lia) Hb1) as (d2 & -> & Hl2 & Hb2 & Hs2).
    exists d2. split_and!; [done|lia|]. split; [done|]. rewrite Hl2, Hl1. intros j Hj.
    rewrite Hs2, Hd1 by lia.
    pose proof (Nat.div_mod_eq j 8) as Hdm. pose proof (Nat.mod_upper_bound j 8 ltac:(lia)) as Hm.
    destruct (Nat.eqb_spec (j / 8) (S offset)) as [He|Hne].
    + destruct (dec_bits_spec index w (Z.of_nat (j mod 8))) as [_ ->]; [lia..|]. cbn [andb].
      rewrite (proj2 (Nat.ltb_ge _ (Nat.min _ _))) by lia. cbn [andb orb].
      destruct (Z.ltb_spec (Z.of_nat (j mod 8) + 8) (index + 5)).
      * rewrite (proj2 (Nat.ltb_lt _ _)) by lia. cbn [andb].
        replace j with (5 * length ws1 + (j - 5 * length ws1))%nat at 2 by lia.
        rewrite Hwb by lia. f_equal. lia.
      * rewrite (proj2 (Nat.ltb_ge _ _)) by lia. done.
    + cbn [andb]. rewrite orb_false_r.
      destruct (Nat.ltb_spec j (Nat.min (5 * S (length ws1)) (8 * S offset))),
        (Nat.ltb_spec j (5 * S (length ws1))); try done; lia.
Qed.

Lemma decoded_more ws n1 n2 dst :
  decoded ws n1 dst -> (8 * length dst <= n1)%nat -> (8 * length dst <= n2)%nat -> decoded ws n2 dst.
Proof.
  intros [Hb Hd] H1 H2. split; [done|]. intros j Hj. rewrite Hd by done.
  by rewrite !(proj2 (Nat.ltb_lt _ _)) by lia.
Qed.

Lemma decode_loop ws1 ws2 dst len index offset he :
  let ws := ws1 ++ ws2 in
  Forall (fun w => 0 <= w < 32) ws2 -> decoded ws (5 * length ws1) dst -> length dst = len ->
  0 <= index < 8 -> (offset < len)%nat -> (8 * offset + Z.to_nat index = 5 * length ws1)%nat ->
  exists dst', fromBase32_loop (map chr32 ws2) dst len index offset he = Some (dst', false) /\
    length dst' = len /\ decoded ws (5 * length ws) dst'.
Proof.
  revert ws1 dst index offset. induction ws2 as [|w ws2 IH]; intros ws1 dst index offset ws Hw Hd Hl Hi Ho Hpos.
  - exists dst. split_and!; [done|done|]. unfold ws in *. by rewrite app_nil_r in *.
  - apply Forall_cons in Hw as [Hw1 Hw2]. cbn [map fromBase32_loop]. rewrite chr32_table by done.
    replace (w =? -1) with false by (symmetry; apply Z.eqb_neq; lia).
    assert (ws = (ws1 ++ [w]) ++ ws2) as Hws by (unfold ws; by rewrite <-app_assoc).
    assert (length (ws1 ++ [w]) = S (length ws1)) as Hl1 by (rewrite length_app; simpl; lia).
    assert (5 * S (length ws1) <= 5 * length ws)%nat as Hle by (rewrite Hws, length_app, Hl1; lia).
    destruct (write_word ws1 w ws2 dst offset index Hd Hi Hw1 ltac:(lia) Hpos) as (d1 & H1 & Hd1 & Hb1 & Hs1 & Hs2).
    fold ws in Hs1, Hs2. unfold dec_lo, dec_hi in *. rewrite (index_step index Hi) in *.
    destruct (index <=? 3) eqn:E3; zb.
    + specialize (Hs1 ltac:(left; lia)). destruct (index <=? 2) eqn:E2; zb.
      * replace (index =? 3) with false in H1 by (symmetry; apply Z.eqb_neq; lia).
        replace (index + 5 =? 0) with false by (symmetry; apply Z.eqb_neq; lia).
        rewrite H1. cbn [mbind option_bind]. rewrite Hws in *.
        apply IH; [done| |lia|lia|lia|rewrite Hl1; lia]. by rewrite Hl1.
      * assert (index = 3) as -> by lia. cbn [Z.sub Z.add Z.opp Z.eqb Z.pos_sub Pos.eqb] in *.
        change (3 - 3) with 0. change (0 =? 0) with true. cbv iota.
        rewrite H1. cbn [mbind option_bind]. destruct (Nat.eqb_spec (S offset) len).
        -- exists d1. split_and!; [done|lia|]. eapply decoded_more; [exact Hs1| |]; lia.
        -- rewrite Hws in *. apply IH; [done| |lia|lia|lia|rewrite Hl1; lia]. by rewrite Hl1.
    + replace (index <=? 2) with false in * by (symmetry; apply Z.leb_gt; lia).
      rewrite H1. cbn [mbind option_bind]. destruct (Nat.eqb_spec (S offset) len).
      * exists d1. split_and!; [done|lia|]. eapply decoded_more; [apply Hs1; right; lia| |]; lia.
      * destruct (Hs2 ltac:(lia)) as (d2 & -> & Hl2 & Hd2). cbn [mbind option_bind].
        rewrite Hws in *. apply IH; [done| |lia|lia|lia|rewrite Hl1; lia]. by rewrite Hl1.
Qed.

Lemma sbit_replicate_0 n j : sbit (replicate n 0) j = false.
Proof.
  unfold sbit. rewrite nth_lookup. destruct (replicate n 0 !! (j / 8)%nat) as [x|] eqn:E; simpl.
  - apply lookup_replicate in E as [-> _]. apply Z.testbit_0_l.
  - apply Z.testbit_0_l.
Qed.

Lemma base32_decode_encode src hasError :
  bytes_ok src -> src <> [] -> Z.of_nat (length src) < 2 ^ 64 ->
  exists s, toBase32 src [] = Some s /\
    fromBase32 s (length src) hasError = Some (src, false) /\
    isBase32 s = true /\ (8 * length src <= 5 * length s < 8 * length src + 5)%nat.
Proof.
  intros Hsrc Hne Hlen. destruct (toBase32_ok src [] Hsrc Hlen) as (ws & Hto & Hw & Hl & Hb).
  exists (map chr32 ws). split; [exact Hto|]. rewrite length_map. split_and!; [| |lia|lia].
  - destruct (decode_loop [] ws (replicate (length src) 0) (length src) 0 0 hasError)
      as (d & Hd & Hld & Hbd & Hdec).
    + done.
    + split; [by apply Forall_replicate; unfold is_byte; lia|]. intros j Hj.
      rewrite sbit_replicate_0. done.
    + apply length_replicate.
    + lia.
    + destruct src; [done|]. cbn [length]. lia.
    + done.
    + unfold fromBase32. rewrite Hd. do 2 f_equal.
      apply nth_ext_bits; [done|done|done|]. intros j Hj. rewrite Hdec by done. cbn [app].
      rewrite (proj2 (Nat.ltb_lt _ _)) by lia. cbn [andb]. apply Hb. lia.
  - unfold isBase32. apply forallb_forall. intros c Hc. apply in_map_iff in Hc as (w & <- & Hin).
    rewrite List.Forall_forall in Hw. specialize (Hw w Hin).
    assert (forallb (fun w => isBase32_char (chr32 w)) (seqZ 0 32) = true) as H by (vm_compute; reflexivity).
    eapply forallb_seqZ in H; [exact H|done].
Qed.

(** C24.  Base32 round trip: decoding the encoding of a non-empty byte string
    into a buffer of the same length gives the string back, reports no error, and
    the encoding is accepted by [isBase32] and has [ceil(8 n / 5)] characters. *)
Theorem base32_roundtrip (src : list Z) (hasError : bool)
  (Hsrc : bytes_ok src) (Hne : src <> []) (Hlen : Z.of_nat (length src) < 2 ^ 64) :
  exists s, toBase32 src [] = Some s /\
    fromBase32 s (length src) hasError = Some (src, false) /\
    isBase32 s = true /\ (8 * length src <= 5 * length s < 8 * length src + 5)%nat.
Proof. by apply base32_decode_encode. Qed.

Lemma base32_roundtrip_witness :
  exists s, toBase32 [1; 2; 3; 255; 128; 7] [] = Some s /\
    fromBase32 s 6 true = Some ([1; 2; 3; 255; 128; 7], false) /\
    isBase32 s = true /\ (8 * 6 <= 5 * length s < 8 * 6 + 5)%nat.
Proof.
  apply (base32_roundtrip [1; 2; 3; 255; 128; 7] true).
  - repeat constructor; lia.
  - discriminate.
  - simpl. lia.
Defined.
