(* ===== verification/HashValue.v ===== *)
(** * Digests and client identifiers: [client/HashValue.h], [client/CID.h]

    Both are 24-byte arrays compared with [memcmp] and written in base32: the
    name of a file in the network ([TTHValue]) and of a user ([CID]). *)

From S2P Require Import Prelude Base32.

(** [memcmp(a, b, n)] on two arrays of [n] bytes: the sign of the result. *)
Fixpoint memcmp (a b : list Z) : Z :=
  match a, b with
  | x :: a', y :: b' => if x <? y then -1 else if y <? x then 1 else memcmp a' b'
  | _, _ => 0
  end.

(** The characters of a string that [c_str()] hands to a C function. *)
Fixpoint c_str (s : list Z) : list Z :=
  match s with
  | [] => []
  | c :: r => if c =? 0 then [] else c :: c_str r
  end.

(** ** [struct HashValue<TigerHash>] *)

Definition HV_BYTES : nat := 24.

Definition HashValue_zero : list Z := replicate HV_BYTES 0.
Definition HashValue_base32 (base32 : list Z) : option (list Z) :=
  fst <$> fromBase32 (c_str base32) HV_BYTES false.
Definition HashValue_eq (a b : list Z) : bool := memcmp a b =? 0.
Definition HashValue_lt (a b : list Z) : bool := memcmp a b <? 0.
Definition HashValue_toBase32 (a : list Z) : option (list Z) := toBase32 a [].
Definition HashValue_toHash (a : list Z) : Z := le_load (take 8 a).
Definition HashValue_isZero (a : list Z) : bool := forallb (fun b => b =? 0) a.

(** ** [class CID] *)

Definition CID_SIZE : nat := 24.

Definition CID_init : list Z := replicate CID_SIZE 0.
Definition CID_eq (a b : list Z) : bool := memcmp a b =? 0.
Definition CID_lt (a b : list Z) : bool := memcmp a b <? 0.
Definition CID_toBase32 (a : list Z) : option (list Z) := toBase32 a [].

(** A string of another length than 39 is cut, or filled up with zeros. *)
Definition CID_fromBase32 (base32 : list Z) : option (list Z) :=
  fst <$> (if (length base32 =? 39)%nat then fromBase32 (c_str base32) CID_SIZE false
           else fromBase32 (c_str (take 39 base32 ++ replicate (39 - length base32) 0)) CID_SIZE false).

(** The union's word view, with 64-bit words. *)
Definition cid_w (a : list Z) (i : nat) : Z := le_load (take 8 (drop (8 * i) a)).
Definition CID_toHash (a : list Z) : Z := cid_w a 0.
Definition CID_isZero (a : list Z) : bool := forallb (fun i => cid_w a i =? 0) (seq 0 3).

(** ** Comparison *)

Lemma memcmp_refl a : memcmp a a = 0.
Proof. induction a as [|x a IH]; simpl; [done|]. rewrite Z.ltb_irrefl. done. Qed.

Lemma memcmp_eq a b : length a = length b -> memcmp a b = 0 -> a = b.
Proof.
  revert b. induction a as [|x a IH]; intros [|y b] Hl; simpl in *; try done.
  intros H. destruct (x <? y) eqn:E1; [lia|]. destruct (y <? x) eqn:E2; [lia|]. zb.
  f_equal; [lia|]. apply IH; [lia|done].
Qed.

Lemma memcmp_antisym a b : memcmp b a = - memcmp a b.
Proof.
  revert b. induction a as [|x a IH]; intros [|y b]; simpl; try done.
  destruct (x <? y) eqn:E1, (y <? x) eqn:E2; zb; try done; lia.
Qed.

Lemma memcmp_trans a b c :
  length a = length b -> length b = length c -> memcmp a b < 0 -> memcmp b c < 0 -> memcmp a c < 0.
Proof.
  revert b c. induction a as [|x a IH]; intros [|y b] [|z c] H1 H2; simpl in *; try lia.
  destruct (Z.ltb_spec x y), (Z.ltb_spec y x), (Z.ltb_spec y z), (Z.ltb_spec z y),
    (Z.ltb_spec x z), (Z.ltb_spec z x); try lia. intros. apply (IH b); lia.
Qed.

(** [operator<] of digests is a strict total order and [operator==] is
    equality of the bytes: what the sorted and hashed containers keyed by digests
    need. *)
Theorem HashValue_order (a b c : list Z)
  (Ha : length a = HV_BYTES) (Hb : length b = HV_BYTES) (Hc : length c = HV_BYTES) :
  (HashValue_eq a b = true <-> a = b) /\
  (HashValue_lt a b = true -> HashValue_lt b a = false) /\
  (HashValue_lt a b = true -> HashValue_lt b c = true -> HashValue_lt a c = true) /\
  (HashValue_lt a b = true \/ a = b \/ HashValue_lt b a = true).
Proof.
  unfold HashValue_eq, HashValue_lt.
  rewrite !Z.ltb_lt, !Z.eqb_eq, Z.ltb_ge, (memcmp_antisym a b). split_and!.
  - split; [apply memcmp_eq; congruence|intros ->; apply memcmp_refl].
  - lia.
  - apply memcmp_trans; congruence.
  - destruct (Z.lt_trichotomy (memcmp a b) 0) as [H|[H|H]]; [by left|right; left|right; right; lia].
    apply memcmp_eq; congruence.
Qed.

Lemma HashValue_order_witness :
  let a := replicate 24 1 in let b := replicate 24 2 in let c := replicate 24 3 in
  (HashValue_eq a b = true <-> a = b) /\
  (HashValue_lt a b = true -> HashValue_lt b a = false) /\
  (HashValue_lt a b = true -> HashValue_lt b c = true -> HashValue_lt a c = true) /\
  (HashValue_lt a b = true \/ a = b \/ HashValue_lt b a = true).
Proof. cbv zeta. apply (HashValue_order (replicate 24 1) (replicate 24 2) (replicate 24 3)); reflexivity. Defined.

(** ** Text form *)

Lemma c_str_base32 s : isBase32 s = true -> c_str s = s.
Proof.
  unfold isBase32. induction s as [|c s IH]; simpl; [done|]. intros [Hc Hs]%andb_prop.
  destruct (c =? 0) eqn:E; zb; [|by rewrite IH]. subst c. done.
Qed.

(** The text form of a digest or of a client identifier determines it: reading
    back the base32 string of a 24-byte value gives the value, and the string has
    39 characters, so that [CID::fromBase32] neither cuts nor fills it. *)
Theorem hash_text_roundtrip (v : list Z) (Hv : bytes_ok v) (Hl : length v = HV_BYTES) :
  exists s, HashValue_toBase32 v = Some s /\ length s = 39%nat /\
    HashValue_base32 s = Some v /\ CID_fromBase32 s = Some v.
Proof.
  destruct (base32_decode_encode v false Hv) as (s & Hto & Hfrom & Hb & Hlen).
  { intros ->. done. }
  { rewrite Hl. unfold HV_BYTES. lia. }
  rewrite Hl in *. assert (length s = 39%nat) as H39 by (unfold HV_BYTES in *; lia).
  exists s. split_and!; [exact Hto|done| |].
  - unfold HashValue_base32. rewrite c_str_base32, Hfrom by done. done.
  - unfold CID_fromBase32. rewrite H39, c_str_base32 by done. change CID_SIZE with HV_BYTES.
    cbn [Nat.eqb]. rewrite Hfrom. done.
Qed.

Lemma hash_text_roundtrip_witness :
  exists s, HashValue_toBase32 (seqZ 100 24) = Some s /\ length s = 39%nat /\
    HashValue_base32 s = Some (seqZ 100 24) /\ CID_fromBase32 s = Some (seqZ 100 24).
Proof. apply (hash_text_roundtrip (seqZ 100 24)); [|reflexivity]. repeat constructor; lia. Defined.

(** ** The word view *)

Lemma le_load_zero l : bytes_ok l -> (le_load l =? 0) = forallb (fun b => b =? 0) l.
Proof.
  unfold bytes_ok, is_byte. induction 1 as [|b l Hb Hl IH]; simpl; [done|]. rewrite <-IH.
  assert (0 <= le_load l) by (clear -Hl; induction Hl as [|? ? ? _ ?]; simpl; lia).
  apply eq_true_iff_eq. rewrite andb_true_iff, !Z.eqb_eq. lia.
Qed.

Lemma CID_isZero_bytes a : bytes_ok a -> length a = CID_SIZE -> CID_isZero a = forallb (fun b => b =? 0) a.
Proof.
  intros Ha Hl. unfold CID_isZero, cid_w. cbn [seq forallb]. unfold CID_SIZE in Hl.
  assert (forall n m, bytes_ok (take n (drop m a))) as Hb by (intros; by apply Forall_take, Forall_drop).
  rewrite !le_load_zero, andb_true_r by done. rewrite <-!forallb_app. f_equal.
  change (8 * 0)%nat with 0%nat. change (8 * 1)%nat with 8%nat. change (8 * 2)%nat with 16%nat.
  rewrite (take_ge (drop 16 a)) by (rewrite length_drop; lia).
  rewrite drop_0. change (drop 16 a) with (drop (8 + 8) a). rewrite <-drop_drop.
  by rewrite take_drop, take_drop.
Qed.
