(* ===== verification/SpeedCalc.v ===== *)
(** * Transfer speed: [client/SpeedCalc.h]

    A ring buffer of the last [M] samples of a transfer ([M] is a power of two),
    taken at least one second apart; the speed is measured between the oldest and
    the newest sample.  The ring is proved to be a bounded queue. *)

From S2P Require Import Prelude.

(** [struct Sample]. *)
Record Sample := mkSample { sm_size : Z; sm_tick : Z }.

#[global] Instance Sample_inhabited : Inhabited Sample := populate (mkSample 0 0).

Record SpeedCalc := mkSpeed { sc_data : list Sample; sc_first : Z; sc_last : Z; sc_count : Z }.

Section Ring.
Variable M : Z.

(** The constructor leaves the array as it finds it. *)
Definition SpeedCalc_new (memory : list Sample) : SpeedCalc := mkSpeed memory 0 (M - 1) 0.

Definition sc_at (s : SpeedCalc) (i : Z) : Sample := sc_data s !!! Z.to_nat i.

Definition setStartTick (s : SpeedCalc) (tick : Z) : SpeedCalc :=
  mkSpeed (<[0%nat := mkSample 0 tick]> (sc_data s)) 0 0 1.

Definition addSample (s : SpeedCalc) (size tick : Z) : bool * SpeedCalc :=
  if negb (sc_count s =? 0) && (tick <? sm_tick (sc_at s (sc_last s)) + 1000) then (false, s)
  else
    let last := Z.land (sc_last s + 1) (M - 1) in
    let data := <[Z.to_nat last := mkSample size tick]> (sc_data s) in
    let count := sc_count s + 1 in
    if M <? count then (true, mkSpeed data (Z.land (sc_first s + 1) (M - 1)) last M)
    else (true, mkSpeed data (sc_first s) last count).

Definition getAverage (s : SpeedCalc) (minTime minSize : Z) : Z :=
  if sc_count s <? 2 then -1
  else
    let time := sm_tick (sc_at s (sc_last s)) - sm_tick (sc_at s (sc_first s)) in
    if time <=? 0 then -1
    else
      let size := sm_size (sc_at s (sc_last s)) - sm_size (sc_at s (sc_first s)) in
      if (time <? minTime) && (size <? minSize) then -1
      else (size * 1000) ÷ time.

(** ** Reference: a queue of at most [M] samples, oldest first *)

Definition q_add (q : list Sample) (size tick : Z) : bool * list Sample :=
  match last q with
  | Some n => if tick <? sm_tick n + 1000 then (false, q)
              else (true, drop (S (length q) - Z.to_nat M) (q ++ [mkSample size tick]))
  | None => (true, drop (S (length q) - Z.to_nat M) (q ++ [mkSample size tick]))
  end.

Definition q_average (q : list Sample) (minTime minSize : Z) : Z :=
  match head q, last q with
  | Some a, Some b =>
      if (length q <? 2)%nat then -1
      else
        let time := sm_tick b - sm_tick a in
        if time <=? 0 then -1
        else
          let size := sm_size b - sm_size a in
          if (time <? minTime) && (size <? minSize) then -1 else (size * 1000) ÷ time
  | _, _ => -1
  end.

(** The queue a ring stands for. *)
Definition ring_list (s : SpeedCalc) : list Sample :=
  (fun k => sc_at s ((sc_first s + Z.of_nat k) mod M)) <$> seq 0 (Z.to_nat (sc_count s)).

Definition ring_ok (s : SpeedCalc) : Prop :=
  Z.of_nat (length (sc_data s)) = M /\ 0 <= sc_first s < M /\ 0 <= sc_count s <= M /\
  sc_last s = (sc_first s + sc_count s - 1) mod M.

Variable k : Z.
Hypothesis HM : M = 2 ^ k.
Hypothesis Hk : 0 <= k.

Lemma ring_M_pos : 0 < M.
Proof using HM Hk. subst M. apply Z.pow_pos_nonneg; lia. Qed.

Lemma land_mod x : Z.land x (M - 1) = x mod M.
Proof using HM Hk.
  rewrite HM. replace (2 ^ k - 1) with (Z.ones k) by (rewrite Z.ones_equiv; lia).
  by apply Z.land_ones.
Qed.

Lemma SpeedCalc_new_ok memory :
  Z.of_nat (length memory) = M ->
  ring_ok (SpeedCalc_new memory) /\ ring_list (SpeedCalc_new memory) = [].
Proof using HM Hk.
  pose proof ring_M_pos. intros Hl. unfold ring_ok, ring_list, SpeedCalc_new; simpl.
  split_and!; [done|lia|lia|lia|lia| |done].
  apply (Z.mod_unique _ M (-1)); lia.
Qed.

Lemma setStartTick_ok s tick :
  ring_ok s -> ring_ok (setStartTick s tick) /\ ring_list (setStartTick s tick) = [mkSample 0 tick].
Proof using HM Hk.
  pose proof ring_M_pos. intros (Hl & _). unfold ring_ok, ring_list, setStartTick; simpl.
  rewrite length_insert. split_and!; [done|lia|lia|lia|lia|by rewrite Z.mod_0_l by lia|].
  rewrite Z.mod_0_l by lia. unfold sc_at; simpl. by rewrite list_lookup_total_insert_eq by lia.
Qed.

Lemma ring_last s :
  ring_ok s -> last (ring_list s) = if sc_count s =? 0 then None else Some (sc_at s (sc_last s)).
Proof using HM Hk.
  intros (Hl & Hf & Hc & He). unfold ring_list. case_if.
  - by rewrite E.
  - rewrite fmap_last, last_lookup, length_seq.
    rewrite lookup_seq_lt by lia. simpl. rewrite He. do 3 f_equal. lia.
Qed.

Lemma ring_head s :
  ring_ok s -> head (ring_list s) = if sc_count s =? 0 then None else Some (sc_at s (sc_first s)).
Proof using HM Hk.
  intros (Hl & Hf & Hc & He). unfold ring_list. case_if; [by rewrite E|].
  destruct (Z.to_nat (sc_count s)) as [|n] eqn:En; [lia|]. simpl.
  by rewrite Z.add_0_r, Z.mod_small by done.
Qed.

Lemma length_ring s : length (ring_list s) = Z.to_nat (sc_count s).
Proof. unfold ring_list. by rewrite length_fmap, length_seq. Qed.

Lemma mod_sum_inj a b c : 0 <= b < M -> 0 <= c < M -> (a + b) mod M = (a + c) mod M -> b = c.
Proof using HM Hk.
  pose proof ring_M_pos. intros Hb Hc E.
  assert ((b - c) mod M = 0) as H0.
  { replace (b - c) with ((a + b) - (a + c)) by lia. rewrite Zminus_mod, E, Z.sub_diag. apply Z.mod_0_l. lia. }
  apply Z.mod_divide in H0 as [q Hq]; [|lia]. assert (q = 0) by nia. subst q. lia.
Qed.

(** Writing the slot after the last one leaves the other slots alone. *)
Lemma ring_write s v (n : nat) :
  ring_ok s -> let w := (sc_first s + sc_count s) mod M in
  Z.of_nat n < M -> Z.of_nat n <> sc_count s ->
  (sc_count s = M -> n <> 0%nat) ->
  <[Z.to_nat w := v]> (sc_data s) !!! Z.to_nat ((sc_first s + Z.of_nat n) mod M) =
  sc_at s ((sc_first s + Z.of_nat n) mod M).
Proof using HM Hk.
  pose proof ring_M_pos. intros (Hl & Hf & Hc & He) w Hn1 Hn2 Hn3.
  rewrite list_lookup_total_insert_ne; [done|]. intros E.
  pose proof (Z.mod_pos_bound (sc_first s + sc_count s) M).
  pose proof (Z.mod_pos_bound (sc_first s + Z.of_nat n) M).
  assert (w = (sc_first s + Z.of_nat n) mod M) as E' by (unfold w in *; lia). unfold w in E'.
  destruct (decide (sc_count s = M)) as [Em|Em].
  - specialize (Hn3 Em). rewrite Em, <-(Z.mod_add _ (-1) M) in E' by lia.
    replace (sc_first s + M + -1 * M) with (sc_first s + 0) in E' by lia.
    apply mod_sum_inj in E'; lia.
  - apply mod_sum_inj in E'; lia.
Qed.

Lemma ring_written s v :
  ring_ok s -> let w := (sc_first s + sc_count s) mod M in
  <[Z.to_nat w := v]> (sc_data s) !!! Z.to_nat w = v.
Proof using HM Hk.
  pose proof ring_M_pos. intros (Hl & Hf & Hc & He) w.
  pose proof (Z.mod_pos_bound (sc_first s + sc_count s) M).
  apply list_lookup_total_insert_eq. unfold w. lia.
Qed.

Lemma next_slot s : ring_ok s -> Z.land (sc_last s + 1) (M - 1) = (sc_first s + sc_count s) mod M.
Proof using HM Hk.
  pose proof ring_M_pos. intros (Hl & Hf & Hc & He).
  rewrite land_mod, He, Zplus_mod_idemp_l. f_equal. lia.
Qed.

(** The ring after the write, by whether it was full. *)
Lemma ring_grow s v :
  ring_ok s -> sc_count s < M ->
  let w := (sc_first s + sc_count s) mod M in
  let s' := mkSpeed (<[Z.to_nat w := v]> (sc_data s)) (sc_first s) w (sc_count s + 1) in
  ring_ok s' /\ ring_list s' = ring_list s ++ [v].
Proof using HM Hk.
  pose proof ring_M_pos. intros Hok Hlt w s'. pose proof Hok as (Hl & Hf & Hc & He). split.
  - unfold s', ring_ok; simpl. rewrite length_insert. split_and!; [done|lia|lia|lia|lia|].
    unfold w. f_equal. lia.
  - unfold ring_list at 1. simpl. replace (Z.to_nat (sc_count s + 1)) with (S (Z.to_nat (sc_count s))) by lia.
    rewrite seq_S, fmap_app. f_equal.
    + apply list_fmap_ext. intros i n Hi%lookup_seq. unfold sc_at at 1; simpl.
      apply ring_write; [done|lia|lia|lia].
    + simpl. unfold sc_at; simpl. rewrite Z2Nat.id by lia. by rewrite ring_written.
Qed.

Lemma ring_slide s v :
  ring_ok s -> sc_count s = M ->
  let w := (sc_first s + sc_count s) mod M in
  let s' := mkSpeed (<[Z.to_nat w := v]> (sc_data s)) ((sc_first s + 1) mod M) w M in
  ring_ok s' /\ ring_list s' = drop 1 (ring_list s ++ [v]).
Proof using HM Hk.
  pose proof ring_M_pos. intros Hok Heq w s'. pose proof Hok as (Hl & Hf & Hc & He). split.
  - unfold s', ring_ok; simpl. rewrite length_insert.
    pose proof (Z.mod_pos_bound (sc_first s + 1) M). split_and!; [done|lia|lia|lia|lia|].
    unfold w. rewrite Heq. replace ((sc_first s + 1) mod M + M - 1) with ((sc_first s + 1) mod M + (M - 1)) by lia.
    rewrite Zplus_mod_idemp_l. f_equal. lia.
  - unfold ring_list. cbn [sc_count sc_first s']. rewrite Heq.
    destruct (Z.to_nat M) as [|m] eqn:Em; [lia|].
    rewrite (seq_S m 0) at 1. rewrite fmap_app. cbn [seq fmap list_fmap app drop].
    rewrite drop_0, <-(fmap_S_seq 0 m), <-list_fmap_compose. f_equal.
    + apply list_fmap_ext. intros i n Hi%lookup_seq. simpl.
      rewrite Zplus_mod_idemp_l. replace (sc_first s + 1 + Z.of_nat n) with (sc_first s + Z.of_nat (S n)) by lia.
      unfold sc_at at 1. simpl sc_data. apply ring_write; [done|lia|lia|lia].
    + simpl. rewrite Zplus_mod_idemp_l.
      replace (sc_first s + 1 + Z.of_nat m) with (sc_first s + sc_count s) by lia.
      unfold sc_at; simpl. by rewrite ring_written.
Qed.

Lemma addSample_ok s size tick :
  ring_ok s ->
  ring_ok (addSample s size tick).2 /\
  ((addSample s size tick).1, ring_list (addSample s size tick).2) = q_add (ring_list s) size tick.
Proof using HM Hk.
  intros Hok. pose proof Hok as (Hl & Hf & Hc & He). pose proof ring_M_pos.
  unfold addSample, q_add. rewrite ring_last, length_ring by done.
  rewrite next_slot, land_mod by done.
  destruct (sc_count s =? 0) eqn:E0; cbn [negb andb];
    [|destruct (tick <? sm_tick (sc_at s (sc_last s)) + 1000) eqn:Et; [done|]]; zb;
    (destruct (M <? sc_count s + 1) eqn:Ec; zb; cbn [fst snd]; [|]).
  - lia.
  - destruct (ring_grow s (mkSample size tick) Hok ltac:(lia)) as [? ->].
    split; [done|]. by replace (S (Z.to_nat (sc_count s)) - Z.to_nat M)%nat with 0%nat by lia.
  - destruct (ring_slide s (mkSample size tick) Hok ltac:(lia)) as [? ->].
    split; [done|]. by replace (S (Z.to_nat (sc_count s)) - Z.to_nat M)%nat with 1%nat by lia.
  - destruct (ring_grow s (mkSample size tick) Hok ltac:(lia)) as [? ->].
    split; [done|]. by replace (S (Z.to_nat (sc_count s)) - Z.to_nat M)%nat with 0%nat by lia.
Qed.

Lemma getAverage_ok s minTime minSize :
  ring_ok s -> getAverage s minTime minSize = q_average (ring_list s) minTime minSize.
Proof using HM Hk.
  intros Hok. pose proof Hok as (Hl & Hf & Hc & He). unfold getAverage, q_average.
  rewrite ring_head, ring_last, length_ring by done.
  destruct (sc_count s =? 0) eqn:E0; zb; [by rewrite E0|].
  destruct (sc_count s <? 2) eqn:E2, (Z.to_nat (sc_count s) <? 2)%nat eqn:E2'; zb; try done.
  - apply Nat.ltb_ge in E2'. lia.
  - apply Nat.ltb_lt in E2'. lia.
Qed.
End Ring.

(** A run of [addSample] calls. *)
Definition add_all (M : Z) (s : SpeedCalc) (l : list (Z * Z)) : SpeedCalc :=
  foldl (fun s p => (addSample M s p.1 p.2).2) s l.
Definition q_add_all (M : Z) (q : list Sample) (l : list (Z * Z)) : list Sample :=
  foldl (fun q p => (q_add M q p.1 p.2).2) q l.

Lemma add_all_ok k s l :
  0 <= k -> ring_ok (2 ^ k) s ->
  ring_ok (2 ^ k) (add_all (2 ^ k) s l) /\ ring_list (2 ^ k) (add_all (2 ^ k) s l) = q_add_all (2 ^ k) (ring_list (2 ^ k) s) l.
Proof.
  intros Hk. revert s. induction l as [|[a b] l IH]; intros s Hs; [done|]. simpl.
  destruct (addSample_ok (2 ^ k) k eq_refl Hk s a b Hs) as [H1 H2].
  destruct (IH _ H1) as [H3 H4]. split; [done|]. rewrite H4. f_equal. by rewrite <-H2.
Qed.

(** The ring buffer refines a bounded queue: after [setStartTick] and any
    sequence of [addSample] calls, whatever the array held before, the ring holds the
    last [2^k] accepted samples in order (a sample less than a second after the
    last accepted one is refused), its indices stay inside the array, and [getAverage] is the speed
    between the oldest and the newest of them. *)
Theorem SpeedCalc_refines_queue (k : Z) (memory : list Sample) (tick : Z) (l : list (Z * Z)) (minTime minSize : Z)
  (Hk : 0 <= k) (Hm : Z.of_nat (length memory) = 2 ^ k) :
  let s := add_all (2 ^ k) (setStartTick (SpeedCalc_new (2 ^ k) memory) tick) l in
  let q := q_add_all (2 ^ k) [mkSample 0 tick] l in
  ring_ok (2 ^ k) s /\ ring_list (2 ^ k) s = q /\
  getAverage s minTime minSize = q_average q minTime minSize.
Proof.
  destruct (SpeedCalc_new_ok (2 ^ k) k eq_refl Hk memory Hm) as [H1 _].
  destruct (setStartTick_ok (2 ^ k) k eq_refl Hk _ tick H1) as [H2 H3].
  destruct (add_all_ok k _ l Hk H2) as [H4 H5]. rewrite H3 in H5. cbv zeta.
  split_and!; [done|done|]. rewrite <-H5. by apply (getAverage_ok (2 ^ k) k).
Qed.

Lemma SpeedCalc_refines_queue_witness :
  let s := add_all (2 ^ 1) (setStartTick (SpeedCalc_new (2 ^ 1) [mkSample 7 7; mkSample 8 8]) 0)
             [(100, 1000); (200, 1500); (5000, 2000)] in
  let q := q_add_all (2 ^ 1) [mkSample 0 0] [(100, 1000); (200, 1500); (5000, 2000)] in
  ring_ok (2 ^ 1) s /\ ring_list (2 ^ 1) s = q /\ getAverage s 2000 64 = q_average q 2000 64.
Proof.
  apply (SpeedCalc_refines_queue 1 [mkSample 7 7; mkSample 8 8] 0
    [(100, 1000); (200, 1500); (5000, 2000)] 2000 64); [lia|reflexivity].
Defined.
