(* ===== verification/Download.v ===== *)
(** * Flags, transfers and downloads: [client/Flags.h], [client/Transfer.h/.cpp],
    [client/Download.h/.cpp]

    A [Download] is shared ([DownloadPtr]) between a connection and the queue item
    it downloads for; the queue item reads its position and speed and may mark it
    overlapped or disconnect it.  Of the connection the model keeps the two fields a
    download uses: the speed remembered for the next download, and whether
    [disconnect] was called. *)

From S2P Require Import Prelude Segment SpeedCalc.

(** ** [template <typename T> class BaseFlags]; [w] is the width of [T] *)

Definition isSet (flags flag : Z) : bool := Z.land flags flag =? flag.
Definition isAnySet (flags flag : Z) : bool := negb (Z.land flags flag =? 0).
Definition setFlag (flags flag : Z) : Z := Z.lor flags flag.
Definition unsetFlag (w flags flag : Z) : Z := Z.land flags (wrap w (Z.lnot flag)).
Definition setFlag_value (w flags flag : Z) (value : bool) : Z :=
  if value then setFlag flags flag else unsetFlag w flags flag.

Lemma isSet_setFlag f g : isSet (setFlag f g) g = true.
Proof.
  unfold isSet, setFlag. apply Z.eqb_eq. rewrite Z.land_lor_distr_l, Z.land_diag.
  apply Z.bits_inj'. intros n Hn. rewrite Z.lor_spec, Z.land_spec. by destruct (Z.testbit f n), (Z.testbit g n).
Qed.

Lemma isAnySet_unsetFlag w f g : 0 <= g < 2 ^ w -> 0 <= w -> isAnySet (unsetFlag w f g) g = false.
Proof.
  intros Hg Hw. unfold isAnySet, unsetFlag, wrap. apply negb_false_iff, Z.eqb_eq.
  rewrite <-Z.land_ones by done. apply Z.bits_inj'. intros n Hn.
  rewrite Z.bits_0, !Z.land_spec, Z.lnot_spec by done. by destruct (Z.testbit f n), (Z.testbit g n), (Z.testbit (Z.ones w) n).
Qed.

(** ** [class Transfer] and [class Download] *)

Abbreviation UserPtr := positive.

Inductive TransferType := TYPE_FILE | TYPE_FULL_LIST | TYPE_PARTIAL_LIST | TYPE_TREE.

#[global] Instance TransferType_eq_dec : EqDecision TransferType.
Proof. solve_decision. Defined.

Definition FLAG_ZDOWNLOAD := 0x001.
Definition FLAG_CHUNKED := 0x002.
Definition FLAG_TTH_CHECK := 0x004.
Definition FLAG_DOWNLOAD_PARTIAL := 0x020.
Definition DL_FLAG_USER_CHECK := 0x080.
Definition DL_FLAG_RECURSIVE_LIST := 0x100.
Definition DL_FLAG_USER_GET_IP := 0x200.
Definition DL_FLAG_MATCH_QUEUE := 0x400.

Record Download := mkDownload {
  dl_user : UserPtr;
  dl_segment : Segment;
  dl_type : TransferType;
  dl_flags : Z;
  dl_pos : Z;
  dl_actual : Z;
  dl_startPos : Z;
  dl_fileSize : Z;
  dl_startTime : Z;
  dl_lastTick : Z;
  dl_runningAverage : Z;
  dl_speed : SpeedCalc;
  dl_isSecure : bool;
  dl_isTrusted : bool;
  dl_connSpeed : Z;
  dl_disconnected : bool
}.

Definition SPEED_SAMPLES : Z := 16.

Definition dl_set_pos (d : Download) (pos actual : Z) : Download :=
  mkDownload (dl_user d) (dl_segment d) (dl_type d) (dl_flags d) pos actual (dl_startPos d)
    (dl_fileSize d) (dl_startTime d) (dl_lastTick d) (dl_runningAverage d) (dl_speed d)
    (dl_isSecure d) (dl_isTrusted d) (dl_connSpeed d) (dl_disconnected d).

Definition resetPos (d : Download) : Download := dl_set_pos d 0 0.
Definition addPos (d : Download) (addPos addActual : Z) : Download :=
  dl_set_pos d (dl_pos d + addPos) (dl_actual d + addActual).

Definition setStartPos (d : Download) (value : Z) : Download :=
  mkDownload (dl_user d) (dl_segment d) (dl_type d) (dl_flags d) value (dl_actual d) value
    (dl_fileSize d) (dl_startTime d) (dl_lastTick d) (dl_runningAverage d) (dl_speed d)
    (dl_isSecure d) (dl_isTrusted d) (dl_connSpeed d) (dl_disconnected d).

Definition setOverlapped_dl (d : Download) (overlap : bool) : Download :=
  mkDownload (dl_user d) (setOverlapped_seg (dl_segment d) overlap) (dl_type d) (dl_flags d)
    (dl_pos d) (dl_actual d) (dl_startPos d)
    (dl_fileSize d) (dl_startTime d) (dl_lastTick d) (dl_runningAverage d) (dl_speed d)
    (dl_isSecure d) (dl_isTrusted d) (dl_connSpeed d) (dl_disconnected d).

Definition disconnect (d : Download) : Download :=
  mkDownload (dl_user d) (dl_segment d) (dl_type d) (dl_flags d)
    (dl_pos d) (dl_actual d) (dl_startPos d)
    (dl_fileSize d) (dl_startTime d) (dl_lastTick d) (dl_runningAverage d) (dl_speed d)
    (dl_isSecure d) (dl_isTrusted d) (dl_connSpeed d) true.

Definition setStartTime (d : Download) (tick : Z) : Download :=
  mkDownload (dl_user d) (dl_segment d) (dl_type d) (dl_flags d) (dl_pos d) (dl_actual d) (dl_startPos d)
    (dl_fileSize d) tick tick (dl_runningAverage d) (setStartTick (dl_speed d) tick)
    (dl_isSecure d) (dl_isTrusted d) (dl_connSpeed d) (dl_disconnected d).

(** [Download::updateSpeed]: the measured speed, remembered by the connection;
    until two seconds or 64 KiB have been measured, the remembered one. *)
Definition updateSpeed (d : Download) (currentTick : Z) : Download :=
  let speed := (addSample SPEED_SAMPLES (dl_speed d) (dl_actual d) currentTick).2 in
  let avg := getAverage speed 2000 (64 * 1024) in
  let '(runningAverage, connSpeed) :=
    if 0 <=? avg then (avg, avg) else (dl_connSpeed d, dl_connSpeed d) in
  mkDownload (dl_user d) (dl_segment d) (dl_type d) (dl_flags d) (dl_pos d) (dl_actual d) (dl_startPos d)
    (dl_fileSize d) (dl_startTime d) currentTick runningAverage speed
    (dl_isSecure d) (dl_isTrusted d) connSpeed (dl_disconnected d).

Definition getSecondsLeft (d : Download) (wholeFile : bool) : Z :=
  let avg := dl_runningAverage d in
  let bytesLeft := (if wholeFile then dl_fileSize d else getSize (dl_segment d)) - dl_pos d in
  if (0 <? bytesLeft) && (0 <? avg) then bytesLeft ÷ avg else 0.

(** [getSecondsLeft] never returns a negative time, and 0 for an idle or complete
    transfer. *)
Lemma getSecondsLeft_nonneg d w : 0 <= getSecondsLeft d w.
Proof.
  unfold getSecondsLeft. case_if; [|lia]. destruct (w : bool); apply Z.quot_pos; lia.
Qed.
