(* ===== verification/QueueItem.v ===== *)
(** * A file in the download queue: [client/QueueItem.h], [client/QueueItem.cpp]

    The record has the fields of the class in the source's three groups: the
    attributes ([csAttribs]), the segments ([csSegments]) and the sources
    ([QueueItem::g_cs]).  Every operation here runs under the lock of its group, so
    that an operation is one atomic step.  A [DownloadPtr] is a key into a store of
    [Download] objects shared with the connections; operations that reach through it
    take and return the store.

    The order in which an [unordered_map] is traversed is unspecified: [map_to_list]
    is the order used here, and no theorem depends on it.  Choosing the next block
    to download is in [NextSegment], the parts exchanged with other
    clients in [PartsInfo]. *)

From S2P Require Import Prelude Segment SegmentSet MerkleTree HashValue SpeedCalc Download.

Definition PFS_MIN_FILE_SIZE : Z := 20 * 1024 * 1024.
Definition DEFAULT_BLOCK_SIZE : Z := 64 * 1024.

Inductive Priority :=
  | DEFAULT | PAUSED | LOWEST | LOWER | LOW | NORMAL | HIGH | HIGHER | HIGHEST.

#[global] Instance Priority_eq_dec : EqDecision Priority.
Proof. solve_decision. Defined.

Definition FLAG_USER_LIST := 0x0001.
Definition FLAG_PARTIAL_LIST := 0x0002.
Definition FLAG_RECURSIVE_LIST := 0x0004.
Definition FLAG_USER_CHECK := 0x0008.
Definition FLAG_USER_GET_IP := 0x0010.
Definition FLAG_DCLST_LIST := 0x0020.
Definition FLAG_WANT_END := 0x0040.

Definition XFLAG_AUTO_PRIORITY := 0x0001.
Definition XFLAG_XML_BZLIST := 0x0008.

(** The results of [QueueManager::getNextL]. *)
Inductive NextError :=
  | SUCCESS | ERROR_NO_ITEM | ERROR_NO_NEEDED_PART | ERROR_FILE_SLOTS_TAKEN
  | ERROR_DOWNLOAD_SLOTS_TAKEN | ERROR_NO_FREE_BLOCK | ERROR_INVALID_CONNECTION.

Abbreviation DownloadPtr := positive.
Abbreviation Downloads := (gmap DownloadPtr Download).

(** [struct RunningSegment]. *)
Record RunningSegment := mkRunning { rs_seg : Segment; rs_d : option DownloadPtr }.

(** ** Sources *)

Record PartialSource := mkPartial {
  ps_parts : list Z;
  ps_nextQueryTime : Z;
  ps_udpPort : Z;
  ps_pendingQueryCount : Z;
  ps_blockSize : Z
}.

Definition PartialSource_isCandidate (ps : PartialSource) (now : Z) : bool :=
  negb (ps_udpPort ps =? 0) && (ps_nextQueryTime ps <=? now).

Record Source := mkSource { src_flags : Z; src_partial : option PartialSource }.

Definition SRC_FLAG_FILE_NOT_AVAILABLE := 0x001.
Definition SRC_FLAG_PASSIVE := 0x002.
Definition SRC_FLAG_REMOVED := 0x004.
Definition SRC_FLAG_BAD_TREE := 0x010.
Definition SRC_FLAG_SLOW_SOURCE := 0x020.
Definition SRC_FLAG_NO_TREE := 0x040.
Definition SRC_FLAG_PARTIAL := 0x100.
Definition SRC_FLAG_TTH_INCONSISTENCY := 0x200.
Definition SRC_FLAG_UNTRUSTED := 0x400.
Definition SRC_FLAG_MASK : Z :=
  foldr Z.lor 0 [SRC_FLAG_FILE_NOT_AVAILABLE; SRC_FLAG_PASSIVE; SRC_FLAG_REMOVED; SRC_FLAG_BAD_TREE;
                 SRC_FLAG_SLOW_SOURCE; SRC_FLAG_NO_TREE; SRC_FLAG_TTH_INCONSISTENCY; SRC_FLAG_UNTRUSTED].

Definition Source_new : Source := mkSource 0 None.

Definition Source_isCandidate (s : Source) (isBadSource : bool) : bool :=
  isSet (src_flags s) SRC_FLAG_PARTIAL &&
  (isBadSource || negb (isSet (src_flags s) SRC_FLAG_TTH_INCONSISTENCY)).

Abbreviation SourceMap := (gmap UserPtr Source).

(** ** The queue item *)

Record QueueItem := mkQI {
  qi_target : list Z;
  qi_size : Z;
  qi_added : Z;
  qi_flags : Z;
  qi_extraFlags : Z;
  qi_tthRoot : list Z;
  qi_blockSize : Z;
  qi_priority : Priority;
  qi_maxSegments : Z;
  qi_tempTarget : list Z;
  qi_downloads : list RunningSegment;
  qi_doneSegments : SegmentSet;
  qi_doneSegmentsSize : Z;
  qi_downloadedBytes : Z;
  qi_timeFileBegin : Z;
  qi_lastSize : Z;
  qi_averageSpeed : Z;
  qi_sourcesVersion : Z;
  qi_sources : SourceMap;
  qi_badSources : SourceMap;
  qi_prioQueue : Priority
}.

(** The three groups, each written as a whole. *)
Definition set_attribs (q : QueueItem) (size extraFlags blockSize : Z) (priority : Priority)
    (maxSegments : Z) (tempTarget : list Z) : QueueItem :=
  mkQI (qi_target q) size (qi_added q) (qi_flags q) extraFlags (qi_tthRoot q) blockSize priority
    maxSegments tempTarget (qi_downloads q) (qi_doneSegments q) (qi_doneSegmentsSize q)
    (qi_downloadedBytes q) (qi_timeFileBegin q) (qi_lastSize q) (qi_averageSpeed q)
    (qi_sourcesVersion q) (qi_sources q) (qi_badSources q) (qi_prioQueue q).

Definition set_segments (q : QueueItem) (downloads : list RunningSegment) (done : SegmentSet)
    (doneSize downloadedBytes averageSpeed : Z) : QueueItem :=
  mkQI (qi_target q) (qi_size q) (qi_added q) (qi_flags q) (qi_extraFlags q) (qi_tthRoot q)
    (qi_blockSize q) (qi_priority q) (qi_maxSegments q) (qi_tempTarget q) downloads done doneSize
    downloadedBytes (qi_timeFileBegin q) (qi_lastSize q) averageSpeed
    (qi_sourcesVersion q) (qi_sources q) (qi_badSources q) (qi_prioQueue q).

Definition set_sources (q : QueueItem) (version : Z) (sources badSources : SourceMap)
    (prioQueue : Priority) : QueueItem :=
  mkQI (qi_target q) (qi_size q) (qi_added q) (qi_flags q) (qi_extraFlags q) (qi_tthRoot q)
    (qi_blockSize q) (qi_priority q) (qi_maxSegments q) (qi_tempTarget q) (qi_downloads q)
    (qi_doneSegments q) (qi_doneSegmentsSize q) (qi_downloadedBytes q) (qi_timeFileBegin q)
    (qi_lastSize q) (qi_averageSpeed q) version sources badSources prioQueue.

(** *** Constructors *)

Definition QueueItem_new (target : list Z) (size : Z) (priority : Priority) (flags extraFlags added : Z)
    (tth : list Z) (maxSegments : Z) (tempTarget : list Z) : option QueueItem :=
  bs ← (if 0 <=? size then getMaxBlockSize size else Some DEFAULT_BLOCK_SIZE);
  Some (mkQI target size added flags extraFlags tth bs priority (Z.max 1 maxSegments) tempTarget
          [] [] 0 0 0 0 0 0 ∅ ∅ DEFAULT).

(** The constructor for items without a known root. *)
Definition QueueItem_new_list (target : list Z) (size : Z) (priority : Priority)
    (flags extraFlags added maxSegments : Z) (tempTarget : list Z) : option QueueItem :=
  QueueItem_new target size priority flags extraFlags added HashValue_zero maxSegments tempTarget.

(** The moving constructor: the item under the new target, and what is left of
    the source item. *)
Definition QueueItem_move (newTarget : list Z) (src : QueueItem) : QueueItem * QueueItem :=
  let keepTemp := negb (qi_downloadedBytes src =? 0) in
  (mkQI newTarget (qi_size src) (qi_added src) (qi_flags src) (qi_extraFlags src) (qi_tthRoot src)
     (qi_blockSize src) (qi_priority src) (qi_maxSegments src)
     (if keepTemp then qi_tempTarget src else []) (qi_downloads src) (qi_doneSegments src)
     (qi_doneSegmentsSize src) (qi_downloadedBytes src) (qi_timeFileBegin src) (qi_lastSize src)
     (qi_averageSpeed src) 0 (qi_sources src) (qi_badSources src) (qi_prioQueue src),
   mkQI (qi_target src) (qi_size src) (qi_added src) (qi_flags src) (qi_extraFlags src) (qi_tthRoot src)
     (qi_blockSize src) (qi_priority src) (qi_maxSegments src)
     (if keepTemp then [] else qi_tempTarget src) [] [] (qi_doneSegmentsSize src)
     (qi_downloadedBytes src) (qi_timeFileBegin src) (qi_lastSize src) (qi_averageSpeed src)
     (qi_sourcesVersion src) ∅ ∅ (qi_prioQueue src)).

(** *** Attributes *)

Definition isUserList (q : QueueItem) : bool :=
  negb (Z.land (qi_flags q) (Z.lor FLAG_USER_LIST (Z.lor FLAG_DCLST_LIST FLAG_USER_GET_IP)) =? 0).

Definition setExtraFlags (q : QueueItem) (flags : Z) : QueueItem :=
  set_attribs q (qi_size q) flags (qi_blockSize q) (qi_priority q) (qi_maxSegments q) (qi_tempTarget q).

(** [MaskType] is [uint16_t]. *)
Definition changeExtraFlags (q : QueueItem) (value mask : Z) : QueueItem :=
  setExtraFlags q (Z.lor (Z.land (qi_extraFlags q) (u16 (Z.lnot mask))) value).

Definition toggleExtraFlag (q : QueueItem) (flag : Z) : QueueItem :=
  setExtraFlags q (Z.lxor (qi_extraFlags q) flag).

Definition setPriorityL (q : QueueItem) (value : Priority) : QueueItem :=
  set_attribs q (qi_size q) (qi_extraFlags q) (qi_blockSize q) value (qi_maxSegments q) (qi_tempTarget q).

Definition setMaxSegmentsL (q : QueueItem) (value : Z) : QueueItem :=
  set_attribs q (qi_size q) (qi_extraFlags q) (qi_blockSize q) (qi_priority q) value (qi_tempTarget q).

Definition setSize_qi (q : QueueItem) (value : Z) : QueueItem :=
  set_attribs q value (qi_extraFlags q) (qi_blockSize q) (qi_priority q) (qi_maxSegments q) (qi_tempTarget q).

Definition setTempTargetL (q : QueueItem) (value : list Z) : QueueItem :=
  set_attribs q (qi_size q) (qi_extraFlags q) (qi_blockSize q) (qi_priority q) (qi_maxSegments q) value.

Definition updateBlockSize (q : QueueItem) (treeBlockSize : Z) : bool * QueueItem :=
  if qi_blockSize q <? treeBlockSize then
    (true, set_attribs q (qi_size q) (qi_extraFlags q) treeBlockSize (qi_priority q)
             (qi_maxSegments q) (qi_tempTarget q))
  else (false, q).

(** The division by [getSize()] is undefined for an empty file ([None]). *)
Definition calculateAutoPriorityL (q : QueueItem) : option Priority :=
  if negb (Z.land (qi_extraFlags q) XFLAG_AUTO_PRIORITY =? 0) then
    if qi_size q =? 0 then None
    else
      let percent := (qi_downloadedBytes q * 10) ÷ qi_size q in
      Some (if (0 <=? percent) && (percent <=? 2) then LOW
            else if (6 <=? percent) && (percent <=? 8) then HIGH
            else if (9 <=? percent) && (percent <=? 10) then HIGHER
            else NORMAL)
  else Some (qi_priority q).

(** The file name suffixes, as bytes: ".dctmp", ".xml", ".xml.bz2". *)
Definition dctmpExtension : list Z := [46; 100; 99; 116; 109; 112].
Definition xmlExtension : list Z := [46; 120; 109; 108].
Definition xmlBz2Extension : list Z := [46; 120; 109; 108; 46; 98; 122; 50].

Definition getDCTempName (fileName : list Z) (tth : option (list Z)) : option (list Z) :=
  match tth with
  | Some t => b ← HashValue_toBase32 t; Some (fileName ++ [46] ++ b ++ dctmpExtension)
  | None => Some (fileName ++ dctmpExtension)
  end.

Definition getListExt (q : QueueItem) : list Z :=
  if negb (Z.land (qi_extraFlags q) XFLAG_XML_BZLIST =? 0) then xmlBz2Extension
  else if negb (Z.land (qi_flags q) FLAG_DCLST_LIST =? 0) then []
  else xmlExtension.

(** *** Sources *)

Definition isSourceL (q : QueueItem) (user : UserPtr) : bool := bool_decide (is_Some (qi_sources q !! user)).
Definition isBadSourceL (q : QueueItem) (user : UserPtr) : bool := bool_decide (is_Some (qi_badSources q !! user)).

Definition isBadSourceExceptL (q : QueueItem) (user : UserPtr) (exceptions : Z) : bool :=
  match qi_badSources q !! user with
  | Some s => isAnySet (src_flags s) (u16 (Z.lxor exceptions SRC_FLAG_MASK))
  | None => false
  end.

Section Online.
Variable isOnline : UserPtr -> bool.

Definition online_users (q : QueueItem) : list UserPtr :=
  filter (fun u => isOnline u = true) (map_to_list (qi_sources q)).*1.

Definition getOnlineSourceCountL (q : QueueItem) : Z :=
  foldl (fun count u => if isOnline u then count + 1 else count) 0 (map_to_list (qi_sources q)).*1.

(** The loop of [hasOnlineSourcesL], which stops at the [count]-th online source. *)
Fixpoint hasOnline_loop (l : list UserPtr) (onlineCount count : Z) : bool :=
  match l with
  | [] => false
  | u :: r => if isOnline u then
                if onlineCount + 1 =? count then true else hasOnline_loop r (onlineCount + 1) count
              else hasOnline_loop r onlineCount count
  end.

Definition hasOnlineSourcesL (q : QueueItem) (count : Z) : bool :=
  if Z.of_nat (size (qi_sources q)) <? count then false
  else hasOnline_loop (map_to_list (qi_sources q)).*1 0 count.

Definition getOnlineUsers (q : QueueItem) (l : list UserPtr) : list UserPtr := l ++ online_users q.
End Online.

Definition getFirstSource (q : QueueItem) : option UserPtr := head (map_to_list (qi_sources q)).*1.

Definition addSourceL (q : QueueItem) (user : UserPtr) : QueueItem :=
  let '(ins, bad) :=
    match qi_badSources q !! user with
    | Some s => (s, delete user (qi_badSources q))
    | None => (Source_new, qi_badSources q)
    end in
  let sources := match qi_sources q !! user with
                 | Some _ => qi_sources q
                 | None => <[user := ins]> (qi_sources q)
                 end in
  set_sources q (u32 (qi_sourcesVersion q + 1)) sources bad (qi_prioQueue q).

Definition removeSourceL (q : QueueItem) (user : UserPtr) (reason : Z) : QueueItem :=
  match qi_sources q !! user with
  | Some s =>
      let s' := mkSource (setFlag (src_flags s) reason) (src_partial s) in
      let bad := match qi_badSources q !! user with
                 | Some _ => qi_badSources q
                 | None => <[user := s']> (qi_badSources q)
                 end in
      let sources := delete user (qi_sources q) in
      set_sources q (u32 (qi_sourcesVersion q + 1)) sources bad
        (if bool_decide (sources = ∅) then DEFAULT else qi_prioQueue q)
  | None => q
  end.

(** [SourceList] is a [flat_multiset] ordered by query time: [emplace] puts an
    item after the ones with the same time. *)
Record SourceListItem := mkSLI { sl_queryTime : Z; sl_user : UserPtr; sl_bad : bool }.

Fixpoint sl_emplace (x : SourceListItem) (l : list SourceListItem) : list SourceListItem :=
  match l with
  | [] => [x]
  | y :: r => if sl_queryTime x <? sl_queryTime y then x :: y :: r else y :: sl_emplace x r
  end.

Definition sl_add (now : Z) (maxCount : nat) (isBad : bool) (l : list SourceListItem)
    (j : UserPtr * Source) : list SourceListItem :=
  match src_partial j.2 with
  | Some ps =>
      if Source_isCandidate j.2 isBad && PartialSource_isCandidate ps now then
        let l' := sl_emplace (mkSLI (ps_nextQueryTime ps) j.1 isBad) l in
        if (maxCount <? length l')%nat then take (length l' - 1) l' else l'
      else l
  | None => l
  end.

Definition getPFSSourcesL (q : QueueItem) (l : list SourceListItem) (now : Z) (maxCount : nat) : list SourceListItem :=
  foldl (sl_add now maxCount true)
    (foldl (sl_add now maxCount false) l (map_to_list (qi_sources q)))
    (map_to_list (qi_badSources q)).

(** *** Segments *)

Definition resetDownloaded (q : QueueItem) : QueueItem :=
  set_segments q (qi_downloads q) [] 0 0 (qi_averageSpeed q).

Definition isFinished (q : QueueItem) : bool :=
  match qi_doneSegments q with
  | [s] => (getStart s =? 0) && (getSize s =? qi_size q)
  | _ => false
  end.

(** [isChunkDownloaded(startPos, len)]: the result and the new value of [len]. *)
Fixpoint chunk_in (l : SegmentSet) (startPos len : Z) : bool * Z :=
  match l with
  | [] => (false, len)
  | i :: r => if (getStart i <=? startPos) && (startPos <? getEnd i)
              then (true, Z.min len (getEnd i - startPos)) else chunk_in r startPos len
  end.

Definition isChunkDownloaded (q : QueueItem) (startPos len : Z) : bool * Z :=
  if len <=? 0 then (false, len) else chunk_in (qi_doneSegments q) startPos len.

Definition set_downloads (q : QueueItem) (l : list RunningSegment) : QueueItem :=
  set_segments q l (qi_doneSegments q) (qi_doneSegmentsSize q) (qi_downloadedBytes q) (qi_averageSpeed q).

(** [addDownload(const DownloadPtr&)], for a download that exists in the store. *)
Definition addDownload (h : Downloads) (q : QueueItem) (download : DownloadPtr) : option QueueItem :=
  d ← h !! download;
  Some (set_downloads q (qi_downloads q ++ [mkRunning (dl_segment d) (Some download)])).

Definition addDownload_seg (q : QueueItem) (seg : Segment) : QueueItem :=
  set_downloads q (qi_downloads q ++ [mkRunning seg None]).

Fixpoint set_download_in (l : list RunningSegment) (seg : Segment) (d : DownloadPtr) : option (list RunningSegment) :=
  match l with
  | [] => None
  | i :: r => if seg_eq (rs_seg i) seg then Some (mkRunning (rs_seg i) (Some d) :: r)
              else (cons i) <$> set_download_in r seg d
  end.

Definition setDownloadForSegment (q : QueueItem) (seg : Segment) (d : DownloadPtr) : bool * QueueItem :=
  match set_download_in (qi_downloads q) seg d with
  | Some l => (true, set_downloads q l)
  | None => (false, q)
  end.

(** Erase the first running segment that satisfies [p]. *)
Fixpoint erase_first (p : RunningSegment -> bool) (l : list RunningSegment) : option (list RunningSegment) :=
  match l with
  | [] => None
  | i :: r => if p i then Some r else (cons i) <$> erase_first p r
  end.

Definition rs_download (h : Downloads) (i : RunningSegment) : option Download := rs_d i ≫= (h !!.).

Definition removeDownload_user (h : Downloads) (q : QueueItem) (user : UserPtr) : bool * QueueItem :=
  match erase_first (fun i => match rs_download h i with
                              | Some d => (dl_user d =? user)%positive | None => false end) (qi_downloads q) with
  | Some l => (true, set_downloads q l)
  | None => (false, q)
  end.

Definition removeDownload_seg (q : QueueItem) (seg : Segment) : bool * QueueItem :=
  match erase_first (fun i => seg_eq (rs_seg i) seg) (qi_downloads q) with
  | Some l => (true, set_downloads q l)
  | None => (false, q)
  end.

Definition addSegment (q : QueueItem) (segment : Segment) : option QueueItem :=
  '(done, sz) ← addSegmentL (qi_doneSegments q) (qi_doneSegmentsSize q) segment;
  Some (set_segments q (qi_downloads q) done sz (qi_downloadedBytes q) (qi_averageSpeed q)).

Definition updateDownloadedBytes (q : QueueItem) : QueueItem :=
  set_segments q (qi_downloads q) (qi_doneSegments q) (qi_doneSegmentsSize q) (qi_doneSegmentsSize q)
    (qi_averageSpeed q).

Definition updateDownloadedBytesAndSpeed (h : Downloads) (q : QueueItem) : QueueItem :=
  let '(bytes, totalSpeed) :=
    foldl (fun acc i => match rs_download h i with
                        | Some d => (acc.1 + dl_pos d, acc.2 + dl_runningAverage d)
                        | None => acc
                        end) (qi_doneSegmentsSize q, 0) (qi_downloads q) in
  set_segments q (qi_downloads q) (qi_doneSegments q) (qi_doneSegmentsSize q) bytes totalSpeed.

(** *** Through the downloads *)

Fixpoint setOverlapped_in (l : list RunningSegment) (h : Downloads) (segment : Segment) (b : bool) : Downloads :=
  match l with
  | [] => h
  | i :: r =>
      match rs_d i with
      | Some p =>
          match h !! p with
          | Some d => if contains (dl_segment d) segment then <[p := setOverlapped_dl d b]> h
                      else setOverlapped_in r h segment b
          | None => setOverlapped_in r h segment b
          end
      | None => setOverlapped_in r h segment b
      end
  end.

Definition setOverlapped (h : Downloads) (q : QueueItem) (segment : Segment) (isOverlapped : bool) : Downloads :=
  setOverlapped_in (qi_downloads q) h segment isOverlapped.

Definition disconnectOthers (h : Downloads) (q : QueueItem) (download : DownloadPtr) : Downloads :=
  foldl (fun h i => match rs_d i with
                    | Some p => if (p =? download)%positive then h
                                else match h !! p with Some d => <[p := disconnect d]> h | None => h end
                    | None => h
                    end) h (qi_downloads q).

Fixpoint disconnectSlow_in (l : list RunningSegment) (h : Downloads) (download : DownloadPtr) (seg : Segment) : bool * Downloads :=
  match l with
  | [] => (false, h)
  | i :: r =>
      match rs_d i with
      | Some p =>
          match h !! p with
          | Some d => if negb (p =? download)%positive && contains (dl_segment d) seg then
                        if getSecondsLeft d false <? 10 then (false, h) else (true, <[p := disconnect d]> h)
                      else disconnectSlow_in r h download seg
          | None => disconnectSlow_in r h download seg
          end
      | None => disconnectSlow_in r h download seg
      end
  end.

Definition disconnectSlow (h : Downloads) (q : QueueItem) (download : DownloadPtr) : option (bool * Downloads) :=
  d ← h !! download; Some (disconnectSlow_in (qi_downloads q) h download (dl_segment d)).

Fixpoint multiple_in (h : Downloads) (l : list RunningSegment) (activeSegments : Z) : bool :=
  match l with
  | [] => false
  | i :: r =>
      match rs_download h i with
      | Some d => if 0 <? dl_startTime d then
                    if 1 <? activeSegments + 1 then true else multiple_in h r (activeSegments + 1)
                  else multiple_in h r activeSegments
      | None => multiple_in h r activeSegments
      end
  end.

Definition isMultipleSegments (h : Downloads) (q : QueueItem) : bool := multiple_in h (qi_downloads q) 0.

Definition getUsers (h : Downloads) (q : QueueItem) (users : list UserPtr) : list UserPtr :=
  users ++ omap (fun i => dl_user <$> rs_download h i) (qi_downloads q).

Definition TRANSFER_FLAG_DOWNLOAD := 0x001.
Definition TRANSFER_FLAG_PARTIAL := 0x002.
Definition TRANSFER_FLAG_TTH_CHECK := 0x004.
Definition TRANSFER_FLAG_COMPRESSED := 0x008.
Definition TRANSFER_FLAG_CHUNKED := 0x010.
Definition TRANSFER_FLAG_SECURE := 0x020.
Definition TRANSFER_FLAG_TRUSTED := 0x040.

Definition transfer_flags_of (d : Download) (flags : Z) : Z :=
  let flags := if isSet (dl_flags d) FLAG_DOWNLOAD_PARTIAL then Z.lor flags TRANSFER_FLAG_PARTIAL else flags in
  let flags := if dl_isSecure d then
                 let flags := Z.lor flags TRANSFER_FLAG_SECURE in
                 if dl_isTrusted d then Z.lor flags TRANSFER_FLAG_TRUSTED else flags
               else flags in
  let flags := if isSet (dl_flags d) FLAG_TTH_CHECK then Z.lor flags TRANSFER_FLAG_TTH_CHECK else flags in
  let flags := if isSet (dl_flags d) FLAG_ZDOWNLOAD then Z.lor flags TRANSFER_FLAG_COMPRESSED else flags in
  if isSet (dl_flags d) FLAG_CHUNKED then Z.lor flags TRANSFER_FLAG_CHUNKED else flags.

(** [getTransferFlags(flags)]: the number of active segments and the flags. *)
Definition getTransferFlags (h : Downloads) (q : QueueItem) : Z * Z :=
  foldl (fun acc i => match rs_download h i with
                      | Some d => if 0 <? dl_startTime d
                                  then (swrap 16 (acc.1 + 1), transfer_flags_of d acc.2) else acc
                      | None => acc
                      end) (0, TRANSFER_FLAG_DOWNLOAD) (qi_downloads q).

(** [struct SegmentEx] and [getChunksVisualisation]. *)
Record SegmentEx := mkSegEx { sx_start : Z; sx_end : Z; sx_pos : Z }.

Definition getChunksVisualisation (h : Downloads) (q : QueueItem) : list SegmentEx * list Segment :=
  ((fun i => mkSegEx (getStart (rs_seg i)) (getEnd (rs_seg i))
                     (match rs_download h i with Some d => dl_pos d | None => 0 end)) <$> qi_downloads q,
   qi_doneSegments q).

Definition isWaiting (q : QueueItem) : bool := bool_decide (qi_downloads q = []).
Definition isRunning (q : QueueItem) : bool := negb (isWaiting q).

(** ** Invariants *)

(** A segment of the file. *)
Definition in_file (size : Z) (s : Segment) : Prop := 0 <= getStart s /\ 0 < getSize s /\ getEnd s <= size.

#[global] Instance in_file_dec size s : Decision (in_file size s).
Proof. unfold in_file. apply _. Defined.

Definition segs_ok (q : QueueItem) : Prop :=
  gapped (qi_doneSegments q) /\ Forall (in_file (qi_size q)) (qi_doneSegments q) /\
  qi_doneSegmentsSize q = total_size (qi_doneSegments q).

Definition sources_ok (q : QueueItem) : Prop :=
  qi_sources q ##ₘ qi_badSources q /\ 0 <= qi_sourcesVersion q < 2 ^ 32.

Definition qi_inv (q : QueueItem) : Prop := segs_ok q /\ sources_ok q /\ 1 <= qi_maxSegments q.

(** *** Done segments *)

Lemma gapped_length n l : gapped l -> Forall (in_file n) l -> Z.of_nat (length l) <= Z.max 0 n.
Proof.
  intros Hg Hin. assert (Z.of_nat (length l) <= total_size l) as H.
  { destruct Hg as [_ Hp]. induction Hp as [|s l Hs _ IH]; simpl; [lia|]. apply Forall_cons in Hin as [_ Hin].
    specialize (IH Hin). lia. }
  destruct (decide (0 <= n)); [|destruct Hin as [|s l [? [? ?]] _]; [simpl; lia|unfold getEnd in *; lia]].
  pose proof (gapped_total_bound 0 n l Hg) as Hb.
  enough (total_size l <= n - 0) by lia. apply Hb; [|lia].
  eapply Forall_impl; [exact Hin|]. unfold in_file. intros s ?. lia.
Qed.

Lemma consolidated_in_file n l : Forall (in_file n) l -> fs_sorted l -> Forall (in_file n) (consolidated l).
Proof.
  intros Hin Hs%fs_sorted_starts. destruct l as [|p l]; [done|]. simpl.
  apply StronglySorted_inv in Hs as [Hs Hp]. apply Forall_cons in Hin as [Hp0 Hin].
  revert p Hp Hp0. induction l as [|c l IH]; intros p Hp Hp0; simpl; [by constructor|].
  apply StronglySorted_inv in Hs as [Hs Hc]. apply Forall_cons in Hin as [Hc0 Hin].
  apply Forall_cons in Hp as [Hpc Hp]. case_if.
  - apply IH; [done|done| |].
    + eapply Forall_impl; [exact Hp|]. done.
    + unfold in_file, hull in *. seg_unfold. lia.
  - constructor; [done|]. by apply IH.
Qed.

Lemma fs_insert_Forall (P : Segment -> Prop) s l :
  fs_sorted l -> P s -> Forall P l -> Forall P (fst (fs_insert s l)).
Proof.
  intros Hs Hp Hl. destruct (fs_insert_cases s l Hs) as [(l1 & l2 & -> & _ & _ & ->)|(y & _ & _ & ->)]; [|done].
  apply Forall_app in Hl as [? ?]. apply Forall_app. split; [done|]. by constructor.
Qed.

(** [addSegment] on a valid item: it returns, and its result. *)
Lemma addSegment_run q s :
  segs_ok q -> in_file (qi_size q) s -> qi_size q < 2 ^ 63 ->
  addSegment q s =
  let l := fst (fs_insert s (qi_doneSegments q)) in
  Some (set_segments q (qi_downloads q) (consolidated l)
     (total_size (consolidated l) + (total_size (qi_doneSegments q) + getSize s - total_size l))
     (qi_downloadedBytes q) (qi_averageSpeed q)).
Proof.
  intros (Hg & Hin & Hsz) Hs Hlt. unfold addSegment.
  rewrite addSegmentL_eq; [|by apply gapped_fs_sorted|].
  - rewrite option_bind_Some_eq, Hsz. cbv zeta. do 2 f_equal. lia.
  - pose proof (gapped_length _ _ Hg Hin). lia.
Qed.

Lemma addSegment_done q s :
  segs_ok q -> in_file (qi_size q) s ->
  gapped (consolidated (fst (fs_insert s (qi_doneSegments q)))) /\
  Forall (in_file (qi_size q)) (consolidated (fst (fs_insert s (qi_doneSegments q)))) /\
  forall x, covered x (consolidated (fst (fs_insert s (qi_doneSegments q)))) <->
            covered x (qi_doneSegments q) \/ seg_in x s.
Proof.
  intros (Hg & Hin & Hsz) Hs. pose proof (gapped_fs_sorted _ Hg) as Hfs.
  pose proof (fs_insert_sorted s _ Hfs) as Hfs'.
  assert (Forall (in_file (qi_size q)) (fst (fs_insert s (qi_doneSegments q)))) as Hin' by (by apply fs_insert_Forall).
  split_and!.
  - apply gapped_consolidated; [done|]. eapply Forall_impl; [exact Hin'|]. by intros t (_ & ? & _).
  - by apply consolidated_in_file.
  - intros x. by rewrite covered_consolidated, covered_fs_insert by done.
Qed.

Lemma total_size_insert s l :
  fs_sorted l -> (forall t, t ∈ l -> seg_eq s t = false) ->
  total_size (fst (fs_insert s l)) = total_size l + getSize s.
Proof.
  intros Hs Hno. destruct (fs_insert_cases s l Hs) as [(l1 & l2 & -> & _ & _ & ->)|(y & Hy & He & _)].
  - rewrite !total_size_app. simpl. lia.
  - by rewrite (Hno y Hy) in He.
Qed.

Lemma addSegment_ok q s :
  segs_ok q -> in_file (qi_size q) s -> qi_size q < 2 ^ 63 ->
  (forall t, t ∈ qi_doneSegments q -> seg_eq s t = false) ->
  exists q', addSegment q s = Some q' /\ segs_ok q' /\
    (forall x, covered x (qi_doneSegments q') <-> covered x (qi_doneSegments q) \/ seg_in x s) /\
    q' = set_segments q (qi_downloads q) (qi_doneSegments q') (qi_doneSegmentsSize q')
           (qi_downloadedBytes q) (qi_averageSpeed q).
Proof.
  intros Hok Hs Hlt Hno. rewrite addSegment_run by done. cbv zeta. eexists. split; [done|].
  destruct (addSegment_done q s Hok Hs) as (H1 & H2 & H3). destruct Hok as (Hg & _ & _).
  rewrite total_size_insert by (try apply gapped_fs_sorted; done).
  unfold segs_ok; cbn [qi_doneSegments qi_doneSegmentsSize qi_size set_segments].
  split_and!; [done|done|lia|done|done].
Qed.

(** C11.  Completing a segment: for a segment of the file that is not already one of
    the done segments, [addSegment] returns; the done segments are again disjoint,
    non-adjacent, increasing and inside the file, the bytes covered are the old
    ones and the segment's, [doneSegmentsSize] is the number of bytes covered, and
    no other field changes. *)
Theorem addSegment_correct (q : QueueItem) (s : Segment)
  (Hok : segs_ok q) (Hs : in_file (qi_size q) s) (Hsize : qi_size q < 2 ^ 63)
  (Hno : forall t, t ∈ qi_doneSegments q -> seg_eq s t = false) :
  exists q', addSegment q s = Some q' /\ segs_ok q' /\
    (forall x, covered x (qi_doneSegments q') <-> covered x (qi_doneSegments q) \/ seg_in x s) /\
    q' = set_segments q (qi_downloads q) (qi_doneSegments q') (qi_doneSegmentsSize q')
           (qi_downloadedBytes q) (qi_averageSpeed q).
Proof. by apply addSegment_ok. Qed.

(** An item of 300000 bytes with two done segments. *)
Definition sample_qi : QueueItem :=
  mkQI [] 300000 0 0 0 [] 65536 NORMAL 4 [] [] [mkSeg 0 65536; mkSeg 131072 65536] 131072 0 0 0 0 0 ∅ ∅ DEFAULT.

Lemma sample_qi_ok : segs_ok sample_qi.
Proof.
  unfold segs_ok, gapped, sample_qi. cbn [qi_doneSegments qi_size].
  split_and!; [| | |reflexivity]; repeat (apply SSorted_nil || apply SSorted_cons || apply Forall_nil_2 || apply Forall_cons_2);
    unfold in_file; seg_unfold; lia.
Qed.

Lemma addSegment_correct_witness :
  exists q', addSegment sample_qi (mkSeg 65536 65536) = Some q' /\ segs_ok q' /\
    (forall x, covered x (qi_doneSegments q') <->
       covered x (qi_doneSegments sample_qi) \/ seg_in x (mkSeg 65536 65536)) /\
    q' = set_segments sample_qi (qi_downloads sample_qi) (qi_doneSegments q') (qi_doneSegmentsSize q')
           (qi_downloadedBytes sample_qi) (qi_averageSpeed sample_qi).
Proof.
  apply (addSegment_correct sample_qi (mkSeg 65536 65536)); [apply sample_qi_ok| |reflexivity|].
  - unfold in_file, getEnd. simpl. lia.
  - intros t Ht. apply elem_of_cons in Ht as [->|[->|Ht%not_elem_of_nil]%elem_of_cons]; done.
Defined.

(** Adding a segment that is already a done segment leaves the set as it is but
    still adds its size to [doneSegmentsSize], which then exceeds the number of
    bytes covered. *)
Theorem addSegment_duplicate (q : QueueItem) (s : Segment)
  (Hok : segs_ok q) (Hs : in_file (qi_size q) s) (Hsize : qi_size q < 2 ^ 63)
  (Hin : s ∈ qi_doneSegments q) :
  exists q', addSegment q s = Some q' /\ qi_doneSegments q' = qi_doneSegments q /\
    qi_doneSegmentsSize q' = total_size (qi_doneSegments q') + getSize s.
Proof.
  rewrite addSegment_run by done. cbv zeta. eexists. split; [done|]. destruct Hok as (Hg & _ & Hsz).
  pose proof (gapped_fs_sorted _ Hg) as Hfs.
  assert (fst (fs_insert s (qi_doneSegments q)) = qi_doneSegments q) as ->.
  { destruct (fs_insert_cases s _ Hfs) as [(l1 & l2 & Hl & H1 & H2 & _)|(y & _ & _ & ->)]; [|done].
    exfalso. rewrite Hl in Hin. rewrite Forall_forall in H1, H2.
    apply elem_of_app in Hin as [Hi|Hi]; [specialize (H1 _ Hi)|specialize (H2 _ Hi)];
      by rewrite seg_lt_irrefl in *. }
  rewrite (gapped_consolidated_id _ Hg). simpl. split; [done|]. lia.
Qed.

Lemma addSegment_duplicate_witness :
  exists q', addSegment sample_qi (mkSeg 0 65536) = Some q' /\
    qi_doneSegments q' = qi_doneSegments sample_qi /\
    qi_doneSegmentsSize q' = total_size (qi_doneSegments q') + getSize (mkSeg 0 65536).
Proof.
  apply (addSegment_duplicate sample_qi (mkSeg 0 65536)); [apply sample_qi_ok| |reflexivity|].
  - unfold in_file, getEnd. simpl. lia.
  - left.
Defined.

Lemma isFinished_iff q :
  segs_ok q -> 0 < qi_size q ->
  (isFinished q = true <-> forall x, 0 <= x < qi_size q -> covered x (qi_doneSegments q)) /\
  (isFinished q = true <-> qi_doneSegmentsSize q = qi_size q).
Proof.
  intros Hok Hsize. destruct Hok as (Hg & Hin & Hsz).
  assert (Forall (fun s => 0 <= getStart s /\ getEnd s <= qi_size q) (qi_doneSegments q)) as Hin'.
  { eapply Forall_impl; [exact Hin|]. unfold in_file. intros s ?. lia. }
  assert (isFinished q = true -> exists s, qi_doneSegments q = [s] /\ getStart s = 0 /\ getSize s = qi_size q) as H1.
  { unfold isFinished. destruct (qi_doneSegments q) as [|s [|t l]]; try done. intros [? ?]%andb_prop. zb. eauto. }
  assert (total_size (qi_doneSegments q) = qi_size q -> isFinished q = true) as H2.
  { intros Ht. destruct (gapped_total_full _ _ Hg Hin' Hsize Ht) as (s & Hs & H0 & Hn).
    unfold isFinished. by rewrite Hs, H0, Hn, !Z.eqb_refl. }
  split; split.
  - intros (s & -> & H0 & Hn)%H1 x Hx. apply Exists_cons_hd. seg_unfold. lia.
  - intros Hc. by apply H2, gapped_cover_full.
  - intros (s & Hs & H0 & Hn)%H1. rewrite Hsz, Hs. simpl. lia.
  - rewrite Hsz. apply H2.
Qed.

(** The completion test: for a file with a valid set of done segments,
    [isFinished] holds exactly when every byte of the file is covered, and exactly
    when [doneSegmentsSize] is the size of the file. *)
Theorem isFinished_spec (q : QueueItem) (Hok : segs_ok q) (Hsize : 0 < qi_size q) :
  (isFinished q = true <-> forall x, 0 <= x < qi_size q -> covered x (qi_doneSegments q)) /\
  (isFinished q = true <-> qi_doneSegmentsSize q = qi_size q).
Proof. by apply isFinished_iff. Qed.

Lemma isFinished_spec_witness :
  (isFinished sample_qi = true <->
     forall x, 0 <= x < qi_size sample_qi -> covered x (qi_doneSegments sample_qi)) /\
  (isFinished sample_qi = true <-> qi_doneSegmentsSize sample_qi = qi_size sample_qi).
Proof. apply (isFinished_spec sample_qi); [apply sample_qi_ok|reflexivity]. Defined.


(** *** Serving what has been downloaded *)

Lemma chunk_in_spec l startPos len :
  gapped l -> 0 < len ->
  match chunk_in l startPos len with
  | (true, n) => 0 < n <= len /\ (forall x, startPos <= x < startPos + n -> covered x l) /\
                 (n = len \/ ~ covered (startPos + n) l)
  | (false, n) => n = len /\ ~ covered startPos l
  end.
Proof.
  intros Hg Hlen. induction l as [|s l IH]; simpl.
  - split; [done|]. intros H%Exists_nil. done.
  - apply gapped_cons_inv in Hg as (Hg & Hs & Hl). rewrite Forall_forall in Hl.
    assert (forall x, covered x l -> getEnd s < x) as Hlt.
    { intros x (t & Ht & Hx)%Exists_exists. specialize (Hl t Ht). seg_unfold. lia. }
    case_if.
    + split_and!; [lia|lia| |].
      * intros x Hx. apply covered_cons. left. seg_unfold. lia.
      * destruct (decide (len <= getEnd s - startPos)); [left; lia|right].
        rewrite Z.min_r by lia. replace (startPos + (getEnd s - startPos)) with (getEnd s) by lia.
        rewrite covered_cons. intros [H1|H1%Hlt]; seg_unfold; lia.
    + specialize (IH Hg).
      assert (~ seg_in startPos s) as Hns by (seg_unfold; lia).
      destruct (chunk_in l startPos len) as [[] n]; setoid_rewrite covered_cons.
      * destruct IH as (H1 & H2 & H3). split_and!; [lia|lia|by auto|].
        destruct H3 as [H3|H3]; [by left|right]. intros [H4|H4]; [|done].
        pose proof (Hlt startPos (H2 startPos ltac:(lia))). seg_unfold. lia.
      * destruct IH as [-> H1]. split; [done|]. tauto.
Qed.

(** Uploading from a partial file: [isChunkDownloaded] answers whether the byte at
    [startPos] has been downloaded, and the length it returns is the longest, up to the
    one asked for, all of whose bytes have been. *)
Theorem isChunkDownloaded_spec (q : QueueItem) (startPos len : Z) (Hok : segs_ok q) (Hlen : 0 < len) :
  match isChunkDownloaded q startPos len with
  | (true, n) => 0 < n <= len /\ (forall x, startPos <= x < startPos + n -> covered x (qi_doneSegments q)) /\
                 (n = len \/ ~ covered (startPos + n) (qi_doneSegments q))
  | (false, n) => n = len /\ ~ covered startPos (qi_doneSegments q)
  end.
Proof.
  unfold isChunkDownloaded. destruct (len <=? 0) eqn:E; zb; [lia|].
  destruct Hok as (Hg & _). by apply chunk_in_spec.
Qed.

Lemma isChunkDownloaded_spec_witness :
  match isChunkDownloaded sample_qi 65000 100000 with
  | (true, n) => 0 < n <= 100000 /\ (forall x, 65000 <= x < 65000 + n -> covered x (qi_doneSegments sample_qi)) /\
                 (n = 100000 \/ ~ covered (65000 + n) (qi_doneSegments sample_qi))
  | (false, n) => n = 100000 /\ ~ covered 65000 (qi_doneSegments sample_qi)
  end.
Proof. apply (isChunkDownloaded_spec sample_qi 65000 100000); [apply sample_qi_ok|lia]. Defined.

(** *** Sources *)

Lemma addSourceL_sources q user u :
  sources_ok q ->
  qi_sources (addSourceL q user) !! u =
    (if bool_decide (u = user) then
       match qi_sources q !! u with Some s => Some s
       | None => Some (default Source_new (qi_badSources q !! u)) end
     else qi_sources q !! u) /\
  qi_badSources (addSourceL q user) !! u = if bool_decide (u = user) then None else qi_badSources q !! u.
Proof.
  intros [Hd _]. unfold addSourceL.
  destruct (qi_badSources q !! user) as [s|] eqn:Eb; destruct (qi_sources q !! user) as [s'|] eqn:Es; simpl;
    case_bool_decide as E; subst; rewrite ?Es, ?Eb, ?lookup_insert_eq, ?lookup_delete_eq; try done;
    rewrite ?lookup_insert_ne, ?lookup_delete_ne by done; done.
Qed.

Lemma addSourceL_ok q user : sources_ok q -> sources_ok (addSourceL q user).
Proof.
  intros Hok. split.
  - apply map_disjoint_spec. intros u s t H1 H2.
    destruct (addSourceL_sources q user u Hok) as [E1 E2]. rewrite E1 in H1. rewrite E2 in H2.
    case_bool_decide; [done|]. destruct Hok as [Hd _]. by eapply map_disjoint_spec.
  - unfold addSourceL. destruct (qi_badSources q !! user); apply Z.mod_pos_bound; lia.
Qed.

Lemma removeSourceL_ok q user r : sources_ok q -> sources_ok (removeSourceL q user r).
Proof.
  intros Hok. pose proof Hok as [Hd Hv]. unfold removeSourceL.
  destruct (qi_sources q !! user) as [s|] eqn:Es; [|done].
  assert (qi_badSources q !! user = None) as Eb by (by eapply map_disjoint_Some_l).
  rewrite Eb. split; simpl; [|apply Z.mod_pos_bound; lia].
  apply map_disjoint_insert_r. split; [apply lookup_delete_eq|].
  apply map_disjoint_delete_l. done.
Qed.

(** Sources come and go without losing what is known about them: a source
    removed for a reason is a bad source with the flag set and nothing else
    changed, adding it again makes it a source with the same flags and parts, and a user
    is never both; the other users' entries are untouched. *)
Theorem source_roundtrip (q : QueueItem) (user : UserPtr) (reason : Z) (s : Source)
  (Hok : sources_ok q) (Hs : qi_sources q !! user = Some s) :
  let q1 := removeSourceL q user reason in
  let q2 := addSourceL q1 user in
  let s' := mkSource (setFlag (src_flags s) reason) (src_partial s) in
  qi_badSources q1 !! user = Some s' /\ qi_sources q1 !! user = None /\
  qi_sources q2 = <[user := s']> (qi_sources q) /\ qi_badSources q2 = qi_badSources q /\
  sources_ok q1 /\ sources_ok q2.
Proof.
  cbv zeta. pose proof Hok as [Hd _].
  assert (qi_badSources q !! user = None) as Eb by (by eapply map_disjoint_Some_l).
  assert (sources_ok (removeSourceL q user reason)) as Hok1 by (by apply removeSourceL_ok).
  assert (sources_ok (addSourceL (removeSourceL q user reason) user)) as Hok2 by (by apply addSourceL_ok).
  revert Hok1 Hok2. unfold removeSourceL. rewrite Hs, Eb. intros Hok1 Hok2. revert Hok2.
  unfold addSourceL. simpl. rewrite lookup_insert_eq, lookup_delete_eq. simpl. intros Hok2.
  split_and!; [done|done| | |done|done].
  - apply insert_delete_eq.
  - by apply delete_insert_id.
Qed.

Definition sample_sources : QueueItem :=
  set_sources sample_qi 7 (<[1%positive := mkSource 0x100 None]> ∅) ∅ NORMAL.

Lemma source_roundtrip_witness :
  let q := sample_sources in
  let q1 := removeSourceL q 1%positive SRC_FLAG_BAD_TREE in
  let q2 := addSourceL q1 1%positive in
  let s' := mkSource (setFlag 0x100 SRC_FLAG_BAD_TREE) None in
  qi_badSources q1 !! 1%positive = Some s' /\ qi_sources q1 !! 1%positive = None /\
  qi_sources q2 = <[1%positive := s']> (qi_sources q) /\ qi_badSources q2 = qi_badSources q /\
  sources_ok q1 /\ sources_ok q2.
Proof.
  apply (source_roundtrip sample_sources 1%positive SRC_FLAG_BAD_TREE (mkSource 0x100 None));
    [|reflexivity].
  split; [apply map_disjoint_empty_r|simpl; lia].
Defined.

(** *** Counting online sources *)

Section OnlineFacts.
Variable isOnline : UserPtr -> bool.

Lemma online_count_acc l c :
  foldl (fun count u => if isOnline u then count + 1 else count) c l =
  c + Z.of_nat (length (filter (fun u => isOnline u = true) l)).
Proof.
  revert c. induction l as [|u l IH]; intros c; simpl; [lia|]. rewrite IH, filter_cons.
  destruct (isOnline u); simpl; lia.
Qed.

Lemma hasOnline_loop_spec l c n :
  c < n -> hasOnline_loop isOnline l c n = (n - c <=? Z.of_nat (length (filter (fun u => isOnline u = true) l))).
Proof.
  revert c. induction l as [|u l IH]; intros c Hc; simpl; [symmetry; apply Z.leb_gt; lia|].
  rewrite filter_cons. destruct (isOnline u) eqn:Eu; simpl.
  - case_if; [symmetry; apply Z.leb_le; lia|].
    rewrite IH by lia. destruct (Z.leb_spec (n - (c + 1)) (Z.of_nat (length (filter (fun u => isOnline u = true) l))));
      symmetry; [apply Z.leb_le|apply Z.leb_gt]; lia.
  - by apply IH.
Qed.

(** The count starts at 0, so a count that is not positive is never reached. *)
Lemma hasOnline_loop_negative l c n : n <= c -> hasOnline_loop isOnline l c n = false.
Proof.
  revert c. induction l as [|u l IH]; intros c Hc; simpl; [done|]. destruct (isOnline u); [|by apply IH].
  case_if; [lia|]. apply IH. lia.
Qed.

Lemma hasOnlineSourcesL_count q n : 0 < n ->
  hasOnlineSourcesL isOnline q n = (n <=? Z.of_nat (length (filter (fun u => isOnline u = true) (map_to_list (qi_sources q)).*1))).
Proof.
  intros Hn. unfold hasOnlineSourcesL.
  pose proof (length_filter (fun u => isOnline u = true) (map_to_list (qi_sources q)).*1) as Hle.
  rewrite length_fmap, length_map_to_list in Hle. case_if.
  - symmetry. apply Z.leb_gt. lia.
  - rewrite hasOnline_loop_spec by done. by rewrite Z.sub_0_r.
Qed.
End OnlineFacts.

(** The early-exit test agrees with the count: for a positive [count],
    [hasOnlineSourcesL(count)] holds exactly when [getOnlineSourceCountL()] is at
    least [count]. *)
Theorem hasOnlineSourcesL_spec (isOnline : UserPtr -> bool) (q : QueueItem) (count : Z) (Hc : 0 < count) :
  hasOnlineSourcesL isOnline q count = (count <=? getOnlineSourceCountL isOnline q).
Proof.
  unfold getOnlineSourceCountL. rewrite online_count_acc, Z.add_0_l. by apply hasOnlineSourcesL_count.
Qed.

Lemma hasOnlineSourcesL_spec_witness :
  hasOnlineSourcesL (fun _ => true) sample_sources 1 = (1 <=? getOnlineSourceCountL (fun _ => true) sample_sources).
Proof. apply (hasOnlineSourcesL_spec (fun _ => true) sample_sources 1). lia. Defined.

(** *** Partial sources to query *)

Abbreviation sl_le := (fun x y => sl_queryTime x <= sl_queryTime y).

Lemma sl_emplace_perm x l : sl_emplace x l ≡ₚ x :: l.
Proof.
  induction l as [|y l IH]; simpl; [done|]. case_if; [done|]. rewrite IH. apply Permutation_swap.
Qed.

Lemma sl_emplace_sorted x l : StronglySorted sl_le l -> StronglySorted sl_le (sl_emplace x l).
Proof.
  induction 1 as [|y l Hs IH Hy]; simpl; [by repeat constructor|]. case_if.
  - constructor; [by constructor|]. constructor; [lia|]. eapply Forall_impl; [exact Hy|]. simpl. lia.
  - constructor; [done|]. rewrite sl_emplace_perm. by constructor.
Qed.

(** What a map of sources contributes, in order. *)
Definition candidates (now : Z) (isBad : bool) (m : SourceMap) : list SourceListItem :=
  omap (fun j => match src_partial j.2 with
                 | Some ps => if Source_isCandidate j.2 isBad && PartialSource_isCandidate ps now
                              then Some (mkSLI (ps_nextQueryTime ps) j.1 isBad) else None
                 | None => None
                 end) (map_to_list m).

(** All candidates, sorted by query time. *)
Definition sl_sort (l xs : list SourceListItem) : list SourceListItem := foldl (fun l x => sl_emplace x l) l xs.

Lemma sl_sort_ok xs l :
  StronglySorted sl_le l -> StronglySorted sl_le (sl_sort l xs) /\ sl_sort l xs ≡ₚ l ++ xs.
Proof.
  revert l. induction xs as [|x xs IH]; intros l Hl; simpl; [by rewrite app_nil_r|].
  destruct (IH _ (sl_emplace_sorted x l Hl)) as [H1 H2]. split; [done|].
  unfold sl_sort in H2. rewrite H2, sl_emplace_perm. apply Permutation_middle.
Qed.

(** The first [n] items after an insertion depend only on the first [n] before it. *)
Lemma take_sl_emplace n x l : take n (sl_emplace x (take n l)) = take n (sl_emplace x l).
Proof.
  revert n. induction l as [|y l IH]; intros n; [by rewrite take_nil|].
  destruct n as [|n]; [done|]. simpl. destruct (sl_queryTime x <? sl_queryTime y).
  - simpl. f_equal. destruct n as [|n]; [done|]. simpl. f_equal. rewrite take_take. f_equal. lia.
  - simpl. by rewrite IH.
Qed.

Lemma take_sl_sort n xs l : take n (sl_sort (take n l) xs) = take n (sl_sort l xs).
Proof.
  revert l. induction xs as [|x xs IH]; intros l; simpl; [rewrite take_take; f_equal; lia|].
  by rewrite <-(IH (sl_emplace x l)), <-(take_sl_emplace n x l), IH.
Qed.

Lemma sl_add_all now n isBad m l :
  (length l <= n)%nat ->
  foldl (sl_add now n isBad) l (map_to_list m) = take n (sl_sort l (candidates now isBad m)).
Proof.
  unfold candidates, sl_sort. set (xs := map_to_list m). clearbody xs. intros Hl.
  rewrite <-(take_ge l n) at 1 by done. clear Hl. revert l.
  induction xs as [|[u s] xs IH]; intros l; [done|]. simpl.
  unfold sl_add at 2. simpl. destruct (src_partial s) as [ps|]; [|apply IH].
  destruct (Source_isCandidate s isBad && PartialSource_isCandidate ps now); [|apply IH].
  simpl. rewrite <-IH. f_equal. rewrite <-(take_sl_emplace n _ l).
  set (x := mkSLI _ _ _). set (l' := sl_emplace x (take n l)).
  assert (length l' <= S n)%nat as Hl.
  { unfold l'. rewrite sl_emplace_perm. simpl. rewrite length_take. lia. }
  clearbody l'. destruct (Nat.ltb_spec n (length l')) as [Hn|Hn]; [f_equal; lia|]. symmetry. by apply take_ge.
Qed.

(** [getPFSSourcesL] returns the candidates with the smallest query times: the
    first [maxCount] of the list of all of them sorted by query time. *)
Theorem getPFSSourcesL_spec (q : QueueItem) (now : Z) (maxCount : nat) :
  exists l, StronglySorted sl_le l /\
    l ≡ₚ candidates now false (qi_sources q) ++ candidates now true (qi_badSources q) /\
    getPFSSourcesL q [] now maxCount = take maxCount l.
Proof.
  unfold getPFSSourcesL. rewrite (sl_add_all now maxCount false _ []) by (simpl; lia).
  rewrite sl_add_all by (rewrite length_take; lia).
  set (a := sl_sort [] (candidates now false (qi_sources q))).
  set (b := candidates now true (qi_badSources q)).
  destruct (sl_sort_ok (candidates now false (qi_sources q)) []) as [Hs Hp]; [constructor|]. fold a in Hs, Hp.
  destruct (sl_sort_ok b a Hs) as [Hs' Hp']. exists (sl_sort a b). split_and!; [done| |].
  - by rewrite Hp', Hp.
  - apply take_sl_sort.
Qed.

(** *** The item as a state machine

    Every operation that changes an item, as a download uses it: segments that are
    completed are segments of the file that are not done yet, the file
    size is only set while nothing has been downloaded, and the segment limit is
    positive. *)
Inductive qi_step : QueueItem -> QueueItem -> Prop :=
  | step_addSource q u : isSourceL q u = false -> qi_step q (addSourceL q u)
  | step_removeSource q u r : qi_step q (removeSourceL q u r)
  | step_addDownload h q d q' : addDownload h q d = Some q' -> qi_step q q'
  | step_addDownload_seg q s : qi_step q (addDownload_seg q s)
  | step_setDownload q s d : qi_step q (setDownloadForSegment q s d).2
  | step_removeDownload_user h q u : qi_step q (removeDownload_user h q u).2
  | step_removeDownload_seg q s : qi_step q (removeDownload_seg q s).2
  | step_addSegment q s q' : in_file (qi_size q) s ->
      (forall t, t ∈ qi_doneSegments q -> seg_eq s t = false) -> addSegment q s = Some q' -> qi_step q q'
  | step_reset q : qi_step q (resetDownloaded q)
  | step_updateBytes q : qi_step q (updateDownloadedBytes q)
  | step_updateSpeed h q : qi_step q (updateDownloadedBytesAndSpeed h q)
  | step_extraFlags q f : qi_step q (setExtraFlags q f)
  | step_changeFlags q v m : qi_step q (changeExtraFlags q v m)
  | step_toggleFlag q f : qi_step q (toggleExtraFlag q f)
  | step_priority q p : qi_step q (setPriorityL q p)
  | step_maxSegments q n : 1 <= n -> qi_step q (setMaxSegmentsL q n)
  | step_size q n : qi_doneSegments q = [] -> n < 2 ^ 63 -> qi_step q (setSize_qi q n)
  | step_tempTarget q t : qi_step q (setTempTargetL q t)
  | step_blockSize q n : qi_step q (updateBlockSize q n).2
  | step_move q t : qi_step q (QueueItem_move t q).1.

Definition qi_state_inv (q : QueueItem) : Prop := qi_inv q /\ qi_size q < 2 ^ 63.

Lemma qi_inv_segments q downloads bytes speed :
  qi_state_inv q ->
  qi_state_inv (set_segments q downloads (qi_doneSegments q) (qi_doneSegmentsSize q) bytes speed).
Proof. done. Qed.

(** The operations on sources write that group only. *)
Lemma qi_inv_sources q q' v src bad p :
  qi_state_inv q -> q' = set_sources q v src bad p -> sources_ok q' -> qi_state_inv q'.
Proof. intros [(? & _ & ?) ?] -> ?. by split; [split_and!|]. Qed.

Lemma addSourceL_shape q u : exists v src bad p, addSourceL q u = set_sources q v src bad p.
Proof. unfold addSourceL. destruct (qi_badSources q !! u); by eauto. Qed.

Lemma removeSourceL_shape q u r : exists v src bad p, removeSourceL q u r = set_sources q v src bad p.
Proof.
  unfold removeSourceL. destruct (qi_sources q !! u); [by eauto|].
  destruct q. exists qi_sourcesVersion0, qi_sources0, qi_badSources0, qi_prioQueue0. done.
Qed.

Lemma qi_step_inv q q' : qi_state_inv q -> qi_step q q' -> qi_state_inv q'.
Proof.
  intros Hinv Hstep. pose proof Hinv as [(Hseg & Hsrc & Hmax) Hsize].
  destruct Hstep; try done.
  - destruct (addSourceL_shape q u) as (v & src & bad & p & E).
    eapply qi_inv_sources; [done|exact E|by apply addSourceL_ok].
  - destruct (removeSourceL_shape q u r) as (v & src & bad & p & E).
    eapply qi_inv_sources; [done|exact E|by apply removeSourceL_ok].
  - unfold addDownload in *. destruct (h !! d); simplify_eq/=. by apply qi_inv_segments.
  - unfold setDownloadForSegment. destruct (set_download_in _ _ _); [by apply qi_inv_segments|done].
  - unfold removeDownload_user. destruct (erase_first _ _); [by apply qi_inv_segments|done].
  - unfold removeDownload_seg. destruct (erase_first _ _); [by apply qi_inv_segments|done].
  - destruct (addSegment_ok q s Hseg) as (q2 & Hq2 & Hok & _ & Heq); [done..|]. simplify_eq.
    split; [split_and!; [done| |]|]; by rewrite Heq.
  - split; [split_and!; [|done|done]|done]. split_and!; simpl; [|constructor|done].
    split; constructor.
  - unfold updateDownloadedBytesAndSpeed. destruct (foldl _ _ _). by apply qi_inv_segments.
  - split; [split_and!; [|done|done]|done]. destruct Hseg as (? & ? & ?).
    split_and!; simpl; [done| |done]. rewrite H. constructor.
  - unfold updateBlockSize. destruct (qi_blockSize q <? n); done.
  - split; [split_and!; [done| |done]|done]. destruct Hsrc as [? _]. split; simpl; [done|lia].
Qed.

Lemma QueueItem_new_inv target size prio flags xflags added tth maxSegments temp q :
  size < 2 ^ 63 -> QueueItem_new target size prio flags xflags added tth maxSegments temp = Some q ->
  qi_state_inv q.
Proof.
  intros Hs. unfold QueueItem_new. destruct (if 0 <=? size then _ else _) as [bs|]; [|done].
  rewrite option_bind_Some_eq. intros [= <-]. split; [|done].
  repeat split; simpl; try apply map_disjoint_empty_r; try constructor; lia.
Qed.

(** *** Segments that are done already

    The loader of the saved queue adds the segments it reads, also one it has read before. *)

Inductive qi_step_any : QueueItem -> QueueItem -> Prop :=
  | any_step q q' : qi_step q q' -> qi_step_any q q'
  | any_addSegment q s q' : in_file (qi_size q) s -> addSegment q s = Some q' -> qi_step_any q q'.

(** The invariant without the exact size of what is done. *)
Definition qi_loose (q : QueueItem) : Prop :=
  gapped (qi_doneSegments q) /\ Forall (in_file (qi_size q)) (qi_doneSegments q) /\
  total_size (qi_doneSegments q) <= qi_doneSegmentsSize q /\ sources_ok q /\ 1 <= qi_maxSegments q.
Definition qi_state_loose (q : QueueItem) : Prop := qi_loose q /\ qi_size q < 2 ^ 63.

(** The item with the size of what is done set right. *)
Definition with_exact_size (q : QueueItem) : QueueItem :=
  set_segments q (qi_downloads q) (qi_doneSegments q) (total_size (qi_doneSegments q)) (qi_downloadedBytes q) (qi_averageSpeed q).

Lemma exact_size_ok q : qi_state_loose q -> segs_ok (with_exact_size q).
Proof. intros [(Hg & Hin & _) _]. by split_and!. Qed.

Lemma total_size_insert_le s l : fs_sorted l -> 0 < getSize s -> total_size (fst (fs_insert s l)) <= total_size l + getSize s.
Proof.
  intros Hs Hp. destruct (fs_insert_cases s l Hs) as [(l1 & l2 & -> & _ & _ & ->)|(y & _ & _ & ->)]; [rewrite !total_size_app; simpl; lia|lia].
Qed.

Lemma addSegment_loose q s q' : qi_state_loose q -> in_file (qi_size q) s -> addSegment q s = Some q' -> qi_state_loose q'.
Proof.
  intros Hl Hs. destruct (addSegment_done (with_exact_size q) s (exact_size_ok q Hl) Hs) as (H1 & H2 & _). cbn [with_exact_size qi_doneSegments set_segments] in H1, H2.
  destruct Hl as [(Hg & Hin & Hsz & Hsrc & Hmax) Hlt]. unfold addSegment.
  rewrite addSegmentL_eq; [|by apply gapped_fs_sorted|pose proof (gapped_length _ _ Hg Hin); lia]. rewrite option_bind_Some_eq. cbv zeta. intros [= <-].
  split; [|done]. split_and!; [done|done| |done|done]. cbn [qi_doneSegments qi_doneSegmentsSize set_segments].
  pose proof (total_size_insert_le s _ (gapped_fs_sorted _ Hg) (proj1 (proj2 Hs))). lia.
Qed.

Lemma qi_loose_same q q' : qi_state_loose q -> qi_doneSegments q' = qi_doneSegments q -> qi_doneSegmentsSize q' = qi_doneSegmentsSize q ->
  qi_size q' = qi_size q -> sources_ok q' -> qi_maxSegments q' = qi_maxSegments q -> qi_state_loose q'.
Proof. intros [(? & ? & ? & _ & ?) ?] E1 E2 E3 ? E4. unfold qi_state_loose, qi_loose. rewrite E1, E2, E3, E4. done. Qed.

Lemma qi_step_loose q q' : qi_state_loose q -> qi_step q q' -> qi_state_loose q'.
Proof.
  intros Hl Hstep. pose proof Hl as [(Hg & Hin & Hsz & Hsrc & Hmax) Hlt].
  destruct Hstep; try (by apply (qi_loose_same q)).
  - pose proof (addSourceL_ok q u Hsrc) as H2. destruct (addSourceL_shape q u) as (v & src & bad & p & E).
    apply (qi_loose_same q); [done|by rewrite E..|by apply H2|by rewrite E].
  - pose proof (removeSourceL_ok q u r Hsrc) as H2. destruct (removeSourceL_shape q u r) as (v & src & bad & p & E).
    apply (qi_loose_same q); [done|by rewrite E..|by apply H2|by rewrite E].
  - unfold addDownload in *. destruct (h !! d); simplify_eq/=. by apply (qi_loose_same q).
  - unfold setDownloadForSegment. destruct (set_download_in _ _ _); by apply (qi_loose_same q).
  - unfold removeDownload_user. destruct (erase_first _ _); by apply (qi_loose_same q).
  - unfold removeDownload_seg. destruct (erase_first _ _); by apply (qi_loose_same q).
  - by eapply addSegment_loose.
  - split; [|done]. split_and!; simpl; [split; constructor|constructor|lia|done|done].
  - unfold updateDownloadedBytesAndSpeed. destruct (foldl _ _ _). by apply (qi_loose_same q).
  - by split.
  - split; [|done]. split_and!; simpl; [done|rewrite H; constructor|done|done|done].
  - unfold updateBlockSize. destruct (qi_blockSize q <? n); by apply (qi_loose_same q).
  - apply (qi_loose_same q); try done. destruct Hsrc as [? _]. split; simpl; [done|lia].
Qed.

(** C10.  An item's invariant holds in every reachable state: from any item constructed with a size
    below 2^63, after any sequence of its operations, the done segments are disjoint,
    non-adjacent, increasing segments of the file, no user is both a source and a bad source,
    the version of the sources is 32 bits, and at least one segment is allowed.  The operations
    are called as follows: a user added as a source is none yet, a completed segment is in the file,
    the size of the file is set only while nothing is done and to less than 2^63, and the
    limit of segments is set to at least 1.  If moreover no segment is completed that is one of the done segments
    already, [doneSegmentsSize] is the total size of the done segments; without that, as when the
    loader reads a segment twice, it is at least that total ([addSegment_duplicate] shows an excess). *)
Theorem QueueItem_invariant target size prio flags xflags added tth maxSegments temp (q0 q : QueueItem)
  (Hs : size < 2 ^ 63)
  (H0 : QueueItem_new target size prio flags xflags added tth maxSegments temp = Some q0) :
  (rtc qi_step q0 q -> qi_inv q) /\ (rtc qi_step_any q0 q -> qi_loose q).
Proof.
  apply QueueItem_new_inv in H0; [|done]. split; intros Hr.
  - enough (qi_state_inv q) as [? _] by done. induction Hr as [|q1 q2 q3 Hstep _ IH]; [done|]. apply IH. by eapply qi_step_inv.
  - enough (qi_state_loose q) as [? _] by done. assert (qi_state_loose q0) as Hl.
    { destruct H0 as [((? & ? & Hz) & ? & ?) ?]. split; [|done]. split_and!; try done. by rewrite Hz. }
    clear H0. induction Hr as [|q1 q2 q3 Hstep _ IH]; [done|]. apply IH. destruct Hstep; [by eapply qi_step_loose|by eapply addSegment_loose].
Qed.

Definition new_sample : QueueItem := mkQI [] (-1) 0 0 0 [] DEFAULT_BLOCK_SIZE NORMAL 1 [] [] [] 0 0 0 0 0 0 ∅ ∅ DEFAULT.

Lemma QueueItem_invariant_witness : qi_inv (addSourceL new_sample 5%positive) /\ qi_loose (addSourceL new_sample 5%positive).
Proof.
  destruct (QueueItem_invariant [] (-1) NORMAL 0 0 0 [] 0 [] new_sample (addSourceL new_sample 5%positive)) as [H1 H2]; [lia|reflexivity|].
  split; [apply H1, rtc_once, step_addSource; reflexivity|apply H2, rtc_once, any_step, step_addSource; reflexivity].
Defined.
