(* ===== verification/NextSegment.v ===== *)
(** * Choosing the next block to download

    [QueueItem::getNextSegmentL] ([client/QueueItem.cpp]) and the two searches it
    uses.  The searches are loops whose termination is proved with a
    lexicographic measure.  The target size is computed in [double]; [SpecFloat]'s
    executable binary64 is that arithmetic, and no theorem here depends on its
    rounding.  The value of [Util::rand()] is an argument.  The sums of a position and a
    size tried are in [Z]: in [int64_t] they overflow only for a wanted size near 2^63. *)

From Stdlib Require Import SpecFloat.
From S2P Require Import Prelude Segment SegmentSet Download QueueItem.

(** ** [double] *)

Definition f64_of_Z (z : Z) : spec_float := binary_normalize 53 1024 z 0 false.

(** [0.25] is [2^52 * 2^-54]. *)
Definition f64_quarter : spec_float := binary_normalize 53 1024 1 (-2) false.

(** [static_cast<int64_t>]: truncation; the cast is undefined outside the range of
    the type, and gives the smallest [int64_t] on x86. *)
Definition f64_to_int64 (f : spec_float) : Z :=
  match f with
  | S754_zero _ => 0
  | S754_finite s m e =>
      let a := if 0 <=? e then Z.pos m * 2 ^ e else Z.pos m / 2 ^ (- e) in
      let z := if s then - a else a in
      if (- 2 ^ 63 <=? z) && (z <? 2 ^ 63) then z else - 2 ^ 63
  | _ => - 2 ^ 63
  end.

(** [std::max(a, b)] on doubles: [(a < b) ? b : a], so that a NaN second argument
    gives the first. *)
Definition f64_max (a b : spec_float) : spec_float := if SFltb a b then b else a.

(** ** The searches *)

(** [posArray[j]], [posArray[j + 1]] for [j = 0, 2, ...]; the read past the end of an array
    of odd length is undefined ([None]). *)
Fixpoint pos_pairs (posArray : list Z) : option (list (Z * Z)) :=
  match posArray with
  | [] => Some []
  | a :: b :: r => (cons (a, b)) <$> pos_pairs r
  | [_] => None
  end.

(** The chunks of [start, end) that the partial source has. *)
Definition store_needed (start end_ : Z) (ps : list (Z * Z)) : list Segment :=
  omap (fun '(p0, p1) =>
    if ((p0 <=? start) && (start <? p1)) || ((start <=? p0) && (p0 <? end_)) then
      let b := Z.max start p0 in
      let e := Z.min end_ p1 in
      Some (mkSeg b (e - b))
    else None) ps.

(** What one of the searches sees of the item. *)
Section Search.
Variable size : Z.
Variable doneSegments : SegmentSet.
Variable downloads : list Segment.
Variable blockSize targetSize : Z.
(** [neededParts]: [None] for a null pointer. *)
Variable neededParts : bool.
Variable posArray : list Z.

(** Is the block taken?  The test of the two inner loops. *)
Definition block_taken (start end_ curSize : Z) (block : Segment) : bool :=
  existsb (fun i =>
    if curSize <=? blockSize then (getStart i <=? start) && (end_ <=? getEnd i)
    else overlaps block i) doneSegments ||
  existsb (fun seg => overlaps block seg) downloads.

(** The state of a search: the position, the size tried, the parts stored. *)
Abbreviation search_state := (Z * Z * list Segment)%type.

Definition forward_step (st : search_state) : search_state + option (Segment * list Segment) :=
  let '(start, curSize, needed) := st in
  if start <? size then
    let end_ := Z.min size (start + curSize) in
    let block := mkSeg start (end_ - start) in
    let taken := block_taken start end_ curSize block in
    if negb taken && negb neededParts then inr (Some (block, needed))
    else
      let needed' := if taken then Some needed
                     else (fun ps => needed ++ store_needed start end_ ps) <$> pos_pairs posArray in
      match needed' with
      | None => inr None
      | Some n =>
          if taken && (blockSize <? curSize) then inl (start, curSize - blockSize, n)
          else inl (end_, targetSize, n)
      end
  else inr (Some (mkSeg 0 0, needed)).

Definition forward_start : Z :=
  match doneSegments with
  | s :: _ => if getStart s =? 0 then getEnd s else 0
  | [] => 0
  end.

Definition getNextSegmentForward : option (Segment * list Segment) :=
  mjoin (while forward_step loop_fuel (forward_start, targetSize, [])).

Definition backward_step (st : search_state) : search_state + option (Segment * list Segment) :=
  let '(end_, curSize, needed) := st in
  if 0 <? end_ then
    let start := Z.max 0 (end_ - curSize) in
    let block := mkSeg start (Z.min end_ size - start) in
    let taken := block_taken start end_ curSize block in
    if negb taken && negb neededParts then inr (Some (block, needed))
    else
      let needed' := if taken then Some needed
                     else (fun ps => needed ++ store_needed start end_ ps) <$> pos_pairs posArray in
      match needed' with
      | None => inr None
      | Some n =>
          if taken && (blockSize <? curSize) then inl (end_, curSize - blockSize, n)
          else inl (start, targetSize, n)
      end
  else inr (Some (mkSeg 0 0, needed)).

Definition backward_end : Z :=
  let e := match last doneSegments with
           | Some s => if getEnd s =? size then getStart s else 0
           | None => 0
           end in
  if e =? 0 then roundUp size blockSize else e.

Definition getNextSegmentBackward : option (Segment * list Segment) :=
  mjoin (while backward_step loop_fuel (backward_end, targetSize, [])).
End Search.

(** ** [getNextSegmentL] *)

Definition shouldSearchBackward (q : QueueItem) : bool :=
  if (Z.land (qi_flags q) FLAG_WANT_END =? 0) || bool_decide (qi_doneSegments q = []) then false
  else
    match head (qi_doneSegments q), last (qi_doneSegments q) with
    | Some segBegin, Some segEnd =>
        if negb (getStart segBegin =? 0) || (getSize segBegin <? 1024 * 1204) then false
        else if getEnd segEnd =? qi_size q then
          let requiredSize := (qi_size q * 3) ÷ 100 in
          negb (requiredSize <? getSize segEnd)
        else true
    | _, _ => false
    end.

(** [struct GetSegmentParams], without the fields only the disabled code reads. *)
Record GetSegmentParams := mkGSP {
  wantedSize : Z;
  enableMultiChunk : bool;
  dontBeginSegment : bool;
  dontBeginSegSpeed : Z;
  maxChunkSize : Z
}.

Definition calc_targetSize (q : QueueItem) (gsp : GetSegmentParams) (blockSize : Z) : Z :=
  let donePart := SFdiv 53 1024 (f64_of_Z (qi_doneSegmentsSize q)) (f64_of_Z (qi_size q)) in
  let factor := f64_max f64_quarter (SFsub 53 1024 (f64_of_Z 1) (SFmul 53 1024 donePart donePart)) in
  let targetSize := f64_to_int64 (SFmul 53 1024 (f64_of_Z (wantedSize gsp)) factor) in
  let targetSize := if negb (maxChunkSize gsp =? 0) && (maxChunkSize gsp <? targetSize)
                    then maxChunkSize gsp else targetSize in
  if blockSize <? targetSize then roundDown targetSize blockSize else blockSize.

(** The branch without multiple chunks. *)
Definition single_chunk (q : QueueItem) (blockSize : Z) : Segment :=
  let '(start, end_) :=
    match qi_doneSegments q with
    | [] => (0, qi_size q)
    | first :: rest =>
        if 0 <? getStart first then (0, roundUp (getStart first) blockSize)
        else
          (roundDown (getEnd first) blockSize,
           match rest with
           | second :: _ => roundUp (getStart second) blockSize
           | [] => qi_size q
           end)
    end in
  mkSeg start (Z.min (qi_size q) end_ - start).

Definition pos_array (q : QueueItem) (ps : PartialSource) (blockSize : Z) : list Z :=
  if ps_blockSize ps =? blockSize then (fun i => Z.min (qi_size q) (i * blockSize)) <$> ps_parts ps else [].

Definition getNextSegmentL (q : QueueItem) (gsp : GetSegmentParams) (partialSource : option PartialSource)
    (rand : Z) : option (Segment * NextError) :=
  let blockSize := swrap 64 (qi_blockSize q) in
  if (qi_size q =? -1) || (blockSize =? 0) then Some (mkSeg 0 (-1), SUCCESS)
  else if negb (enableMultiChunk gsp) then
    if negb (bool_decide (qi_downloads q = [])) then Some (mkSeg (-1) 0, ERROR_DOWNLOAD_SLOTS_TAKEN)
    else Some (single_chunk q blockSize, SUCCESS)
  else if (qi_maxSegments q <=? Z.of_nat (length (qi_downloads q))) ||
          (dontBeginSegment gsp && (dontBeginSegSpeed gsp * 1024 <? qi_averageSpeed q)) then
    Some (mkSeg (-1) 0, ERROR_NO_FREE_BLOCK)
  else
    let posArray := match partialSource with Some ps => pos_array q ps blockSize | None => [] end in
    let targetSize := calc_targetSize q gsp blockSize in
    let downloads := rs_seg <$> qi_downloads q in
    let needParts := bool_decide (is_Some partialSource) in
    '(block, neededParts) ←
      (if shouldSearchBackward q
       then getNextSegmentBackward (qi_size q) (qi_doneSegments q) downloads blockSize targetSize needParts posArray
       else getNextSegmentForward (qi_size q) (qi_doneSegments q) downloads blockSize targetSize needParts posArray);
    if negb (getSize block =? 0) then Some (block, SUCCESS)
    else if bool_decide (neededParts = []) then Some (mkSeg (-1) 0, ERROR_NO_NEEDED_PART)
    else
      selected ← neededParts !! Z.to_nat (rand mod u32 (Z.of_nat (length neededParts)));
      Some (Segment.setSize selected (Z.min (getSize selected) targetSize), SUCCESS).

(** ** Covered and uncovered bytes *)

#[global] Instance covered_dec x l : Decision (covered x l).
Proof. unfold covered. apply _. Defined.

(** The byte after a segment of a gapped set is not covered. *)
Lemma gapped_end_uncovered l s : gapped l -> s ∈ l -> ~ covered (getEnd s) l.
Proof.
  induction l as [|t l IH]; intros Hg Hs; [by apply not_elem_of_nil in Hs|].
  apply gapped_cons_inv in Hg as (Hg & Ht & Hl). rewrite Forall_forall in Hl.
  rewrite covered_cons. apply elem_of_cons in Hs as [->|Hs].
  - intros [H|(u & Hu & H)%Exists_exists]; [seg_unfold; lia|]. specialize (Hl u Hu). seg_unfold. lia.
  - intros [H|H]; [|by apply IH]. specialize (Hl s Hs).
    destruct Hg as [_ Hp]. rewrite Forall_forall in Hp. specialize (Hp s Hs). seg_unfold. lia.
Qed.

(** A range that no single segment of a gapped set contains has an uncovered byte. *)
Lemma gapped_uncovered l a b :
  gapped l -> a < b -> (forall s, s ∈ l -> ~ (getStart s <= a /\ b <= getEnd s)) ->
  exists x, a <= x < b /\ ~ covered x l.
Proof.
  intros Hg Hab Hno. destruct (decide (covered a l)) as [Hc|Hc]; [|by exists a; split; [lia|]].
  apply Exists_exists in Hc as (s & Hs & Ha). exists (getEnd s).
  split; [|by apply gapped_end_uncovered]. specialize (Hno s Hs). seg_unfold. lia.
Qed.

Lemma existsb_false {A} (f : A -> bool) l : existsb f l = false <-> forall x, x ∈ l -> f x = false.
Proof.
  induction l as [|y l IH]; simpl.
  - split; [|done]. intros _ x Hx. by apply not_elem_of_nil in Hx.
  - rewrite orb_false_iff, IH. split.
    + intros [H1 H2] x [->|Hx]%elem_of_cons; auto.
    + intros H. split; [apply H; left|]. intros x Hx. apply H. by right.
Qed.

Lemma existsb_true {A} (f : A -> bool) l : existsb f l = true <-> exists x, x ∈ l /\ f x = true.
Proof.
  rewrite existsb_exists. setoid_rewrite list_elem_of_In. done.
Qed.

(** ** The searches *)

(** The lexicographic measure of a search: the position moved, or the size shrank. *)
Lemma measure_pos a b t c c' : 0 <= a < b -> 0 < c' <= t -> 0 < c -> 0 <= a * (t + 1) + c' < b * (t + 1) + c.
Proof. intros. assert (a * (t + 1) + (t + 1) <= b * (t + 1)) by nia. nia. Qed.

Lemma measure_size a t c c' : 0 <= a -> 0 < c' < c -> 0 <= t -> 0 <= a * (t + 1) + c' < a * (t + 1) + c.
Proof. nia. Qed.

Lemma forward_start_ok size done :
  0 <= size -> Forall (in_file size) done ->
  0 <= forward_start done <= size /\ forall x, 0 <= x -> x < forward_start done -> covered x done.
Proof.
  intros Hsize [|s l Hs _]; simpl; [split; [lia|intros; lia]|]. unfold in_file in Hs. case_if.
  - split; [seg_unfold; lia|]. intros x ? ?. apply covered_cons. left. seg_unfold. lia.
  - split; [lia|intros; lia].
Qed.

Lemma gapped_last l s t : gapped l -> last l = Some s -> t ∈ l -> getEnd t <= getEnd s.
Proof.
  intros Hg Hl. revert Hg. induction l as [|u l IH]; intros Hg Ht; [done|].
  apply gapped_cons_inv in Hg as (Hg & Hu & Hgt). rewrite Forall_forall in Hgt.
  destruct l as [|v l]; [injection Hl as ->; apply elem_of_cons in Ht as [->|Ht%not_elem_of_nil]; [lia|done]|].
  apply elem_of_cons in Ht as [->|Ht]; [|by apply IH].
  assert (s ∈ v :: l) as Hs by (apply last_Some_elem_of; done).
  pose proof (Hgt s Hs). destruct Hg as [_ Hp]. rewrite Forall_forall in Hp. specialize (Hp s Hs).
  seg_unfold. lia.
Qed.

(** Where the backward search starts: behind it every byte is done, and it starts
    past the end of the file only when the last byte is not done. *)
Lemma backward_end_ok size done blockSize :
  0 <= size -> 0 < blockSize -> gapped done -> Forall (in_file size) done ->
  (forall s, s ∈ done -> ~ (getStart s = 0 /\ getEnd s = size)) ->
  0 <= backward_end size done blockSize < size + blockSize /\
  (forall x, backward_end size done blockSize <= x < size -> covered x done) /\
  (backward_end size done blockSize <= size \/ ~ covered (size - 1) done).
Proof.
  intros Hsize Hbs Hg Hin Hnf. unfold backward_end. rewrite Forall_forall in Hin.
  destruct (roundUp_spec size blockSize Hsize Hbs) as [Hr _].
  destruct (last done) as [s|] eqn:El.
  - assert (s ∈ done) as Hs by (by apply last_Some_elem_of).
    pose proof (Hin s Hs) as (H1 & H2 & H3). pose proof (Hnf s Hs) as H4.
    destruct (getEnd s =? size) eqn:Ee; zb.
    + destruct (getStart s =? 0) eqn:E0; zb; [lia|]. split_and!; [lia|seg_unfold; lia| |left; seg_unfold; lia].
      intros x Hx. apply Exists_exists. exists s. split; [done|]. seg_unfold. lia.
    + simpl. split_and!; [lia|lia|intros; lia|]. right.
      intros (t & Ht & Hx)%Exists_exists. pose proof (gapped_last _ _ _ Hg El Ht). seg_unfold. lia.
  - simpl. split_and!; [lia|lia|intros; lia|]. right.
    apply last_None in El as ->. intros H%Exists_nil. done.
Qed.

Section SearchFacts.
Context (size : Z) (done : SegmentSet) (downloads : list Segment) (blockSize targetSize : Z).
Hypothesis Hsize : 0 < size < 2 ^ 63.
Hypothesis Hg : gapped done.
Hypothesis Hin : Forall (in_file size) done.
Hypothesis Hbs : 0 < blockSize < 2 ^ 63.
Hypothesis Hts : 0 < targetSize < 2 ^ 65.
Hypothesis Hdiv : (blockSize | targetSize).

(** What a search promises of the block it returns: it is inside the file, meets
    no running segment, and has a byte that is not done. *)
Definition free_block (r : Segment) : Prop :=
  in_file size r /\ getSize r <= targetSize /\ (forall d, d ∈ downloads -> overlaps r d = false) /\
  exists x, seg_in x r /\ ~ covered x done.

(** A byte that needs no request: it is done, or it is in a range of at most a
    block that meets a running segment. *)
Definition spoken_for (x : Z) : Prop :=
  covered x done \/
  exists b d, in_file size b /\ getSize b <= blockSize /\ seg_in x b /\ d ∈ downloads /\ overlaps b d = true.

(** Only whole blocks are left when [curSize <= blockSize]. *)
Lemma curSize_step c : 0 < c -> (blockSize | c) -> blockSize < c -> 0 < c - blockSize /\ (blockSize | c - blockSize).
Proof using Type. intros Hc Hd Hlt. split; [lia|]. by apply Z.divide_sub_r; [|exists 1; lia]. Qed.

Lemma block_taken_spoken start end_ c block x :
  block_taken done downloads blockSize start end_ c block = true -> c <= blockSize ->
  in_file size block -> getSize block <= c -> getStart block = start -> getEnd block <= end_ ->
  seg_in x block -> spoken_for x.
Proof using Type.
  unfold block_taken. intros [Ht|Ht]%orb_prop Hc Hb Hbc Hbs0 Hbe Hx.
  - apply existsb_true in Ht as (i & Hi & Ht). destruct (c <=? blockSize) eqn:E; zb; [|lia].
    left. apply Exists_exists. exists i. split; [done|]. seg_unfold. lia.
  - apply existsb_true in Ht as (d & Hd & Ht). right. exists block, d. split_and!; [done..|lia|done|done|done].
Qed.

Lemma block_free start end_ c block :
  block_taken done downloads blockSize start end_ c block = false ->
  in_file size block -> getSize block <= c -> c <= targetSize -> getStart block = start ->
  (getEnd block = end_ \/ ~ covered (getEnd block - 1) done) ->
  free_block block.
Proof using Hg.
  unfold block_taken. intros [H1 H2]%orb_false_elim Hb Hc Hct Hs He.
  rewrite existsb_false in H1, H2. split_and!; [done|lia|done|].
  destruct (c <=? blockSize) eqn:E.
  - destruct He as [He|He]; [|exists (getEnd block - 1); split; [unfold in_file in Hb; seg_unfold; lia|done]].
    destruct (gapped_uncovered done start end_ Hg) as (x & Hx & Hn).
    + unfold in_file in Hb. seg_unfold. lia.
    + intros i Hi [? ?]. specialize (H1 i Hi). cbv beta in H1. zb. destruct H1; zb; lia.
    + exists x. split; [|done]. seg_unfold. lia.
  - exists start. unfold in_file in Hb. split; [seg_unfold; lia|].
    intros (i & Hi & Hx)%Exists_exists. specialize (H1 i Hi). cbv beta in H1.
    unfold overlaps in H1. zb. seg_unfold. destruct H1; zb; lia.
Qed.

(** The parts of a partial source, as file ranges. *)
Context (np : bool) (posArray : list Z) (ps : list (Z * Z)).
Hypothesis Hps : pos_pairs posArray = Some ps.
Hypothesis Hpsok : forall p0 p1, (p0, p1) ∈ ps -> 0 <= p0 < p1 /\ p1 <= size.

(** What a search promises of a stored part. *)
Definition part_ok (g : Segment) : Prop :=
  in_file size g /\ (forall d, d ∈ downloads -> overlaps g d = false) /\
  (exists x, 0 <= x < size /\ ~ covered x done) /\
  exists p0 p1, (p0, p1) ∈ ps /\ p0 <= getStart g /\ getEnd g <= p1.

Lemma overlaps_sub r g d :
  0 < getSize g -> getStart r <= getStart g -> getEnd g <= getEnd r -> overlaps r d = false -> overlaps g d = false.
Proof using Type.
  intros H1 H2 H3. unfold overlaps. intros H4. zb. apply andb_false_iff. rewrite !Z.ltb_ge. seg_unfold. lia.
Qed.

Lemma store_needed_ok block end_ :
  free_block block -> getEnd block = Z.min end_ size ->
  Forall part_ok (store_needed (getStart block) end_ ps).
Proof using Hpsok.
  intros (Hb & _ & Hd & (x & Hx & Hxd)) He. apply Forall_forall. intros g Hgs.
  apply list_elem_of_omap in Hgs as ([p0 p1] & Hp & Hgs). destruct (Hpsok p0 p1 Hp) as [H0 H1].
  case_if_in Hgs; [|done]. injection Hgs as <-.
  assert (in_file size (mkSeg (Z.max (getStart block) p0) (Z.min end_ p1 - Z.max (getStart block) p0))) as Hf.
  { unfold in_file in *. seg_unfold. destruct E; zb; lia. }
  split; [exact Hf|]. unfold in_file in *. split_and!; [|exists x; split; [unfold seg_in in Hx; lia|exact Hxd]|].
  - intros d Hdd. apply (overlaps_sub block); [seg_unfold; lia|seg_unfold; lia| |by apply Hd].
    rewrite He. seg_unfold. lia.
  - exists p0, p1. split; [done|]. seg_unfold. lia.
Qed.

(** The result of a search. *)
Definition search_result (r : Segment * list Segment) : Prop :=
  Forall part_ok r.2 /\
  if np then r.1 = mkSeg 0 0
  else r.2 = [] /\ ((r.1 = mkSeg 0 0 /\ forall x, 0 <= x < size -> spoken_for x) \/
                    free_block r.1).

(** The invariant of a search; [P] says which bytes it has passed. *)
Definition search_inv (P : Z -> Prop) (c : Z) (needed : list Segment) : Prop :=
  0 < c <= targetSize /\ (blockSize | c) /\ Forall part_ok needed /\
  (np = false -> needed = [] /\ forall x, 0 <= x < size -> P x -> spoken_for x).

Lemma forward_ok :
  exists r, getNextSegmentForward size done downloads blockSize targetSize np posArray = Some r /\ search_result r.
Proof using Hbs Hdiv Hg Hin Hps Hpsok Hsize Hts.
  unfold getNextSegmentForward.
  edestruct (while_total (forward_step size done downloads blockSize targetSize np posArray)
    (fun '(start, c, needed) => 0 <= start <= size /\ search_inv (fun x => x < start) c needed)
    (fun '(start, c, needed) => (size - start) * (targetSize + 1) + c)
    (fun o => exists r, o = Some r /\ search_result r))
    with (fuel := loop_fuel) (s := (forward_start done, targetSize, @nil Segment)) as (o & -> & r & -> & Hr);
    [| | |by exists r].
  - intros [[start c] needed] (Hst & Hc & Hcd & Hn & HP). unfold forward_step.
    destruct (start <? size) eqn:Elt; zb.
    2:{ exists (mkSeg 0 0, needed). split; [done|]. split; [done|]. cbn [fst snd]. destruct np; [done|].
        destruct (HP eq_refl) as [-> HP']. split; [done|]. left. split; [done|]. intros x Hx. apply HP'; lia. }
    set (end_ := Z.min size (start + c)). set (block := mkSeg start (end_ - start)).
    assert (in_file size block /\ getSize block <= c /\ getEnd block = end_) as (Hb & Hbc & Hbe).
    { unfold in_file, block, end_. seg_unfold. lia. }
    destruct (block_taken done downloads blockSize start end_ c block) eqn:Et; cbn [negb andb].
    + destruct (blockSize <? c) eqn:Ec; zb.
      * destruct (curSize_step c) as [? ?]; [lia|done|lia|].
        split; [|apply measure_size; lia]. split; [done|]. split_and!; [lia|lia|done|done|done].
      * split; [|apply measure_pos; unfold end_; lia]. split; [unfold end_; lia|]. split_and!; [lia|lia|done|done|].
        intros Hnp. destruct (HP Hnp) as [-> HP']. split; [done|]. intros x Hx Hxe.
        destruct (decide (x < start)); [by apply HP'|].
        eapply block_taken_spoken; [exact Et|lia|done|done|done|lia|].
        unfold seg_in. rewrite Hbe. simpl. lia.
    + pose proof (block_free _ _ _ _ Et Hb Hbc ltac:(lia) eq_refl
        (or_introl Hbe)) as Hfree.
      destruct np eqn:Enp; cbn [negb].
      * rewrite Hps. cbn [fmap option_fmap option_map]. split; [|apply measure_pos; unfold end_; lia].
        split; [unfold end_; lia|]. split_and!; [lia|lia|done| |by rewrite Enp].
        apply Forall_app. split; [done|]. apply (store_needed_ok block); [done|]. rewrite Hbe. unfold end_. lia.
      * exists (block, needed). split; [done|]. split; [done|]. cbn [fst snd]. rewrite Enp.
        destruct (HP eq_refl) as [-> _]. split; [done|]. by right.
  - split; [|split_and!; [lia|lia|done|done|]].
    + apply (forward_start_ok size); [lia|done].
    + intros _. split; [done|]. intros x Hx Hlt. left. apply (forward_start_ok size); [lia|done|lia|done].
  - rewrite loop_fuel_val. destruct (forward_start_ok size done) as [H0 _]; [lia|done|].
    pose proof (Z.mul_le_mono_nonneg (size - forward_start done) (2 ^ 64) (targetSize + 1) (2 ^ 66)). lia.
Qed.

Lemma backward_ok :
  (forall s, s ∈ done -> ~ (getStart s = 0 /\ getEnd s = size)) ->
  exists r, getNextSegmentBackward size done downloads blockSize targetSize np posArray = Some r /\ search_result r.
Proof using Hbs Hdiv Hg Hin Hps Hpsok Hsize Hts.
  intros Hnf. unfold getNextSegmentBackward.
  destruct (backward_end_ok size done blockSize) as (He0 & Hcov & Hlast); [lia|lia|done..|].
  edestruct (while_total (backward_step size done downloads blockSize targetSize np posArray)
    (fun '(end_, c, needed) => 0 <= end_ < size + blockSize /\ (end_ <= size \/ ~ covered (size - 1) done) /\
       search_inv (fun x => end_ <= x) c needed)
    (fun '(end_, c, needed) => end_ * (targetSize + 1) + c)
    (fun o => exists r, o = Some r /\ search_result r))
    with (fuel := loop_fuel) (s := (backward_end size done blockSize, targetSize, @nil Segment))
    as (o & -> & r & -> & Hr); [| | |by exists r].
  - intros [[end_ c] needed] (Hst & Hl & Hc & Hcd & Hn & HP). unfold backward_step.
    destruct (0 <? end_) eqn:Elt; zb.
    2:{ exists (mkSeg 0 0, needed). split; [done|]. split; [done|]. cbn [fst snd]. destruct np; [done|].
        destruct (HP eq_refl) as [-> HP']. split; [done|]. left. split; [done|]. intros x Hx. apply HP'; lia. }
    pose proof (Z.divide_pos_le blockSize c ltac:(lia) Hcd) as Hbc0.
    set (start := Z.max 0 (end_ - c)). set (block := mkSeg start (Z.min end_ size - start)).
    assert (in_file size block /\ getSize block <= c /\ getEnd block = Z.min end_ size) as (Hb & Hbc & Hbe).
    { unfold in_file, block, start. seg_unfold. lia. }
    destruct (block_taken done downloads blockSize start end_ c block) eqn:Et; cbn [negb andb].
    + destruct (blockSize <? c) eqn:Ec; zb.
      * destruct (curSize_step c) as [? ?]; [lia|done|lia|].
        split; [|apply measure_size; lia]. split; [done|]. split; [done|]. split_and!; [lia|lia|done|done|done].
      * split; [|apply measure_pos; unfold start; lia]. split; [unfold start; lia|]. split; [left; unfold start; lia|].
        split_and!; [lia|lia|done|done|].
        intros Hnp. destruct (HP Hnp) as [-> HP']. split; [done|]. intros x Hx Hxe.
        destruct (decide (end_ <= x)); [by apply HP'|].
        eapply block_taken_spoken; [exact Et|lia|done|done|done|lia|].
        unfold seg_in. rewrite Hbe. simpl. lia.
    + assert (free_block block) as Hfree.
      { eapply block_free; [exact Et|done|done|lia|done|]. rewrite Hbe.
        destruct (decide (end_ <= size)); [left; lia|]. right. rewrite Z.min_r by lia. destruct Hl; [lia|done]. }
      destruct np eqn:Enp; cbn [negb].
      * rewrite Hps. cbn [fmap option_fmap option_map]. split; [|apply measure_pos; unfold start; lia].
        split; [unfold start; lia|]. split; [left; unfold start; lia|].
        split_and!; [lia|lia|done| |by rewrite Enp].
        apply Forall_app. split; [done|]. by apply (store_needed_ok block).
      * exists (block, needed). split; [done|]. split; [done|]. cbn [fst snd]. rewrite Enp.
        destruct (HP eq_refl) as [-> _]. split; [done|]. by right.
  - split; [done|]. split; [done|]. split_and!; [lia|lia|done|done|].
    intros _. split; [done|]. intros x Hx Hlt. left. apply Hcov. lia.
  - rewrite loop_fuel_val.
    pose proof (Z.mul_le_mono_nonneg (backward_end size done blockSize) (2 ^ 64) (targetSize + 1) (2 ^ 66)). lia.
Qed.
End SearchFacts.

(** ** The target size *)

Lemma f64_to_int64_range f : - 2 ^ 63 <= f64_to_int64 f < 2 ^ 63.
Proof.
  destruct f as [|b| |b m e]; unfold f64_to_int64; try lia.
  set (z := if b then _ else _). destruct ((- 2 ^ 63 <=? z) && (z <? 2 ^ 63)) eqn:E; zb; lia.
Qed.

Lemma calc_targetSize_ok q gsp bs :
  0 < bs < 2 ^ 63 -> maxChunkSize gsp < 2 ^ 31 ->
  0 < calc_targetSize q gsp bs < 2 ^ 65 /\ (bs | calc_targetSize q gsp bs).
Proof.
  intros Hbs Hmax. unfold calc_targetSize.
  match goal with |- context [f64_to_int64 ?f] => pose proof (f64_to_int64_range f); set (t := f64_to_int64 f) in * end.
  clearbody t. set (t' := if _ && _ then _ else t).
  assert (t' < 2 ^ 63) as Ht by (unfold t'; case_if; lia). clearbody t'. case_if.
  - destruct (roundDown_spec t' bs) as [H1 H2]; [lia|lia|]. split; [lia|done].
  - split; [lia|]. exists 1. lia.
Qed.

Lemma shouldSearchBackward_unfinished q :
  segs_ok q -> 0 < qi_size q -> shouldSearchBackward q = true ->
  forall s, s ∈ qi_doneSegments q -> ~ (getStart s = 0 /\ getEnd s = qi_size q).
Proof.
  intros (Hg & Hin & _) Hsz Hb s Hs [H0 H1]. unfold shouldSearchBackward in Hb. case_if_in Hb; [done|].
  rewrite Forall_forall in Hin.
  destruct (qi_doneSegments q) as [|t l] eqn:Ed; [by apply not_elem_of_nil in Hs|].
  assert (l = [] /\ t = s) as [-> ->].
  { pose proof Hg as (Hg' & _ & Hl)%gapped_cons_inv. rewrite Forall_forall in Hl.
    apply elem_of_cons in Hs as [->|Hs]; [|].
    - destruct l as [|u l]; [done|]. exfalso. specialize (Hl u (list_elem_of_here _ _)).
      specialize (Hin u ltac:(right; left)). unfold in_file in Hin. seg_unfold. lia.
    - exfalso. specialize (Hl s Hs). specialize (Hin t ltac:(left)). unfold in_file in Hin. seg_unfold. lia. }
  cbn [head last] in Hb. rewrite H1, Z.eqb_refl in Hb.
  case_if_in Hb; [done|].
  rewrite Z.quot_div_nonneg in Hb by lia.
  assert (qi_size q * 3 / 100 < qi_size q) by (apply Z.div_lt_upper_bound; lia). seg_unfold. lia.
Qed.

Lemma swrap64_id z : 0 <= z < 2 ^ 63 -> swrap 64 z = z.
Proof. intros. unfold swrap. change (64 - 1) with 63. rewrite Z.mod_small; lia. Qed.

(** The search [getNextSegmentL] runs. *)
Lemma search_ok q gsp bs np posArray ps :
  segs_ok q -> 0 < qi_size q < 2 ^ 63 -> 0 < bs < 2 ^ 63 -> maxChunkSize gsp < 2 ^ 31 ->
  pos_pairs posArray = Some ps ->
  (forall p0 p1, (p0, p1) ∈ ps -> 0 <= p0 < p1 /\ p1 <= qi_size q) ->
  exists r,
    (if shouldSearchBackward q
     then getNextSegmentBackward (qi_size q) (qi_doneSegments q) (rs_seg <$> qi_downloads q) bs
            (calc_targetSize q gsp bs) np posArray
     else getNextSegmentForward (qi_size q) (qi_doneSegments q) (rs_seg <$> qi_downloads q) bs
            (calc_targetSize q gsp bs) np posArray) = Some r /\
    search_result (qi_size q) (qi_doneSegments q) (rs_seg <$> qi_downloads q) bs (calc_targetSize q gsp bs) np ps r.
Proof.
  intros Hok Hsz Hbs Hmax Hps Hpsok. pose proof Hok as (Hg & Hin & _).
  destruct (calc_targetSize_ok q gsp bs Hbs Hmax) as [Ht Hd].
  destruct (shouldSearchBackward q) eqn:Eb.
  - apply backward_ok; try done. by apply shouldSearchBackward_unfinished; [|lia|].
  - by apply forward_ok.
Qed.

(** The three answers without a partial source. *)
Lemma getNextSegmentL_answer q gsp rand :
  segs_ok q -> 0 < qi_size q < 2 ^ 63 -> 0 < qi_blockSize q < 2 ^ 63 ->
  maxChunkSize gsp < 2 ^ 31 -> enableMultiChunk gsp = true ->
  let downloads := rs_seg <$> qi_downloads q in
  let limit := (qi_maxSegments q <=? Z.of_nat (length (qi_downloads q))) ||
               (dontBeginSegment gsp && (dontBeginSegSpeed gsp * 1024 <? qi_averageSpeed q)) in
  exists r e, getNextSegmentL q gsp None rand = Some (r, e) /\
    match e with
    | SUCCESS => limit = false /\
        free_block (qi_size q) (qi_doneSegments q) downloads (calc_targetSize q gsp (qi_blockSize q)) r
    | ERROR_NO_FREE_BLOCK => limit = true
    | ERROR_NO_NEEDED_PART => limit = false /\
        forall x, 0 <= x < qi_size q ->
          spoken_for (qi_size q) (qi_doneSegments q) downloads (qi_blockSize q) x
    | _ => False
    end.
Proof.
  intros Hok Hsz Hbs Hmax Hmulti. cbv zeta. unfold getNextSegmentL. rewrite swrap64_id by lia. cbv zeta.
  destruct ((qi_size q =? -1) || (qi_blockSize q =? 0)) eqn:E; [zb; destruct E; zb; lia|clear E].
  rewrite Hmulti. cbn [negb].
  destruct ((qi_maxSegments q <=? _) || _) eqn:El; [by eexists _, _|].
  change (bool_decide (is_Some (@None PartialSource))) with false.
  destruct (search_ok q gsp (qi_blockSize q) false [] [] Hok Hsz Hbs Hmax eq_refl) as ([b l] & -> & _ & Hl & Hr).
  { intros p0 p1 Hp. by apply not_elem_of_nil in Hp. }
  rewrite option_bind_Some_eq. cbn [fst snd] in Hl, Hr. subst l.
  destruct Hr as [[-> Hr]|Hr].
  - eexists _, _. split; [done|]. done.
  - destruct Hr as (Hf & Hr). pose proof Hf as (_ & Hpos & _).
    destruct (getSize b =? 0) eqn:E; zb; [lia|]. eexists _, _. split; [done|]. split; [done|]. by split.
Qed.

(** C3.  Without a partial source, [getNextSegmentL] in multi-chunk mode returns one of
    three answers: a block (with [SUCCESS]) that is inside the file, no longer than
    the target size, meets no running segment and has a byte that is not done;
    [ERROR_NO_FREE_BLOCK] exactly when the segment or speed limit is reached; or
    [ERROR_NO_NEEDED_PART], and then every byte of the file is done or within a block
    of a running segment. *)
Theorem getNextSegmentL_correct (q : QueueItem) (gsp : GetSegmentParams) (rand : Z)
  (Hok : segs_ok q) (Hsz : 0 < qi_size q < 2 ^ 63) (Hbs : 0 < qi_blockSize q < 2 ^ 63)
  (Hmax : maxChunkSize gsp < 2 ^ 31) (Hmulti : enableMultiChunk gsp = true) :
  let downloads := rs_seg <$> qi_downloads q in
  let limit := (qi_maxSegments q <=? Z.of_nat (length (qi_downloads q))) ||
               (dontBeginSegment gsp && (dontBeginSegSpeed gsp * 1024 <? qi_averageSpeed q)) in
  exists r e, getNextSegmentL q gsp None rand = Some (r, e) /\
    match e with
    | SUCCESS => limit = false /\
        free_block (qi_size q) (qi_doneSegments q) downloads (calc_targetSize q gsp (qi_blockSize q)) r
    | ERROR_NO_FREE_BLOCK => limit = true
    | ERROR_NO_NEEDED_PART => limit = false /\
        forall x, 0 <= x < qi_size q ->
          spoken_for (qi_size q) (qi_doneSegments q) downloads (qi_blockSize q) x
    | _ => False
    end.
Proof. by apply getNextSegmentL_answer. Qed.

Definition sample_gsp : GetSegmentParams := mkGSP 65536 true false 0 0.
Definition sample_running : QueueItem := set_downloads sample_qi [mkRunning (mkSeg 65536 65536) None].

Lemma getNextSegmentL_correct_witness :
  let q := sample_running in
  let gsp := sample_gsp in
  let downloads := rs_seg <$> qi_downloads q in
  let limit := (qi_maxSegments q <=? Z.of_nat (length (qi_downloads q))) ||
               (dontBeginSegment gsp && (dontBeginSegSpeed gsp * 1024 <? qi_averageSpeed q)) in
  exists r e, getNextSegmentL q gsp None 0 = Some (r, e) /\
    match e with
    | SUCCESS => limit = false /\
        free_block (qi_size q) (qi_doneSegments q) downloads (calc_targetSize q gsp (qi_blockSize q)) r
    | ERROR_NO_FREE_BLOCK => limit = true
    | ERROR_NO_NEEDED_PART => limit = false /\
        forall x, 0 <= x < qi_size q ->
          spoken_for (qi_size q) (qi_doneSegments q) downloads (qi_blockSize q) x
    | _ => False
    end.
Proof.
  apply (getNextSegmentL_correct sample_running sample_gsp 0); [apply sample_qi_ok|simpl; lia|simpl; lia|simpl; lia|done].
Defined.

(** Without running segments nothing but the done bytes is spoken for. *)
Lemma spoken_for_idle size done bs x : spoken_for size done [] bs x -> covered x done.
Proof. intros [?|(b & d & _ & _ & _ & Hd & _)]; [done|]. by apply not_elem_of_nil in Hd. Qed.

Lemma next_block_progress q gsp rand :
  qi_inv q -> 0 < qi_size q < 2 ^ 63 -> 0 < qi_blockSize q < 2 ^ 63 -> maxChunkSize gsp < 2 ^ 31 -> enableMultiChunk gsp = true ->
  dontBeginSegment gsp = false -> qi_downloads q = [] -> isFinished q = false ->
  exists r, getNextSegmentL q gsp None rand = Some (r, SUCCESS) /\ in_file (qi_size q) r /\
    exists x, seg_in x r /\ ~ covered x (qi_doneSegments q).
Proof.
  intros Hinv Hsz Hbs Hmax Hmulti Hbegin Hidle Hnf. destruct Hinv as (Hok & _ & Hseg).
  destruct (getNextSegmentL_answer q gsp rand Hok Hsz Hbs Hmax Hmulti) as (r & e & Hr & He).
  rewrite Hidle, Hbegin in He. cbn [length andb orb] in He. rewrite orb_false_r in He.
  destruct e; try done.
  - exists r. split; [done|]. destruct He as (_ & Hf & _ & _ & Hx). done.
  - exfalso. destruct He as [_ He].
    destruct (isFinished_iff q Hok ltac:(lia)) as [[_ Hfin] _].
    rewrite Hfin in Hnf; [done|]. intros x Hx. by eapply spoken_for_idle, He.
  - exfalso. apply Z.leb_le in He. lia.
Qed.

(** Progress: an item that is not finished and has nothing running is never
    refused work; [getNextSegmentL] returns a block with a byte that is not done. *)
Theorem getNextSegmentL_progress (q : QueueItem) (gsp : GetSegmentParams) (rand : Z)
  (Hinv : qi_inv q) (Hsz : 0 < qi_size q < 2 ^ 63) (Hbs : 0 < qi_blockSize q < 2 ^ 63)
  (Hmax : maxChunkSize gsp < 2 ^ 31) (Hmulti : enableMultiChunk gsp = true)
  (Hbegin : dontBeginSegment gsp = false)
  (Hidle : qi_downloads q = []) (Hnf : isFinished q = false) :
  exists r, getNextSegmentL q gsp None rand = Some (r, SUCCESS) /\ in_file (qi_size q) r /\
    exists x, seg_in x r /\ ~ covered x (qi_doneSegments q).
Proof. by apply next_block_progress. Qed.

Lemma sample_qi_inv : qi_inv sample_qi.
Proof. split; [apply sample_qi_ok|]. split; [split; [apply map_disjoint_empty_r|]|]; simpl; lia. Qed.

Lemma getNextSegmentL_progress_witness :
  exists r, getNextSegmentL sample_qi sample_gsp None 0 = Some (r, SUCCESS) /\ in_file (qi_size sample_qi) r /\
    exists x, seg_in x r /\ ~ covered x (qi_doneSegments sample_qi).
Proof.
  apply (getNextSegmentL_progress sample_qi sample_gsp 0); [apply sample_qi_inv|simpl; lia|simpl; lia|simpl; lia|done..].
Defined.

(** ** Partial sources *)

(** Well-formed parts: pairs of block indices, not empty, that start inside the file. *)
Fixpoint parts_inside (size bs : Z) (parts : list Z) : Prop :=
  match parts with
  | [] => True
  | a :: b :: r => 0 <= a < b /\ a * bs < size /\ parts_inside size bs r
  | [_] => False
  end.

(** Does the partial source have the byte? *)
Fixpoint has_byte (bs : Z) (parts : list Z) (x : Z) : Prop :=
  match parts with
  | a :: b :: r => a * bs <= x < b * bs \/ has_byte bs r x
  | _ => False
  end.

Lemma parts_inside_pairs size bs parts :
  0 < bs -> parts_inside size bs parts ->
  exists ps, pos_pairs ((fun i => Z.min size (i * bs)) <$> parts) = Some ps /\
    forall p0 p1, (p0, p1) ∈ ps -> 0 <= p0 < p1 /\ p1 <= size /\ forall x, p0 <= x < p1 -> has_byte bs parts x.
Proof.
  intros Hbs. induction parts as [|a|a b parts IH] using list_pair_ind; intros Hp.
  - exists []. split; [done|]. intros ? ? H. by apply not_elem_of_nil in H.
  - done.
  - destruct Hp as (H1 & H2 & Hp). destruct (IH Hp) as (ps & Hps & Hall).
    exists ((Z.min size (a * bs), Z.min size (b * bs)) :: ps). split.
    + cbn [fmap list_fmap pos_pairs]. change (list_fmap _ _ ?f ?l) with (f <$> l). by rewrite Hps.
    + intros p0 p1 [[= -> ->]|Hin]%elem_of_cons.
      * assert (a * bs < b * bs) by nia. split_and!; [nia|lia|lia|]. intros x Hx. left. lia.
      * destruct (Hall p0 p1 Hin) as (? & ? & Hx). split_and!; [lia..|]. intros x Hxx. right. by apply Hx.
Qed.

(** With a partial source, a block is only requested if the source has it: on
    [SUCCESS] the block is inside the file, no longer than the target size, meets no
    running segment, and every byte of it lies in the parts the source announced. *)
Theorem getNextSegmentL_partial (q : QueueItem) (gsp : GetSegmentParams) (ps : PartialSource) (rand : Z)
  (Hok : segs_ok q) (Hsz : 0 < qi_size q < 2 ^ 63) (Hbs : 0 < qi_blockSize q < 2 ^ 63)
  (Hmax : maxChunkSize gsp < 2 ^ 31) (Hmulti : enableMultiChunk gsp = true)
  (Hps : ps_blockSize ps = qi_blockSize q)
  (Hparts : parts_inside (qi_size q) (qi_blockSize q) (ps_parts ps)) (r : Segment)
  (Hr : getNextSegmentL q gsp (Some ps) rand = Some (r, SUCCESS)) :
  in_file (qi_size q) r /\ getSize r <= calc_targetSize q gsp (qi_blockSize q) /\
  (forall d, d ∈ qi_downloads q -> overlaps r (rs_seg d) = false) /\
  (forall x, seg_in x r -> has_byte (qi_blockSize q) (ps_parts ps) x).
Proof.
  revert Hr. unfold getNextSegmentL. rewrite swrap64_id by lia. cbv zeta.
  destruct ((qi_size q =? -1) || (qi_blockSize q =? 0)) eqn:E; [zb; destruct E; zb; lia|clear E].
  rewrite Hmulti. cbn [negb]. destruct ((qi_maxSegments q <=? _) || _) eqn:El; [done|].
  unfold pos_array. rewrite Hps, Z.eqb_refl.
  destruct (parts_inside_pairs _ _ _ (proj1 Hbs) Hparts) as (pp & Hpp & Hall).
  change (bool_decide (is_Some (Some ps))) with true.
  destruct (search_ok q gsp (qi_blockSize q) true _ pp Hok Hsz Hbs Hmax Hpp) as ([b l] & -> & Hl & Hb).
  { intros p0 p1 Hp. destruct (Hall p0 p1 Hp) as (? & ? & _). done. }
  rewrite option_bind_Some_eq. cbn [fst snd] in *. subst b. cbn [getSize mkSeg Z.eqb negb].
  case_bool_decide; [done|]. destruct (l !! _) as [g|] eqn:Eg; [|done]. rewrite option_bind_Some_eq.
  intros [= <-]. rewrite Forall_forall in Hl.
  destruct (Hl g (list_elem_of_lookup_2 _ _ _ Eg)) as (Hf & Hd & _ & p0 & p1 & Hp & H0 & H1).
  destruct (calc_targetSize_ok q gsp (qi_blockSize q) Hbs Hmax) as [Ht _].
  set (t := calc_targetSize _ _ _) in *. clearbody t. unfold Segment.setSize, in_file in *. seg_unfold.
  split_and!; [lia|lia|lia|lia| |].
  - intros d Hdd. specialize (Hd (rs_seg d) ltac:(by apply list_elem_of_fmap_2)).
    apply andb_false_iff in Hd. apply andb_false_iff. rewrite !Z.ltb_ge in *. lia.
  - intros x Hx. destruct (Hall p0 p1 Hp) as (_ & _ & Hh). apply Hh. lia.
Qed.

(** The parts of a source, if it has them in the blocks of the item. *)
Definition source_ok (q : QueueItem) (part : option PartialSource) : Prop :=
  match part with
  | Some ps => ps_blockSize ps = qi_blockSize q -> parts_inside (qi_size q) (qi_blockSize q) (ps_parts ps)
  | None => True
  end.

Lemma source_ok_pairs q part : 0 < qi_blockSize q -> source_ok q part ->
  exists pp, pos_pairs (match part with Some ps => pos_array q ps (qi_blockSize q) | None => [] end) = Some pp /\
    forall p0 p1, (p0, p1) ∈ pp -> 0 <= p0 < p1 /\ p1 <= qi_size q.
Proof.
  intros Hbs Hs. destruct part as [ps|]; [unfold pos_array; destruct (Z.eqb_spec (ps_blockSize ps) (qi_blockSize q)) as [E|]|].
  - destruct (parts_inside_pairs _ _ _ Hbs (Hs E)) as (pp & Hpp & Hall). exists pp. split; [exact Hpp|]. intros p0 p1 Hp. destruct (Hall p0 p1 Hp) as (? & ? & _). done.
  - exists []. split; [reflexivity|]. intros p0 p1 H%not_elem_of_nil. destruct H.
  - exists []. split; [reflexivity|]. intros p0 p1 H%not_elem_of_nil. destruct H.
Qed.

(** Block boundaries: where completed segments begin and end. *)
Definition aligned (bs size : Z) (s : Segment) : Prop :=
  (bs | getStart s) /\ ((bs | getEnd s) \/ getEnd s = size).

(** An item that single-chunk mode works on: it is not finished, and its done segments are on block
    boundaries. *)
Definition single_ready (q : QueueItem) : Prop :=
  isFinished q = false /\ Forall (aligned (qi_blockSize q) (qi_size q)) (qi_doneSegments q).

(** In single-chunk mode the first gap of such an item is not empty. *)
Lemma single_chunk_pos q : segs_ok q -> 0 < qi_size q -> 0 < qi_blockSize q -> single_ready q -> 0 < getSize (single_chunk q (qi_blockSize q)).
Proof.
  intros (Hg & Hin & _) Hsz Hbs [Hnf Hal]. unfold single_chunk, isFinished in *. destruct (qi_doneSegments q) as [|s l]; [seg_unfold; lia|].
  apply gapped_cons_inv in Hg as (Hg & Hs & Hl). apply Forall_cons in Hin as [(Hs1 & Hs2 & Hs3) Hin]. apply Forall_cons in Hal as [[Ha1 Ha2] _].
  destruct (0 <? getStart s) eqn:E0; zb.
  - destruct (roundUp_spec (getStart s) (qi_blockSize q) ltac:(lia) Hbs) as [Hru _]. seg_unfold. lia.
  - assert (getStart s = 0) as H0 by lia. destruct l as [|t l].
    + rewrite H0 in Hnf. cbn in Hnf. zb. destruct Ha2 as [Ha2|Ha2]; [|seg_unfold; lia].
      rewrite roundDown_multiple by (exact Ha2 || (seg_unfold; lia)). seg_unfold. lia.
    + rewrite Forall_forall in Hl. pose proof (Hl t (list_elem_of_here _ _)) as Hst. apply Forall_cons in Hin as [Ht _].
      destruct (roundUp_spec (getStart t) (qi_blockSize q) ltac:(unfold in_file in Ht; lia) Hbs) as [Hru _]. unfold in_file in Ht.
      destruct Ha2 as [Ha2|Ha2]; [|seg_unfold; lia]. rewrite roundDown_multiple by (exact Ha2 || (seg_unfold; lia)). seg_unfold. lia.
Qed.

(** A success is a block that is not empty. *)
Lemma success_block q gsp part rand seg :
  segs_ok q -> qi_size q = -1 \/ 0 < qi_size q < 2 ^ 63 -> 0 < qi_blockSize q < 2 ^ 63 -> maxChunkSize gsp < 2 ^ 31 ->
  (enableMultiChunk gsp = false -> single_ready q) -> source_ok q part ->
  getNextSegmentL q gsp part rand = Some (seg, SUCCESS) -> getSize seg <> 0.
Proof.
  intros Hok Hsz Hbs Hmax Hm Hs. unfold getNextSegmentL. rewrite swrap64_id by lia. cbv zeta.
  destruct ((qi_size q =? -1) || (qi_blockSize q =? 0)) eqn:E; [intros [= <-]; cbn; lia|]. assert (0 < qi_size q < 2 ^ 63) as Hpos by (zb; lia). clear E Hsz.
  destruct (enableMultiChunk gsp); cbn [negb].
  2: { destruct (negb _); [discriminate|]. intros [= <-]. pose proof (single_chunk_pos q Hok ltac:(lia) ltac:(lia) (Hm eq_refl)). lia. }
  destruct ((qi_maxSegments q <=? _) || _); [discriminate|].
  destruct (source_ok_pairs q part (proj1 Hbs) Hs) as (pp & Hpp & Hall).
  destruct (search_ok q gsp (qi_blockSize q) (bool_decide (is_Some part)) _ pp Hok Hpos Hbs Hmax Hpp Hall) as ([b l] & -> & Hl & _).
  rewrite option_bind_Some_eq. cbn [fst snd] in Hl. destruct (Z.eqb_spec (getSize b) 0) as [Hz|Hz]; cbn [negb]; [|intros [= <-]; exact Hz].
  case_bool_decide; [discriminate|]. destruct (l !! _) as [g|] eqn:Eg; [|discriminate]. rewrite option_bind_Some_eq. intros [= <-].
  rewrite Forall_forall in Hl. destruct (Hl g (list_elem_of_lookup_2 _ _ _ Eg)) as ((_ & Hf & _) & _).
  destruct (calc_targetSize_ok q gsp (qi_blockSize q) Hbs Hmax) as [Ht _]. unfold Segment.setSize. cbn [getSize]. lia.
Qed.

(** In either mode an item that is not finished and has nothing running has a block for a full source, unless
    it is faster than the speed from which no segment is begun. *)
Lemma idle_block q gsp rand :
  qi_inv q -> 0 < qi_size q < 2 ^ 63 -> 0 < qi_blockSize q < 2 ^ 63 -> maxChunkSize gsp < 2 ^ 31 ->
  (enableMultiChunk gsp = true -> dontBeginSegment gsp = true -> qi_averageSpeed q <= dontBeginSegSpeed gsp * 1024) ->
  (enableMultiChunk gsp = false -> single_ready q) -> qi_downloads q = [] -> isFinished q = false ->
  exists r, getNextSegmentL q gsp None rand = Some (r, SUCCESS) /\ 0 < getSize r.
Proof.
  intros (Hok & _ & Hseg) Hsz Hbs Hmax Hspeed Hsingle Hidle Hnf. destruct (enableMultiChunk gsp) eqn:Em.
  - destruct (getNextSegmentL_answer q gsp rand Hok Hsz Hbs Hmax Em) as (r & e & Hr & He).
    assert (dontBeginSegment gsp && (dontBeginSegSpeed gsp * 1024 <? qi_averageSpeed q) = false) as Hs.
    { destruct (dontBeginSegment gsp); [|reflexivity]. apply Z.ltb_ge, Hspeed; reflexivity. }
    rewrite Hidle, Hs in He. cbn [length] in He. rewrite orb_false_r in He. destruct e; try done.
    + exists r. split; [exact Hr|]. destruct He as (_ & (_ & H & _) & _). exact H.
    + exfalso. destruct He as [_ He]. destruct (isFinished_iff q Hok ltac:(lia)) as [[_ Hfin] _].
      rewrite Hfin in Hnf; [done|]. intros x Hx. by eapply spoken_for_idle, He.
    + exfalso. apply Z.leb_le in He. lia.
  - exists (single_chunk q (qi_blockSize q)). split; [|apply single_chunk_pos; (exact Hok || exact (Hsingle eq_refl) || lia)].
    unfold getNextSegmentL. rewrite swrap64_id by lia. cbv zeta. destruct (Z.eqb_spec (qi_size q) (-1)); [lia|]. destruct (Z.eqb_spec (qi_blockSize q) 0); [lia|].
    cbn [orb]. rewrite Em, Hidle. reflexivity.
Qed.

(** Only an item that is not finished is given a block. *)
Lemma block_unfinished q gsp part rand seg e :
  segs_ok q -> qi_size q = -1 \/ 0 < qi_size q < 2 ^ 63 -> 0 < qi_blockSize q < 2 ^ 63 -> maxChunkSize gsp < 2 ^ 31 ->
  enableMultiChunk gsp = true -> source_ok q part ->
  getNextSegmentL q gsp part rand = Some (seg, e) -> getSize seg <> 0 -> isFinished q = false.
Proof.
  intros Hok Hsz Hbs Hmax Hm Hs Hr Hseg. pose proof Hok as (_ & Hin & _). destruct Hsz as [Hsz|Hsz].
  { unfold isFinished. destruct (qi_doneSegments q) as [|d [|]]; [reflexivity| |reflexivity]. apply Forall_cons in Hin as [(_ & Hd & _) _].
    rewrite Hsz. destruct (Z.eqb_spec (getSize d) (-1)); [lia|apply andb_false_r]. }
  enough (exists x, 0 <= x < qi_size q /\ ~ covered x (qi_doneSegments q)) as (x & Hx & Hn).
  { destruct (isFinished q) eqn:E; [|reflexivity]. destruct (isFinished_iff q Hok ltac:(lia)) as [[H _] _]. destruct Hn. apply H; [exact E|exact Hx]. }
  revert Hr. unfold getNextSegmentL. rewrite swrap64_id by lia. cbv zeta.
  destruct ((qi_size q =? -1) || (qi_blockSize q =? 0)) eqn:E; [zb; destruct E; zb; lia|clear E]. rewrite Hm. cbn [negb].
  destruct ((qi_maxSegments q <=? _) || _); [intros Hr; inversion Hr; subst; cbn in Hseg; lia|].
  destruct (source_ok_pairs q part (proj1 Hbs) Hs) as (pp & Hpp & Hall).
  destruct (search_ok q gsp (qi_blockSize q) (bool_decide (is_Some part)) _ pp Hok Hsz Hbs Hmax Hpp Hall) as ([b l] & -> & Hl & Hb).
  rewrite option_bind_Some_eq. cbn [fst snd] in Hl, Hb. destruct (Z.eqb_spec (getSize b) 0) as [Hz|Hz]; cbn [negb].
  - destruct (bool_decide (l = [])) eqn:El; [intros Hr; inversion Hr; subst; cbn in Hseg; lia|]. destruct l as [|g l]; [discriminate|]. intros _. apply Forall_cons in Hl as [(_ & _ & Hx & _) _]. exact Hx.
  - intros _. destruct (bool_decide (is_Some part)); [subst b; cbn in Hz; lia|]. destruct Hb as [_ [[-> _]|(Hf & _ & _ & x & Hx & Hn)]]; [cbn in Hz; lia|].
    exists x. split; [|exact Hn]. unfold in_file in Hf. seg_unfold. lia.
Qed.

Definition sample_ps : PartialSource := mkPartial [1; 2; 3; 5] 0 1000 0 65536.

Lemma getNextSegmentL_partial_witness :
  let r := mkSeg 262144 37856 in
  in_file (qi_size sample_qi) r /\ getSize r <= calc_targetSize sample_qi sample_gsp (qi_blockSize sample_qi) /\
  (forall d, d ∈ qi_downloads sample_qi -> overlaps r (rs_seg d) = false) /\
  (forall x, seg_in x r -> has_byte (qi_blockSize sample_qi) (ps_parts sample_ps) x).
Proof.
  apply (getNextSegmentL_partial sample_qi sample_gsp sample_ps 2); [apply sample_qi_ok|simpl; lia|simpl; lia|simpl; lia|done|done|simpl; lia|].
  vm_compute. reflexivity.
Defined.

(** ** One chunk at a time *)

Lemma consolidated_aligned bs size l :
  fs_sorted l -> Forall (aligned bs size) l -> Forall (aligned bs size) (consolidated l).
Proof.
  intros _ Hl. destruct Hl as [|p l Hp Hl]; [constructor|]. simpl. revert p Hp.
  induction Hl as [|c l Hc _ IH]; intros p Hp; simpl; [by constructor|]. case_if; [|constructor; auto].
  apply IH. destruct Hp as [Hp1 Hp2], Hc as [Hc1 Hc2]. unfold aligned, hull. seg_unfold. split; [done|].
  replace (getStart p + (Z.max (getStart c + getSize c) (getStart p + getSize p) - getStart p))
    with (Z.max (getStart c + getSize c) (getStart p + getSize p)) by lia.
  destruct (Z.max_spec (getStart c + getSize c) (getStart p + getSize p)) as [[_ ->]|[_ ->]]; done.
Qed.

Lemma addSegment_aligned q s q' bs :
  segs_ok q -> in_file (qi_size q) s -> qi_size q < 2 ^ 63 -> addSegment q s = Some q' ->
  aligned bs (qi_size q) s -> Forall (aligned bs (qi_size q)) (qi_doneSegments q) ->
  Forall (aligned bs (qi_size q')) (qi_doneSegments q').
Proof.
  intros Hok Hs Hsz Hadd Ha Hall. rewrite addSegment_run in Hadd by done. injection Hadd as <-.
  destruct Hok as (Hg%gapped_fs_sorted & _ & _). cbn [qi_doneSegments qi_size set_segments].
  apply consolidated_aligned; [by apply fs_insert_sorted|]. by apply fs_insert_Forall.
Qed.

(** In single-chunk mode the request is the first gap: when the done segments lie on
    block boundaries and the file is not finished, [getNextSegmentL] returns the
    range from the first byte that is not done up to the next done segment or the end
    of the file. *)
Theorem getNextSegmentL_single (q : QueueItem) (gsp : GetSegmentParams) (ps : option PartialSource) (rand : Z)
  (Hok : segs_ok q) (Hsz : 0 < qi_size q < 2 ^ 63) (Hbs : 0 < qi_blockSize q < 2 ^ 63)
  (Hal : Forall (aligned (qi_blockSize q) (qi_size q)) (qi_doneSegments q))
  (Hsingle : enableMultiChunk gsp = false) (Hidle : qi_downloads q = []) (Hnf : isFinished q = false) :
  exists r, getNextSegmentL q gsp ps rand = Some (r, SUCCESS) /\ in_file (qi_size q) r /\
    (forall x, seg_in x r -> ~ covered x (qi_doneSegments q)) /\
    (forall x, 0 <= x < getStart r -> covered x (qi_doneSegments q)) /\
    (getEnd r = qi_size q \/ covered (getEnd r) (qi_doneSegments q)).
Proof.
  unfold getNextSegmentL. rewrite swrap64_id by lia. cbv zeta.
  destruct ((qi_size q =? -1) || (qi_blockSize q =? 0)) eqn:E; [zb; destruct E; zb; lia|clear E].
  rewrite Hsingle, Hidle. cbn [negb]. rewrite bool_decide_true by done. cbn [negb].
  eexists. split; [done|]. unfold single_chunk, isFinished in *. destruct Hok as (Hg & Hin & _).
  destruct (qi_doneSegments q) as [|s l].
  { unfold in_file. cbn [fst snd]. unfold covered. setoid_rewrite Exists_nil. seg_unfold. split_and!; try lia; intros; lia. }
  apply gapped_cons_inv in Hg as (Hg & Hs & Hl). apply Forall_cons in Hin as [Hs1 Hin].
  apply Forall_cons in Hal as [[Ha1 Ha2] Hal]. rewrite Forall_forall in Hl.
  setoid_rewrite covered_cons.
  assert (forall x, covered x l -> getEnd s < x) as Hlt.
  { intros x (t & Ht & Hx)%Exists_exists. specialize (Hl t Ht). seg_unfold. lia. }
  unfold in_file in *. destruct (0 <? getStart s) eqn:E0; zb.
  - rewrite roundUp_multiple by (lia || done). seg_unfold. split_and!; try lia.
    intros x Hx [?|?%Hlt]; lia.
  - assert (getStart s = 0) as H0 by lia. destruct l as [|t l].
    + destruct Ha2 as [Ha2|Ha2].
      2:{ rewrite H0, Z.eqb_refl in Hnf. cbn [andb] in Hnf. zb. seg_unfold. lia. }
      rewrite H0, Z.eqb_refl in Hnf. cbn [andb] in Hnf. zb.
      rewrite roundDown_multiple by (done || (seg_unfold; lia)). unfold covered in *. seg_unfold.
      split_and!; try lia.
      intros x Hx [?|?%Exists_nil]; [lia|done].
    + pose proof (Hl t (list_elem_of_here _ _)) as Hst. apply Forall_cons in Hin as [Ht Hin].
      apply Forall_cons in Hal as [[Hb1 Hb2] _]. apply gapped_cons_inv in Hg as (Hg & Ht0 & Hl').
      destruct Ha2 as [Ha2|Ha2]; [|seg_unfold; lia].
      rewrite roundDown_multiple, roundUp_multiple by (done || (seg_unfold; lia)).
      rewrite Forall_forall in Hl'. setoid_rewrite covered_cons. seg_unfold.
      split_and!; try lia.
      intros x Hx [?|[?|(u & Hu & Hxu)%Exists_exists]]; [lia|lia|]. specialize (Hl' u Hu). seg_unfold. lia.
Qed.

Lemma getNextSegmentL_single_witness :
  let q := sample_qi in
  exists r, getNextSegmentL q (mkGSP 65536 false false 0 0) None 0 = Some (r, SUCCESS) /\ in_file (qi_size q) r /\
    (forall x, seg_in x r -> ~ covered x (qi_doneSegments q)) /\
    (forall x, 0 <= x < getStart r -> covered x (qi_doneSegments q)) /\
    (getEnd r = qi_size q \/ covered (getEnd r) (qi_doneSegments q)).
Proof.
  apply (getNextSegmentL_single sample_qi (mkGSP 65536 false false 0 0) None 0);
    [apply sample_qi_ok|simpl; lia|simpl; lia| |done..].
  repeat apply Forall_cons_2; [..|apply Forall_nil_2]; (split; [|left]); seg_unfold;
    [exists 0|exists 1|exists 2|exists 3]; reflexivity.
Defined.
