(* ===== verification/PartsInfo.v ===== *)
(** * Parts of files exchanged with other clients

    A client that has part of a file announces it as a list of block ranges
    ([QueueItem::PartsInfo], a flat vector of [uint16_t] pairs): [getParts] computes
    it from the done segments, [isNeededPart] decides whether another client's parts
    are worth asking for, [countParts] and [compareParts] summarise lists
    ([client/QueueItem.cpp]). *)

From S2P Require Import Prelude Segment SegmentSet HashValue Download QueueItem NextSegment.

(** ** Operations *)

(** The state of the loop: [start], [end], [i], [j]. *)
Definition isNeededPart_step (theirParts ourParts : list Z) (st : Z * Z * nat * nat) : (Z * Z * nat * nat) + option bool :=
  let '(start, end_, i, j) := st in
  if (j + 2 <=? length ourParts)%nat then
    match ourParts !! j, ourParts !! (j + 1)%nat with
    | Some myStart, Some myEnd =>
        if start <? myStart then inr (Some true)
        else if myEnd <=? start then inl (start, end_, i, (j + 2)%nat)
        else if end_ <=? myEnd then
          if (length theirParts <? i + 2 + 2)%nat then inr (Some false)
          else
            match theirParts !! (i + 2)%nat, theirParts !! (i + 3)%nat with
            | Some s, Some e => inl (s, e, (i + 2)%nat, j)
            | _, _ => inr None
            end
        else inl (myEnd, end_, i, (j + 2)%nat)
    | _, _ => inr None
    end
  else inr (Some true).

Definition isNeededPart (theirParts ourParts : list Z) : option bool :=
  if Nat.odd (length theirParts) || Nat.odd (length ourParts) then Some false
  else
    match theirParts with
    | start :: end_ :: _ => mjoin (while (isNeededPart_step theirParts ourParts) loop_fuel (start, end_, 0%nat, 0%nat))
    | _ => Some false
    end.

(** [int64_t] and [uint64_t] operands mix to [uint64_t]. *)
Definition getParts_step (size blockSize : Z) (i : Segment) : list Z :=
  let s := u16 (u64 (getStart i + blockSize - 1) / blockSize) in
  let end_ := if size <=? getEnd i then swrap 64 (getEnd i + u64 (blockSize - 1)) else getEnd i in
  let e := u16 (u64 end_ / blockSize) in
  [s; e].

Fixpoint getParts_loop (size blockSize : Z) (maxSize : nat) (l : SegmentSet) (partialInfo : list Z) : list Z :=
  match l with
  | [] => partialInfo
  | i :: r => if (length partialInfo <? maxSize)%nat
              then getParts_loop size blockSize maxSize r (partialInfo ++ getParts_step size blockSize i)
              else partialInfo
  end.

Definition getParts (q : QueueItem) (partialInfo : list Z) (blockSize : Z) : list Z :=
  if blockSize =? 0 then partialInfo
  else
    let maxSize := Nat.min (length (qi_doneSegments q) * 2) 510 in
    getParts_loop (qi_size q) blockSize maxSize (qi_doneSegments q) partialInfo.

Fixpoint countParts (pi : list Z) : Z :=
  match pi with
  | a :: b :: r => (b - a) + countParts r
  | _ => 0
  end.

(** [memcmp] over the elements' bytes; two lists of the same length are equal bytes
    exactly when they are equal. *)
Definition compareParts (a b : list Z) : bool :=
  if negb (length a =? length b)%nat then false
  else memcmp (concat (le_store 2 <$> a)) (concat (le_store 2 <$> b)) =? 0.

(** ** Meaning *)

Fixpoint in_parts (k : Z) (l : list Z) : Prop :=
  match l with
  | a :: b :: r => a <= k < b \/ in_parts k r
  | _ => False
  end.

(** Non-empty ranges in increasing order, from [lo] up. *)
Fixpoint parts_wf (lo : Z) (l : list Z) : Prop :=
  match l with
  | [] => True
  | a :: b :: r => lo <= a < b /\ parts_wf b r
  | [_] => False
  end.

Lemma parts_wf_lower lo l k : parts_wf lo l -> in_parts k l -> lo <= k.
Proof.
  revert lo. induction l as [|a|a b l IH] using list_pair_ind; intros lo; simpl; [done|done|].
  intros [H1 H2] [H3|H3]; [lia|]. specialize (IH b H2 H3). lia.
Qed.

Lemma parts_wf_even lo l : parts_wf lo l -> Nat.odd (length l) = false.
Proof.
  revert lo. induction l as [|a|a b l IH] using list_pair_ind; intros lo; simpl; [done|done|].
  intros [_ H]. by apply (IH b).
Qed.

(** The suffix of well-formed parts from an even index. *)
Lemma parts_suffix (l : list Z) (n : nat) a b r : drop n l = a :: b :: r ->
  l !! n = Some a /\ l !! (n + 1)%nat = Some b /\ drop (n + 2) l = r /\ (n + 2 <= length l)%nat.
Proof.
  intros H. assert (forall k, l !! (n + k)%nat = (a :: b :: r) !! k) as Hk by (intros k; by rewrite <-H, lookup_drop).
  split_and!.
  - specialize (Hk 0%nat). by rewrite Nat.add_0_r in Hk.
  - apply (Hk 1%nat).
  - by rewrite <-drop_drop, H.
  - apply (f_equal length) in H. rewrite length_drop in H. simpl in H. lia.
Qed.

Section Needed.
Context (their our : list Z).

Definition NEED : Prop := exists k, in_parts k their /\ ~ in_parts k our.

(** What is left to decide. *)
Definition cur_need (start end_ : Z) (rest o : list Z) : Prop :=
  exists k, (start <= k < end_ \/ in_parts k rest) /\ ~ in_parts k o.

Definition needed_inv (st : Z * Z * nat * nat) : Prop :=
  let '(start, end_, i, j) := st in
  start < end_ /\ (i + 2 <= length their)%nat /\ (j <= length our)%nat /\
  (exists lo, parts_wf lo (drop j our)) /\ parts_wf end_ (drop (i + 2) their) /\
  (NEED <-> cur_need start end_ (drop (i + 2) their) (drop j our)).

Lemma needed_step st :
  needed_inv st ->
  match isNeededPart_step their our st with
  | inl st' => needed_inv st' /\
      0 <= Z.of_nat (length their + length our) - Z.of_nat (st'.1.2 + st'.2)
        < Z.of_nat (length their + length our) - Z.of_nat (st.1.2 + st.2)
  | inr r => exists b, r = Some b /\ (b = true <-> NEED)
  end.
Proof.
  destruct st as [[[start end_] i] j]. intros (Hse & Hi & Hj & [lo Hour] & Hth & Heq).
  unfold isNeededPart_step. destruct (drop j our) as [|ms [|me o]] eqn:Ed; [| |].
  - destruct (Nat.leb_spec (j + 2) (length our)) as [Hle|Hle].
    { apply (f_equal length) in Ed. rewrite length_drop in Ed. simpl in Ed. lia. }
    exists true. split; [done|]. split; [intros _|done]. apply Heq. exists start. split; [left; lia|]. simpl. tauto.
  - done.
  - destruct (parts_suffix _ _ _ _ _ Ed) as (H1 & H2 & H3 & H4).
    destruct (Nat.leb_spec (j + 2) (length our)) as [Hle|Hle]; [|lia]. rewrite H1, H2.
    destruct Hour as [Hm Ho].
    destruct (start <? ms) eqn:E1; zb.
    { exists true. split; [done|]. split; [intros _|done]. apply Heq. exists start. split; [left; lia|].
      intros [?|Hk]; [lia|]. pose proof (parts_wf_lower _ _ _ Ho Hk). lia. }
    destruct (me <=? start) eqn:E2; zb.
    { cbn [fst snd]. split; [|lia]. split_and!; [done|lia|lia| |done|]; [exists me; by rewrite H3|].
      rewrite Heq, H3. unfold cur_need. cbn [in_parts]. split; intros (k & Hk & Hn); exists k; (split; [done|]).
      - tauto.
      - intros [?|?]; [|done]. destruct Hk as [?|Hk]; [lia|]. pose proof (parts_wf_lower _ _ _ Hth Hk). lia. }
    destruct (end_ <=? me) eqn:E3; zb.
    + destruct (drop (i + 2) their) as [|s [|e rest]] eqn:Et; [| |].
      * destruct (Nat.ltb_spec (length their) (i + 2 + 2)) as [Hlt|Hge].
        2:{ apply (f_equal length) in Et. rewrite length_drop in Et. simpl in Et. lia. }
        exists false. split; [done|]. split; [done|]. intros (k & [Hk|Hk] & Hn)%Heq; [|done].
        exfalso. apply Hn. left. lia.
      * done.
      * destruct (parts_suffix _ _ _ _ _ Et) as (G1 & G2 & G3 & G4).
        destruct (Nat.ltb_spec (length their) (i + 2 + 2)) as [Hlt|Hge]; [lia|].
        replace (i + 3)%nat with (i + 2 + 1)%nat by lia. rewrite G1, G2. cbn [fst snd].
        destruct Hth as [Hs Hrest]. split; [|lia].
        split_and!; [lia|lia|lia|exists lo; by rewrite Ed|by rewrite G3|].
        rewrite Heq, G3, Ed. unfold cur_need. cbn [in_parts]. split; intros (k & Hk & Hn); exists k; (split; [|done]).
        -- destruct Hk as [Hk|Hk]; [|done]. exfalso. apply Hn. left. lia.
        -- by right.
    + cbn [fst snd]. split; [|lia]. split_and!; [lia|lia|lia|exists me; by rewrite H3|done|].
      rewrite Heq, H3. unfold cur_need. cbn [in_parts]. split; intros (k & Hk & Hn).
      * exists k. split; [|tauto]. destruct Hk as [Hk|Hk]; [|by right].
        left. destruct (decide (k < me)); [exfalso; apply Hn; left; lia|lia].
      * exists k. split; [destruct Hk; [left; lia|by right]|]. intros [?|?]; [|done].
        destruct Hk as [Hk|Hk]; [lia|]. pose proof (parts_wf_lower _ _ _ Hth Hk). lia.
Qed.

Lemma isNeededPart_iff lo1 lo2 :
  parts_wf lo1 their -> parts_wf lo2 our -> Z.of_nat (length their + length our) < 2 ^ 200 ->
  exists b, isNeededPart their our = Some b /\ (b = true <-> NEED).
Proof.
  intros Ht Ho Hlen. unfold isNeededPart. rewrite (parts_wf_even _ _ Ht), (parts_wf_even _ _ Ho). cbn [orb].
  destruct their as [|s [|e rest]] eqn:Et.
  - exists false. split; [done|]. split; [done|]. intros (k & Hk & _). by rewrite Et in Hk.
  - done.
  - rewrite <-Et in *.
    edestruct (while_total (isNeededPart_step their our) needed_inv
      (fun st => Z.of_nat (length their + length our) - Z.of_nat (st.1.2 + st.2))
      (fun r => exists b, r = Some b /\ (b = true <-> NEED)))
      with (fuel := loop_fuel) (s := (s, e, 0%nat, 0%nat)) as (r & -> & b & -> & Hb).
    + intros st Hst. apply needed_step in Hst. destruct (isNeededPart_step their our st); [|done].
      destruct Hst as [? ?]. split; [done|lia].
    + pose proof Ht as Ht'. rewrite Et in Ht'. destruct Ht' as [Hs Hr]. unfold needed_inv, NEED. rewrite Et. split_and!; [lia|simpl; lia|lia|by exists lo2|done|].
      by rewrite drop_0.
    + rewrite loop_fuel_val. cbn [fst snd]. lia.
    + exists b. done.
Qed.

(** It returns on any lists, also on those that are not well formed. *)
Lemma isNeededPart_total : Z.of_nat (length their + length our) < 2 ^ 200 -> is_Some (isNeededPart their our).
Proof.
  intros Hlen. unfold isNeededPart. destruct (Nat.odd (length their) || Nat.odd (length our)); [eauto|].
  destruct their as [|s [|e rest]] eqn:Et; [eauto..|]. rewrite <-Et in *.
  destruct (while_total (isNeededPart_step their our)
    (fun st => (st.1.2 + 2 <= length their)%nat /\ (st.2 <= length our)%nat)
    (fun st => Z.of_nat (length their + length our) - Z.of_nat (st.1.2 + st.2)) is_Some)
    with (fuel := loop_fuel) (s := (s, e, 0%nat, 0%nat)) as (r & -> & [b ->]); [| | |eexists; reflexivity].
  - intros [[[start end_] i] j] [Hi Hj]. cbn [fst snd] in Hi, Hj. unfold isNeededPart_step. destruct (Nat.leb_spec (j + 2) (length our)) as [Hle|Hle]; [|eauto].
    destruct (lookup_lt_is_Some_2 our j ltac:(lia)) as [ms ->]. destruct (lookup_lt_is_Some_2 our (j + 1) ltac:(lia)) as [me ->].
    destruct (start <? ms); [eauto|]. destruct (me <=? start); [cbn [fst snd]; split; [split; lia|lia]|].
    destruct (end_ <=? me); [|cbn [fst snd]; split; [split; lia|lia]]. destruct (Nat.ltb_spec (length their) (i + 2 + 2)) as [Hlt|Hge]; [eauto|].
    destruct (lookup_lt_is_Some_2 their (i + 2) ltac:(lia)) as [s' ->]. destruct (lookup_lt_is_Some_2 their (i + 3) ltac:(lia)) as [e' ->]. cbn [fst snd]. split; [split; lia|lia].
  - cbn [fst snd]. rewrite Et. simpl. split; lia.
  - rewrite loop_fuel_val. cbn [fst snd]. lia.
Qed.
End Needed.

(** ** The parts of an item *)

(** Block [k] of the file. *)
Definition block_of (size bs k : Z) : Segment := mkSeg (k * bs) (Z.min ((k + 1) * bs) size - k * bs).

Section Parts.
Context (size bs : Z).
Hypothesis Hbs : 0 < bs < 2 ^ 62.
Hypothesis Hsize : 0 < size < 2 ^ 62.
Hypothesis Hcount : size <= 65534 * bs.

Lemma getParts_step_eq s :
  in_file size s ->
  getParts_step size bs s =
  [(getStart s + bs - 1) / bs; (if size <=? getEnd s then size + bs - 1 else getEnd s) / bs].
Proof using Hbs Hsize Hcount.
  intros (H0 & H1 & H2). unfold getParts_step, wrap.
  rewrite (Z.mod_small (getStart s + bs - 1)) by (unfold getEnd in *; lia).
  assert (forall n, 0 <= n <= size + bs - 1 -> (n / bs) mod 2 ^ 16 = n / bs) as Hdiv.
  { intros n Hn. apply Z.mod_small. split; [apply Z.div_pos; lia|]. apply Z.div_lt_upper_bound; lia. }
  rewrite Hdiv by (unfold getEnd in *; lia). do 2 f_equal. case_if.
  - assert (getEnd s = size) as -> by lia. rewrite (Z.mod_small (bs - 1)) by lia.
    rewrite swrap64_id by lia. rewrite (Z.mod_small (size + (bs - 1))) by lia. rewrite Hdiv by lia. f_equal. lia.
  - rewrite (Z.mod_small (getEnd s)) by (unfold getEnd in *; lia). apply Hdiv. unfold getEnd in *. lia.
Qed.

(** The pair computed for a segment is the range of the blocks it contains. *)
Lemma getParts_step_blocks s k :
  in_file size s -> 0 <= k -> k * bs < size ->
  in_parts k (getParts_step size bs s) <->
  getStart s <= getStart (block_of size bs k) /\ getEnd (block_of size bs k) <= getEnd s.
Proof using Hbs Hsize Hcount.
  intros Hs Hk Hks. rewrite getParts_step_eq by done. destruct Hs as (H0 & H1 & H2).
  cbn [in_parts]. unfold block_of.
  pose proof (Z.div_mod (getStart s + bs - 1) bs ltac:(lia)).
  pose proof (Z.mod_pos_bound (getStart s + bs - 1) bs ltac:(lia)).
  assert ((getStart s + bs - 1) / bs <= k <-> getStart s <= k * bs) as -> by nia.
  assert (forall n, k < n / bs <-> (k + 1) * bs <= n) as Hlt.
  { intros n. pose proof (Z.div_mod n bs ltac:(lia)). pose proof (Z.mod_pos_bound n bs ltac:(lia)). nia. }
  rewrite Hlt. seg_unfold. case_if; nia.
Qed.

Lemma getParts_step_wf s :
  in_file size s -> aligned bs size s ->
  exists a b, getParts_step size bs s = [a; b] /\ a < b /\ a * bs = getStart s /\
    (getEnd s < size -> b * bs = getEnd s).
Proof using Hbs Hsize Hcount.
  intros Hs [[m Hm] Ha]. rewrite getParts_step_eq by done. destruct Hs as (H0 & H1 & H2).
  eexists _, _. split; [done|].
  assert ((getStart s + bs - 1) / bs = m) as ->.
  { rewrite Hm. replace (m * bs + bs - 1) with (bs - 1 + m * bs) by lia.
    rewrite Z.div_add, Z.div_small; lia. }
  case_if.
  - split_and!; [|lia|lia].
    pose proof (Z.div_mod (size + bs - 1) bs ltac:(lia)). pose proof (Z.mod_pos_bound (size + bs - 1) bs ltac:(lia)).
    seg_unfold. nia.
  - destruct Ha as [[n Hn]|?]; [|lia]. rewrite Hn, Z.div_mul by lia. seg_unfold. split_and!; nia.
Qed.

Lemma getParts_loop_all l acc n :
  (length acc + 2 * length l <= n)%nat ->
  getParts_loop size bs n l acc = acc ++ concat (getParts_step size bs <$> l).
Proof using Type.
  revert acc. induction l as [|s l IH]; intros acc Hn; simpl; [by rewrite app_nil_r|].
  simpl in Hn. destruct (Nat.ltb_spec (length acc) n); [|lia].
  rewrite IH by (rewrite length_app; unfold getParts_step; simpl; lia). by rewrite <-app_assoc.
Qed.

Lemma length_parts_concat l : length (concat (getParts_step size bs <$> l)) = (2 * length l)%nat.
Proof using Type.
  induction l as [|s l IH]; [done|]. rewrite fmap_cons. cbn [concat]. rewrite length_app, IH.
  unfold getParts_step. simpl. lia.
Qed.

Lemma in_parts_concat k l :
  in_parts k (concat (getParts_step size bs <$> l)) <-> exists s, s ∈ l /\ in_parts k (getParts_step size bs s).
Proof using Type.
  induction l as [|s l IH]; simpl.
  - split; [done|]. intros (s & Hs & _). by apply not_elem_of_nil in Hs.
  - setoid_rewrite elem_of_cons. unfold getParts_step in *. cbn [app in_parts] in *. rewrite IH. split.
    + intros [H|(t & Ht & H)]; [exists s; split; [by left|by left]|exists t; split; [by right|done]].
    + intros (t & [->|Ht] & [H|[]]); [by left|]. right. exists t. split; [done|by left].
Qed.

Lemma parts_concat_wf l :
  gapped l -> Forall (in_file size) l -> Forall (aligned bs size) l -> forall lo,
  match l with [] => True | s :: _ => lo * bs <= getStart s end ->
  parts_wf lo (concat (getParts_step size bs <$> l)).
Proof using Hbs Hsize Hcount.
  induction l as [|s l IH]; intros Hg Hin Hal lo Hlo; [done|].
  apply gapped_cons_inv in Hg as (Hg & Hs & Hl). apply Forall_cons in Hin as [Hin1 Hin]. apply Forall_cons in Hal as [Ha Hal].
  destruct (getParts_step_wf s Hin1 Ha) as (a & b & Hab & Hlt & Hea & Heb).
  change (concat (getParts_step size bs <$> s :: l)) with
    (getParts_step size bs s ++ concat (getParts_step size bs <$> l)). rewrite Hab. cbn [app parts_wf].
  split; [nia|]. apply IH; [done..|]. destruct l as [|t l]; [done|].
  apply Forall_cons in Hl as [Hst _]. apply Forall_cons in Hin as [(_ & ? & ?) _]. rewrite Heb; seg_unfold; lia.
Qed.
End Parts.

Lemma getParts_all q bs :
  0 < bs -> (length (qi_doneSegments q) <= 255)%nat ->
  getParts q [] bs = concat (getParts_step (qi_size q) bs <$> qi_doneSegments q).
Proof.
  intros Hbs Hl. unfold getParts. destruct (bs =? 0) eqn:E; zb; [lia|].
  rewrite getParts_loop_all; [done|]. simpl length. lia.
Qed.

(** All bytes of a block are covered exactly when one segment contains it. *)
Lemma covered_block l a b :
  gapped l -> a < b -> (exists s, s ∈ l /\ getStart s <= a /\ b <= getEnd s) <-> forall x, a <= x < b -> covered x l.
Proof.
  intros Hg Hab. split.
  - intros (s & Hs & ? & ?) x Hx. apply Exists_exists. exists s. split; [done|]. seg_unfold. lia.
  - intros Hc. destruct (decide (Exists (fun s => getStart s <= a /\ b <= getEnd s) l)) as [H|H].
    + by apply Exists_exists in H.
    + destruct (gapped_uncovered l a b Hg Hab) as (x & Hx & Hn); [|by destruct Hn; apply Hc].
      intros s Hs Hc'. apply H, Exists_exists. by exists s.
Qed.

Lemma getParts_blocks q bs k :
  segs_ok q -> 0 < qi_size q < 2 ^ 62 -> 0 < bs < 2 ^ 62 -> qi_size q <= 65534 * bs ->
  (length (qi_doneSegments q) <= 255)%nat -> 0 <= k -> k * bs < qi_size q ->
  in_parts k (getParts q [] bs) <->
  forall x, seg_in x (block_of (qi_size q) bs k) -> covered x (qi_doneSegments q).
Proof.
  intros (Hg & Hin & _) Hsz Hbs Hc Hl Hk Hks. rewrite getParts_all, in_parts_concat by (lia || done).
  rewrite Forall_forall in Hin. unfold seg_in. rewrite <-covered_block; [|done|].
  - split; intros (s & Hs & H); exists s; (split; [done|]); by apply (getParts_step_blocks (qi_size q) bs Hbs Hsz Hc s k (Hin s Hs) Hk Hks).
  - unfold block_of. seg_unfold. lia.
Qed.

(** The announced parts are exactly the complete blocks: for a file of at most
    65534 blocks with at most 255 done segments, block [k] is in [getParts] exactly
    when every byte of it has been downloaded. *)
Theorem getParts_spec (q : QueueItem) (bs k : Z)
  (Hok : segs_ok q) (Hsz : 0 < qi_size q < 2 ^ 62) (Hbs : 0 < bs < 2 ^ 62) (Hc : qi_size q <= 65534 * bs)
  (Hl : (length (qi_doneSegments q) <= 255)%nat) (Hk : 0 <= k) (Hks : k * bs < qi_size q) :
  in_parts k (getParts q [] bs) <->
  forall x, seg_in x (block_of (qi_size q) bs k) -> covered x (qi_doneSegments q).
Proof. by apply getParts_blocks. Qed.

Lemma getParts_spec_witness :
  in_parts 2 (getParts sample_qi [] 65536) <->
  forall x, seg_in x (block_of (qi_size sample_qi) 65536 2) -> covered x (qi_doneSegments sample_qi).
Proof. apply (getParts_spec sample_qi 65536 2); [apply sample_qi_ok|simpl; lia..]. Defined.

(** [isNeededPart] answers the question it is asked for: given another client's
    well-formed parts of the same file, compared with the parts of an item whose
    done segments lie on block boundaries, it returns true exactly when the other client has
    a block of which this item misses a byte. *)
Theorem isNeededPart_spec (q : QueueItem) (theirParts : list Z) (bs : Z)
  (Hok : segs_ok q) (Hsz : 0 < qi_size q < 2 ^ 62) (Hbs : 0 < bs < 2 ^ 62) (Hc : qi_size q <= 65534 * bs)
  (Hal : Forall (aligned bs (qi_size q)) (qi_doneSegments q))
  (Hl : (length (qi_doneSegments q) <= 255)%nat)
  (Hth : parts_wf 0 theirParts) (Hthl : (length theirParts <= 510)%nat)
  (Hthb : forall k, in_parts k theirParts -> k * bs < qi_size q) :
  exists b, isNeededPart theirParts (getParts q [] bs) = Some b /\
    (b = true <-> exists k x, in_parts k theirParts /\ seg_in x (block_of (qi_size q) bs k) /\
                              ~ covered x (qi_doneSegments q)).
Proof.
  pose proof Hok as (Hg & Hin & _).
  destruct (isNeededPart_iff theirParts (getParts q [] bs) 0 0 Hth) as (b & Hb & Hiff).
  - rewrite getParts_all by (lia || done). apply parts_concat_wf; [done..|].
    destruct Hin as [|s l (? & _) _]; [done|lia].
  - rewrite getParts_all by (lia || done).
    rewrite length_parts_concat. lia.
  - exists b. split; [done|]. rewrite Hiff. unfold NEED. split.
    + intros (k & Hk & Hn). pose proof (parts_wf_lower _ _ _ Hth Hk) as Hk0. pose proof (Hthb k Hk) as Hks.
      rewrite getParts_blocks in Hn by done. unfold seg_in in Hn. rewrite <-covered_block in Hn; [|done|unfold block_of; seg_unfold; lia].
      destruct (gapped_uncovered (qi_doneSegments q) (getStart (block_of (qi_size q) bs k))
        (getEnd (block_of (qi_size q) bs k)) Hg) as (x & Hx & Hxn).
      * unfold block_of. seg_unfold. lia.
      * intros s Hs Hcs. apply Hn. by exists s.
      * exists k, x. done.
    + intros (k & x & Hk & Hx & Hn). pose proof (parts_wf_lower _ _ _ Hth Hk) as Hk0. pose proof (Hthb k Hk) as Hks.
      exists k. split; [done|]. rewrite getParts_blocks by done. intros Hc'. by apply Hn, Hc'.
Qed.

Lemma isNeededPart_spec_witness :
  exists b, isNeededPart [1; 3] (getParts sample_qi [] 65536) = Some b /\
    (b = true <-> exists k x, in_parts k [1; 3] /\ seg_in x (block_of (qi_size sample_qi) 65536 k) /\
                              ~ covered x (qi_doneSegments sample_qi)).
Proof.
  apply (isNeededPart_spec sample_qi [1; 3] 65536); [apply sample_qi_ok|simpl; lia|simpl; lia|simpl; lia| |simpl; lia..].
  repeat apply Forall_cons_2; [..|apply Forall_nil_2]; (split; [|left]); seg_unfold;
    [exists 0|exists 1|exists 2|exists 3]; reflexivity.
Defined.

(** Comparing lists of 16-bit values byte by byte decides equality. *)
Lemma le_store_concat_inj a b :
  length a = length b -> Forall (fun x => 0 <= x < 2 ^ 16) a -> Forall (fun x => 0 <= x < 2 ^ 16) b ->
  concat (le_store 2 <$> a) = concat (le_store 2 <$> b) -> a = b.
Proof.
  revert b. induction a as [|x a IH]; intros [|y b] Hl Ha Hb E; try done.
  apply Forall_cons in Ha as [Hx Ha]. apply Forall_cons in Hb as [Hy Hb].
  rewrite !fmap_cons in E. cbn [concat] in E. apply app_inj_1 in E as [E1 E2]; [|by rewrite !length_le_store].
  f_equal; [|by apply IH; simpl in Hl; [lia| | |]].
  apply (f_equal le_load) in E1. by rewrite !le_load_store in E1 by done.
Qed.

(** [compareParts] decides whether two lists of parts are equal. *)
Theorem compareParts_spec (a b : list Z)
  (Ha : Forall (fun x => 0 <= x < 2 ^ 16) a) (Hb : Forall (fun x => 0 <= x < 2 ^ 16) b) :
  compareParts a b = true <-> a = b.
Proof.
  unfold compareParts. destruct (Nat.eqb_spec (length a) (length b)) as [Hl|Hl]; cbn [negb].
  - rewrite Z.eqb_eq. split; [|intros ->; apply memcmp_refl]. intros H. apply le_store_concat_inj; [done..|].
    apply memcmp_eq; [|done]. clear -Hl. revert b Hl. induction a as [|x a IH]; intros [|y b] Hl; try done.
    rewrite !fmap_cons. cbn [concat]. rewrite !length_app, !length_le_store. f_equal. apply IH. simpl in Hl. lia.
  - split; [done|]. intros ->. done.
Qed.

Lemma compareParts_spec_witness : compareParts [1; 300] [1; 301] = true <-> [1; 300] = [1; 301].
Proof. apply (compareParts_spec [1; 300] [1; 301]); repeat constructor; lia. Defined.

(** [countParts] of well-formed parts is the number of blocks. *)
Lemma countParts_nonneg lo l : parts_wf lo l -> 0 <= countParts l /\ Z.of_nat (length l) <= 2 * countParts l.
Proof.
  revert lo. induction l as [|a|a b l IH] using list_pair_ind; intros lo; simpl; [lia|done|].
  intros [H1 H2]. specialize (IH b H2). lia.
Qed.
