(* ===== verification/CheckStream.v ===== *)
(** * Checking a download against its hash tree: [client/MerkleCheckOutputStream.h]

    [MerkleCheckOutputStream] hashes what is written through it and compares every
    complete leaf with the leaf of the file's tree; a difference is an exception.  The
    underlying stream is the list of bytes it was given; an exception is a value
    ([Inconsistency]).  The contents of the buffer before it is filled ([junk]) are an
    argument. *)

From S2P Require Import Prelude CArray Thex Hasher MerkleTree.

Section Check.
Context {H : Hasher}.

Record CheckStream := mkCheck {
  ck_real : MerkleTree;
  ck_cur : MerkleTree;
  ck_verified : nat;
  ck_buf : list Z;
  ck_bufPos : nat;
  ck_out : list Z
}.

Inductive outcome := Ok (s : CheckStream) | Inconsistency (s : CheckStream).

Definition with_leaves (t : MerkleTree) (lv : list (list Z)) : MerkleTree :=
  mkTree (mt_blocks t) lv (mt_fileSize t) (mt_blockSize t) (mt_root t).

(** The constructor. *)
Definition CheckStream_new (tree : MerkleTree) (start : Z) (junk : list Z) : CheckStream :=
  let blocksize := mt_blockSize tree in
  let cur := mt_setFileSize (MerkleTree_new blocksize) start in
  let nBlocks := u64 (Z.quot start blocksize) in
  let cur := if Z.of_nat (length (mt_leaves tree)) <? nBlocks then cur
             else with_leaves cur (take (Z.to_nat nBlocks) (mt_leaves tree) ++ mt_leaves cur) in
  mkCheck tree cur 0 junk 0 [].

(** The body of the loop of [checkTrees]. *)
Definition check_step (s : CheckStream) : option (CheckStream + outcome) :=
  let cur := mt_leaves (ck_cur s) in
  let real := mt_leaves (ck_real s) in
  if bool_decide (ck_verified s < length cur)%nat then
    if bool_decide (length real < length cur)%nat then Some (inr (Inconsistency s))
    else
      a ← cur !! ck_verified s; b ← real !! ck_verified s;
      if bool_decide (a = b)
      then Some (inl (mkCheck (ck_real s) (ck_cur s) (S (ck_verified s)) (ck_buf s) (ck_bufPos s) (ck_out s)))
      else Some (inr (Inconsistency s))
  else Some (inr (Ok s)).

Definition checkTrees (s : CheckStream) : option outcome := whileM check_step s.

Definition commitBytes (s : CheckStream) (b : list Z) : option CheckStream :=
  '(cur, buf, bufPos, pos) ←
    (if bool_decide (ck_bufPos s <> 0%nat) then
       let bytes := Nat.min (BB - ck_bufPos s) (length b) in
       let buf := buf_write (ck_buf s) (ck_bufPos s) (take bytes b) in
       let bufPos := (ck_bufPos s + bytes)%nat in
       if bool_decide (bufPos = BB) then
         cur ← mt_update (ck_cur s) (take BB buf); Some (cur, buf, 0%nat, bytes)
       else Some (ck_cur s, buf, bufPos, bytes)
     else Some (ck_cur s, ck_buf s, ck_bufPos s, 0%nat));
  '(cur, buf, bufPos) ←
    (if bool_decide (pos < length b)%nat then
       let left := (length b - pos)%nat in
       let part := (left - left `mod` BB)%nat in
       '(cur, pos) ← (if bool_decide (part <> 0%nat)
                      then cur ← mt_update cur (take part (drop pos b)); Some (cur, (pos + part)%nat)
                      else Some (cur, pos));
       let left := (length b - pos)%nat in
       Some (cur, buf_write buf 0 (drop pos b), left)
     else Some (cur, buf, bufPos));
  Some (mkCheck (ck_real s) cur (ck_verified s) buf bufPos (ck_out s)).

Definition add_out (o : outcome) (b : list Z) : outcome :=
  match o with
  | Ok s => Ok (mkCheck (ck_real s) (ck_cur s) (ck_verified s) (ck_buf s) (ck_bufPos s) (ck_out s ++ b))
  | Inconsistency s => Inconsistency s
  end.

Definition ck_write (s : CheckStream) (b : list Z) : option outcome :=
  s ← commitBytes s b; o ← checkTrees s; Some (add_out o b).

Definition ck_flushBuffers (s : CheckStream) : option outcome :=
  cur ← (if bool_decide (ck_bufPos s <> 0%nat) then mt_update (ck_cur s) (take (ck_bufPos s) (ck_buf s))
         else Some (ck_cur s));
  cur ← mt_finalize cur;
  let s := mkCheck (ck_real s) cur (ck_verified s) (ck_buf s) 0 (ck_out s) in
  if bool_decide (length (mt_leaves cur) = length (mt_leaves (ck_real s))) then
    Some (if bool_decide (mt_root cur = mt_root (ck_real s)) then Ok s else Inconsistency s)
  else checkTrees s.

Definition verifiedBytes (s : CheckStream) : Z :=
  Z.min (mt_fileSize (ck_real s))
    (swrap 64 (mt_blockSize (ck_cur s) * Z.of_nat (length (mt_leaves (ck_cur s))))).

(** Writing piece after piece, up to the first exception. *)
Fixpoint ck_writes (s : CheckStream) (ds : list (list Z)) : option outcome :=
  match ds with
  | [] => Some (Ok s)
  | d :: ds => o ← ck_write s d; match o with Ok s => ck_writes s ds | Inconsistency s => Some (Inconsistency s) end
  end.
End Check.

(** ** Leaves as a function of the data *)

Section Leaves.
Context {H : Hasher} {HL : HasherLaws H}.
Abbreviation tree := (thex combine MerkleValue0).

Lemma concat_group {A} (n : nat) (cs : list (list A)) rest i c :
  Forall (fun c => length c = n) cs -> cs !! i = Some c -> take n (drop (i * n) (concat cs ++ rest)) = c.
Proof.
  intros Hcs. revert i. induction Hcs as [|d cs Hd _ IH]; intros i Hi; [done|]. simpl. rewrite <-app_assoc.
  destruct i as [|i]; simpl in Hi.
  - injection Hi as ->. cbn [Nat.mul]. rewrite drop_0. rewrite take_app_le by lia. by apply take_ge; lia.
  - rewrite drop_app_ge by (simpl; lia). replace (S i * n - length d)%nat with (i * n)%nat by (simpl; lia). by apply IH.
Qed.

Lemma inv_leaves j t L : mt_inv j t L ->
  (length (mt_leaves t) * 2 ^ j <= length L < S (length (mt_leaves t)) * 2 ^ j)%nat /\
  forall i x, mt_leaves t !! i = Some x -> x = tree (take (2 ^ j) (drop (i * 2 ^ j) L)).
Proof.
  intros (cs & ps & _ & Hlv & Hcs & _ & Hd & HpB & ->). rewrite Hlv, length_map.
  pose proof (decr_small j ps Hd HpB) as Hps.
  rewrite length_app, (concat_length_const (2 ^ j)) by done. split; [lia|]. intros i x Hi.
  apply list_lookup_fmap_Some in Hi as (c & -> & Hc). by rewrite (concat_group _ cs _ i c).
Qed.

Lemma leaves_of_lookup j L lv : leaves_of j L lv ->
  (pred (length lv) * 2 ^ j < length L <= length lv * 2 ^ j)%nat /\ (0 < length lv)%nat /\
  forall i x, lv !! i = Some x -> x = tree (take (2 ^ j) (drop (i * 2 ^ j) L)).
Proof.
  intros (cs & r & -> & Hcs & Hr & ->). rewrite length_map, !length_app, (concat_length_const (2 ^ j)) by done.
  cbn [length]. split; [lia|]. split; [lia|]. intros i x Hi. rewrite map_app in Hi.
  apply lookup_app_Some in Hi as [Hi|[Hle Hi]].
  - apply list_lookup_fmap_Some in Hi as (c & -> & Hc). by rewrite (concat_group _ cs _ i c).
  - rewrite length_map in *. destruct (i - length cs)%nat as [|k] eqn:E; [|done]. injection Hi as <-.
    replace i with (length cs) by lia. rewrite drop_app_ge by (rewrite (concat_length_const (2 ^ j)) by done; lia).
    rewrite (concat_length_const (2 ^ j)) by done. rewrite Nat.sub_diag, drop_0, take_ge by lia. done.
Qed.

Lemma chunks_take m l : take m (chunks l) = chunks (take (m * BB) l).
Proof.
  pose proof BB_pos. revert l. induction m as [|m IH]; intros l; [done|].
  destruct l as [|x l]; [by rewrite (take_nil (S m * BB)); destruct m|].
  rewrite (chunks_step (x :: l)) by done. rewrite (chunks_step (take _ _)).
  - simpl take at 1. rewrite IH, take_take, Nat.min_l by lia. f_equal. f_equal.
    rewrite skipn_firstn_comm. f_equal. lia.
  - intros E. apply (f_equal length) in E. rewrite length_take in E. simpl in E. lia.
Qed.

Lemma chunks_drop m l : drop m (chunks l) = chunks (drop (m * BB) l).
Proof.
  pose proof BB_pos. revert l. induction m as [|m IH]; intros l; [done|].
  destruct l as [|x l]; [by rewrite (drop_nil (S m * BB)); destruct m|].
  rewrite (chunks_step (x :: l)) by done. simpl drop at 1. rewrite IH, drop_drop. done.
Qed.

Definition hashes (l : list Z) : list (list Z) := map leaf_hash (chunks l).

Lemma hashes_app k l1 l2 : length l1 = (k * BB)%nat -> hashes (l1 ++ l2) = hashes l1 ++ hashes l2.
Proof. intros Hk. unfold hashes. by rewrite (chunks_app k), map_app. Qed.

Lemma hashes_base l : l <> [] -> map leaf_hash (base_blocks l) = hashes l.
Proof. by destruct l. Qed.

Lemma hashes_length k l : length l = (k * BB)%nat -> length (hashes l) = k.
Proof.
  intros Hk. unfold hashes. rewrite length_map. destruct l as [|x l].
  - simpl in Hk. pose proof BB_pos. destruct k; [done|simpl in Hk; lia].
  - pose proof (chunks_length (x :: l) ltac:(done)) as [H1 H2]. rewrite Hk in *. pose proof BB_pos. nia.
Qed.

(** The leaf over a block of data. *)
Definition block_hash (j i : nat) (l : list Z) : list Z :=
  file_root (take (2 ^ j * BB) (drop (i * (2 ^ j * BB)) l)).

Lemma group_block j i l : (i * (2 ^ j * BB) < length l)%nat ->
  tree (take (2 ^ j) (drop (i * 2 ^ j) (hashes l))) = block_hash j i l.
Proof.
  intros Hi. unfold hashes, block_hash. rewrite skipn_map, firstn_map.
  rewrite chunks_drop, chunks_take. rewrite <-tree_file_root.
  replace (i * 2 ^ j * BB)%nat with (i * (2 ^ j * BB))%nat by lia.
  rewrite hashes_base; [done|]. pose proof BB_pos. pose proof (Nat.pow_nonzero 2 j ltac:(lia)).
  intros E. apply (f_equal length) in E. rewrite length_take, length_drop in E. simpl in E. nia.
Qed.
End Leaves.

(** ** The stream's invariant *)

Section Stream.
Context {H : Hasher} {HL : HasherLaws H}.
Abbreviation tree := (thex combine MerkleValue0).
Variable j : nat.
Variable real : MerkleTree.

(** [V] is the file up to where the stream is: what comes before its start, and what
    was written.  Whole base blocks of it are hashed, the rest is in the buffer. *)
Definition ck_inv (s : CheckStream) (V : list Z) : Prop :=
  exists W T, V = W ++ T /\ (exists k, length W = (k * BB)%nat) /\ (length T < BB)%nat /\
    ck_bufPos s = length T /\ length (ck_buf s) = BB /\ take (length T) (ck_buf s) = T /\
    mt_inv j (ck_cur s) (hashes W) /\ mt_fileSize (ck_cur s) = Z.of_nat (length W) /\ ck_real s = real.

Lemma hashes_le l : (length (hashes l) <= length l)%nat.
Proof.
  unfold hashes. rewrite length_map. destruct l as [|x l]; [done|].
  pose proof (chunks_length (x :: l) ltac:(done)). pose proof BB_pos. nia.
Qed.

Lemma update_whole t W d k : mt_inv j t (hashes W) -> mt_fileSize t = Z.of_nat (length W) ->
  length W = (k * BB)%nat -> d <> [] -> Z.of_nat (length (W ++ d)) < 2 ^ 63 ->
  exists t', mt_update t d = Some t' /\ mt_inv j t' (hashes (W ++ d)) /\
    mt_fileSize t' = Z.of_nat (length (W ++ d)).
Proof.
  intros Ht Hfs Hk Hd Hlen. rewrite length_app in Hlen. pose proof (hashes_le W).
  destruct (mt_update_ok j t (hashes W) d Ht) as (t' & Hu & Ht' & Hfs'); [lia|done|].
  exists t'. rewrite hashes_base in Ht' by done. rewrite (hashes_app k) by done. split; [done|]. split; [done|].
  rewrite Hfs', Hfs, length_app. lia.
Qed.

(** The second half of [commitBytes]: the buffer is empty and [r] is left. *)
Lemma commit_rest t W k buf r : mt_inv j t (hashes W) -> mt_fileSize t = Z.of_nat (length W) ->
  length W = (k * BB)%nat -> Z.of_nat (length (W ++ r)) < 2 ^ 63 -> length buf = BB ->
  let part := (length r - length r `mod` BB)%nat in
  exists t', (if bool_decide (part <> 0%nat) then mt_update t (take part r) else Some t) = Some t' /\
    mt_inv j t' (hashes (W ++ take part r)) /\ mt_fileSize t' = Z.of_nat (length (W ++ take part r)) /\
    (exists k', length (W ++ take part r) = (k' * BB)%nat) /\ (length (drop part r) < BB)%nat /\
    length (buf_write buf 0 (drop part r)) = BB /\
    take (length (drop part r)) (buf_write buf 0 (drop part r)) = drop part r.
Proof.
  intros Ht Hfs Hk Hlen Hbuf part. pose proof BB_pos as HB.
  pose proof (Nat.mod_upper_bound (length r) BB ltac:(lia)) as Hm.
  pose proof (Nat.div_mod_eq (length r) BB) as Hdm.
  assert (length (drop part r) = length r `mod` BB)%nat as Hd by (rewrite length_drop; unfold part; nia).
  assert (length (take part r) = part) as Htk by (rewrite length_take; unfold part; lia).
  assert (exists t', (if bool_decide (part <> 0%nat) then mt_update t (take part r) else Some t) = Some t' /\
    mt_inv j t' (hashes (W ++ take part r)) /\ mt_fileSize t' = Z.of_nat (length (W ++ take part r))) as (t' & ? & ? & ?).
  { case_bool_decide as Hp.
    - apply (update_whole t W _ k); try done.
      + intros E. rewrite E in Htk. simpl in Htk. lia.
      + rewrite length_app in *. rewrite Htk. unfold part. lia.
    - assert (part = 0%nat) as -> by lia. exists t. by rewrite take_0, app_nil_r. }
  exists t'. split_and!; [done|done|done| |lia| |].
  - exists (k + length r `div` BB)%nat. rewrite length_app, Htk, Hk. unfold part. nia.
  - rewrite length_buf_write by (rewrite Hd; lia). done.
  - unfold buf_write. rewrite take_0. simpl. by rewrite take_app_length.
Qed.

(** [commitBytes] after its first half: nothing is buffered, [pos] bytes were used. *)
Lemma commit_second s t W k buf b pos : mt_inv j t (hashes W) -> mt_fileSize t = Z.of_nat (length W) ->
  length W = (k * BB)%nat -> Z.of_nat (length (W ++ drop pos b)) < 2 ^ 63 -> length buf = BB -> ck_real s = real ->
  exists s', ('(cur, buf, bufPos) ←
      (if bool_decide (pos < length b)%nat then
         let left := (length b - pos)%nat in
         let part := (left - left `mod` BB)%nat in
         '(cur, pos) ← (if bool_decide (part <> 0%nat)
                        then cur ← mt_update t (take part (drop pos b)); Some (cur, (pos + part)%nat)
                        else Some (t, pos));
         let left := (length b - pos)%nat in
         Some (cur, buf_write buf 0 (drop pos b), left)
       else Some (t, buf, 0%nat));
    Some (mkCheck (ck_real s) cur (ck_verified s) buf bufPos (ck_out s))) = Some s' /\
    ck_inv s' (W ++ drop pos b) /\ ck_verified s' = ck_verified s /\ ck_out s' = ck_out s.
Proof.
  intros Ht Hfs Hk Hlen Hbuf Hr. pose proof BB_pos as HB. case_bool_decide as Hp.
  - destruct (commit_rest t W k buf (drop pos b)) as (t' & Hu & Hi & Hf & Hk' & Hl & Hb1 & Hb2); [done..|].
    assert (length (drop pos b) = length b - pos)%nat as Hdl by apply length_drop.
    rewrite Hdl in *. cbv zeta.
    set (part := (length b - pos - (length b - pos) `mod` BB)%nat) in *.
    assert ((if bool_decide (part <> 0%nat) then cur ← mt_update t (take part (drop pos b)); Some (cur, (pos + part)%nat)
             else Some (t, pos)) = Some (t', (pos + part)%nat)) as ->.
    { revert Hu. case_bool_decide as Hz.
      - intros ->. done.
      - intros [= ->]. assert (part = 0%nat) as -> by lia. by rewrite Nat.add_0_r. }
    rewrite !option_bind_Some_eq. rewrite <-drop_drop. eexists. split; [done|]. split; [|done].
    exists (W ++ take part (drop pos b)), (drop part (drop pos b)). cbn [ck_bufPos ck_buf ck_cur ck_real]. split_and!; try done.
    + by rewrite <-app_assoc, take_drop.
    + rewrite !length_drop. lia.
  - rewrite option_bind_Some_eq. eexists. split; [done|]. split; [|done]. rewrite drop_ge, app_nil_r by lia.
    exists W, []. cbn [ck_bufPos ck_buf ck_cur ck_real]. split_and!; try done; [by rewrite app_nil_r|by exists k].
Qed.

Lemma buf_write_take buf (T d : list Z) : length buf = BB -> take (length T) buf = T -> (length T + length d <= BB)%nat ->
  take (length T + length d) (buf_write buf (length T) d) = T ++ d /\ length (buf_write buf (length T) d) = BB.
Proof.
  intros Hb HT Hd. split; [|rewrite length_buf_write; lia]. unfold buf_write. rewrite HT, app_assoc.
  rewrite take_app_le by (rewrite length_app; lia). apply take_ge. rewrite length_app. lia.
Qed.

Lemma commitBytes_ok s V b : ck_inv s V -> Z.of_nat (length (V ++ b)) < 2 ^ 63 ->
  exists s', commitBytes s b = Some s' /\ ck_inv s' (V ++ b) /\
    ck_verified s' = ck_verified s /\ ck_out s' = ck_out s.
Proof.
  intros (W & T & -> & [k Hk] & HT & Hpos & Hbuf & HTb & Ht & Hfs & Hr) Hlen. unfold commitBytes. rewrite Hpos.
  pose proof BB_pos as HB. destruct (decide (T = [])) as [->|HTne].
  - cbn [length]. rewrite bool_decide_eq_false_2 by (intros ?; done). rewrite option_bind_Some_eq.
    destruct (commit_second s (ck_cur s) W k (ck_buf s) b 0) as (s' & Hs & Hi & Hv); try done.
    + rewrite drop_0. by rewrite app_nil_r in Hlen.
    + rewrite app_nil_r. by exists s'.
  - assert (0 < length T)%nat by (destruct T; [done|simpl; lia]). rewrite bool_decide_eq_true_2 by lia. cbv zeta.
    set (bytes := Nat.min (BB - length T) (length b)).
    assert (length (take bytes b) = bytes) as Htb by (rewrite length_take; unfold bytes; lia).
    destruct (buf_write_take (ck_buf s) T (take bytes b) Hbuf HTb) as [Hbw Hbl]; [rewrite Htb; unfold bytes; lia|].
    rewrite Htb in Hbw. case_bool_decide as Hfull.
    + assert (take BB (buf_write (ck_buf s) (length T) (take bytes b)) = T ++ take bytes b) as -> by (by rewrite <-Hfull).
      rewrite !length_app in Hlen.
      destruct (update_whole (ck_cur s) W (T ++ take bytes b) k) as (t' & -> & Hi & Hf); try done.
      { by destruct T. } { rewrite !length_app, Htb. lia. }
      rewrite !option_bind_Some_eq.
      destruct (commit_second s t' (W ++ T ++ take bytes b) (S k) (buf_write (ck_buf s) (length T) (take bytes b)) b bytes)
        as (s' & Hs & Hi' & Hv); try done.
      * rewrite !length_app, Htb, Hk. lia.
      * rewrite !length_app, Htb, length_drop. lia.
      * exists s'. rewrite <-!app_assoc, take_drop in Hi'. rewrite <-app_assoc. done.
    + rewrite option_bind_Some_eq. assert (bytes = length b) as Hbb by (unfold bytes in *; lia).
      rewrite bool_decide_eq_false_2 by lia. rewrite option_bind_Some_eq. eexists. split; [done|]. split; [|done].
      rewrite (take_ge b bytes) in * by lia. exists W, (T ++ b). cbn [ck_bufPos ck_buf ck_cur ck_real]. split_and!; try done.
      * by rewrite app_assoc.
      * by exists k.
      * rewrite length_app. unfold bytes in *. lia.
      * rewrite length_app. lia.
      * rewrite length_app, <-Hbb. done.
Qed.

Definition set_verified (s : CheckStream) (v : nat) : CheckStream :=
  mkCheck (ck_real s) (ck_cur s) v (ck_buf s) (ck_bufPos s) (ck_out s).

(** The first [verified] leaves are known to agree. *)
Definition agreed (s : CheckStream) : Prop :=
  take (ck_verified s) (mt_leaves (ck_cur s)) `prefix_of` mt_leaves (ck_real s) /\
  (ck_verified s <= length (mt_leaves (ck_cur s)))%nat.

Lemma prefix_snoc_lookup {A} (l r : list A) v x :
  take v l `prefix_of` r -> l !! v = Some x -> r !! v = Some x -> take (S v) l `prefix_of` r.
Proof.
  intros [k ->] Hl Hr. rewrite (take_S_r _ _ _ Hl). assert (v < length l)%nat by (by eapply lookup_lt_Some).
  rewrite lookup_app_r in Hr by (rewrite length_take; lia). rewrite length_take, Nat.min_l, Nat.sub_diag in Hr by lia.
  destruct k as [|y k]; [done|]. injection Hr as ->. exists k. by rewrite <-app_assoc.
Qed.

(** [checkTrees] accepts exactly when the leaves are the first leaves of the file's tree. *)
Lemma checkTrees_ok s : agreed s -> Z.of_nat (length (mt_leaves (ck_cur s))) < 2 ^ 255 ->
  exists o, checkTrees s = Some o /\
    ((mt_leaves (ck_cur s) `prefix_of` mt_leaves (ck_real s) /\ o = Ok (set_verified s (length (mt_leaves (ck_cur s))))) \/
     (~ mt_leaves (ck_cur s) `prefix_of` mt_leaves (ck_real s) /\ exists v, o = Inconsistency (set_verified s v))).
Proof.
  intros Hag Hlen. unfold checkTrees.
  apply (whileM_total check_step (fun s' => exists v, s' = set_verified s v /\ agreed s')
    (fun s' => Z.of_nat (length (mt_leaves (ck_cur s)) - ck_verified s'))).
  - intros s' (v & -> & Hp & Hv). unfold check_step. cbn [set_verified ck_cur ck_real ck_verified] in *.
    set (lv := mt_leaves (ck_cur s)) in *. set (rl := mt_leaves (ck_real s)) in *.
    case_bool_decide as Hlt.
    + case_bool_decide as Hlong.
      * eexists. split; [done|]. right. split; [|by exists v]. intros Hc%prefix_length. lia.
      * destruct (lookup_lt_is_Some_2 lv v Hlt) as [a Ha]. destruct (lookup_lt_is_Some_2 rl v ltac:(lia)) as [b Hb].
        rewrite Ha, Hb, !option_bind_Some_eq. case_bool_decide as Hab.
        -- subst b. eexists. split; [done|]. cbn beta iota. split; [|cbn [ck_verified]; lia]. exists (S v). split; [done|].
           split; [|done]. by apply (prefix_snoc_lookup _ _ _ a).
        -- eexists. split; [done|]. right. split; [|by exists v]. intros Hc. apply (prefix_lookup_Some _ _ _ _ Ha) in Hc. congruence.
    + eexists. split; [done|]. left. rewrite take_ge in Hp by lia. split; [done|]. f_equal. unfold set_verified. f_equal. lia.
  - exists (ck_verified s). by destruct s.
  - lia.
Qed.

Lemma inv_leaves_mono t t' L M : mt_inv j t L -> mt_inv j t' (L ++ M) -> mt_leaves t `prefix_of` mt_leaves t'.
Proof.
  intros Ht Ht'. destruct (inv_leaves _ _ _ Ht) as [Hn Hl]. destruct (inv_leaves _ _ _ Ht') as [Hn' Hl'].
  rewrite length_app in Hn'. pose proof (Nat.pow_nonzero 2 j ltac:(lia)).
  assert (length (mt_leaves t) <= length (mt_leaves t'))%nat as Hle by nia.
  exists (drop (length (mt_leaves t)) (mt_leaves t')). rewrite <-(take_drop (length (mt_leaves t)) (mt_leaves t')) at 1.
  f_equal. apply list_eq_same_length with (length (mt_leaves t)); [done|rewrite length_take; lia|].
  intros i x y Hi Hx Hy. rewrite lookup_take_lt in Hx by done. rewrite (Hl i y Hy), (Hl' i x Hx).
  rewrite drop_app_le by nia. rewrite take_app_le by (rewrite length_drop; nia). done.
Qed.

Lemma inv_count t W : mt_inv j t (hashes W) -> (length (mt_leaves t) <= length W)%nat.
Proof.
  intros Ht. destruct (inv_leaves _ _ _ Ht) as [Hn _]. pose proof (hashes_le W).
  pose proof (Nat.pow_nonzero 2 j ltac:(lia)). nia.
Qed.

(** The leaves complete so far. *)
Definition accepted (s : CheckStream) (V : list Z) : Prop :=
  ck_inv s V /\ mt_leaves (ck_cur s) `prefix_of` mt_leaves real /\ agreed s.

(** What a piece is refused for: the leaves it completes are not those of the tree. *)
Definition refused (V : list Z) : Prop :=
  exists s, ck_inv s V /\ ~ mt_leaves (ck_cur s) `prefix_of` mt_leaves real.

Lemma ck_inv_next s s' V b : ck_inv s V -> ck_inv s' (V ++ b) ->
  mt_leaves (ck_cur s) `prefix_of` mt_leaves (ck_cur s').
Proof.
  intros (W & T & -> & [k Hk] & HT & _ & _ & _ & Ht & _) (W' & T' & E & [k' Hk'] & HT' & _ & _ & _ & Ht' & _).
  assert (k <= k')%nat as Hkk.
  { apply (f_equal length) in E. rewrite !length_app in E. pose proof BB_pos. nia. }
  assert (W' = W ++ drop (length W) W') as HW.
  { rewrite <-(take_drop (length W) W') at 1. f_equal. apply (f_equal (take (length W))) in E.
    rewrite <-app_assoc, take_app_length in E. rewrite take_app_le in E by nia. done. }
  rewrite HW in Ht'. rewrite (hashes_app k) in Ht' by done. exact (inv_leaves_mono _ _ _ _ Ht Ht').
Qed.

Lemma ck_write_ok s V b : accepted s V -> Z.of_nat (length (V ++ b)) < 2 ^ 63 ->
  exists o, ck_write s b = Some o /\
    match o with
    | Ok s' => accepted s' (V ++ b) /\ ck_out s' = ck_out s ++ b
    | Inconsistency _ => refused (V ++ b)
    end.
Proof.
  intros (Hi & Hp & Hag & Hv) Hlen. unfold ck_write.
  destruct (commitBytes_ok s V b Hi Hlen) as (s1 & -> & Hi1 & Hv1 & Ho1). rewrite option_bind_Some_eq.
  pose proof (ck_inv_next _ _ _ _ Hi Hi1) as Hmono. pose proof Hi1 as (W1 & T1 & HV1 & _ & _ & _ & _ & _ & Ht1 & _ & Hr1).
  pose proof Hi as (_ & _ & _ & _ & _ & _ & _ & _ & _ & _ & Hr0).
  destruct (checkTrees_ok s1) as (o & -> & Ho).
  - split.
    + rewrite Hv1, Hr1. rewrite Hr0 in Hag. destruct Hmono as [m ->]. by rewrite take_app_le.
    + apply prefix_length in Hmono. lia.
  - pose proof (inv_count _ _ Ht1). rewrite HV1, length_app in Hlen. lia.
  - rewrite option_bind_Some_eq. eexists. split; [done|]. rewrite Hr1 in Ho.
    destruct Ho as [[Hpre ->]|[Hn [v ->]]]; cbn [add_out].
    + split; [|by rewrite <-Ho1]. split; [|split; [done|]].
      * destruct Hi1 as (W & T & Hrest). exists W, T. exact Hrest.
      * split; [|done]. cbn [set_verified ck_verified ck_cur ck_real]. rewrite take_ge, Hr1 by done. done.
    + by exists s1.
Qed.

Lemma ck_writes_ok ds : forall s V, accepted s V -> Z.of_nat (length (V ++ concat ds)) < 2 ^ 63 ->
  exists o, ck_writes s ds = Some o /\
    match o with
    | Ok s' => accepted s' (V ++ concat ds) /\ ck_out s' = ck_out s ++ concat ds
    | Inconsistency _ => exists n, (n <= length (concat ds))%nat /\ refused (V ++ take n (concat ds))
    end.
Proof.
  induction ds as [|d ds IH]; intros s V Hs Hlen.
  - exists (Ok s). cbn [concat]. by rewrite !app_nil_r.
  - cbn [ck_writes concat] in *. rewrite app_assoc, length_app in Hlen.
    destruct (ck_write_ok s V d Hs) as (o & -> & Ho); [lia|]. rewrite option_bind_Some_eq.
    destruct o as [s1|s1].
    + destruct Ho as [Hs1 Ho1]. destruct (IH s1 (V ++ d) Hs1) as (o & -> & Ho); [rewrite length_app; lia|].
      exists o. split; [done|]. destruct o as [s2|s2].
      * rewrite app_assoc. destruct Ho as [? ->]. by rewrite Ho1, app_assoc.
      * destruct Ho as (n & Hn & Hr). exists (length d + n)%nat. split; [rewrite length_app; lia|].
        rewrite take_app_add, app_assoc. done.
    + exists (Inconsistency s1). split; [done|]. exists (length d). split; [rewrite length_app; lia|].
      by rewrite take_app_length.
Qed.

(** The leaves hashed so far are those of the blocks of [V]. *)
Lemma ck_inv_blocks s V : ck_inv s V ->
  (length (mt_leaves (ck_cur s)) * (2 ^ j * BB) <= length V < S (length (mt_leaves (ck_cur s))) * (2 ^ j * BB))%nat /\
  forall i x, mt_leaves (ck_cur s) !! i = Some x -> x = block_hash j i V.
Proof.
  intros (W & T & -> & [k Hk] & HT & _ & _ & _ & Ht & _). destruct (inv_leaves _ _ _ Ht) as [Hn Hl].
  rewrite (hashes_length k) in Hn by done. pose proof BB_pos. pose proof (Nat.pow_nonzero 2 j ltac:(lia)).
  rewrite length_app. split; [nia|]. intros i x Hi. pose proof (lookup_lt_Some _ _ _ Hi) as Hlt.
  rewrite (Hl i x Hi). assert (S i * (2 ^ j * BB) <= length W)%nat by nia. rewrite group_block by nia.
  unfold block_hash. rewrite drop_app_le by nia. rewrite take_app_le by (rewrite length_drop; nia). done.
Qed.

(** ** The file's tree *)

Variable F : list Z.
Hypothesis Hblock : mt_blockSize real = BASE_BLOCK_SIZE * Z.of_nat (2 ^ j).
Hypothesis Hreal : leaves_of j (map leaf_hash (base_blocks F)) (mt_leaves real).
Hypothesis HF : F <> [].

Lemma real_blocks :
  (pred (length (mt_leaves real)) * (2 ^ j * BB) < length F <= length (mt_leaves real) * (2 ^ j * BB))%nat /\
  forall i x, mt_leaves real !! i = Some x -> x = block_hash j i F.
Proof using HF HL Hreal.
  destruct (leaves_of_lookup _ _ _ Hreal) as (Hn & Hpos & Hl). rewrite hashes_base in * by done.
  pose proof (chunks_length F HF) as Hc. unfold hashes in Hn. rewrite length_map in Hn. pose proof BB_pos.
  assert (pred (length (mt_leaves real)) * (2 ^ j * BB) < length F <= length (mt_leaves real) * (2 ^ j * BB))%nat as Hr by nia.
  split; [done|]. intros i x Hi. rewrite (Hl i x Hi). apply group_block.
  pose proof (lookup_lt_Some _ _ _ Hi). pose proof (Nat.pow_nonzero 2 j ltac:(lia)). nia.
Qed.

Lemma accepted_blocks s V i : accepted s V -> (S i * (2 ^ j * BB) <= length V)%nat ->
  mt_leaves real !! i = Some (block_hash j i V).
Proof using HL.
  intros (Hi & Hp & _) Hlt. destruct (ck_inv_blocks s V Hi) as [Hn Hl]. pose proof BB_pos.
  pose proof (Nat.pow_nonzero 2 j ltac:(lia)).
  destruct (lookup_lt_is_Some_2 (mt_leaves (ck_cur s)) i) as [x Hx]; [nia|].
  rewrite <-(Hl i x Hx). by apply (prefix_lookup_Some _ _ _ _ Hx).
Qed.

(** Correct data is not refused. *)
Lemma prefix_accepted s V : ck_inv s V -> V `prefix_of` F -> mt_leaves (ck_cur s) `prefix_of` mt_leaves real.
Proof using HF HL Hreal.
  intros Hi [X HX]. destruct (ck_inv_blocks s V Hi) as [Hn Hl]. destruct real_blocks as [Hm Hr].
  pose proof BB_pos. pose proof (Nat.pow_nonzero 2 j ltac:(lia)).
  assert (length V <= length F)%nat by (rewrite HX, length_app; lia).
  set (c := length (mt_leaves (ck_cur s))) in *. assert (c <= length (mt_leaves real))%nat as Hc by nia.
  exists (drop c (mt_leaves real)). rewrite <-(take_drop c (mt_leaves real)) at 1. f_equal.
  apply list_eq_same_length with c; [done|rewrite length_take; lia|].
  intros i x y Hlt Hx Hy. rewrite lookup_take_lt in Hx by done. rewrite (Hl i y Hy), (Hr i x Hx), HX.
  unfold block_hash. rewrite drop_app_le by nia. rewrite take_app_le by (rewrite length_drop; nia). done.
Qed.

Lemma concat_take {A} (n m : nat) (cs : list (list A)) :
  Forall (fun c => length c = n) cs -> concat (take m cs) = take (m * n) (concat cs).
Proof.
  intros Hcs. revert m. induction Hcs as [|c cs Hc _ IH]; intros [|m]; [done|cbn [take concat]; by rewrite take_nil|done|].
  cbn [take concat Nat.mul]. rewrite IH, <-Hc. by rewrite take_app_add.
Qed.

Lemma CheckStream_new_ok n junk : (n * (2 ^ j * BB) <= length F)%nat -> Z.of_nat (length F) < 2 ^ 63 -> length junk = BB ->
  let s := CheckStream_new real (Z.of_nat (n * (2 ^ j * BB))) junk in
  accepted s (take (n * (2 ^ j * BB)) F) /\ ck_out s = [].
Proof using HF HL Hblock Hreal.
  intros Hn Hlen Hjunk. unfold CheckStream_new. cbv zeta. pose proof BB_pos. pose proof (Nat.pow_nonzero 2 j ltac:(lia)).
  assert (mt_blockSize real = Z.of_nat (2 ^ j * BB)) as HB by (rewrite Hblock, Nat2Z.inj_mul; change (Z.of_nat BB) with BASE_BLOCK_SIZE; lia).
  destruct real_blocks as [Hm _]. rewrite HB.
  assert (u64 (Z.quot (Z.of_nat (n * (2 ^ j * BB))) (Z.of_nat (2 ^ j * BB))) = Z.of_nat n) as ->.
  { rewrite (Nat2Z.inj_mul n), Z.quot_mul by lia. unfold wrap. apply Z.mod_small. split; [lia|].
    apply Z.le_lt_trans with (Z.of_nat (length F)); [nia|lia]. }
  destruct (Z.of_nat (length (mt_leaves real)) <? Z.of_nat n) eqn:E; zb; [nia|]. rewrite Nat2Z.id. cbn [mt_leaves mt_setFileSize MerkleTree_new].
  rewrite app_nil_r. split; [|done]. set (s := mkCheck _ _ _ _ _ _).
  assert (ck_inv s (take (n * (2 ^ j * BB)) F)) as Hi.
  { exists (take (n * (2 ^ j * BB)) F), []. cbn [s ck_bufPos ck_buf ck_cur ck_real length mt_fileSize with_leaves].
    assert (length (take (n * (2 ^ j * BB)) F) = n * 2 ^ j * BB)%nat as Hl by (rewrite length_take; lia).
    split_and!; try done; [by rewrite app_nil_r|by exists (n * 2 ^ j)%nat| |cbn; lia].
    unfold hashes. replace (n * (2 ^ j * BB))%nat with (n * 2 ^ j * BB)%nat by lia. rewrite <-chunks_take.
    rewrite <-firstn_map. change (map leaf_hash (chunks F)) with (hashes F). rewrite <-hashes_base by done.
    destruct Hreal as (cs & r & -> & Hcs & Hr & HL'). rewrite HL'.
    assert (length (map leaf_hash (base_blocks F)) = length cs * 2 ^ j + length r)%nat as HLl
      by (rewrite HL', length_app, (concat_length_const (2 ^ j)) by done; done).
    rewrite hashes_base in HLl by done. pose proof (chunks_length F HF). unfold hashes in HLl. rewrite length_map in HLl.
    exists (take n (cs ++ [r])), []. cbn [mt_blockSize mt_leaves mt_blocks map concat with_leaves mt_setFileSize MerkleTree_new].
    assert (Forall (fun c => length c = 2 ^ j)%nat (take n (cs ++ [r])) /\
            concat (take n (cs ++ [r])) = take (n * 2 ^ j) (concat cs ++ r)) as [Hf Hc].
    { destruct (decide (n <= length cs)%nat).
      - rewrite take_app_le by done. split; [by apply Forall_take|].
        rewrite take_app_le by (rewrite (concat_length_const (2 ^ j)) by done; nia). by apply concat_take.
      - assert (length r = 2 ^ j)%nat as Hr2 by nia. assert (n = S (length cs)) as -> by nia.
        rewrite take_ge by (rewrite length_app; simpl; lia).
        split; [apply Forall_app; by repeat constructor|].
        rewrite take_ge by (rewrite length_app, (concat_length_const (2 ^ j)) by done; nia).
        rewrite concat_app. simpl. by rewrite app_nil_r. }
    split_and!; try done; first [by rewrite <-HB, Hblock | by rewrite <-firstn_map | by rewrite app_nil_r | apply decr_nil]. }
  split; [done|]. split; [cbn; apply prefix_take|]. split; [apply prefix_nil|cbn; lia].
Qed.

(** [flushBuffers] up to its comparison: the tree of [V] is complete. *)
Lemma flush_run s V : ck_inv s V -> V <> [] -> Z.of_nat (length V) < 2 ^ 63 ->
  exists t', leaves_of j (hashes V) (mt_leaves t') /\ mt_root t' = file_root V /\
    ck_flushBuffers s =
      let s' := mkCheck real t' (ck_verified s) (ck_buf s) 0 (ck_out s) in
      if bool_decide (length (mt_leaves t') = length (mt_leaves real)) then
        Some (if bool_decide (mt_root t' = mt_root real) then Ok s' else Inconsistency s')
      else checkTrees s'.
Proof using HL.
  intros (W & T & -> & [k Hk] & HT & Hpos & Hbuf & HTb & Ht & Hfs & Hr) HV Hlen. unfold ck_flushBuffers.
  rewrite Hpos, HTb, Hr.
  assert (exists t, (if bool_decide (length T <> 0%nat) then mt_update (ck_cur s) T else Some (ck_cur s)) = Some t /\
    mt_inv j t (hashes (W ++ T)) /\ mt_fileSize t = Z.of_nat (length (W ++ T))) as (t & -> & Hi & Hf).
  { case_bool_decide as Hc.
    - apply (update_whole _ W T k); try done. by intros ->.
    - destruct T; [|done]. rewrite app_nil_r. eauto. }
  rewrite option_bind_Some_eq. pose proof (chunks_length _ HV) as Hc. pose proof (hashes_le (W ++ T)) as Hle.
  assert (length (hashes (W ++ T)) = length (chunks (W ++ T))) as Hhl by apply length_map.
  assert (Z.of_nat BB = BASE_BLOCK_SIZE) as HBB by done.
  destruct (mt_finalize_ok j t (hashes (W ++ T)) Hi) as (t' & -> & Hroot & Hl & _).
  - intros E. rewrite E in Hhl. simpl in Hhl. rewrite <-Hhl in Hc. destruct (W ++ T); [done|simpl in Hc; lia].
  - lia.
  - rewrite Hf. done.
  - intros _. rewrite Hf, Hhl, <-HBB. nia.
  - rewrite Hf, Hhl, <-HBB. nia.
  - exists t'. split; [done|]. split; [|done]. rewrite Hroot, <-hashes_base by done. apply tree_file_root.
Qed.

Lemma ceil_unique (B c m : nat) : (0 < B)%nat -> (0 < c)%nat -> (pred c * B < m * B <= c * B)%nat -> c = m.
Proof. intros HB Hc Hm. nia. Qed.

Lemma floor_unique (B c m : nat) : (0 < B)%nat -> (c * B <= m * B < S c * B)%nat -> c = m.
Proof. intros HB Hm. nia. Qed.

Lemma leaves_of_count_eq V lv : V <> [] -> leaves_of j (hashes V) lv ->
  (pred (length lv) * (2 ^ j * BB) < length V <= length lv * (2 ^ j * BB))%nat /\ (0 < length lv)%nat.
Proof using HL.
  intros HV Hl. destruct (leaves_of_lookup _ _ _ Hl) as (Hn & Hpos & _). pose proof (chunks_length V HV) as Hc.
  unfold hashes in Hn. rewrite length_map in Hn. pose proof BB_pos. split; [nia|done].
Qed.

(** At the end of the file the root decides. *)
Lemma flush_end s V : ck_inv s V -> length V = length F -> Z.of_nat (length V) < 2 ^ 63 ->
  exists o, ck_flushBuffers s = Some o /\ ((exists s', o = Ok s') <-> file_root V = mt_root real).
Proof using HF HL Hreal.
  intros Hi HVF Hlen. assert (V <> []) as HV by (intros ->; by destruct F).
  destruct (flush_run s V Hi HV Hlen) as (t' & Hl & Hroot & ->). cbv zeta.
  destruct (leaves_of_count_eq V _ HV Hl) as [Hc Hpos]. destruct real_blocks as [Hm _].
  pose proof BB_pos. pose proof (Nat.pow_nonzero 2 j ltac:(lia)).
  rewrite bool_decide_eq_true_2 by nia. eexists. split; [done|]. rewrite Hroot. case_bool_decide.
  - split; [done|]. eauto.
  - split; [by intros [? ?]|done].
Qed.

(** At the end of a segment that ends on a block boundary, accepted data passes. *)
Lemma flush_aligned s V m : accepted s V -> length V = (m * (2 ^ j * BB))%nat -> V <> [] -> (length V < length F)%nat ->
  Z.of_nat (length V) < 2 ^ 63 -> exists s', ck_flushBuffers s = Some (Ok s').
Proof using HF HL Hreal.
  intros Ha Hm HV HVF Hlen. pose proof Ha as (Hi & Hp & Hag). destruct (flush_run s V Hi HV Hlen) as (t' & Hl & Hroot & ->).
  cbv zeta. destruct (leaves_of_count_eq V _ HV Hl) as [Hc Hpos]. destruct real_blocks as [Hr _].
  destruct (ck_inv_blocks s V Hi) as [Hn Hleaf]. pose proof BB_pos. pose proof (Nat.pow_nonzero 2 j ltac:(lia)).
  assert (length (mt_leaves t') ≠ length (mt_leaves real)) as Hne.
  { intros E. rewrite E in Hc. rewrite Hm in Hc. apply ceil_unique in Hc; [|lia|lia]. rewrite <-Hc in Hm. lia. }
  rewrite bool_decide_eq_false_2 by done.
  assert (mt_leaves t' = mt_leaves (ck_cur s)) as Heq.
  { destruct (leaves_of_lookup _ _ _ Hl) as (_ & _ & Hlk).
    rewrite Hm in Hc, Hn. apply list_eq_same_length with m; [by apply (floor_unique (2 ^ j * BB)); [lia|]|by apply (ceil_unique (2 ^ j * BB)); [lia| |]|].
    intros i x y Hlt Hx Hy.
    rewrite (Hlk i x Hx), (Hleaf i y Hy). apply group_block. rewrite Hm. apply Nat.mul_lt_mono_pos_r; lia. }
  destruct (checkTrees_ok (mkCheck real t' (ck_verified s) (ck_buf s) 0 (ck_out s))) as (o & -> & Ho).
  - destruct Hag as [Hag1 Hag2]. destruct Hi as (_ & _ & _ & _ & _ & _ & _ & _ & _ & _ & Hr0). rewrite Hr0 in Hag1.
    split; cbn [ck_cur ck_verified ck_real]; by rewrite Heq.
  - cbn [ck_cur]. rewrite Heq. nia.
  - cbn [ck_cur ck_real] in Ho. rewrite Heq in Ho. destruct Ho as [[_ ->]|[Hn' _]]; [eauto|done].
Qed.

(** C2.  A checked download: started at a block boundary of a file with a known hash tree,
    and given any pieces, the stream either passes on exactly the pieces, and then every
    complete block received has the hash of the tree's leaf, at the end of the file
    flushing succeeds exactly when the root of all the data is the root of the tree, and
    flushing at an earlier block boundary succeeds; or it throws, and then the
    data differs from the file's. *)
Theorem MerkleCheck_correct (n : nat) (junk : list Z) (ds : list (list Z))
  (Hn : (n * (2 ^ j * BB) <= length F)%nat) (Hlen : Z.of_nat (length F) < 2 ^ 63) (Hjunk : length junk = BB)
  (Hdata : Z.of_nat (n * (2 ^ j * BB) + length (concat ds)) < 2 ^ 63) :
  let V := take (n * (2 ^ j * BB)) F ++ concat ds in
  exists o, ck_writes (CheckStream_new real (Z.of_nat (n * (2 ^ j * BB))) junk) ds = Some o /\
    match o with
    | Ok s =>
        ck_out s = concat ds /\
        (forall i, (S i * (2 ^ j * BB) <= length V)%nat -> mt_leaves real !! i = Some (block_hash j i V)) /\
        (length V = length F ->
         exists o', ck_flushBuffers s = Some o' /\ ((exists s', o' = Ok s') <-> file_root V = mt_root real)) /\
        (forall m, length V = (m * (2 ^ j * BB))%nat -> (0 < length V < length F)%nat ->
         exists s', ck_flushBuffers s = Some (Ok s'))
    | Inconsistency _ => ~ (V `prefix_of` F)
    end.
Proof using HF HL Hblock Hreal.
  intros V. destruct (CheckStream_new_ok n junk Hn Hlen Hjunk) as [Hnew Hout].
  assert (length (take (n * (2 ^ j * BB)) F) = n * (2 ^ j * BB))%nat as Ht by (rewrite length_take; lia).
  assert (Z.of_nat (length V) < 2 ^ 63) as HVl by (unfold V; rewrite length_app, Ht; lia).
  destruct (ck_writes_ok ds _ _ Hnew) as (o & -> & Ho); [done|].
  exists o. split; [done|]. destruct o as [s|s].
  - destruct Ho as [Ha Ho]. split; [by rewrite Ho, Hout|]. split; [intros i Hi; by apply (accepted_blocks s)|].
    split; [intros HVF; apply flush_end; [apply Ha|done|done]|].
    intros m Hm HV. apply (flush_aligned s V m); try done; [|lia]. intros E. rewrite E in HV. simpl in HV. lia.
  - destruct Ho as (p & Hp & s' & Hi & Hnp). intros Hpre. apply Hnp, (prefix_accepted s' _ Hi).
    etrans; [|exact Hpre]. unfold V. rewrite <-(take_drop p (concat ds)) at 2. rewrite app_assoc. by apply prefix_app_r.
Qed.
End Stream.
