(* ===== verification/TigerTree.v ===== *)
(** * The hash tree with Tiger: [TigerTree] of [client/MerkleTree.h]

    [typedef MerkleTree<TigerHash> TigerTree]: the generic theorems of the hash
    tree and of the checked download at the hash function the program uses, on
    concrete files. *)

From S2P Require Import Prelude Thex Hasher MerkleTree TigerTables TigerHash CheckStream.

Lemma MerkleTree_stream_witness :
  exists t, (run_updates (MerkleTree_new (BASE_BLOCK_SIZE * Z.of_nat (2 ^ 1)))
               ([replicate 1024 7] ++ [[1; 2; 3]]) ≫= mt_finalize) = Some t /\
    mt_root t = file_root (concat [replicate 1024 7] ++ [1; 2; 3]) /\
    leaves_of 1 (map leaf_hash (base_blocks (concat [replicate 1024 7] ++ [1; 2; 3]))) (mt_leaves t) /\
    mt_fileSize t = Z.of_nat (length (concat [replicate 1024 7] ++ [1; 2; 3])).
Proof.
  apply (MerkleTree_stream 1 [replicate 1024 7] [1; 2; 3]).
  - constructor; [|constructor]. split; [done|]. exists 1%nat. reflexivity.
  - reflexivity.
Defined.

Lemma load_getLeafData_witness :
  exists t t', (run_updates (MerkleTree_new (BASE_BLOCK_SIZE * Z.of_nat (2 ^ 0)))
                  ([replicate 1024 7] ++ [[1; 2; 3]]) ≫= mt_finalize) = Some t /\
    load MerkleTree_default (mt_fileSize t) (getLeafData t) = Some (true, t') /\
    mt_leaves t' = mt_leaves t /\ mt_root t' = mt_root t /\ mt_fileSize t' = mt_fileSize t.
Proof.
  apply (load_getLeafData 0 [replicate 1024 7] [1; 2; 3] MerkleTree_default).
  - constructor; [|constructor]. split; [done|]. exists 1%nat. reflexivity.
  - unfold h_bytes, TigerHasher. lia.
  - reflexivity.
Defined.

(** The published tree hash of the empty file, and the one of a single byte. *)
Example tth_empty :
  (mt_root <$> (mt_update (MerkleTree_new BASE_BLOCK_SIZE) [] ≫= mt_finalize)) =
  Some [0x5D; 0x9E; 0xD0; 0x0A; 0x03; 0x0E; 0x63; 0x8B; 0xDB; 0x75; 0x3A; 0x6A;
        0x24; 0xFB; 0x90; 0x0E; 0x5A; 0x63; 0xB8; 0xE7; 0x3E; 0x6C; 0x25; 0xB6].
Proof. vm_compute. reflexivity. Qed.

(** A file of one block, and its tree. *)
Definition sample_file : list Z := replicate 1000 7.
Definition sample_tree : MerkleTree :=
  mkTree [] [leaf_hash sample_file] 1000 BASE_BLOCK_SIZE (file_root sample_file).

Lemma sample_tree_leaves : leaves_of 0 (map leaf_hash (base_blocks sample_file)) (mt_leaves sample_tree).
Proof.
  exists [], [leaf_hash sample_file]. cbn [app map concat].
  split; [by rewrite thex_singleton|]. split; [constructor|]. split; [cbn [length]; simpl; lia|].
  rewrite hashes_base by done. unfold hashes. rewrite chunks_short; [done|done|].
  unfold sample_file. rewrite length_replicate, BB_val. lia.
Qed.

Lemma MerkleCheck_correct_witness :
  exists o, ck_writes (CheckStream_new sample_tree 0 (replicate BB 0)) [replicate 600 7; replicate 400 7] = Some o /\
    match o with
    | Ok s => ck_out s = concat [replicate 600 7; replicate 400 7]
    | Inconsistency _ => ~ (concat [replicate 600 7; replicate 400 7] `prefix_of` sample_file)
    end.
Proof.
  destruct (MerkleCheck_correct 0 sample_tree sample_file eq_refl sample_tree_leaves ltac:(done) 0 (replicate BB 0)
    [replicate 600 7; replicate 400 7] ltac:(simpl; lia) eq_refl ltac:(apply length_replicate) eq_refl) as (o & Ho & H).
  exists o. split; [exact Ho|]. destruct o; [exact (proj1 H)|exact H].
Defined.
