(* ===== verification/LruCache.v ===== *)
(** * Caches with eviction of the oldest entry: [client/LruCache.h]

    [LruCache] and [LruCacheEx] keep their items in a hash map and thread a linked list
    through them, from the oldest to the newest.  Items of an [unordered_map] do not
    move, and a pointer to one is its key here: following a pointer to an item that is
    not in the map is undefined ([None]).  Both are proved to be queues of key/value
    pairs without repeated keys; a theorem that an operation returns [Some] is also
    that no link dangles.  The items given to the deleter are part of the results. *)

From S2P Require Import Prelude CArray.

Section Lru.
Context {K V : Type} `{Countable K}.

(** ** [LruCache]: singly linked *)

(** What the template requires of an item: a key, a link, and its contents. *)
Record Item := mkItem { it_key : K; it_value : V; it_next : option K }.

Record LruCache := mkLru {
  lc_items : gmap K Item;
  lc_oldestItem : option K;
  lc_newestItem : option K;
  lc_deleter : bool
}.

(** [add]: whether the item is new, and the cache; the stored item is the one of the
    key in either case. *)
Definition lru_add (c : LruCache) (key : K) (value : V) : option (bool * LruCache) :=
  match lc_items c !! key with
  | Some _ => Some (false, c)
  | None =>
      let items := <[key := mkItem key value None]> (lc_items c) in
      match lc_newestItem c with
      | Some n =>
          x ← items !! n;
          Some (true, mkLru (<[n := mkItem (it_key x) (it_value x) (Some key)]> items)
                        (lc_oldestItem c) (Some key) (lc_deleter c))
      | None => Some (true, mkLru items (Some key) (Some key) (lc_deleter c))
      end
  end.

Definition lru_get (c : LruCache) (key : K) : option Item := lc_items c !! key.

(** [clear]: the cache and the items given to the deleter. *)
Definition lru_clear (c : LruCache) : LruCache * list Item :=
  (mkLru ∅ None None (lc_deleter c),
   if lc_deleter c then (map_to_list (lc_items c)).*2 else []).

Definition lru_removeOldest (c : LruCache) : option (bool * LruCache * list Item) :=
  match lc_oldestItem c with
  | None => Some (false, c, [])
  | Some o =>
      x ← lc_items c !! o;
      let '(items, deleted) :=
        match lc_items c !! it_key x with
        | Some y => (delete (it_key x) (lc_items c), if lc_deleter c then [y] else [])
        | None => (lc_items c, [])
        end in
      Some (true, mkLru items (it_next x)
                    (match it_next x with None => None | Some _ => lc_newestItem c end) (lc_deleter c),
            deleted)
  end.

(** [while (items.size() >= sizeThreshold && removeOldest());] *)
Definition lru_shrink_step (sizeThreshold : Z) (st : LruCache * list Item) :
    option ((LruCache * list Item) + (LruCache * list Item)) :=
  let '(c, deleted) := st in
  if sizeThreshold <=? Z.of_nat (size (lc_items c)) then
    '(b, c', d) ← lru_removeOldest c;
    Some (if b : bool then inl (c', deleted ++ d) else inr (c', deleted ++ d))
  else Some (inr (c, deleted)).

Definition lru_shrink (c : LruCache) (sizeThreshold : Z) : option (LruCache * list Item) :=
  whileM (lru_shrink_step sizeThreshold) (c, []).

Definition lru_setDeleter (c : LruCache) (deleter : bool) : LruCache :=
  mkLru (lc_items c) (lc_oldestItem c) (lc_newestItem c) deleter.

Definition lru_new : LruCache := mkLru ∅ None None false.

(** ** [LruCacheEx]: doubly linked *)

Record ItemEx := mkItemEx { ix_key : K; ix_value : V; ix_next : option K; ix_prev : option K }.

Record LruCacheEx := mkLruEx {
  lx_items : gmap K ItemEx;
  lx_oldestItem : option K;
  lx_newestItem : option K
}.

Definition set_next (items : gmap K ItemEx) (k : K) (next : option K) : option (gmap K ItemEx) :=
  x ← items !! k; Some (<[k := mkItemEx (ix_key x) (ix_value x) next (ix_prev x)]> items).
Definition set_prev (items : gmap K ItemEx) (k : K) (prev : option K) : option (gmap K ItemEx) :=
  x ← items !! k; Some (<[k := mkItemEx (ix_key x) (ix_value x) (ix_next x) prev]> items).

Definition lrux_add (c : LruCacheEx) (key : K) (value : V) : option (bool * LruCacheEx) :=
  match lx_items c !! key with
  | Some _ => Some (false, c)
  | None =>
      let items := <[key := mkItemEx key value None None]> (lx_items c) in
      '(items, oldest) ← match lx_newestItem c with
                         | Some n => items ← set_next items n (Some key); Some (items, lx_oldestItem c)
                         | None => Some (items, Some key)
                         end;
      items ← set_prev items key (lx_newestItem c);
      Some (true, mkLruEx items oldest (Some key))
  end.

Definition lrux_get (c : LruCacheEx) (key : K) : option ItemEx := lx_items c !! key.

Definition lrux_clear (c : LruCacheEx) : LruCacheEx := mkLruEx ∅ None None.

Definition lrux_removeOldest (c : LruCacheEx) : option (bool * LruCacheEx) :=
  match lx_oldestItem c with
  | None => Some (false, c)
  | Some o =>
      x ← lx_items c !! o;
      let items := match lx_items c !! ix_key x with
                   | Some _ => delete (ix_key x) (lx_items c)
                   | None => lx_items c
                   end in
      match ix_next x with
      | Some n => items ← set_prev items n None; Some (true, mkLruEx items (Some n) (lx_newestItem c))
      | None => Some (true, mkLruEx items None None)
      end
  end.

Definition lrux_shrink_step (sizeThreshold : Z) (c : LruCacheEx) : option (LruCacheEx + LruCacheEx) :=
  if sizeThreshold <=? Z.of_nat (size (lx_items c)) then
    '(b, c') ← lrux_removeOldest c;
    Some (if b : bool then inl c' else inr c')
  else Some (inr c).

Definition lrux_shrink (c : LruCacheEx) (sizeThreshold : Z) : option LruCacheEx :=
  whileM (lrux_shrink_step sizeThreshold) c.

(** [makeNewest(item)], for the item with key [item]. *)
Definition lrux_makeNewest (c : LruCacheEx) (item : K) : option LruCacheEx :=
  x ← lx_items c !! item;
  match ix_next x with
  | None => Some c
  | Some next =>
      items ← set_prev (lx_items c) next (ix_prev x);
      '(items, oldest) ← match ix_prev x with
                         | Some p => items ← set_next items p (Some next); Some (items, lx_oldestItem c)
                         | None => Some (items, Some next)
                         end;
      n ← lx_newestItem c;
      items ← set_next items n (Some item);
      items ← set_prev items item (Some n);
      items ← set_next items item None;
      Some (mkLruEx items oldest (Some item))
  end.

Definition lrux_new : LruCacheEx := mkLruEx ∅ None None.

(** ** The linked list in the map *)

Section Segments.
Context {N : Type} (node : K -> V -> option K -> option K -> N).

Definition hd_key (l : list (K * V)) (n : option K) : option K :=
  match l with [] => n | (k, _) :: _ => Some k end.
Fixpoint last_key (p : option K) (l : list (K * V)) : option K :=
  match l with [] => p | (k, _) :: r => last_key (Some k) r end.

(** The cells of a stretch of the list whose neighbours are [p] and [n]. *)
Fixpoint seg (p : option K) (l : list (K * V)) (n : option K) : list (K * N) :=
  match l with
  | [] => []
  | (k, v) :: r => (k, node k v (hd_key r n) p) :: seg (Some k) r n
  end.

Lemma seg_keys p l n : (seg p l n).*1 = l.*1.
Proof. revert p. induction l as [|[k v] l IH]; intros p; simpl; [done|]. by rewrite IH. Qed.

Lemma hd_key_app l1 l2 n : hd_key (l1 ++ l2) n = hd_key l1 (hd_key l2 n).
Proof. by destruct l1 as [|[??] l1]. Qed.

Lemma last_key_app p l1 l2 : last_key p (l1 ++ l2) = last_key (last_key p l1) l2.
Proof. revert p. induction l1 as [|[k v] l1 IH]; intros p; simpl; [done|]. apply IH. Qed.

Lemma seg_app p l1 l2 n :
  seg p (l1 ++ l2) n = seg p l1 (hd_key l2 n) ++ seg (last_key p l1) l2 n.
Proof.
  revert p. induction l1 as [|[k v] l1 IH]; intros p; simpl; [done|]. by rewrite IH, hd_key_app.
Qed.

Definition cells (l : list (K * V)) : gmap K N := list_to_map (seg None l None).

Lemma cells_size l : NoDup l.*1 -> size (cells l) = length l.
Proof.
  intros Hnd. unfold cells. rewrite <-size_dom, dom_list_to_map_L, seg_keys, size_list_to_set by done.
  apply length_fmap.
Qed.

(** One cell of a map built from a list without repeated keys. *)
Lemma cell_lookup (L1 L2 : list (K * N)) k x :
  NoDup (L1 ++ (k, x) :: L2).*1 -> (list_to_map (L1 ++ (k, x) :: L2) : gmap K N) !! k = Some x.
Proof. intros Hnd. apply elem_of_list_to_map_1; [done|]. rewrite elem_of_app. right. left. Qed.

Lemma cell_insert (L1 L2 : list (K * N)) k x y :
  NoDup (L1 ++ (k, x) :: L2).*1 ->
  <[k := y]> (list_to_map (L1 ++ (k, x) :: L2) : gmap K N) = list_to_map (L1 ++ (k, y) :: L2).
Proof.
  intros Hnd. rewrite fmap_app, fmap_cons in Hnd. apply NoDup_app in Hnd as (_ & Hd & _).
  assert (k ∉ L1.*1) as Hk by (intros Hin; apply (Hd k Hin); left).
  clear Hd. induction L1 as [|[k' z] L1 IH]; simpl; [apply insert_insert_eq|].
  rewrite fmap_cons, not_elem_of_cons in Hk. destruct Hk as [Hne Hk].
  rewrite insert_insert_ne by (simpl in Hne; congruence). by rewrite (IH Hk).
Qed.

Lemma cell_delete (k : K) (x : N) (L : list (K * N)) :
  NoDup ((k, x) :: L).*1 -> delete k (list_to_map ((k, x) :: L) : gmap K N) = list_to_map L.
Proof.
  rewrite fmap_cons. intros [Hk _]%NoDup_cons. simpl. rewrite fin_maps.delete_insert_eq.
  apply delete_id. by apply not_elem_of_list_to_map_1.
Qed.

Lemma cells_lookup_None l k : k ∉ l.*1 -> cells l !! k = None.
Proof. intros Hk. apply not_elem_of_list_to_map_1. by rewrite seg_keys. Qed.

Lemma cells_lookup l1 k v l2 :
  NoDup (l1 ++ (k, v) :: l2).*1 ->
  cells (l1 ++ (k, v) :: l2) !! k = Some (node k v (hd_key l2 None) (last_key None l1)).
Proof.
  intros Hnd. unfold cells. rewrite seg_app. apply cell_lookup.
  rewrite fmap_app, fmap_cons, !seg_keys. by rewrite fmap_app in Hnd.
Qed.
End Segments.

Lemma split_last (l : list (K * V)) : l = [] \/ exists l0 k v, l = l0 ++ [(k, v)].
Proof. destruct l as [|[k v] l0 _] using rev_ind; [by left|right; eauto]. Qed.

Lemma elem_of_keys k (l : list (K * V)) : k ∈ l.*1 -> exists l1 v l2, l = l1 ++ (k, v) :: l2.
Proof.
  intros ([k' v] & -> & Hin)%list_elem_of_fmap. apply list_elem_of_split in Hin as (l1 & l2 & ->). eauto.
Qed.

(** ** The caches are queues *)

(** The cache holds the pairs [l], oldest first. *)
Definition lru_ok (c : LruCache) (l : list (K * V)) : Prop :=
  NoDup l.*1 /\ lc_items c = cells (fun k v n _ => mkItem k v n) l /\
  lc_oldestItem c = hd_key l None /\ lc_newestItem c = last_key None l.

Definition lrux_ok (c : LruCacheEx) (l : list (K * V)) : Prop :=
  NoDup l.*1 /\ lx_items c = cells mkItemEx l /\
  lx_oldestItem c = hd_key l None /\ lx_newestItem c = last_key None l.

Lemma nodup_snoc (l : list (K * V)) k v : NoDup l.*1 -> k ∉ l.*1 -> NoDup (l ++ [(k, v)]).*1.
Proof.
  intros Hnd Hk. rewrite fmap_app. apply NoDup_app. split_and!; [done| |apply NoDup_singleton].
  intros x Hx Hin. apply list_elem_of_singleton in Hin. by subst.
Qed.

(** Adding a new key at the end: the old last cell is linked to the new one. *)
Lemma cells_snoc {N} (node : K -> V -> option K -> option K -> N) l k v x :
  NoDup l.*1 -> k ∉ l.*1 -> x = node k v None (last_key None l) ->
  <[k := x]> (list_to_map (seg node None l (Some k)) : gmap K N) = cells node (l ++ [(k, v)]).
Proof.
  intros Hnd Hk ->. unfold cells. rewrite seg_app. simpl.
  rewrite <-list_to_map_cons. apply list_to_map_proper.
  - rewrite fmap_cons, seg_keys. apply NoDup_cons. done.
  - apply Permutation_cons_append.
Qed.

Lemma lru_add_ok c l k v : lru_ok c l ->
  if decide (k ∈ l.*1) then lru_add c k v = Some (false, c)
  else exists c', lru_add c k v = Some (true, c') /\ lru_ok c' (l ++ [(k, v)]) /\ lc_deleter c' = lc_deleter c.
Proof.
  intros (Hnd & Hi & Ho & Hn). unfold lru_add. rewrite Hi, Hn. destruct (decide (k ∈ l.*1)) as [Hin|Hk].
  - apply elem_of_keys in Hin as (l1 & v' & l2 & ->). by rewrite cells_lookup.
  - rewrite cells_lookup_None by done. pose proof (nodup_snoc l k v Hnd Hk) as Hnd'.
    destruct (split_last l) as [->|(l0 & kn & vn & ->)].
    + eexists. split; [done|]. split; [|done]. by repeat split.
    + rewrite last_key_app. cbn [last_key].
      assert (kn ≠ k) as Hne by (intros ->; apply Hk; rewrite fmap_app, elem_of_app; right; left).
      rewrite lookup_insert_ne, (cells_lookup _ l0 kn vn []), option_bind_Some_eq by done.
      eexists. split; [done|]. split; [|done]. split; [done|]. cbn [lc_items lc_oldestItem lc_newestItem it_key it_value].
      split; [|split; [by rewrite Ho, !hd_key_app|by rewrite !last_key_app]].
      rewrite insert_insert_ne by done. unfold cells at 1. rewrite seg_app. cbn [seg hd_key].
      rewrite cell_insert by (rewrite fmap_app, fmap_cons, seg_keys; by rewrite fmap_app in Hnd).
      rewrite <-(cells_snoc _ (l0 ++ [(kn, vn)]) k v (mkItem k v None)) by done. by rewrite seg_app.
Qed.

Lemma seg_single p q l n :
  seg (fun k v n _ => mkItem k v n) p l n = seg (fun k v n _ => mkItem k v n) q l n.
Proof. by destruct l as [|[k v] l]. Qed.

Lemma lru_removeOldest_ok c k v l : lru_ok c ((k, v) :: l) ->
  exists c', lru_removeOldest c = Some (true, c', if lc_deleter c then [mkItem k v (hd_key l None)] else []) /\
    lru_ok c' l /\ lc_deleter c' = lc_deleter c.
Proof.
  intros (Hnd & Hi & Ho & Hn). unfold lru_removeOldest. rewrite Ho, Hi. cbn [hd_key].
  rewrite (cells_lookup _ [] k v l), option_bind_Some_eq by done. cbn [it_key it_next].
  rewrite (cells_lookup _ [] k v l) by done. eexists. split; [done|]. split; [|done].
  assert (NoDup l.*1) as Hl by (by apply NoDup_cons in Hnd as [_ ?]).
  split; [done|]. cbn [lc_items lc_oldestItem lc_newestItem]. split_and!; [|done|].
  - unfold cells. cbn [seg]. rewrite cell_delete by (by rewrite fmap_cons, seg_keys). by rewrite (seg_single _ None).
  - rewrite Hn. by destruct l as [|[k' v'] l].
Qed.

(** What [removeOldest(sizeThreshold)] leaves: fewer than [sizeThreshold] pairs, the newest. *)
Definition shrunk (l : list (K * V)) (n : Z) : list (K * V) := drop (length l - Z.to_nat (Z.max 0 (n - 1))) l.

Lemma shrunk_small l n : Z.of_nat (length l) < n -> shrunk l n = l.
Proof. intros Hn. unfold shrunk. replace (length l - _)%nat with O by lia. done. Qed.

Lemma shrunk_cons x l n : n <= Z.of_nat (length (x :: l)) -> shrunk (x :: l) n = shrunk l n.
Proof.
  intros Hn. unfold shrunk. cbn [length] in *.
  replace (S (length l) - Z.to_nat (Z.max 0 (n - 1)))%nat with (S (length l - Z.to_nat (Z.max 0 (n - 1)))) by lia. done.
Qed.

Lemma lru_size c l : lru_ok c l -> size (lc_items c) = length l.
Proof. intros (Hnd & -> & _). by apply cells_size. Qed.

(** The pairs given to the deleter. *)
Definition kv (x : Item) : K * V := (it_key x, it_value x).

Lemma lru_shrink_ok c l n : lru_ok c l -> Z.of_nat (length l) < 2 ^ 255 ->
  exists c' d, lru_shrink c n = Some (c', d) /\ lru_ok c' (shrunk l n) /\ lc_deleter c' = lc_deleter c /\
    (if lc_deleter c then (kv <$> d) ++ shrunk l n = l else d = []).
Proof.
  intros Hok Hlen. unfold lru_shrink.
  edestruct (whileM_total (lru_shrink_step n)
    (fun '(c', d) => exists l', lru_ok c' l' /\ lc_deleter c' = lc_deleter c /\ shrunk l' n = shrunk l n /\
       (if lc_deleter c then (kv <$> d) ++ l' = l else d = []))
    (fun '(c', d) => Z.of_nat (size (lc_items c')))
    (fun '(c', d) => lru_ok c' (shrunk l n) /\ lc_deleter c' = lc_deleter c /\
       (if lc_deleter c then (kv <$> d) ++ shrunk l n = l else d = [])) (c, [])) as ([c' d] & Hr & HQ).
  - intros [c' d] (l' & Hl' & Hd & Hs & Hkv). unfold lru_shrink_step. rewrite (lru_size _ _ Hl').
    destruct (n <=? Z.of_nat (length l')) eqn:E; zb.
    + destruct l' as [|[k v] l'].
      * destruct Hl' as (Hnd & Hi & Ho & Hn). unfold lru_removeOldest. rewrite Ho. cbn [hd_key].
        eexists. split; [done|]. cbn. split_and!; [|done|].
        -- assert (shrunk l n = []) as -> by (rewrite <-Hs; unfold shrunk; by rewrite drop_nil). done.
        -- rewrite <-Hs. unfold shrunk. rewrite drop_nil. destruct (lc_deleter c); [|by subst]. by rewrite !app_nil_r in *.
      * destruct (lru_removeOldest_ok _ _ _ _ Hl') as (c1 & -> & Hc1 & Hd1). eexists. split; [done|]. split.
        -- exists l'. split_and!; [done|congruence|by rewrite <-Hs, shrunk_cons|]. rewrite Hd.
           destruct (lc_deleter c); [|by subst]. rewrite fmap_app, <-app_assoc. done.
        -- rewrite (lru_size _ _ Hc1). simpl. lia.
    + eexists. split; [done|]. cbn. rewrite <-Hs, shrunk_small by done. done.
  - cbn beta iota. exists l. split_and!; [done|done|done|]. by destruct (lc_deleter c).
  - rewrite (lru_size _ _ Hok). lia.
  - exists c', d. destruct HQ as (? & ? & ?). done.
Qed.

(** Changing the link into or out of a stretch of the doubly linked list. *)
Lemma set_prev_seg L1 L2 p q k v l n :
  NoDup (L1 ++ seg mkItemEx p ((k, v) :: l) n ++ L2).*1 ->
  set_prev (list_to_map (L1 ++ seg mkItemEx p ((k, v) :: l) n ++ L2)) k q =
  Some (list_to_map (L1 ++ seg mkItemEx q ((k, v) :: l) n ++ L2)).
Proof.
  intros Hnd. unfold set_prev. cbn [seg app] in *. rewrite cell_lookup, option_bind_Some_eq by done.
  by rewrite cell_insert.
Qed.

Lemma set_next_seg L1 L2 p n n' k v l :
  NoDup (L1 ++ seg mkItemEx p (l ++ [(k, v)]) n ++ L2).*1 ->
  set_next (list_to_map (L1 ++ seg mkItemEx p (l ++ [(k, v)]) n ++ L2)) k n' =
  Some (list_to_map (L1 ++ seg mkItemEx p (l ++ [(k, v)]) n' ++ L2)).
Proof.
  intros Hnd. unfold set_next. rewrite !seg_app in *. cbn [seg app hd_key] in *.
  rewrite <-app_assoc, app_assoc in *. cbn [app] in *.
  rewrite cell_lookup, option_bind_Some_eq by done. rewrite cell_insert by done.
  by rewrite <-!app_assoc.
Qed.

Lemma lrux_add_ok c l k v : lrux_ok c l ->
  if decide (k ∈ l.*1) then lrux_add c k v = Some (false, c)
  else exists c', lrux_add c k v = Some (true, c') /\ lrux_ok c' (l ++ [(k, v)]).
Proof.
  intros (Hnd & Hi & Ho & Hn). unfold lrux_add. rewrite Hi, Hn. destruct (decide (k ∈ l.*1)) as [Hin|Hk].
  - apply elem_of_keys in Hin as (l1 & v' & l2 & ->). by rewrite cells_lookup.
  - rewrite cells_lookup_None by done. pose proof (nodup_snoc l k v Hnd Hk) as Hnd'.
    destruct (split_last l) as [->|(l0 & kn & vn & ->)].
    + simpl. unfold set_prev. rewrite lookup_insert_eq. simpl. eexists. split; [done|]. split; [done|].
      split; [|done]. cbn [lx_items]. by rewrite insert_insert_eq.
    + unfold cells. rewrite <-list_to_map_cons. rewrite last_key_app. cbn [last_key].
      assert (NoDup (k :: (l0 ++ [(kn, vn)]).*1)) as Hnd2 by (by apply NoDup_cons).
      pose proof (set_next_seg [(k, mkItemEx k v None None)] [] None None (Some k) kn vn l0) as Hs.
      rewrite !app_nil_r in Hs. cbn [app] in Hs.
      rewrite Hs, !option_bind_Some_eq by (by rewrite fmap_cons, seg_keys).
      pose proof (set_prev_seg [] (seg mkItemEx None (l0 ++ [(kn, vn)]) (Some k)) None (Some kn) k v [] None) as Hp.
      cbn [app seg hd_key] in Hp. rewrite Hp, option_bind_Some_eq by (by rewrite fmap_cons, seg_keys).
      eexists. split; [done|]. split; [done|]. cbn [lx_items lx_oldestItem lx_newestItem].
      split; [|split; [by rewrite Ho, !hd_key_app|by rewrite !last_key_app]].
      rewrite list_to_map_cons. apply cells_snoc; [done|done|]. by rewrite last_key_app.
Qed.

Lemma lrux_removeOldest_ok c k v l : lrux_ok c ((k, v) :: l) ->
  exists c', lrux_removeOldest c = Some (true, c') /\ lrux_ok c' l.
Proof.
  intros (Hnd & Hi & Ho & Hn). unfold lrux_removeOldest. rewrite Ho, Hi. cbn [hd_key].
  rewrite (cells_lookup _ [] k v l), option_bind_Some_eq by done. cbn [ix_key ix_next].
  rewrite (cells_lookup _ [] k v l) by done. unfold cells at 1 2. cbn [seg].
  rewrite cell_delete by (by rewrite fmap_cons, seg_keys).
  assert (NoDup l.*1) as Hl by (by apply NoDup_cons in Hnd as [_ ?]).
  destruct l as [|[k' v'] l]; [by eexists|]. cbn [hd_key].
  pose proof (set_prev_seg [] [] (Some k) None k' v' l None) as Hp. rewrite !app_nil_r in Hp. cbn [app] in Hp.
  rewrite Hp, option_bind_Some_eq by (by rewrite seg_keys). eexists. split; [done|]. by split.
Qed.

Lemma lrux_size c l : lrux_ok c l -> size (lx_items c) = length l.
Proof. intros (Hnd & -> & _). by apply cells_size. Qed.

Lemma lrux_shrink_ok c l n : lrux_ok c l -> Z.of_nat (length l) < 2 ^ 255 ->
  exists c', lrux_shrink c n = Some c' /\ lrux_ok c' (shrunk l n).
Proof.
  intros Hok Hlen. unfold lrux_shrink.
  apply (whileM_total (lrux_shrink_step n) (fun c' => exists l', lrux_ok c' l' /\ shrunk l' n = shrunk l n)
    (fun c' => Z.of_nat (size (lx_items c')))).
  - intros c' (l' & Hl' & Hs). unfold lrux_shrink_step. rewrite (lrux_size _ _ Hl').
    destruct (n <=? Z.of_nat (length l')) eqn:E; zb.
    + destruct l' as [|[k v] l'].
      * pose proof Hl' as (_ & _ & Ho & _). unfold lrux_removeOldest. rewrite Ho. eexists. split; [done|].
        rewrite <-Hs. unfold shrunk. by rewrite drop_nil.
      * destruct (lrux_removeOldest_ok _ _ _ _ Hl') as (c1 & -> & Hc1). eexists. split; [done|]. cbn. split.
        -- exists l'. split; [done|]. by rewrite <-Hs, shrunk_cons.
        -- rewrite (lrux_size _ _ Hc1). lia.
    + eexists. split; [done|]. by rewrite <-Hs, shrunk_small.
  - by exists l.
  - rewrite (lrux_size _ _ Hok). lia.
Qed.

(** The four pointer updates of [makeNewest] around the moved cell. *)
Lemma makeNewest_links a k v b x :
  let map b_prev a_next b_next := list_to_map (seg mkItemEx None a a_next ++ (k, x) :: seg mkItemEx b_prev b b_next) in
  NoDup (a ++ (k, v) :: b).*1 -> b ≠ [] ->
  exists kn m, hd_key b None = Some kn /\ last_key None b = Some m /\
    set_prev (map (Some k) (Some k) None) kn (last_key None a) = Some (map (last_key None a) (Some k) None) /\
    (forall p, last_key None a = Some p ->
       set_next (map (last_key None a) (Some k) None) p (Some kn) = Some (map (last_key None a) (Some kn) None)) /\
    set_next (map (last_key None a) (Some kn) None) m (Some k) = Some (map (last_key None a) (Some kn) (Some k)).
Proof.
  intros map Hnd Hb. assert (forall p q r, NoDup (seg mkItemEx None a p ++ (k, x) :: seg mkItemEx q b r).*1) as Hk.
  { intros p q r. rewrite fmap_app, fmap_cons, !seg_keys. by rewrite fmap_app in Hnd. }
  assert (exists kn vn b', b = (kn, vn) :: b') as (kn & vn & b' & Eb) by (destruct b as [|[??] ?]; [done|eauto]).
  destruct (split_last b) as [->|(b1 & m & vm & Hb1)]; [done|].
  exists kn, m. split; [by rewrite Eb|]. split; [by rewrite Hb1, last_key_app|]. unfold map. split_and!.
  - pose proof (set_prev_seg (seg mkItemEx None a (Some k) ++ [(k, x)]) [] (Some k) (last_key None a) kn vn b' None) as Hp.
    rewrite !app_nil_r, <-!app_assoc, <-Eb in Hp. apply Hp, Hk.
  - intros p Hp. destruct (split_last a) as [->|(a0 & p' & vp & Ha)]; [done|].
    rewrite Ha, last_key_app in Hp. cbn [last_key] in Hp. injection Hp as ->.
    pose proof (set_next_seg [] ((k, x) :: seg mkItemEx (last_key None a) b None) None (Some k) (Some kn) p vp a0) as Hp.
    cbn [app] in Hp. rewrite <-Ha in Hp. apply Hp, Hk.
  - pose proof (set_next_seg (seg mkItemEx None a (Some kn) ++ [(k, x)]) [] (last_key None a) None (Some k) m vm b1) as Hp.
    rewrite !app_nil_r, <-!app_assoc, <-Hb1 in Hp. apply Hp, Hk.
Qed.

Lemma lrux_makeNewest_ok c a k v b : lrux_ok c (a ++ (k, v) :: b) ->
  exists c', lrux_makeNewest c k = Some c' /\ lrux_ok c' (a ++ b ++ [(k, v)]).
Proof.
  intros Hok. pose proof Hok as (Hnd & Hi & Ho & Hn). unfold lrux_makeNewest.
  rewrite Hi, cells_lookup, option_bind_Some_eq by done. cbn [ix_next ix_prev].
  destruct (decide (b = [])) as [->|Hb]; [by eexists|].
  destruct (makeNewest_links a k v b (mkItemEx k v (hd_key b None) (last_key None a)) Hnd Hb)
    as (kn & m & Hkn & Hm & H1 & H2 & H3).
  rewrite Hkn in *. unfold cells. rewrite seg_app. cbn [seg hd_key]. rewrite Hkn, H1, option_bind_Some_eq.
  set (oldest := match last_key None a with Some _ => lx_oldestItem c | None => Some kn end).
  set (x := mkItemEx k v (Some kn) (last_key None a)) in *.
  assert (match last_key None a with
          | Some p => items ← set_next (list_to_map (seg mkItemEx None a (Some k) ++ (k, x) ::
                                           seg mkItemEx (last_key None a) b None)) p (Some kn);
                      Some (items, lx_oldestItem c)
          | None => Some (list_to_map (seg mkItemEx None a (Some k) ++ (k, x) ::
                                         seg mkItemEx (last_key None a) b None), Some kn)
          end = Some (list_to_map (seg mkItemEx None a (Some kn) ++ (k, x) ::
                                     seg mkItemEx (last_key None a) b None), oldest)) as ->.
  { destruct (split_last a) as [->|(a0 & p & vp & Ha)]; [done|].
    unfold oldest. assert (last_key None a = Some p) as Hp by (by rewrite Ha, last_key_app).
    specialize (H2 _ Hp). revert H2. rewrite !Hp. intros H2. by rewrite H2. }
  rewrite option_bind_Some_eq, Hn, last_key_app. cbn [last_key].
  assert (last_key (Some k) b = Some m) as -> by (by destruct b as [|[??] ?]).
  rewrite option_bind_Some_eq, H3, option_bind_Some_eq.
  assert (forall y, NoDup (seg mkItemEx None a (Some kn) ++ (k, y) :: seg mkItemEx (last_key None a) b (Some k)).*1) as Hk.
  { intros y. rewrite fmap_app, fmap_cons, !seg_keys. by rewrite fmap_app in Hnd. }
  unfold set_prev. rewrite cell_lookup, option_bind_Some_eq, cell_insert, option_bind_Some_eq by apply Hk.
  unfold set_next. rewrite cell_lookup, option_bind_Some_eq, cell_insert, option_bind_Some_eq by apply Hk.
  eexists. split; [done|]. split.
  - assert ((a ++ b ++ [(k, v)]) ≡ₚ a ++ (k, v) :: b) as -> by (f_equiv; symmetry; apply Permutation_cons_append). done.
  - cbn [lx_items lx_oldestItem lx_newestItem ix_key ix_value ix_prev]. split_and!.
    + unfold cells. rewrite !seg_app. cbn [seg hd_key]. rewrite hd_key_app. cbn [hd_key].
      assert (hd_key b (Some k) = Some kn) as -> by (by destruct b as [|[??] ?]).
      assert (last_key (last_key None a) b = Some m) as -> by (by destruct b as [|[??] ?]).
      apply list_to_map_proper; [apply Hk|]. f_equiv. apply Permutation_cons_append.
    + unfold oldest. rewrite !hd_key_app. rewrite Ho, hd_key_app. destruct a as [|[ka va] a]; [by destruct b as [|[??] ?]|].
      simpl. destruct (last_key (Some ka) a) eqn:El; [done|]. exfalso. clear -El.
      revert ka El. induction a as [|[k' v'] a IH]; intros ka El; [done|]. by apply (IH k').
    + by rewrite !last_key_app.
Qed.

(** ** Sequences of operations *)

Inductive lru_op :=
  | LAdd (k : K) (v : V)
  | LRemoveOldest
  | LShrink (sizeThreshold : Z)
  | LClear
  | LTouch (k : K).

(** The queue: adding at the end unless the key is there, removing at the front, moving
    to the end what was used. *)
Definition is_key (k : K) (x : K * V) : Prop := x.1 = k.
#[local] Instance is_key_dec k x : Decision (is_key k x) := decide (x.1 = k).

Definition queue_step (l : list (K * V)) (o : lru_op) : list (K * V) :=
  match o with
  | LAdd k v => if decide (k ∈ l.*1) then l else l ++ [(k, v)]
  | LRemoveOldest => tail l
  | LShrink n => shrunk l n
  | LClear => []
  | LTouch k => filter (fun x => ~ is_key k x) l ++ filter (is_key k) l
  end.

Definition added (l : list (K * V)) (o : lru_op) : list (K * V) :=
  match o with LAdd k v => if decide (k ∈ l.*1) then [] else [(k, v)] | _ => [] end.

Fixpoint all_added (l : list (K * V)) (ops : list lru_op) : list (K * V) :=
  match ops with [] => [] | o :: r => added l o ++ all_added (queue_step l o) r end.

(** [LTouch] is for [LruCacheEx] only. *)
Definition lru_step (st : LruCache * list Item) (o : lru_op) : option (LruCache * list Item) :=
  let '(c, del) := st in
  match o with
  | LAdd k v => '(_, c) ← lru_add c k v; Some (c, del)
  | LRemoveOldest => '(_, c, d) ← lru_removeOldest c; Some (c, del ++ d)
  | LShrink n => '(c, d) ← lru_shrink c n; Some (c, del ++ d)
  | LClear => let '(c, d) := lru_clear c in Some (c, del ++ d)
  | LTouch _ => None
  end.

Definition lrux_step (c : LruCacheEx) (o : lru_op) : option LruCacheEx :=
  match o with
  | LAdd k v => '(_, c) ← lrux_add c k v; Some c
  | LRemoveOldest => '(_, c) ← lrux_removeOldest c; Some c
  | LShrink n => lrux_shrink c n
  | LClear => Some (lrux_clear c)
  | LTouch k => match lrux_get c k with Some _ => lrux_makeNewest c k | None => Some c end
  end.

Definition runM {S} (step : S -> lru_op -> option S) (s : S) (ops : list lru_op) : option S :=
  foldl (fun o x => s ← o; step s x) (Some s) ops.

Lemma runM_cons {S} (step : S -> lru_op -> option S) s o ops s' :
  step s o = Some s' -> runM step s (o :: ops) = runM step s' ops.
Proof. intros Hs. unfold runM. simpl. by rewrite Hs. Qed.

Lemma queue_step_length l o : (length (queue_step l o) <= S (length l))%nat.
Proof.
  destruct o as [k v| |n| |k]; simpl; [|destruct l; simpl; lia| |lia|].
  - destruct (decide _); [lia|]. rewrite length_app. simpl. lia.
  - unfold shrunk. rewrite length_drop. lia.
  - rewrite length_app. induction l as [|x l IH]; simpl; [lia|]. rewrite !filter_cons.
    destruct (decide (is_key k x)), (decide (~ is_key k x)); simpl; try done; lia.
Qed.

Lemma lru_get_ok c l k : lru_ok c l -> it_value <$> lru_get c k = (list_to_map l : gmap K V) !! k.
Proof.
  intros (Hnd & Hi & _). unfold lru_get. rewrite Hi. destruct (decide (k ∈ l.*1)) as [Hin|Hk].
  - apply elem_of_keys in Hin as (l1 & v & l2 & ->). rewrite cells_lookup by done. by rewrite cell_lookup.
  - rewrite cells_lookup_None by done. symmetry. by apply not_elem_of_list_to_map_1.
Qed.

Lemma lrux_get_ok c l k : lrux_ok c l -> ix_value <$> lrux_get c k = (list_to_map l : gmap K V) !! k.
Proof.
  intros (Hnd & Hi & _). unfold lrux_get. rewrite Hi. destruct (decide (k ∈ l.*1)) as [Hin|Hk].
  - apply elem_of_keys in Hin as (l1 & v & l2 & ->). rewrite cells_lookup by done. by rewrite cell_lookup.
  - rewrite cells_lookup_None by done. symmetry. by apply not_elem_of_list_to_map_1.
Qed.

Lemma kv_cells (l : list (K * V)) p n : kv <$> (seg (fun k v n _ => mkItem k v n) p l n).*2 = l.
Proof. revert p. induction l as [|[k v] l IH]; intros p; simpl; [done|]. by rewrite IH. Qed.

Definition is_touch (o : lru_op) : bool := match o with LTouch _ => true | _ => false end.

Lemma lru_step_ok c del l o : lru_ok c l -> is_touch o = false -> Z.of_nat (length l) < 2 ^ 255 ->
  exists c' del', lru_step (c, del) o = Some (c', del') /\ lru_ok c' (queue_step l o) /\
    lc_deleter c' = lc_deleter c /\
    (if lc_deleter c then (kv <$> del') ++ queue_step l o ≡ₚ (kv <$> del) ++ l ++ added l o else del' = del).
Proof.
  intros Hok Ht Hlen. destruct o as [k v| |n| |k]; [..|done]; cbn [lru_step queue_step added].
  - pose proof (lru_add_ok c l k v Hok) as Ha. destruct (decide (k ∈ l.*1)).
    + rewrite Ha. eexists _, _. split; [done|]. rewrite app_nil_r. split_and!; [done|done|]. by destruct (lc_deleter c).
    + destruct Ha as (c' & -> & Hc' & Hd). eexists _, _. split; [done|]. split_and!; [done|done|]. by destruct (lc_deleter c).
  - destruct l as [|[k v] l].
    + pose proof Hok as (_ & _ & Ho & _). unfold lru_removeOldest. rewrite Ho. eexists _, _. split; [done|].
      rewrite !app_nil_r. split_and!; [done|done|]. by destruct (lc_deleter c).
    + destruct (lru_removeOldest_ok _ _ _ _ Hok) as (c' & -> & Hc' & Hd). eexists _, _. split; [done|].
      split_and!; [done|done|]. destruct (lc_deleter c); [|by rewrite app_nil_r].
      rewrite fmap_app, <-app_assoc, app_nil_r. done.
  - destruct (lru_shrink_ok c l n Hok Hlen) as (c' & d & -> & Hc' & Hd & Hkv). eexists _, _. split; [done|].
    split_and!; [done|done|]. destruct (lc_deleter c); [|by rewrite Hkv, app_nil_r].
    by rewrite fmap_app, <-app_assoc, Hkv, app_nil_r.
  - cbn [lru_clear]. eexists _, _. split; [done|]. split_and!.
    + split_and!; [apply NoDup_nil_2|done|done|done].
    + done.
    + destruct (lc_deleter c); [|by rewrite app_nil_r]. rewrite !app_nil_r, fmap_app. apply Permutation_app_head.
      destruct Hok as (Hnd & -> & _). unfold cells. rewrite map_to_list_to_map by (by rewrite seg_keys).
      by rewrite kv_cells.
Qed.

Lemma lru_run_ok ops : forall c del l, lru_ok c l -> forallb (negb ∘ is_touch) ops = true ->
  Z.of_nat (length l + length ops) < 2 ^ 255 ->
  exists c' del', runM lru_step (c, del) ops = Some (c', del') /\ lru_ok c' (foldl queue_step l ops) /\
    (if lc_deleter c then (kv <$> del') ++ foldl queue_step l ops ≡ₚ (kv <$> del) ++ l ++ all_added l ops else del' = del).
Proof.
  induction ops as [|o ops IH]; intros c del l Hok Ht Hlen.
  - eexists _, _. split; [done|]. split; [done|]. cbn [all_added foldl]. rewrite app_nil_r. by destruct (lc_deleter c).
  - cbn [forallb] in Ht. apply andb_prop in Ht as [Ho Ht]. cbn [length] in Hlen.
    destruct (lru_step_ok c del l o Hok) as (c1 & del1 & Hs & Hok1 & Hd1 & Hp1); [by apply negb_true_iff in Ho|lia|].
    pose proof (queue_step_length l o).
    destruct (IH c1 del1 (queue_step l o) Hok1 Ht) as (c2 & del2 & Hr & Hok2 & Hp2); [lia|].
    exists c2, del2. rewrite (runM_cons _ _ _ _ _ Hs). split; [done|]. split; [done|]. rewrite Hd1 in Hp2.
    destruct (lc_deleter c); [|congruence]. cbn [foldl all_added]. rewrite Hp2, app_assoc, Hp1.
    by rewrite !app_assoc.
Qed.

Lemma filter_all_eq {A} (P : A -> Prop) `{!forall x, Decision (P x)} (l : list A) :
  (forall x, x ∈ l -> P x) -> filter P l = l.
Proof.
  induction l as [|x l IH]; intros Hl; [done|]. rewrite filter_cons, decide_True by (apply Hl; left).
  f_equal. apply IH. intros y Hy. apply Hl. by right.
Qed.

Lemma filter_none_eq {A} (P : A -> Prop) `{!forall x, Decision (P x)} (l : list A) :
  (forall x, x ∈ l -> ~ P x) -> filter P l = [].
Proof.
  induction l as [|x l IH]; intros Hl; [done|]. rewrite filter_cons, decide_False by (apply Hl; left).
  apply IH. intros y Hy. apply Hl. by right.
Qed.

Lemma filter_keys (a : list (K * V)) k v b : NoDup (a ++ (k, v) :: b).*1 ->
  filter (fun x => ~ is_key k x) (a ++ (k, v) :: b) = a ++ b /\ filter (is_key k) (a ++ (k, v) :: b) = [(k, v)].
Proof.
  rewrite fmap_app, fmap_cons. intros (_ & Hd & [Hk _]%NoDup_cons)%NoDup_app.
  assert (forall x, x ∈ a -> ~ is_key k x) as Ha.
  { intros x Hx Hkx. apply (Hd x.1); [by apply list_elem_of_fmap_2|]. rewrite Hkx. left. }
  assert (forall x, x ∈ b -> ~ is_key k x) as Hb.
  { intros x Hx Hkx. apply Hk. unfold is_key in Hkx. simpl. rewrite <-Hkx. by apply list_elem_of_fmap_2. }
  rewrite !filter_app, !filter_cons. rewrite decide_False, decide_True by (unfold is_key; naive_solver).
  rewrite !(filter_all_eq (fun x => ~ is_key k x)) by done. split; [done|].
  rewrite (filter_none_eq _ a), (filter_none_eq _ b) by done. done.
Qed.

Lemma lrux_step_ok c l o : lrux_ok c l -> Z.of_nat (length l) < 2 ^ 255 ->
  exists c', lrux_step c o = Some c' /\ lrux_ok c' (queue_step l o).
Proof.
  intros Hok Hlen. destruct o as [k v| |n| |k]; cbn [lrux_step queue_step].
  - pose proof (lrux_add_ok c l k v Hok) as Ha. destruct (decide (k ∈ l.*1)).
    + rewrite Ha. eauto.
    + destruct Ha as (c' & -> & Hc'). eauto.
  - destruct l as [|[k v] l].
    + pose proof Hok as (_ & _ & Ho & _). unfold lrux_removeOldest. rewrite Ho. eauto.
    + destruct (lrux_removeOldest_ok _ _ _ _ Hok) as (c' & -> & Hc'). eauto.
  - by apply lrux_shrink_ok.
  - eexists. split; [done|]. split_and!; [apply NoDup_nil_2|done|done|done].
  - pose proof Hok as (Hnd & Hi & _). unfold lrux_get. rewrite Hi. destruct (decide (k ∈ l.*1)) as [Hin|Hk].
    + apply elem_of_keys in Hin as (a & v & b & ->). rewrite cells_lookup by done.
      destruct (filter_keys _ _ _ _ Hnd) as [-> ->]. rewrite <-app_assoc. by apply (lrux_makeNewest_ok _ _ _ v).
    + rewrite cells_lookup_None by done. exists c. split; [done|].
      rewrite filter_all_eq, filter_none_eq, app_nil_r; [done| |];
        intros x Hx Hk'; apply Hk; rewrite <-Hk'; by apply list_elem_of_fmap_2.
Qed.

Lemma lru_new_ok d : lru_ok (lru_setDeleter lru_new d) [].
Proof. split_and!; [apply NoDup_nil_2|done|done|done]. Qed.

(** C31.  [LruCache] is a queue: after any sequence of additions, removals of the oldest,
    shrinkings and clearings, no link has dangled, the cache holds exactly the pairs of
    the queue, [get] finds exactly the values of their keys, and with a deleter every
    item that was added is either still there or was given to the deleter once. *)
Theorem LruCache_refines_queue (d : bool) (ops : list lru_op)
  (Hops : forallb (negb ∘ is_touch) ops = true) (Hlen : Z.of_nat (length ops) < 2 ^ 255) :
  exists c del, runM lru_step (lru_setDeleter lru_new d, []) ops = Some (c, del) /\
    let l := foldl queue_step [] ops in
    size (lc_items c) = length l /\
    (forall k, it_value <$> lru_get c k = (list_to_map l : gmap K V) !! k) /\
    (if d then (kv <$> del) ++ l ≡ₚ all_added [] ops else del = []).
Proof.
  destruct (lru_run_ok ops (lru_setDeleter lru_new d) [] [] (lru_new_ok d) Hops) as (c & del & -> & Hok & Hp); [done|].
  exists c, del. split; [done|]. cbv zeta. split_and!; [by apply lru_size|by intros k; apply lru_get_ok|done].
Qed.

Lemma lrux_run_ok ops : forall c l, lrux_ok c l -> Z.of_nat (length l + length ops) < 2 ^ 255 ->
  exists c', runM lrux_step c ops = Some c' /\ lrux_ok c' (foldl queue_step l ops).
Proof.
  induction ops as [|o ops IH]; intros c l Hok Hlen; [by eexists|]. cbn [length] in Hlen.
  destruct (lrux_step_ok c l o Hok) as (c1 & Hs & Hok1); [lia|]. pose proof (queue_step_length l o).
  destruct (IH c1 (queue_step l o) Hok1) as (c2 & Hr & Hok2); [lia|].
  exists c2. by rewrite (runM_cons _ _ _ _ _ Hs).
Qed.

(** [LruCacheEx] is a queue whose used items move to its end: after any sequence of
    operations, [get] followed by [makeNewest] among them, no link has dangled and the
    cache holds exactly the pairs of that queue. *)
Theorem LruCacheEx_refines_queue (ops : list lru_op) (Hlen : Z.of_nat (length ops) < 2 ^ 255) :
  exists c, runM lrux_step lrux_new ops = Some c /\
    let l := foldl queue_step [] ops in
    size (lx_items c) = length l /\ (forall k, ix_value <$> lrux_get c k = (list_to_map l : gmap K V) !! k) /\
    lx_oldestItem c = hd_key l None.
Proof.
  destruct (lrux_run_ok ops lrux_new []) as (c & -> & Hok); [split_and!; [apply NoDup_nil_2|done|done|done]|done|].
  exists c. split; [done|]. cbv zeta. split_and!; [by apply lrux_size|by intros k; apply lrux_get_ok|apply Hok].
Qed.
End Lru.

Definition sample_ops : list (@lru_op Z Z) := [LAdd 1 10; LAdd 2 20; LAdd 1 11; LAdd 3 30; LShrink 3].

Lemma LruCache_refines_queue_witness :
  exists c del, runM lru_step (lru_setDeleter lru_new true, []) sample_ops = Some (c, del) /\
    let l := foldl queue_step [] sample_ops in
    size (lc_items c) = length l /\
    (forall k, it_value <$> lru_get c k = (list_to_map l : gmap Z Z) !! k) /\
    ((kv <$> del) ++ l ≡ₚ all_added [] sample_ops).
Proof. apply (LruCache_refines_queue true sample_ops); reflexivity. Defined.

Lemma LruCacheEx_refines_queue_witness :
  let ops := LTouch 1 :: sample_ops ++ [LTouch 2; LRemoveOldest] in
  exists c, runM lrux_step lrux_new ops = Some c /\
    let l := foldl queue_step [] ops in
    size (lx_items c) = length l /\ (forall k, ix_value <$> lrux_get c k = (list_to_map l : gmap Z Z) !! k) /\
    lx_oldestItem c = hd_key l None.
Proof. apply (LruCacheEx_refines_queue (LTouch 1 :: sample_ops ++ [LTouch 2; LRemoveOldest])). reflexivity. Defined.

(** In this run, 2 was used after 3 was added, so that 3 is evicted and 2 stays. *)
Example lrux_sample :
  (lx_oldestItem <$> runM lrux_step lrux_new (sample_ops ++ [LTouch 2; LRemoveOldest])) = Some (Some 2).
Proof. vm_compute. reflexivity. Qed.
