(* ===== verification/IpKey.v ===== *)
(** * Keys made of addresses: [client/IpKey.h]

    An [IpKey] is the sixteen bytes of an IPv6 address seen as four 32-bit words; an IPv4
    address is stored as the address mapped to it.  [IpPortKey] adds a port.  The words are
    those of a little-endian machine: [htonl] swaps bytes. *)

From S2P Require Import Prelude.

(** [IpAddress] of [client/IpAddress.h]: a tagged union. *)
Inductive IpAddress := V4 (ip : Z) | V6 (data : list Z).

Record IpKey := mkIpKey { dw0 : Z; dw1 : Z; dw2 : Z; dw3 : Z }.
Record IpPortKey := mkIpPortKey { pk_u : IpKey; pk_port : Z }.

#[export] Instance IpKey_eq_dec : EqDecision IpKey.
Proof. solve_decision. Defined.
#[export] Instance IpPortKey_eq_dec : EqDecision IpPortKey.
Proof. solve_decision. Defined.
#[export] Program Instance IpKey_countable : Countable IpKey :=
  inj_countable' (fun k => (dw0 k, dw1 k, dw2 k, dw3 k)) (fun '(a, b, c, d) => mkIpKey a b c d) _.
Next Obligation. by intros []. Qed.
#[export] Program Instance IpPortKey_countable : Countable IpPortKey :=
  inj_countable' (fun k => (pk_u k, pk_port k)) (fun '(u, p) => mkIpPortKey u p) _.
Next Obligation. by intros []. Qed.

Definition words (k : IpKey) : list Z := [dw0 k; dw1 k; dw2 k; dw3 k].

(** The loop [for (int i = 0; i < 4; i++) if (u.dw[i] != x.u.dw[i]) return u.dw[i] < x.u.dw[i];]
    followed by [return rest;] *)
Fixpoint words_lt (a b : list Z) (rest : bool) : bool :=
  match a, b with
  | x :: a, y :: b => if negb (x =? y) then x <? y else words_lt a b rest
  | _, _ => rest
  end.

Definition IpKey_lt (k x : IpKey) : bool := words_lt (words k) (words x) false.
Definition IpKey_eq (k x : IpKey) : bool :=
  (dw0 k =? dw0 x) && (dw1 k =? dw1 x) && (dw2 k =? dw2 x) && (dw3 k =? dw3 x).
Definition IpPortKey_lt (k x : IpPortKey) : bool :=
  words_lt (words (pk_u k)) (words (pk_u x)) (pk_port k <? pk_port x).
Definition IpPortKey_eq (k x : IpPortKey) : bool :=
  (dw0 (pk_u k) =? dw0 (pk_u x)) && (dw1 (pk_u k) =? dw1 (pk_u x)) &&
  (dw2 (pk_u k) =? dw2 (pk_u x)) && (dw3 (pk_u k) =? dw3 (pk_u x)) && (pk_port k =? pk_port x).

Definition htonl (w : Z) : Z := le_load (reverse (le_store 4 w)).

Definition setIP4 (ip : Z) : IpKey := mkIpKey 0 0 (htonl 0xFFFF) (htonl ip).
Definition setIP6 (data : list Z) : IpKey :=
  mkIpKey (le_load (take 4 data)) (le_load (take 4 (drop 4 data)))
          (le_load (take 4 (drop 8 data))) (le_load (take 4 (drop 12 data))).

Definition setIP (ip : IpAddress) (port : Z) : IpPortKey :=
  match ip with
  | V4 v4 => mkIpPortKey (setIP4 v4) port
  | V6 v6 => mkIpPortKey (setIP6 v6) port
  end.

Definition bytes_of (k : IpKey) : list Z :=
  le_store 4 (dw0 k) ++ le_store 4 (dw1 k) ++ le_store 4 (dw2 k) ++ le_store 4 (dw3 k).

(** [getIP]; [ntohl] is [htonl]. *)
Definition getIP (k : IpPortKey) : IpAddress :=
  let u := pk_u k in
  if (dw0 u =? 0) && (dw1 u =? 0) && (dw2 u =? htonl 0xFFFF) then V4 (htonl (dw3 u)) else V6 (bytes_of u).

Definition IpKey_getHash (k : IpKey) : Z := Z.lxor (Z.lxor (Z.lxor (dw0 k) (dw1 k)) (dw2 k)) (dw3 k).
Definition IpPortKey_getHash (k : IpPortKey) : Z := Z.lxor (IpKey_getHash (pk_u k)) (pk_port k).

(** ** Keys identify addresses *)

Definition addr_ok (a : IpAddress) : Prop :=
  match a with V4 ip => 0 <= ip < 2 ^ 32 | V6 d => length d = 16%nat /\ bytes_ok d end.

(** [::ffff:a.b.c.d] and [a.b.c.d] are the same host. *)
Definition mapped_prefix : list Z := replicate 10 0 ++ [255; 255].
Definition host (a : IpAddress) : IpAddress :=
  match a with
  | V4 ip => V4 ip
  | V6 d => if decide (take 12 d = mapped_prefix) then V4 (le_load (reverse (drop 12 d))) else V6 d
  end.

Lemma bytes_ok_reverse l : bytes_ok l -> bytes_ok (reverse l).
Proof. intros Hl. unfold bytes_ok. by rewrite Forall_reverse. Qed.

Lemma htonl_bound w : 0 <= htonl w < 2 ^ 32.
Proof.
  unfold htonl. pose proof (le_load_bound (reverse (le_store 4 w))) as Hb.
  rewrite length_reverse, length_le_store in Hb. apply Hb, bytes_ok_reverse, le_store_bytes.
Qed.

Lemma htonl_htonl w : 0 <= w < 2 ^ 32 -> htonl (htonl w) = w.
Proof.
  intros Hw. unfold htonl. pose proof (le_store_load (reverse (le_store 4 w))) as Hs.
  rewrite length_reverse, length_le_store in Hs. rewrite Hs by apply bytes_ok_reverse, le_store_bytes.
  rewrite reverse_involutive. by apply le_load_store.
Qed.

Lemma htonl_load (l : list Z) : bytes_ok l -> length l = 4%nat -> htonl (le_load l) = le_load (reverse l).
Proof. intros Hb Hl. unfold htonl. rewrite <-Hl, le_store_load by done. done. Qed.

Lemma split4 (d : list Z) : length d = 16%nat ->
  take 4 d ++ take 4 (drop 4 d) ++ take 4 (drop 8 d) ++ take 4 (drop 12 d) = d.
Proof. intros Hd. do 17 (destruct d as [|? d]; [done|]). done. Qed.

Lemma le_store_load4 (l : list Z) : bytes_ok l -> length l = 4%nat -> le_store 4 (le_load l) = l.
Proof. intros Hb <-. by apply le_store_load. Qed.

Lemma bytes_of_setIP6 d : length d = 16%nat -> bytes_ok d -> bytes_of (setIP6 d) = d.
Proof.
  intros Hd Hb. unfold bytes_of, setIP6. cbn [dw0 dw1 dw2 dw3].
  rewrite !le_store_load4; [by apply split4|..];
    try (by repeat first [apply Forall_take | apply Forall_drop]); rewrite length_take, ?length_drop; lia.
Qed.

(** The first three words of a key are those of the prefix exactly for mapped addresses. *)
Lemma mapped_words d : length d = 16%nat -> bytes_ok d ->
  (dw0 (setIP6 d) =? 0) && (dw1 (setIP6 d) =? 0) && (dw2 (setIP6 d) =? htonl 0xFFFF) =
  bool_decide (take 12 d = mapped_prefix).
Proof.
  intros Hd Hb. apply Bool.eq_iff_eq_true. rewrite bool_decide_eq_true, !andb_true_iff, !Z.eqb_eq.
  split.
  - intros [[H0 H1] H2]. rewrite <-(bytes_of_setIP6 d Hd Hb). unfold bytes_of. rewrite H0, H1, H2. reflexivity.
  - intros Hp. assert (d = mapped_prefix ++ drop 12 d) as -> by (by rewrite <-Hp, take_drop). done.
Qed.

Lemma getIP_setIP a p : addr_ok a -> getIP (setIP a p) = host a /\ pk_port (setIP a p) = p.
Proof.
  destruct a as [ip|d]; cbn [addr_ok setIP].
  - intros Hip. split; [|done]. unfold getIP, setIP4. cbn [pk_u dw0 dw1 dw2 dw3].
    rewrite !Z.eqb_refl. cbn [andb host]. by rewrite htonl_htonl.
  - intros [Hd Hb]. split; [|done]. unfold getIP. cbn [pk_u]. rewrite mapped_words, bytes_of_setIP6 by done.
    cbn [host]. case_bool_decide as Hp; [rewrite decide_True by done|by rewrite decide_False].
    unfold setIP6. cbn [dw3]. rewrite htonl_load; [|by apply Forall_take, Forall_drop|rewrite length_take, length_drop; lia].
    rewrite take_ge by (rewrite length_drop; lia). done.
Qed.

Lemma IpPortKey_eq_spec k x : IpPortKey_eq k x = true <-> k = x.
Proof.
  destruct k as [[] ?], x as [[] ?]. unfold IpPortKey_eq. cbn. rewrite !andb_true_iff, !Z.eqb_eq.
  split; [by intros [[[[-> ->] ->] ->] ->]|by intros [= -> -> -> -> ->]].
Qed.

(** Equal keys come from equal hosts and ports. *)
Lemma setIP_host a b p q : addr_ok a -> addr_ok b ->
  setIP a p = setIP b q <-> host a = host b /\ p = q.
Proof.
  intros Ha Hb. destruct (getIP_setIP a p Ha) as [Hga Hpa], (getIP_setIP b q Hb) as [Hgb Hpb]. split.
  - intros E. rewrite E in Hga, Hpa. split; congruence.
  - intros [Hh ->]. clear Hga Hgb Hpa Hpb.
    assert (forall d ip, addr_ok (V6 d) -> host (V6 d) = V4 ip -> setIP (V6 d) q = setIP (V4 ip) q) as Hm.
    { intros d ip [Hd Hbd] Hh'. cbn [host] in Hh'. destruct (decide _) as [Hp|]; [|done]. injection Hh' as <-.
      cbn [setIP]. f_equal. unfold setIP4. rewrite <-(htonl_load (drop 12 d)) by (try apply Forall_drop; rewrite ?length_drop; done || lia).
      rewrite htonl_htonl.
      - assert (d = mapped_prefix ++ drop 12 d) as Hd'; [by rewrite <-Hp, take_drop|]. rewrite Hd' at 1.
        unfold setIP6. do 16 (destruct d as [|? d]; [done|]). destruct d; [|done]. done.
      - pose proof (le_load_bound (drop 12 d)) as Hl. rewrite length_drop, Hd in Hl. by apply Hl, Forall_drop. }
    destruct a as [ip|d], b as [ip'|d'].
    + cbn [host] in Hh. by injection Hh as ->.
    + symmetry. apply Hm; [done|]. by rewrite <-Hh.
    + apply Hm; [done|]. by rewrite Hh.
    + cbn [host] in Hh. destruct (decide (take 12 d = _)) as [Hp|], (decide (take 12 d' = _)) as [Hp'|]; try done.
      * rewrite (Hm d (le_load (reverse (drop 12 d))) Ha), (Hm d' (le_load (reverse (drop 12 d'))) Hb); [congruence| |];
          cbn [host]; by rewrite decide_True.
      * by injection Hh as ->.
Qed.

Lemma words_lt_irrefl a : words_lt a a false = false.
Proof. induction a as [|x a IH]; simpl; [done|]. by rewrite Z.eqb_refl. Qed.

(** [operator<] as the order of the five numbers. *)
Definition key_list (k : IpPortKey) : list Z := words (pk_u k) ++ [pk_port k].

Lemma words_lt_app a b x y : length a = length b ->
  words_lt (a ++ [x]) (b ++ [y]) false = words_lt a b (x <? y).
Proof.
  revert b. induction a as [|v a IH]; intros [|w b] Hl; try done; simpl.
  - destruct (x =? y) eqn:E; zb; simpl; [subst; symmetry; apply Z.ltb_irrefl|done].
  - injection Hl as Hl. by rewrite IH.
Qed.

Lemma IpPortKey_lt_list k x : IpPortKey_lt k x = words_lt (key_list k) (key_list x) false.
Proof. unfold key_list. by rewrite words_lt_app. Qed.

Lemma words_lt_trans a b c : length a = length b -> length b = length c ->
  words_lt a b false = true -> words_lt b c false = true -> words_lt a c false = true.
Proof.
  revert b c. induction a as [|x a IH]; intros [|y b] [|z c] H1 H2; simpl; try done.
  injection H1 as H1. injection H2 as H2.
  destruct (x =? y) eqn:E1, (y =? z) eqn:E2, (x =? z) eqn:E3; zb; simpl; intros; zb; subst; try lia; by eauto.
Qed.

Lemma words_lt_total a b : length a = length b -> words_lt a b false = true \/ a = b \/ words_lt b a false = true.
Proof.
  revert b. induction a as [|x a IH]; intros [|y b] Hl; simpl; try done; [by right; left|]. injection Hl as Hl.
  destruct (x =? y) eqn:E; zb; simpl.
  - subst. rewrite Z.eqb_refl. simpl. destruct (IH b Hl) as [?|[->|?]]; [by left|by right; left|by right; right].
  - destruct (y =? x) eqn:E2; zb; [lia|]. simpl. destruct (Z.lt_trichotomy x y) as [?|[?|?]]; [left|lia|right; right]; by apply Z.ltb_lt.
Qed.

Lemma key_list_inj k x : key_list k = key_list x -> k = x.
Proof. destruct k as [[] ?], x as [[] ?]. unfold key_list. cbn. by intros [= -> -> -> -> ->]. Qed.

(** An address and a port are identified by their key: the key gives the host back,
    two keys are equal under [operator==] exactly when host and port are, where an IPv4
    address and the IPv6 address mapped to it are one host, and [operator<] is a strict
    total order that agrees with [operator==]. *)
Theorem IpPortKey_identity (a b : IpAddress) (p q : Z) (Ha : addr_ok a) (Hb : addr_ok b) :
  getIP (setIP a p) = host a /\
  (IpPortKey_eq (setIP a p) (setIP b q) = true <-> host a = host b /\ p = q) /\
  (forall k, IpPortKey_lt k k = false) /\
  (forall k l m, IpPortKey_lt k l = true -> IpPortKey_lt l m = true -> IpPortKey_lt k m = true) /\
  (forall k l, IpPortKey_lt k l = true \/ IpPortKey_eq k l = true \/ IpPortKey_lt l k = true).
Proof.
  split_and!; [by apply getIP_setIP|rewrite IpPortKey_eq_spec; by apply setIP_host|..].
  - intros k. rewrite IpPortKey_lt_list. apply words_lt_irrefl.
  - intros k l m. rewrite !IpPortKey_lt_list. by apply words_lt_trans.
  - intros k l. rewrite !IpPortKey_lt_list, IpPortKey_eq_spec.
    destruct (words_lt_total (key_list k) (key_list l)) as [?|[?|?]]; [done|by left|right; left; by apply key_list_inj|by right; right].
Qed.

Lemma IpPortKey_identity_witness :
  let a := V4 0x7F000001 in
  let b := V6 (mapped_prefix ++ [127; 0; 0; 1]) in
  getIP (setIP a 80) = host a /\ (IpPortKey_eq (setIP a 80) (setIP b 80) = true <-> host a = host b /\ 80 = 80).
Proof.
  destruct (IpPortKey_identity (V4 0x7F000001) (V6 (mapped_prefix ++ [127; 0; 0; 1])) 80 80) as (H1 & H2 & _);
    [cbn; lia|split; [done|repeat constructor; unfold is_byte; lia]|]. exact (conj H1 H2).
Defined.
