(* ===== verification/AntiFlood.v ===== *)
(** * Request counters and bans: [client/RequestCounter.h], [client/AntiFlood.h],
    [client/AntiFlood.cpp]

    A [RequestCounter<N>] counts the requests of an address in the last [N] seconds in a
    ring of [N] bytes, one per second.  [IpBans] holds the addresses that are banned or
    protected; [HubRequestCounters::addRequest] decides about one request.  Clock values
    and settings are arguments.  [int] and [int64_t] values are [Z]: they are bounded by
    the clock and by [255 * N]; the count of requests, a [uint64_t], wraps. *)

From S2P Require Import Prelude CArray IpKey.

Section Counter.
Variable N : Z.

Record RequestCounter := mkRC {
  rq_data : list Z;
  rq_first : Z;
  rq_count : Z;
  rq_startTick : Z;
  rq_endTick : Z;
  rq_reqCount : Z
}.

Definition zeros : list Z := replicate (Z.to_nat N) 0.

Definition rq_reset (r : RequestCounter) : RequestCounter :=
  mkRC zeros 0 0 (rq_startTick r) (rq_endTick r) (rq_reqCount r).

Definition rq_clear : RequestCounter := mkRC zeros 0 0 0 0 0.

(** [while (shift) { count -= data[first]; data[first] = 0; first = (first + 1) % N; --shift; }] *)
Definition shift_step (st : list Z * Z * Z * Z) : option ((list Z * Z * Z * Z) + (list Z * Z * Z)) :=
  let '(data, first, count, shift) := st in
  if shift =? 0 then Some (inr (data, first, count))
  else
    x ← rd data first;
    data ← wr data first 0;
    Some (inl (data, Z.rem (first + 1) N, count - x, shift - 1)).

Definition rq_add (r : RequestCounter) (tickMsec : Z) : option RequestCounter :=
  let tick := Z.quot tickMsec 1000 in
  let r := if tick <? rq_startTick r then mkRC zeros 0 0 tick (rq_endTick r) 0 else r in
  let reqCount := u64 (rq_reqCount r + 1) in
  let offset := tick - rq_startTick r in
  '(data, first, count, startTick, pos) ←
    (if N <=? offset then
       let lshift := offset - (N - 1) in
       if N <=? lshift then Some (zeros, 0, 0, tick, 0)
       else
         '(data, first, count) ← whileM shift_step (rq_data r, rq_first r, rq_count r, lshift);
         Some (data, first, count, rq_startTick r + lshift, Z.rem (offset + rq_first r) N)
     else Some (rq_data r, rq_first r, rq_count r, rq_startTick r, Z.rem (offset + rq_first r) N));
  x ← rd data pos;
  if x <? 255 then
    data ← wr data pos (x + 1);
    Some (mkRC data first (count + 1) startTick tick reqCount)
  else Some (mkRC data first count startTick tick reqCount).

Definition rq_getCount (r : RequestCounter) : Z := rq_count r.
Definition rq_getReqCount (r : RequestCounter) : Z := rq_reqCount r.

(** [(60 * count) / unsigned(endTick - startTick)] *)
Definition getAvgPerMinute (r : RequestCounter) : Z :=
  if rq_endTick r <=? rq_startTick r then 0
  else u32 (60 * rq_count r) / u32 (rq_endTick r - rq_startTick r).

(** ** Correctness of the counter *)

Hypothesis N_pos : 0 < N < 2 ^ 31.

(** The requests of second [t] among [log], at most 255 of them. *)
Definition per_second (log : list Z) (t : Z) : Z :=
  Z.min 255 (Z.of_nat (length (filter (fun x => x = t) log))).

Fixpoint sum_from (f : Z -> Z) (t : Z) (n : nat) : Z :=
  match n with O => 0 | S n => f t + sum_from f (t + 1) n end.

(** The ring holds, from [first] on, the counts of the seconds from [start] on. *)
Definition ring (data : list Z) (first count start : Z) (log : list Z) : Prop :=
  len data = N /\ 0 <= first < N /\
  (forall i, 0 <= i < N -> get data ((first + i) mod N) = per_second log (start + i)) /\
  count = sum_from (per_second log) start (Z.to_nat N).

Lemma sum_from_app f t n m : sum_from f t (n + m) = sum_from f t n + sum_from f (t + Z.of_nat n) m.
Proof.
  revert t. induction n as [|n IH]; intros t; cbn [sum_from Nat.add]; [by rewrite Z.add_0_r|].
  rewrite IH. replace (t + 1 + Z.of_nat n) with (t + Z.of_nat (S n)) by lia. simpl. lia.
Qed.

Lemma sum_from_ext f g t n : (forall x, t <= x < t + Z.of_nat n -> f x = g x) -> sum_from f t n = sum_from g t n.
Proof.
  revert t. induction n as [|n IH]; intros t Hfg; simpl; [done|]. rewrite Hfg by lia. f_equal.
  apply IH. intros x Hx. apply Hfg. lia.
Qed.

Lemma sum_from_0 t n : sum_from (fun _ => 0) t n = 0.
Proof. revert t. induction n as [|n IH]; intros t; simpl; [done|]. by rewrite IH. Qed.

Lemma sum_from_zero f t n : (forall x, t <= x < t + Z.of_nat n -> f x = 0) -> sum_from f t n = 0.
Proof. intros Hf. rewrite (sum_from_ext _ (fun _ => 0)) by done. apply sum_from_0. Qed.

(** One function differs from another by [d] at [t0]. *)
Lemma sum_from_bump f g t0 d t n : t <= t0 < t + Z.of_nat n -> g t0 = f t0 + d ->
  (forall x, x <> t0 -> g x = f x) -> sum_from g t n = sum_from f t n + d.
Proof.
  intros Ht Hd Hne. replace n with (Z.to_nat (t0 - t) + S (n - S (Z.to_nat (t0 - t))))%nat by lia.
  rewrite !sum_from_app. simpl. replace (t + Z.of_nat (Z.to_nat (t0 - t))) with t0 by lia.
  rewrite (sum_from_ext g f t) by (intros; apply Hne; lia).
  rewrite (sum_from_ext g f (t0 + 1)) by (intros; apply Hne; lia). lia.
Qed.

Lemma per_second_none log t : Forall (fun x => x <> t) log -> per_second log t = 0.
Proof.
  intros Hl. unfold per_second. replace (filter (fun x => x = t) log) with (@nil Z); [done|].
  symmetry. induction Hl as [|x log Hx _ IH]; [done|]. rewrite filter_cons, decide_False by done. done.
Qed.

Lemma per_second_snoc log t x :
  per_second (log ++ [t]) x = if x =? t then Z.min 255 (per_second log x + 1) else per_second log x.
Proof.
  unfold per_second. rewrite filter_app, length_app, filter_cons, filter_nil.
  destruct (x =? t) eqn:E; zb.
  - destruct (decide (t = x)); [|congruence]. cbn [length]. lia.
  - destruct (decide (t = x)); [congruence|]. cbn [length]. lia.
Qed.

Lemma per_second_bound log t : 0 <= per_second log t <= 255.
Proof. unfold per_second. lia. Qed.

Lemma ring_zeros start log : (forall i, 0 <= i < N -> per_second log (start + i) = 0) -> ring zeros 0 0 start log.
Proof.
  intros Hl. split_and!; [unfold len, zeros; rewrite length_replicate; lia|lia|lia| |].
  - intros i Hi. rewrite Hl by done. unfold get, zeros. apply lookup_total_replicate_2.
    pose proof (Z.mod_pos_bound (0 + i) N). lia.
  - symmetry. apply sum_from_zero. intros x Hx. replace x with (start + (x - start)) by lia. apply Hl. lia.
Qed.

(** Dropping the oldest second. *)
Lemma ring_shift data first count start log :
  ring data first count start log -> per_second log (start + N) = 0 ->
  ring (set data first 0) ((first + 1) mod N) (count - get data first) (start + 1) log.
Proof using N_pos.
  intros (Hl & Hf & Hg & Hc) Hz. split_and!.
  - by rewrite len_set.
  - apply Z.mod_pos_bound. lia.
  - apply Z.mod_pos_bound. lia.
  - intros i Hi. rewrite Zplus_mod_idemp_l. destruct (decide (i = N - 1)) as [->|Hne].
    + replace (first + 1 + (N - 1)) with (first + 1 * N) by lia. rewrite Z.mod_add, Z.mod_small by lia.
      rewrite get_set_eq by lia. by replace (start + 1 + (N - 1)) with (start + N) by lia.
    + rewrite get_set_ne.
      * replace (first + 1 + i) with (first + (i + 1)) by lia. rewrite Hg by lia. f_equal. lia.
      * lia.
      * apply Z.mod_pos_bound. lia.
      * intros E. destruct (decide (first + 1 + i < N)).
        -- rewrite Z.mod_small in E; lia.
        -- replace (first + 1 + i) with (first + 1 + i - N + 1 * N) in E by lia.
           rewrite Z.mod_add, Z.mod_small in E; lia.
  - specialize (Hg 0 ltac:(lia)). rewrite !Z.add_0_r, Z.mod_small in Hg by lia.
    rewrite Hg, Hc. destruct (Z.to_nat N) as [|n] eqn:En; [lia|].
    replace (S n) with (n + 1)%nat at 2 by lia. rewrite sum_from_app. simpl.
    replace (start + 1 + Z.of_nat n) with (start + N) by lia. lia.
Qed.

(** Counting a request of a second of the ring. *)
Lemma ring_count data first count start log o pos :
  ring data first count start log -> 0 <= o < N -> pos = (first + o) mod N ->
  let x := get data pos in
  0 <= pos < len data /\
  ring (if x <? 255 then set data pos (x + 1) else data) first (if x <? 255 then count + 1 else count) start
    (log ++ [start + o]).
Proof using N_pos.
  intros (Hl & Hf & Hg & Hc) Ho Hpos x. pose proof (Z.mod_pos_bound (first + o) N ltac:(lia)) as Hb.
  assert (x = per_second log (start + o)) as Hx by (unfold x; rewrite Hpos; by apply Hg).
  split; [lia|]. pose proof (per_second_bound log (start + o)) as Hpb.
  assert (forall i, 0 <= i < N -> (first + i) mod N = pos -> i = o) as Hinj.
  { intros i Hi E. rewrite Hpos in E. destruct (decide (first + i < N)), (decide (first + o < N));
      [rewrite !Z.mod_small in E; lia| | |].
    - rewrite Z.mod_small in E by lia. replace (first + o) with (first + o - N + 1 * N) in E by lia.
      rewrite Z.mod_add, Z.mod_small in E; lia.
    - rewrite (Z.mod_small (first + o)) in E by lia. replace (first + i) with (first + i - N + 1 * N) in E by lia.
      rewrite Z.mod_add, Z.mod_small in E; lia.
    - replace (first + o) with (first + o - N + 1 * N) in E by lia.
      replace (first + i) with (first + i - N + 1 * N) in E by lia. rewrite !Z.mod_add, !Z.mod_small in E; lia. }
  split_and!.
  - case_if; rewrite ?len_set; done.
  - lia.
  - lia.
  - intros i Hi. rewrite per_second_snoc. pose proof (Z.mod_pos_bound (first + i) N ltac:(lia)).
    destruct (start + i =? start + o) eqn:Eo; zb.
    + assert (i = o) as -> by lia. rewrite <-Hpos. case_if; [rewrite get_set_eq by lia; lia|]. fold x. lia.
    + assert ((first + i) mod N <> pos) as Hne by (intros E; specialize (Hinj i Hi E); lia).
      case_if; [|by apply Hg]. rewrite get_set_ne by lia. by apply Hg.
  - rewrite (sum_from_bump (per_second log) _ (start + o) (if x <? 255 then 1 else 0)).
    + case_if; lia.
    + lia.
    + rewrite per_second_snoc, Z.eqb_refl. case_if; lia.
    + intros y Hy. rewrite per_second_snoc. case_if; [lia|done].
Qed.

Lemma shift_loop data first count start log e shift :
  ring data first count start log -> Forall (fun t => t <= e) log -> e < start + N -> 0 <= shift < N ->
  exists data' first' count', whileM shift_step (data, first, count, shift) = Some (data', first', count') /\
    ring data' first' count' (start + shift) log /\ first' = (first + shift) mod N.
Proof using N_pos.
  intros Hr Hlog He Hs.
  destruct (whileM_total shift_step
    (fun '(d, f, c, s) => 0 <= s <= shift /\ ring d f c (start + shift - s) log /\ f = (first + shift - s) mod N)
    (fun '(_, _, _, s) => s)
    (fun '(d, f, c) => ring d f c (start + shift) log /\ f = (first + shift) mod N)
    (data, first, count, shift)) as ([[d f] c] & Hw & HQ).
  - intros [[[d f] c] s] (Hb & Hd & Hf). unfold shift_step. case_if.
    + subst s. eexists. split; [done|]. rewrite !Z.sub_0_r in *. done.
    + pose proof Hd as (Hl & Hf' & _). rewrite rd_ok, option_bind_Some_eq, wr_ok, option_bind_Some_eq by lia.
      eexists. split; [done|]. cbn beta iota. split; [|lia]. split; [lia|].
      rewrite Z.rem_mod_nonneg by lia.
      replace (start + shift - (s - 1)) with (start + shift - s + 1) by lia. split.
      * apply ring_shift; [done|]. apply per_second_none. eapply Forall_impl; [exact Hlog|]. intros; simpl in *; lia.
      * rewrite Hf, Zplus_mod_idemp_l. f_equal. lia.
  - split; [lia|]. replace (start + shift - shift) with start by lia.
    replace (first + shift - shift) with first by lia. split; [done|].
    destruct Hr as (_ & Hf & _). by rewrite Z.mod_small.
  - lia.
  - destruct HQ as [? ?]. eauto 10.
Qed.

Definition rq_inv (r : RequestCounter) (log : list Z) : Prop :=
  ring (rq_data r) (rq_first r) (rq_count r) (rq_startTick r) log /\
  Forall (fun t => t <= rq_endTick r /\ (t < rq_startTick r -> t <= rq_endTick r - N)) log /\
  rq_startTick r <= rq_endTick r < rq_startTick r + N.

Lemma rq_clear_inv : rq_inv rq_clear [].
Proof using N_pos. split_and!; [by apply ring_zeros|apply Forall_nil_2|simpl; lia|simpl; lia]. Qed.

(** The last step of [add]: counting the request of the second [tick] at [pos]. *)
Lemma rq_count_at data first count start log tick pos n :
  ring data first count start log -> 0 <= tick - start < N -> pos = (first + (tick - start)) mod N ->
  exists data' count',
    (x ← rd data pos;
     if x <? 255 then d ← wr data pos (x + 1); Some (mkRC d first (count + 1) start tick n)
     else Some (mkRC data first count start tick n)) = Some (mkRC data' first count' start tick n) /\
    ring data' first count' start (log ++ [tick]).
Proof using N_pos.
  intros Hr Ho Hp. destruct (ring_count _ _ _ _ _ _ _ Hr Ho Hp) as [Hb Hc].
  rewrite rd_ok, option_bind_Some_eq by done. replace (start + (tick - start)) with tick in Hc by lia.
  destruct (get data pos <? 255); [rewrite wr_ok, option_bind_Some_eq by done|]; by eexists _, _.
Qed.

Lemma rq_add_ok r log ms :
  rq_inv r log -> rq_endTick r <= Z.quot ms 1000 ->
  exists r', rq_add r ms = Some r' /\ rq_inv r' (log ++ [Z.quot ms 1000]) /\
    rq_endTick r' = Z.quot ms 1000 /\ rq_reqCount r' = u64 (rq_reqCount r + 1).
Proof using N_pos.
  intros (Hr & Hlog & Hse) Hms. unfold rq_add. set (tick := Z.quot ms 1000) in *.
  assert (Forall (fun t => t <= rq_endTick r) log) as Hle by (eapply Forall_impl; [exact Hlog|]; by intros ? []).
  destruct (tick <? rq_startTick r) eqn:E0; zb; [lia|]. pose proof Hr as (_ & Hf & _).
  assert (forall st st', st' = st -> rq_startTick r <= st -> st <= tick < st + N ->
    (rq_startTick r < st -> st <= tick - N + 1 \/ rq_endTick r <= tick - N) ->
    Forall (fun t => t <= tick /\ (t < st' -> t <= tick - N)) (log ++ [tick])) as Hlog'.
  { intros st st' -> H1 H2 H3. apply Forall_app. split; [|repeat constructor; lia].
    rewrite Forall_forall in *. intros t Ht. destruct (Hlog t Ht) as [Ht1 Ht2]. split; [lia|]. lia. }
  destruct (N <=? tick - rq_startTick r) eqn:E1; zb; [destruct (N <=? tick - rq_startTick r - (N - 1)) eqn:E2; zb|].
  - (* everything is older than the window *)
    rewrite option_bind_Some_eq.
    destruct (rq_count_at zeros 0 0 tick log tick 0 (u64 (rq_reqCount r + 1))) as (d & c & -> & Hd).
    + apply ring_zeros. intros i Hi. apply per_second_none. eapply Forall_impl; [exact Hle|]. simpl. lia.
    + lia.
    + rewrite Z.sub_diag, Z.mod_small; lia.
    + eexists. split; [done|]. split; [|done]. split; [done|]. simpl. split; [|lia].
      apply (Hlog' tick tick); lia.
  - (* the window moves by [lshift] *)
    set (sh := tick - rq_startTick r - (N - 1)) in *.
    destruct (shift_loop _ _ _ _ _ _ sh Hr Hle) as (d & f & c & -> & Hd & Hf'); [lia|lia|].
    rewrite !option_bind_Some_eq. rewrite Z.rem_mod_nonneg by lia.
    destruct (rq_count_at d f c (rq_startTick r + sh) log tick
      ((tick - rq_startTick r + rq_first r) mod N) (u64 (rq_reqCount r + 1)) Hd) as (d' & c' & -> & Hd').
    + lia.
    + rewrite Hf', Zplus_mod_idemp_l. f_equal. lia.
    + eexists. split; [done|]. split; [|done]. split; [done|]. simpl. split; [|lia].
      apply (Hlog' (rq_startTick r + sh)); lia.
  - rewrite option_bind_Some_eq, Z.rem_mod_nonneg by lia.
    destruct (rq_count_at _ _ _ _ _ tick ((tick - rq_startTick r + rq_first r) mod N) (u64 (rq_reqCount r + 1)) Hr)
      as (d' & c' & -> & Hd').
    + lia.
    + f_equal. lia.
    + eexists. split; [done|]. split; [|done]. split; [done|]. simpl. split; [|lia].
      apply (Hlog' (rq_startTick r)); lia.
Qed.

Fixpoint rq_adds (r : RequestCounter) (ms : list Z) : option RequestCounter :=
  match ms with [] => Some r | m :: ms => r' ← rq_add r m; rq_adds r' ms end.

Definition seconds (ms : list Z) : list Z := (fun m => Z.quot m 1000) <$> ms.

Lemma last_cons_default (l : list Z) x d : List.last l x = List.last (x :: l) d.
Proof. revert x d. induction l as [|y l IH]; intros x d; [done|]. change (List.last (y :: l) x = List.last (y :: l) d). by rewrite <-!IH. Qed.

Lemma rq_adds_ok ms : forall r log, rq_inv r log -> 0 <= rq_reqCount r < 2 ^ 64 ->
  StronglySorted Z.le (rq_endTick r :: seconds ms) ->
  exists r', rq_adds r ms = Some r' /\ rq_inv r' (log ++ seconds ms) /\
    rq_endTick r' = List.last (seconds ms) (rq_endTick r) /\
    rq_reqCount r' = u64 (rq_reqCount r + Z.of_nat (length ms)).
Proof using N_pos.
  induction ms as [|m ms IH]; intros r log Hr Hn Hs.
  - exists r. rewrite app_nil_r. do 2 (split; [done|]). split; [done|]. unfold wrap. rewrite Z.mod_small; simpl; lia.
  - cbn [rq_adds seconds fmap list_fmap] in *. apply StronglySorted_cons in Hs as [Hall Hs].
    apply Forall_cons in Hall as [Hm _].
    destruct (rq_add_ok r log m Hr Hm) as (r1 & -> & Hr1 & He1 & Hn1). rewrite option_bind_Some_eq.
    destruct (IH r1 _ Hr1) as (r2 & -> & Hr2 & He2 & Hn2).
    + rewrite Hn1. apply Z.mod_pos_bound. lia.
    + by rewrite He1.
    + exists r2. split; [done|]. rewrite <-app_assoc in Hr2. split; [done|]. split.
      * rewrite He2, He1. apply last_cons_default.
      * rewrite Hn2, Hn1. unfold wrap. rewrite Zplus_mod_idemp_l. f_equal. cbn [length]. lia.
Qed.

Lemma rq_window r log : rq_inv r log ->
  rq_count r = sum_from (per_second log) (rq_endTick r - N + 1) (Z.to_nat N).
Proof using N_pos.
  intros ((_ & _ & _ & Hc) & Hlog & Hse). rewrite Hc. rewrite Forall_forall in Hlog.
  set (a := Z.to_nat (rq_endTick r - rq_startTick r + 1)).
  replace (Z.to_nat N) with (a + (Z.to_nat N - a))%nat at 1 by lia.
  replace (Z.to_nat N) with ((Z.to_nat N - a) + a)%nat at 2 by lia. rewrite !sum_from_app.
  rewrite (sum_from_zero _ (rq_startTick r + _)), (sum_from_zero _ (rq_endTick r - N + 1)).
  - rewrite Z.add_0_r, Z.add_0_l. f_equal. lia.
  - intros x Hx. apply per_second_none, Forall_forall. intros t Ht ->. destruct (Hlog _ Ht). lia.
  - intros x Hx. apply per_second_none, Forall_forall. intros t Ht ->. destruct (Hlog _ Ht). lia.
Qed.

(** The sliding window: for requests at non-decreasing times, [add] stays inside its
    array and returns, and the count is the number of requests of the last [N] seconds,
    at most 255 of them per second; [getReqCount] is the number of all requests. *)
Theorem RequestCounter_window (ms : list Z) (Hs : StronglySorted Z.le (0 :: seconds ms)) :
  exists r, rq_adds rq_clear ms = Some r /\
    rq_getCount r = sum_from (per_second (seconds ms)) (List.last (seconds ms) 0 - N + 1) (Z.to_nat N) /\
    rq_getReqCount r = u64 (Z.of_nat (length ms)).
Proof using N_pos.
  destruct (rq_adds_ok ms rq_clear [] rq_clear_inv) as (r & -> & Hr & He & Hn); [done|done|].
  exists r. split; [done|]. split; [|done]. unfold rq_getCount. by rewrite (rq_window _ _ Hr), He.
Qed.
End Counter.

(** ** Bans *)

Record BanInfo := mkBan { bi_unbanTime : Z; bi_reqCount : Z; bi_hubUrls : list (list Z); bi_dontBan : bool }.
Inductive BanStatus := NO_BAN | BAN_ACTIVE | BAN_EXPIRED | DONT_BAN.
Definition ban_eqb (a b : BanStatus) : bool :=
  match a, b with
  | NO_BAN, NO_BAN | BAN_ACTIVE, BAN_ACTIVE | BAN_EXPIRED, BAN_EXPIRED | DONT_BAN, DONT_BAN => true
  | _, _ => false
  end.
Definition IpBans := gmap IpPortKey BanInfo.

Definition checkBan (data : IpBans) (key : IpPortKey) (timestamp : Z) : BanStatus :=
  match data !! key with
  | None => NO_BAN
  | Some info => if bi_dontBan info then DONT_BAN
                 else if bi_unbanTime info <? timestamp then BAN_EXPIRED else BAN_ACTIVE
  end.

(** [banTime] is the setting [ANTIFLOOD_BAN_TIME]. *)
Definition addBan (banTime : Z) (data : IpBans) (key : IpPortKey) (timestamp : Z) (url : list Z) (reqCount : Z) : IpBans :=
  let banDuration := u32 (u32 banTime * 1000) in
  let info := default (mkBan 0 0 [] false) (data !! key) in
  let urls := if decide (url ∈ bi_hubUrls info) then bi_hubUrls info else bi_hubUrls info ++ [url] in
  <[key := mkBan (timestamp + banDuration) reqCount urls false]> data.

Definition removeBan (data : IpBans) (key : IpPortKey) : IpBans :=
  match data !! key with
  | None => data
  | Some info => if bi_dontBan info then data else delete key data
  end.

Definition protect (data : IpBans) (key : IpPortKey) (enable : bool) : IpBans :=
  if enable then <[key := mkBan 0 0 [] true]> data
  else match data !! key with
       | None => data
       | Some info => if bi_dontBan info then delete key data else data
       end.

Definition removeExpired (data : IpBans) (timestamp : Z) : IpBans :=
  filter (fun '(_, info) => bi_dontBan info = true \/ timestamp <= bi_unbanTime info) data.

Definition SECONDS := 120.
Record IpItem := mkIpItem { ii_rq : RequestCounter; ii_banned : bool }.
Definition HubRequestCounters := gmap IpPortKey IpItem.

(** [addRequest]: whether the request is allowed, [showMsg], the bans and the counters.
    [minReqCount], [maxReqPerMinute] and [banTime] are the settings. *)
Definition addRequest (minReqCount maxReqPerMinute banTime : Z) (bans : IpBans) (data : HubRequestCounters)
    (ip : IpAddress) (port timestamp : Z) (url : list Z) : option (bool * bool * IpBans * HubRequestCounters) :=
  let key := setIP ip port in
  let res := checkBan bans key timestamp in
  let item := default (mkIpItem (rq_clear SECONDS) false) (data !! key) in
  rq ← rq_add SECONDS (ii_rq item) timestamp;
  let reqCount := swrap 64 (rq_getReqCount rq) in
  let flood := (minReqCount <=? reqCount) && (u32 maxReqPerMinute <? getAvgPerMinute rq) in
  let '(banned, bans, res, showMsg) :=
    if flood && negb (ii_banned item) && negb (ban_eqb res DONT_BAN)
    then (true, addBan banTime bans key timestamp url reqCount, BAN_ACTIVE, true)
    else (ii_banned item, bans, res, false) in
  let '(banned, bans, res, showMsg) :=
    if ban_eqb res BAN_EXPIRED then
      if flood then (true, addBan banTime bans key timestamp url reqCount, BAN_ACTIVE, showMsg || negb banned)
      else (banned, removeBan bans key, res, showMsg)
    else (banned, bans, res, showMsg) in
  Some (negb (ban_eqb res BAN_ACTIVE), showMsg, bans, <[key := mkIpItem rq banned]> data).

(** The counter of [key] has seen the requests of the seconds [log]; [timestamp] is not earlier. *)
Definition counted (data : HubRequestCounters) (key : IpPortKey) (log : list Z) (timestamp : Z) : Prop :=
  let item := default (mkIpItem (rq_clear SECONDS) false) (data !! key) in
  rq_inv SECONDS (ii_rq item) log /\ rq_endTick (ii_rq item) <= Z.quot timestamp 1000.

Lemma checkBan_addBan banTime bans key ts url n :
  checkBan (addBan banTime bans key ts url n) key ts = BAN_ACTIVE.
Proof.
  unfold checkBan, addBan, IpBans. rewrite lookup_insert_eq. cbn [bi_dontBan bi_unbanTime].
  pose proof (Z.mod_pos_bound (u32 banTime * 1000) (2 ^ 32) ltac:(lia)). unfold wrap at 1.
  destruct (_ <? ts) eqn:E; zb; [lia|done].
Qed.

Lemma addBan_other banTime bans key ts url n k : k ≠ key -> addBan banTime bans key ts url n !! k = bans !! k.
Proof. intros Hk. unfold addBan, IpBans. by rewrite lookup_insert_ne. Qed.

Lemma removeBan_other bans key k : k ≠ key -> removeBan bans key !! k = bans !! k.
Proof. intros Hk. unfold removeBan, IpBans in *. repeat case_match; try done. by rewrite lookup_delete_ne. Qed.

Lemma removeBan_expired bans key ts :
  checkBan bans key ts = BAN_EXPIRED -> checkBan (removeBan bans key) key ts = NO_BAN.
Proof.
  unfold checkBan, removeBan, IpBans in *. destruct (bans !! key) as [info|]; [|done]. destruct (bi_dontBan info); [done|].
  intros _. by rewrite lookup_delete_eq.
Qed.

(** C34.  The decision about a request: [addRequest] returns; it refuses the request exactly
    when the list of bans, after the call, has an active ban of the address; a protected
    address is never refused nor banned, a banned one is refused, an address with no
    ban is not refused before its [minReqCount]-th request; nothing changes for other
    addresses, and the counter has counted the request. *)
Theorem addRequest_decision (minReqCount maxReqPerMinute banTime : Z) (bans : IpBans) (data : HubRequestCounters)
  (ip : IpAddress) (port timestamp : Z) (url log : list Z)
  (Hcnt : counted data (setIP ip port) log timestamp) :
  exists ok msg bans' data',
    addRequest minReqCount maxReqPerMinute banTime bans data ip port timestamp url = Some (ok, msg, bans', data') /\
    (ok = false <-> checkBan bans' (setIP ip port) timestamp = BAN_ACTIVE) /\
    (checkBan bans (setIP ip port) timestamp = DONT_BAN -> ok = true /\ bans' = bans) /\
    (checkBan bans (setIP ip port) timestamp = BAN_ACTIVE -> ok = false) /\
    (checkBan bans (setIP ip port) timestamp = NO_BAN ->
     swrap 64 (rq_getReqCount (ii_rq (default (mkIpItem (rq_clear SECONDS) false) (data' !! setIP ip port)))) < minReqCount ->
     ok = true) /\
    (forall k, k ≠ setIP ip port -> bans' !! k = bans !! k /\ data' !! k = data !! k) /\
    counted data' (setIP ip port) (log ++ [Z.quot timestamp 1000]) timestamp.
Proof.
  destruct Hcnt as [Hinv Hts]. unfold addRequest, HubRequestCounters in *. set (key := setIP ip port) in *. cbv zeta.
  set (item := default _ (data !! key)) in *.
  destruct (rq_add_ok SECONDS ltac:(unfold SECONDS; lia) _ _ _ Hinv Hts) as (rq & -> & Hrq & Hend & _).
  rewrite option_bind_Some_eq. set (flood := (minReqCount <=? _) && _).
  assert (forall b, counted (<[key := mkIpItem rq b]> data) key (log ++ [Z.quot timestamp 1000]) timestamp) as Hc.
  { intros b. unfold counted, HubRequestCounters. rewrite lookup_insert_eq. cbn. rewrite Hend. done. }
  assert (forall b k, k ≠ key -> (<[key := mkIpItem rq b]> data) !! k = data !! k) as Ho
    by (intros; by rewrite lookup_insert_ne).
  assert (swrap 64 (rq_getReqCount rq) < minReqCount -> flood = false) as Hmin.
  { intros Hlt. unfold flood. apply andb_false_iff. left. apply Z.leb_gt. lia. }
  destruct (checkBan bans key timestamp) eqn:Eb; destruct flood; destruct (ii_banned item); cbn;
    do 4 eexists; (split; [reflexivity|]); rewrite ?checkBan_addBan, ?Eb, ?(removeBan_expired _ _ _ Eb), ?lookup_insert_eq;
    cbn [default ii_rq]; (split; [split; congruence|]); (split; [by intros|]); (split; [by intros|]);
    (split; [by (intros; done) || (intros _ Hlt; by specialize (Hmin Hlt))|]);
    (split; [|apply Hc]); intros k Hk; rewrite ?addBan_other, ?removeBan_other, Ho by done; done.
Qed.

(** A series of requests from one address. *)
Fixpoint serve (minReqCount maxReqPerMinute banTime : Z) (bans : IpBans) (data : HubRequestCounters)
    (ip : IpAddress) (port : Z) (reqs : list (Z * list Z)) : option (list bool * IpBans * HubRequestCounters) :=
  match reqs with
  | [] => Some ([], bans, data)
  | (timestamp, url) :: reqs =>
      '(ok, _, bans, data) ← addRequest minReqCount maxReqPerMinute banTime bans data ip port timestamp url;
      '(oks, bans, data) ← serve minReqCount maxReqPerMinute banTime bans data ip port reqs;
      Some (ok :: oks, bans, data)
  end.

(** An address is banned at most once: after its ban is gone, the flag [banned] of its
    counter stays set, and every further request is allowed and starts no new ban, however
    many requests there are and whatever the limits. *)
Theorem addRequest_no_second_ban (minReqCount maxReqPerMinute banTime : Z) (bans : IpBans) (ip : IpAddress) (port : Z)
  (reqs : list (Z * list Z)) (data : HubRequestCounters) (rq : RequestCounter) (log : list Z)
  (Hitem : data !! setIP ip port = Some (mkIpItem rq true)) (Hrq : rq_inv SECONDS rq log)
  (Hgone : bans !! setIP ip port = None)
  (Hclock : StronglySorted Z.le (rq_endTick rq :: seconds (reqs.*1))) :
  exists data', serve minReqCount maxReqPerMinute banTime bans data ip port reqs =
    Some (replicate (length reqs) true, bans, data').
Proof.
  revert data rq log Hitem Hrq Hclock. induction reqs as [|[ts url] reqs IH]; intros data rq log Hitem Hrq Hs;
    [by eexists|]. cbn [serve length replicate]. cbn in Hs. apply StronglySorted_cons in Hs as [Hall Hs].
  apply Forall_cons in Hall as [Hle _]. unfold addRequest. rewrite Hitem. cbn [from_option id ii_rq ii_banned].
  destruct (rq_add_ok SECONDS ltac:(unfold SECONDS; lia) _ _ ts Hrq Hle) as (rq' & -> & Hrq' & Hend & _).
  rewrite option_bind_Some_eq. cbv zeta.
  assert (checkBan bans (setIP ip port) ts = NO_BAN) as -> by (unfold checkBan; by rewrite Hgone).
  cbn [negb]. rewrite andb_false_r. cbn [andb ban_eqb negb]. rewrite option_bind_Some_eq.
  destruct (IH (<[setIP ip port := mkIpItem rq' true]> data) rq' (log ++ [Z.quot ts 1000])) as (data' & ->).
  - unfold HubRequestCounters. by rewrite lookup_insert_eq.
  - done.
  - by rewrite Hend.
  - rewrite option_bind_Some_eq. eauto.
Qed.

Lemma RequestCounter_window_witness :
  exists r, rq_adds 120 (rq_clear 120) [1000; 1500; 200000] = Some r /\
    rq_getCount r = sum_from (per_second (seconds [1000; 1500; 200000]))
                      (List.last (seconds [1000; 1500; 200000]) 0 - 120 + 1) (Z.to_nat 120) /\
    rq_getReqCount r = u64 (Z.of_nat (length [1000; 1500; 200000])).
Proof.
  apply (RequestCounter_window 120); [lia|].
  repeat (apply SSorted_cons || apply SSorted_nil || apply Forall_cons_2 || apply Forall_nil_2); vm_compute; done.
Defined.

(** A first request at time 5 s, with no bans. *)
Lemma counted_first : counted ∅ (setIP (V4 1) 0) [] 5000.
Proof. split; [apply rq_clear_inv; unfold SECONDS; lia|vm_compute; done]. Qed.

Lemma addRequest_decision_witness :
  exists ok msg bans' data', addRequest 1 100 60 ∅ ∅ (V4 1) 0 5000 [] = Some (ok, msg, bans', data') /\
    (ok = false <-> checkBan bans' (setIP (V4 1) 0) 5000 = BAN_ACTIVE).
Proof.
  destruct (addRequest_decision 1 100 60 ∅ ∅ (V4 1) 0 5000 [] [] counted_first)
    as (ok & msg & bans' & data' & H1 & H2 & _). exact (ex_intro _ ok (ex_intro _ msg (ex_intro _ bans' (ex_intro _ data' (conj H1 H2))))).
Defined.

Lemma addRequest_no_second_ban_witness :
  exists data', serve 1 0 60 ∅ {[ setIP (V4 1) 0 := mkIpItem (rq_clear SECONDS) true ]} (V4 1) 0
      [(5000, []); (6000, []); (6000, []); (6001, [])] =
    Some (replicate (length [(5000, @nil Z); (6000, []); (6000, []); (6001, [])]) true, ∅, data').
Proof.
  apply (addRequest_no_second_ban 1 0 60 ∅ (V4 1) 0 [(5000, []); (6000, []); (6000, []); (6001, [])]
    {[ setIP (V4 1) 0 := mkIpItem (rq_clear SECONDS) true ]} (rq_clear SECONDS) []).
  - apply lookup_singleton_eq.
  - apply rq_clear_inv. unfold SECONDS. lia.
  - done.
  - repeat (apply SSorted_cons || apply SSorted_nil || apply Forall_cons_2 || apply Forall_nil_2); vm_compute; done.
Defined.
