(* ===== verification/Text.v ===== *)
(** * Text: [client/Text.h], [client/Text.cpp]

    Strings of the program are UTF-8; they are changed to wide strings and back for the
    system's functions.  A [char] is the byte [0 .. 255] of its bits.  A [wchar_t] has two
    bytes (UTF-16) or four ([SIZEOF_WCHAR]); the two compile-time variants of the conversions
    are both here.  A conversion makes two passes over its input: the first computes the size
    of the result, the second writes into a string of that size, and writing past its end
    would be undefined ([None]).  Changing a wide string to lower case is the system's
    ([_wcslwr_s], [towlower]) and an argument, as are the code pages of [iconv]. *)

From S2P Require Import Prelude.

Inductive WChar := W2 | W4.

Definition ERROR_CHAR : Z := 0xFFFD.

(** ** From wide strings *)

(** The bytes that [wcToUtf8] stores; their number is its result. *)
Definition wcToUtf8 (value : Z) : list Z :=
  if value <? 0x80 then [value]
  else if value <? 0x800 then
    [u8 (Z.lor 0xC0 (Z.shiftr value 6)); Z.lor 0x80 (Z.land value 0x3F)]
  else if value <? 0x10000 then
    [u8 (Z.lor 0xE0 (Z.shiftr value 12)); Z.lor 0x80 (Z.land (Z.shiftr value 6) 0x3F); Z.lor 0x80 (Z.land value 0x3F)]
  else
    [u8 (Z.lor 0xF0 (Z.shiftr value 18)); Z.lor 0x80 (Z.land (Z.shiftr value 12) 0x3F);
     Z.lor 0x80 (Z.land (Z.shiftr value 6) 0x3F); Z.lor 0x80 (Z.land value 0x3F)].

(** One unit of a wide string: the values written for it, and [highSurrogate]. *)
Definition wide_step (W : WChar) (highSurrogate value : Z) : list Z * Z :=
  match W with
  | W4 => ([if value <? 0x110000 then value else ERROR_CHAR], 0)
  | W2 =>
      if (0xD800 <=? value) && (value <? 0xDC00) then
        (if negb (highSurrogate =? 0) then [ERROR_CHAR] else [], value)
      else if (0xDC00 <=? value) && (value <? 0xE000) then
        if highSurrogate =? 0 then ([ERROR_CHAR], 0)
        else ([Z.lor (value - 0xDC00) (Z.shiftl (highSurrogate - 0xD800) 10) + 0x10000], 0)
      else if negb (highSurrogate =? 0) then ([ERROR_CHAR; value], 0)
      else ([value], 0)
  end.

(** What is written after the last unit. *)
Definition wide_end (highSurrogate : Z) : list Z := if negb (highSurrogate =? 0) then [ERROR_CHAR] else [].

(** The first pass. *)
Fixpoint utf8_size (W : WChar) (highSurrogate : Z) (str : list Z) : nat :=
  match str with
  | [] => list_sum (map (fun v => length (wcToUtf8 v)) (wide_end highSurrogate))
  | x :: str =>
      let '(vs, h) := wide_step W highSurrogate x in
      (list_sum (map (fun v => length (wcToUtf8 v)) vs) + utf8_size W h str)%nat
  end.

(** A string under construction and the position [out] in it. *)
Definition write_units (tgt : list Z) (out : nat) (units : list Z) : option (list Z * nat) :=
  if (out + length units <=? length tgt)%nat
  then Some (buf_write tgt out units, out + length units)%nat else None.

Fixpoint write_values (tgt : list Z) (out : nat) (vs : list Z) : option (list Z * nat) :=
  match vs with
  | [] => Some (tgt, out)
  | v :: vs => '(tgt, out) ← write_units tgt out (wcToUtf8 v); write_values tgt out vs
  end.

(** The second pass. *)
Fixpoint utf8_write (W : WChar) (highSurrogate : Z) (str tgt : list Z) (out : nat) : option (list Z * nat) :=
  match str with
  | [] => write_values tgt out (wide_end highSurrogate)
  | x :: str =>
      let '(vs, h) := wide_step W highSurrogate x in
      '(tgt, out) ← write_values tgt out vs; utf8_write W h str tgt out
  end.

Definition wideToUtf8 (W : WChar) (str : list Z) : option (list Z) :=
  let outSize := utf8_size W 0 str in
  if (outSize =? 0)%nat then Some []
  else fst <$> utf8_write W 0 str (replicate outSize 0) 0.

(** ** From UTF-8 *)

(** [s[k]] is inside the string and a continuation byte. *)
Definition is_cont (s : list Z) (k : nat) : bool :=
  match s !! k with Some c => Z.land c 0xC0 =? 0x80 | None => false end.

(** [utf8ToWc(s, pos, len, wc)] of the [len] bytes [s]: the number of bytes used and [wc], or
    the number of bytes to skip. *)
Definition utf8ToWc (s : list Z) (pos : nat) : option (nat + nat * Z) :=
  c0 ← s !! pos;
  let c k := s !!! (pos + k)%nat in
  Some (
    if Z.land c0 0x80 =? 0 then inr (1%nat, c0)
    else if Z.land c0 0xC0 =? 0x80 then inl 1%nat
    else if Z.land c0 0xE0 =? 0xC0 then
      if negb (is_cont s (pos + 1)) then inl 1%nat
      else
        let wc := Z.lor (Z.shiftl (Z.land c0 0x1F) 6) (Z.land (c 1%nat) 0x3F) in
        if wc <? 0x80 then inl 1%nat else inr (2%nat, wc)
    else if Z.land c0 0xF0 =? 0xE0 then
      if negb (is_cont s (pos + 1)) then inl 1%nat
      else if negb (is_cont s (pos + 2)) then inl 2%nat
      else
        let wc := Z.lor (Z.lor (Z.shiftl (Z.land c0 0xF) 12) (Z.shiftl (Z.land (c 1%nat) 0x3F) 6)) (Z.land (c 2%nat) 0x3F) in
        if wc <? 0x800 then inl 2%nat
        else if (0xD800 <=? wc) && (wc <=? 0xDFFF) then inl 2%nat
        else inr (3%nat, wc)
    else if Z.land c0 0xF8 =? 0xF0 then
      if negb (is_cont s (pos + 1)) then inl 1%nat
      else
        let wc := Z.shiftl (Z.land c0 0x7) 18 in
        if 0x10FFFF <? wc then inl 1%nat
        else if negb (is_cont s (pos + 2)) then inl 2%nat
        else
          let wc := Z.lor wc (Z.shiftl (Z.land (c 1%nat) 0x3F) 12) in
          if (0x10FFFF <? wc) || (wc <? 0x10000) then inl 2%nat
          else if negb (is_cont s (pos + 3)) then inl 3%nat
          else inr (4%nat, Z.lor wc (Z.lor (Z.shiftl (Z.land (c 2%nat) 0x3F) 6) (Z.land (c 3%nat) 0x3F)))
    else inl 1%nat).

(** The loops over a string from [pos] on; every pass uses up a byte. *)
Fixpoint validate_loop (fuel : nat) (data : list Z) (pos : nat) : option bool :=
  match fuel with
  | O => None
  | S fuel =>
      if (pos <? length data)%nat then
        r ← utf8ToWc data pos;
        match r with inl _ => Some false | inr (b, _) => validate_loop fuel data (pos + b) end
      else Some true
  end.
Definition validateUtf8 (data : list Z) (pos : nat) : option bool := validate_loop (S (length data)) data pos.

(** The wide units of a value. *)
Definition wide_units (W : WChar) (wc : Z) : list Z :=
  match W with
  | W4 => [wc]
  | W2 =>
      if 0x10000 <=? wc then
        let wc := wc - 0x10000 in [u16 (Z.lor 0xD800 (Z.shiftr wc 10)); u16 (Z.lor 0xDC00 (Z.land wc 0x3FF))]
      else [wc]
  end.

(** What the result of [utf8ToWc] makes of the position and of the output. *)
Definition wide_next (W : WChar) (r : nat + nat * Z) : nat * list Z :=
  match r with inl k => (k, [ERROR_CHAR]) | inr (b, wc) => (b, wide_units W wc) end.

Fixpoint wide_size (fuel : nat) (W : WChar) (data : list Z) (i : nat) : option nat :=
  match fuel with
  | O => None
  | S fuel =>
      if (i <? length data)%nat then
        r ← utf8ToWc data i; n ← wide_size fuel W data (i + fst (wide_next W r)); Some (length (snd (wide_next W r)) + n)%nat
      else Some O
  end.

Fixpoint wide_write (fuel : nat) (W : WChar) (data : list Z) (i : nat) (tgt : list Z) (out : nat) : option (list Z) :=
  match fuel with
  | O => None
  | S fuel =>
      if (i <? length data)%nat then
        r ← utf8ToWc data i;
        '(tgt, out) ← write_units tgt out (snd (wide_next W r));
        wide_write fuel W data (i + fst (wide_next W r)) tgt out
      else Some tgt
  end.

Definition utf8ToWide (W : WChar) (str : list Z) : option (list Z) :=
  let fuel := S (length str) in
  outSize ← wide_size fuel W str 0;
  if (outSize =? 0)%nat then Some [] else wide_write fuel W str 0 (replicate outSize 0) 0.

(** ** Lower case and ASCII *)

(** [toLower] of a string; [lower] is [makeLower] of a wide string. *)
Definition toLower (W : WChar) (lower : list Z -> list Z) (str : list Z) : option (list Z) :=
  ws ← utf8ToWide W str; wideToUtf8 W (lower ws).

Definition isAscii (str : list Z) : bool := forallb (fun c => Z.land c 0x80 =? 0) str.
Definition asciiToLower (c : Z) : Z := if (65 <=? c) && (c <=? 90) then c - 65 + 97 else c.
Definition asciiMakeLower (str : list Z) : list Z := map asciiToLower str.

Fixpoint ascii_prefix (f : Z -> Z) (str prefix : list Z) : bool :=
  match prefix, str with
  | [], _ => true
  | p :: prefix, c :: str => (asciiToLower c =? f p) && ascii_prefix f str prefix
  | _, [] => false
  end.
Definition isAsciiPrefix (str prefix : list Z) : bool :=
  if (length str <? length prefix)%nat then false else ascii_prefix asciiToLower str prefix.
Definition isAsciiPrefix2 (str prefix : list Z) : bool :=
  if (length str <? length prefix)%nat then false else ascii_prefix id str prefix.
Definition isAsciiSuffix (str suffix : list Z) : bool :=
  if (length str <? length suffix)%nat then false
  else ascii_prefix asciiToLower (drop (length str - length suffix) str) suffix.
Definition isAsciiSuffix2 (str suffix : list Z) : bool :=
  if (length str <? length suffix)%nat then false
  else ascii_prefix id (drop (length str - length suffix) str) suffix.
Definition asciiEqual (s1 s2 : list Z) : bool :=
  if negb (length s1 =? length s2)%nat then false else ascii_prefix asciiToLower s1 s2.

(** ** Bytes and values *)

(** The values of Unicode characters. *)
Definition scalar (v : Z) : Prop := 0 <= v < 0xD800 \/ 0xE000 <= v < 0x110000.

Definition cont (o : option Z) : bool := match o with Some c => (128 <=? c) && (c <? 192) | None => false end.
Definition low6 (o : option Z) : Z := default 128 o - 128.

(** [utf8ToWc] on the values of the bytes instead of their bits. *)
Definition utf8_value (c0 : Z) (c1 c2 c3 : option Z) : nat + nat * Z :=
  if c0 <? 128 then inr (1%nat, c0)
  else if c0 <? 192 then inl 1%nat
  else if c0 <? 224 then
    let wc := (c0 - 192) * 64 + low6 c1 in
    if negb (cont c1) then inl 1%nat else if wc <? 0x80 then inl 1%nat else inr (2%nat, wc)
  else if c0 <? 240 then
    let wc := ((c0 - 224) * 64 + low6 c1) * 64 + low6 c2 in
    if negb (cont c1) then inl 1%nat else if negb (cont c2) then inl 2%nat
    else if wc <? 0x800 then inl 2%nat else if (0xD800 <=? wc) && (wc <=? 0xDFFF) then inl 2%nat else inr (3%nat, wc)
  else if c0 <? 248 then
    let wc := ((c0 - 240) * 64 + low6 c1) * 4096 in
    if negb (cont c1) then inl 1%nat
    else if 0x10FFFF <? (c0 - 240) * 262144 then inl 1%nat
    else if negb (cont c2) then inl 2%nat
    else if (0x10FFFF <? wc) || (wc <? 0x10000) then inl 2%nat
    else if negb (cont c3) then inl 3%nat
    else inr (4%nat, wc + low6 c2 * 64 + low6 c3)
  else inl 1%nat.

Lemma lead_bits c : is_byte c ->
  (Z.land c 0x80 =? 0) = (c <? 128) /\ (128 <= c -> (Z.land c 0xC0 =? 0x80) = (c <? 192)) /\
  (192 <= c -> (Z.land c 0xE0 =? 0xC0) = (c <? 224)) /\ (224 <= c -> (Z.land c 0xF0 =? 0xE0) = (c <? 240)) /\
  (240 <= c -> (Z.land c 0xF8 =? 0xF0) = (c <? 248)) /\
  (192 <= c < 224 -> Z.land c 0x1F = c - 192) /\ (224 <= c < 240 -> Z.land c 0xF = c - 224) /\
  (240 <= c < 248 -> Z.land c 0x7 = c - 240).
Proof.
  intros Hc.
  assert (forallb (fun c => eqb (Z.land c 0x80 =? 0) (c <? 128) &&
    (if 128 <=? c then eqb (Z.land c 0xC0 =? 0x80) (c <? 192) else true) &&
    (if 192 <=? c then eqb (Z.land c 0xE0 =? 0xC0) (c <? 224) else true) &&
    (if 224 <=? c then eqb (Z.land c 0xF0 =? 0xE0) (c <? 240) else true) &&
    (if 240 <=? c then eqb (Z.land c 0xF8 =? 0xF0) (c <? 248) else true) &&
    (if (192 <=? c) && (c <? 224) then Z.land c 0x1F =? c - 192 else true) &&
    (if (224 <=? c) && (c <? 240) then Z.land c 0xF =? c - 224 else true) &&
    (if (240 <=? c) && (c <? 248) then Z.land c 0x7 =? c - 240 else true)) (seqZ 0 256) = true) as H by reflexivity.
  apply (forallb_seqZ _ _ c) in H; [|exact Hc]. cbv beta in H. zb.
  repeat match goal with H : eqb _ _ = true |- _ => apply eqb_prop in H end.
  split; [assumption|].
  repeat split; intros Hr;
    repeat match goal with H : (if ?b then _ else _) = true |- _ =>
      first [replace b with true in H by (symmetry; apply Z.leb_le; lia)
            |replace b with true in H by (symmetry; apply andb_true_intro; split; [apply Z.leb_le|apply Z.ltb_lt]; lia)
            |clear H] end;
    first [apply eqb_prop; assumption|zb; assumption].
Qed.

Lemma cont_bits c : is_byte c -> (Z.land c 0xC0 =? 0x80) = ((128 <=? c) && (c <? 192)) /\
  (128 <= c < 192 -> Z.land c 0x3F = c - 128).
Proof.
  intros Hc.
  assert (forallb (fun c => eqb (Z.land c 0xC0 =? 0x80) ((128 <=? c) && (c <? 192)) &&
    (if (128 <=? c) && (c <? 192) then Z.land c 0x3F =? c - 128 else true)) (seqZ 0 256) = true) as H by reflexivity.
  apply (forallb_seqZ _ _ c) in H; [|exact Hc]. cbv beta in H. apply andb_prop in H as [H1 H2]. apply eqb_prop in H1.
  split; [exact H1|]. intros Hr. replace ((128 <=? c) && (c <? 192)) with true in H2 by lia. zb. exact H2.
Qed.

Lemma is_cont_cont s k : bytes_ok s -> is_cont s k = cont (s !! k).
Proof.
  intros Hs. unfold is_cont, cont. destruct (s !! k) as [c|] eqn:E; [|reflexivity].
  apply cont_bits. unfold bytes_ok in Hs. rewrite Forall_lookup in Hs. apply (Hs _ _ E).
Qed.

Lemma cont_low6 s k : bytes_ok s -> cont (s !! k) = true ->
  Z.land (s !!! k) 0x3F = low6 (s !! k) /\ 0 <= low6 (s !! k) < 64.
Proof.
  intros Hs Hc. unfold low6. rewrite list_lookup_total_alt. destruct (s !! k) as [c|] eqn:E; [|discriminate].
  cbn [from_option cont] in *. unfold id in *. zb.
  unfold bytes_ok in Hs. rewrite Forall_lookup in Hs. rewrite (proj2 (cont_bits c (Hs _ _ E))) by lia. lia.
Qed.

Lemma utf8ToWc_value s pos c0 : bytes_ok s -> s !! pos = Some c0 ->
  utf8ToWc s pos = Some (utf8_value c0 (s !! (pos + 1)%nat) (s !! (pos + 2)%nat) (s !! (pos + 3)%nat)).
Proof.
  intros Hs H0. unfold utf8ToWc. rewrite H0, option_bind_Some_eq. f_equal. unfold utf8_value.
  assert (is_byte c0) as Hc by (unfold bytes_ok in Hs; rewrite Forall_lookup in Hs; apply (Hs _ _ H0)).
  destruct (lead_bits c0 Hc) as (L0 & L1 & L2 & L3 & L4 & V2 & V3 & V4). unfold is_byte in Hc.
  rewrite !is_cont_cont by exact Hs.
  pose proof (cont_low6 s (pos + 1) Hs) as K1. pose proof (cont_low6 s (pos + 2) Hs) as K2.
  pose proof (cont_low6 s (pos + 3) Hs) as K3.
  rewrite L0. destruct (c0 <? 128) eqn:E0; zb; [reflexivity|].
  rewrite L1 by lia. destruct (c0 <? 192) eqn:E1; zb; [reflexivity|].
  rewrite L2 by lia. destruct (c0 <? 224) eqn:E2; zb.
  { rewrite V2 by lia. destruct (cont (s !! (pos + 1)%nat)); [|reflexivity]. destruct (K1 eq_refl) as [-> B1]. cbn [negb].
    rewrite lor_shiftl by lia. reflexivity. }
  rewrite L3 by lia. destruct (c0 <? 240) eqn:E3; zb.
  { rewrite V3 by lia. destruct (cont (s !! (pos + 1)%nat)); [|reflexivity]. destruct (K1 eq_refl) as [-> B1].
    destruct (cont (s !! (pos + 2)%nat)); [|reflexivity]. destruct (K2 eq_refl) as [-> B2]. cbn [negb].
    assert (Z.shiftl (c0 - 224) 12 = Z.shiftl (Z.shiftl (c0 - 224) 6) 6) as -> by (rewrite Z.shiftl_shiftl by lia; reflexivity).
    rewrite <- Z.shiftl_lor, lor_shiftl, lor_shiftl by lia. reflexivity. }
  rewrite L4 by lia. destruct (c0 <? 248) eqn:E4; zb; [|reflexivity]. rewrite V4 by lia.
  destruct (cont (s !! (pos + 1)%nat)); [|reflexivity]. destruct (K1 eq_refl) as [-> B1]. cbn [negb].
  assert (forall y, 0 <= y < 64 -> Z.lor (Z.shiftl (c0 - 240) 18) (Z.shiftl y 12) = Z.shiftl ((c0 - 240) * 64 + y) 12) as Hwc.
  { intros y Hy. replace (Z.shiftl (c0 - 240) 18) with (Z.shiftl (Z.shiftl (c0 - 240) 6) 12) by (rewrite Z.shiftl_shiftl by lia; reflexivity).
    rewrite <- Z.shiftl_lor, lor_shiftl by lia. reflexivity. }
  rewrite !Hwc by assumption. rewrite (Z.shiftl_mul_pow2 _ 18) by lia. change (2 ^ 18) with 262144. case_if; [reflexivity|].
  destruct (cont (s !! (pos + 2)%nat)); [|reflexivity]. destruct (K2 eq_refl) as [-> B2]. cbn [negb].
  assert (forall x, Z.shiftl x 12 = x * 4096) as H12 by (intros x; apply (Z.shiftl_mul_pow2 x 12); lia).
  rewrite !H12. case_if; [reflexivity|]. rewrite <- !H12.
  destruct (cont (s !! (pos + 3)%nat)); [|reflexivity]. destruct (K3 eq_refl) as [-> B3]. cbn [negb]. do 3 f_equal.
  rewrite (lor_shiftl (low6 _) 6) by lia. change (2 ^ 6) with 64.
  rewrite lor_shiftl by (change (2 ^ 12) with 4096; lia). rewrite H12. change (2 ^ 12) with 4096. lia.
Qed.

(** Arithmetic with quotients and remainders. *)
Ltac zdiv := Z.to_euclidean_division_equations; lia.

(** The bytes of a value, by division. *)
Definition utf8_bytes (v : Z) : list Z :=
  if v <? 0x80 then [v]
  else if v <? 0x800 then [192 + v / 64; 128 + v mod 64]
  else if v <? 0x10000 then [224 + v / 4096; 128 + v / 64 mod 64; 128 + v mod 64]
  else [240 + v / 262144; 128 + v / 4096 mod 64; 128 + v / 64 mod 64; 128 + v mod 64].

Lemma cont_byte x : Z.lor 0x80 (Z.land x 0x3F) = 128 + x mod 64.
Proof.
  change 0x3F with (Z.ones 6). rewrite Z.land_ones by lia. change (2 ^ 6) with 64.
  assert (forallb (fun y => Z.lor 0x80 y =? 128 + y) (seqZ 0 64) = true) as H by reflexivity.
  apply (forallb_seqZ _ _ (x mod 64)) in H; [|apply Z.mod_pos_bound; lia]. cbv beta in H. zb. exact H.
Qed.

Lemma lead_byte base n y : (base =? 0xC0) && (n =? 32) || (base =? 0xE0) && (n =? 16) || (base =? 0xF0) && (n =? 8) = true ->
  0 <= y < n -> u8 (Z.lor base y) = base + y.
Proof.
  intros Hb Hy.
  assert (forallb (fun y => u8 (Z.lor base y) =? base + y) (seqZ 0 n) = true) as H.
  { apply orb_prop in Hb as [Hb|Hb]; [apply orb_prop in Hb as [Hb|Hb]|]; zb; subst; reflexivity. }
  apply (forallb_seqZ _ _ y) in H; [|exact Hy]. cbv beta in H. zb. exact H.
Qed.

Lemma wcToUtf8_bytes v : 0 <= v < 0x110000 -> wcToUtf8 v = utf8_bytes v.
Proof.
  intros Hv. unfold wcToUtf8, utf8_bytes. rewrite !cont_byte, !Z.shiftr_div_pow2 by lia.
  change (2 ^ 6) with 64. change (2 ^ 12) with 4096. change (2 ^ 18) with 262144.
  case_if; [reflexivity|]. case_if; [rewrite (lead_byte _ 32) by (reflexivity || zdiv); reflexivity|].
  case_if; [rewrite (lead_byte _ 16) by (reflexivity || zdiv)|rewrite (lead_byte _ 8) by (reflexivity || zdiv)]; reflexivity.
Qed.

Lemma utf8_bytes_ok v : 0 <= v < 0x110000 -> bytes_ok (utf8_bytes v).
Proof. intros Hv. unfold utf8_bytes. repeat case_if; repeat constructor; zdiv. Qed.

Lemma utf8_bytes_pos v : (0 < length (utf8_bytes v) <= 4)%nat.
Proof. unfold utf8_bytes. repeat case_if; cbn; lia. Qed.

Lemma scalar_range v : scalar v -> 0 <= v < 0x110000.
Proof. unfold scalar. lia. Qed.

(** Reading what was written. *)
Lemma utf8_value_bytes v o1 o2 o3 : scalar v ->
  match utf8_bytes v with
  | [a] => utf8_value a o1 o2 o3 = inr (1%nat, v)
  | [a; b] => utf8_value a (Some b) o2 o3 = inr (2%nat, v)
  | [a; b; c] => utf8_value a (Some b) (Some c) o3 = inr (3%nat, v)
  | [a; b; c; d] => utf8_value a (Some b) (Some c) (Some d) = inr (4%nat, v)
  | _ => False
  end.
Proof.
  intros Hv. pose proof (scalar_range v Hv). unfold scalar in Hv. unfold utf8_bytes.
  repeat case_if; unfold utf8_value, low6; cbn [cont from_option]; unfold id;
    repeat (case_if; [try (exfalso; zdiv)|try (exfalso; zdiv)]);
    repeat match goal with H : _ \/ _ |- _ => destruct H; zb end; try (exfalso; zdiv); do 2 f_equal; zdiv.
Qed.

Lemma cont_Some o : cont o = true -> exists c, o = Some c /\ 128 <= c < 192 /\ low6 o = c - 128.
Proof.
  destruct o as [c|]; cbn [cont]; [|discriminate]. intros H. zb. exists c. unfold low6. cbn [from_option]. unfold id.
  split; [reflexivity|]. lia.
Qed.

(** What is read is what its bytes are written as. *)
Lemma utf8_value_sound c0 c1 c2 c3 : is_byte c0 ->
  match utf8_value c0 c1 c2 c3 with
  | inr (n, wc) => scalar wc /\ Some <$> utf8_bytes wc = take n [Some c0; c1; c2; c3] /\ length (utf8_bytes wc) = n
  | inl k => (0 < k <= 3)%nat /\ Forall is_Some (take k [Some c0; c1; c2; c3])
  end.
Proof.
  intros Hc. unfold is_byte in Hc. unfold utf8_value.
  repeat (case_if;
    repeat match goal with
    | H : cont ?o = true |- _ =>
        let x := fresh "x" in let Hx := fresh "Hx" in let Hl := fresh "Hl" in
        apply cont_Some in H as (x & -> & Hx & Hl); rewrite ?Hl in *
    end); try (split; [lia|repeat constructor; eauto]).
  all: unfold scalar, utf8_bytes; split; [repeat match goal with H : _ \/ _ |- _ => destruct H; zb end; lia|].
  all: repeat (case_if; [try (exfalso; lia)|try (exfalso; lia)]);
    (split; [|reflexivity]); cbn; repeat f_equal; zdiv.
Qed.

(** ** Reading a string *)

Lemma read_written pre v rest : scalar v -> bytes_ok (pre ++ rest) ->
  utf8ToWc (pre ++ utf8_bytes v ++ rest) (length pre) = Some (inr (length (utf8_bytes v), v)).
Proof.
  intros Hv Hb. apply Forall_app in Hb as [Hb1 Hb2].
  assert (bytes_ok (pre ++ utf8_bytes v ++ rest)) as Hs.
  { repeat apply Forall_app_2; [exact Hb1|apply utf8_bytes_ok, scalar_range, Hv|exact Hb2]. }
  assert (forall k, (pre ++ utf8_bytes v ++ rest) !! (length pre + k)%nat = (utf8_bytes v ++ rest) !! k) as Hk.
  { intros k. rewrite lookup_app_r by lia. f_equal. lia. }
  pose proof (Hk O) as H0. rewrite Nat.add_0_r in H0.
  assert (exists a r, utf8_bytes v = a :: r) as (a & r & Ea).
  { pose proof (utf8_bytes_pos v). destruct (utf8_bytes v); [cbn in *; lia|eauto]. }
  rewrite Ea in H0 at 2. rewrite (utf8ToWc_value _ _ a Hs H0). rewrite !Hk. f_equal.
  pose proof (utf8_value_bytes v ((utf8_bytes v ++ rest) !! 1%nat) ((utf8_bytes v ++ rest) !! 2%nat)
    ((utf8_bytes v ++ rest) !! 3%nat) Hv) as H.
  destruct (utf8_bytes v) as [|b0 [|b1 [|b2 [|b3 [|b4 l]]]]]; try contradiction; injection Ea as -> _; exact H.
Qed.

Lemma read_sound s pos : bytes_ok s -> (pos < length s)%nat ->
  exists r, utf8ToWc s pos = Some r /\
  match r with
  | inr (n, wc) => scalar wc /\ n = length (utf8_bytes wc) /\ drop pos s = utf8_bytes wc ++ drop (pos + n) s
  | inl k => (0 < k)%nat /\ (pos + k <= length s)%nat
  end.
Proof.
  intros Hs Hp. destruct (lookup_lt_is_Some_2 s pos Hp) as [c0 H0]. rewrite (utf8ToWc_value s pos c0 Hs H0).
  assert (is_byte c0) as Hc by (unfold bytes_ok in Hs; rewrite Forall_lookup in Hs; apply (Hs _ _ H0)).
  eexists. split; [reflexivity|].
  pose proof (utf8_value_sound c0 (s !! (pos + 1)%nat) (s !! (pos + 2)%nat) (s !! (pos + 3)%nat) Hc) as H.
  assert ([Some c0; s !! (pos + 1)%nat; s !! (pos + 2)%nat; s !! (pos + 3)%nat] = map (fun k => s !! (pos + k)%nat) (seq 0 4)) as E.
  { cbn [map seq]. rewrite Nat.add_0_r, H0. reflexivity. }
  rewrite E in H. destruct (utf8_value _ _ _ _) as [k|[n wc]].
  - destruct H as [Hk Hf]. split; [lia|].
    assert (is_Some (s !! (pos + (k - 1))%nat)) as Hl; [|apply lookup_lt_is_Some in Hl; lia].
    rewrite firstn_map, take_seq in Hf. rewrite Forall_forall in Hf. apply Hf.
    apply list_elem_of_fmap. exists (k - 1)%nat. split; [reflexivity|]. apply elem_of_seq. lia.
  - destruct H as (Hw & Hb & Hn). split; [exact Hw|]. split; [symmetry; exact Hn|].
    rewrite firstn_map, take_seq in Hb. pose proof (utf8_bytes_pos wc) as Hp4. rewrite Hn in Hp4. rewrite Nat.min_l in Hb by lia.
    rewrite <- (take_drop n (drop pos s)), drop_drop. f_equal. apply list_eq. intros i.
    pose proof (f_equal (fun l => l !! i) Hb) as Hi. cbv beta in Hi. rewrite list_lookup_fmap in Hi.
    destruct (decide (i < n)%nat) as [Hi'|Hi'].
    + rewrite lookup_take_lt, lookup_drop by exact Hi'.
      change (map ?f ?l) with (f <$> l) in Hi. rewrite list_lookup_fmap, lookup_seq_lt in Hi by exact Hi'. cbn in Hi.
      destruct (utf8_bytes wc !! i) as [x|] eqn:Ex; cbn in Hi; [injection Hi as <-; reflexivity|discriminate].
    + rewrite lookup_take_ge by lia. symmetry. apply lookup_ge_None. lia.
Qed.

(** The characters of a string from [pos] on, an error being [ERROR_CHAR], and whether there is
    none. *)
Definition char_of (r : nat + nat * Z) : Z := match r with inl _ => ERROR_CHAR | inr (_, wc) => wc end.
Definition is_char (r : nat + nat * Z) : bool := match r with inl _ => false | inr _ => true end.

Fixpoint chars (fuel : nat) (data : list Z) (pos : nat) : list Z * bool :=
  match fuel with
  | O => ([], true)
  | S fuel =>
      if (pos <? length data)%nat then
        match utf8ToWc data pos with
        | None => ([], true)
        | Some r =>
            let '(vs, ok) := chars fuel data (pos + fst (wide_next W4 r)) in (char_of r :: vs, is_char r && ok)
        end
      else ([], true)
  end.

(** The strings of characters. *)
Abbreviation wide W vs := (concat (map (wide_units W) vs)).
Abbreviation utf8 vs := (concat (map utf8_bytes vs)).

Lemma wide_next_char W r : snd (wide_next W r) = wide_units W (char_of r).
Proof. destruct r as [k|[b wc]]; [|reflexivity]. destruct W; reflexivity. Qed.

Lemma wide_next_skip W r : fst (wide_next W r) = fst (wide_next W4 r).
Proof. destruct r as [k|[b wc]]; reflexivity. Qed.

Lemma write_units_ok tgt out us : (out + length us <= length tgt)%nat ->
  write_units tgt out us = Some (buf_write tgt out us, (out + length us)%nat).
Proof. intros H. unfold write_units. destruct (Nat.leb_spec (out + length us) (length tgt)); [reflexivity|lia]. Qed.

(** The three loops compute the characters. *)
Lemma loops_chars data : bytes_ok data -> forall fuel pos, (length data - pos < fuel)%nat ->
  let vs := fst (chars fuel data pos) in
  (forall W, wide_size fuel W data pos = Some (length (wide W vs))) /\
  (forall W tgt out, (out + length (wide W vs) <= length tgt)%nat ->
     wide_write fuel W data pos tgt out = Some (buf_write tgt out (wide W vs))) /\
  validate_loop fuel data pos = Some (snd (chars fuel data pos)) /\
  Forall scalar vs /\ (snd (chars fuel data pos) = true -> drop pos data = utf8 vs).
Proof.
  intros Hd. induction fuel as [|fuel IH]; intros pos Hf; [lia|]. cbn [chars wide_size wide_write validate_loop].
  destruct (Nat.ltb_spec pos (length data)) as [Hp|Hp]; [|cbn [fst snd map concat length]].
  - destruct (read_sound data pos Hd Hp) as (r & Hr & Hs). rewrite Hr.
    assert (0 < fst (wide_next W4 r))%nat as Hk.
    { destruct r as [k|[n wc]]; cbn; [lia|]. destruct Hs as (_ & -> & _). pose proof (utf8_bytes_pos wc). lia. }
    destruct (IH (pos + fst (wide_next W4 r))%nat ltac:(lia)) as (I1 & I2 & I3 & I4 & I5).
    destruct (chars fuel data (pos + fst (wide_next W4 r))) as [vs ok] eqn:Ec. cbn [fst snd] in *.
    split; [|split; [|split; [|split]]].
    + intros W. rewrite option_bind_Some_eq, wide_next_skip, I1, option_bind_Some_eq, wide_next_char. cbn. rewrite length_app. reflexivity.
    + intros W tgt out Ho. cbn [map concat] in *. rewrite length_app in Ho. rewrite option_bind_Some_eq, wide_next_char.
      rewrite write_units_ok by lia. rewrite option_bind_Some_eq, wide_next_skip, I2.
      * rewrite buf_write_join by lia. reflexivity.
      * rewrite length_buf_write by lia. lia.
    + destruct r as [k|[n wc]]; [reflexivity|]. exact I3.
    + constructor; [|exact I4]. destruct r as [k|[n wc]]; [right; unfold char_of, ERROR_CHAR; lia|apply Hs].
    + intros Hok. apply andb_prop in Hok as [Hc Hok]. destruct r as [k|[n wc]]; [discriminate|].
      destruct Hs as (_ & _ & ->). cbn [map concat char_of]. f_equal. exact (I5 Hok).
  - repeat split; try constructor; intros; rewrite ?buf_write_nil; try reflexivity. apply drop_ge. lia.
Qed.

(** A string of characters is read back. *)
Lemma chars_utf8 vs : Forall scalar vs -> forall fuel pre, bytes_ok pre -> (length (utf8 vs) < fuel)%nat ->
  chars fuel (pre ++ utf8 vs) (length pre) = (vs, true).
Proof.
  induction 1 as [|v vs Hv Hvs IH]; intros fuel pre Hpre Hf; (destruct fuel as [|fuel]; [lia|]); cbn [chars map concat].
  - rewrite app_nil_r, Nat.ltb_irrefl. reflexivity.
  - pose proof (utf8_bytes_pos v) as Hp. cbn [map concat] in Hf. rewrite length_app in Hf.
    destruct (Nat.ltb_spec (length pre) (length (pre ++ utf8_bytes v ++ utf8 vs))) as [_|H]; [|rewrite !length_app in H; lia].
    assert (bytes_ok (pre ++ utf8 vs)) as Hb.
    { apply Forall_app_2; [exact Hpre|]. clear -Hvs. induction Hvs as [|x l Hx _ IH]; [constructor|].
      cbn [map concat]. apply Forall_app_2; [apply utf8_bytes_ok, scalar_range, Hx|exact IH]. }
    rewrite (read_written pre v (utf8 vs) Hv Hb). cbn [wide_next fst char_of is_char].
    rewrite app_assoc, <- length_app, IH; [reflexivity| |lia].
    apply Forall_app_2; [exact Hpre|apply utf8_bytes_ok, scalar_range, Hv].
Qed.

(** ** Writing a string *)

(** The values written for the units of a wide string. *)
Fixpoint wide_values (W : WChar) (highSurrogate : Z) (str : list Z) : list Z :=
  match str with
  | [] => wide_end highSurrogate
  | x :: str => fst (wide_step W highSurrogate x) ++ wide_values W (snd (wide_step W highSurrogate x)) str
  end.

Abbreviation encoded vs := (concat (map wcToUtf8 vs)).

Lemma length_encoded vs : length (encoded vs) = list_sum (map (fun v => length (wcToUtf8 v)) vs).
Proof. induction vs as [|v vs IH]; [reflexivity|]. cbn. rewrite length_app, IH. reflexivity. Qed.

Lemma write_values_ok vs : forall tgt out, (out + length (encoded vs) <= length tgt)%nat ->
  write_values tgt out vs = Some (buf_write tgt out (encoded vs), (out + length (encoded vs))%nat).
Proof.
  induction vs as [|v vs IH]; intros tgt out H; cbn [write_values map concat].
  - rewrite buf_write_nil, Nat.add_0_r. reflexivity.
  - cbn [map concat] in H. rewrite length_app in *. rewrite write_units_ok by lia. rewrite option_bind_Some_eq.
    rewrite IH by (rewrite length_buf_write by lia; lia). rewrite buf_write_join by lia. do 2 f_equal. lia.
Qed.

Lemma utf8_passes W str : forall h,
  utf8_size W h str = length (encoded (wide_values W h str)) /\
  forall tgt out, (out + length (encoded (wide_values W h str)) <= length tgt)%nat ->
  utf8_write W h str tgt out =
    Some (buf_write tgt out (encoded (wide_values W h str)), (out + length (encoded (wide_values W h str)))%nat).
Proof.
  induction str as [|x str IH]; intros h; cbn [utf8_size utf8_write wide_values].
  - rewrite <- length_encoded. split; [reflexivity|]. intros tgt out H. apply write_values_ok, H.
  - destruct (wide_step W h x) as [vs h'] eqn:E. cbn [fst snd]. destruct (IH h') as [I1 I2].
    rewrite map_app, concat_app, length_app. rewrite I1, <- length_encoded. split; [reflexivity|]. intros tgt out H.
    rewrite write_values_ok by lia. rewrite option_bind_Some_eq.
    rewrite I2 by (rewrite length_buf_write by lia; lia). rewrite buf_write_join by lia. do 2 f_equal. lia.
Qed.

Lemma wideToUtf8_values W str : wideToUtf8 W str = Some (encoded (wide_values W 0 str)).
Proof.
  unfold wideToUtf8. destruct (utf8_passes W str 0) as [-> H]. destruct (Nat.eqb_spec (length (encoded (wide_values W 0 str))) 0) as [E|E].
  - destruct (encoded _); [reflexivity|discriminate].
  - rewrite H by (rewrite length_replicate; lia). cbn. unfold buf_write. cbn [take app plus].
    rewrite drop_ge, app_nil_r by (rewrite length_replicate; lia). reflexivity.
Qed.

(** The units of a wide string of the system. *)
Definition unit_ok (W : WChar) (x : Z) : Prop := 0 <= x < match W with W2 => 2 ^ 16 | W4 => 2 ^ 32 end.

Lemma surrogates v : 0x10000 <= v < 0x110000 ->
  wide_units W2 v = [0xD800 + (v - 0x10000) / 1024; 0xDC00 + (v - 0x10000) mod 1024].
Proof.
  intros Hv. unfold wide_units. replace (0x10000 <=? v) with true by lia.
  change 0x3FF with (Z.ones 10). rewrite Z.land_ones, Z.shiftr_div_pow2 by lia. change (2 ^ 10) with 1024.
  change 0xD800 with (Z.shiftl 54 10) at 1. change 0xDC00 with (Z.shiftl 55 10) at 1.
  rewrite !lor_shiftl by (change (2 ^ 10) with 1024; zdiv). change (2 ^ 10) with 1024. unfold u16, wrap.
  rewrite !Z.mod_small by (change (2 ^ 16) with 65536; zdiv). reflexivity.
Qed.

Lemma wide_values_char W v str : scalar v -> wide_values W 0 (wide_units W v ++ str) = v :: wide_values W 0 str.
Proof.
  intros Hv. pose proof (scalar_range v Hv) as Hr. destruct W.
  - destruct (Z.lt_ge_cases v 0x10000) as [Hs|Hb].
    + unfold wide_units. replace (0x10000 <=? v) with false by lia. cbn [app wide_values]. unfold wide_step. cbn [negb Z.eqb].
      unfold scalar in Hv. repeat (case_if; [exfalso; lia|]). reflexivity.
    + rewrite surrogates by lia. pose proof (Z.mod_pos_bound (v - 0x10000) 1024 ltac:(lia)) as Hm.
      assert (0 <= (v - 0x10000) / 1024 < 1024) as Hd by zdiv. pose proof (Z.div_mod (v - 0x10000) 1024 ltac:(lia)) as He.
      remember ((v - 0x10000) / 1024) as hi. remember ((v - 0x10000) mod 1024) as lo. cbn [app wide_values].
      assert (wide_step W2 0 (0xD800 + hi) = ([], 0xD800 + hi)) as ->.
      { unfold wide_step. replace (0xD800 <=? 0xD800 + hi) with true by lia. replace (0xD800 + hi <? 0xDC00) with true by lia. reflexivity. }
      assert (wide_step W2 (0xD800 + hi) (0xDC00 + lo) = ([v], 0)) as Hs; [|cbn [fst snd app]; rewrite Hs; reflexivity].
      unfold wide_step. replace (0xD800 <=? 0xDC00 + lo) with true by lia. replace (0xDC00 + lo <? 0xDC00) with false by lia.
      replace (0xDC00 <=? 0xDC00 + lo) with true by lia. replace (0xDC00 + lo <? 0xE000) with true by lia.
      replace (0xD800 + hi =? 0) with false by lia. cbn [andb]. do 2 f_equal.
      rewrite Z.lor_comm, lor_shiftl by (change (2 ^ 10) with 1024; lia). change (2 ^ 10) with 1024. lia.
  - cbn [wide_units app wide_values]. unfold wide_step. case_if; [reflexivity|lia].
Qed.

Lemma wide_values_wide W vs : Forall scalar vs -> wide_values W 0 (wide W vs) = vs.
Proof. induction 1 as [|v vs Hv _ IH]; [reflexivity|]. cbn [map concat]. rewrite wide_values_char, IH by exact Hv. reflexivity. Qed.

Lemma encoded_utf8 vs : Forall (fun v => 0 <= v < 0x110000) vs -> encoded vs = utf8 vs /\ bytes_ok (utf8 vs).
Proof.
  induction 1 as [|v vs Hv _ [IH1 IH2]]; [split; constructor|]. cbn [map concat]. rewrite wcToUtf8_bytes, IH1 by exact Hv.
  split; [reflexivity|]. apply Forall_app_2; [apply utf8_bytes_ok, Hv|exact IH2].
Qed.

Lemma wide_values_range W str : Forall (unit_ok W) str -> forall h, h = 0 \/ 0xD800 <= h < 0xDC00 ->
  Forall (fun v => 0 <= v < 0x110000) (wide_values W h str).
Proof.
  induction 1 as [|x str Hx _ IH]; intros h Hh; cbn [wide_values].
  { unfold wide_end. destruct (negb _); repeat constructor; unfold ERROR_CHAR; lia. }
  unfold unit_ok in Hx. unfold wide_step. destruct W.
  - change (2 ^ 16) with 65536 in Hx. case_if; cbn [fst snd].
    { apply Forall_app_2; [|apply IH; lia]. destruct (negb _); repeat constructor; unfold ERROR_CHAR; lia. }
    case_if; [case_if|case_if]; cbn [fst snd]; (apply Forall_app_2; [|apply IH; lia]);
      repeat constructor; unfold ERROR_CHAR; try lia;
      rewrite Z.lor_comm, lor_shiftl by (change (2 ^ 10) with 1024; lia); change (2 ^ 10) with 1024; lia.
  - cbn [fst snd]. apply Forall_app_2; [|apply IH; lia]. repeat constructor; case_if; unfold ERROR_CHAR; lia.
Qed.

Lemma utf8ToWide_chars W s : bytes_ok s ->
  utf8ToWide W s = Some (wide W (fst (chars (S (length s)) s 0))) /\
  validateUtf8 s 0 = Some (snd (chars (S (length s)) s 0)) /\
  Forall scalar (fst (chars (S (length s)) s 0)) /\
  (snd (chars (S (length s)) s 0) = true -> s = utf8 (fst (chars (S (length s)) s 0))).
Proof.
  intros Hs. destruct (loops_chars s Hs (S (length s)) 0 ltac:(lia)) as (I1 & I2 & I3 & I4 & I5).
  split; [|split; [exact I3|split; [exact I4|exact I5]]]. unfold utf8ToWide. rewrite I1, option_bind_Some_eq.
  destruct (Nat.eqb_spec (length (wide W (fst (chars (S (length s)) s 0)))) 0) as [E|E].
  - destruct (wide W _); [reflexivity|discriminate].
  - rewrite I2 by (rewrite length_replicate; lia). unfold buf_write. cbn [take app plus].
    rewrite drop_ge, app_nil_r by (rewrite length_replicate; lia). reflexivity.
Qed.

Lemma utf8_read_back W vs : Forall scalar vs ->
  utf8ToWide W (utf8 vs) = Some (wide W vs) /\ validateUtf8 (utf8 vs) 0 = Some true.
Proof.
  intros Hv. destruct (encoded_utf8 vs) as [_ Hb]; [apply (Forall_impl _ _ _ Hv); intros v; apply scalar_range|].
  destruct (utf8ToWide_chars W (utf8 vs) Hb) as (-> & -> & _).
  pose proof (chars_utf8 vs Hv (S (length (utf8 vs))) [] ltac:(constructor) ltac:(lia)) as H. cbn [app length] in H.
  rewrite H. split; reflexivity.
Qed.

(** C16.  Text survives the way to wide strings and back: for every string both conversions
    return, whatever the width of a wide character; what comes back is valid UTF-8, and it is
    the string itself exactly when [validateUtf8] accepts the string.  A wide string of
    characters comes back from UTF-8 as it was. *)
Theorem utf8_roundtrip W s vs : bytes_ok s -> Forall scalar vs ->
  (exists ws s' b, utf8ToWide W s = Some ws /\ wideToUtf8 W ws = Some s' /\ bytes_ok s' /\
     validateUtf8 s' 0 = Some true /\ validateUtf8 s 0 = Some b /\ (b = true <-> s' = s)) /\
  exists u, wideToUtf8 W (wide W vs) = Some u /\ utf8ToWide W u = Some (wide W vs).
Proof.
  intros Hs Hv. destruct (utf8ToWide_chars W s Hs) as (E1 & E2 & Hc & Hok).
  assert (forall l, Forall scalar l -> wideToUtf8 W (wide W l) = Some (utf8 l) /\ bytes_ok (utf8 l)) as Hw.
  { intros l Hl. destruct (encoded_utf8 l) as [He Hb]; [apply (Forall_impl _ _ _ Hl); intros v; apply scalar_range|].
    split; [|exact Hb]. rewrite wideToUtf8_values, wide_values_wide, He by exact Hl. reflexivity. }
  split.
  - destruct (chars (S (length s)) s 0) as [l b]. cbn [fst snd] in *. destruct (Hw l Hc) as [W1 W2'].
    exists (wide W l), (utf8 l), b. split; [exact E1|]. split; [exact W1|]. split; [exact W2'|].
    destruct (utf8_read_back W l Hc) as [_ Hval]. split; [exact Hval|]. split; [exact E2|]. split.
    + intros Hb. symmetry. apply Hok, Hb.
    + intros He. rewrite He in Hval. congruence.
  - exists (utf8 vs). split; [apply Hw, Hv|]. apply utf8_read_back, Hv.
Qed.

(** A word in Cyrillic, a byte that is no character, and a character outside the first plane. *)
Lemma utf8_roundtrip_witness :
  validateUtf8 [208; 180; 208; 176; 240; 159; 152; 128] 0 = Some true /\
  (exists ws s', utf8ToWide W2 [208; 180; 192; 33] = Some ws /\ wideToUtf8 W2 ws = Some s' /\ s' <> [208; 180; 192; 33]) /\
  exists u, wideToUtf8 W2 [0x434; 0xD83D; 0xDE00] = Some u /\ utf8ToWide W2 u = Some [0x434; 0xD83D; 0xDE00].
Proof.
  split; [reflexivity|].
  destruct (utf8_roundtrip W2 [208; 180; 192; 33] [0x434; 0x1F600]) as [(ws & s' & b & H1 & H2 & _ & _ & H5 & H6) H].
  - repeat constructor; lia.
  - repeat constructor; unfold scalar; lia.
  - split; [|exact H]. exists ws, s'. split; [exact H1|]. split; [exact H2|]. intros He. apply H6 in He. subst b. discriminate H5.
Defined.

(** Lower case: the result is a string again. *)
Lemma toLower_ok W lower s : (forall ws, Forall (unit_ok W) (lower ws)) -> bytes_ok s ->
  exists r, toLower W lower s = Some r /\ bytes_ok r.
Proof.
  intros Hl Hs. unfold toLower. destruct (utf8ToWide_chars W s Hs) as (-> & _). rewrite option_bind_Some_eq, wideToUtf8_values.
  destruct (encoded_utf8 (wide_values W 0 (lower (wide W (chars (S (length s)) s 0).1)))) as [-> Hb].
  - apply wide_values_range; [apply Hl|left; reflexivity].
  - eexists. split; [reflexivity|exact Hb].
Qed.

(** Comparing without regard to the case of ASCII letters. *)
Lemma ascii_prefix_spec f str prefix :
  ascii_prefix f str prefix = true <-> map f prefix = take (length prefix) (map asciiToLower str).
Proof.
  revert str. induction prefix as [|p prefix IH]; intros [|c str]; cbn; try (split; [reflexivity || discriminate|done]).
  rewrite andb_true_iff, IH, Z.eqb_eq. split; [intros [-> ->]; reflexivity|]. intros H. injection H as -> ->. split; reflexivity.
Qed.

Lemma asciiEqual_spec s1 s2 : asciiEqual s1 s2 = true <-> asciiMakeLower s1 = asciiMakeLower s2.
Proof.
  unfold asciiEqual, asciiMakeLower. destruct (Nat.eqb_spec (length s1) (length s2)) as [E|E]; cbn [negb].
  - rewrite ascii_prefix_spec, take_ge by (rewrite length_map; lia). split; congruence.
  - split; [discriminate|]. intros H. apply (f_equal length) in H. rewrite !length_map in H. contradiction.
Qed.
