(* ===== verification/PathUtil.v ===== *)
(** * Paths: [client/PathUtil.h], [client/Path.h], the file names of [client/Util.cpp],
    [File::isAbsolute] and [QueueManager::checkTarget]

    [win] is [_WIN32].  A position of [std::string] is a [nat]; [npos] is [None].  The loops of
    [validateFileName] search from a position and change the string there; they run with fuel and
    [None] is that it is used up, which [validateFileName_safe] excludes. *)

From S2P Require Import Prelude Text.

(** ** Searching strings *)

Fixpoint begins (pat s : list Z) : bool :=
  match pat, s with
  | [], _ => true
  | a :: pat, b :: s => (a =? b) && begins pat s
  | _ :: _, [] => false
  end.

Fixpoint find_str (pat s : list Z) : option nat :=
  if begins pat s then Some O else match s with [] => None | _ :: s => S <$> find_str pat s end.

(** [s.find(pat, i)]. *)
Definition find_at (pat s : list Z) (i : nat) : option nat := Nat.add i <$> find_str pat (drop i s).

(** [s.rfind(c)]. *)
Fixpoint rfind_from (c : Z) (s : list Z) (i : nat) (found : option nat) : option nat :=
  match s with [] => found | x :: s => rfind_from c s (S i) (if x =? c then Some i else found) end.
Definition rfind (c : Z) (s : list Z) : option nat := rfind_from c s 0 None.

Section Paths.
Context (win : bool).

Definition PATH_SEPARATOR : Z := if win then 92 else 47.

(** ** The parts of a path *)

Definition getFilePath (path : list Z) : list Z :=
  match rfind PATH_SEPARATOR path with Some i => take (i + 1) path | None => path end.

Definition getFileName (path : list Z) : list Z :=
  match rfind PATH_SEPARATOR path with Some i => drop (i + 1) path | None => path end.

(** [j != npos && j > i]. *)
Definition ext_at (path : list Z) : option nat :=
  i ← rfind 46 path;
  match rfind PATH_SEPARATOR path with Some j => if (i <? j)%nat then None else Some i | None => Some i end.

Definition getFileExtWithoutDot (path : list Z) : list Z := match ext_at path with Some i => drop (i + 1) path | None => [] end.
Definition getFileExt (path : list Z) : list Z := match ext_at path with Some i => drop i path | None => [] end.

(** [rfind(c, i - 1)] looks at the whole string when [i] is 0. *)
Definition getLastDir (path : list Z) : list Z :=
  match rfind PATH_SEPARATOR path with
  | None => []
  | Some i =>
      match rfind PATH_SEPARATOR (if (i =? 0)%nat then path else take i path) with
      | Some j => if (j <? i)%nat then take (i - j - 1) (drop (j + 1) path) else drop (j + 1) path
      | None => path
      end
  end.

Definition checkFileExt (filename ext : list Z) : bool :=
  if (length filename <=? length ext)%nat then false else isAsciiSuffix2 filename ext.

Definition appendPathSeparator (path : list Z) : list Z :=
  match last path with
  | Some c => if negb (c =? PATH_SEPARATOR) && negb (c =? 47) then path ++ [PATH_SEPARATOR] else path
  | None => path
  end.

Definition removePathSeparator (path : list Z) : list Z :=
  if win && (length path =? 3)%nat && bool_decide (path !! 1%nat = Some 58) then path
  else if bool_decide (last path = Some PATH_SEPARATOR) then removelast path else path.

Definition uriSeparatorsToPathSeparators (s : list Z) : list Z :=
  if win then map (fun c => if c =? 47 then PATH_SEPARATOR else c) s else s.

Definition toNativePathSeparators (path : list Z) : list Z :=
  if win then map (fun c => if c =? 47 then 92 else c) path else map (fun c => if c =? 92 then 47 else c) path.

Definition isReservedDirName (name : list Z) : bool :=
  match name with
  | [a] => a =? 46
  | [a; b] => (a =? 46) && (b =? 46)
  | _ => false
  end.

(** ** Valid file names *)

(** [badChars], without the 0 at its end. *)
Definition badChars : list Z := seqZ 1 31 ++ [60; 62; if win then 47 else 92; 34; 124; 63; 42].
Definition bad (c : Z) : bool := existsb (Z.eqb c) badChars.

Definition isValidFileName (s : list Z) (allowPath : bool) : bool :=
  if bool_decide (s = []) then false
  else if existsb bad s then false
  else if negb allowPath && existsb (Z.eqb PATH_SEPARATOR) s then false
  else if win then
    (* every ':' but the second letter *)
    forallb (fun p => negb (snd p =? 58) || allowPath && (fst p =? 1)%nat) (imap (fun i c => (i, c)) s)
  else true.

(** [tmp.erase(i + 1, n)] at every [pat], searching on from the same position. *)
Fixpoint erase_loop (fuel : nat) (pat : list Z) (n i : nat) (tmp : list Z) : option (list Z) :=
  match fuel with
  | O => None
  | S fuel =>
      match find_at pat tmp i with
      | None => Some tmp
      | Some i => erase_loop fuel pat n i (take (i + 1) tmp ++ drop (i + 1 + n) tmp)
      end
  end.

(** [tmp[i + 1] = tmp[i + 2] = tmp[i + 3] = '_'; i += 2]. *)
Fixpoint dotdot_loop (fuel : nat) (pat : list Z) (i : nat) (tmp : list Z) : option (list Z) :=
  match fuel with
  | O => None
  | S fuel =>
      match find_at pat tmp i with
      | None => Some tmp
      | Some i => dotdot_loop fuel pat (i + 2) (<[(i + 3)%nat := 95]> (<[(i + 2)%nat := 95]> (<[(i + 1)%nat := 95]> tmp)))
      end
  end.

(** [if (i != 0) tmp[i] = '_'; i += 1]. *)
Fixpoint dot_loop (fuel : nat) (pat : list Z) (i : nat) (tmp : list Z) : option (list Z) :=
  match fuel with
  | O => None
  | S fuel =>
      match find_at pat tmp i with
      | None => Some tmp
      | Some i => dot_loop fuel pat (i + 1) (if (i =? 0)%nat then tmp else <[i := 95]> tmp)
      end
  end.

(** A loop with enough fuel for its string. *)
Definition on (loop : nat -> list Z -> option (list Z)) (tmp : list Z) : option (list Z) := loop (2 + length tmp)%nat tmp.

Definition validateFileName (tmp : list Z) (badCharsOnly : bool) : option (list Z) :=
  let tmp := map (fun c => if bad c then 95 else c) tmp in
  if badCharsOnly then Some tmp
  else
    let tmp := if win then imap (fun i c => if (c =? 58) && negb (i =? 1)%nat then 95 else c) tmp else tmp in
    tmp ← on (fun f => erase_loop f [92; 46; 92] 2 0) tmp;
    tmp ← on (fun f => erase_loop f [47; 46; 47] 2 0) tmp;
    tmp ← on (fun f => erase_loop f [92; 92] 1 1) tmp;
    tmp ← on (fun f => erase_loop f [47; 47] 1 1) tmp;
    tmp ← on (fun f => dotdot_loop f [92; 46; 46; 92] 0) tmp;
    tmp ← on (fun f => dotdot_loop f [47; 46; 46; 47] 0) tmp;
    tmp ← on (fun f => dot_loop f [46; 92] 0) tmp;
    on (fun f => dot_loop f [46; 47] 0) tmp.

(** ** Targets of downloads *)

Definition isAbsolute (path : list Z) : bool :=
  if win then
    match path with
    | [] => false
    | c :: _ =>
        (c =? 92) || (c =? 47) ||
        (2 <? length path)%nat && bool_decide (path !! 1%nat = Some 58) &&
        (bool_decide (path !! 2%nat = Some 92) || bool_decide (path !! 2%nat = Some 47))
    end
  else bool_decide (head path = Some 47).

Inductive TargetError := TARGET_FILENAME_TOO_LONG | INVALID_TARGET_FILE | LARGER_TARGET_FILE_EXISTS.

Definition FULL_MAX_PATH : Z := 32768.
Definition PATH_MAX : Z := 4096.

(** Starts with a drive or is a UNC path. *)
Definition drive_or_unc (t : list Z) : bool :=
  match t with
  | a :: b :: c :: _ :: _ => ((b =? 58) && (c =? 92)) || ((a =? 92) && (b =? 92))
  | _ => false
  end.

(** [fileSize] is what [File::getSize] returns. *)
Definition checkTarget (fileSize : list Z -> Z) (target : list Z) (size : Z) (validate : bool) : option (TargetError + list Z) :=
  if (if win then FULL_MAX_PATH else PATH_MAX) <? Z.of_nat (length target) then Some (inl TARGET_FILENAME_TOO_LONG)
  else if negb (if win then drive_or_unc target else isAbsolute target) then Some (inl INVALID_TARGET_FILE)
  else
    t ← (if validate then validateFileName target false else Some target);
    Some (if negb (size =? -1) && (size <=? fileSize t) then inl LARGER_TARGET_FILE_EXISTS else inr t).
End Paths.

(** ** The loops *)

(** Each loop, by the characters from its position on. *)
Fixpoint undot (s : Z) (l : list Z) : list Z :=
  match l with
  | [] => []
  | a :: r => if begins [s; 46; s] l then match r with _ :: r => undot s r | [] => [] end else a :: undot s r
  end.

Fixpoint undouble (s : Z) (l : list Z) : list Z :=
  match l with [] => [] | a :: r => if begins [s; s] l then undouble s r else a :: undouble s r end.

Fixpoint nodotdot (s : Z) (l : list Z) : list Z :=
  match l with
  | [] => []
  | a :: r => if begins [s; 46; 46; s] l then match r with _ :: _ :: _ :: r => a :: 95 :: 95 :: 95 :: nodotdot s r | _ => l end else a :: nodotdot s r
  end.

Fixpoint nodot (s : Z) (l : list Z) : list Z :=
  match l with [] => [] | a :: r => (if begins [46; s] l then 95 else a) :: nodot s r end.

Lemma begins_app pat l : begins pat l = true -> exists r, l = pat ++ r.
Proof.
  revert l. induction pat as [|a pat IH]; intros l H; [exists l; reflexivity|]. destruct l as [|b l]; [discriminate|].
  cbn in H. apply andb_prop in H as [->%Z.eqb_eq H]. destruct (IH l H) as (r & ->). exists r. reflexivity.
Qed.

Lemma begins_same pat r : begins pat (pat ++ r) = true.
Proof. induction pat as [|a pat IH]; [reflexivity|]. cbn. rewrite Z.eqb_refl. exact IH. Qed.

(** A function that leaves what is before a pattern. *)
Definition leaves (pat : list Z) (f : list Z -> list Z) : Prop := f [] = [] /\ forall a r, begins pat (a :: r) = false -> f (a :: r) = a :: f r.

Lemma find_skip pat f l k : leaves pat f -> find_str pat l = Some k -> exists m r, l = m ++ pat ++ r /\ length m = k /\ f l = m ++ f (pat ++ r).
Proof.
  intros [Hn Hf]. revert k. induction l as [|a l IH]; intros k H; cbn [find_str] in H; destruct (begins pat _) eqn:E.
  - injection H as <-. destruct (begins_app _ _ E) as (r & Hr). exists [], r. cbn. rewrite <- Hr. auto.
  - discriminate.
  - injection H as <-. destruct (begins_app _ _ E) as (r & Hr). exists [], r. cbn. rewrite <- Hr. auto.
  - destruct (find_str pat l) as [n|] eqn:En; [|discriminate]. injection H as <-. destruct (IH n eq_refl) as (m & r & Hl & Hm & Hfl).
    exists (a :: m), r. rewrite Hf by exact E. rewrite Hfl, Hl. cbn. auto.
Qed.

Lemma find_none pat f l : leaves pat f -> find_str pat l = None -> f l = l.
Proof.
  intros [Hn Hf]. induction l as [|a l IH]; intros H; [exact Hn|]. cbn [find_str] in H. destruct (begins pat _) eqn:E; [discriminate|].
  destruct (find_str pat l); [discriminate|]. rewrite Hf by exact E. rewrite IH by reflexivity. reflexivity.
Qed.

Lemma find_at_app pat pre l : find_at pat (pre ++ l) (length pre) = Nat.add (length pre) <$> find_str pat l.
Proof. unfold find_at. rewrite drop_app_length. reflexivity. Qed.

Lemma leaves_undot s : leaves [s; 46; s] (undot s).
Proof. split; [reflexivity|]. intros a r H. cbn [undot]. rewrite H. reflexivity. Qed.
Lemma leaves_undouble s : leaves [s; s] (undouble s).
Proof. split; [reflexivity|]. intros a r H. cbn [undouble]. rewrite H. reflexivity. Qed.
Lemma leaves_nodotdot s : leaves [s; 46; 46; s] (nodotdot s).
Proof. split; [reflexivity|]. intros a r H. cbn [nodotdot]. rewrite H. reflexivity. Qed.
Lemma leaves_nodot s : leaves [46; s] (nodot s).
Proof. split; [reflexivity|]. intros a r H. cbn [nodot]. rewrite H. reflexivity. Qed.

(** What an erasing loop does, for a pattern whose first character is its last one. *)
Lemma erase_loop_spec s mid n f fuel pre l :
  leaves (s :: mid ++ [s]) f -> n = length (mid ++ [s]) -> (forall r, f (s :: mid ++ s :: r) = f (s :: r)) -> (length l < fuel)%nat ->
  erase_loop fuel (s :: mid ++ [s]) n (length pre) (pre ++ l) = Some (pre ++ f l).
Proof.
  intros Hf -> Hpat. revert pre l. induction fuel as [|fuel IH]; intros pre l Hl; [lia|]. cbn [erase_loop]. rewrite find_at_app.
  destruct (find_str _ l) as [k|] eqn:E; cbn [fmap option_fmap option_map].
  - destruct (find_skip _ _ _ _ Hf E) as (m & r & -> & <- & ->). rewrite <- length_app. cbn [app].
    rewrite (app_assoc pre m). set (p := pre ++ m).
    replace (take (length p + 1) (p ++ s :: (mid ++ [s]) ++ r) ++ drop (length p + 1 + length (mid ++ [s])) (p ++ s :: (mid ++ [s]) ++ r)) with (p ++ s :: r).
    + rewrite IH by (revert Hl; clear; rewrite !length_app; cbn [length app]; rewrite !length_app; cbn; lia).
      replace (f (s :: (mid ++ [s]) ++ r)) with (f (s :: r)) by (rewrite <- Hpat, <- app_assoc; reflexivity). unfold p. rewrite <- app_assoc. reflexivity.
    + rewrite take_app_add, <- drop_drop, drop_app_add. cbn [take drop]. rewrite take_0, drop_0, drop_app_length, <- app_assoc. reflexivity.
  - rewrite (find_none _ _ _ Hf E). reflexivity.
Qed.

Lemma insert_at (p q : list Z) x y k : k = length p -> <[k := y]> (p ++ x :: q) = p ++ y :: q.
Proof. intros ->. rewrite insert_app_r_alt by lia. rewrite Nat.sub_diag. reflexivity. Qed.

Lemma dotdot_loop_spec s fuel pre l : s <> 95 -> (length l < fuel)%nat ->
  dotdot_loop fuel [s; 46; 46; s] (length pre) (pre ++ l) = Some (pre ++ nodotdot s l).
Proof.
  intros Hs. revert pre l. induction fuel as [|fuel IH]; intros pre l Hl; [lia|]. cbn [dotdot_loop]. rewrite find_at_app.
  destruct (find_str _ l) as [k|] eqn:E; cbn [fmap option_fmap option_map]; [|rewrite (find_none _ _ _ (leaves_nodotdot s) E); reflexivity].
  destruct (find_skip _ _ _ _ (leaves_nodotdot s) E) as (m & r & -> & <- & ->). cbn [app]. rewrite length_app in Hl. cbn in Hl.
  replace (<[(length pre + length m + 3)%nat := 95]> _) with ((pre ++ m ++ [s; 95]) ++ 95 :: 95 :: r).
  - replace (length pre + length m + 2)%nat with (length (pre ++ m ++ [s; 95])) by (rewrite !length_app; cbn; lia).
    rewrite IH by (cbn; lia). destruct (leaves_nodotdot s) as [_ Hf].
    assert (forall r, begins [s; 46; 46; s] (95 :: r) = false) as H95 by (intros; cbn; rewrite (proj2 (Z.eqb_neq _ _) Hs); reflexivity).
    rewrite !Hf by apply H95. cbn [nodotdot begins]. rewrite !Z.eqb_refl. cbn. rewrite <- !app_assoc. reflexivity.
  - rewrite !(app_assoc pre m). set (p := pre ++ m).
    replace (p ++ s :: 46 :: 46 :: s :: r) with ((p ++ [s]) ++ 46 :: 46 :: s :: r) by (rewrite <- app_assoc; reflexivity).
    rewrite (insert_at (p ++ [s])) by (unfold p; rewrite !length_app; cbn; lia).
    replace ((p ++ [s]) ++ 95 :: 46 :: s :: r) with ((p ++ [s; 95]) ++ 46 :: s :: r) by (rewrite <- !app_assoc; reflexivity).
    rewrite (insert_at (p ++ [s; 95])) by (unfold p; rewrite !length_app; cbn; lia).
    replace ((p ++ [s; 95]) ++ 95 :: s :: r) with ((p ++ [s; 95; 95]) ++ s :: r) by (rewrite <- !app_assoc; reflexivity).
    rewrite (insert_at (p ++ [s; 95; 95])) by (unfold p; rewrite !length_app; cbn; lia).
    unfold p. rewrite <- !app_assoc. reflexivity.
Qed.

Lemma dot_loop_spec s fuel pre l : pre <> [] -> (length l < fuel)%nat ->
  dot_loop fuel [46; s] (length pre) (pre ++ l) = Some (pre ++ nodot s l).
Proof.
  revert pre l. induction fuel as [|fuel IH]; intros pre l Hp Hl; [lia|]. cbn [dot_loop]. rewrite find_at_app.
  destruct (find_str _ l) as [k|] eqn:E; cbn [fmap option_fmap option_map]; [|rewrite (find_none _ _ _ (leaves_nodot s) E); reflexivity].
  destruct (find_skip _ _ _ _ (leaves_nodot s) E) as (m & r & -> & <- & ->). cbn [app]. rewrite length_app in Hl. cbn in Hl.
  rewrite (proj2 (Nat.eqb_neq _ _)) by (destruct pre; [contradiction|discriminate]).
  rewrite (app_assoc pre m), insert_at by (rewrite length_app; reflexivity).
  replace ((pre ++ m) ++ 95 :: s :: r) with ((pre ++ m ++ [95]) ++ s :: r) by (rewrite <- !app_assoc; reflexivity).
  replace (length pre + length m + 1)%nat with (length (pre ++ m ++ [95])) by (rewrite !length_app; cbn; lia).
  rewrite IH; [|destruct pre; [contradiction|discriminate]|cbn; lia]. cbn [nodot begins]. rewrite !Z.eqb_refl. cbn [andb]. rewrite <- !app_assoc. reflexivity.
Qed.

(** The loops from their starts. *)
Definition from_second (f : list Z -> list Z) (l : list Z) : list Z := match l with [] => [] | a :: r => a :: f r end.

Lemma undot_loop s l : on (fun f => erase_loop f [s; 46; s] 2 0) l = Some (undot s l).
Proof. unfold on. apply (erase_loop_spec s [46] 2 (undot s) _ [] l (leaves_undot s) eq_refl); [|lia]. intros r. cbn. rewrite !Z.eqb_refl. reflexivity. Qed.

Lemma undouble_loop s l : on (fun f => erase_loop f [s; s] 1 1) l = Some (from_second (undouble s) l).
Proof.
  unfold on. destruct l as [|a l]; [reflexivity|].
  apply (erase_loop_spec s [] 1 (undouble s) _ [a] l (leaves_undouble s) eq_refl); [|cbn; lia]. intros r. cbn [app undouble begins]. rewrite !Z.eqb_refl. reflexivity.
Qed.

Lemma nodotdot_loop s l : s <> 95 -> on (fun f => dotdot_loop f [s; 46; 46; s] 0) l = Some (nodotdot s l).
Proof. intros Hs. unfold on. apply (dotdot_loop_spec s _ [] l Hs). lia. Qed.

Lemma nodot_loop s l : on (fun f => dot_loop f [46; s] 0) l = Some (from_second (nodot s) l).
Proof.
  unfold on. destruct l as [|a l]; [reflexivity|]. pose proof (dot_loop_spec s (1 + length (a :: l)) [a] l ltac:(discriminate) ltac:(cbn; lia)) as H1.
  pose proof (dot_loop_spec s (2 + length (a :: l)) [a] l ltac:(discriminate) ltac:(cbn; lia)) as H2. cbn [from_second].
  cbn [plus] in *. cbn [dot_loop] in *. unfold find_at in *. cbn [drop find_str length app] in *. rewrite drop_0 in *. destruct (begins [46; s] (a :: l)).
  - exact H1.
  - destruct (find_str [46; s] l) as [k|]; cbn [fmap option_fmap option_map] in *; exact H2.
Qed.

(** ** What is left *)

Abbreviation free pat l := (find_str pat l = None).

Lemma free_cons pat a l : free pat (a :: l) <-> begins pat (a :: l) = false /\ free pat l.
Proof.
  cbn [find_str]. destruct (begins pat (a :: l)); [split; [discriminate|intros [H _]; discriminate]|].
  destruct (find_str pat l); cbn; split; [discriminate|intros [_ H]; discriminate|auto|auto].
Qed.

Lemma free_nil x pat : free (x :: pat) [].
Proof. reflexivity. Qed.

(** Some characters replaced. *)
Definition masked : list Z -> list Z -> Prop := Forall2 (fun a b => b = a \/ b = 95).

Lemma masked_refl l : masked l l.
Proof. induction l; constructor; auto. Qed.

Lemma masked_begins pat l l' : Forall (fun c => c <> 95) pat -> masked l l' -> begins pat l' = true -> begins pat l = true.
Proof.
  intros Hp Hm. revert l l' Hm. induction Hp as [|c pat Hc _ IH]; intros l l' Hm; [reflexivity|].
  destruct Hm as [|a b l l' Hab Hm]; [discriminate|]. cbn. intros H. zb. destruct Hab as [-> | ->]; [|lia].
  apply andb_true_intro. split; [apply Z.eqb_eq; tauto|apply (IH _ _ Hm); tauto].
Qed.

Lemma masked_free x pat l l' : Forall (fun c => c <> 95) (x :: pat) -> masked l l' -> free (x :: pat) l -> free (x :: pat) l'.
Proof.
  intros Hp Hm. induction Hm as [|a b l l' Hab Hm IH]; [auto|]. rewrite !free_cons. intros [H1 H2]. split; [|apply IH, H2].
  destruct (begins (x :: pat) (b :: l')) eqn:E; [|reflexivity]. rewrite <- H1. symmetry. eapply masked_begins; [exact Hp| |exact E]. constructor; assumption.
Qed.

Lemma masked_nodotdot s l : masked l (nodotdot s l).
Proof.
  remember (length l) as n eqn:Hn. revert l Hn. induction n as [n IH] using lt_wf_ind. intros [|a l] ->; [constructor|]. cbn [nodotdot].
  destruct (begins _ _).
  - destruct l as [|b [|c [|d l]]]; try apply masked_refl. repeat (constructor; [auto|]). apply (IH (length l)); [cbn; lia|reflexivity].
  - constructor; [auto|]. apply (IH (length l)); [cbn; lia|reflexivity].
Qed.

Lemma masked_nodot s l : masked l (nodot s l).
Proof. induction l as [|a l IH]; constructor; [destruct (begins _ _); auto|exact IH]. Qed.

Lemma masked_from_second f l : (forall r, masked r (f r)) -> masked l (from_second f l).
Proof. intros H. destruct l; constructor; [left; reflexivity|apply H]. Qed.

Lemma undot_head s l : head (undot s l) = head l.
Proof.
  remember (length l) as n eqn:Hn. revert l Hn. induction n as [n IH] using lt_wf_ind. intros [|a l] ->; [reflexivity|]. cbn [undot].
  destruct (begins _ _) eqn:E; [|reflexivity]. destruct (begins_app _ _ E) as (r & [= -> ->]). cbn [app]. rewrite (IH (length (s :: r))); cbn; auto.
Qed.

Lemma undouble_head s l : head (undouble s l) = head l.
Proof.
  induction l as [|a l IH]; [reflexivity|]. cbn [undouble]. destruct (begins _ _) eqn:E; [|reflexivity].
  destruct (begins_app _ _ E) as (r & [= -> ->]). exact IH.
Qed.

Section Separator.
Variable s : Z.
Hypothesis Hs : s <> 95 /\ s <> 46 /\ s <> 58.

Lemma begins_heads x (l : list Z) : head l = Some x -> exists r, l = x :: r.
Proof using. destruct l; [discriminate|]. intros [= ->]. eauto. Qed.

(** [s . s] begins a list when it begins one with the same next characters. *)
Lemma free_undot l : free [s; 46; s] (undot s l).
Proof using Hs.
  remember (length l) as n eqn:Hn. revert l Hn. induction n as [n IH] using lt_wf_ind. intros [|a l] ->; [reflexivity|]. cbn [undot].
  destruct (begins _ _) eqn:E.
  { destruct l as [|b l]; [reflexivity|]. apply (IH (length l)); [cbn; lia|reflexivity]. }
  apply free_cons. split; [|apply (IH (length l)); [cbn; lia|reflexivity]].
  destruct (begins [s; 46; s] (a :: undot s l)) eqn:E2; [|reflexivity]. exfalso. destruct (begins_app _ _ E2) as (r & [= -> Hr]).
  pose proof (undot_head s l) as Hh. rewrite Hr in Hh. destruct (begins_heads 46 l (eq_sym Hh)) as (l' & ->). cbn [undot] in Hr.
  destruct (begins [s; 46; s] (46 :: l')) eqn:E3; [destruct (begins_app _ _ E3) as (? & [= H _]); lia|]. injection Hr as Hr.
  pose proof (undot_head s l') as Hh'. rewrite Hr in Hh'. destruct (begins_heads s l' (eq_sym Hh')) as (l2 & ->).
  cbn in E. rewrite !Z.eqb_refl in E. discriminate.
Qed.

Lemma free_undouble l : free [s; s] (undouble s l).
Proof using.
  induction l as [|a l IH]; [reflexivity|]. cbn [undouble]. destruct (begins [s; s] (a :: l)) eqn:E; [exact IH|].
  apply free_cons. split; [|exact IH]. destruct (begins [s; s] (a :: undouble s l)) eqn:E2; [|reflexivity]. exfalso.
  destruct (begins_app _ _ E2) as (r & [= -> Hr]). pose proof (undouble_head s l) as Hh. rewrite Hr in Hh.
  destruct (begins_heads s l (eq_sym Hh)) as (l' & ->). cbn in E. rewrite !Z.eqb_refl in E. discriminate.
Qed.

(** No [s . s] comes from [undouble], also after a first character. *)
Lemma undouble_dot a l : begins [s; 46; s] (a :: undouble s l) = true -> begins [s; 46; s] (a :: l) = true.
Proof using Hs.
  intros E. destruct (begins_app _ _ E) as (r & [= -> Hr]). pose proof (undouble_head s l) as Hh. rewrite Hr in Hh.
  destruct (begins_heads 46 l (eq_sym Hh)) as (l' & ->). cbn [undouble] in Hr.
  destruct (begins [s; s] (46 :: l')) eqn:E3; [destruct (begins_app _ _ E3) as (? & [= H _]); lia|]. injection Hr as Hr.
  pose proof (undouble_head s l') as Hh'. rewrite Hr in Hh'. destruct (begins_heads s l' (eq_sym Hh')) as (l2 & ->).
  cbn. rewrite !Z.eqb_refl. reflexivity.
Qed.

Lemma undouble_free_dot l : free [s; 46; s] l -> free [s; 46; s] (undouble s l).
Proof using Hs.
  induction l as [|a l IH]; [auto|]. rewrite free_cons. intros [H1 H2]. cbn [undouble]. destruct (begins [s; s] _); [apply IH, H2|].
  apply free_cons. split; [|apply IH, H2]. destruct (begins _ (a :: undouble s l)) eqn:E; [|reflexivity]. rewrite <- H1. symmetry. apply undouble_dot, E.
Qed.

Lemma second_free_dot l : free [s; 46; s] l -> free [s; 46; s] (from_second (undouble s) l).
Proof using Hs.
  destruct l as [|a l]; [auto|]. rewrite free_cons. intros [H1 H2]. cbn [from_second]. apply free_cons. split; [|apply undouble_free_dot, H2].
  destruct (begins _ (a :: undouble s l)) eqn:E; [|reflexivity]. rewrite <- H1. symmetry. apply undouble_dot, E.
Qed.

Lemma free_nodotdot l : free [s; 46; 46; s] (nodotdot s l).
Proof using Hs.
  assert (Forall (fun c => c <> 95) [s; 46; 46; s]) as Hp by (repeat constructor; lia).
  remember (length l) as n eqn:Hn. revert l Hn. induction n as [n IH] using lt_wf_ind. intros [|a l] ->; [reflexivity|]. cbn [nodotdot].
  destruct (begins _ _) eqn:E.
  - destruct (begins_app _ _ E) as (r & [= -> ->]). cbn [app]. rewrite !free_cons.
    assert (forall l, begins [s; 46; 46; s] (95 :: l) = false) as H95 by (intros; cbn; rewrite (proj2 (Z.eqb_neq _ _)) by lia; reflexivity).
    rewrite !H95. split; [cbn; rewrite Z.eqb_refl; reflexivity|]. repeat (split; [reflexivity|]). apply (IH (length r)); [cbn; lia|reflexivity].
  - apply free_cons. split; [|apply (IH (length l)); [cbn; lia|reflexivity]].
    destruct (begins _ (a :: nodotdot s l)) eqn:E2; [|reflexivity]. rewrite <- E. symmetry.
    eapply masked_begins; [exact Hp| |exact E2]. constructor; [auto|apply masked_nodotdot].
Qed.

Lemma free_nodot l : free [46; s] (nodot s l).
Proof using Hs.
  assert (Forall (fun c => c <> 95) [46; s]) as Hp by (repeat constructor; lia).
  induction l as [|a l IH]; [reflexivity|]. cbn [nodot]. apply free_cons. split; [|exact IH]. destruct (begins [46; s] (a :: l)) eqn:E; [reflexivity|].
  destruct (begins _ (a :: nodot s l)) eqn:E2; [|reflexivity]. rewrite <- E. symmetry.
  eapply masked_begins; [exact Hp| |exact E2]. constructor; [auto|apply masked_nodot].
Qed.
End Separator.

(** The characters stay, or are replaced. *)
Section Characters.
Variables (P : Z -> Prop) (s : Z).
Hypothesis P95 : P 95.

Lemma Forall_masked l l' : masked l l' -> Forall P l -> Forall P l'.
Proof using P95. induction 1 as [|a b l l' [-> | ->] _ IH]; [auto| |]; intros H; apply Forall_cons in H as [H1 H2]; constructor; auto. Qed.

Lemma Forall_undot l : Forall P l -> Forall P (undot s l).
Proof using.
  remember (length l) as n eqn:Hn. revert l Hn. induction n as [n IH] using lt_wf_ind. intros [|a l] -> H; [constructor|]. cbn [undot].
  apply Forall_cons in H as [H1 H2]. destruct (begins _ _).
  - destruct l as [|b l]; [constructor|]. apply (IH (length l)); [cbn; lia|reflexivity|]. apply Forall_cons in H2. apply H2.
  - constructor; [exact H1|]. apply (IH (length l)); [cbn; lia|reflexivity|exact H2].
Qed.

Lemma Forall_undouble l : Forall P l -> Forall P (undouble s l).
Proof using. induction 1 as [|a l Ha Hl IH]; [constructor|]. cbn [undouble]. destruct (begins _ _); [exact IH|constructor; assumption]. Qed.

Lemma Forall_from_second f l : (forall r, Forall P r -> Forall P (f r)) -> Forall P l -> Forall P (from_second f l).
Proof using. intros Hf. destruct 1; constructor; auto. Qed.
End Characters.

(** The four loops for a separator. *)
Definition passes (s : Z) (l : list Z) : list Z := from_second (nodot s) (nodotdot s (from_second (undouble s) (undot s l))).

Lemma passes_Forall (P : Z -> Prop) s l : P 95 -> Forall P l -> Forall P (passes s l).
Proof.
  intros HP H. unfold passes. apply (Forall_masked P HP) with (nodotdot s (from_second (undouble s) (undot s l))); [apply masked_from_second, masked_nodot|].
  apply (Forall_masked P HP) with (from_second (undouble s) (undot s l)); [apply masked_nodotdot|].
  apply Forall_from_second; [apply Forall_undouble|]. apply Forall_undot, H.
Qed.

Lemma free_absent o x pat l : In o (x :: pat) -> Forall (fun c => c <> o) l -> free (x :: pat) l.
Proof.
  intros Ho Hl. induction Hl as [|a l Ha Hl IH]; [reflexivity|]. apply free_cons. split; [|exact IH].
  destruct (begins (x :: pat) (a :: l)) eqn:E; [|reflexivity]. exfalso. destruct (begins_app _ _ E) as (r & Hr).
  assert (In o (a :: l)) as [->|Hi] by (rewrite Hr; apply in_or_app; left; exact Ho); [contradiction|].
  rewrite List.Forall_forall in Hl. apply (Hl o Hi). reflexivity.
Qed.

Lemma passes_absent o l : Forall (fun c => c <> o) l ->
  undot o l = l /\ from_second (undouble o) l = l /\ nodotdot o l = l /\ from_second (nodot o) l = l.
Proof.
  intros H. split; [|split; [|split]].
  - apply (find_none [o; 46; o]); [apply leaves_undot|]. apply (free_absent o); [left; reflexivity|exact H].
  - destruct H as [|a l Ha H]; [reflexivity|]. cbn. f_equal. apply (find_none [o; o]); [apply leaves_undouble|]. apply (free_absent o); [left; reflexivity|exact H].
  - apply (find_none [o; 46; 46; o]); [apply leaves_nodotdot|]. apply (free_absent o); [left; reflexivity|exact H].
  - destruct H as [|a l Ha H]; [reflexivity|]. cbn. f_equal. apply (find_none [46; o]); [apply leaves_nodot|]. apply (free_absent o); [right; left; reflexivity|exact H].
Qed.

(** Only the second letter is a colon. *)
Definition colon_ok (t : list Z) : Prop := Forall (fun c => c <> 58) t \/ exists a r, t = a :: 58 :: r /\ Forall (fun c => c <> 58) (a :: r).

Lemma passes_colon s l : s <> 58 -> colon_ok l -> colon_ok (passes s l).
Proof.
  intros Hs [H|(a & r & -> & H)]; [left; apply passes_Forall; [lia|exact H]|]. apply Forall_cons in H as [Ha H].
  right. unfold passes. assert (begins [s; 46; s] (a :: 58 :: r) = false) as E1 by (cbn; apply andb_false_r).
  assert (forall x r, begins (s :: x) (58 :: r) = false) as E2 by (intros; cbn; rewrite (proj2 (Z.eqb_neq _ _) Hs); reflexivity).
  assert (begins [s; 46; 46; s] (a :: 58 :: undouble s (undot s r)) = false) as E3 by (cbn; apply andb_false_r).
  cbn [undot]. rewrite E1, E2. cbn [from_second undouble]. rewrite E2. cbn [nodotdot]. rewrite E3, E2. cbn [from_second nodot].
  change (begins [46; s] (58 :: ?l)) with false. cbv iota. eexists a, _. split; [reflexivity|]. constructor; [exact Ha|].
  apply (Forall_masked (fun c => c <> 58) ltac:(cbn; lia)) with (nodotdot s (undouble s (undot s r))); [apply masked_nodot|].
  apply (Forall_masked (fun c => c <> 58) ltac:(cbn; lia)) with (undouble s (undot s r)); [apply masked_nodotdot|]. apply Forall_undouble, Forall_undot, H.
Qed.

Lemma length_undot s l : (length (undot s l) <= length l)%nat.
Proof.
  remember (length l) as n eqn:Hn. revert l Hn. induction n as [n IH] using lt_wf_ind. intros [|a l] ->; [reflexivity|]. cbn [undot].
  destruct (begins _ _); [destruct l as [|b l]; [cbn; lia|]|]; pose proof (IH (length l) ltac:(cbn; lia) l eq_refl); cbn; lia.
Qed.

Lemma passes_length s l : (length (passes s l) <= length l)%nat.
Proof.
  unfold passes. rewrite <- (Forall2_length _ _ _ (masked_from_second (nodot s) _ (masked_nodot s))), <- (Forall2_length _ _ _ (masked_nodotdot s _)).
  transitivity (length (undot s l)); [|apply length_undot]. destruct (undot s l) as [|a r]; [reflexivity|]. cbn [from_second length].
  assert (forall l, length (undouble s l) <= length l)%nat as H; [|specialize (H r); lia].
  clear. induction l as [|a l IH]; [reflexivity|]. cbn [undouble]. destruct (begins _ _); cbn; lia.
Qed.

Lemma passes_head s l : s <> 46 -> head l = Some s -> head (passes s l) = Some s.
Proof.
  intros Hs H. rewrite <- (undot_head s l) in H. unfold passes. destruct (undot s l) as [|a r]; [discriminate|]. injection H as ->.
  cbn [from_second nodotdot]. destruct (begins _ _) eqn:E; [|reflexivity]. destruct (begins_app _ _ E) as (r' & [= ->]). reflexivity.
Qed.

(** ** Validated names *)

Section Validated.
Context (win : bool).
Abbreviation sep := (PATH_SEPARATOR win).

(** What the loops look for is not found; [tidy] below says the same by the text alone. *)
Record clean (t : list Z) : Prop := {
  clean_chars : Forall (fun c => bad win c = false) t;
  clean_colon : win = true -> colon_ok t;
  clean_dot : find_at [sep; 46; sep] t 0 = None;
  clean_empty : find_at [sep; sep] t 1 = None;
  clean_dotdot : find_at [sep; 46; 46; sep] t 0 = None;
  clean_end : find_at [46; sep] t 1 = None
}.

(** The characters before the loops. *)
Definition replaced (l : list Z) : list Z :=
  let l := map (fun c => if bad win c then 95 else c) l in
  if win then imap (fun i c => if (c =? 58) && negb (i =? 1)%nat then 95 else c) l else l.

Lemma sep_ok : sep <> 95 /\ sep <> 46 /\ sep <> 58.
Proof using. unfold PATH_SEPARATOR. destruct win; lia. Qed.

Lemma bad_95 : bad win 95 = false.
Proof using. destruct win; reflexivity. Qed.

Lemma Forall_imap (P : Z -> Prop) f l : (forall i c, P c -> P (f i c)) -> Forall P l -> Forall P (imap f l).
Proof using. intros Hf H. revert f Hf. induction H as [|c l Hc _ IH]; intros f Hf; constructor; [apply Hf, Hc|]. apply IH. intros i x. apply Hf. Qed.

Lemma replaced_chars l : Forall (fun c => bad win c = false) (replaced l).
Proof using.
  unfold replaced. assert (Forall (fun c => bad win c = false) (map (fun c => if bad win c then 95 else c) l)) as H.
  { induction l as [|c l IH]; constructor; [|exact IH]. destruct (bad win c) eqn:E; [apply bad_95|exact E]. }
  destruct win eqn:E; [|exact H]. apply Forall_imap; [|exact H]. intros i c Hc. destruct (_ && _); [reflexivity|exact Hc].
Qed.

Lemma replaced_colon l : win = true -> colon_ok (replaced l).
Proof using.
  intros E. unfold replaced. rewrite E. generalize (map (fun c => if bad true c then 95 else c) l). clear l. intros l.
  assert (forall k l, (2 <= k)%nat -> Forall (fun c => c <> 58) (imap (fun i c => if (c =? 58) && negb (k + i =? 1)%nat then 95 else c) l)) as H.
  { intros k m Hk. revert k Hk. induction m as [|c m IH]; intros k Hk; constructor.
    - rewrite (proj2 (Nat.eqb_neq _ _)) by lia. cbn. rewrite andb_true_r. destruct (Z.eqb_spec c 58); lia.
    - match goal with |- Forall _ ?x => replace x with (imap (fun i c => if (c =? 58) && negb (S k + i =? 1)%nat then 95 else c) m) end; [apply IH; lia|].
      apply imap_ext. intros i x _. cbn. rewrite Nat.add_succ_r. reflexivity. }
  destruct l as [|a [|b l]]; [left; constructor|left; cbn; constructor; [|constructor]; rewrite andb_true_r; destruct (Z.eqb_spec a 58); lia|].
  pose proof (H 2%nat l ltac:(lia)) as Hl. cbn in *. rewrite andb_true_r, andb_false_r.
  assert ((if a =? 58 then 95 else a) <> 58) as Ha by (destruct (Z.eqb_spec a 58); lia).
  destruct (Z.eq_dec b 58) as [-> |Hb]; [right; eexists _, _; split; [reflexivity|]|left]; repeat (constructor; [assumption|]); exact Hl.
Qed.

Lemma other_absent l : Forall (fun c => bad win c = false) l -> Forall (fun c => c <> (if win then 47 else 92)) l.
Proof using. intros H. eapply Forall_impl; [exact H|]. cbn. intros c Hc ->. destruct win; discriminate. Qed.

Lemma validate_passes s : validateFileName win s false = Some (passes sep (replaced s)).
Proof using.
  unfold validateFileName, passes. cbv zeta. fold (replaced s).
  pose proof (other_absent _ (replaced_chars s)) as H0. pose proof sep_ok as (Hs & _). unfold PATH_SEPARATOR in *.
  set (o := if win then 47 else 92) in *. assert (95 <> o) as Ho by (unfold o; destruct win; lia).
  pose proof (Forall_undot (fun c => c <> o) (if win then 92 else 47) _ H0) as H1.
  pose proof (Forall_from_second (fun c => c <> o) (undouble (if win then 92 else 47)) _ (Forall_undouble _ _) H1) as H2.
  pose proof (Forall_masked (fun c => c <> o) Ho _ _ (masked_nodotdot (if win then 92 else 47) _) H2) as H3.
  pose proof (Forall_masked (fun c => c <> o) Ho _ _ (masked_from_second _ _ (masked_nodot (if win then 92 else 47))) H3) as H4.
  destruct (passes_absent o _ H0) as (A0 & _ & _ & _). destruct (passes_absent o _ H1) as (A1 & B1 & _ & _).
  destruct (passes_absent o _ H2) as (_ & B2 & C2 & _). destruct (passes_absent o _ H3) as (_ & _ & C3 & D3). destruct (passes_absent o _ H4) as (_ & _ & _ & D4).
  unfold o in *. clear -Hs A0 A1 B1 B2 C2 C3 D3 D4. destruct win.
  all: repeat (first [rewrite undot_loop|rewrite undouble_loop|rewrite nodotdot_loop by lia|rewrite nodot_loop]; cbn [mbind option_bind];
    rewrite ?A0, ?A1, ?B1, ?B2, ?C2, ?C3, ?D3, ?D4); reflexivity.
Qed.

Lemma find_from_0 pat l : find_at pat l 0 = None <-> free pat l.
Proof using. unfold find_at. rewrite drop_0. destruct (find_str pat l); cbn; split; congruence. Qed.

Lemma find_from_1 x pat l : find_at (x :: pat) l 1 = None <-> free (x :: pat) (tail l).
Proof using. unfold find_at. destruct l; [cbn; split; reflexivity|]. cbn [drop tail]. rewrite drop_0. destruct (find_str _ l); cbn; split; congruence. Qed.

Lemma tail_from_second f l : tail (from_second f l) = match l with [] => [] | _ :: r => f r end.
Proof using. destruct l; reflexivity. Qed.

Lemma masked_tail l l' : masked l l' -> masked (tail l) (tail l').
Proof using. destruct 1; [constructor|assumption]. Qed.

Lemma passes_clean l : Forall (fun c => bad win c = false) l -> (win = true -> colon_ok l) -> clean (passes sep l).
Proof using.
  intros Hl Hc. pose proof sep_ok as Hs.
  set (t3 := from_second (undouble sep) (undot sep l)).
  pose proof (masked_nodotdot sep t3) as M4. pose proof (masked_from_second (nodot sep) (nodotdot sep t3) (masked_nodot sep)) as M5.
  assert (Forall (fun c => c <> 95) [sep; 46; sep]) as P1 by (repeat constructor; lia).
  assert (Forall (fun c => c <> 95) [sep; sep]) as P2 by (repeat constructor; lia).
  assert (Forall (fun c => c <> 95) [sep; 46; 46; sep]) as P3 by (repeat constructor; lia).
  split.
  - apply passes_Forall; [apply bad_95|exact Hl].
  - intros Hw. apply passes_colon; [lia|apply Hc, Hw].
  - apply find_from_0. eapply masked_free; [exact P1|exact M5|]. eapply masked_free; [exact P1|exact M4|].
    apply second_free_dot, free_undot; exact Hs.
  - apply find_from_1. eapply masked_free; [exact P2|apply masked_tail, M5|]. eapply masked_free; [exact P2|apply masked_tail, M4|].
    unfold t3. rewrite tail_from_second. destruct (undot sep l); [reflexivity|apply free_undouble].
  - apply find_from_0. eapply masked_free; [exact P3|exact M5|]. apply free_nodotdot, Hs.
  - apply find_from_1. unfold passes. rewrite tail_from_second. destruct (nodotdot _ _); [reflexivity|apply free_nodot, Hs].
Qed.

Lemma imap_id (f : nat -> Z -> Z) l : (forall i c, l !! i = Some c -> f i c = c) -> imap f l = l.
Proof using. intros H. rewrite <- (list_fmap_id l) at 2. rewrite <- (imap_const id l). apply imap_ext. intros i x Hx. apply H, Hx. Qed.

(** A clean name is left as it is. *)
Lemma clean_passes t : clean t -> passes sep (replaced t) = t.
Proof using.
  intros [H1 H2 H3 H4 H5 H6]. assert (replaced t = t) as ->.
  { unfold replaced. assert (map (fun c => if bad win c then 95 else c) t = t) as ->.
    { clear -H1. induction H1 as [|c t Hc _ IH]; [reflexivity|]. cbn. rewrite Hc, IH. reflexivity. }
    destruct win eqn:E; [|reflexivity]. apply imap_id. intros i c Hi. destruct (Z.eqb_spec c 58) as [-> |]; [|reflexivity].
    destruct (Nat.eqb_spec i 1) as [-> |Hne]; [reflexivity|]. exfalso. destruct (H2 eq_refl) as [H|(a & r & -> & H)].
    - rewrite Forall_lookup in H. apply (H _ _ Hi). reflexivity.
    - apply Forall_cons in H as [Ha Hr]. destruct i as [|[|i]]; cbn in Hi; [congruence|lia|]. rewrite Forall_lookup in Hr. apply (Hr _ _ Hi). reflexivity. }
  apply find_from_0 in H3, H5. apply find_from_1 in H4, H6. unfold passes.
  rewrite (find_none _ _ _ (leaves_undot sep) H3).
  assert (from_second (undouble sep) t = t) as -> by (destruct t; [reflexivity|]; cbn; f_equal; apply (find_none _ _ _ (leaves_undouble sep) H4)).
  rewrite (find_none _ _ _ (leaves_nodotdot sep) H5). destruct t; [reflexivity|]. cbn. f_equal. apply (find_none _ _ _ (leaves_nodot sep) H6).
Qed.
End Validated.

(** *** By the text alone *)

Definition forbidden (win : bool) (c : Z) : Prop := 1 <= c <= 31 \/ c ∈ [60; 62; 34; 124; 63; 42; if win then 47 else 92].

(** [pat] stands nowhere in [t] from the position [i] on. *)
Definition absent (pat : list Z) (i : nat) (t : list Z) : Prop := forall a b, t = a ++ pat ++ b -> (length a < i)%nat.

Record tidy (win : bool) (t : list Z) : Prop := {
  tidy_chars : forall c, c ∈ t -> ~ forbidden win c;
  tidy_colon : win = true -> forall i, t !! i = Some 58 -> i = 1%nat;
  tidy_dot : absent [PATH_SEPARATOR win; 46; PATH_SEPARATOR win] 0 t;
  tidy_dotdot : absent [PATH_SEPARATOR win; 46; 46; PATH_SEPARATOR win] 0 t;
  tidy_empty : absent [PATH_SEPARATOR win; PATH_SEPARATOR win] 1 t;
  tidy_end : absent [46; PATH_SEPARATOR win] 1 t
}.

Lemma bad_forbidden win c : bad win c = false <-> ~ forbidden win c.
Proof.
  unfold bad, badChars, forbidden. rewrite existsb_app, orb_false_iff, <- !not_true_iff_false, !existsb_exists.
  assert (forall l, (exists x, In x l /\ (c =? x) = true) <-> c ∈ l) as Hl.
  { intros l. split; [intros (x & Hx & E); apply Z.eqb_eq in E as ->; apply list_elem_of_In, Hx|]. intros H. exists c. rewrite Z.eqb_refl. split; [apply list_elem_of_In, H|reflexivity]. }
  rewrite !Hl, elem_of_seqZ, !elem_of_cons, !elem_of_nil. intuition lia.
Qed.

Lemma begins_pat pat b : begins pat (pat ++ b) = true.
Proof. induction pat as [|x pat IH]; [reflexivity|]. cbn. rewrite Z.eqb_refl. exact IH. Qed.

Lemma none_absent pat l : find_str pat l = None <-> absent pat 0 l.
Proof.
  split.
  - intros H a b ->. revert H. induction a as [|x a IH]; cbn [app find_str].
    + intros H. assert (forall l, begins pat l = true -> find_str pat l <> None) as Hb by (intros []; cbn [find_str]; intros ->; discriminate).
      destruct (Hb _ (begins_pat pat b) H).
    + destruct (begins pat _); [discriminate|]. destruct (find_str pat (a ++ pat ++ b)); [discriminate|]. intros _. specialize (IH eq_refl). lia.
  - intros H. induction l as [|x l IH]; cbn [find_str]; destruct (begins pat _) eqn:E;
      try (apply begins_app in E as (r & E); specialize (H [] r E); cbn in H; lia); [reflexivity|].
    rewrite IH; [reflexivity|]. intros a b ->. specialize (H (x :: a) b eq_refl). lia.
Qed.

Lemma absent_0 pat l : find_at pat l 0 = None <-> absent pat 0 l.
Proof. rewrite find_from_0. apply none_absent. Qed.

Lemma absent_1 x pat l : find_at (x :: pat) l 1 = None <-> absent (x :: pat) 1 l.
Proof.
  rewrite find_from_1, none_absent. destruct l as [|y l]; cbn [tail].
  - split; intros H a b E; destruct a; discriminate E.
  - split.
    + intros H a b E. destruct a as [|z a]; [cbn; lia|]. injection E as <- E. specialize (H a b E). lia.
    + intros H a b ->. specialize (H (y :: a) b eq_refl). cbn in H. lia.
Qed.

Lemma colon_positions t : colon_ok t <-> forall i, t !! i = Some 58 -> i = 1%nat.
Proof.
  split.
  - intros [H|(a & r & -> & H)] i Hi.
    + rewrite Forall_forall in H. apply list_elem_of_lookup_2 in Hi. destruct (H 58 Hi eq_refl).
    + apply Forall_cons in H as [Ha H]. destruct i as [|[|i]]; [cbn in Hi; congruence|reflexivity|]. change (r !! i = Some 58) in Hi. rewrite Forall_forall in H. apply list_elem_of_lookup_2 in Hi. destruct (H 58 Hi eq_refl).
  - intros H. destruct (t !! 1%nat) as [c|] eqn:E1; [destruct (decide (c = 58)) as [->|Hc]|].
    + right. destruct t as [|a [|b r]]; try discriminate. injection E1 as ->. exists a, r. split; [reflexivity|]. apply Forall_cons. split; [intros ->; specialize (H O eq_refl); lia|].
      apply Forall_forall. intros c Hc ->. apply list_elem_of_lookup in Hc as [i Hi]. specialize (H (S (S i)) Hi). lia.
    + left. apply Forall_forall. intros x Hx ->. apply list_elem_of_lookup in Hx as [i Hi]. specialize (H i Hi) as ->. congruence.
    + left. apply Forall_forall. intros x Hx ->. apply list_elem_of_lookup in Hx as [i Hi]. specialize (H i Hi) as ->. congruence.
Qed.

Lemma clean_tidy win t : clean win t <-> tidy win t.
Proof.
  split.
  - intros [H1 H2 H3 H4 H5 H6]. split; [|intros Hw; apply colon_positions, H2, Hw|apply absent_0, H3|apply absent_0, H5|apply absent_1, H4|apply absent_1, H6].
    intros c Hc. rewrite Forall_forall in H1. apply bad_forbidden, H1, Hc.
  - intros [H1 H2 H3 H4 H5 H6]. split; [|intros Hw; apply colon_positions, H2, Hw|apply absent_0, H3|apply absent_1, H5|apply absent_0, H4|apply absent_1, H6].
    apply Forall_forall. intros c Hc. apply bad_forbidden, H1, Hc.
Qed.

(** C19.  [validateFileName] returns on every name: its loops end.  The result is never longer than the name, has no
    control character, none of [< > | ? *], no quotation mark and no separator of the other system (and on Windows no colon but as the second character), no [.] and no [..]
    between two separators, no two separators in a row but at the start, and no dot before a separator but as the first character; a name that is
    like that is left as it is, so that validating twice is the same as once.  This is about the
    directories of a path: what stands after the last separator may still be [..] or end in a dot
    ([last_name_kept]). *)
Theorem validateFileName_safe win s : exists t,
  validateFileName win s false = Some t /\ tidy win t /\ (length t <= length s)%nat /\ (tidy win s -> t = s) /\
  validateFileName win t false = Some t.
Proof.
  exists (passes (PATH_SEPARATOR win) (replaced win s)).
  assert (clean win (passes (PATH_SEPARATOR win) (replaced win s))) as Hc by (apply passes_clean; [apply replaced_chars|apply replaced_colon]).
  rewrite <- !clean_tidy. split; [apply validate_passes|]. split; [exact Hc|]. split; [|split; [apply clean_passes|rewrite validate_passes, clean_passes by exact Hc; reflexivity]].
  etransitivity; [apply passes_length|]. unfold replaced. destruct win; rewrite ?length_imap, length_map; reflexivity.
Qed.

(** "/a/.." and "/a/b." are left as they are. *)
Example last_name_kept :
  validateFileName false [47; 97; 47; 46; 46] false = Some [47; 97; 47; 46; 46] /\
  validateFileName false [47; 97; 47; 98; 46] false = Some [47; 97; 47; 98; 46].
Proof. split; reflexivity. Qed.

(** What [checkTarget] lets through on a POSIX system it lets through again, unchanged. *)
Theorem checkTarget_stable fileSize target t :
  checkTarget false fileSize target (-1) true = Some (inr t) ->
  checkTarget false fileSize t (-1) true = Some (inr t) /\ isAbsolute false t = true /\ clean false t /\ Z.of_nat (length t) <= PATH_MAX.
Proof.
  unfold checkTarget. destruct (Z.ltb_spec PATH_MAX (Z.of_nat (length target))) as [|Hl]; [discriminate|].
  destruct (isAbsolute false target) eqn:Ha; [|discriminate]. cbn [negb]. rewrite validate_passes. cbn [mbind option_bind Z.eqb negb andb].
  change (-1 =? -1) with true. cbn [negb andb]. intros [= <-]. set (t := passes _ _).
  assert (clean false t) as Hc by (apply passes_clean; [apply replaced_chars|apply replaced_colon]).
  assert (length t <= length target)%nat as Hlt by (etransitivity; [apply passes_length|]; unfold replaced; rewrite length_map; reflexivity).
  assert (isAbsolute false t = true) as ->.
  { unfold isAbsolute in *. apply bool_decide_eq_true in Ha. apply bool_decide_eq_true. apply passes_head; [discriminate|].
    destruct target; [discriminate|]. injection Ha as ->. reflexivity. }
  rewrite (proj2 (Z.ltb_ge _ _)) by lia. cbn [negb]. rewrite validate_passes, clean_passes by exact Hc. cbn [mbind option_bind].
  split; [reflexivity|]. split; [reflexivity|]. split; [exact Hc|lia].
Qed.

(** [/tmp/../a?/./b./c//d]. *)
Lemma checkTarget_stable_witness :
  checkTarget false (fun _ => 0) [47; 116; 47; 46; 46; 47; 97; 63; 47; 46; 47; 98; 46; 47; 99; 47; 47; 100] (-1) true =
    Some (inr [47; 116; 47; 95; 95; 95; 97; 95; 47; 98; 95; 47; 99; 47; 100]) /\
  checkTarget false (fun _ => 0) [47; 116; 47; 95; 95; 95; 97; 95; 47; 98; 95; 47; 99; 47; 100] (-1) true =
    Some (inr [47; 116; 47; 95; 95; 95; 97; 95; 47; 98; 95; 47; 99; 47; 100]).
Proof.
  split; [reflexivity|].
  exact (proj1 (checkTarget_stable (fun _ => 0) [47; 116; 47; 46; 46; 47; 97; 63; 47; 46; 47; 98; 46; 47; 99; 47; 47; 100] _ eq_refl)).
Defined.

(** ** The parts of a path *)

Lemma rfind_from_spec c s i found :
  (exists s1 s2, s = s1 ++ c :: s2 /\ ~ In c s2 /\ rfind_from c s i found = Some (i + length s1)%nat) \/ (~ In c s /\ rfind_from c s i found = found).
Proof.
  revert i found. induction s as [|x s IH]; intros i found; [right; split; [intros []|reflexivity]|]. cbn [rfind_from].
  destruct (IH (S i) (if x =? c then Some i else found)) as [(s1 & s2 & -> & H1 & ->)|[H1 ->]].
  - left. exists (x :: s1), s2. split; [reflexivity|]. split; [exact H1|]. f_equal. cbn. lia.
  - destruct (Z.eqb_spec x c) as [-> |Hne].
    + left. exists [], s. split; [reflexivity|]. split; [exact H1|]. f_equal. cbn. lia.
    + right. split; [|reflexivity]. intros [->|H]; [apply Hne; reflexivity|exact (H1 H)].
Qed.

(** A path with a directory is the directory and the file name, and the file name is what has no
    separator at the end; without a directory both are the path. *)
Theorem path_parts win path :
  (In (PATH_SEPARATOR win) path -> path = getFilePath win path ++ getFileName win path /\ last (getFilePath win path) = Some (PATH_SEPARATOR win)) /\
  ~ In (PATH_SEPARATOR win) (getFileName win path) /\ exists stem, path = stem ++ getFileExt win path.
Proof.
  unfold getFilePath, getFileName, rfind.
  assert (exists stem, path = stem ++ getFileExt win path) as He.
  { unfold getFileExt. destruct (ext_at win path) as [i|]; [|exists path; rewrite app_nil_r; reflexivity]. exists (take i path). rewrite take_drop. reflexivity. }
  destruct (rfind_from_spec (PATH_SEPARATOR win) path 0 None) as [(s1 & s2 & Hp & H1 & ->)|[H1 ->]].
  - cbn [plus]. assert (path = (s1 ++ [PATH_SEPARATOR win]) ++ s2) as Hp' by (rewrite <- app_assoc; exact Hp).
    replace (length s1 + 1)%nat with (length (s1 ++ [PATH_SEPARATOR win])) by (rewrite length_app; reflexivity).
    assert (take (length (s1 ++ [PATH_SEPARATOR win])) path = s1 ++ [PATH_SEPARATOR win]) as -> by (rewrite Hp'; apply take_app_length).
    assert (drop (length (s1 ++ [PATH_SEPARATOR win])) path = s2) as -> by (rewrite Hp'; apply drop_app_length). split; [|split; [exact H1|exact He]]. intros _. split; [exact Hp'|apply last_snoc].
  - split; [intros H; contradiction|]. split; [exact H1|exact He].
Qed.
