(* ===== verification/XmlReader.v ===== *)
(** * Reading XML texts: [client/SimpleXMLReader.h], [client/SimpleXMLReader.cpp] and the names
    of character sets ([client/Text.cpp])

    The reader is given a text in pieces and calls back for the start and the end of an
    element.  [x_buf] is the part of [buf] from [bufPos] on: what is before [bufPos] is not
    looked at again.  The callbacks have a state of their own and may throw.  An exception is
    [inl]; [None] is a loop that does not end ([declEncodingValue], see [encoding_hangs]) or an
    overflow in the number of a character set.
    Characters are bytes; the tests on them agree with those on a signed [char].  The strings
    of the list [elements] are in reverse order: its back is the head. *)

From S2P Require Import Prelude StrUtil Text.
From Stdlib Require Import (notations) String.

Inductive ParseState :=
| STATE_START | STATE_DECL_VERSION | STATE_DECL_VERSION_EQ | STATE_DECL_VERSION_NUM
| STATE_DECL_ENCODING | STATE_DECL_ENCODING_EQ | STATE_DECL_ENCODING_NAME
| STATE_DECL_ENCODING_NAME_APOS | STATE_DECL_ENCODING_NAME_QUOT
| STATE_DECL_STANDALONE | STATE_DECL_STANDALONE_EQ | STATE_DECL_STANDALONE_YES | STATE_DECL_END
| STATE_ELEMENT_NAME | STATE_ELEMENT_ATTR | STATE_ELEMENT_ATTR_NAME | STATE_ELEMENT_ATTR_EQ
| STATE_ELEMENT_ATTR_VALUE | STATE_ELEMENT_ATTR_VALUE_QUOT | STATE_ELEMENT_ATTR_VALUE_APOS
| STATE_ELEMENT_END_SIMPLE | STATE_ELEMENT_END | STATE_ELEMENT_END_END
| STATE_COMMENT | STATE_CDATA | STATE_CONTENT | STATE_END.

#[export] Instance ParseState_eq_dec : EqDecision ParseState.
Proof. solve_decision. Defined.

Definition MAX_NAME_SIZE : nat := 260.
(** [64 * 1024]; a [nat] of this size is only compared with. *)
Definition MAX_VALUE_SIZE : Z := 64 * 1024.
Definition MAX_NESTING : nat := 256.

(** The text of an exception, with [pos] where the reader throws it. *)
Inductive XmlError := mkError (pos : option Z) (e : String.string).

(** ** Characters *)

Definition isSpace (c : Z) : bool := (c =? 0x20) || (c =? 0x09) || (c =? 0x0d) || (c =? 0x0a).
Definition inRange (c a b : Z) : bool := (a <=? c) && (c <=? b).
Definition isNameStartChar (c : Z) : bool := (c =? 58) || inRange c 65 90 || (c =? 95) || inRange c 97 122.
Definition isNameChar (c : Z) : bool := isNameStartChar c || (c =? 45) || (c =? 46) || inRange c 48 57.
Definition isxdigit (c : Z) : bool := is_digit c || inRange c 65 70 || inRange c 97 102.

(** ** Character sets *)

Definition CHARSET_SYSTEM_DEFAULT := 0.
Definition CHARSET_UTF8 := 8.
Definition supportedCharsets : list Z := [1250; 1251; 1252; 1253; 1254; 1255; 1256; 1257; 1258; 936; 950].

(** [checkPrefix]: [pos] if the prefix is there, and the result. *)
Definition checkPrefix (s prefix : list Z) : option nat * bool :=
  if negb (isAsciiPrefix2 s prefix) then (None, false)
  else
    let pos := length prefix in
    let pos := if bool_decide (s !! pos = Some 45) then S pos else pos in
    (Some pos, (pos + 1 <? length s)%nat).

(** The position after the last dot. *)
Fixpoint after_dot (s : list Z) (i pos : nat) : nat :=
  match s with [] => pos | c :: s => after_dot s (S i) (if c =? 46 then S i else pos) end.

Definition charsetFromString (charset : list Z) : option Z :=
  let utf8 := [117; 116; 102; 45; 56] in
  let utf8NoHyp := [117; 116; 102; 56] in
  if bool_decide (charset = []) then Some CHARSET_SYSTEM_DEFAULT
  else if (length charset =? length utf8)%nat && isAsciiPrefix2 charset utf8 then Some CHARSET_UTF8
  else if (length charset =? length utf8NoHyp)%nat && isAsciiPrefix2 charset utf8NoHyp then Some CHARSET_UTF8
  else
    let pos :=
      match checkPrefix charset [119; 105; 110; 100; 111; 119; 115] with
      | (Some pos, true) => pos
      | _ =>
          match checkPrefix charset [99; 112] with
          | (Some pos, true) => pos
          | _ => after_dot charset 0 0
          end
      end in
    value ← toInt (drop pos charset);
    Some (if existsb (Z.eqb value) supportedCharsets then value else CHARSET_SYSTEM_DEFAULT).

Section Reader.
Context {A : Type}.
Context (startTag : A -> list Z -> list (list Z * list Z) -> bool -> XmlError + A)
  (endTag : A -> list Z -> list Z -> XmlError + A).
(** The system: [Text::toLower] and [Text::toUtf8] from a character set. *)
Context (toLower : list Z -> option (list Z)) (toUtf8 : list Z -> Z -> list Z).

Record Reader := mkReader {
  x_buf : list Z; x_pos : Z; x_attribs : list (list Z * list Z); x_value : list Z;
  x_encoding : list Z; x_charset : Z; x_state : ParseState; x_elements : list (list Z); x_a : A }.

Definition SimpleXMLReader_new (a : A) : Reader := mkReader [] 0 [] [] [] CHARSET_UTF8 STATE_START [] a.

(** What a parsing function does: it throws, or answers. *)
Definition XmlResult : Type := option (XmlError + (bool * Reader)).
Definition ret (b : bool) (r : Reader) : XmlResult := Some (inr (b, r)).
Definition throw (r : Reader) (e : String.string) : XmlResult := Some (inl (mkError (Some (x_pos r)) e)).

(** [f() || g()]. *)
Definition alt (f g : Reader -> XmlResult) (r : Reader) : XmlResult :=
  match f r with
  | Some (inr (false, r)) => g r
  | x => x
  end.

Definition set_buf (r : Reader) b p := mkReader b p (x_attribs r) (x_value r) (x_encoding r) (x_charset r) (x_state r) (x_elements r) (x_a r).
Definition set_xattribs (r : Reader) l := mkReader (x_buf r) (x_pos r) l (x_value r) (x_encoding r) (x_charset r) (x_state r) (x_elements r) (x_a r).
Definition set_value (r : Reader) v := mkReader (x_buf r) (x_pos r) (x_attribs r) v (x_encoding r) (x_charset r) (x_state r) (x_elements r) (x_a r).
Definition set_encoding (r : Reader) e c := mkReader (x_buf r) (x_pos r) (x_attribs r) (x_value r) e c (x_state r) (x_elements r) (x_a r).
Definition set_xstate (r : Reader) s := mkReader (x_buf r) (x_pos r) (x_attribs r) (x_value r) (x_encoding r) (x_charset r) s (x_elements r) (x_a r).
Definition set_elements (r : Reader) l := mkReader (x_buf r) (x_pos r) (x_attribs r) (x_value r) (x_encoding r) (x_charset r) (x_state r) l (x_a r).
Definition set_a (r : Reader) a := mkReader (x_buf r) (x_pos r) (x_attribs r) (x_value r) (x_encoding r) (x_charset r) (x_state r) (x_elements r) a.

Definition needChars (r : Reader) (n : nat) : bool := (n <=? length (x_buf r))%nat.
(** [buf[buf.size()]] is 0. *)
Definition charAt (r : Reader) (n : nat) : Z := nth n (x_buf r) 0.
Definition advancePos (r : Reader) (n : nat) : Reader := set_buf r (drop n (x_buf r)) (u64 (x_pos r + Z.of_nat n)).

(** The last attribute. *)
Definition back_name (l : list (list Z * list Z)) : list Z := match last l with Some a => fst a | None => [] end.
Definition back_value (l : list (list Z * list Z)) : list Z := match last l with Some a => snd a | None => [] end.
Definition set_back (l : list (list Z * list Z)) (a : list Z * list Z) : list (list Z * list Z) := removelast l ++ [a].

(** [append]: the longer string, or the exception. *)
Definition appended (str : list Z) (maxLen : Z) (t : list Z) : option (list Z) :=
  if maxLen <? Z.of_nat (length str + length t) then None else Some (str ++ t).

Definition appending (r : Reader) (str : list Z) (maxLen : Z) (t : list Z) (k : list Z -> XmlResult) : XmlResult :=
  match appended str maxLen t with None => throw r "Buffer overflow"%string | Some s => k s end.

(** ** The parts of a text *)

(** How many characters are equal; [None] at a difference. *)
Fixpoint lit_match (buf lit : list Z) (n : nat) {struct lit} : option nat :=
  match lit, buf with
  | l :: lit, b :: buf => if b =? l then lit_match buf lit (S n) else None
  | _, _ => Some n
  end.

Definition literal (lit : list Z) (withSpace : bool) (newState : ParseState) (r : Reader) : XmlResult :=
  match lit_match (x_buf r) lit 0 with
  | None => ret false r
  | Some n =>
      if (n =? length lit)%nat then
        if withSpace then
          if (n =? length (x_buf r))%nat then ret true r
          else if negb (isSpace (charAt r n)) then ret false r
          else ret true (set_xstate (advancePos r (n + 1)) newState)
        else ret true (set_xstate (advancePos r n) newState)
      else ret true r
  end.

Definition character (c : Z) (newState : ParseState) (r : Reader) : XmlResult :=
  if negb (needChars r 1) then ret true r
  else if charAt r 0 =? c then ret true (set_xstate (advancePos r 1) newState)
  else ret false r.

Fixpoint span (p : Z -> bool) (l : list Z) : nat :=
  match l with c :: l => if p c then S (span p l) else O | [] => O end.

(** [skipSpace]; the characters are appended to [value] one at a time. *)
Definition skipSpace (store : bool) (r : Reader) : XmlResult :=
  if negb (needChars r 1) then ret true r
  else
    let n := span isSpace (x_buf r) in
    let stored := if store then x_value r ++ take n (x_buf r) else x_value r in
    if (MAX_VALUE_SIZE <? Z.of_nat (length stored)) && (0 <? n)%nat && store
    then throw (advancePos r (Z.to_nat (MAX_VALUE_SIZE - Z.of_nat (length (x_value r))))) "Buffer overflow"%string
    else ret (0 <? n)%nat (set_value (advancePos r n) stored).

Definition spaceOrError (message : String.string) : Reader -> XmlResult := alt (skipSpace false) (fun r => throw r message).

Definition element (r : Reader) : XmlResult :=
  if negb (needChars r 2) then ret true r
  else
    let c := charAt r 1 in
    if (charAt r 0 =? 60) && isNameStartChar c then
      if (MAX_NESTING <=? length (x_elements r))%nat then throw r "Max nesting exceeded"%string
      else ret true (advancePos (set_elements (set_xstate r STATE_ELEMENT_NAME) ([c] :: x_elements r)) 2)
    else ret false r.

(** [elements.back()]. *)
Definition top (r : Reader) : list Z := match x_elements r with e :: _ => e | [] => [] end.
Definition set_top (r : Reader) (e : list Z) : Reader := set_elements r (match x_elements r with _ :: l => e :: l | [] => [] end).

Definition call_start (r : Reader) (simple : bool) (k : Reader -> XmlResult) : XmlResult :=
  match startTag (x_a r) (top r) (x_attribs r) simple with
  | inl e => Some (inl e)
  | inr a => k (set_xattribs (set_a r a) [])
  end.

Definition name_end (c : Z) : bool := isSpace c || (c =? 47) || (c =? 62).

Definition elementName (r : Reader) : XmlResult :=
  let i := span (fun c => negb (name_end c) && isNameChar c) (x_buf r) in
  let text := take i (x_buf r) in
  match x_buf r !! i with
  | None => appending r (top r) (Z.of_nat MAX_NAME_SIZE) text (fun s => ret true (advancePos (set_top r s) i))
  | Some c =>
      if name_end c then
        appending r (top r) (Z.of_nat MAX_NAME_SIZE) text (fun s =>
          let r := set_top r s in
          if isSpace c then ret true (advancePos (set_xstate r STATE_ELEMENT_ATTR) (i + 1))
          else if c =? 47 then ret true (advancePos (set_xstate r STATE_ELEMENT_END_SIMPLE) (i + 1))
          else call_start r false (fun r => ret true (advancePos (set_xstate r STATE_CONTENT) (i + 1))))
      else ret false r
  end.

Definition elementAttr (r : Reader) : XmlResult :=
  if negb (needChars r 1) then ret true r
  else
    let c := charAt r 0 in
    if isNameStartChar c
    then ret true (advancePos (set_xstate (set_xattribs r (x_attribs r ++ [([c], [])])) STATE_ELEMENT_ATTR_NAME) 1)
    else ret false r.

Definition elementAttrName (r : Reader) : XmlResult :=
  let i := span (fun c => negb (isSpace c || (c =? 61)) && isNameChar c) (x_buf r) in
  let text := take i (x_buf r) in
  let l := x_attribs r in
  match x_buf r !! i with
  | None => appending r (back_name l) (Z.of_nat MAX_NAME_SIZE) text (fun s => ret true (advancePos (set_xattribs r (set_back l (s, back_value l))) i))
  | Some c =>
      if isSpace c || (c =? 61) then
        appending r (back_name l) (Z.of_nat MAX_NAME_SIZE) text (fun s =>
          ret true (advancePos (set_xstate (set_xattribs r (set_back l (s, back_value l)))
            (if isSpace c then STATE_ELEMENT_ATTR_EQ else STATE_ELEMENT_ATTR_VALUE)) (i + 1)))
      else ret false r
  end.

(** [entref] on the buffer: how many characters are used and what they stand for.  [None] is
    an unknown reference, [Some (0, [])] that more characters are needed. *)
Definition dec_ref (b : list Z) (k : nat) : bool :=
  (nth 1 b 0 =? 35) && forallb is_digit (take k (drop 2 b)) && (nth (k + 2) b 0 =? 59).
Definition hex_ref (b : list Z) (k : nat) : bool :=
  (nth 1 b 0 =? 35) && ((nth 2 b 0 =? 120) || (nth 2 b 0 =? 88)) && forallb isxdigit (take k (drop 3 b)) && (nth (k + 3) b 0 =? 59).

Definition entity (b : list Z) : option (nat * list Z) :=
  let eqs l := forallb (fun p => fst p =? snd p) (combine (drop 1 b) l) in
  if (6 <? length b)%nat then
    if eqs [108; 116; 59] then Some (4%nat, [60])
    else if eqs [103; 116; 59] then Some (4%nat, [62])
    else if eqs [97; 109; 112; 59] then Some (5%nat, [38])
    else if eqs [113; 117; 111; 116; 59] then Some (6%nat, [34])
    else if eqs [97; 112; 111; 115; 59] then Some (6%nat, [39])
    else if dec_ref b 1 then Some (4%nat, [])
    else if dec_ref b 2 then Some (5%nat, [])
    else if dec_ref b 3 then Some (6%nat, [])
    else if dec_ref b 4 then Some (7%nat, [])
    else if dec_ref b 5 then Some (8%nat, [])
    else if hex_ref b 1 then Some (5%nat, [])
    else if hex_ref b 2 then Some (6%nat, [])
    else if hex_ref b 3 then Some (7%nat, [])
    else if hex_ref b 4 then Some (8%nat, [])
    else None
  else Some (O, []).

(** [entref(d)]; [upd] puts the string back. *)
Definition entref (d : list Z) (upd : Reader -> list Z -> Reader) (r : Reader) : XmlResult :=
  if MAX_VALUE_SIZE <=? Z.of_nat (length d + 1) then throw r "Buffer overflow"%string
  else
    match entity (x_buf r) with
    | Some (n, t) => ret true (advancePos (upd r (d ++ t)) n)
    | None => ret false r
    end.

Definition set_back_value (r : Reader) (v : list Z) : Reader :=
  set_xattribs r (set_back (x_attribs r) (back_name (x_attribs r), v)).

Definition elementAttrValue (r : Reader) : XmlResult :=
  let quote := if bool_decide (x_state r = STATE_ELEMENT_ATTR_VALUE_APOS) then 39 else 34 in
  let i := span (fun c => negb ((c =? quote) || (c =? 38))) (x_buf r) in
  appending r (back_value (x_attribs r)) MAX_VALUE_SIZE (take i (x_buf r)) (fun s =>
    match x_buf r !! i with
    | None => ret true (advancePos (set_back_value r s) i)
    | Some c =>
        if c =? quote then
          let s := if negb (x_charset r =? CHARSET_UTF8) then toUtf8 s (x_charset r) else s in
          ret true (advancePos (set_xstate (set_back_value r s) STATE_ELEMENT_ATTR) (i + 1))
        else entref s set_back_value (advancePos (set_back_value r s) i)
    end).

Definition elementEndSimple (r : Reader) : XmlResult :=
  if negb (needChars r 1) then ret true r
  else if charAt r 0 =? 62 then
    call_start r true (fun r => ret true (advancePos (set_xstate (set_elements r (tail (x_elements r))) STATE_CONTENT) 1))
  else ret false r.

Definition elementEndComplex (r : Reader) : XmlResult :=
  if negb (needChars r 1) then ret true r
  else if charAt r 0 =? 62 then call_start r false (fun r => ret true (advancePos (set_xstate r STATE_CONTENT) 1))
  else ret false r.

Definition declVersionNum (r : Reader) : XmlResult :=
  if negb (needChars r 5) then ret true r
  else
    let sep := charAt r 0 in
    if ((sep =? 34) || (sep =? 39)) && (charAt r 1 =? 49) && (charAt r 2 =? 46) then
      if negb (inRange (charAt r 3) 48 57) then ret false r
      else
        let n := Nat.add 4 (span (fun c => negb (c =? sep) && inRange c 0 9) (drop 4 (x_buf r))) in
        match x_buf r !! n with
        | Some c => if c =? sep then ret true (advancePos (set_xstate r STATE_DECL_ENCODING) (n + 1)) else ret false r
        | None => ret true r
        end
    else ret false r.

(** The loop of [declEncodingValue]. *)
Fixpoint encoding_loop (fuel : nat) (r : Reader) : XmlResult :=
  match fuel with
  | O => None
  | S fuel =>
      match x_buf r with
      | [] => ret true r
      | c :: _ =>
          if bool_decide (x_state r = STATE_DECL_ENCODING_NAME_APOS) && (c =? 39) ||
             bool_decide (x_state r = STATE_DECL_ENCODING_NAME_QUOT) && (c =? 34) then
            encoding ← toLower (x_encoding r);
            charset ← charsetFromString encoding;
            ret true (advancePos (set_xstate (set_encoding r encoding charset) STATE_DECL_STANDALONE) 1)
          else if c =? 38 then
            match entref (x_encoding r) (fun r e => set_encoding r e (x_charset r)) r with
            | Some (inr (true, r)) => encoding_loop fuel r
            | x => x
            end
          else
            appending r (x_encoding r) MAX_VALUE_SIZE [c] (fun s =>
              encoding_loop fuel (advancePos (set_encoding r s (x_charset r)) 1))
      end
  end.

Definition declEncodingValue (r : Reader) : XmlResult := encoding_loop (S (length (x_buf r))) r.

(** The loops of [comment] and [cdata]: the characters used and whether the end was found. *)
Fixpoint comment_loop (b : list Z) (n : nat) : nat * bool :=
  match b with
  | [] => (n, false)
  | c :: b' =>
      if c =? 45 then
        match b' with
        | c1 :: c2 :: _ => if (c1 =? 45) && (c2 =? 62) then ((n + 3)%nat, true) else comment_loop b' (S n)
        | _ => (n, false)
        end
      else comment_loop b' (S n)
  end.

Definition comment (r : Reader) : XmlResult :=
  let '(n, ended) := comment_loop (x_buf r) 0 in
  ret true (advancePos (if ended then set_xstate r STATE_CONTENT else r) n).

Fixpoint cdata_loop (b : list Z) (n : nat) : nat * bool :=
  match b with
  | [] => (n, false)
  | c :: b' =>
      if c =? 93 then
        match b' with
        | c1 :: _ => if c1 =? 93 then ((n + 2)%nat, true) else cdata_loop b' (S n)
        | [] => (n, false)
        end
      else cdata_loop b' (S n)
  end.

Definition cdata (r : Reader) : XmlResult :=
  let '(n, ended) := cdata_loop (x_buf r) 0 in
  ret true (advancePos (if ended then set_xstate r STATE_CONTENT else r) n).

Definition content (r : Reader) : XmlResult :=
  if negb (needChars r 1) then ret true r
  else
    let c := charAt r 0 in
    if c =? 60 then if bool_decide (x_value r = []) then ret false r else throw r "Mixed content not supported"%string
    else if c =? 38 then entref (x_value r) set_value r
    else appending r (x_value r) MAX_VALUE_SIZE [c] (fun s => ret true (advancePos (set_value r s) 1)).

Definition elementEnd (r : Reader) : XmlResult :=
  match x_elements r with
  | [] => ret false r
  | top :: _ =>
      if negb (needChars r (length top)) then ret true r
      else if bool_decide (take (length top) (x_buf r) = top)
      then ret true (advancePos (set_xstate r STATE_ELEMENT_END_END) (length top))
      else ret false r
  end.

Definition elementEndEnd (r : Reader) : XmlResult :=
  if negb (needChars r 1) then ret true r
  else if charAt r 0 =? 62 then
    let r := if negb (x_charset r =? CHARSET_UTF8) then set_value r (toUtf8 (x_value r) (x_charset r)) else r in
    match endTag (x_a r) (top r) (x_value r) with
    | inl e => Some (inl e)
    | inr a => ret true (advancePos (set_xstate (set_elements (set_value (set_a r a) []) (tail (x_elements r))) STATE_CONTENT) 1)
    end
  else ret false r.

(** ** The states *)

Definition step (r : Reader) : XmlResult :=
  match x_state r with
  | STATE_START =>
      alt (literal [0xef; 0xbb; 0xbf] false STATE_START)
      (alt (literal [60; 63; 120; 109; 108] true STATE_DECL_VERSION)
      (alt (literal [60; 33; 45; 45] false STATE_COMMENT)
      (alt element (spaceOrError "Expecting XML declaration, element or comment"%string)))) r
  | STATE_DECL_VERSION =>
      alt (skipSpace false) (alt (literal [118; 101; 114; 115; 105; 111; 110] false STATE_DECL_VERSION_EQ) (spaceOrError "Expecting version"%string)) r
  | STATE_DECL_VERSION_EQ => alt (character 61 STATE_DECL_VERSION_NUM) (spaceOrError "Expecting ="%string) r
  | STATE_DECL_VERSION_NUM => alt declVersionNum (spaceOrError "Expecting version number"%string) r
  | STATE_DECL_ENCODING =>
      alt (literal [101; 110; 99; 111; 100; 105; 110; 103] false STATE_DECL_ENCODING_EQ)
      (alt (literal [115; 116; 97; 110; 100; 97; 108; 111; 110; 101] false STATE_DECL_STANDALONE_EQ)
      (alt (literal [63; 62] false STATE_CONTENT) (spaceOrError "Expecting encoding | standalone | ?>"%string))) r
  | STATE_DECL_ENCODING_EQ => alt (character 61 STATE_DECL_ENCODING_NAME) (spaceOrError "Expecting ="%string) r
  | STATE_DECL_ENCODING_NAME =>
      alt (character 39 STATE_DECL_ENCODING_NAME_APOS)
      (alt (character 34 STATE_DECL_ENCODING_NAME_QUOT) (spaceOrError "Expecting encoding name start"%string)) r
  | STATE_DECL_ENCODING_NAME_APOS | STATE_DECL_ENCODING_NAME_QUOT =>
      alt declEncodingValue (spaceOrError "Expecting encoding value"%string) r
  | STATE_DECL_STANDALONE =>
      alt (literal [115; 116; 97; 110; 100; 97; 108; 111; 110; 101] false STATE_DECL_STANDALONE_EQ)
      (alt (literal [63; 62] false STATE_CONTENT) (spaceOrError "Expecting standalone | ?>"%string)) r
  | STATE_DECL_STANDALONE_EQ => alt (character 61 STATE_DECL_STANDALONE_YES) (spaceOrError "Expecting ="%string) r
  | STATE_DECL_STANDALONE_YES =>
      alt (literal [34; 121; 101; 115; 34] false STATE_DECL_END)
      (alt (literal [39; 121; 101; 115; 39] false STATE_DECL_END) (spaceOrError "Expecting standalone=yes"%string)) r
  | STATE_DECL_END => alt (literal [63; 62] false STATE_CONTENT) (spaceOrError "Expecting ?>"%string) r
  | STATE_ELEMENT_NAME => alt elementName (fun r => throw r "Error while parsing element start"%string) r
  | STATE_ELEMENT_END_SIMPLE => alt elementEndSimple (fun r => throw r "Expecting >"%string) r
  | STATE_ELEMENT_END => alt elementEnd (spaceOrError "Expecting element end"%string) r
  | STATE_ELEMENT_END_END => alt elementEndEnd (spaceOrError "Expecting >"%string) r
  | STATE_ELEMENT_ATTR =>
      alt elementAttr (alt elementEndComplex (alt (character 47 STATE_ELEMENT_END_SIMPLE)
        (spaceOrError "Expecting attribute | /> | >"%string))) r
  | STATE_ELEMENT_ATTR_NAME => alt elementAttrName (fun r => throw r "Expecting attribute name"%string) r
  | STATE_ELEMENT_ATTR_EQ => alt (character 61 STATE_ELEMENT_ATTR_VALUE) (spaceOrError "Expecting attribute ="%string) r
  | STATE_ELEMENT_ATTR_VALUE =>
      alt (character 39 STATE_ELEMENT_ATTR_VALUE_APOS)
      (alt (character 34 STATE_ELEMENT_ATTR_VALUE_QUOT) (spaceOrError "Expecting attribute value start"%string)) r
  | STATE_ELEMENT_ATTR_VALUE_APOS | STATE_ELEMENT_ATTR_VALUE_QUOT =>
      alt elementAttrValue (fun r => throw r "Expecting attribute value"%string) r
  | STATE_COMMENT => alt comment (fun r => throw r "Error while parsing comment"%string) r
  | STATE_CDATA => alt cdata (fun r => throw r "Error while parsing CDATA"%string) r
  | STATE_CONTENT =>
      alt (skipSpace true)
      (alt (literal [60; 33; 45; 45] false STATE_COMMENT)
      (alt (literal [60; 33; 91; 67; 68; 65; 84; 65; 91] false STATE_CDATA)
      (alt element
      (alt (literal [60; 47] false STATE_ELEMENT_END)
      (alt content (fun r => throw r "Expecting content, element or comment"%string)))))) r
  | STATE_END => ret false r
  end.

(** After a pass of the loop in [process] that has moved on. *)
Definition settle (old r : Reader) : Reader :=
  if bool_decide (x_state r = STATE_CONTENT) && negb (bool_decide (x_state r = x_state old)) then set_value r [] else r.

Definition stalled (old r : Reader) : bool :=
  bool_decide (x_state r = x_state old) && (length (x_buf r) =? length (x_buf old))%nat.

(** The loop of [process]: every pass but the last uses up a character. *)
Fixpoint process_loop (fuel : nat) (r : Reader) : XmlResult :=
  match fuel with
  | O => None
  | S fuel =>
      if bool_decide (x_state r = STATE_END) then ret false (set_buf r [] (x_pos r))
      else
        match step r with
        | Some (inr (_, r')) => if stalled r r' then ret true r' else process_loop fuel (settle r r')
        | x => x
        end
  end.

Definition process (r : Reader) : XmlResult := process_loop (S (length (x_buf r))) r.

(** [parse] of a piece, and of a stream whose reads return [chunks] (an empty one at the end;
    the reads after the last are empty).  [buf] grows to 64 KiB for a read, and is left so at
    the end, when nothing looks at it. *)
Definition parse (r : Reader) (data : list Z) : XmlResult := process (set_buf r (x_buf r ++ data) (x_pos r)).

Fixpoint parse_stream (r : Reader) (maxSize bytesRead : Z) (chunks : list (list Z)) : option (XmlError + Reader) :=
  let finished r :=
    if bool_decide (x_elements r = []) then Some (inr r) else Some (inl (mkError (Some (x_pos r)) "Unexpected end of stream"%string)) in
  match chunks with
  | [] => finished r
  | data :: chunks =>
      let n := bytesRead + Z.of_nat (length data) in
      if (0 <? maxSize) && (maxSize <? n) then Some (inl (mkError (Some (x_pos r)) "Greater than maximum allowed size"%string))
      else if bool_decide (data = []) then finished r
      else
        match parse r data with
        | Some (inr (true, r)) => parse_stream r maxSize n chunks
        | Some (inr (false, r)) => Some (inr r)
        | Some (inl e) => Some (inl e)
        | None => None
        end
  end.

(** [CallBack::getAttrib]. *)
Definition find_attrib (l : list (list Z * list Z)) (name : list Z) : option (list Z) :=
  snd <$> find (fun p => bool_decide (fst p = name)) l.
Definition getAttrib (attribs : list (list Z * list Z)) (name : list Z) (hint : nat) : list Z :=
  let hint := Nat.min hint (length attribs) in
  match find_attrib (drop hint attribs) name with
  | Some v => v
  | None => default [] (find_attrib (take hint attribs) name)
  end.

(** ** The loop ends *)

(** The names of the open elements are not empty. *)
Definition named (r : Reader) : Prop := Forall (fun e => e <> []) (x_elements r).

(** A function that answers has used up some characters, or has not changed the state. *)
Definition moves (r r' : Reader) : Prop :=
  named r' /\ exists n, x_buf r' = drop n (x_buf r) /\ (n <= length (x_buf r))%nat /\ (n = O -> x_state r' = x_state r).

Definition moving (f : Reader -> XmlResult) : Prop := forall r b r', named r -> f r = Some (inr (b, r')) -> moves r r'.

Lemma moves_refl r : named r -> moves r r.
Proof using. intros H. split; [exact H|]. exists O. repeat split; lia. Qed.

Lemma moves_trans r1 r2 r3 : moves r1 r2 -> moves r2 r3 -> moves r1 r3.
Proof using.
  intros (_ & n & H1 & H2 & H3) (H & m & H4 & H5 & H6). split; [exact H|]. exists (n + m)%nat. rewrite H4, H1, drop_drop.
  rewrite H1, length_drop in H5. split; [reflexivity|]. split; [lia|]. intros Hn. rewrite H6, H3 by lia. reflexivity.
Qed.

(** [advancePos] of a reader with the same characters. *)
Lemma moves_advance r r1 n : named r1 -> x_buf r1 = x_buf r -> (n <= length (x_buf r))%nat -> (n = O -> x_state r1 = x_state r) ->
  moves r (advancePos r1 n).
Proof using. intros H H1 H2 H3. split; [exact H|]. exists n. cbn. rewrite H1. auto. Qed.

Ltac some_inv H := injection H as <- <-.

Lemma moving_alt f g : moving f -> moving g -> moving (alt f g).
Proof using.
  intros Hf Hg r b r' Hn H. unfold alt in H. destruct (f r) as [[e|[[|] r1]]|] eqn:E; [discriminate| | |discriminate].
  - some_inv H. eapply Hf, E. exact Hn.
  - pose proof (Hf _ _ _ Hn E) as Hm. eapply moves_trans; [exact Hm|]. eapply Hg, H. apply Hm.
Qed.

Lemma moving_throw e : moving (fun r => throw r e).
Proof using. intros r b r' Hn H. discriminate. Qed.

Lemma span_le p l : (span p l <= length l)%nat.
Proof using. induction l as [|c l IH]; cbn; [lia|]. destruct (p c); lia. Qed.

Lemma lit_match_le buf lit n m : lit_match buf lit n = Some m -> (m <= n + length buf)%nat /\ (n <= m)%nat.
Proof using.
  revert buf n. induction lit as [|l lit IH]; intros [|b buf] n H; cbn in *; try (injection H as <-; lia).
  destruct (b =? l); [|discriminate]. apply IH in H. lia.
Qed.

Lemma moving_literal lit sp st : lit <> [] -> moving (literal lit sp st).
Proof using.
  intros Hl r b r' Hn H. unfold literal in H. destruct (lit_match _ _ _) as [n|] eqn:E; [|some_inv H; apply moves_refl; exact Hn].
  apply lit_match_le in E. destruct (Nat.eqb_spec n (length lit)) as [->|]; [|some_inv H; apply moves_refl; exact Hn].
  assert (length lit <> O) by (destruct lit; [contradiction|discriminate]). destruct sp.
  - destruct (Nat.eqb_spec (length lit) (length (x_buf r))); [some_inv H; apply moves_refl; exact Hn|].
    destruct (negb _); some_inv H; [apply moves_refl; exact Hn|]. split; [exact Hn|]. exists (length lit + 1)%nat. split; [reflexivity|]. split; lia.
  - some_inv H. split; [exact Hn|]. exists (length lit). split; [reflexivity|]. split; lia.
Qed.

Lemma needChars_le r n : needChars r n = true -> (n <= length (x_buf r))%nat.
Proof using. apply Nat.leb_le. Qed.

Ltac need H :=
  match type of H with context [needChars ?r ?n] =>
    let E := fresh "En" in destruct (needChars r n) eqn:E; cbn [negb] in H;
    [apply needChars_le in E|some_inv H; apply moves_refl; assumption] end.

Lemma moving_character c st : moving (character c st).
Proof using.
  intros r b r' Hn H. unfold character in H. need H. destruct (charAt r 0 =? c); some_inv H; [|apply moves_refl; exact Hn].
  split; [exact Hn|]. exists 1%nat. split; [reflexivity|]. split; lia.
Qed.

Lemma moving_skipSpace store : moving (skipSpace store).
Proof using.
  intros r b r' Hn H. unfold skipSpace in H. need H. destruct (_ && _ && _); [discriminate|]. some_inv H.
  split; [exact Hn|]. exists (span isSpace (x_buf r)). split; [reflexivity|]. split; [apply span_le|reflexivity].
Qed.

Lemma moving_spaceOrError e : moving (spaceOrError e).
Proof using. apply moving_alt; [apply moving_skipSpace|apply moving_throw]. Qed.

Lemma moving_element : moving element.
Proof using.
  intros r b r' Hn H. unfold element in H. need H. destruct (_ && _); [|some_inv H; apply moves_refl; exact Hn].
  destruct (_ <=? _)%nat; [discriminate|]. some_inv H. apply moves_advance; cbn; [constructor; [discriminate|exact Hn]|reflexivity|lia|discriminate].
Qed.

Lemma appending_inv r str m t k b r' : appending r str m t k = Some (inr (b, r')) -> exists s, appended str m t = Some s /\ k s = Some (inr (b, r')).
Proof using. unfold appending. destruct (appended str m t) as [s|]; [eauto|discriminate]. Qed.

Lemma call_start_inv r simple k b r' : call_start r simple k = Some (inr (b, r')) -> exists a, k (set_xattribs (set_a r a) []) = Some (inr (b, r')).
Proof using. unfold call_start. destruct (startTag _ _ _ _) as [e|a]; [discriminate|eauto]. Qed.

(** The characters up to a found one. *)
Lemma lookup_bound (l : list Z) i c : l !! i = Some c -> (i + 1 <= length l)%nat.
Proof using. intros H. apply lookup_lt_Some in H. lia. Qed.

Lemma appended_ne str m t s : appended str m t = Some s -> str <> [] -> s <> [].
Proof using. unfold appended. destruct (_ <? _); [discriminate|]. intros [= <-]. destruct str; [contradiction|discriminate]. Qed.

Lemma named_top r m t s : named r -> appended (top r) m t = Some s -> named (set_top r s).
Proof using.
  unfold named, set_top, top. intros Hn H. destruct (x_elements r) as [|e l] eqn:E; cbn; [constructor|].
  apply Forall_cons in Hn as [He Hl]. constructor; [eapply appended_ne; eassumption|exact Hl].
Qed.

Lemma named_tail r : named r -> Forall (fun e => e <> []) (tail (x_elements r)).
Proof using. unfold named. destruct 1; [constructor|assumption]. Qed.

Ltac adv := first [apply moves_refl; assumption|apply moves_advance; cbn; [first [assumption|apply named_tail; assumption]|reflexivity|lia|first [lia|reflexivity]]].

Lemma moving_elementName : moving elementName.
Proof using.
  intros r b r' Hn H. unfold elementName in H. pose proof (span_le (fun c => negb (name_end c) && isNameChar c) (x_buf r)).
  destruct (x_buf r !! _) as [c|] eqn:E.
  - apply lookup_bound in E. destruct (name_end c); [|some_inv H; adv]. apply appending_inv in H as (s & Hs & H). pose proof (named_top _ _ _ _ Hn Hs) as Ht.
    destruct (isSpace c); [some_inv H; adv|]. destruct (c =? 47); [some_inv H; adv|]. apply call_start_inv in H as (a & H). some_inv H. adv.
  - apply appending_inv in H as (s & Hs & H). pose proof (named_top _ _ _ _ Hn Hs). some_inv H. adv.
Qed.

Lemma moving_elementAttr : moving elementAttr.
Proof using. intros r b r' Hn H. unfold elementAttr in H. need H. destruct (isNameStartChar _); some_inv H; adv. Qed.

Lemma moving_elementAttrName : moving elementAttrName.
Proof using.
  intros r b r' Hn H. unfold elementAttrName in H. pose proof (span_le (fun c => negb (isSpace c || (c =? 61)) && isNameChar c) (x_buf r)).
  destruct (x_buf r !! _) as [c|] eqn:E.
  - apply lookup_bound in E. destruct (isSpace c || _); [|some_inv H; adv]. apply appending_inv in H as (s & _ & H). some_inv H. adv.
  - apply appending_inv in H as (s & _ & H). some_inv H. adv.
Qed.

Lemma dec_ref_len b k : dec_ref b k = true -> (k + 3 <= length b)%nat.
Proof using.
  unfold dec_ref. intros H. zb. destruct (Nat.le_gt_cases (k + 3) (length b)); [assumption|]. rewrite nth_overflow in * by lia. discriminate.
Qed.

Lemma hex_ref_len b k : hex_ref b k = true -> (k + 4 <= length b)%nat.
Proof using.
  unfold hex_ref. intros H. apply andb_prop in H as [_ H]. zb.
  destruct (Nat.le_gt_cases (k + 4) (length b)); [assumption|]. rewrite nth_overflow in * by lia. discriminate.
Qed.

Lemma entity_len b n t : entity b = Some (n, t) -> (n <= length b)%nat /\ (n <> O \/ (length b <= 6)%nat).
Proof using.
  unfold entity. cbv zeta. destruct (Nat.ltb_spec 6 (length b)); [|intros [= <- <-]; lia].
  repeat match goal with |- (if ?c then _ else _) = _ -> _ =>
    let E := fresh in destruct c eqn:E; [intros [= <- <-]; try apply dec_ref_len in E; try apply hex_ref_len in E; lia|] end.
  discriminate.
Qed.

Lemma moving_entref d upd : (forall r s, x_buf (upd r s) = x_buf r /\ x_state (upd r s) = x_state r /\ x_elements (upd r s) = x_elements r) -> moving (entref d upd).
Proof using.
  intros Hu r b r' Hn H. unfold entref in H. destruct (_ <=? _); [discriminate|]. destruct (entity _) as [[n t]|] eqn:E; [|some_inv H; apply moves_refl; exact Hn].
  some_inv H. apply entity_len in E as [E _]. destruct (Hu r (d ++ t)) as (H1 & H2 & H3). apply moves_advance; auto.
  unfold named. rewrite H3. exact Hn.
Qed.

Lemma set_back_value_same r s : x_buf (set_back_value r s) = x_buf r /\ x_state (set_back_value r s) = x_state r /\
  x_elements (set_back_value r s) = x_elements r.
Proof using. repeat split. Qed.

Lemma moving_elementAttrValue : moving elementAttrValue.
Proof using.
  intros r b r' Hn H. unfold elementAttrValue in H. set (q := if bool_decide _ then 39 else 34) in H.
  pose proof (span_le (fun c => negb ((c =? q) || (c =? 38))) (x_buf r)). apply appending_inv in H as (s & _ & H).
  destruct (x_buf r !! _) as [c|] eqn:E; [|some_inv H; adv]. apply lookup_bound in E. destruct (c =? q); [some_inv H; adv|].
  apply (moving_entref s set_back_value set_back_value_same) in H; [|exact Hn]. eapply moves_trans; [|exact H]. adv.
Qed.

Lemma moving_ends : moving elementEndSimple /\ moving elementEndComplex /\ moving elementEnd /\ moving elementEndEnd.
Proof using.
  split; [|split; [|split]]; intros r b r' Hn H.
  - unfold elementEndSimple in H. need H. destruct (_ =? 62); [|some_inv H; adv]. apply call_start_inv in H as (a & H). some_inv H. adv.
  - unfold elementEndComplex in H. need H. destruct (_ =? 62); [|some_inv H; adv]. apply call_start_inv in H as (a & H). some_inv H. adv.
  - unfold elementEnd in H. destruct (x_elements r) as [|e l] eqn:E; [some_inv H; adv|]. need H. destruct (bool_decide _); [|some_inv H; adv].
    some_inv H. unfold named in Hn. rewrite E in Hn. apply Forall_cons in Hn as [He Hl].
    apply moves_advance; [unfold named; cbn; rewrite E; constructor; assumption|reflexivity|exact En|]. destruct e; [contradiction|discriminate].
  - unfold elementEndEnd in H. need H. destruct (_ =? 62); [|some_inv H; adv].
    destruct (negb (x_charset r =? CHARSET_UTF8)); (destruct (endTag _ _ _) as [e|a]; [discriminate|]; some_inv H; adv).
Qed.

Lemma moving_declVersionNum : moving declVersionNum.
Proof using.
  intros r b r' Hn H. unfold declVersionNum in H. need H. destruct (_ && _ && _); [|some_inv H; adv]. destruct (negb _); [some_inv H; adv|].
  destruct (x_buf r !! _) as [c|] eqn:E; [|some_inv H; adv]. apply lookup_bound in E. destruct (c =? _); some_inv H; adv.
Qed.

Lemma moving_encoding_loop f : moving (encoding_loop f).
Proof using.
  induction f as [|f IH]; intros r b r' Hn H; [discriminate|]. cbn [encoding_loop] in H. destruct (x_buf r) as [|c l] eqn:E; [some_inv H; adv|].
  destruct (_ || _).
  { destruct (toLower _) as [e|]; [|discriminate]. cbn [mbind option_bind] in H. destruct (charsetFromString e) as [cs|]; [|discriminate].
    some_inv H. apply moves_advance; [exact Hn|reflexivity|rewrite E; cbn; lia|discriminate]. }
  destruct (c =? 38).
  - destruct (entref _ _ r) as [[e|[[|] r1]]|] eqn:Ee; try discriminate.
    + assert (moves r r1) as Hm by (eapply moving_entref, Ee; [|exact Hn]; repeat split). eapply moves_trans; [exact Hm|]. eapply IH, H. apply Hm.
    + some_inv H. eapply moving_entref, Ee; [|exact Hn]. repeat split.
  - apply appending_inv in H as (s & _ & H). eapply moves_trans; [|eapply IH, H; exact Hn].
    apply moves_advance; [exact Hn|reflexivity|rewrite E; cbn; lia|discriminate].
Qed.

Lemma comment_loop_le b n : (n <= fst (comment_loop b n) <= n + length b)%nat /\ (snd (comment_loop b n) = true -> n < fst (comment_loop b n))%nat.
Proof using.
  revert n. induction b as [|c b IH]; intros n; [cbn; split; [lia|discriminate]|]. specialize (IH (S n)).
  change (comment_loop (c :: b) n) with
    (if c =? 45 then match b with c1 :: c2 :: _ => if (c1 =? 45) && (c2 =? 62) then ((n + 3)%nat, true) else comment_loop b (S n) | _ => (n, false) end
      else comment_loop b (S n)).
  destruct comment_loop as [m e]. cbn [fst snd length] in *. assert ((n <= m <= n + S (length b))%nat /\ (e = true -> n < m)%nat) as Hm.
  { split; [lia|]. intros He. destruct IH as [_ IH]. specialize (IH He). lia. }
  destruct (c =? 45); [|exact Hm]. destruct b as [|c1 [|c2 b]]; cbn [fst snd length] in *; try (split; [lia|discriminate]).
  case_if; [cbn [fst snd]; lia|exact Hm].
Qed.

Lemma cdata_loop_le b n : (n <= fst (cdata_loop b n) <= n + length b)%nat /\ (snd (cdata_loop b n) = true -> n < fst (cdata_loop b n))%nat.
Proof using.
  revert n. induction b as [|c b IH]; intros n; [cbn; split; [lia|discriminate]|]. specialize (IH (S n)).
  change (cdata_loop (c :: b) n) with
    (if c =? 93 then match b with c1 :: _ => if c1 =? 93 then ((n + 2)%nat, true) else cdata_loop b (S n) | [] => (n, false) end
      else cdata_loop b (S n)).
  destruct cdata_loop as [m e]. cbn [fst snd length] in *. assert ((n <= m <= n + S (length b))%nat /\ (e = true -> n < m)%nat) as Hm.
  { split; [lia|]. intros He. destruct IH as [_ IH]. specialize (IH He). lia. }
  destruct (c =? 93); [|exact Hm]. destruct b as [|c1 b]; cbn [fst snd length] in *; try (split; [lia|discriminate]).
  case_if; [cbn [fst snd]; lia|exact Hm].
Qed.

Lemma moving_comment : moving comment /\ moving cdata.
Proof using.
  split; intros r b r' Hn H; [unfold comment in H; pose proof (comment_loop_le (x_buf r) 0)|unfold cdata in H; pose proof (cdata_loop_le (x_buf r) 0)];
    destruct (_ (x_buf r) _) as [n [|]] in *; cbn in *; some_inv H; apply moves_advance; try assumption; try reflexivity; try lia;
    intros; first [reflexivity|exfalso; destruct H0 as [_ H0]; specialize (H0 eq_refl); lia].
Qed.

Lemma moving_content : moving content.
Proof using.
  intros r b r' Hn H. unfold content in H. need H. destruct (_ =? 60); [destruct (bool_decide _); [some_inv H; adv|discriminate]|].
  destruct (_ =? 38); [eapply moving_entref, H; [repeat split|exact Hn]|]. apply appending_inv in H as (s & _ & H). some_inv H. adv.
Qed.

Lemma step_moves : moving step.
Proof using.
  pose proof moving_ends as (H1 & H2 & H3 & H4). pose proof moving_comment as (H5 & H6).
  intros r b r' Hn H. unfold step in H.
  assert (forall f, moving f -> f r = Some (inr (b, r')) -> moves r r') as Hf by (intros f Hf Hs; eapply Hf; eassumption).
  destruct (x_state r); try (eapply Hf; [|exact H]);
    repeat first [apply moving_alt|apply moving_spaceOrError|apply moving_throw|apply moving_literal; discriminate|apply moving_character
      |apply moving_skipSpace|apply moving_element|apply moving_elementName|apply moving_elementAttr|apply moving_elementAttrName
      |apply moving_elementAttrValue|apply moving_declVersionNum|apply moving_content|assumption].
  - intros r1 b1 r2 Hn1 Hs. eapply moving_encoding_loop; [exact Hn1|exact Hs].
  - intros r1 b1 r2 Hn1 Hs. eapply moving_encoding_loop; [exact Hn1|exact Hs].
  - intros r1 b1 r2 Hn1 Hs. some_inv Hs. apply moves_refl. exact Hn1.
Qed.

Lemma stalled_spec r r' : moves r r' -> stalled r r' = false -> (length (x_buf r') < length (x_buf r))%nat.
Proof using.
  intros (_ & n & H1 & H2 & H3) Hs. unfold stalled in Hs. rewrite H1, length_drop in *. destruct n as [|n]; [|lia].
  rewrite H3, bool_decide_true, Nat.sub_0_r, Nat.eqb_refl in Hs by reflexivity. discriminate.
Qed.

Lemma settle_same r r' : x_buf (settle r r') = x_buf r' /\ x_state (settle r r') = x_state r' /\ x_elements (settle r r') = x_elements r'.
Proof using. unfold settle. destruct (_ && _); repeat split. Qed.

Lemma settle_named r r' : named r' -> named (settle r r').
Proof using. intros H. unfold named. destruct (settle_same r r') as (_ & _ & ->). exact H. Qed.

Lemma xprocess_loop_fuel f1 f2 r : named r -> (length (x_buf r) < f1)%nat -> (length (x_buf r) < f2)%nat -> process_loop f1 r = process_loop f2 r.
Proof using.
  revert f2 r. induction f1 as [|f1 IH]; intros [|f2] r Hn H1 H2; try lia. cbn [process_loop]. destruct (bool_decide _); [reflexivity|].
  destruct (step r) as [[e|[b r']]|] eqn:E; [reflexivity| |reflexivity]. pose proof (step_moves _ _ _ Hn E) as Hm.
  destruct (stalled r r') eqn:Es; [reflexivity|]. apply (stalled_spec _ _ Hm) in Es.
  apply IH; [apply settle_named, Hm| |]; destruct (settle_same r r') as (-> & _); lia.
Qed.

Lemma process_step r b r' : named r -> x_state r <> STATE_END -> step r = Some (inr (b, r')) -> (length (x_buf r') < length (x_buf r))%nat ->
  process r = process (settle r r').
Proof using.
  intros Hn Hs He Hl. unfold process at 1. cbn [process_loop]. rewrite bool_decide_false by exact Hs. rewrite He.
  assert (stalled r r' = false) as -> by (unfold stalled; rewrite (proj2 (Nat.eqb_neq _ _)) by lia; apply andb_false_r).
  destruct (step_moves _ _ _ Hn He) as [Hn' _]. unfold process. apply xprocess_loop_fuel; [apply settle_named, Hn'| |];
    destruct (settle_same r r') as (-> & _); lia.
Qed.

(** *** When it ends *)

(** Not in the name of the encoding. *)
Definition encoding_state (s : ParseState) : bool :=
  match s with STATE_DECL_ENCODING_NAME_APOS | STATE_DECL_ENCODING_NAME_QUOT => true | _ => false end.
(** Past the declaration. *)
Definition past_decl (s : ParseState) : bool :=
  match s with
  | STATE_ELEMENT_NAME | STATE_ELEMENT_ATTR | STATE_ELEMENT_ATTR_NAME | STATE_ELEMENT_ATTR_EQ | STATE_ELEMENT_ATTR_VALUE
  | STATE_ELEMENT_ATTR_VALUE_QUOT | STATE_ELEMENT_ATTR_VALUE_APOS | STATE_ELEMENT_END_SIMPLE | STATE_ELEMENT_END | STATE_ELEMENT_END_END
  | STATE_COMMENT | STATE_CDATA | STATE_CONTENT | STATE_END => true
  | _ => false
  end.

Definition returns (f : Reader -> XmlResult) : Prop := forall r, f r <> None.

Lemma returns_alt f g : returns f -> returns g -> returns (alt f g).
Proof using. intros Hf Hg r. unfold alt. specialize (Hf r). destruct (f r) as [[e|[[|] r1]]|]; try discriminate; [apply Hg|congruence]. Qed.

Ltac unalt := repeat match goal with |- returns (alt _ _) => apply returns_alt | |- returns (spaceOrError _) => apply returns_alt end.

Lemma step_returns r : encoding_state (x_state r) = false -> step r <> None.
Proof using.
  intros Hs. unfold step.
  assert (forall f, returns f -> f r <> None) as Hf by (intros f Hf; apply Hf).
  destruct (x_state r); try discriminate Hs; try discriminate; apply Hf; unalt; intros r1; try discriminate;
    unfold literal, skipSpace, element, character, declVersionNum, elementName, elementAttr, elementAttrName, elementAttrValue, elementEndSimple,
      elementEndComplex, elementEnd, elementEndEnd, comment, cdata, content, entref, appending, call_start;
    repeat match goal with |- context [match ?x with _ => _ end] => destruct x end; discriminate.
Qed.

Definition stays (f : Reader -> XmlResult) : Prop := forall r b r', past_decl (x_state r) = true -> f r = Some (inr (b, r')) -> past_decl (x_state r') = true.

Lemma stays_alt f g : stays f -> stays g -> stays (alt f g).
Proof using.
  intros Hf Hg r b r' Hp H. unfold alt in H. destruct (f r) as [[e|[[|] r1]]|] eqn:E; try discriminate.
  - some_inv H. eapply Hf; eassumption.
  - eapply Hg; [|exact H]. eapply Hf; eassumption.
Qed.

Lemma step_stays : stays step.
Proof using.
  intros r b r' Hp H. unfold step in H.
  assert (forall f, stays f -> f r = Some (inr (b, r')) -> past_decl (x_state r') = true) as Hf by (intros f Hf Hs; eapply Hf; eassumption).
  assert (forall f, moving f -> (forall r b r', f r = Some (inr (b, r')) -> x_state r' = x_state r \/ past_decl (x_state r') = true) -> stays f) as Hg.
  { intros f _ Hs r1 b1 r2 Hp1 H1. destruct (Hs _ _ _ H1) as [-> |]; assumption. }
  destruct (x_state r); try discriminate Hp; apply Hf in H; try exact H; clear;
    repeat match goal with |- stays (alt _ _) => apply stays_alt | |- stays (spaceOrError _) => apply stays_alt end;
    intros r b r' Hp H; try discriminate;
    unfold literal, skipSpace, element, character, elementName, elementAttr, elementAttrName, elementAttrValue, elementEndSimple,
      elementEndComplex, elementEnd, elementEndEnd, comment, cdata, content, entref, appending, call_start in H;
    repeat match type of H with context [match ?x with _ => _ end] => destruct x end;
    first [discriminate H|some_inv H; first [reflexivity|exact Hp]].
Qed.

(** The position stays in its type. *)
Definition placed (r : Reader) : Prop := u64 (x_pos r) = x_pos r.
Definition placing (f : Reader -> XmlResult) : Prop := forall r b r', placed r -> f r = Some (inr (b, r')) -> placed r'.

Lemma placed_advance r n : placed (advancePos r n).
Proof using. unfold placed. cbn. unfold u64, wrap. apply Zmod_mod. Qed.

Lemma placing_alt f g : placing f -> placing g -> placing (alt f g).
Proof using.
  intros Hf Hg r b r' Hp H. unfold alt in H. destruct (f r) as [[e|[[|] r1]]|] eqn:E; try discriminate.
  - some_inv H. eapply Hf; eassumption.
  - eapply Hg; [|exact H]. eapply Hf; eassumption.
Qed.

Lemma placing_encoding f : placing (encoding_loop f).
Proof using.
  induction f as [|f IH]; intros r b r' Hp H; [discriminate|]. cbn [encoding_loop] in H. destruct (x_buf r) as [|c l]; [some_inv H; exact Hp|].
  destruct (_ || _).
  { destruct (toLower _) as [e|]; [|discriminate]. cbn in H. destruct (charsetFromString e); [|discriminate]. some_inv H. apply placed_advance. }
  destruct (c =? 38).
  - unfold entref in H. destruct (_ <=? _); [discriminate|]. destruct (entity (x_buf r)) as [[n t]|]; [|some_inv H; exact Hp].
    eapply IH; [|exact H]. apply placed_advance.
  - unfold appending in H. destruct (appended _ _ _); [|discriminate]. eapply IH; [|exact H]. apply placed_advance.
Qed.

Lemma step_placed : placing step.
Proof using.
  intros r b r' Hp H. unfold step in H.
  assert (forall f, placing f -> f r = Some (inr (b, r')) -> placed r') as Hf by (intros f Hf Hs; eapply Hf; eassumption).
  destruct (x_state r); apply Hf in H; try exact H; clear H;
    repeat match goal with |- placing (alt _ _) => apply placing_alt | |- placing (spaceOrError _) => apply placing_alt | |- placing declEncodingValue => intros ? ? ?; apply placing_encoding end;
    intros r1 b1 r2 Hp1 H; try discriminate;
    unfold literal, skipSpace, element, character, declVersionNum, elementName, elementAttr, elementAttrName, elementAttrValue, elementEndSimple,
      elementEndComplex, elementEnd, elementEndEnd, comment, cdata, content, entref, appending, call_start in H;
    repeat match type of H with context [match ?x with _ => _ end] => destruct x end;
    first [discriminate H|some_inv H; first [exact Hp1|apply placed_advance|refine (placed_advance r1 _)]].
Qed.

(** Past the name of the encoding. *)
Definition past_encoding (s : ParseState) : bool :=
  match s with
  | STATE_DECL_STANDALONE | STATE_DECL_STANDALONE_EQ | STATE_DECL_STANDALONE_YES | STATE_DECL_END => true
  | _ => past_decl s
  end.

Lemma past_decl_encoding s : past_decl s = true -> past_encoding s = true.
Proof using. destruct s; first [reflexivity|discriminate|auto]. Qed.

(** The states past the encoding lead to no others. *)
Definition stays_past (f : Reader -> XmlResult) : Prop :=
  forall r b r', past_encoding (x_state r) = true -> f r = Some (inr (b, r')) -> past_encoding (x_state r') = true.

Lemma stays_past_alt f g : stays_past f -> stays_past g -> stays_past (alt f g).
Proof using.
  intros Hf Hg r b r' Hp H. unfold alt in H. destruct (f r) as [[e|[[|] r1]]|] eqn:E; try discriminate.
  - some_inv H. eapply Hf; eassumption.
  - eapply Hg; [|exact H]. eapply Hf; eassumption.
Qed.

(** Only the loop over its name changes the encoding. *)
Definition keeps_encoding (f : Reader -> XmlResult) : Prop := forall r b r', f r = Some (inr (b, r')) -> x_encoding r' = x_encoding r.

Lemma keeps_encoding_alt f g : keeps_encoding f -> keeps_encoding g -> keeps_encoding (alt f g).
Proof using.
  intros Hf Hg r b r' H. unfold alt in H. destruct (f r) as [[e|[[|] r1]]|] eqn:E; try discriminate.
  - some_inv H. eapply Hf; eassumption.
  - rewrite (Hg _ _ _ H). eapply Hf; eassumption.
Qed.

Ltac step_parts H :=
  unfold literal, skipSpace, element, character, declVersionNum, elementName, elementAttr, elementAttrName, elementAttrValue, elementEndSimple,
    elementEndComplex, elementEnd, elementEndEnd, comment, cdata, content, entref, appending, call_start in H;
  repeat match type of H with context [match ?x with _ => _ end] => destruct x end.

Lemma step_stays_past : stays_past step.
Proof using.
  intros r b r' Hp H. unfold step in H.
  assert (forall f, stays_past f -> f r = Some (inr (b, r')) -> past_encoding (x_state r') = true) as Hf by (intros f Hf Hs; eapply Hf; eassumption).
  destruct (x_state r); try discriminate Hp; apply Hf in H; try exact H; clear;
    repeat match goal with |- stays_past (alt _ _) => apply stays_past_alt | |- stays_past (spaceOrError _) => apply stays_past_alt end;
    intros r b r' Hp H; try discriminate; step_parts H; first [discriminate H|some_inv H; first [reflexivity|exact Hp]].
Qed.

Lemma step_keeps_encoding r b r' : encoding_state (x_state r) = false -> step r = Some (inr (b, r')) -> x_encoding r' = x_encoding r.
Proof using.
  intros Hs H. unfold step in H.
  assert (forall f, keeps_encoding f -> f r = Some (inr (b, r')) -> x_encoding r' = x_encoding r) as Hf by (intros f Hf Hr; eapply Hf; eassumption).
  destruct (x_state r); try discriminate Hs; apply Hf in H; try exact H; clear;
    repeat match goal with |- keeps_encoding (alt _ _) => apply keeps_encoding_alt | |- keeps_encoding (spaceOrError _) => apply keeps_encoding_alt end;
    intros r b r' H; try discriminate; step_parts H; first [discriminate H|some_inv H; reflexivity].
Qed.

(** Every name of an encoding that starts with [enc] and goes on with characters of the text that follow one another
    is one whose number, if it has one, fits. *)
Definition names_fit (enc buf : list Z) : Prop :=
  forall u w v, buf = u ++ w ++ v -> toLower (enc ++ w) ≫= charsetFromString <> None.

Lemma names_fit_drop enc buf n : names_fit enc buf -> names_fit enc (drop n buf).
Proof using.
  intros H u w v E. apply (H (take n buf ++ u) w v). rewrite <- app_assoc, <- E. symmetry. apply take_drop.
Qed.

(** The loop over the name without a reference: it ends past the encoding, or has read all characters. *)
Lemma no_amp_encoding r f : ~ In 38 (x_buf r) -> (forall w v, x_buf r = w ++ v -> toLower (x_encoding r ++ w) ≫= charsetFromString <> None) -> (length (x_buf r) < f)%nat ->
  encoding_loop f r <> None /\
  forall b r', encoding_loop f r = Some (inr (b, r')) -> b = true /\
    (past_encoding (x_state r') = true \/ (x_buf r' = [] /\ x_encoding r' = x_encoding r ++ x_buf r)).
Proof using.
  revert r. induction f as [|f IH]; intros r Ha Ht Hf; [lia|]. cbn [encoding_loop].
  destruct (x_buf r) as [|c l] eqn:E; [split; [discriminate|]; intros b r' H; some_inv H; split; [reflexivity|]; right; rewrite E, app_nil_r; auto|]. destruct (_ || _).
  { specialize (Ht [] (c :: l) eq_refl). rewrite app_nil_r in Ht. destruct (toLower _) as [e|]; cbn in *; [|congruence].
    destruct (charsetFromString e); [|congruence]. split; [discriminate|]. intros b r' H. some_inv H. auto. }
  destruct (Z.eqb_spec c 38) as [-> |_]; [exfalso; apply Ha; left; reflexivity|]. unfold appending. destruct (appended _ _ _) as [s|] eqn:Es; [|split; discriminate].
  assert (s = x_encoding r ++ [c]) as -> by (unfold appended in Es; destruct (_ <? _); congruence).
  set (r1 := advancePos (set_encoding r (x_encoding r ++ [c]) (x_charset r)) 1). assert (Eb : x_buf r1 = l) by (cbn; rewrite E; reflexivity).
  destruct (IH r1) as [I1 I2]; [rewrite Eb; intros H; apply Ha; right; exact H| |rewrite Eb; cbn in Hf; lia|].
  - intros w v Ew. rewrite Eb in Ew. specialize (Ht (c :: w) v ltac:(rewrite Ew; reflexivity)). cbn [r1 advancePos set_buf set_encoding x_encoding].
    rewrite <- app_assoc. exact Ht.
  - split; [exact I1|]. intros b r' H. destruct (I2 b r' H) as [-> [Hp|[Hb He]]]; [auto|]. split; [reflexivity|]. right. split; [exact Hb|].
    rewrite He, Eb. cbn. rewrite <- app_assoc. reflexivity.
Qed.

(** What is needed for the loop to end: the name of the encoding is read, or the text has no reference and no name
    of an encoding whose number overflows. *)
Definition can_end (r : Reader) : Prop :=
  past_encoding (x_state r) = true \/ (~ In 38 (x_buf r) /\ names_fit (x_encoding r) (x_buf r)).

Lemma encoding_step r : encoding_state (x_state r) = true -> ~ In 38 (x_buf r) -> names_fit (x_encoding r) (x_buf r) ->
  step r = declEncodingValue r /\ step r <> None /\
  forall b r', step r = Some (inr (b, r')) -> past_encoding (x_state r') = true \/ (x_buf r' = [] /\ x_encoding r' = x_encoding r ++ x_buf r).
Proof using.
  intros He Ha Ht. destruct (no_amp_encoding r (S (length (x_buf r))) Ha (fun w v => Ht [] w v) ltac:(lia)) as [H1 H2].
  change (encoding_loop (S (length (x_buf r))) r) with (declEncodingValue r) in *.
  assert (step r = declEncodingValue r) as Es; [|rewrite Es; split; [reflexivity|]; split; [exact H1|]; intros b r' H; apply (H2 b r' H)].
  unfold step. destruct (x_state r); try discriminate He; unfold alt at 1; destruct (declEncodingValue r) as [[e|[[|] r1]]|]; try reflexivity;
    destruct (H2 false r1 eq_refl); discriminate.
Qed.

Lemma can_end_step r : can_end r -> step r <> None.
Proof using.
  intros Hc. destruct (encoding_state (x_state r)) eqn:He; [|apply step_returns, He]. destruct Hc as [Hc|[Ha Ht]].
  - destruct (x_state r); discriminate.
  - apply encoding_step; assumption.
Qed.

Lemma settle_encoding r r' : x_encoding (settle r r') = x_encoding r'.
Proof using. unfold settle. destruct (_ && _); reflexivity. Qed.

Lemma can_end_moves r b r' : named r -> can_end r -> step r = Some (inr (b, r')) -> can_end (settle r r').
Proof using.
  intros Hn Hc H. unfold can_end. rewrite settle_encoding. destruct (settle_same r r') as (-> & -> & _). destruct Hc as [Hp|[Ha Ht]].
  { left. eapply step_stays_past; eassumption. }
  destruct (step_moves _ _ _ Hn H) as (_ & n & Eb & _).
  assert (~ In 38 (x_buf r')) as Ha'.
  { rewrite Eb. intros Hi. apply Ha. rewrite <- (take_drop n (x_buf r)). apply in_or_app. right. exact Hi. }
  destruct (encoding_state (x_state r)) eqn:He.
  - destruct (encoding_step r He Ha Ht) as (_ & _ & Hs). destruct (Hs b r' H) as [Hp|[Hb ->]]; [left; exact Hp|right]. split; [exact Ha'|].
    rewrite Hb. intros u w v E. destruct u, w, v; try discriminate. rewrite app_nil_r. apply (Ht [] (x_buf r) []). rewrite app_nil_r. reflexivity.
  - right. split; [exact Ha'|]. rewrite (step_keeps_encoding _ _ _ He H), Eb. apply names_fit_drop, Ht.
Qed.

Lemma process_loop_returns f r : named r -> can_end r -> (length (x_buf r) < f)%nat -> process_loop f r <> None.
Proof using.
  revert r. induction f as [|f IH]; intros r Hn Hc Hf; [lia|]. cbn [process_loop]. destruct (bool_decide _); [discriminate|].
  pose proof (can_end_step r Hc) as Hs. destruct (step r) as [[e|[b r']]|] eqn:E; [discriminate| |congruence].
  pose proof (step_moves _ _ _ Hn E) as Hm. destruct (stalled r r') eqn:Es; [discriminate|]. apply (stalled_spec _ _ Hm) in Es.
  apply IH; [apply settle_named, Hm|eapply can_end_moves; eassumption|]. destruct (settle_same r r') as (-> & _). lia.
Qed.

Lemma process_loop_rest f r b r' : named r -> process_loop f r = Some (inr (b, r')) ->
  named r' /\ exists n, (n <= length (x_buf r))%nat /\ (b = true -> x_buf r' = drop n (x_buf r)).
Proof using.
  revert r. induction f as [|f IH]; intros r Hn H; [discriminate|]. cbn [process_loop] in H. destruct (bool_decide _).
  { some_inv H. split; [exact Hn|]. exists O. split; [lia|discriminate]. }
  destruct (step r) as [[e|[b1 r1]]|] eqn:E; try discriminate. pose proof (step_moves _ _ _ Hn E) as Hm. pose proof Hm as (Hn1 & n & H1 & H2 & H3).
  destruct (stalled r r1); [some_inv H; split; [exact Hn1|]; exists n; auto|].
  destruct (IH _ (settle_named r r1 Hn1) H) as (Hn' & m & Hm1 & Hm2). split; [exact Hn'|]. destruct (settle_same r r1) as (Hb & _).
  rewrite Hb, H1 in *. rewrite length_drop in Hm1. exists (n + m)%nat. split; [lia|]. intros Hbt. rewrite Hm2 by exact Hbt. apply drop_drop.
Qed.

(** With the start of a reference at the end of the characters, the loop over the name of the
    encoding does not end: [entref] asks for more characters, and nobody gets them. *)
Lemma encoding_stuck f r l : x_buf r = 38 :: l -> (length l <= 5)%nat -> Z.of_nat (length (x_encoding r) + 1) < MAX_VALUE_SIZE ->
  encoding_loop f r = None.
Proof using.
  revert r. induction f as [|f IH]; intros r Hb Hl He; [reflexivity|]. cbn [encoding_loop]. rewrite Hb.
  change (38 =? 39) with false. change (38 =? 34) with false. rewrite !andb_false_r. change (38 =? 38) with true. cbn [orb].
  unfold entref. rewrite (proj2 (Z.leb_gt _ _) He). rewrite Hb. unfold entity.
  rewrite (proj2 (Nat.ltb_ge 6 (length (38 :: l)))) by (cbn; lia). apply IH; cbn [advancePos set_buf set_encoding x_buf x_encoding].
  - rewrite Hb. apply drop_0.
  - exact Hl.
  - rewrite app_nil_r. exact He.
Qed.

(** C20.  [process] returns, with the characters it cannot use yet kept, on every text past the name of the
    encoding in the XML declaration, so on every text after the declaration.  Before that it returns if
    the text has no reference ([&]) and no part of it, put after the part of a name read already, is
    the name of an encoding that [Text::toLower] does not return on or whose number does not fit into
    an [int]; the latter would overflow in [charsetFromString].  The names of the open elements are not
    empty, as the reader keeps them.  With the start of a reference in the name of the encoding at the end
    of the characters, the loop over that name does not end, whatever the number of passes. *)
Theorem process_returns r :
  named r ->
  (can_end r -> exists x, process r = Some x /\
     match x with
     | inr (b, r') => named r' /\ exists n, (n <= length (x_buf r))%nat /\ (b = true -> x_buf r' = drop n (x_buf r))
     | inl _ => True
     end) /\
  (forall l, encoding_state (x_state r) = true -> x_buf r = 38 :: l -> (length l <= 5)%nat ->
     Z.of_nat (length (x_encoding r) + 1) < MAX_VALUE_SIZE ->
     process r = None /\ forall passes, encoding_loop passes r = None).
Proof using.
  intros Hn. split.
  - intros Hc. pose proof (process_loop_returns (S (length (x_buf r))) r Hn Hc ltac:(lia)) as Hp. unfold process.
    destruct (process_loop _ r) as [x|] eqn:E; [|congruence]. exists x. split; [reflexivity|]. destruct x as [e|[b r']]; [exact I|].
    eapply process_loop_rest; eassumption.
  - intros l Hs Hb Hl He. split; [|intros f; apply (encoding_stuck f r l); assumption]. unfold process. cbn [process_loop]. rewrite bool_decide_false by (intros H; rewrite H in Hs; discriminate).
    assert (step r = None) as ->; [|reflexivity].
    unfold step. destruct (x_state r); try discriminate Hs; unfold alt at 1; unfold declEncodingValue; rewrite (encoding_stuck _ _ l) by assumption; reflexivity.
Qed.
End Reader.

(** *** Examples *)

Definition no_start (a : unit) (name : list Z) (l : list (list Z * list Z)) (simple : bool) : XmlError + unit := inr tt.
Definition no_end (a : unit) (name data : list Z) : XmlError + unit := inr tt.

(** [<?xml version='1.0' encoding='&]: the loop does not end. *)
Example encoding_hangs : parse no_start no_end (fun s => Some s) (fun s _ => s) (SimpleXMLReader_new tt)
  [60; 63; 120; 109; 108; 32; 118; 101; 114; 115; 105; 111; 110; 61; 39; 49; 46; 48; 39; 32; 101; 110; 99; 111; 100; 105; 110; 103; 61; 39; 38] = None.
Proof. vm_compute. reflexivity. Qed.

(** The parts of a text that follow one another. *)
Definition parts (l : list Z) : list (list Z) :=
  flat_map (fun i => map (fun j => take j (drop i l)) (seq 0 (S (length l)))) (seq 0 (S (length l))).

Lemma names_fit_parts toLower enc buf :
  forallb (fun w => bool_decide (is_Some (toLower (enc ++ w) ≫= charsetFromString))) (parts buf) = true -> names_fit toLower enc buf.
Proof.
  intros H u w v E. rewrite forallb_forall in H.
  enough (In w (parts buf)) as Hw; [destruct (bool_decide_eq_true_1 _ (H w Hw)) as [x ->]; discriminate|]. clear H.
  apply in_flat_map. exists (length u). rewrite E, !length_app. split; [apply in_seq; lia|]. apply in_map_iff. exists (length w).
  split; [|apply in_seq; lia]. rewrite drop_app_length, take_app_length. reflexivity.
Qed.

(** [<?xml version='1.0' encoding='utf-8'?><]: a text from its start on. *)
Definition sample_decl : list Z :=
  [60; 63; 120; 109; 108; 32; 118; 101; 114; 115; 105; 111; 110; 61; 39; 49; 46; 48; 39; 32;
   101; 110; 99; 111; 100; 105; 110; 103; 61; 39; 117; 116; 102; 45; 56; 39; 63; 62; 60].

Lemma process_returns_witness :
  (exists x, process no_start no_end (fun s => Some s) (fun s _ => s) (mkReader [60; 65; 47; 62; 60] 0 [] [] [] 8 STATE_CONTENT [] tt) = Some x) /\
  (exists x, process no_start no_end (fun s => Some s) (fun s _ => s) (mkReader sample_decl 0 [] [] [] 8 STATE_START [] tt) = Some x) /\
  process no_start no_end (fun s => Some s) (fun s _ => s) (mkReader [38; 97] 0 [] [] [] 8 STATE_DECL_ENCODING_NAME_QUOT [] tt) = None.
Proof.
  split; [|split].
  - destruct (process_returns no_start no_end (fun s => Some s) (fun s _ => s) (mkReader [60; 65; 47; 62; 60] 0 [] [] [] 8 STATE_CONTENT [] tt)) as [H _];
      [constructor|]. destruct H as (x & Hx & _); [left; reflexivity|]. exists x. exact Hx.
  - destruct (process_returns no_start no_end (fun s => Some s) (fun s _ => s) (mkReader sample_decl 0 [] [] [] 8 STATE_START [] tt)) as [H _];
      [constructor|]. destruct H as (x & Hx & _); [|exists x; exact Hx]. right. split.
    + change (~ In 38 sample_decl). intros Hi. apply list_elem_of_In in Hi. revert Hi. apply (bool_decide_unpack (~ _)). vm_compute. exact I.
    + apply names_fit_parts. vm_compute. reflexivity.
  - refine (proj1 (proj2 (process_returns no_start no_end (fun s => Some s) (fun s _ => s) (mkReader [38; 97] 0 [] [] [] 8 STATE_DECL_ENCODING_NAME_QUOT [] tt)
      (Forall_nil_2 _)) [97] _ _ _ _)); [reflexivity|reflexivity|cbn; lia|reflexivity].
Defined.
