(* ===== verification/XmlText.v ===== *)
(** * Written XML text and how it is read: [client/SimpleXML.cpp], [client/SimpleXMLReader.cpp]

    The escapes of a text that is written, and what the reader makes of a tag, of its attributes
    and of white space that were written that way, for any listener: the lemmas below join the
    two for the documents ([SimpleXML]) and for the queue file ([QueueXml]). *)

From S2P Require Import Prelude StrUtil Text XmlReader.
From Stdlib Require Import (notations) String.

(** ** Escapes *)

Definition lt_text := [38; 108; 116; 59].
Definition gt_text := [38; 103; 116; 59].
Definition amp_text := [38; 97; 109; 112; 59].
Definition apos_text := [38; 97; 112; 111; 115; 59].
Definition quot_text := [38; 113; 117; 111; 116; 59].

(** The characters of [chars]. *)
Definition special (isAttrib : bool) (c : Z) : bool :=
  (c =? 60) || (c =? 38) || (c =? 62) || isAttrib && ((c =? 39) || (c =? 34)).

Definition reference (c : Z) : list Z :=
  if c =? 60 then lt_text else if c =? 38 then amp_text else if c =? 62 then gt_text
  else if c =? 39 then apos_text else if c =? 34 then quot_text else [c].

(** The loop of [escape] for writing: what it puts in is passed over. *)
Fixpoint escape_store (isAttrib : bool) (str : list Z) : list Z :=
  match str with
  | [] => []
  | c :: str => (if special isAttrib c then reference c else [c]) ++ escape_store isAttrib str
  end.

(** [str.compare(i + 1, n, t, n) == 0]. *)
Definition starts (t s : list Z) : bool := bool_decide (take (length t) s = t).

(** The loop for reading. *)
Fixpoint escape_load (fuel : nat) (isAttrib : bool) (str : list Z) : list Z :=
  match fuel, str with
  | S fuel, c :: r =>
      if c =? 38 then
        if starts (tail lt_text) r then 60 :: escape_load fuel isAttrib (drop 3 r)
        else if starts (tail amp_text) r then 38 :: escape_load fuel isAttrib (drop 4 r)
        else if starts (tail gt_text) r then 62 :: escape_load fuel isAttrib (drop 3 r)
        else if isAttrib && starts (tail apos_text) r then 39 :: escape_load fuel isAttrib (drop 5 r)
        else if isAttrib && starts (tail quot_text) r then 34 :: escape_load fuel isAttrib (drop 5 r)
        else c :: escape_load fuel isAttrib r
      else c :: escape_load fuel isAttrib r
  | _, _ => []
  end.

Definition escape (toUtf8 : list Z -> Z -> list Z) (str : list Z) (isAttrib isLoading : bool) (encoding : Z) : list Z :=
  if isLoading then
    let str := escape_load (length str) isAttrib str in
    if negb (encoding =? CHARSET_UTF8) then toUtf8 str encoding else str
  else escape_store isAttrib str.

Definition needsEscape (str : list Z) (isAttrib isLoading : bool) (encoding : Z) : bool :=
  negb (encoding =? CHARSET_UTF8) || existsb (if isLoading then Z.eqb 38 else special isAttrib) str.

Definition needsEscapeAttrib (str : list Z) : bool := existsb (special true) str.
Definition escapeAttrib (str : list Z) : list Z :=
  if needsEscapeAttrib str then escape (fun s _ => s) str true false CHARSET_UTF8 else str.

(** A string as it is written: the static [escape] of a [const string&], with UTF-8, and the
    same steps in [appendAttribString] and [toXML]. *)
Definition stored (isAttrib : bool) (s : list Z) : list Z :=
  if needsEscape s isAttrib false CHARSET_UTF8 then escape (fun s _ => s) s isAttrib false CHARSET_UTF8 else s.

Lemma stored_escape b s : stored b s = escape_store b s.
Proof.
  unfold stored, needsEscape, escape. cbn [negb orb Z.eqb CHARSET_UTF8 Pos.eqb]. destruct (existsb (special b) s) eqn:E; [reflexivity|].
  induction s as [|c s IH]; [reflexivity|]. cbn in E. apply orb_false_elim in E as [E1 E2]. cbn [escape_store]. rewrite E1, <- IH by exact E2. reflexivity.
Qed.

Definition utf8Header : list Z :=
  [60; 63; 120; 109; 108; 32; 118; 101; 114; 115; 105; 111; 110; 61; 34; 49; 46; 48; 34; 32; 101; 110; 99; 111; 100; 105; 110; 103; 61; 34;
   117; 116; 102; 45; 56; 34; 32; 115; 116; 97; 110; 100; 97; 108; 111; 110; 101; 61; 34; 121; 101; 115; 34; 63; 62; 13; 10].

Definition tabs (n : nat) : list Z := replicate n 9.

(** ** Reading back *)

Section Reading.
Context {A : Type} (startTag : A -> list Z -> list (list Z * list Z) -> bool -> XmlError + A) (endTag : A -> list Z -> list Z -> XmlError + A).
Context (toLower : list Z -> option (list Z)) (toUtf8 : list Z -> Z -> list Z).
Variable enc : list Z.

Abbreviation xprocess := (process startTag endTag toLower toUtf8).
Abbreviation xstep := (step startTag endTag toLower toUtf8).

(** The reader in UTF-8, up to the position. *)
Definition rd st buf attribs value els (a : A) : Z -> Reader := fun p => mkReader buf p attribs value enc CHARSET_UTF8 st els a.

(** The position stays in its type. *)
Definition leads (s1 s2 : Z -> Reader) : Prop := forall p, u64 p = p -> exists p', u64 p' = p' /\ xprocess (s1 p) = xprocess (s2 p').

Lemma leads_refl s : leads s s.
Proof using. intros p Hp. eauto. Qed.

Lemma leads_trans s1 s2 s3 : leads s1 s2 -> leads s2 s3 -> leads s1 s3.
Proof using. intros H1 H2 p Hp. destruct (H1 p Hp) as (p1 & Hp1 & ->). apply H2, Hp1. Qed.

Definition open_names (els : list (list Z)) : Prop := Forall (fun e => e <> []) els.

(** One pass of the loop. *)
Lemma leads_step st buf attribs value els a st' buf' attribs' value' els' a' :
  open_names els -> st <> STATE_END -> (length buf' < length buf)%nat ->
  (forall p, exists p', xstep (rd st buf attribs value els a p) = ret true (rd st' buf' attribs' value' els' a' p')) ->
  leads (rd st buf attribs value els a)
    (rd st' buf' attribs' (if bool_decide (st' = STATE_CONTENT) && negb (bool_decide (st' = st)) then [] else value') els' a').
Proof using.
  intros Hn Hst Hl Hs p Hu. destruct (Hs p) as (p' & Hp). exists p'.
  split; [exact (step_placed startTag endTag toLower toUtf8 (rd st buf attribs value els a p) true (rd st' buf' attribs' value' els' a' p') Hu Hp)|].
  rewrite (process_step startTag endTag toLower toUtf8 (rd st buf attribs value els a p) true (rd st' buf' attribs' value' els' a' p') Hn Hst Hp Hl). unfold settle. cbn [x_state rd]. destruct (_ && _); reflexivity.
Qed.

(** *** The parts *)

Lemma alt_no {B} (f g : Reader -> XmlResult) (r r1 : @Reader B) : f r = ret false r1 -> alt f g r = g r1.
Proof using. unfold alt. intros ->. reflexivity. Qed.

Lemma skip_none store st c b attribs v els a p : isSpace c = false ->
  skipSpace store (rd st (c :: b) attribs v els a p) = ret false (rd st (c :: b) attribs v els a (u64 (p + 0))).
Proof using.
  intros Hc. unfold skipSpace, needChars, rd. cbn [x_buf length Nat.leb negb span]. rewrite Hc. change (0 <? 0)%nat with false.
  rewrite andb_false_r. cbn [andb]. destruct store; cbn; rewrite ?app_nil_r; reflexivity.
Qed.

Lemma literal_no lit sp st' st b attribs v els a p : lit_match b lit 0 = None ->
  literal lit sp st' (rd st b attribs v els a p) = ret false (rd st b attribs v els a p).
Proof using. intros H. unfold literal. cbn [x_buf rd]. rewrite H. reflexivity. Qed.

(** The tests of [STATE_CONTENT] on a character that starts nothing. *)
Lemma content_char c c1 b attribs v els a p : isSpace c = false -> c <> 60 ->
  xstep (rd STATE_CONTENT (c :: c1 :: b) attribs v els a p) =
  alt content (fun r => throw r "Expecting content, element or comment"%string) (rd STATE_CONTENT (c :: c1 :: b) attribs v els a (u64 (p + 0))).
Proof using.
  intros Hs Hc. unfold step. cbn [x_state rd]. erewrite alt_no by (apply skip_none; exact Hs).
  assert (forall l, lit_match (c :: c1 :: b) (60 :: l) 0 = None) as Hl by (intros l; cbn; rewrite (proj2 (Z.eqb_neq _ _) Hc); reflexivity).
  erewrite alt_no by (apply literal_no, Hl). erewrite alt_no by (apply literal_no, Hl).
  erewrite alt_no; [|unfold element; cbn; rewrite (proj2 (Z.eqb_neq _ _) Hc); reflexivity]. erewrite alt_no by (apply literal_no, Hl). reflexivity.
Qed.

(** Before a tag. *)
Lemma content_lt c b attribs v els a p : c <> 33 ->
  xstep (rd STATE_CONTENT (60 :: c :: b) attribs v els a p) =
  alt element (alt (literal [60; 47] false STATE_ELEMENT_END) (alt content (fun r => throw r "Expecting content, element or comment"%string)))
    (rd STATE_CONTENT (60 :: c :: b) attribs v els a (u64 (p + 0))).
Proof using.
  intros Hc. unfold step. cbn [x_state rd]. erewrite alt_no by (apply skip_none; reflexivity).
  assert (forall l, lit_match (60 :: c :: b) (60 :: 33 :: l) 0 = None) as Hl by (intros l; cbn; rewrite (proj2 (Z.eqb_neq _ _) Hc); reflexivity).
  erewrite alt_no by (apply literal_no, Hl). erewrite alt_no by (apply literal_no, Hl). reflexivity.
Qed.

Lemma name_start_ne c x : isNameStartChar c = true -> isNameStartChar x = false -> c <> x.
Proof using. intros H1 H2 ->. congruence. Qed.

Lemma open_bracket c b v els a : isNameStartChar c = true -> (length els < 256)%nat -> open_names els ->
  leads (rd STATE_CONTENT (60 :: c :: b) [] v els a) (rd STATE_ELEMENT_NAME b [] v ([c] :: els) a).
Proof using.
  intros Hc Hl Hn. refine (leads_step _ _ _ _ _ _ STATE_ELEMENT_NAME b [] v ([c] :: els) a Hn _ _ _); [discriminate|cbn; lia|].
  intros p. rewrite content_lt by (apply (name_start_ne c 33 Hc); reflexivity). unfold alt at 1. unfold element.
  set (r := rd _ _ _ _ _ _ _). change (needChars r 2) with true. change (charAt r 1) with c. change (charAt r 0 =? 60) with true.
  rewrite Hc. change (x_elements r) with els. rewrite (proj2 (Nat.leb_gt MAX_NESTING (length els))) by exact Hl. cbn [negb andb].
  eexists. reflexivity.
Qed.

Lemma span_app p cs x rest : forallb p cs = true -> p x = false -> span p (cs ++ x :: rest) = length cs /\ (cs ++ x :: rest) !! length cs = Some x /\
  take (length cs) (cs ++ x :: rest) = cs /\ drop (length cs + 1) (cs ++ x :: rest) = rest.
Proof using.
  intros Hcs Hx. split; [|split; [|split]].
  - induction cs as [|c cs IH]; cbn in *; [rewrite Hx; reflexivity|]. apply andb_prop in Hcs as [-> Hcs]. rewrite IH by exact Hcs. reflexivity.
  - apply list_lookup_middle. reflexivity.
  - apply take_app_length.
  - rewrite drop_app_add'; reflexivity.
Qed.

Lemma name_char_ok c : isNameChar c = true -> negb (name_end c) && isNameChar c = true /\ negb (isSpace c || (c =? 61)) && isNameChar c = true.
Proof using. unfold isNameChar, isNameStartChar, inRange, name_end, isSpace. intros H. split; lia. Qed.

Lemma name_chars_ok cs : forallb isNameChar cs = true ->
  forallb (fun c => negb (name_end c) && isNameChar c) cs = true /\ forallb (fun c => negb (isSpace c || (c =? 61)) && isNameChar c) cs = true.
Proof using.
  induction cs as [|c cs IH]; [split; reflexivity|]. cbn [forallb]. intros H. apply andb_prop in H as [Hc H].
  destruct (name_char_ok c Hc) as [-> ->]. apply IH, H.
Qed.

Lemma appended_ok str m t : Z.of_nat (length str + length t) <= m -> appended str m t = Some (str ++ t).
Proof using. intros H. unfold appended. rewrite (proj2 (Z.ltb_ge _ _)) by lia. reflexivity. Qed.

(** A name: its first character has been read. *)
Definition name_ok (n : list Z) : Prop := match n with c :: cs => isNameStartChar c = true /\ forallb isNameChar cs = true | [] => False end /\ (length n <= 260)%nat.

Lemma name_not_nil n : name_ok n -> n <> [].
Proof using. intros [H _] ->. exact H. Qed.

(** The end of the name of an element, and of its start. *)
Lemma element_name cs x rest c v els a a' : name_ok (c :: cs) -> open_names els -> name_end x = true ->
  (x = 62 -> startTag a (c :: cs) [] false = inr a') ->
  leads (rd STATE_ELEMENT_NAME (cs ++ x :: rest) [] v ([c] :: els) a)
    (if isSpace x then rd STATE_ELEMENT_ATTR rest [] v ((c :: cs) :: els) a
     else if x =? 47 then rd STATE_ELEMENT_END_SIMPLE rest [] v ((c :: cs) :: els) a
     else rd STATE_CONTENT rest [] [] ((c :: cs) :: els) a').
Proof using.
  intros [[_ Hcs] Hl] Hn Hx Hstart. destruct (name_chars_ok cs Hcs) as [Hcs' _].
  destruct (span_app (fun c => negb (name_end c) && isNameChar c) cs x rest Hcs') as (H1 & H2 & H3 & H4); [rewrite Hx; reflexivity|].
  assert (open_names ([c] :: els)) as Hn' by (constructor; [discriminate|exact Hn]).
  assert (length rest < length (cs ++ x :: rest))%nat as Hlt by (rewrite length_app; cbn; lia).
  assert (forall p, xstep (rd STATE_ELEMENT_NAME (cs ++ x :: rest) [] v ([c] :: els) a p) =
    let r := rd STATE_ELEMENT_NAME (cs ++ x :: rest) [] v ((c :: cs) :: els) a p in
    if isSpace x then ret true (advancePos (set_xstate r STATE_ELEMENT_ATTR) (length cs + 1))
    else if x =? 47 then ret true (advancePos (set_xstate r STATE_ELEMENT_END_SIMPLE) (length cs + 1))
    else ret true (advancePos (set_xstate (set_xattribs (set_a r a') []) STATE_CONTENT) (length cs + 1))) as Hs.
  { intros p. unfold step. cbn [x_state rd]. unfold alt, elementName. cbn [x_buf rd]. rewrite H1, H2, H3, Hx. unfold appending.
    rewrite appended_ok by (cbn in *; unfold MAX_NAME_SIZE; lia). destruct (isSpace x) eqn:Es; [reflexivity|]. destruct (x =? 47) eqn:E47; [reflexivity|].
    unfold call_start, rd, top. cbn [x_a x_attribs x_elements set_top set_elements tail]. change ([c] ++ cs) with (c :: cs). rewrite Hstart; [reflexivity|].
    unfold name_end in Hx. rewrite Es, E47 in Hx. cbn in Hx. apply Z.eqb_eq, Hx. }
  destruct (isSpace x); [|destruct (x =? 47)].
  - refine (leads_step _ _ _ _ _ _ STATE_ELEMENT_ATTR rest [] v ((c :: cs) :: els) a Hn' _ Hlt _); [discriminate|].
    intros p. rewrite Hs. eexists. unfold advancePos, rd. cbn [x_buf set_xstate set_buf]. rewrite H4. reflexivity.
  - refine (leads_step _ _ _ _ _ _ STATE_ELEMENT_END_SIMPLE rest [] v ((c :: cs) :: els) a Hn' _ Hlt _); [discriminate|].
    intros p. rewrite Hs. eexists. unfold advancePos, rd. cbn [x_buf set_xstate set_buf]. rewrite H4. reflexivity.
  - refine (leads_step _ _ _ _ _ _ STATE_CONTENT rest [] v ((c :: cs) :: els) a' Hn' _ Hlt _); [discriminate|].
    intros p. rewrite Hs. eexists. unfold advancePos, rd. cbn [x_buf set_xstate set_buf set_xattribs set_a]. rewrite H4. reflexivity.
Qed.

(** *** Attributes *)

Lemma skip_some store st pre c b attribs v els a p : forallb isSpace pre = true -> pre <> [] -> isSpace c = false ->
  (store = true -> Z.of_nat (length (v ++ pre)) <= MAX_VALUE_SIZE) ->
  skipSpace store (rd st (pre ++ c :: b) attribs v els a p) =
  ret true (rd st (c :: b) attribs (if store then v ++ pre else v) els a (u64 (p + Z.of_nat (length pre)))).
Proof using.
  intros Hp Hne Hc Hl. destruct (span_app isSpace pre c b Hp Hc) as (H1 & _ & H3 & _). unfold skipSpace, needChars.
  cbn [x_buf x_value rd]. rewrite (proj2 (Nat.leb_le 1 _)) by (rewrite length_app; cbn; lia). cbn [negb]. rewrite H1, H3.
  assert (0 < length pre)%nat as Hpos by (destruct pre; [contradiction|cbn; lia]). rewrite (proj2 (Nat.ltb_lt 0 _) Hpos).
  assert ((MAX_VALUE_SIZE <? Z.of_nat (length (if store then v ++ pre else v))) && true && store = false) as ->.
  { destruct store; [|apply andb_false_r]. rewrite (proj2 (Z.ltb_ge _ _)) by (apply Hl; reflexivity). reflexivity. }
  unfold ret, rd, advancePos, set_value, set_buf. cbn. rewrite drop_app_length. reflexivity.
Qed.

Lemma attr_space c rest attribs v els a : open_names els -> isSpace c = false ->
  leads (rd STATE_ELEMENT_ATTR (32 :: c :: rest) attribs v els a) (rd STATE_ELEMENT_ATTR (c :: rest) attribs v els a).
Proof using.
  intros Hn Hc. refine (leads_step _ _ _ _ _ _ STATE_ELEMENT_ATTR (c :: rest) attribs _ els a Hn _ _ _); [discriminate|cbn; lia|].
  intros p. eexists. unfold step. cbn [x_state rd]. erewrite alt_no by reflexivity. erewrite alt_no by reflexivity. erewrite alt_no by reflexivity.
  unfold spaceOrError, alt. pose proof (skip_some false STATE_ELEMENT_ATTR [32] c rest attribs v els a p) as H. cbn [app] in H.
  rewrite H; [reflexivity|reflexivity|discriminate|exact Hc|discriminate].
Qed.

Lemma set_back_app l a b : set_back (l ++ [a]) b = l ++ [b].
Proof using. unfold set_back. rewrite removelast_last. reflexivity. Qed.

Lemma back_app l a : back_name (l ++ [a]) = fst a /\ back_value (l ++ [a]) = snd a.
Proof using. unfold back_name, back_value. rewrite last_snoc. split; reflexivity. Qed.

Lemma attr_name c cs b attribs v els a : open_names els -> name_ok (c :: cs) ->
  leads (rd STATE_ELEMENT_ATTR (c :: cs ++ 61 :: 34 :: b) attribs v els a) (rd STATE_ELEMENT_ATTR_VALUE_QUOT b (attribs ++ [(c :: cs, [])]) v els a).
Proof using.
  intros Hn [[Hc Hcs] Hl]. apply leads_trans with (rd STATE_ELEMENT_ATTR_NAME (cs ++ 61 :: 34 :: b) (attribs ++ [([c], [])]) v els a).
  { refine (leads_step _ _ _ _ _ _ STATE_ELEMENT_ATTR_NAME _ _ v els a Hn _ _ _); [discriminate|cbn; lia|].
    intros p. eexists. unfold step. cbn [x_state rd]. unfold alt, elementAttr. cbn [needChars x_buf rd length Nat.leb negb charAt nth]. rewrite Hc. reflexivity. }
  apply leads_trans with (rd STATE_ELEMENT_ATTR_VALUE (34 :: b) (attribs ++ [(c :: cs, [])]) v els a).
  { refine (leads_step _ _ _ _ _ _ STATE_ELEMENT_ATTR_VALUE _ _ v els a Hn _ _ _); [discriminate|rewrite length_app; cbn; lia|].
    destruct (name_chars_ok cs Hcs) as [_ Hcs'].
    destruct (span_app (fun c => negb (isSpace c || (c =? 61)) && isNameChar c) cs 61 (34 :: b) Hcs' eq_refl) as (H1 & H2 & H3 & H4).
    intros p. eexists. unfold step. cbn [x_state rd]. unfold alt, elementAttrName. cbn [x_buf rd x_attribs]. rewrite H1, H2, H3.
    change (isSpace 61 || (61 =? 61)) with true. cbv iota. destruct (back_app attribs ([c], [])) as [-> ->]. unfold appending.
    rewrite appended_ok by (cbn in *; unfold MAX_NAME_SIZE; lia). rewrite set_back_app. unfold advancePos, rd. cbn [x_buf set_xstate set_buf set_xattribs].
    rewrite H4. reflexivity. }
  refine (leads_step _ _ _ _ _ _ STATE_ELEMENT_ATTR_VALUE_QUOT _ _ v els a Hn _ _ _); [discriminate|cbn; lia|].
  intros p. eexists. unfold step. cbn [x_state rd]. erewrite alt_no by reflexivity. reflexivity.
Qed.

(** A reference, with more characters after it. *)
Lemma entity_reference x t : special true x = true -> (3 <= length t)%nat -> entity (reference x ++ t) = Some (length (reference x), [x]).
Proof using.
  intros Hx Ht. unfold special in Hx. destruct t as [|t1 [|t2 [|t3 t]]]; cbn in Ht; try lia. unfold reference.
  repeat (case_if; [subst x; reflexivity|]). exfalso. cbn in Hx. zb. repeat (destruct Hx as [Hx|Hx]; zb; try lia).
Qed.

Lemma special_le b x : special b x = true -> special true x = true.
Proof using. unfold special. destruct b; [auto|]. cbn. rewrite orb_false_r. intros ->. reflexivity. Qed.

Lemma reference_cons x : special true x = true -> exists r, reference x = 38 :: r.
Proof using.
  intros Hx. unfold reference. repeat (case_if; [eexists; reflexivity|]). exfalso. unfold special in Hx. cbn in Hx. zb.
  repeat (destruct Hx as [Hx|Hx]; zb; try lia).
Qed.

Lemma drop_reference x tl pre : drop (length (reference x)) (drop (length pre) (pre ++ reference x ++ tl)) = tl.
Proof using. rewrite !drop_app_length. reflexivity. Qed.

Definition plain_run (pre : list Z) : Prop := Forall (fun c => special true c = false) pre.

Lemma plain_run_span pre : plain_run pre -> forallb (fun c => negb ((c =? 34) || (c =? 38))) pre = true.
Proof using. induction 1 as [|x l Hx _ IH]; [reflexivity|]. cbn [forallb]. rewrite IH. unfold special in Hx. cbn in Hx. zb. lia. Qed.

(** Characters of the value of an attribute up to the quote, and up to a reference. *)
Lemma attr_end pre w n rest attribs v els a : open_names els -> plain_run pre -> Z.of_nat (length (w ++ pre)) <= MAX_VALUE_SIZE ->
  leads (rd STATE_ELEMENT_ATTR_VALUE_QUOT (pre ++ 34 :: rest) (attribs ++ [(n, w)]) v els a)
    (rd STATE_ELEMENT_ATTR rest (attribs ++ [(n, w ++ pre)]) v els a).
Proof using.
  intros Hn Hpre Hl. refine (leads_step _ _ _ _ _ _ STATE_ELEMENT_ATTR _ _ v els a Hn _ _ _); [discriminate|rewrite length_app; cbn; lia|].
  destruct (span_app (fun c => negb ((c =? 34) || (c =? 38))) pre 34 rest (plain_run_span pre Hpre) eq_refl) as (H1 & H2 & H3 & H4).
  intros p. eexists. unfold step. cbn [x_state rd]. unfold alt, elementAttrValue. cbn [x_buf rd x_attribs x_state].
  rewrite bool_decide_false by discriminate. rewrite H1, H2, H3. destruct (back_app attribs (n, w)) as [Hb1 Hb2]. cbn [snd] in Hb2. rewrite Hb2.
  unfold appending. rewrite appended_ok by (rewrite length_app in Hl; lia). change (34 =? 34) with true. cbv iota.
  change (negb (x_charset _ =? CHARSET_UTF8)) with false. cbv iota.
  unfold ret, advancePos, set_back_value, rd. cbn [x_buf set_xstate set_buf set_xattribs x_attribs]. rewrite Hb1, set_back_app, H4. reflexivity.
Qed.

Lemma attr_reference pre x tl w n attribs v els a : open_names els -> plain_run pre -> special true x = true ->
  Z.of_nat (length (w ++ pre)) + 1 < MAX_VALUE_SIZE -> (3 <= length tl)%nat ->
  leads (rd STATE_ELEMENT_ATTR_VALUE_QUOT (pre ++ reference x ++ tl) (attribs ++ [(n, w)]) v els a)
    (rd STATE_ELEMENT_ATTR_VALUE_QUOT tl (attribs ++ [(n, (w ++ pre) ++ [x])]) v els a).
Proof using.
  intros Hn Hpre Hx Hl Htl. pose proof (entity_reference x tl Hx Htl) as He. destruct (reference_cons x Hx) as (r & Hr).
  refine (leads_step _ _ _ _ _ _ STATE_ELEMENT_ATTR_VALUE_QUOT _ _ v els a Hn _ _ _); [discriminate|rewrite !length_app, Hr; cbn; lia|].
  destruct (span_app (fun c => negb ((c =? 34) || (c =? 38))) pre 38 (r ++ tl) (plain_run_span pre Hpre) eq_refl) as (H1 & H2 & H3 & _).
  change (38 :: r ++ tl) with ((38 :: r) ++ tl) in *. rewrite <- Hr in *.
  intros p. eexists. unfold step. cbn [x_state rd]. unfold alt, elementAttrValue. cbn [x_buf rd x_attribs x_state].
  rewrite bool_decide_false by discriminate. rewrite H1, H2, H3. destruct (back_app attribs (n, w)) as [Hb1 Hb2]. cbn [fst snd] in Hb1, Hb2. rewrite Hb2.
  unfold appending. rewrite appended_ok by (rewrite length_app in Hl; lia). change (38 =? 34) with false. cbv iota.
  unfold entref. rewrite (proj2 (Z.leb_gt _ _)) by lia. cbn [x_buf advancePos set_buf set_back_value set_xattribs rd].
  rewrite drop_app_length, He. unfold ret, advancePos, set_back_value, rd. cbn [x_buf set_xstate set_buf set_xattribs x_attribs x_pos].
  rewrite Hb1, !set_back_app, drop_reference. destruct (back_app attribs (n, w ++ pre)) as [-> _]. reflexivity.
Qed.

(** The value of an attribute; [pre] are characters that are not escaped, not read yet. *)
Lemma attr_value val pre w n rest attribs v els a : open_names els -> plain_run pre ->
  Z.of_nat (length (w ++ pre ++ val)) + 1 < MAX_VALUE_SIZE -> (2 <= length rest)%nat ->
  leads (rd STATE_ELEMENT_ATTR_VALUE_QUOT (pre ++ escape_store true val ++ 34 :: rest) (attribs ++ [(n, w)]) v els a)
    (rd STATE_ELEMENT_ATTR rest (attribs ++ [(n, w ++ pre ++ val)]) v els a).
Proof using.
  intros Hn Hpre Hl Hrest. revert pre w Hpre Hl. induction val as [|x val IH]; intros pre w Hpre Hl; cbn [escape_store app].
  - rewrite app_nil_r in *. apply attr_end; [exact Hn|exact Hpre|lia].
  - destruct (special true x) eqn:Hx.
    + rewrite <- app_assoc. eapply leads_trans; [apply attr_reference; try assumption; rewrite !length_app in *; cbn in *; lia|].
      pose proof (IH [] ((w ++ pre) ++ [x]) (Forall_nil_2 _)) as H. rewrite <- !app_assoc in H. rewrite <- !app_assoc.
      apply H. exact Hl.
    + pose proof (IH (pre ++ [x]) w) as H. rewrite <- !app_assoc in H. apply H; [apply Forall_app_2; [exact Hpre|constructor; [exact Hx|constructor]]|exact Hl].
Qed.

(** *** Data *)

Lemma content_space pre c b v els a : open_names els -> forallb isSpace pre = true -> isSpace c = false ->
  Z.of_nat (length (v ++ pre)) <= MAX_VALUE_SIZE ->
  leads (rd STATE_CONTENT (pre ++ c :: b) [] v els a) (rd STATE_CONTENT (c :: b) [] (v ++ pre) els a).
Proof using.
  intros Hn Hp Hc Hl. destruct pre as [|x pre]; [rewrite app_nil_r; apply leads_refl|].
  refine (leads_step _ _ _ _ _ _ STATE_CONTENT _ _ _ els a Hn _ _ _); [discriminate|rewrite length_app; cbn; lia|].
  intros p. eexists. unfold step. cbn [x_state rd]. unfold alt at 1. fold (rd STATE_CONTENT ((x :: pre) ++ c :: b) [] v els a p).
  rewrite skip_some by (assumption || discriminate || auto). reflexivity.
Qed.

Lemma content_plain c c1 b v els a : open_names els -> isSpace c = false -> c <> 60 -> c <> 38 -> Z.of_nat (length (v ++ [c])) <= MAX_VALUE_SIZE ->
  leads (rd STATE_CONTENT (c :: c1 :: b) [] v els a) (rd STATE_CONTENT (c1 :: b) [] (v ++ [c]) els a).
Proof using.
  intros Hn Hs H1 H2 Hl. refine (leads_step _ _ _ _ _ _ STATE_CONTENT _ _ _ els a Hn _ _ _); [discriminate|cbn; lia|].
  intros p. eexists. rewrite content_char by assumption. unfold alt, content. cbn [needChars x_buf rd length Nat.leb negb charAt nth].
  rewrite (proj2 (Z.eqb_neq _ _) H1), (proj2 (Z.eqb_neq _ _) H2). unfold appending. rewrite appended_ok by (rewrite length_app in Hl; exact Hl). reflexivity.
Qed.

Lemma content_reference x tl v els a : open_names els -> special true x = true -> (3 <= length tl)%nat -> Z.of_nat (length v) + 1 < MAX_VALUE_SIZE ->
  leads (rd STATE_CONTENT (reference x ++ tl) [] v els a) (rd STATE_CONTENT tl [] (v ++ [x]) els a).
Proof using.
  intros Hn Hx Htl Hl. pose proof (entity_reference x tl Hx Htl) as He. destruct (reference_cons x Hx) as (r & Hr).
  refine (leads_step _ _ _ _ _ _ STATE_CONTENT _ _ _ els a Hn _ _ _); [discriminate|rewrite length_app, Hr; cbn; lia|].
  assert (exists c1 b, r ++ tl = c1 :: b) as (c1 & b & Hb) by (destruct r, tl; cbn in *; try lia; eauto).
  intros p. eexists. rewrite Hr at 1. cbn [app]. rewrite Hb. rewrite content_char by (reflexivity || lia).
  unfold alt, content. cbn [needChars x_buf rd length Nat.leb negb charAt nth]. change (38 =? 60) with false. change (38 =? 38) with true. cbv iota.
  unfold entref. cbn [x_value rd]. rewrite (proj2 (Z.leb_gt _ _)) by lia. cbn [x_buf rd].
  assert (38 :: c1 :: b = reference x ++ tl) as -> by (rewrite <- Hb, Hr; reflexivity). rewrite He.
  unfold ret, rd, advancePos. cbn [x_buf set_value set_buf]. rewrite drop_app_length. reflexivity.
Qed.

(** The data of a tag before its end; [pre] are spaces not read yet. *)
Lemma data_reads data pre v rest els a : open_names els -> forallb isSpace pre = true ->
  Z.of_nat (length (v ++ pre ++ data)) + 1 < MAX_VALUE_SIZE -> (2 <= length rest)%nat ->
  leads (rd STATE_CONTENT (pre ++ escape_store false data ++ 60 :: rest) [] v els a) (rd STATE_CONTENT (60 :: rest) [] (v ++ pre ++ data) els a).
Proof using.
  intros Hn Hpre Hl Hrest. revert pre v Hpre Hl. induction data as [|x data IH]; intros pre v Hpre Hl; cbn [escape_store app].
  - rewrite app_nil_r in *. apply content_space; [exact Hn|exact Hpre|reflexivity|lia].
  - assert (forall v', v' = (v ++ pre) ++ [x] -> leads (rd STATE_CONTENT (escape_store false data ++ 60 :: rest) [] v' els a)
      (rd STATE_CONTENT (60 :: rest) [] (v ++ pre ++ x :: data) els a)) as Hrec.
    { intros v' ->. pose proof (IH [] ((v ++ pre) ++ [x]) eq_refl) as H. rewrite <- !app_assoc in H. rewrite <- !app_assoc. apply H. exact Hl. }
    destruct (isSpace x) eqn:Hs.
    + assert (special false x = false) as -> by (unfold isSpace, special in *; lia).
      pose proof (IH (pre ++ [x]) v) as H. rewrite <- !app_assoc in H. apply H; [rewrite forallb_app, Hpre; cbn; rewrite Hs; reflexivity|exact Hl].
    + assert (exists c1 b, escape_store false data ++ 60 :: rest = c1 :: b) as (c1 & b & Hb) by (destruct (escape_store false data); cbn; eauto).
      destruct (special false x) eqn:Hx.
      * destruct (reference_cons x (special_le _ _ Hx)) as (r & Hr). rewrite <- app_assoc. rewrite Hr at 1. cbn [app].
        eapply leads_trans; [apply content_space; [exact Hn|exact Hpre|reflexivity|rewrite !length_app in *; cbn in *; lia]|].
        change (38 :: r ++ ?t) with ((38 :: r) ++ t). rewrite <- Hr.
        eapply leads_trans; [apply content_reference; [exact Hn|exact (special_le _ _ Hx)|rewrite length_app; cbn; lia|rewrite !length_app in *; cbn in *; lia]|].
        apply Hrec. reflexivity.
      * cbn [app]. eapply leads_trans; [apply content_space; [exact Hn|exact Hpre|exact Hs|rewrite !length_app in *; cbn in *; lia]|].
        rewrite Hb. eapply leads_trans; [apply content_plain; try assumption; [unfold special in Hx; lia|unfold special in Hx; lia|rewrite !length_app in *; cbn in *; lia]|].
        rewrite <- Hb. apply Hrec. reflexivity.
Qed.

(** The end of a tag. *)
Lemma end_tag name rest v els a a' : open_names els -> name <> [] -> endTag a name v = inr a' ->
  leads (rd STATE_CONTENT (60 :: 47 :: name ++ 62 :: rest) [] v (name :: els) a)
    (rd STATE_CONTENT rest [] [] els a').
Proof using.
  intros Hn Hne Hend. assert (open_names (name :: els)) as Hn' by (constructor; assumption).
  apply leads_trans with (rd STATE_ELEMENT_END (name ++ 62 :: rest) [] v (name :: els) a).
  { refine (leads_step _ _ _ _ _ _ STATE_ELEMENT_END _ _ _ _ _ Hn' _ _ _); [discriminate|cbn; lia|].
    intros p. rewrite content_lt by lia. eexists. erewrite alt_no by reflexivity. reflexivity. }
  apply leads_trans with (rd STATE_ELEMENT_END_END (62 :: rest) [] v (name :: els) a).
  { refine (leads_step _ _ _ _ _ _ STATE_ELEMENT_END_END _ _ _ _ _ Hn' _ _ _); [discriminate|rewrite length_app; cbn; destruct name; [contradiction|cbn; lia]|].
    intros p. eexists. unfold step. cbn [x_state rd]. unfold alt, elementEnd. cbn [x_elements rd]. unfold needChars. cbn [x_buf rd].
    rewrite (proj2 (Nat.leb_le _ _)) by (rewrite length_app; lia). cbn [negb]. rewrite take_app_length, bool_decide_true by reflexivity.
    unfold ret, rd, advancePos. cbn [x_buf set_xstate set_buf]. rewrite drop_app_length. reflexivity. }
  refine (leads_step _ _ _ _ _ _ STATE_CONTENT rest [] [] els a' Hn' _ _ _); [discriminate|cbn; lia|].
  intros p. eexists. unfold step. cbn [x_state rd]. unfold alt at 1, elementEndEnd. cbn [needChars x_buf rd length Nat.leb negb charAt nth].
  change (62 =? 62) with true. cbv iota. change (negb (x_charset _ =? CHARSET_UTF8)) with false. cbv iota. unfold top. cbn [x_a x_elements x_value rd].
  rewrite Hend. reflexivity.
Qed.

(** *** The start of a tag *)

Definition attribs_text (l : list (list Z * list Z)) : list Z :=
  concat (map (fun a => [32] ++ fst a ++ [61; 34] ++ escape_store true (snd a) ++ [34]) l).

Definition attrib_ok (a : list Z * list Z) : Prop := name_ok (fst a) /\ Z.of_nat (length (snd a)) + 1 < MAX_VALUE_SIZE.

(** Attributes after the first space. *)
Lemma attribs_reads l n w x rest done v els a : open_names els -> Forall attrib_ok ((n, w) :: l) -> (x = 47 \/ x = 62) -> (1 <= length rest)%nat ->
  leads (rd STATE_ELEMENT_ATTR (n ++ [61; 34] ++ escape_store true w ++ [34] ++ attribs_text l ++ x :: rest) done v els a)
    (rd STATE_ELEMENT_ATTR (x :: rest) (done ++ (n, w) :: l) v els a).
Proof using.
  intros Hn Hf Hx Hrest. revert n w done Hf. induction l as [|[n' w'] l IH]; intros n w done Hf; apply Forall_cons in Hf as [[Hname Hw] Hf]; cbn [fst snd] in *.
  all: assert (forall t, (2 <= length t)%nat -> leads (rd STATE_ELEMENT_ATTR (n ++ [61; 34] ++ escape_store true w ++ [34] ++ t) done v els a)
    (rd STATE_ELEMENT_ATTR t (done ++ [(n, w)]) v els a)) as Hone
    by (intros t Ht; destruct n as [|c cs]; [destruct (name_not_nil _ Hname); reflexivity|]; cbn [app];
        eapply leads_trans; [apply attr_name; assumption|]; apply (attr_value w [] [] (c :: cs) t done v els a Hn (Forall_nil_2 _)); assumption).
  - unfold attribs_text. cbn [map concat app]. apply Hone. cbn. lia.
  - unfold attribs_text. cbn [map concat fst snd]. fold (attribs_text l). rewrite <- !app_assoc.
    eapply leads_trans; [apply Hone; rewrite !length_app; cbn; lia|].
    apply Forall_cons in Hf as [[Hname' Hw'] Hf']. cbn [fst snd] in *.
    destruct n' as [|c cs]; [destruct (name_not_nil _ Hname'); reflexivity|]. cbn [app].
    eapply leads_trans; [apply attr_space; [exact Hn|]|].
    { destruct Hname' as [[Hc _] _]. unfold isNameStartChar, inRange, isSpace in *. lia. }
    pose proof (IH (c :: cs) w' (done ++ [(n, w)])) as H. rewrite <- !app_assoc in H. apply H. constructor; [split; assumption|exact Hf'].
Qed.

(** The start of a tag up to the end of its attributes. *)
Lemma start_reads name l x rest v els a a' : open_names els -> name_ok name -> Forall attrib_ok l -> (length els < 256)%nat ->
  (x = 47 \/ x = 62) -> (1 <= length rest)%nat -> (x = 62 -> startTag a name l false = inr a') ->
  leads (rd STATE_CONTENT (60 :: name ++ attribs_text l ++ x :: rest) [] v els a)
    (if x =? 47 then rd STATE_ELEMENT_END_SIMPLE rest l v (name :: els) a
     else rd STATE_CONTENT rest [] [] (name :: els) a').
Proof using.
  intros Hn Hname Hl Hd Hx Hrest Hstart. destruct name as [|c cs]; [destruct (name_not_nil _ Hname); reflexivity|]. cbn [app].
  eapply leads_trans; [apply open_bracket; [apply Hname|exact Hd|exact Hn]|].
  assert (open_names ((c :: cs) :: els)) as Hn' by (constructor; [discriminate|exact Hn]).
  destruct l as [|[n w] l].
  - unfold attribs_text. cbn [map concat app]. pose proof (element_name cs x rest c v els a a' Hname Hn) as H.
    destruct Hx as [-> | ->]; apply H; auto.
  - unfold attribs_text. cbn [map concat fst snd]. fold (attribs_text l). rewrite <- !app_assoc. cbn [app].
    eapply leads_trans; [apply (element_name cs 32 _ c v els a a Hname Hn eq_refl); discriminate|]. change (isSpace 32) with true. cbv iota.
    eapply leads_trans; [apply (attribs_reads l n w x rest [] v _ _ Hn' Hl Hx Hrest)|]. cbn [app].
    destruct Hx as [-> | ->].
    + refine (leads_step _ _ _ _ _ _ STATE_ELEMENT_END_SIMPLE rest _ v _ _ Hn' _ _ _); [discriminate|cbn; lia|]. intros p. eexists. reflexivity.
    + refine (leads_step _ _ _ _ _ _ STATE_CONTENT rest [] v ((c :: cs) :: els) a' Hn' _ _ _); [discriminate|cbn; lia|].
      intros p. eexists. unfold step. cbn [x_state rd]. erewrite alt_no by reflexivity. unfold alt at 1, elementEndComplex.
      cbn [needChars x_buf rd length Nat.leb negb charAt nth]. change (62 =? 62) with true. cbv iota.
      unfold call_start, top. cbn [x_a x_attribs x_elements rd]. rewrite Hstart by reflexivity. reflexivity.
Qed.

(** A start tag, and an empty element. *)
Lemma open_reads name l rest v els a a' : open_names els -> name_ok name -> Forall attrib_ok l -> (length els < 256)%nat ->
  (1 <= length rest)%nat -> startTag a name l false = inr a' ->
  leads (rd STATE_CONTENT (60 :: name ++ attribs_text l ++ 62 :: rest) [] v els a) (rd STATE_CONTENT rest [] [] (name :: els) a').
Proof using. intros Hn Hname Hl Hd Hrest Hs. exact (start_reads name l 62 rest v els a a' Hn Hname Hl Hd (or_intror eq_refl) Hrest (fun _ => Hs)). Qed.

Lemma simple_reads name l rest v els a a' : open_names els -> name_ok name -> Forall attrib_ok l -> (length els < 256)%nat ->
  startTag a name l true = inr a' ->
  leads (rd STATE_CONTENT (60 :: name ++ attribs_text l ++ 47 :: 62 :: rest) [] v els a) (rd STATE_CONTENT rest [] [] els a').
Proof using.
  intros Hn Hname Hl Hd Hs. assert (open_names (name :: els)) as Hn' by (constructor; [apply name_not_nil, Hname|exact Hn]).
  eapply leads_trans; [apply (start_reads name l 47 (62 :: rest) v els a a); try assumption; [auto|cbn; lia|discriminate]|]. change (47 =? 47) with true. cbv iota.
  refine (leads_step _ _ _ _ _ _ STATE_CONTENT rest [] v els a' Hn' _ _ _); [discriminate|cbn; lia|].
  intros p. eexists. unfold step. cbn [x_state rd]. unfold alt at 1, elementEndSimple. cbn [needChars x_buf rd length Nat.leb negb charAt nth].
  change (62 =? 62) with true. cbv iota. unfold call_start, top. cbn [x_a x_attribs x_elements rd]. rewrite Hs. reflexivity.
Qed.

(** *** Lines *)

Lemma xml_tabs_space n : forallb isSpace (tabs n) = true.
Proof using. induction n; [reflexivity|assumption]. Qed.

(** A line of a text with one tag to a line. *)
Inductive Piece := POpen (name : list Z) (attribs : list (list Z * list Z)) | PEmpty (name : list Z) (attribs : list (list Z * list Z)) | PClose (name : list Z).

Definition piece_text (p : Piece) : list Z :=
  match p with
  | POpen n l => 60 :: n ++ attribs_text l ++ [62]
  | PEmpty n l => 60 :: n ++ attribs_text l ++ [47; 62]
  | PClose n => 60 :: 47 :: n ++ [62]
  end.

Definition line_text (x : nat * Piece) : list Z := [13; 10] ++ tabs (fst x) ++ piece_text (snd x).

(** The open elements and the listener after a line. *)
Definition line_run (st : list (list Z) * A) (x : nat * Piece) : option (list (list Z) * A) :=
  let '(els, a) := st in
  match snd x with
  | POpen n l =>
      if (length els <? 256)%nat then match startTag a n l false with inr a => Some (n :: els, a) | inl _ => None end else None
  | PEmpty n l =>
      if (length els <? 256)%nat then match startTag a n l true with inr a => Some (els, a) | inl _ => None end else None
  | PClose n =>
      match els with
      | e :: els => if bool_decide (e = n) then match endTag a n ([13; 10] ++ tabs (fst x)) with inr a => Some (els, a) | inl _ => None end else None
      | [] => None
      end
  end.

Fixpoint lines_run (st : list (list Z) * A) (l : list (nat * Piece)) : option (list (list Z) * A) :=
  match l with [] => Some st | x :: l => st ← line_run st x; lines_run st l end.

Definition line_ok (x : nat * Piece) : Prop :=
  (fst x <= 256)%nat /\
  match snd x with POpen n l | PEmpty n l => name_ok n /\ Forall attrib_ok l | PClose n => name_ok n end.

Lemma line_reads x els a els' a' rest : open_names els -> line_ok x -> line_run (els, a) x = Some (els', a') -> (1 <= length rest)%nat ->
  open_names els' /\ leads (rd STATE_CONTENT (line_text x ++ rest) [] [] els a) (rd STATE_CONTENT rest [] [] els' a').
Proof using.
  intros Hn [Hi Hok] Hr Hrest. destruct x as [ind p]. cbn [fst snd] in *. unfold line_text. cbn [fst snd].
  assert (exists b, piece_text p = 60 :: b) as (b & Hb) by (destruct p; eexists; reflexivity).
  assert (leads (rd STATE_CONTENT (([13; 10] ++ tabs ind ++ piece_text p) ++ rest) [] [] els a)
    (rd STATE_CONTENT (piece_text p ++ rest) [] ([13; 10] ++ tabs ind) els a)) as H1.
  { rewrite Hb, <- !app_assoc. apply (content_space ([13; 10] ++ tabs ind) 60); [exact Hn| |reflexivity|].
    - apply xml_tabs_space.
    - unfold tabs, MAX_VALUE_SIZE. cbn [app length]. rewrite length_replicate. lia. }
  clear Hb. destruct p as [n l|n l|n]; cbn [line_run snd fst] in Hr; cbn [piece_text] in H1.
  - destruct (Nat.ltb_spec (length els) 256) as [Hd|]; [|discriminate]. destruct (startTag a n l false) as [|a1] eqn:E; [discriminate|]. injection Hr as <- <-.
    split; [constructor; [apply name_not_nil, Hok|exact Hn]|]. eapply leads_trans; [exact H1|]. cbn [app]. rewrite <- !app_assoc. cbn [app].
    apply open_reads; tauto || assumption.
  - destruct (Nat.ltb_spec (length els) 256) as [Hd|]; [|discriminate]. destruct (startTag a n l true) as [|a1] eqn:E; [discriminate|]. injection Hr as <- <-.
    split; [exact Hn|]. eapply leads_trans; [exact H1|]. cbn [app]. rewrite <- !app_assoc. cbn [app]. apply simple_reads; tauto || assumption.
  - destruct els as [|e els]; [discriminate|]. case_bool_decide as He; [|discriminate]. subst e.
    destruct (endTag a n _) as [|a1] eqn:E; [discriminate|]. injection Hr as <- <-. apply Forall_cons in Hn as [Hne Hn].
    split; [exact Hn|]. eapply leads_trans; [exact H1|]. cbn [app]. rewrite <- !app_assoc. cbn [app]. apply end_tag; assumption.
Qed.

Lemma lines_read l els a els' a' rest : open_names els -> Forall line_ok l -> lines_run (els, a) l = Some (els', a') -> (1 <= length rest)%nat ->
  leads (rd STATE_CONTENT (concat (map line_text l) ++ rest) [] [] els a) (rd STATE_CONTENT rest [] [] els' a').
Proof using.
  intros Hn Hl. revert els a Hn. induction Hl as [|x l Hx _ IH]; intros els a Hn Hr Hrest; cbn [lines_run] in Hr; [injection Hr as <- <-; apply leads_refl|].
  destruct (line_run (els, a) x) as [[els1 a1]|] eqn:E; [|discriminate]. cbn [map concat]. rewrite <- app_assoc.
  destruct (line_reads x els a els1 a1 (concat (map line_text l) ++ rest) Hn Hx E) as [Hn1 H1]; [rewrite length_app; lia|].
  eapply leads_trans; [exact H1|]. apply IH; assumption.
Qed.

Lemma lines_run_app st l1 l2 : lines_run st (l1 ++ l2) = (st ← lines_run st l1; lines_run st l2).
Proof using. revert st. induction l1 as [|x l1 IH]; intros st; [reflexivity|]. cbn [app lines_run]. destruct (line_run st x); [apply IH|reflexivity]. Qed.
End Reading.

(** ** The header *)

Section Header.
Context {A : Type} (startTag : A -> list Z -> list (list Z * list Z) -> bool -> XmlError + A) (endTag : A -> list Z -> list Z -> XmlError + A).
Context (toLower : list Z -> option (list Z)) (toUtf8 : list Z -> Z -> list Z).
Abbreviation leads := (leads startTag endTag toLower toUtf8).

Definition utf8_name := [117; 116; 102; 45; 56].
(** The system leaves the name of the encoding, which is in lower case, as it is. *)
Hypothesis lower_utf8 : toLower utf8_name = Some utf8_name.

(** As [leads], with one position for all the texts that may follow. *)
Definition leads_all (s1 s2 : list Z -> Z -> @Reader A) : Prop :=
  forall p, u64 p = p -> exists p', u64 p' = p' /\ forall t, process startTag endTag toLower toUtf8 (s1 t p) = process startTag endTag toLower toUtf8 (s2 t p').

Lemma leads_all_trans s1 s2 s3 : leads_all s1 s2 -> leads_all s2 s3 -> leads_all s1 s3.
Proof using. intros H1 H2 p Hp. destruct (H1 p Hp) as (p1 & Hp1 & E1). destruct (H2 p1 Hp1) as (p2 & Hp2 & E2). exists p2. split; [exact Hp2|]. intros t. rewrite E1. apply E2. Qed.

(** A pass that changes the state; the step is computed. *)
Definition decl_rd (enc : list Z) (st : ParseState) (buf : list Z) (a : A) (t : list Z) : Z -> Reader := rd enc st (buf ++ t) [] [] [] a.

Lemma decl_step enc st buf enc' st' buf' a : (length buf' < length buf)%nat -> st <> STATE_END ->
  (forall p, exists p', forall t, step startTag endTag toLower toUtf8 (decl_rd enc st buf a t p) = ret true (decl_rd enc' st' buf' a t p')) ->
  leads_all (decl_rd enc st buf a) (decl_rd enc' st' buf' a).
Proof using.
  intros Hl Hs H p Hu. destruct (H p) as (p' & Hp). exists p'. split; [exact (step_placed startTag endTag toLower toUtf8 (decl_rd enc st buf a [] p) true (decl_rd enc' st' buf' a [] p') Hu (Hp []))|]. intros t.
  rewrite (process_step startTag endTag toLower toUtf8 (decl_rd enc st buf a t p) true (decl_rd enc' st' buf' a t p') (Forall_nil_2 _) Hs (Hp t)) by (cbn; rewrite !length_app; lia).
  unfold settle. destruct (_ && _); reflexivity.
Qed.

Lemma decl_encoding rest a : leads_all (decl_rd [] STATE_DECL_ENCODING_NAME_QUOT (utf8_name ++ 34 :: rest) a) (decl_rd utf8_name STATE_DECL_STANDALONE rest a).
Proof using lower_utf8.
  apply decl_step; [cbn; lia|discriminate|]. intros p.
  exists (u64 (u64 (u64 (u64 (u64 (u64 (p + 1) + 1) + 1) + 1) + 1) + Z.of_nat 1)). intros t. unfold step. cbn [x_state decl_rd rd]. unfold alt at 1.
  assert (declEncodingValue toLower (decl_rd [] STATE_DECL_ENCODING_NAME_QUOT (utf8_name ++ 34 :: rest) a t p) = (encoding ← toLower utf8_name; charset ← charsetFromString encoding;
    (ret true (advancePos (set_xstate (set_encoding (decl_rd utf8_name STATE_DECL_ENCODING_NAME_QUOT (34 :: rest) a t
      (u64 (u64 (u64 (u64 (u64 (p + 1) + 1) + 1) + 1) + 1))) encoding charset) STATE_DECL_STANDALONE) 1) : option (XmlError + (bool * Reader)))))
    as -> by reflexivity.
  rewrite lower_utf8. reflexivity.
Qed.

(** [n] characters are used up. *)
Ltac decl enc st st' n rest :=
  eapply leads_all_trans; [apply (decl_step enc st _ enc st' rest); [cbn; lia|discriminate|intros p;
    first [exists (u64 (p + Z.of_nat n)); intros t; reflexivity|exists (u64 (u64 (p + Z.of_nat 0) + Z.of_nat n)); intros t; reflexivity]]|].

Lemma header_reads_all a : leads_all (decl_rd [] STATE_START utf8Header a) (decl_rd utf8_name STATE_CONTENT [13; 10] a).
Proof using lower_utf8.
  decl (@nil Z) STATE_START STATE_DECL_VERSION 6%nat (drop 6 utf8Header).
  decl (@nil Z) STATE_DECL_VERSION STATE_DECL_VERSION_EQ 7%nat (drop 13 utf8Header).
  decl (@nil Z) STATE_DECL_VERSION_EQ STATE_DECL_VERSION_NUM 1%nat (drop 14 utf8Header).
  decl (@nil Z) STATE_DECL_VERSION_NUM STATE_DECL_ENCODING 5%nat (drop 19 utf8Header).
  decl (@nil Z) STATE_DECL_ENCODING STATE_DECL_ENCODING 1%nat (drop 20 utf8Header).
  decl (@nil Z) STATE_DECL_ENCODING STATE_DECL_ENCODING_EQ 8%nat (drop 28 utf8Header).
  decl (@nil Z) STATE_DECL_ENCODING_EQ STATE_DECL_ENCODING_NAME 1%nat (drop 29 utf8Header).
  decl (@nil Z) STATE_DECL_ENCODING_NAME STATE_DECL_ENCODING_NAME_QUOT 1%nat (drop 30 utf8Header).
  eapply leads_all_trans; [apply (decl_encoding (drop 36 utf8Header))|].
  decl utf8_name STATE_DECL_STANDALONE STATE_DECL_STANDALONE 1%nat (drop 37 utf8Header).
  decl utf8_name STATE_DECL_STANDALONE STATE_DECL_STANDALONE_EQ 10%nat (drop 47 utf8Header).
  decl utf8_name STATE_DECL_STANDALONE_EQ STATE_DECL_STANDALONE_YES 1%nat (drop 48 utf8Header).
  decl utf8_name STATE_DECL_STANDALONE_YES STATE_DECL_END 5%nat (drop 53 utf8Header).
  apply decl_step; [cbn; lia|discriminate|intros p; exists (u64 (p + Z.of_nat 2)); intros t; reflexivity].
Qed.

Lemma header_reads t a : leads (rd [] STATE_START (utf8Header ++ t) [] [] [] a) (rd utf8_name STATE_CONTENT (13 :: 10 :: t) [] [] [] a).
Proof using lower_utf8. intros p Hp. destruct (header_reads_all a p Hp) as (p' & Hp' & H). exists p'. split; [exact Hp'|apply H]. Qed.
End Header.
