(* ===== verification/SimpleXML.v ===== *)
(** * XML documents: [client/SimpleXML.h], [client/SimpleXML.cpp]

    The tree of tags, its text, and the position in it.  Tags belong to their parents, so that a
    tag holds its children, and a pointer to a tag is the path from the root to it.  While a
    text is read, [TagReader] keeps the open tags from [cur] to the root, each without its open
    child.  [checkChildSelected] only asserts: an operation on a missing child is [None]. *)

From S2P Require Import Prelude StrUtil Text XmlReader XmlText.
From Stdlib Require Import (notations) String.

#[warnings="-register-all"]
Inductive Tag := mkTag (t_name : list Z) (t_attribs : list (list Z * list Z)) (t_data : list Z) (t_children : list Tag).

Definition t_name (t : Tag) := let 'mkTag n _ _ _ := t in n.
Definition t_attribs (t : Tag) := let 'mkTag _ a _ _ := t in a.
Definition t_data (t : Tag) := let 'mkTag _ _ d _ := t in d.
Definition t_children (t : Tag) := let 'mkTag _ _ _ c := t in c.

Definition tag_getAttrib (t : Tag) (name defValue : list Z) : list Z := default defValue (find_attrib (t_attribs t) name).

(** ** The text of a tag *)

(** [tmp.erase(tmp.size() - 1)]. *)
Definition appendAttribString (attribs : list (list Z * list Z)) (tmp : list Z) : list Z :=
  removelast (fold_left (fun tmp a => tmp ++ fst a ++ [61; 34] ++ stored true (snd a) ++ [34; 32]) attribs tmp).

Fixpoint toXML (indent : nat) (t : Tag) : list Z :=
  match t with
  | mkTag name attribs data children =>
      let tmp := appendAttribString attribs (tabs indent ++ [60] ++ name ++ [32]) in
      match children, data with
      | [], [] => tmp ++ [47; 62; 13; 10]
      | [], _ => tmp ++ [62] ++ stored false data ++ [60; 47] ++ name ++ [62; 13; 10]
      | _, _ =>
          tmp ++ [62; 13; 10] ++
          (fix go (l : list Tag) : list Z := match l with [] => [] | c :: l => toXML (indent + 1) c ++ go l end) children ++
          tabs indent ++ [60; 47] ++ name ++ [62; 13; 10]
      end
  end.

(** ** Reading *)

(** [TagReader]: [cur] and its ancestors. *)
Definition add_child (t c : Tag) : Tag := mkTag (t_name t) (t_attribs t) (t_data t) (t_children t ++ [c]).
Definition set_data (t : Tag) (d : list Z) : Tag := mkTag (t_name t) (t_attribs t) d (t_children t).

Definition TagReader := (Tag * list Tag)%type.

Definition startTag (s : TagReader) (name : list Z) (attribs : list (list Z * list Z)) (simple : bool) : XmlError + TagReader :=
  let '(cur, up) := s in
  inr (if simple then (add_child cur (mkTag name attribs [] []), up) else (mkTag name attribs [] [], cur :: up)).

Definition endTag (s : TagReader) (name data : list Z) : XmlError + TagReader :=
  let '(cur, up) := s in
  match up with
  | [] => inl (mkError None "Invalid end tag"%string)
  | parent :: up => inr (add_child parent (set_data cur data), up)
  end.

(** The root with the tags that are still open. *)
Fixpoint root_of (cur : Tag) (up : list Tag) : Tag :=
  match up with [] => cur | parent :: up => root_of (add_child parent cur) up end.

(** ** The document *)

Record SimpleXML := mkXML { sx_root : Tag; sx_current : list nat; sx_child : nat; sx_found : bool }.

Definition empty_root : Tag := mkTag [66; 79; 71; 85; 83; 82; 79; 79; 84] [] [] [].
Definition SimpleXML_new : SimpleXML := mkXML empty_root [] 0 false.

(** The tag at a path; a change of it. *)
Fixpoint tag_at (path : list nat) (t : Tag) : option Tag :=
  match path with [] => Some t | i :: path => c ← t_children t !! i; tag_at path c end.
Fixpoint change_at (path : list nat) (f : Tag -> Tag) (t : Tag) : Tag :=
  match path with
  | [] => f t
  | i :: path => mkTag (t_name t) (t_attribs t) (t_data t) (alter (change_at path f) i (t_children t))
  end.

Definition current (x : SimpleXML) : option Tag := tag_at (sx_current x) (sx_root x).
Definition selected (x : SimpleXML) : option Tag := t ← current x; t_children t !! sx_child x.
Definition at_child (x : SimpleXML) (i : nat) (found : bool) : SimpleXML := mkXML (sx_root x) (sx_current x) i found.

(** [++currentChild] when it was found before. *)
Definition next_child (x : SimpleXML) (t : Tag) : nat :=
  if sx_found x && (sx_child x <? length (t_children t))%nat then S (sx_child x) else sx_child x.

Fixpoint find_from (l : list Tag) (name : list Z) (i : nat) : nat * bool :=
  match l with
  | [] => (i, false)
  | t :: l => if bool_decide (t_name t = name) then (i, true) else find_from l name (S i)
  end.

Definition findChild (x : SimpleXML) (name : list Z) : option (SimpleXML * bool) :=
  t ← current x;
  let i := next_child x t in
  let '(i, ok) := find_from (drop i (t_children t)) name i in
  Some (if ok then (at_child x i true, true) else (at_child x i (sx_found x), false)).

Definition getNextChild (x : SimpleXML) : option (SimpleXML * bool) :=
  t ← current x;
  let i := next_child x t in
  let found := negb (i =? length (t_children t))%nat in
  Some (at_child x i found, found).

Definition addTag (x : SimpleXML) (name data : list Z) : option (XmlError + SimpleXML) :=
  if bool_decide (name = []) then Some (inl (mkError None "Empty tag names not allowed"%string))
  else
    t ← current x;
    if bool_decide (sx_current x = []) && negb (bool_decide (t_children t = []))
    then Some (inl (mkError None "Only one root tag allowed"%string))
    else Some (inr (mkXML (change_at (sx_current x) (fun t => add_child t (mkTag name [] data [])) (sx_root x)) (sx_current x)
                  (length (t_children t)) (sx_found x))).

Definition add_attrib (name data : list Z) (t : Tag) : Tag := mkTag (t_name t) (t_attribs t ++ [(name, data)]) (t_data t) (t_children t).

Definition addAttrib (x : SimpleXML) (name data : list Z) : XmlError + SimpleXML :=
  if bool_decide (sx_current x = []) then inl (mkError None "No tag is currently selected"%string)
  else inr (mkXML (change_at (sx_current x) (add_attrib name data) (sx_root x)) (sx_current x) (sx_child x) (sx_found x)).

Definition addChildAttrib (x : SimpleXML) (name data : list Z) : option SimpleXML :=
  _ ← selected x;
  Some (mkXML (change_at (sx_current x ++ [sx_child x]) (add_attrib name data) (sx_root x)) (sx_current x) (sx_child x) (sx_found x)).

Definition stepIn (x : SimpleXML) : option SimpleXML :=
  _ ← selected x; Some (mkXML (sx_root x) (sx_current x ++ [sx_child x]) 0 false).

Definition stepOut (x : SimpleXML) : XmlError + SimpleXML :=
  match last (sx_current x) with
  | None => inl (mkError None "Already at lowest level"%string)
  | Some i => inr (mkXML (sx_root x) (removelast (sx_current x)) i true)
  end.

Definition resetCurrentChild (x : SimpleXML) : SimpleXML := at_child x 0 false.

Definition getChildTag (x : SimpleXML) : option (list Z) := t_name <$> selected x.
Definition getChildData (x : SimpleXML) : option (list Z) := t_data <$> selected x.
Definition getChildAttrib (x : SimpleXML) (name defValue : list Z) : option (list Z) :=
  t ← selected x; Some (tag_getAttrib t name defValue).
Definition getIntChildAttrib (x : SimpleXML) (name : list Z) : option Z := v ← getChildAttrib x name []; toInt v.
Definition getInt64ChildAttrib (x : SimpleXML) (name : list Z) : option Z := v ← getChildAttrib x name []; toInt64 v.
(** With a value for a missing attribute. *)
Definition getIntChildAttrib_or (x : SimpleXML) (name : list Z) (defValue : Z) : option Z :=
  v ← getChildAttrib x name []; if bool_decide (v = []) then Some defValue else toInt v.
Definition getInt64ChildAttrib_or (x : SimpleXML) (name : list Z) (defValue : Z) : option Z :=
  v ← getChildAttrib x name []; if bool_decide (v = []) then Some defValue else toInt64 v.
Definition getBoolChildAttrib (x : SimpleXML) (name : list Z) : option bool :=
  v ← getChildAttrib x name []; Some (bool_decide (v !! O = Some 49)).
Definition addChildAttribIfNotEmpty (x : SimpleXML) (name data : list Z) : option SimpleXML :=
  if bool_decide (data = []) then Some x else addChildAttrib x name data.
Definition addChildAttrib_number (x : SimpleXML) (name : list Z) (data : Z) : option SimpleXML :=
  t ← intToString data; addChildAttrib x name t.
Definition addChildAttrib_bool (x : SimpleXML) (name : list Z) (data : bool) : option SimpleXML :=
  addChildAttrib x name [if data then 49 else 48].
(** The overloads for numbers and booleans. *)
Definition addTag_number (x : SimpleXML) (name : list Z) (data : Z) : option (XmlError + SimpleXML) :=
  t ← intToString data; addTag x name t.
Definition addAttrib_number (x : SimpleXML) (name : list Z) (data : Z) : option (XmlError + SimpleXML) :=
  t ← intToString data; Some (addAttrib x name t).
Definition addAttrib_bool (x : SimpleXML) (name : list Z) (data : bool) : XmlError + SimpleXML :=
  addAttrib x name [if data then 49 else 48].
Definition getData (x : SimpleXML) : option (list Z) := t_data <$> current x.

Definition document_text (x : SimpleXML) : list Z := match t_children (sx_root x) with t :: _ => toXML 0 t | [] => [] end.

Section Loading.
(** [Text::toLower] and [Text::toUtf8] of the system. *)
Context (toLower : list Z -> option (list Z)) (toUtf8 : list Z -> Z -> list Z).

Abbreviation XReader := (@Reader TagReader).
Abbreviation xprocess := (process startTag endTag toLower toUtf8).

(** [fromXML]: the root keeps its name and attributes.  After an exception the document is not
    used again, and the tags read so far are left out. *)
Definition fromXML (x : SimpleXML) (xml : list Z) : option (XmlError + SimpleXML) :=
  let root := mkTag (t_name (sx_root x)) (t_attribs (sx_root x)) (t_data (sx_root x)) [] in
  r ← parse startTag endTag toLower toUtf8 (SimpleXMLReader_new (root, [])) xml;
  Some (match r with
  | inl e => inl e
  | inr (_, r) =>
      let '(cur, up) := x_a r in
      let root := root_of cur up in
      if negb (length (t_children root) =? 1)%nat
      then inl (mkError None "Invalid XML file, missing or multiple root tags"%string)
      else inr (mkXML root [] 0 false)
  end).
End Loading.

(** *** An example *)

Definition sample_tag : Tag :=
  mkTag [65] [([110], [60; 38; 34]); ([109], [])] [] [mkTag [66] [] [120; 32; 62; 121] []; mkTag [67] [] [] []; mkTag [66] [] [] [mkTag [68] [] [32] []]].

Definition sample_load (text : list Z) := fromXML (fun s => Some s) (fun s _ => s) SimpleXML_new text.

(** ** Reading back *)

Section Reading.
Context (toLower : list Z -> option (list Z)) (toUtf8 : list Z -> Z -> list Z).
Variable enc : list Z.
Abbreviation rd := (rd enc).
Abbreviation leads := (leads startTag endTag toLower toUtf8).

(** The text of a tag between its indentation and the end of its last line. *)
Fixpoint core (indent : nat) (t : Tag) : list Z :=
  match t with
  | mkTag name attribs data children =>
      [60] ++ name ++ attribs_text attribs ++
      match children, data with
      | [], [] => [47; 62]
      | [], _ => [62] ++ escape_store false data ++ [60; 47] ++ name ++ [62]
      | _, _ =>
          [62] ++
          (fix go (l : list Tag) : list Z :=
             match l with [] => [] | c :: l => [13; 10] ++ tabs (indent + 1) ++ core (indent + 1) c ++ go l end) children ++
          [13; 10] ++ tabs indent ++ [60; 47] ++ name ++ [62]
      end
  end.

(** What is read: the data of a tag with children is the white space before its end. *)
Fixpoint read_tag (indent : nat) (t : Tag) : Tag :=
  match t with
  | mkTag name attribs data children =>
      mkTag name attribs (match children with [] => data | _ => [13; 10] ++ tabs indent end) (map (read_tag (indent + 1)) children)
  end.

Fixpoint tag_depth (t : Tag) : nat :=
  match t with
  | mkTag _ _ _ children => S ((fix go (l : list Tag) : nat := match l with [] => O | c :: l => Nat.max (tag_depth c) (go l) end) children)
  end.

Fixpoint tag_ok (t : Tag) : Prop :=
  match t with
  | mkTag name attribs data children =>
      name_ok name /\ Forall attrib_ok attribs /\ Z.of_nat (length data) + 1 < MAX_VALUE_SIZE /\
      (fix go (l : list Tag) : Prop := match l with [] => True | c :: l => tag_ok c /\ go l end) children
  end.

Lemma Tag_induction (P : Tag -> Prop) :
  (forall name attribs data children, Forall P children -> P (mkTag name attribs data children)) -> forall t, P t.
Proof using.
  intros H. fix IH 1. intros [name attribs data children]. apply H. induction children as [|c l IHl]; constructor; [apply IH|exact IHl].
Qed.

Definition reads (t : Tag) : Prop := forall v els cur up rest,
  open_names els -> tag_ok t -> (length els + tag_depth t <= 256)%nat -> (1 <= length rest)%nat ->
  leads (rd STATE_CONTENT (core (length els) t ++ rest) [] v els (cur, up))
    (rd STATE_CONTENT rest [] [] els (add_child cur (read_tag (length els) t), up)).

Fixpoint children_text (indent : nat) (l : list Tag) : list Z :=
  match l with [] => [] | c :: l => [13; 10] ++ tabs indent ++ core indent c ++ children_text indent l end.

Lemma core_children indent name attribs data c0 l0 :
  core indent (mkTag name attribs data (c0 :: l0)) =
  60 :: name ++ attribs_text attribs ++ 62 :: children_text (indent + 1) (c0 :: l0) ++ [13; 10] ++ tabs indent ++ 60 :: 47 :: name ++ [62].
Proof using.
  assert (forall l, (fix go (l : list Tag) : list Z :=
    match l with [] => [] | c :: l => [13; 10] ++ tabs (indent + 1) ++ core (indent + 1) c ++ go l end) l = children_text (indent + 1) l) as H.
  { induction l as [|c l IH]; [reflexivity|]. cbn [children_text]. rewrite <- IH. reflexivity. }
  rewrite <- H. reflexivity.
Qed.

Definition add_children (t : Tag) (l : list Tag) : Tag := mkTag (t_name t) (t_attribs t) (t_data t) (t_children t ++ l).

Lemma children_read l els cur up rest : Forall reads l -> open_names els -> Forall (fun t => tag_ok t /\ (length els + tag_depth t <= 256)%nat) l ->
  (1 <= length rest)%nat ->
  leads (rd STATE_CONTENT (children_text (length els) l ++ rest) [] [] els (cur, up))
    (rd STATE_CONTENT rest [] [] els (add_children cur (map (read_tag (length els)) l), up)).
Proof using.
  intros Hl Hn Hok Hrest. revert cur. induction Hl as [|t l Ht _ IH]; intros cur.
  { unfold add_children. cbn [map children_text app]. rewrite app_nil_r. destruct cur. apply leads_refl. }
  apply Forall_cons in Hok as [[Hok Hd] Hoks]. cbn [children_text map]. rewrite <- !app_assoc.
  assert (exists b, core (length els) t = 60 :: b) as (b & Hb) by (destruct t; eexists; reflexivity).
  eapply leads_trans.
  { rewrite (app_assoc [13; 10]). rewrite Hb. cbn [app]. apply (content_space _ _ _ _ _ ([13; 10] ++ tabs (length els)) 60); [exact Hn|apply xml_tabs_space|reflexivity|].
    unfold tabs. cbn [app length]. rewrite length_replicate. unfold MAX_VALUE_SIZE. lia. }
  change (60 :: b ++ ?t) with ((60 :: b) ++ t). rewrite <- Hb.
  eapply leads_trans; [apply Ht; try assumption; rewrite length_app; lia|].
  pose proof (IH Hoks (add_child cur (read_tag (length els) t))) as H. unfold add_children, add_child in H. cbn in H. rewrite <- app_assoc in H. exact H.
Qed.

Lemma tag_reads t : reads t.
Proof using.
  induction t as [name attribs data children IH] using Tag_induction. intros v els cur up rest Hn Hok Hd Hrest.
  destruct Hok as (Hname & Hattr & Hdata & Hok). pose proof (name_not_nil _ Hname) as Hne.
  assert (length els < 256)%nat as Hlen by (cbn in Hd; lia).
  assert (open_names (name :: els)) as Hn' by (constructor; assumption).
  assert (Forall (fun t => tag_ok t /\ (length (name :: els) + tag_depth t <= 256)%nat) children) as Hall.
  { clear -Hok Hd. cbn [tag_depth length] in *. induction children as [|c l IHl]; constructor; [split; [apply Hok|lia]|apply IHl; [apply Hok|lia]]. }
  destruct children as [|c0 l0]; [destruct data as [|d0 data]; cbn [core]|rewrite core_children]; cbn [read_tag app];
    repeat (rewrite <- app_assoc; cbn [app]).
  - apply simple_reads; try assumption. reflexivity.
  - eapply leads_trans; [apply open_reads; try assumption; [rewrite length_app; cbn; lia|reflexivity]|].
    eapply leads_trans; [apply (data_reads _ _ _ _ _ (d0 :: data) [] []); [exact Hn'|reflexivity|exact Hdata|cbn; rewrite length_app; cbn; lia]|]. cbn [app].
    apply end_tag; [assumption|assumption|reflexivity].
  - set (l := c0 :: l0) in *. cbn [app]. 
    eapply leads_trans; [apply open_reads; try assumption; [rewrite ?length_app; cbn; rewrite ?length_app; cbn; lia|reflexivity]|].
    replace (length els + 1)%nat with (length (name :: els)) by (cbn; lia).
    eapply leads_trans; [apply children_read; [exact IH|exact Hn'|exact Hall|cbn; lia]|].
    cbn [app].
    eapply leads_trans; [apply (content_space _ _ _ _ _ ([13; 10] ++ tabs (length els)) 60); [exact Hn'|apply xml_tabs_space|reflexivity|]|].
    { unfold tabs. cbn [app length]. rewrite length_replicate. unfold MAX_VALUE_SIZE. lia. }
    apply end_tag; [assumption|assumption|reflexivity].
Qed.
End Reading.

(** *** Documents *)

Lemma appendAttribString_text l tmp : appendAttribString l (tmp ++ [32]) = tmp ++ attribs_text l.
Proof.
  unfold appendAttribString. set (f := fun _ _ => _).
  assert (forall tmp, fold_left f l (tmp ++ [32]) = (tmp ++ attribs_text l) ++ [32]) as H; [|rewrite H, removelast_last; reflexivity].
  clear tmp. induction l as [|[n v] l IH]; intros tmp; [cbn; rewrite app_nil_r; reflexivity|].
  cbn [fold_left]. replace (f (tmp ++ [32]) (n, v)) with ((tmp ++ [32] ++ n ++ [61; 34] ++ escape_store true v ++ [34]) ++ [32]).
  - rewrite IH. unfold attribs_text. cbn [map concat fst snd]. rewrite <- !app_assoc. reflexivity.
  - unfold f. cbn [fst snd]. rewrite stored_escape, <- !app_assoc. reflexivity.
Qed.

Fixpoint lines (indent : nat) (l : list Tag) : list Z := match l with [] => [] | c :: l => toXML indent c ++ lines indent l end.

Lemma toXML_children indent name attribs data c0 l0 :
  toXML indent (mkTag name attribs data (c0 :: l0)) =
  appendAttribString attribs (tabs indent ++ [60] ++ name ++ [32]) ++ [62; 13; 10] ++ lines (indent + 1) (c0 :: l0) ++
  tabs indent ++ [60; 47] ++ name ++ [62; 13; 10].
Proof.
  assert (forall l, (fix go (l : list Tag) : list Z := match l with [] => [] | c :: l => toXML (indent + 1) c ++ go l end) l = lines (indent + 1) l) as H.
  { induction l as [|c l IH]; [reflexivity|]. cbn [lines]. rewrite <- IH. reflexivity. }
  rewrite <- H. reflexivity.
Qed.

Lemma toXML_core t indent : toXML indent t = tabs indent ++ core indent t ++ [13; 10].
Proof.
  revert indent. induction t as [name attribs data children IH] using Tag_induction. intros indent.
  assert (appendAttribString attribs (tabs indent ++ [60] ++ name ++ [32]) = tabs indent ++ [60] ++ name ++ attribs_text attribs) as Ha.
  { rewrite !app_assoc, appendAttribString_text, <- !app_assoc. reflexivity. }
  destruct children as [|c0 l0]; [destruct data as [|d0 data]|].
  - cbn [toXML core]. rewrite Ha, <- !app_assoc. reflexivity.
  - cbn [toXML core]. rewrite Ha, stored_escape, <- !app_assoc. reflexivity.
  - rewrite core_children, toXML_children, Ha. set (l := c0 :: l0) in *.
    assert (forall tl, [13; 10] ++ lines (indent + 1) l ++ tl = children_text (indent + 1) l ++ [13; 10] ++ tl) as Hc.
    { intros tl. clearbody l. induction IH as [|c l Hc _ IHl]; [reflexivity|]. cbn [children_text lines]. rewrite Hc.
      repeat (rewrite <- app_assoc; cbn [app]). cbn [app] in IHl. rewrite <- IHl. reflexivity. }
    clearbody l. change ([62; 13; 10] ++ ?t) with (62 :: [13; 10] ++ t). rewrite Hc. repeat (rewrite <- app_assoc; cbn [app]). reflexivity.
Qed.

(** The two directions of [escape]. *)
Lemma escape_load_reference b c tl fuel : special b c = true -> escape_load (S fuel) b (reference c ++ tl) = c :: escape_load fuel b tl.
Proof.
  intros Hc. unfold reference. destruct (Z.eqb_spec c 60) as [-> |]; [reflexivity|]. destruct (Z.eqb_spec c 38) as [-> |]; [reflexivity|].
  destruct (Z.eqb_spec c 62) as [-> |]; [reflexivity|]. unfold special in Hc. destruct b; [|exfalso; lia].
  destruct (Z.eqb_spec c 39) as [-> |]; [reflexivity|]. destruct (Z.eqb_spec c 34) as [-> |]; [reflexivity|]. exfalso. lia.
Qed.

Lemma escape_load_store b s : forall fuel, (length (escape_store b s) <= fuel)%nat -> escape_load fuel b (escape_store b s) = s.
Proof.
  induction s as [|c s IH]; intros fuel Hf; [destruct fuel; reflexivity|]. cbn [escape_store] in *. rewrite length_app in Hf.
  destruct (special b c) eqn:Hc.
  - destruct (reference_cons c (special_le _ _ Hc)) as (r & Hr). destruct fuel as [|fuel]; [rewrite Hr in Hf; cbn in Hf; lia|].
    rewrite escape_load_reference by exact Hc. rewrite IH; [reflexivity|]. rewrite Hr in Hf. cbn in Hf. lia.
  - destruct fuel as [|fuel]; [cbn in Hf; lia|]. cbn [app escape_load]. replace (c =? 38) with false by (unfold special in Hc; lia).
    rewrite IH; [reflexivity|cbn in Hf; lia].
Qed.

Lemma toXML_read_tag t indent : toXML indent (read_tag indent t) = toXML indent t.
Proof.
  revert indent. induction t as [name attribs data children IH] using Tag_induction. intros indent. destruct children as [|c0 l0]; [reflexivity|].
  cbn [read_tag]. cbn [map]. rewrite !toXML_children. change (read_tag (indent + 1) c0 :: map (read_tag (indent + 1)) l0) with (map (read_tag (indent + 1)) (c0 :: l0)).
  do 3 f_equal. set (l := c0 :: l0) in *. clearbody l. induction IH as [|c l Hc _ IHl]; [reflexivity|]. cbn [map lines]. rewrite Hc, IHl. reflexivity.
Qed.

Section Documents.
Context (toLower : list Z -> option (list Z)) (toUtf8 : list Z -> Z -> list Z).
Abbreviation leads := (leads startTag endTag toLower toUtf8).

(** The system leaves the name of the encoding, which is in lower case, as it is. *)
Hypothesis lower_utf8 : toLower utf8_name = Some utf8_name.

(** C17.  A document that is written is read back: the text of a tag after the header gives a document
    with that tag as its only root, with the same names, attributes, data and children (the
    data of a tag with children, which is not written, is white space), and that document has
    the same text.  Names are XML names of up to 260 characters, values have fewer than 65535
    characters and tags at most 256 levels. *)
Theorem document_roundtrip x t :
  tag_ok t -> (tag_depth t <= 256)%nat ->
  exists x', fromXML toLower toUtf8 x (utf8Header ++ toXML 0 t) = Some (inr x') /\
    t_children (sx_root x') = [read_tag 0 t] /\ document_text x' = toXML 0 t.
Proof using lower_utf8.
  intros Hok Hd. set (root := mkTag (t_name (sx_root x)) (t_attribs (sx_root x)) (t_data (sx_root x)) []).
  exists (mkXML (add_child root (read_tag 0 t)) [] 0 false). split; [|split; [reflexivity|apply toXML_read_tag]].
  assert (exists b, core 0 t = 60 :: b) as (b & Hb) by (destruct t; eexists; reflexivity).
  assert (leads (rd (A := TagReader) [] STATE_START (utf8Header ++ toXML 0 t) [] [] [] (root, []))
    (rd utf8_name STATE_CONTENT [13; 10] [] [] [] (add_child root (read_tag 0 t), []))) as H.
  { rewrite toXML_core. cbn [tabs replicate app]. eapply leads_trans; [apply header_reads, lower_utf8|]. rewrite Hb. cbn [app].
    eapply leads_trans; [apply (content_space startTag endTag toLower toUtf8 utf8_name [13; 10] 60); [constructor|reflexivity|reflexivity|unfold MAX_VALUE_SIZE; cbn; lia]|].
    change (60 :: b ++ [13; 10]) with ((60 :: b) ++ [13; 10]). rewrite <- Hb.
    apply (tag_reads toLower toUtf8 utf8_name t _ [] root [] [13; 10]); [constructor|exact Hok|exact Hd|cbn; lia]. }
  destruct (H 0 eq_refl) as (p & _ & Hp). unfold fromXML. fold root. unfold parse. cbn [SimpleXMLReader_new x_buf set_buf app].
  change (set_buf _ _ _) with (rd (A := TagReader) [] STATE_START (utf8Header ++ toXML 0 t) [] [] [] (root, []) 0). rewrite Hp. reflexivity.
Qed.
End Documents.

Lemma document_roundtrip_witness :
  exists x', fromXML (fun s => Some s) (fun s _ => s) SimpleXML_new (utf8Header ++ toXML 0 sample_tag) = Some (inr x') /\
    t_children (sx_root x') = [read_tag 0 sample_tag] /\ document_text x' = toXML 0 sample_tag.
Proof.
  apply (document_roundtrip (fun s => Some s) (fun s _ => s)); [reflexivity| |cbn; lia].
  cbn. unfold name_ok, attrib_ok, name_ok, MAX_VALUE_SIZE. repeat first [constructor|reflexivity|lia|cbn; lia].
Defined.

(** ** The position in a document *)

(** The children that the loop [while (findChild(name))] finds. *)
Fixpoint visit (fuel : nat) (x : SimpleXML) (name : list Z) : list (option Tag) :=
  match fuel with
  | O => []
  | S fuel =>
      match findChild x name with
      | Some (x', true) => selected x' :: visit fuel x' name
      | _ => []
      end
  end.

Definition has_name (name : list Z) (t : Tag) : bool := bool_decide (t_name t = name).

(** The first child of a name from a position on. *)
Lemma find_from_spec name l i :
  (exists l1 t l2, l = l1 ++ t :: l2 /\ t_name t = name /\ List.filter (has_name name) l1 = [] /\ find_from l name i = ((i + length l1)%nat, true)) \/
  (List.filter (has_name name) l = [] /\ find_from l name i = ((i + length l)%nat, false)).
Proof.
  revert i. induction l as [|t l IH]; intros i; cbn [find_from List.filter]; [right; split; [reflexivity|rewrite Nat.add_0_r; reflexivity]|].
  unfold has_name at 2. case_bool_decide as Ht.
  - left. exists [], t, l. cbn. rewrite Nat.add_0_r. auto.
  - destruct (IH (S i)) as [(l1 & u & l2 & -> & Hu & Hf & ->)|[Hf ->]].
    + left. exists (t :: l1), u, l2. split; [reflexivity|]. split; [exact Hu|]. split; [|f_equal; cbn; lia].
      cbn [List.filter]. unfold has_name at 1. rewrite bool_decide_false by exact Ht. exact Hf.
    + right. split; [exact Hf|]. f_equal. cbn. lia.
Qed.

Lemma visit_from t name : forall l2 l1 fuel x, current x = Some t -> t_children t = l1 ++ l2 -> next_child x t = length l1 -> (length l2 < fuel)%nat ->
  visit fuel x name = map Some (List.filter (has_name name) l2).
Proof.
  intros l2. remember (length l2) as n eqn:Hn. revert l2 Hn.
  induction n as [n IH] using lt_wf_ind. intros l2 -> l1 [|fuel] x Hx Hc Hi Hf; [lia|].
  cbn [visit]. unfold findChild. rewrite Hx. cbn [mbind option_bind]. rewrite Hi, Hc, drop_app_length.
  destruct (find_from_spec name l2 (length l1)) as [(m1 & u & m2 & -> & Hu & Hm & ->)|[-> ->]]; [|reflexivity].
  set (x' := at_child x _ true). assert (current x' = Some t) as Hx' by exact Hx.
  assert (selected x' = Some u) as ->.
  { unfold selected. rewrite Hx'. cbn [mbind option_bind x' at_child sx_child]. rewrite Hc. rewrite app_assoc, <- length_app. apply list_lookup_middle. reflexivity. }
  rewrite List.filter_app, Hm. cbn [app List.filter]. unfold has_name at 1. rewrite bool_decide_true by exact Hu. cbn [map]. f_equal.
  apply (IH (length m2)) with (l1 := l1 ++ m1 ++ [u]); [rewrite length_app; cbn; lia|reflexivity|exact Hx'|rewrite Hc, <- !app_assoc; reflexivity| |rewrite length_app in Hf; cbn in Hf; lia].
  unfold next_child. cbn [x' at_child sx_found sx_child andb]. rewrite Hc, !length_app. cbn [length].
  rewrite (proj2 (Nat.ltb_lt _ _)) by lia. lia.
Qed.

(** The loop over [findChild] from the first child on finds exactly the children of that name,
    in their order. *)
Theorem findChild_visits x t name : current x = Some t ->
  visit (S (length (t_children t))) (resetCurrentChild x) name = map Some (List.filter (has_name name) (t_children t)).
Proof. intros Hx. apply (visit_from t name (t_children t) []); [exact Hx|reflexivity|reflexivity|lia]. Qed.

Definition sample_document : SimpleXML := mkXML (add_child empty_root sample_tag) [0%nat] 0 false.

Lemma findChild_visits_witness :
  visit 4 (resetCurrentChild sample_document) [66] = map Some (List.filter (has_name [66]) (t_children sample_tag)) /\
  length (visit 4 (resetCurrentChild sample_document) [66]) = 2%nat.
Proof. split; [apply (findChild_visits sample_document sample_tag [66]); reflexivity|reflexivity]. Defined.

(** *** Building a document *)

(** A client adds a tag with its attributes, steps into it for its children, and out again. *)
Definition inr_of {A B} (x : option (A + B)) : option B := match x with Some (inr b) => Some b | _ => None end.

Fixpoint add_attribs (x : SimpleXML) (l : list (list Z * list Z)) : option SimpleXML :=
  match l with [] => Some x | (n, v) :: l => x ← addChildAttrib x n v; add_attribs x l end.

Fixpoint build (x : SimpleXML) (t : Tag) : option SimpleXML :=
  match t with
  | mkTag name attribs data children =>
      x ← inr_of (addTag x name data);
      x ← add_attribs x attribs;
      x ← stepIn x;
      x ← (fix go (x : SimpleXML) (l : list Tag) : option SimpleXML :=
             match l with [] => Some x | c :: l => x ← build x c; go x l end) x children;
      inr_of (Some (stepOut x))
  end.

Fixpoint named_tags (t : Tag) : Prop :=
  match t with
  | mkTag name _ _ children =>
      name <> [] /\ (fix go (l : list Tag) : Prop := match l with [] => True | c :: l => named_tags c /\ go l end) children
  end.

Lemma tag_at_change path f t c : tag_at path t = Some c -> tag_at path (change_at path f t) = Some (f c).
Proof.
  revert t. induction path as [|i path IH]; intros t H; cbn in *; [congruence|].
  destruct (t_children t !! i) as [u|] eqn:E; [|discriminate]. rewrite list_lookup_alter, decide_True, E by reflexivity. cbn in *. apply IH, H.
Qed.

Lemma change_at_ext path f g t c : tag_at path t = Some c -> f c = g c -> change_at path f t = change_at path g t.
Proof.
  revert t. induction path as [|i path IH]; intros t H Hfg; cbn in *; [congruence|]. f_equal.
  destruct (t_children t !! i) as [u|] eqn:E; [|discriminate]. apply list_alter_ext; [|reflexivity]. intros u' Hu'. rewrite E in Hu'. injection Hu' as <-.
  apply IH; assumption.
Qed.

Lemma change_at_twice path f g t : change_at path f (change_at path g t) = change_at path (fun c => f (g c)) t.
Proof.
  revert t. induction path as [|i path IH]; intros t; cbn; [reflexivity|]. f_equal. rewrite list_alter_alter_eq.
  apply list_alter_ext; [|reflexivity]. intros u _. apply IH.
Qed.

Definition change_child (i : nat) (f : Tag -> Tag) (c : Tag) : Tag := mkTag (t_name c) (t_attribs c) (t_data c) (alter f i (t_children c)).

Lemma change_at_snoc path i f t : change_at (path ++ [i]) f t = change_at path (change_child i f) t.
Proof.
  revert t. induction path as [|j path IH]; intros t; cbn; [reflexivity|]. f_equal. apply list_alter_ext; [|reflexivity]. intros u _. apply IH.
Qed.

Lemma tag_at_snoc path i t : tag_at (path ++ [i]) t = (c ← tag_at path t; t_children c !! i).
Proof.
  revert t. induction path as [|j path IH]; intros t; cbn; [destruct (t_children t !! i); reflexivity|].
  destruct (t_children t !! j); cbn; [apply IH|reflexivity].
Qed.

(** The child added last is changed. *)
Lemma change_added path c t u f : tag_at path t = Some c ->
  change_at (path ++ [length (t_children c)]) f (change_at path (fun c => add_child c u) t) = change_at path (fun c => add_child c (f u)) t /\
  tag_at (path ++ [length (t_children c)]) (change_at path (fun c => add_child c u) t) = Some u.
Proof.
  intros Hc. split.
  - rewrite change_at_snoc, change_at_twice. apply (change_at_ext path _ _ t c Hc). unfold change_child, add_child. cbn. f_equal.
    rewrite alter_app_r_alt, Nat.sub_diag by lia. reflexivity.
  - rewrite tag_at_snoc, (tag_at_change path _ t c Hc). cbn. apply list_lookup_middle. reflexivity.
Qed.

(** A tag [u] has been added at [path] and is selected. *)
Definition added (root : Tag) (path : list nat) (n : nat) (u : Tag) (x : SimpleXML) : Prop :=
  sx_root x = change_at path (fun c => add_child c u) root /\ sx_current x = path /\ sx_child x = n.

Lemma add_attribs_ok root path c l x u : tag_at path root = Some c -> added root path (length (t_children c)) u x ->
  exists x', add_attribs x l = Some x' /\ added root path (length (t_children c)) (mkTag (t_name u) (t_attribs u ++ l) (t_data u) (t_children u)) x'.
Proof.
  intros Hc. revert x u. induction l as [|[n v] l IH]; intros x u (H1 & H2 & H3).
  { exists x. split; [reflexivity|]. split; [|auto]. rewrite app_nil_r. destruct u. exact H1. }
  destruct (change_added path c root u (add_attrib n v) Hc) as [Hch Hat]. cbn [add_attribs]. unfold addChildAttrib, selected, current.
  rewrite tag_at_snoc in Hat. rewrite H1, H2, H3, Hat. cbn [mbind option_bind]. rewrite Hch.
  destruct (IH (mkXML (change_at path (fun c => add_child c (add_attrib n v u)) root) path (length (t_children c)) (sx_found x)) (add_attrib n v u))
    as (x' & Hx' & Hadd); [repeat split|]. exists x'. split; [exact Hx'|]. cbn in Hadd. rewrite <- app_assoc in Hadd. exact Hadd.
Qed.

(** An attribute that is new is found again. *)
Lemma addChildAttrib_get x c name data x' d : selected x = Some c -> find_attrib (t_attribs c) name = None -> addChildAttrib x name data = Some x' ->
  getChildAttrib x' name d = Some data.
Proof.
  intros Hs Hf Ha. unfold addChildAttrib in Ha. rewrite Hs in Ha. cbn [mbind option_bind] in Ha. injection Ha as <-.
  unfold getChildAttrib, selected, current in *. cbn [sx_root sx_current sx_child]. rewrite <- tag_at_snoc in *.
  rewrite (tag_at_change _ _ _ c Hs). cbn [mbind option_bind]. unfold tag_getAttrib, find_attrib in *. cbn [add_attrib t_attribs].
  destruct (find (fun p => bool_decide (fst p = name)) (t_attribs c)) as [a|] eqn:E; [discriminate|].
  assert (find (fun p => bool_decide (fst p = name)) (t_attribs c ++ [(name, data)]) = Some (name, data)) as ->; [|reflexivity].
  clear -E. induction (t_attribs c) as [|a l IH]; cbn in *; [rewrite bool_decide_true by reflexivity; reflexivity|]. destruct (bool_decide _); [discriminate|auto].
Qed.

(** A number kept in an attribute is read again. *)
Lemma number_attrib x c name n x' : selected x = Some c -> find_attrib (t_attribs c) name = None -> 48 + Z.abs n < 2 ^ 63 ->
  addChildAttrib_number x name n = Some x' -> getInt64ChildAttrib x' name = Some n.
Proof.
  intros Hs Hf Hn Ha. unfold addChildAttrib_number in Ha. destruct (number_text 64 n [] Hn ltac:(lia) I) as (t & Ht & Hr). rewrite Ht in Ha.
  unfold getInt64ChildAttrib. rewrite (addChildAttrib_get x c name t x' [] Hs Hf Ha). cbn [mbind option_bind]. rewrite app_nil_r in Hr. exact Hr.
Qed.

Fixpoint build_all (x : SimpleXML) (l : list Tag) : option SimpleXML :=
  match l with [] => Some x | c :: l => x ← build x c; build_all x l end.

Lemma build_eq x name attribs data children : build x (mkTag name attribs data children) =
  (x ← inr_of (addTag x name data); x ← add_attribs x attribs; x ← stepIn x; x ← build_all x children; inr_of (Some (stepOut x))).
Proof.
  assert (forall l x, (fix go (x : SimpleXML) (l : list Tag) : option SimpleXML :=
    match l with [] => Some x | c :: l => x ← build x c; go x l end) x l = build_all x l) as H.
  { induction l as [|c l IH]; intros y; [reflexivity|]. cbn [build_all]. destruct (build y c); [apply IH|reflexivity]. }
  cbn [build]. destruct (inr_of _) as [y|]; [|reflexivity]. cbn [mbind option_bind]. destruct (add_attribs y attribs) as [z|]; [|reflexivity].
  cbn [mbind option_bind]. destruct (stepIn z) as [w|]; [|reflexivity]. cbn [mbind option_bind]. rewrite H. reflexivity.
Qed.

(** Building a tag adds it to the current one. *)
Definition builds (t : Tag) : Prop := forall x c,
  named_tags t -> current x = Some c -> (sx_current x = [] -> t_children c = []) ->
  exists x', build x t = Some x' /\ added (sx_root x) (sx_current x) (length (t_children c)) t x'.

Lemma build_all_ok l root path c x u : Forall builds l -> Forall named_tags l -> tag_at path root = Some c ->
  sx_root x = change_at path (fun c => add_child c u) root -> sx_current x = path ++ [length (t_children c)] ->
  exists x', build_all x l = Some x' /\ sx_root x' = change_at path (fun c => add_child c (add_children u l)) root /\
    sx_current x' = path ++ [length (t_children c)].
Proof.
  intros Hl Hn Hc. revert x u. induction Hl as [|t l Ht _ IH]; intros x u H1 H2.
  { exists x. split; [reflexivity|]. split; [|exact H2]. unfold add_children. rewrite app_nil_r. destruct u. exact H1. }
  apply Forall_cons in Hn as [Hn Hns]. destruct (change_added path c root u (fun u => add_child u t) Hc) as [Hch Hat].
  destruct (Ht x u Hn) as (x1 & Hb & Ha1 & Ha2 & _); [unfold current; rewrite H1, H2; exact Hat|intros H; rewrite H2 in H; destruct path; discriminate|].
  destruct (IH Hns x1 (add_child u t)) as (x' & H3 & H4 & H5); [rewrite Ha1, H1, H2; exact Hch|congruence|].
  exists x'. cbn [build_all]. rewrite Hb. split; [exact H3|]. split; [|exact H5]. rewrite H4. unfold add_children. cbn. rewrite <- app_assoc. reflexivity.
Qed.

Lemma build_ok t : builds t.
Proof.
  induction t as [name attribs data children IH] using Tag_induction. intros x c [Hname Hnamed] Hc Hroot. rewrite build_eq.
  assert (Forall named_tags children) as Hns by (clear -Hnamed; induction children as [|c l IHl]; constructor; [apply Hnamed|apply IHl, Hnamed]).
  unfold addTag. rewrite bool_decide_false by exact Hname. rewrite Hc. cbn [mbind option_bind].
  assert (bool_decide (sx_current x = []) && negb (bool_decide (t_children c = [])) = false) as ->.
  { case_bool_decide as Hp; [|reflexivity]. rewrite bool_decide_true by (apply Hroot, Hp). reflexivity. }
  cbn [inr_of mbind option_bind]. set (root := sx_root x) in *. set (path := sx_current x) in *.
  destruct (add_attribs_ok root path c attribs (mkXML (change_at path (fun t => add_child t (mkTag name [] data [])) root) path (length (t_children c)) (sx_found x))
    (mkTag name [] data []) Hc) as (x1 & -> & H1 & H2 & H3); [repeat split|]. cbn [mbind option_bind t_name t_attribs t_data t_children app] in *.
  set (u := mkTag name attribs data []) in *. destruct (change_added path c root u id Hc) as [_ Hat]. rewrite tag_at_snoc in Hat.
  unfold stepIn, selected, current. rewrite H1, H2, H3, Hat. cbn [mbind option_bind].
  destruct (build_all_ok children root path c (mkXML (change_at path (fun c => add_child c u) root) (path ++ [length (t_children c)]) 0 false) u)
    as (x2 & -> & H4 & H5); [exact IH|exact Hns|exact Hc|reflexivity|reflexivity|]. cbn [mbind option_bind].
  unfold stepOut. rewrite H5, last_snoc, removelast_last. eexists. split; [reflexivity|]. split; [|split; reflexivity]. exact H4.
Qed.

(** A document built tag by tag ([addTag], [addChildAttrib], [stepIn], [stepOut]) has the tag as
    its root and its text, and the position is at the root tag again. *)
Theorem build_document t : named_tags t ->
  exists x, build SimpleXML_new t = Some x /\ t_children (sx_root x) = [t] /\ document_text x = toXML 0 t /\ selected x = Some t.
Proof.
  intros Ht. destruct (build_ok t SimpleXML_new empty_root Ht eq_refl) as (x & Hx & H1 & H2 & H3); [reflexivity|].
  exists x. split; [exact Hx|]. unfold document_text, selected, current. rewrite H1, H2, H3. repeat split.
Qed.

Lemma build_document_witness : exists x, build SimpleXML_new sample_tag = Some x /\ t_children (sx_root x) = [sample_tag] /\
  document_text x = toXML 0 sample_tag /\ selected x = Some sample_tag.
Proof. apply (build_document sample_tag). cbn. repeat split; discriminate. Defined.

(** ** Texts that are not read as they should be *)

(** Character data ends at two brackets, so that the bracket after them is data of the tag; the
    character data itself is dropped. *)
Example cdata_is_lost : exists x, sample_load [60; 65; 62; 60; 33; 91; 67; 68; 65; 84; 65; 91; 120; 93; 93; 62; 60; 47; 65; 62] = Some (inr x) /\
  t_children (sx_root x) = [mkTag [65] [] [62] []].
Proof. eexists. split; vm_compute; reflexivity. Qed.

(** A text that ends inside a tag is accepted. *)
Example open_tag_accepted : exists x, sample_load [60; 65; 62; 60; 66; 47; 62] = Some (inr x) /\
  t_children (sx_root x) = [mkTag [65] [] [] [mkTag [66] [] [] []]].
Proof. eexists. split; vm_compute; reflexivity. Qed.

(** Version 1.10 is not: digits after the first are compared with the numbers 0 to 9. *)
Example version_rejected : exists e, sample_load
  [60; 63; 120; 109; 108; 32; 118; 101; 114; 115; 105; 111; 110; 61; 34; 49; 46; 49; 48; 34; 63; 62; 60; 65; 47; 62] = Some (inl e).
Proof. eexists. vm_compute. reflexivity. Qed.
