(* ===== verification/XmlStream.v ===== *)
(** * Reading XML from a stream in pieces: [SimpleXMLReader::parse] of [client/SimpleXMLReader.cpp]

    The reader gets a text in the pieces that a stream returns.  Here: what the listener has been
    told when the reader ends, also by an exception, and that the pieces do not matter.  They do
    for a reference with a number of five digits ([reference_cut]), so that [&#] is excluded. *)

From S2P Require Import Prelude StrUtil Text XmlReader XmlText PathUtil.
From Stdlib Require Import (notations) String.

Section Stream.
Context {A : Type}.
Context (startTag : A -> list Z -> list (list Z * list Z) -> bool -> XmlError + A)
  (endTag : A -> list Z -> list Z -> XmlError + A).
Context (toLower : list Z -> option (list Z)) (toUtf8 : list Z -> Z -> list Z).

Abbreviation R := (@Reader A).
Abbreviation Result := (option (XmlError + (bool * @Reader A))).
Abbreviation xstep := (step startTag endTag toLower toUtf8).
Abbreviation xprocess := (process startTag endTag toLower toUtf8).
Abbreviation xloop := (process_loop startTag endTag toLower toUtf8).

(** ** The listener at the end *)

(** The state of a listener that does not throw, after [process], which may throw. *)
Fixpoint last_loop (fuel : nat) (r : R) : option A :=
  match fuel with
  | O => None
  | S fuel =>
      if bool_decide (x_state r = STATE_END) then Some (x_a r)
      else
        match xstep r with
        | Some (inr (_, r')) => if stalled r r' then Some (x_a r') else last_loop fuel (settle r r')
        | Some (inl _) => Some (x_a r)
        | None => None
        end
  end.

Definition last_state (r : R) : option A := last_loop (S (length (x_buf r))) r.

(** More characters. *)
Definition feed (r : R) (b : list Z) : R := set_buf r (x_buf r ++ b) (x_pos r).

(** After [parse] of a stream. *)
Fixpoint stream_state (r : R) (maxSize bytesRead : Z) (chunks : list (list Z)) : option A :=
  match chunks with
  | [] => Some (x_a r)
  | data :: chunks =>
      let n := bytesRead + Z.of_nat (length data) in
      if (0 <? maxSize) && (maxSize <? n) then Some (x_a r)
      else if bool_decide (data = []) then Some (x_a r)
      else
        match parse startTag endTag toLower toUtf8 r data with
        | Some (inr (true, r)) => stream_state r maxSize n chunks
        | Some (inr (false, r)) => Some (x_a r)
        | Some (inl _) => last_state (feed r data)
        | None => None
        end
  end.

Lemma last_loop_ok fuel r b r' : xloop fuel r = Some (inr (b, r')) -> last_loop fuel r = Some (x_a r').
Proof using.
  revert r. induction fuel as [|fuel IH]; intros r H; [discriminate|]. cbn [process_loop last_loop] in *.
  destruct (bool_decide _); [injection H as <- <-; reflexivity|]. destruct (xstep r) as [[e|[b1 r1]]|]; try discriminate.
  destruct (stalled r r1); [injection H as <- <-; reflexivity|]. apply IH, H.
Qed.

Lemma last_state_ok r b r' : xprocess r = Some (inr (b, r')) -> last_state r = Some (x_a r').
Proof using. apply last_loop_ok. Qed.

(** ** More characters do not change what was done *)

Definition throws (x : Result) : Prop := exists e, x = Some (inl e).

(** The same, up to the exception. *)
Definition same (x y : Result) : Prop := x = y \/ throws x /\ throws y.

Lemma same_refl x : same x x.
Proof using. left. reflexivity. Qed.
Lemma same_sym x y : same x y -> same y x.
Proof using. intros [-> |[? ?]]; [left; reflexivity|right; auto]. Qed.
Lemma same_trans x y z : same x y -> same y z -> same x z.
Proof using. intros [-> |[H1 H2]]; [auto|]. intros [<- |[H3 H4]]; right; auto. Qed.

(** The position does not leave its type; where an element or an attribute is read there is one;
    the declaration has been read. *)
Definition attr_state (s : ParseState) : bool :=
  match s with
  | STATE_ELEMENT_ATTR_NAME | STATE_ELEMENT_ATTR_EQ | STATE_ELEMENT_ATTR_VALUE | STATE_ELEMENT_ATTR_VALUE_QUOT | STATE_ELEMENT_ATTR_VALUE_APOS => true
  | _ => false
  end.

Record rinv (r : R) : Prop := {
  rinv_named : named r;
  rinv_pos : u64 (x_pos r) = x_pos r;
  rinv_attr : attr_state (x_state r) = true -> x_attribs r <> [];
  rinv_elem : x_state r = STATE_ELEMENT_NAME -> x_elements r <> [];
  rinv_past : past_decl (x_state r) = true
}.

Definition nohash (b : list Z) : Prop := find_str [38; 35] b = None.

(** What is done on some characters is done on more, or is left until there are more. *)
Definition sharp (f : R -> Result) : Prop := forall r b, rinv r -> nohash (x_buf r ++ b) ->
  match f r with
  | None => True
  | Some (inl _) => throws (f (feed r b))
  | Some (inr (c, r')) => (c = false -> r' = r) /\ (f (feed r b) = Some (inr (c, feed r' b)) \/ c = true /\ r' = r)
  end.

Lemma feed_advance r b n : (n <= length (x_buf r))%nat -> advancePos (feed r b) n = feed (advancePos r n) b.
Proof using. intros H. unfold advancePos, feed, set_buf. cbn. rewrite drop_app_le by exact H. reflexivity. Qed.

Lemma advance_0 (r : R) : u64 (x_pos r) = x_pos r -> advancePos r 0 = r.
Proof using. intros H. unfold advancePos, set_buf. rewrite drop_0, Z.add_0_r, H. destruct r. reflexivity. Qed.

Lemma advance_advance (r : R) n m : advancePos (advancePos r n) m = advancePos r (n + m).
Proof using. unfold advancePos, set_buf. cbn. rewrite drop_drop, u64_add_u64, Nat2Z.inj_add, Z.add_assoc. reflexivity. Qed.

Lemma needChars_feed r b n : needChars r n = true -> needChars (feed r b) n = true.
Proof using. unfold needChars. cbn. rewrite length_app, !Nat.leb_le. lia. Qed.

Lemma charAt_feed r b n k : needChars r k = true -> (n < k)%nat -> charAt (feed r b) n = charAt r n.
Proof using. unfold needChars, charAt. cbn. rewrite Nat.leb_le. intros H1 H2. apply app_nth1. lia. Qed.

Lemma sharp_alt f g : sharp f -> sharp g -> sharp (alt f g).
Proof using.
  intros Hf Hg r b Hr Hb. specialize (Hf r b Hr Hb). unfold alt. destruct (f r) as [[e|[[|] r1]]|]; [|destruct Hf as [H1 H2]..|exact I].
  - destruct Hf as [e' ->]. exists e'. reflexivity.
  - split; [discriminate|]. destruct H2 as [-> |H2]; [left; reflexivity|right; exact H2].
  - rewrite (H1 eq_refl) in *. destruct H2 as [-> |[H2 _]]; [|discriminate]. exact (Hg r b Hr Hb).
Qed.

Lemma sharp_throw e : sharp (fun r => throw r e).
Proof using. intros r b _ _. cbn. eexists. reflexivity. Qed.

(** The characters of a literal. *)
Lemma lit_match_feed buf b lit n : 
  match lit_match buf lit n with
  | None => lit_match (buf ++ b) lit n = None
  | Some m => m = (n + length lit)%nat -> lit_match (buf ++ b) lit n = Some m
  end.
Proof using.
  revert buf n. induction lit as [|l lit IH]; intros [|x buf] n; cbn [lit_match app length].
  - intros ->. destruct b; reflexivity.
  - reflexivity.
  - intros H. lia.
  - destruct (x =? l); [|reflexivity]. specialize (IH buf (S n)). destruct (lit_match buf lit (S n)); [|exact IH]. intros ->. apply IH. lia.
Qed.

Ltac wait := split; [first [discriminate|reflexivity]|right; split; reflexivity].
Ltac done_same := split; [first [discriminate|reflexivity]|left].

Lemma sharp_literal lit sp st : lit <> [] -> sharp (literal lit sp st).
Proof using.
  intros Hl r b Hr _. unfold literal. pose proof (lit_match_feed (x_buf r) b lit 0) as Hm. cbn [x_buf feed set_buf].
  destruct (lit_match (x_buf r) lit 0) as [n|] eqn:E; [|rewrite Hm; done_same; reflexivity].
  apply lit_match_le in E as [E _]. destruct (Nat.eqb_spec n (length lit)) as [-> |Hne]; [|wait].
  rewrite (Hm eq_refl), Nat.eqb_refl. destruct sp.
  - destruct (Nat.eqb_spec (length lit) (length (x_buf r))) as [|Hne]; [wait|].
    rewrite length_app, (proj2 (Nat.eqb_neq _ _)) by lia.
    rewrite (charAt_feed r b (length lit) (S (length lit))) by (unfold needChars; rewrite ?Nat.leb_le; lia).
    destruct (negb _); done_same; [reflexivity|]. unfold ret. rewrite feed_advance by lia. reflexivity.
  - done_same. unfold ret. rewrite feed_advance by lia. reflexivity.
Qed.

Ltac chars r b :=
  match goal with |- context [needChars r ?n] =>
    let E := fresh "En" in destruct (needChars r n) eqn:E; cbn [negb];
    [rewrite ?(needChars_feed r b n E); cbn [negb];
     repeat match goal with |- context [charAt (feed r b) ?k] => rewrite (charAt_feed r b k n E) by lia end;
     apply Nat.leb_le in E|wait] end.

Lemma sharp_character c st : sharp (character c st).
Proof using.
  intros r b Hr _. unfold character. chars r b. destruct (_ =? c); done_same; [|reflexivity]. unfold ret. rewrite feed_advance by lia. reflexivity.
Qed.

Lemma sharp_element : sharp element.
Proof using.
  intros r b Hr _. unfold element. chars r b. destruct (_ && _); [|done_same; reflexivity].
  change (x_elements (feed r b)) with (x_elements r). destruct (_ <=? _)%nat; [eexists; reflexivity|].
  done_same. unfold ret. do 3 f_equal. apply (feed_advance (set_elements (set_xstate r STATE_ELEMENT_NAME) _)). exact En.
Qed.

Lemma sharp_elementAttr : sharp elementAttr.
Proof using.
  intros r b Hr _. unfold elementAttr. chars r b. destruct (isNameStartChar _); [|done_same; reflexivity].
  done_same. unfold ret. do 3 f_equal. apply (feed_advance (set_xstate (set_xattribs r _) STATE_ELEMENT_ATTR_NAME)). exact En.
Qed.

Lemma sharp_ends : sharp (elementEndSimple startTag) /\ sharp (elementEndComplex startTag) /\ sharp elementEnd /\ sharp (elementEndEnd endTag toUtf8).
Proof using.
  split; [|split; [|split]]; intros r b Hr _.
  - unfold elementEndSimple. chars r b. destruct (_ =? 62); [|done_same; reflexivity]. unfold call_start. change (top (feed r b)) with (top r).
    cbn [x_a x_attribs feed set_buf]. destruct (startTag _ _ _ _) as [e|a]; [eexists; reflexivity|]. done_same. unfold ret. do 3 f_equal.
    apply (feed_advance (set_xstate (set_elements (set_xattribs (set_a r a) []) _) STATE_CONTENT)). exact En.
  - unfold elementEndComplex. chars r b. destruct (_ =? 62); [|done_same; reflexivity]. unfold call_start. change (top (feed r b)) with (top r).
    cbn [x_a x_attribs feed set_buf]. destruct (startTag _ _ _ _) as [e|a]; [eexists; reflexivity|]. done_same. unfold ret. do 3 f_equal.
    apply (feed_advance (set_xstate (set_xattribs (set_a r a) []) STATE_CONTENT)). exact En.
  - unfold elementEnd. change (x_elements (feed r b)) with (x_elements r). destruct (x_elements r) as [|e l]; [done_same; reflexivity|]. chars r b.
    cbn [x_buf feed set_buf]. rewrite take_app_le by exact En. destruct (bool_decide _); [|done_same; reflexivity].
    done_same. unfold ret. do 3 f_equal. apply (feed_advance (set_xstate r STATE_ELEMENT_END_END)). exact En.
  - unfold elementEndEnd. chars r b. destruct (_ =? 62); [|done_same; reflexivity]. change (x_charset (feed r b)) with (x_charset r).
    destruct (negb (x_charset r =? CHARSET_UTF8)); cbn [x_a x_value feed set_buf set_value]; change (top (feed ?r b)) with (top r);
      (destruct (endTag _ _ _) as [e|a]; [eexists; reflexivity|]); done_same; unfold ret; do 3 f_equal.
    + apply (feed_advance (set_xstate (set_elements (set_value (set_a (set_value r _) a) []) _) STATE_CONTENT)). exact En.
    + apply (feed_advance (set_xstate (set_elements (set_value (set_a r a) []) _) STATE_CONTENT)). exact En.
Qed.

Lemma span_feed p l b : (span p l < length l)%nat -> span p (l ++ b) = span p l.
Proof using. induction l as [|c l IH]; cbn; [lia|]. destruct (p c); [|reflexivity]. intros H. rewrite IH by lia. reflexivity. Qed.

Lemma span_all p l b : span p l = length l -> span p (l ++ b) = (length l + span p b)%nat.
Proof using. induction l as [|c l IH]; cbn; [reflexivity|]. destruct (p c); [|lia]. intros H. rewrite IH by lia. reflexivity. Qed.

(** *** References *)

Lemma combine_feed (x b l : list Z) : (length l <= length x)%nat -> combine (x ++ b) l = combine x l.
Proof using. revert x. induction l as [|c l IH]; intros [|a x] H; cbn in *; try lia; [destruct b; reflexivity|reflexivity|]. rewrite IH by lia. reflexivity. Qed.

Lemma nohash_second (t b : list Z) (c : Z) : nohash ((38 :: c :: t) ++ b) -> c <> 35.
Proof using. intros H ->. discriminate. Qed.

Lemma entity_feed (a : Z) (t b : list Z) : (6 < length (38%Z :: a :: t))%nat -> a <> 35 -> entity ((38 :: a :: t) ++ b) = entity (38 :: a :: t).
Proof using.
  intros Hl Ha. unfold entity. cbn [length app] in *. rewrite length_app.
  rewrite (proj2 (Nat.ltb_lt 6 (S (S (length t))))), (proj2 (Nat.ltb_lt 6 _)) by lia.
  assert (forall t k, dec_ref (38 :: a :: t) k = false) as Hd by (intros; unfold dec_ref; cbn [nth]; rewrite (proj2 (Z.eqb_neq _ _) Ha); reflexivity).
  assert (forall t k, hex_ref (38 :: a :: t) k = false) as Hh by (intros; unfold hex_ref; cbn [nth]; rewrite (proj2 (Z.eqb_neq _ _) Ha); reflexivity).
  rewrite !Hd, !Hh. change (drop 1 (38 :: a :: ?t)) with (a :: t). change (a :: t ++ b) with ((a :: t) ++ b).
  rewrite !combine_feed by (cbn; lia). reflexivity.
Qed.

Lemma entref_feed d upd r b t : x_buf r = 38 :: t -> nohash (x_buf r ++ b) -> u64 (x_pos r) = x_pos r ->
  (forall r s, x_buf (upd r s) = x_buf r /\ x_pos (upd r s) = x_pos r /\ upd (feed r b) s = feed (upd r s) b) ->
  match entref d upd r with
  | None => False
  | Some (inl _) => throws (entref d upd (feed r b))
  | Some (inr (c, r')) => (c = false -> r' = r) /\ (entref d upd (feed r b) = Some (inr (c, feed r' b)) \/ c = true /\ r' = upd r d)
  end.
Proof using.
  intros Hb Hn Hp Hu. unfold entref. destruct (_ <=? _); [eexists; reflexivity|]. cbn [x_buf feed set_buf]. rewrite Hb in *.
  destruct (Nat.ltb_spec 6 (length (38%Z :: t))) as [Hl|Hl].
  - destruct t as [|a t]; [cbn in Hl; lia|]. rewrite (entity_feed a t b Hl (nohash_second _ _ _ Hn)).
    destruct (entity (38 :: a :: t)) as [[n x]|] eqn:E; [|done_same; reflexivity]. apply entity_len in E as [E _].
    destruct (Hu r (d ++ x)) as (H1 & _ & H2). done_same. unfold ret. rewrite H2, feed_advance by (rewrite H1, Hb; exact E). reflexivity.
  - assert (entity (38 :: t) = Some (0%nat, [])) as -> by (unfold entity; rewrite (proj2 (Nat.ltb_ge _ _) Hl); reflexivity).
    split; [discriminate|]. right. split; [reflexivity|]. rewrite app_nil_r. apply advance_0. destruct (Hu r d) as (_ & -> & _). exact Hp.
Qed.

Lemma needChars_cons (r : R) : needChars r 1 = true -> exists c t, x_buf r = c :: t /\ charAt r 0 = c.
Proof using. unfold needChars, charAt. destruct (x_buf r) as [|c t]; [discriminate|]. intros _. exists c, t. split; reflexivity. Qed.

Lemma appending_feed r b str m t k k' :
  (forall s, match k s with None => True | Some (inl _) => throws (k' s) | Some (inr (c, r')) => k' s = Some (inr (c, feed r' b)) end) ->
  match appending r str m t k with None => True | Some (inl _) => throws (appending (feed r b) str m t k') | Some (inr (c, r')) => appending (feed r b) str m t k' = Some (inr (c, feed r' b)) end.
Proof using. intros H. unfold appending. destruct (appended str m t) as [s|]; [apply H|eexists; reflexivity]. Qed.

Lemma sharp_content : sharp content.
Proof using.
  intros r b Hr Hn. unfold content. destruct (needChars r 1) eqn:En; cbn [negb]; [|wait]. rewrite (needChars_feed r b 1 En). cbn [negb].
  rewrite (charAt_feed r b 0 1 En) by lia. destruct (needChars_cons r En) as (c & t & Hb & ->). change (x_value (feed r b)) with (x_value r).
  destruct (c =? 60); [destruct (bool_decide _); [done_same; reflexivity|eexists; reflexivity]|].
  destruct (Z.eqb_spec c 38) as [-> |Hc].
  - pose proof (entref_feed (x_value r) set_value r b t Hb Hn (rinv_pos r Hr) ltac:(repeat split)) as H.
    destruct (entref (x_value r) set_value r) as [[e|[c r']]|]; [exact H| |exact I]. destruct H as [H1 H2]. split; [exact H1|].
    destruct H2 as [H2|[H2 H3]]; [left; exact H2|right; split; [exact H2|]]. rewrite H3. destruct r; reflexivity.
  - unfold appending. destruct (appended _ _ _) as [v|]; [|eexists; reflexivity]. done_same. unfold ret. do 3 f_equal.
    apply (feed_advance (set_value r v)). cbn [x_buf set_value]. rewrite Hb. cbn. lia.
Qed.

(** *** Spaces *)

(** What has been used up of the characters is not looked at again. *)
Definition partly (F : R -> Result) (r r' : R) (b : list Z) : Prop :=
  x_state r' = x_state r /\ (length (x_buf r') < length (x_buf r))%nat /\ same (F (feed r b)) (F (feed r' b)).

Lemma skip_feed store r b : rinv r ->
  match skipSpace store r with
  | None => False
  | Some (inl _) => throws (skipSpace store (feed r b))
  | Some (inr (false, r')) => r' = r /\ skipSpace store (feed r b) = Some (inr (false, feed r b))
  | Some (inr (true, r')) =>
      skipSpace store (feed r b) = Some (inr (true, feed r' b)) \/ r' = r \/
      partly (skipSpace store) r r' b /\ exists c t, x_buf (feed r' b) = c :: t /\ isSpace c = true
  end.
Proof using.
  intros Hr. unfold skipSpace. destruct (needChars r 1) eqn:En; cbn [negb]; [|right; left; reflexivity].
  rewrite (needChars_feed r b 1 En). cbn [negb x_buf x_value feed set_buf]. pose proof (span_le isSpace (x_buf r)) as Hle. apply Nat.leb_le in En.
  destruct (Nat.lt_ge_cases (span isSpace (x_buf r)) (length (x_buf r))) as [Hlt|Hge].
  - rewrite span_feed by exact Hlt. rewrite take_app_le by lia. set (n := span isSpace (x_buf r)) in *. destruct (_ && _ && _); [eexists; reflexivity|].
    destruct n as [|n].
    + cbn [Nat.ltb Nat.leb]. unfold ret. rewrite take_0, !app_nil_r.
      assert (set_value (advancePos r 0) (if store then x_value r else x_value r) = r) as Hv by (rewrite advance_0 by apply Hr; destruct store, r; reflexivity).
      split; [exact Hv|]. do 3 f_equal. rewrite feed_advance, advance_0 by (lia || apply Hr). destruct store, r; reflexivity.
    + change (0 <? S n)%nat with true. unfold ret. left. do 3 f_equal. rewrite feed_advance by lia. reflexivity.
  - assert (span isSpace (x_buf r) = length (x_buf r)) as Hs by lia. rewrite (span_all _ _ b Hs), Hs.
    rewrite take_app_add, firstn_all, (proj2 (Nat.ltb_lt 0 (length (x_buf r)))), (proj2 (Nat.ltb_lt 0 (length (x_buf r) + _))) by lia.
    remember (span isSpace b) as m eqn:Em. set (v' := fun x => if store then x_value r ++ x else x_value r).
    assert (forall x, v' (x_buf r ++ x) = if store then v' (x_buf r) ++ x else v' (x_buf r)) as Hv by (intros x; unfold v'; destruct store; [apply app_assoc|reflexivity]).
    change (if store then x_value r ++ x_buf r else x_value r) with (v' (x_buf r)).
    change (if store then x_value r ++ x_buf r ++ take m b else x_value r) with (v' (x_buf r ++ take m b)). rewrite !andb_true_r, Hv.
    destruct ((MAX_VALUE_SIZE <? Z.of_nat (length (v' (x_buf r)))) && store) eqn:Eb.
    { apply andb_prop in Eb as [Eb ->]. apply Z.ltb_lt in Eb. rewrite (proj2 (Z.ltb_lt _ _)) by (rewrite length_app; lia). eexists. reflexivity. }
    set (r' := set_value (advancePos r (length (x_buf r))) (v' (x_buf r))). unfold ret.
    assert (x_buf r' = []) as Hr' by (cbn; apply drop_all). destruct m as [|m'].
    { left. rewrite take_0, app_nil_r, Nat.add_0_r. replace (if store then v' (x_buf r) else v' (x_buf r)) with (v' (x_buf r)) by (destruct store; reflexivity).
      rewrite Eb. do 3 f_equal. rewrite feed_advance by lia. reflexivity. }
    right. right. assert (exists c t, b = c :: t /\ isSpace c = true) as (c & t & Hb & Hc).
    { destruct b as [|c t]; [discriminate|]. cbn in Em. exists c, t. split; [reflexivity|]. destruct (isSpace c); [reflexivity|discriminate]. }
    split; [|exists c, t; cbn [x_buf feed set_buf]; rewrite Hr'; cbn; split; assumption].
    split; [reflexivity|]. split; [rewrite Hr'; cbn; lia|]. unfold skipSpace. cbn [x_buf x_value feed set_buf]. rewrite Hr'. cbn [app].
    rewrite (needChars_feed r b 1) by (apply Nat.leb_le; lia). assert (needChars (feed r' b) 1 = true) as -> by (unfold needChars; cbn [x_buf feed set_buf]; rewrite Hr', Hb; reflexivity).
    cbn [negb]. rewrite (span_all _ _ b Hs), <- Em. rewrite take_app_add, (proj2 (Nat.ltb_lt 0 (length (x_buf r) + _))), (proj2 (Nat.ltb_lt 0 (S m'))) by lia.
    change (if store then x_value r ++ x_buf r ++ take (S m') b else x_value r) with (v' (x_buf r ++ take (S m') b)). rewrite Hv, !andb_true_r.
    cbn [x_value r' set_value]. clear Eb.
    destruct ((MAX_VALUE_SIZE <? Z.of_nat (length (if store then v' (x_buf r) ++ take (S m') b else v' (x_buf r)))) && store); [right; split; eexists; reflexivity|]. left. unfold ret. do 3 f_equal.
    rewrite <- advance_advance, feed_advance by lia. reflexivity.
Qed.

(** ** The states *)

Definition carries_at (F : R -> Result) (r : R) (b : list Z) : Prop :=
  match F r with
  | None => True
  | Some (inl _) => throws (F (feed r b))
  | Some (inr (_, r')) => (exists c, F (feed r b) = Some (inr (c, feed r' b))) \/ r' = r \/ partly F r r' b
  end.

Definition carries (F : R -> Result) : Prop := forall r b, rinv r -> nohash (x_buf r ++ b) -> carries_at F r b.

Lemma sharp_carries F : sharp F -> carries F.
Proof using.
  intros HF r b Hr Hb. specialize (HF r b Hr Hb). unfold carries_at. destruct (F r) as [[e|[c r']]|]; [exact HF| |exact I].
  destruct HF as [_ [H|[_ H]]]; [left; exists c; exact H|right; left; exact H].
Qed.

Lemma skip_space store (r : R) c t : x_buf r = c :: t -> isSpace c = true -> forall x, skipSpace store r <> Some (inr (false, x)).
Proof using.
  intros Hb Hc x. unfold skipSpace, needChars. rewrite Hb. cbn [length Nat.leb negb span]. rewrite Hc. change (0 <? S _)%nat with true.
  destruct (_ && _ && _); discriminate.
Qed.

(** An alternative that is not asked. *)
Lemma alt_first (f g : R -> Result) r : (forall x, f r <> Some (inr (false, x))) -> alt f g r = f r.
Proof using. unfold alt. destruct (f r) as [[e|[[|] r1]]|]; try reflexivity. intros H. destruct (H r1 eq_refl). Qed.

Lemma same_alt (f g : R -> Result) r1 r2 : same (f r1) (f r2) -> (forall x, f r2 <> Some (inr (false, x))) -> same (alt f g r1) (alt f g r2).
Proof using.
  intros Hs H2. rewrite (alt_first f g r2 H2). destruct Hs as [E|[[e1 E1] H3]].
  - rewrite alt_first, E by (rewrite E; exact H2). left. reflexivity.
  - right. split; [|exact H3]. exists e1. unfold alt. rewrite E1. reflexivity.
Qed.

Lemma skip_first store g : sharp g -> carries (alt (skipSpace store) g).
Proof using.
  intros Hg r b Hr Hb. pose proof (skip_feed store r b Hr) as H. pose proof (Hg r b Hr Hb) as Hg'. unfold carries_at. unfold alt at 1.
  destruct (skipSpace store r) as [[e|[[|] r1]]|] eqn:E.
  - destruct H as [e' H]. exists e'. unfold alt. rewrite H. reflexivity.
  - destruct H as [H|[H|[(H1 & H2 & H3) (c & t & Hc & Hs)]]]; [left; exists true; unfold alt; rewrite H; reflexivity|right; left; exact H|right; right].
    split; [exact H1|]. split; [exact H2|]. apply same_alt; [exact H3|]. apply (skip_space store _ c t Hc Hs).
  - destruct H as [-> H]. assert (alt (skipSpace store) g (feed r b) = g (feed r b)) as Ea by (unfold alt; rewrite H; reflexivity).
    rewrite Ea. destruct (g r) as [[e|[c r']]|]; [exact Hg'| |exact I]. destruct Hg' as [_ [H1|[_ H1]]]; [left; exists c; exact H1|right; left; exact H1].
  - exact I.
Qed.

Definition rejects (f : R -> Result) : Prop := forall r c t, x_buf r = c :: t -> isSpace c = true -> f r = Some (inr (false, r)).

Lemma rejects_alt f g : rejects f -> rejects g -> rejects (alt f g).
Proof using. intros Hf Hg r c t Hb Hc. unfold alt. rewrite (Hf r c t Hb Hc). apply (Hg r c t Hb Hc). Qed.

Lemma rejects_literal x lit sp st : isSpace x = false -> rejects (literal (x :: lit) sp st).
Proof using.
  intros Hx r c t Hb Hc. unfold literal. rewrite Hb. cbn [lit_match]. destruct (Z.eqb_spec c x) as [-> |]; [congruence|]. reflexivity.
Qed.

Lemma rejects_character x st : isSpace x = false -> rejects (character x st).
Proof using.
  intros Hx r c t Hb Hc. unfold character, needChars, charAt. rewrite Hb. cbn. destruct (Z.eqb_spec c x) as [-> |]; [congruence|]. reflexivity.
Qed.

Lemma space_name c : isSpace c = true -> isNameStartChar c = false /\ (c =? 60) = false /\ (c =? 62) = false.
Proof using. unfold isSpace, isNameStartChar, inRange. intros H. lia. Qed.

Lemma space_last f e : sharp f -> rejects f -> carries (alt f (spaceOrError e)).
Proof using.
  intros Hf Hj r b Hr Hb. specialize (Hf r b Hr Hb). unfold carries_at. unfold alt at 1. destruct (f r) as [[e1|[[|] r1]]|] eqn:Ef.
  - destruct Hf as [e' H]. exists e'. unfold alt. rewrite H. reflexivity.
  - destruct Hf as [_ [H|[_ H]]]; [left; exists true; unfold alt; rewrite H; reflexivity|right; left; exact H].
  - destruct Hf as [H1 [H|[H _]]]; [|discriminate]. rewrite (H1 eq_refl) in *. clear H1 r1.
    assert (alt f (spaceOrError e) (feed r b) = spaceOrError e (feed r b)) as Ea by (unfold alt; rewrite H; reflexivity).
    rewrite Ea. pose proof (skip_feed false r b Hr) as Hs. unfold spaceOrError in *. unfold alt at 1. destruct (skipSpace false r) as [[e1|[[|] r1]]|] eqn:E.
    + destruct Hs as [e' Hs]. exists e'. unfold alt. rewrite Hs. reflexivity.
    + destruct Hs as [Hs|[Hs|[(H1 & H2 & H3) (c & t & Hc & Hsp)]]]; [left; exists true; unfold alt; rewrite Hs; reflexivity|right; left; exact Hs|right; right].
      split; [exact H1|]. split; [exact H2|]. rewrite Ea.
      assert (alt f (alt (skipSpace false) (fun r => throw r e)) (feed r1 b) = alt (skipSpace false) (fun r => throw r e) (feed r1 b)) as Eb
        by (unfold alt at 1; rewrite (Hj _ c t Hc Hsp); reflexivity).
      rewrite Eb. apply same_alt; [exact H3|]. apply (skip_space false _ c t Hc Hsp).
    + destruct Hs as [-> Hs]. unfold throw at 1. unfold alt. rewrite Hs. eexists. reflexivity.
    + exact I.
  - exact I.
Qed.

(** The last alternative where no space comes next. *)
Definition no_space (l : list Z) : Prop := match l with c :: _ => isSpace c = false | [] => True end.

Lemma nospace_last f e r b : sharp f -> rinv r -> nohash (x_buf r ++ b) -> no_space (x_buf r ++ b) -> carries_at (alt f (spaceOrError e)) r b.
Proof using.
  intros Hf Hr Hb Hsp. specialize (Hf r b Hr Hb). unfold carries_at. unfold alt at 1. destruct (f r) as [[e1|[[|] r1]]|] eqn:Ef.
  - destruct Hf as [e' H]. exists e'. unfold alt. rewrite H. reflexivity.
  - destruct Hf as [_ [H|[_ H]]]; [left; exists true; unfold alt; rewrite H; reflexivity|right; left; exact H].
  - destruct Hf as [H1 [H|[H _]]]; [|discriminate]. rewrite (H1 eq_refl) in *. clear H1 r1.
    assert (alt f (spaceOrError e) (feed r b) = spaceOrError e (feed r b)) as Ea by (unfold alt; rewrite H; reflexivity).
    rewrite Ea. pose proof (skip_feed false r b Hr) as Hs. unfold spaceOrError in *. unfold alt at 1. destruct (skipSpace false r) as [[e1|[[|] r1]]|] eqn:E.
    + destruct Hs as [e' Hs]. exists e'. unfold alt. rewrite Hs. reflexivity.
    + right. left. unfold skipSpace in E. destruct (needChars r 1) eqn:En; cbn [negb] in E; [|injection E as <-; reflexivity].
      destruct (needChars_cons r En) as (c & t & Hc & _). rewrite Hc in *. cbn [app no_space] in Hsp. cbn [span] in E. rewrite Hsp in E.
      rewrite andb_false_r in E. cbn [andb Nat.ltb Nat.leb] in E. discriminate.
    + destruct Hs as [-> Hs]. unfold throw at 1. unfold alt. rewrite Hs. eexists. reflexivity.
    + exact I.
  - exact I.
Qed.

(** *** Names and values *)

Lemma appended_app s m t u : appended (s ++ t) m u = appended s m (t ++ u).
Proof using. unfold appended. rewrite !length_app, <- app_assoc, Nat.add_assoc. reflexivity. Qed.

Lemma appended_more s m t u : appended s m t = None -> appended s m (t ++ u) = None.
Proof using. unfold appended. rewrite length_app. destruct (Z.ltb_spec m (Z.of_nat (length s + length t))); [|discriminate]. rewrite (proj2 (Z.ltb_lt _ _)) by lia. reflexivity. Qed.

Lemma lookup_span_end (l : list Z) p : l !! span p l = None -> span p l = length l.
Proof using. intros H%lookup_ge_None. pose proof (span_le p l). lia. Qed.

Lemma lookup_feed (l b : list Z) i : (l ++ b) !! (length l + i)%nat = b !! i.
Proof using. rewrite lookup_app_r by lia. f_equal. lia. Qed.

Lemma set_top_feed (r : R) b s : set_top (feed r b) s = feed (set_top r s) b.
Proof using. reflexivity. Qed.

Lemma set_top_id (r : R) : x_elements r <> [] -> set_top r (top r) = r.
Proof using. intros H. destruct r as [buf pos at_ v e c st els a]. cbn in *. destruct els; [contradiction|reflexivity]. Qed.

Lemma set_top_top (r : R) s : x_elements r <> [] -> top (set_top r s) = s.
Proof using. intros H. unfold top, set_top. destruct (x_elements r); [contradiction|reflexivity]. Qed.

Lemma set_top_twice (r : R) s t : x_elements r <> [] -> set_top (set_top r s) t = set_top r t.
Proof using. intros H. destruct r as [buf pos at_ v e c st els a]. cbn in *. destruct els; [contradiction|reflexivity]. Qed.

Lemma not_both (f : R -> Result) e r : f r = Some (inr (false, r)) -> throws (alt f (fun r => throw r e) r).
Proof using. intros H. unfold alt. rewrite H. eexists. reflexivity. Qed.

Lemma name_carries e r b : rinv r -> x_state r = STATE_ELEMENT_NAME -> carries_at (alt (elementName startTag) (fun r => throw r e)) r b.
Proof using.
  intros Hr Hst. pose proof (rinv_elem r Hr Hst) as Hne. unfold carries_at.
  set (p := fun c => negb (name_end c) && isNameChar c). set (F := alt _ _).
  destruct (x_buf r !! span p (x_buf r)) as [c|] eqn:E.
  - pose proof (lookup_lt_Some _ _ _ E) as Hl. unfold F, alt, elementName. cbn [x_buf feed set_buf]. fold p. rewrite (span_feed p (x_buf r) b Hl).
    rewrite (lookup_app_l _ _ _ Hl), E, take_app_le by lia. change (top (feed r b)) with (top r).
    destruct (name_end c); [|eexists; reflexivity]. unfold appending. destruct (appended _ _ _) as [s|]; [|eexists; reflexivity].
    rewrite set_top_feed. destruct (isSpace c); [left; eexists; unfold ret; do 3 f_equal; apply (feed_advance (set_xstate (set_top r s) STATE_ELEMENT_ATTR)); cbn; lia|].
    destruct (c =? 47); [left; eexists; unfold ret; do 3 f_equal; apply (feed_advance (set_xstate (set_top r s) STATE_ELEMENT_END_SIMPLE)); cbn; lia|].
    unfold call_start. cbn [x_a x_attribs feed set_buf]. change (top (feed ?r b)) with (top r).
    destruct (startTag _ _ _ _) as [e1|a1]; [eexists; reflexivity|]. left. eexists. unfold ret. do 3 f_equal.
    apply (feed_advance (set_xstate (set_xattribs (set_a (set_top r s) a1) []) STATE_CONTENT)). cbn. lia.
  - pose proof (lookup_span_end _ _ E) as Hl.
    assert (forall r', x_buf r' = x_buf r ++ b -> top r' = top r -> appended (top r) (Z.of_nat MAX_NAME_SIZE) (x_buf r) = None -> throws (F r')) as Hbig.
    { intros r' Hb' Ht Ha. unfold F, alt, elementName. rewrite Hb'. fold p. rewrite (span_all p _ b Hl), take_app_add, lookup_feed, Ht.
      unfold appending. rewrite (appended_more _ _ _ _ Ha). destruct (b !! _); [destruct (name_end _)|]; eexists; reflexivity. }
    unfold F at 1. unfold alt, elementName. fold p. rewrite E, Hl, firstn_all. unfold appending at 1.
    destruct (appended (top r) (Z.of_nat MAX_NAME_SIZE) (x_buf r)) as [s|] eqn:Ea; [|apply Hbig; reflexivity]. unfold ret at 1.
    assert (s = top r ++ x_buf r) as -> by (unfold appended in Ea; destruct (_ <? _); [discriminate|congruence]).
    set (r' := advancePos (set_top r (top r ++ x_buf r)) (length (x_buf r))).
    destruct (decide (x_buf r = [])) as [Eb|Eb].
    { right. left. unfold r'. rewrite Eb. cbn [length]. rewrite app_nil_r, set_top_id by exact Hne. apply advance_0, Hr. }
    right. right. assert (x_buf r' = []) as Hr' by (cbn; apply drop_all).
    split; [reflexivity|]. split; [rewrite Hr'; destruct (x_buf r); [contradiction|cbn; lia]|].
    assert (top r' = top r ++ x_buf r) as Ht by (apply set_top_top, Hne).
    assert (forall s, advancePos (set_top (feed r b) s) (length (x_buf r)) = set_top (feed r' b) s) as Hst'.
    { intros s. rewrite set_top_feed, feed_advance by (cbn; lia). unfold r'. rewrite <- (set_top_twice r (top r ++ x_buf r) s Hne). reflexivity. }
    unfold F, alt, elementName. cbn [x_buf feed set_buf]. fold p. rewrite (span_all p _ b Hl), take_app_add, lookup_feed, Hr'. cbn [app].
    change (top (feed r b)) with (top r). change (top (feed r' b)) with (top r'). rewrite Ht. unfold appending. rewrite appended_app.
    destruct (b !! span p b) as [c|]; [destruct (name_end c); [|right; split; eexists; reflexivity]|];
      (destruct (appended (top r) _ (x_buf r ++ _)) as [s|]; [|right; split; eexists; reflexivity]); left.
    + destruct (isSpace c); [unfold ret; do 3 f_equal; rewrite <- Hst'; rewrite <- Nat.add_assoc, <- advance_advance; reflexivity|].
      destruct (c =? 47); [unfold ret; do 3 f_equal; rewrite <- Hst'; rewrite <- Nat.add_assoc, <- advance_advance; reflexivity|].
      assert (x_elements (feed r' b) <> []) as Hne' by (cbn; destruct (x_elements r); [contradiction|discriminate]).
      assert (top (set_top (feed r' b) s) = top (set_top (feed r b) s)) as Htt by (rewrite (set_top_top (feed r' b) s Hne'), (set_top_top (feed r b) s Hne); reflexivity).
      unfold call_start. rewrite Htt. cbn [x_a x_attribs feed set_buf r' advancePos set_top set_elements].
      destruct (startTag _ _ _ _) as [e1|a1]; [reflexivity|]. unfold ret. do 3 f_equal. rewrite <- Hst'. rewrite <- Nat.add_assoc, <- advance_advance. reflexivity.
    + unfold ret. do 3 f_equal. rewrite <- Hst', <- advance_advance. reflexivity.
Qed.

Lemma last_attrib (l : list (list Z * list Z)) : l <> [] -> exists l' n v, l = l' ++ [(n, v)].
Proof using. intros H. destruct (exists_last H) as (l' & [n v] & ->). eauto. Qed.

Lemma attr_name_carries e r b : rinv r -> x_state r = STATE_ELEMENT_ATTR_NAME -> carries_at (alt elementAttrName (fun r => throw r e)) r b.
Proof using.
  intros Hr Hst. pose proof (rinv_attr r Hr ltac:(rewrite Hst; reflexivity)) as Hne. destruct (last_attrib _ Hne) as (l & n & v & Hl). unfold carries_at.
  set (p := fun c => negb (isSpace c || (c =? 61)) && isNameChar c). set (F := alt _ _). destruct (back_app l (n, v)) as [Hb1 Hb2]. cbn [fst snd] in Hb1, Hb2.
  destruct (x_buf r !! span p (x_buf r)) as [c|] eqn:E.
  - pose proof (lookup_lt_Some _ _ _ E) as Hlt. unfold F, alt, elementAttrName. cbn [x_buf x_attribs feed set_buf]. fold p. rewrite (span_feed p (x_buf r) b Hlt).
    rewrite (lookup_app_l _ _ _ Hlt), E, take_app_le by lia. destruct (isSpace c || _); [|eexists; reflexivity]. unfold appending.
    destruct (appended _ _ _) as [s|]; [|eexists; reflexivity]. left. eexists. unfold ret. do 3 f_equal.
    apply (feed_advance (set_xstate (set_xattribs r (set_back (x_attribs r) (s, back_value (x_attribs r)))) (if isSpace c then STATE_ELEMENT_ATTR_EQ else STATE_ELEMENT_ATTR_VALUE))).
    cbn. lia.
  - pose proof (lookup_span_end _ _ E) as Hall.
    assert (forall r', x_buf r' = x_buf r ++ b -> x_attribs r' = x_attribs r -> appended n (Z.of_nat MAX_NAME_SIZE) (x_buf r) = None -> throws (F r')) as Hbig.
    { intros r' Hb' Ht Ha. unfold F, alt, elementAttrName. rewrite Hb'. fold p. rewrite (span_all p _ b Hall), take_app_add, lookup_feed, Ht, Hl, Hb1.
      unfold appending. rewrite (appended_more _ _ _ _ Ha). destruct (b !! _); [destruct (isSpace _ || _)|]; eexists; reflexivity. }
    unfold F at 1. unfold alt, elementAttrName. fold p. rewrite E, Hall, firstn_all, Hl, Hb1, Hb2. unfold appending at 1.
    destruct (appended n (Z.of_nat MAX_NAME_SIZE) (x_buf r)) as [s|] eqn:Ea; [|apply Hbig; reflexivity]. unfold ret at 1.
    assert (s = n ++ x_buf r) as -> by (unfold appended in Ea; destruct (_ <? _); [discriminate|congruence]). rewrite set_back_app.
    set (r' := advancePos (set_xattribs r (l ++ [(n ++ x_buf r, v)])) (length (x_buf r))).
    destruct (decide (x_buf r = [])) as [Eb|Eb].
    { right. left. unfold r'. rewrite Eb, app_nil_r, <- Hl. cbn [length]. rewrite advance_0 by apply Hr. destruct r; reflexivity. }
    right. right. assert (x_buf r' = []) as Hr' by (cbn; apply drop_all).
    split; [reflexivity|]. split; [rewrite Hr'; destruct (x_buf r); [contradiction|cbn; lia]|].
    destruct (back_app l (n ++ x_buf r, v)) as [Hc1 Hc2]. cbn [fst snd] in Hc1, Hc2.
    assert (forall k, advancePos (set_xattribs (feed r b) k) (length (x_buf r)) = set_xattribs (feed r' b) k) as Hk.
    { intros k. unfold r'. rewrite <- feed_advance by (cbn; lia). reflexivity. }
    unfold F, alt, elementAttrName. cbn [x_buf x_attribs feed set_buf]. fold p. rewrite (span_all p _ b Hall), take_app_add, lookup_feed, Hr'. cbn [app].
    change (x_attribs r') with (l ++ [(n ++ x_buf r, v)]). rewrite Hl, Hb1, Hb2, Hc1, Hc2. unfold appending. rewrite appended_app.
    destruct (b !! span p b) as [c|]; [destruct (isSpace c || _); [|right; split; eexists; reflexivity]|];
      (destruct (appended n _ (x_buf r ++ _)) as [s|]; [|right; split; eexists; reflexivity]); left; rewrite !set_back_app; unfold ret; do 3 f_equal.
    + rewrite <- Hk, <- Nat.add_assoc, <- advance_advance. reflexivity.
    + rewrite <- Hk, <- advance_advance. reflexivity.
Qed.

(** *** Comments *)

Lemma comment_loop_feed a b k : 
  match comment_loop a k with
  | (n, true) => comment_loop (a ++ b) k = (n, true)
  | (n, false) => (k <= n <= k + length a)%nat /\ comment_loop (a ++ b) k = comment_loop (drop (n - k) a ++ b) n
  end.
Proof using.
  revert k. induction a as [|c a IH]; intros k; [cbn; split; [lia|]; rewrite Nat.sub_diag; reflexivity|]. specialize (IH (S k)).
  assert (forall t k, comment_loop (c :: t) k =
    (if c =? 45 then match t with c1 :: c2 :: _ => if (c1 =? 45) && (c2 =? 62) then ((k + 3)%nat, true) else comment_loop t (S k) | _ => (k, false) end
     else comment_loop t (S k))) as Hu by reflexivity.
  assert (match comment_loop a (S k) with (n, true) => comment_loop (a ++ b) (S k) = (n, true)
    | (n, false) => (k <= n <= k + length (c :: a))%nat /\ comment_loop (a ++ b) (S k) = comment_loop (drop (n - k) (c :: a) ++ b) n end) as IH'.
  { destruct (comment_loop a (S k)) as [n [|]]; [exact IH|]. destruct IH as [H1 H2]. split; [cbn; lia|]. replace (n - k)%nat with (S (n - S k)) by lia. exact H2. }
  clear IH. cbn [app]. rewrite !Hu. destruct (c =? 45) eqn:Ec; [|exact IH']. destruct a as [|c1 [|c2 a]].
  - split; [cbn; lia|]. rewrite Nat.sub_diag. cbn [drop app]. rewrite Hu, ?Ec. reflexivity.
  - split; [cbn; lia|]. rewrite Nat.sub_diag. cbn [drop app]. rewrite Hu, ?Ec. reflexivity.
  - cbn [app] in *. destruct ((c1 =? 45) && (c2 =? 62)); [reflexivity|exact IH'].
Qed.

Lemma cdata_loop_feed a b k : 
  match cdata_loop a k with
  | (n, true) => cdata_loop (a ++ b) k = (n, true)
  | (n, false) => (k <= n <= k + length a)%nat /\ cdata_loop (a ++ b) k = cdata_loop (drop (n - k) a ++ b) n
  end.
Proof using.
  revert k. induction a as [|c a IH]; intros k; [cbn; split; [lia|]; rewrite Nat.sub_diag; reflexivity|]. specialize (IH (S k)).
  assert (forall t k, cdata_loop (c :: t) k =
    (if c =? 93 then match t with c1 :: _ => if c1 =? 93 then ((k + 2)%nat, true) else cdata_loop t (S k) | [] => (k, false) end
     else cdata_loop t (S k))) as Hu by reflexivity.
  assert (match cdata_loop a (S k) with (n, true) => cdata_loop (a ++ b) (S k) = (n, true)
    | (n, false) => (k <= n <= k + length (c :: a))%nat /\ cdata_loop (a ++ b) (S k) = cdata_loop (drop (n - k) (c :: a) ++ b) n end) as IH'.
  { destruct (cdata_loop a (S k)) as [n [|]]; [exact IH|]. destruct IH as [H1 H2]. split; [cbn; lia|]. replace (n - k)%nat with (S (n - S k)) by lia. exact H2. }
  clear IH. cbn [app]. rewrite !Hu. destruct (c =? 93) eqn:Ec; [|exact IH']. destruct a as [|c1 a].
  - split; [cbn; lia|]. rewrite Nat.sub_diag. cbn [drop app]. rewrite Hu, ?Ec. reflexivity.
  - cbn [app] in *. destruct (c1 =? 93); [reflexivity|exact IH'].
Qed.

Lemma comment_loop_shift l n k : comment_loop l (n + k) = ((n + fst (comment_loop l k))%nat, snd (comment_loop l k)).
Proof using.
  revert k. induction l as [|c l IH]; intros k; [reflexivity|]. specialize (IH (S k)). rewrite Nat.add_succ_r in IH.
  assert (forall t k, comment_loop (c :: t) k =
    (if c =? 45 then match t with c1 :: c2 :: _ => if (c1 =? 45) && (c2 =? 62) then ((k + 3)%nat, true) else comment_loop t (S k) | _ => (k, false) end
     else comment_loop t (S k))) as Hu by reflexivity.
  rewrite !Hu. destruct (c =? 45); [|exact IH]. destruct l as [|c1 [|c2 l]]; [reflexivity|reflexivity|]. destruct (_ && _); [cbn; f_equal; lia|exact IH].
Qed.

Lemma cdata_loop_shift l n k : cdata_loop l (n + k) = ((n + fst (cdata_loop l k))%nat, snd (cdata_loop l k)).
Proof using.
  revert k. induction l as [|c l IH]; intros k; [reflexivity|]. specialize (IH (S k)). rewrite Nat.add_succ_r in IH.
  assert (forall t k, cdata_loop (c :: t) k =
    (if c =? 93 then match t with c1 :: _ => if c1 =? 93 then ((k + 2)%nat, true) else cdata_loop t (S k) | [] => (k, false) end
     else cdata_loop t (S k))) as Hu by reflexivity.
  rewrite !Hu. destruct (c =? 93); [|exact IH]. destruct l as [|c1 l]; [reflexivity|]. destruct (c1 =? 93); [cbn; f_equal; lia|exact IH].
Qed.

(** A loop over the characters that says how many were used and whether it is over. *)
Lemma loop_carries (loop : list Z -> nat -> nat * bool) (f : R -> Result) e r b : rinv r ->
  (forall r, f r = let '(n, ended) := loop (x_buf r) O in ret true (advancePos (if ended : bool then set_xstate r STATE_CONTENT else r) n)) ->
  (forall l n, loop l n = ((n + fst (loop l O))%nat, snd (loop l O))) -> (forall l, fst (loop l O) <= length l)%nat ->
  match loop (x_buf r) O with
  | (n, true) => loop (x_buf r ++ b) O = (n, true)
  | (n, false) => loop (x_buf r ++ b) O = loop (drop n (x_buf r) ++ b) n
  end -> carries_at (alt f (fun r => throw r e)) r b.
Proof using.
  intros Hr Hf Hshift Hle Hloop. assert (forall r, alt f (fun r => throw r e) r = f r) as Ha.
  { intros r1. unfold alt. rewrite Hf. destruct (loop (x_buf r1) O); reflexivity. }
  unfold carries_at, partly. rewrite !Ha, !Hf. cbn [x_buf feed set_buf]. pose proof (Hle (x_buf r)) as Hn.
  destruct (loop (x_buf r) O) as [n [|]] eqn:El; cbn [fst] in Hn; unfold ret.
  - left. rewrite Hloop. eexists. do 3 f_equal. apply (feed_advance (set_xstate r STATE_CONTENT)). exact Hn.
  - destruct n as [|n]; [right; left; apply advance_0, Hr|]. right. right. split; [reflexivity|].
    split; [cbn [x_buf advancePos set_buf]; rewrite length_drop; lia|]. left. rewrite Ha, Hf. cbn [x_buf feed set_buf advancePos].
    rewrite Hloop, Hshift. destruct (loop (drop (S n) (x_buf r) ++ b) O) as [m [|]]; cbn [fst snd]; unfold ret; do 3 f_equal.
    + change (set_xstate (feed r b) STATE_CONTENT) with (feed (set_xstate r STATE_CONTENT) b).
      rewrite <- advance_advance, (feed_advance (set_xstate r STATE_CONTENT)) by exact Hn. reflexivity.
    + rewrite <- advance_advance, feed_advance by exact Hn. reflexivity.
Qed.

Lemma comment_carries e r b : rinv r -> carries_at (alt comment (fun r => throw r e)) r b.
Proof using.
  intros Hr. apply (loop_carries comment_loop); [exact Hr|reflexivity|intros l n; rewrite <- (Nat.add_0_r n) at 1; apply comment_loop_shift| |].
  - intros l. pose proof (comment_loop_le l 0). lia.
  - pose proof (comment_loop_feed (x_buf r) b 0) as H. destruct (comment_loop (x_buf r) 0) as [n [|]]; [exact H|]. rewrite Nat.sub_0_r in H. apply H.
Qed.

Lemma cdata_carries e r b : rinv r -> carries_at (alt cdata (fun r => throw r e)) r b.
Proof using.
  intros Hr. apply (loop_carries cdata_loop); [exact Hr|reflexivity|intros l n; rewrite <- (Nat.add_0_r n) at 1; apply cdata_loop_shift| |].
  - intros l. pose proof (cdata_loop_le l 0). lia.
  - pose proof (cdata_loop_feed (x_buf r) b 0) as H. destruct (cdata_loop (x_buf r) 0) as [n [|]]; [exact H|]. rewrite Nat.sub_0_r in H. apply H.
Qed.

(** *** Values *)

Lemma set_back_value_attribs (r : R) l n v s : x_attribs r = l ++ [(n, v)] -> x_attribs (set_back_value r s) = l ++ [(n, s)].
Proof using. intros H. cbn. rewrite H. destruct (back_app l (n, v)) as [-> _]. apply set_back_app. Qed.

Lemma set_back_value_twice (r : R) s t : x_attribs r <> [] -> set_back_value (set_back_value r s) t = set_back_value r t.
Proof using.
  intros H. destruct (last_attrib _ H) as (l & n & v & Hl). unfold set_back_value at 1. rewrite (set_back_value_attribs r l n v s Hl).
  destruct (back_app l (n, s)) as [-> _]. rewrite set_back_app. unfold set_back_value. rewrite Hl. destruct (back_app l (n, v)) as [-> _]. rewrite !set_back_app. reflexivity.
Qed.

Lemma set_back_value_id (r : R) : x_attribs r <> [] -> set_back_value r (back_value (x_attribs r)) = r.
Proof using.
  intros H. destruct (last_attrib _ H) as (l & n & v & Hl). unfold set_back_value. rewrite Hl. destruct (back_app l (n, v)) as [-> ->]. cbn [fst snd].
  rewrite set_back_app, <- Hl. destruct r; reflexivity.
Qed.

Lemma back_value_set (r : R) s : x_attribs r <> [] -> back_value (x_attribs (set_back_value r s)) = s.
Proof using. intros H. destruct (last_attrib _ H) as (l & n & v & Hl). rewrite (set_back_value_attribs r l n v s Hl). destruct (back_app l (n, s)) as [_ ->]. reflexivity. Qed.

(** [elementAttrValue] with its quote. *)
Definition plain_char (q c : Z) : bool := negb ((c =? q) || (c =? 38)).

Definition value_at (q : Z) (r : R) : Result :=
  let i := span (plain_char q) (x_buf r) in
  appending r (back_value (x_attribs r)) MAX_VALUE_SIZE (take i (x_buf r)) (fun s =>
    match x_buf r !! i with
    | None => ret true (advancePos (set_back_value r s) i)
    | Some c =>
        if c =? q then
          let s := if negb (x_charset r =? CHARSET_UTF8) then toUtf8 s (x_charset r) else s in
          ret true (advancePos (set_xstate (set_back_value r s) STATE_ELEMENT_ATTR) (i + 1))
        else entref s set_back_value (advancePos (set_back_value r s) i)
    end).

Definition or_throw (e : String.string) (f : R -> Result) : R -> Result := alt f (fun r => throw r e).

Lemma nohash_drop l n : nohash l -> nohash (drop n l).
Proof using.
  unfold nohash. revert n. induction l as [|x l IH]; intros n Hl; [rewrite drop_nil; reflexivity|].
  destruct n; [exact Hl|]. apply free_cons in Hl as [_ Hl]. apply IH, Hl.
Qed.

Lemma span_stop p (l : list Z) c : l !! span p l = Some c -> p c = false.
Proof using. induction l as [|x l IH]; [discriminate|]. cbn [span]. destruct (p x) eqn:Ex; cbn; [exact IH|congruence]. Qed.

Lemma appended_eq s m t u : appended s m t = Some u -> u = s ++ t /\ appended u m [] = Some u.
Proof using.
  unfold appended. destruct (_ <? _) eqn:E; [discriminate|]. intros [= <-]. split; [reflexivity|]. cbn [length]. rewrite Nat.add_0_r, length_app, E, app_nil_r. reflexivity.
Qed.

(** The reference at the end of the characters before it. *)
Lemma reference_carries q e r b s t : rinv r -> x_attribs r <> [] -> nohash (x_buf r ++ b) ->
  let i := span (plain_char q) (x_buf r) in let r1 := advancePos (set_back_value r s) i in
  appended (back_value (x_attribs r)) MAX_VALUE_SIZE (take i (x_buf r)) = Some s -> x_buf r1 = 38 :: t -> (38 =? q) = false -> (i < length (x_buf r))%nat ->
  or_throw e (value_at q) r = or_throw e (entref s set_back_value) r1 ->
  or_throw e (value_at q) (feed r b) = or_throw e (entref s set_back_value) (feed r1 b) -> carries_at (or_throw e (value_at q)) r b.
Proof using.
  intros Hr Hne Hb i r1 Ea Ht Hq Hi HFr HFb. unfold carries_at. rewrite HFr, HFb.
  assert (nohash (x_buf r1 ++ b)) as Hn1 by (cbn [x_buf r1 advancePos set_buf]; rewrite <- drop_app_le by (cbn; lia); apply nohash_drop, Hb).
  assert (x_attribs r1 <> []) as Hne1 by (destruct (last_attrib _ Hne) as (l & n & v & Hl); change (x_attribs r1) with (x_attribs (set_back_value r s));
    rewrite (set_back_value_attribs r l n v s Hl); destruct l; discriminate).
  assert (back_value (x_attribs r1) = s) as Hbs by (apply back_value_set, Hne).
  assert (set_back_value r1 s = r1) as Hid by (rewrite <- Hbs at 1; apply set_back_value_id, Hne1).
  assert (u64 (x_pos r1) = x_pos r1) as Hp1 by (cbn; unfold u64, wrap; rewrite Zmod_mod; reflexivity).
  pose proof (entref_feed s set_back_value r1 b t Ht Hn1 Hp1 ltac:(repeat split)) as He. apply appended_eq in Ea as [Es Ea]. unfold or_throw, alt at 1.
  destruct (entref s set_back_value r1) as [[e1|[[|] r2]]|] eqn:Ee; [| | |exact I].
  - destruct He as [e2 He]. exists e2. unfold alt. rewrite He. reflexivity.
  - destruct He as [_ [He|[_ He]]]; [left; exists true; unfold alt; rewrite He; reflexivity|]. rewrite Hid in He. subst r2.
    destruct (decide (i = O)) as [Ei|Ei].
    { right. left. unfold r1. rewrite Ei, Es, Ei, take_0, app_nil_r, set_back_value_id by exact Hne. apply advance_0, Hr. }
    right. right. split; [reflexivity|]. split; [change (x_buf r1) with (drop i (x_buf r)); rewrite length_drop; lia|].
    unfold or_throw in HFb. rewrite HFb. left. unfold alt. assert (value_at q (feed r1 b) = entref s set_back_value (feed r1 b)) as ->; [|reflexivity].
    assert (span (plain_char q) (38 :: t ++ b) = O) as Hs0 by (cbn [span]; unfold plain_char at 1; rewrite Z.eqb_refl, orb_true_r; reflexivity).
    unfold value_at. cbn [x_buf x_attribs feed set_buf]. rewrite Ht. cbn [app]. rewrite Hs0, take_0. cbn [lookup list_lookup].
    unfold appending. rewrite Hbs, Ea, Hq, advance_0 by exact Hp1. change (set_back_value (feed r1 b) s) with (feed (set_back_value r1 s) b). rewrite Hid. reflexivity.
  - destruct He as [He1 [He|[He _]]]; [|discriminate]. unfold throw at 1. unfold alt. rewrite He. eexists. reflexivity.
Qed.

(** A quote or a reference in the characters. *)
Lemma value_found q e r b c : rinv r -> x_attribs r <> [] -> nohash (x_buf r ++ b) -> (38 =? q) = false ->
  x_buf r !! span (plain_char q) (x_buf r) = Some c -> carries_at (or_throw e (value_at q)) r b.
Proof using.
  intros Hr Hne Hb Hq E. pose proof (lookup_lt_Some _ _ _ E) as Hlt. set (i := span (plain_char q) (x_buf r)) in *.
  assert (Hf : forall s, set_back_value (feed r b) s = feed (set_back_value r s) b) by reflexivity.
  assert (HV : forall r1, (r1 = r \/ r1 = feed r b) -> value_at q r1 = match appended (back_value (x_attribs r)) MAX_VALUE_SIZE (take i (x_buf r)) with
    | None => throw r1 "Buffer overflow"%string
    | Some s => if c =? q then ret true (advancePos (set_xstate (set_back_value r1 (if negb (x_charset r =? CHARSET_UTF8) then toUtf8 s (x_charset r) else s)) STATE_ELEMENT_ATTR) (i + 1))
                else entref s set_back_value (advancePos (set_back_value r1 s) i) end).
  { intros r1 [-> | ->]; unfold value_at, appending; cbn [x_buf x_attribs x_charset feed set_buf]; rewrite ?(span_feed _ _ b Hlt); fold i.
    - rewrite E. reflexivity.
    - rewrite (lookup_app_l _ _ _ Hlt), E, take_app_le by lia. reflexivity. }
  destruct (appended _ _ _) as [s|] eqn:Ea; [|unfold carries_at, or_throw, alt; rewrite !HV by auto; eexists; reflexivity].
  destruct (c =? q) eqn:Ecq.
  - unfold carries_at, or_throw, alt. rewrite !HV by auto. unfold ret at 1. left. eexists. unfold ret. do 3 f_equal. rewrite Hf.
    apply (feed_advance (set_xstate (set_back_value r (if negb (x_charset r =? CHARSET_UTF8) then toUtf8 s (x_charset r) else s)) STATE_ELEMENT_ATTR)). cbn. lia.
  - assert (c = 38) as -> by (pose proof (span_stop _ _ _ E) as Hp; unfold plain_char in Hp; rewrite Ecq in Hp; cbn in Hp; destruct (Z.eqb_spec c 38); [assumption|discriminate]).
    apply (reference_carries q e r b s (drop (S i) (x_buf r))); try assumption; [cbn; apply drop_S, E| |].
    + unfold or_throw, alt. rewrite HV by auto. reflexivity.
    + unfold or_throw, alt. rewrite HV by auto. rewrite Hf, feed_advance by (cbn; lia). reflexivity.
Qed.

(** Only characters of the value. *)
Lemma value_rest q e r b : rinv r -> x_attribs r <> [] -> x_buf r !! span (plain_char q) (x_buf r) = None -> carries_at (or_throw e (value_at q)) r b.
Proof using.
  intros Hr Hne E. pose proof (lookup_span_end _ _ E) as Hall. set (p := plain_char q) in *. set (bv := back_value (x_attribs r)). unfold carries_at.
  unfold or_throw at 1. unfold alt, value_at. fold p. rewrite E, Hall, firstn_all. unfold appending. fold bv.
  destruct (appended bv MAX_VALUE_SIZE (x_buf r)) as [s|] eqn:Ea.
  2: { unfold or_throw, alt, value_at, appending. cbn [x_buf x_attribs feed set_buf]. fold p bv. rewrite (span_all p _ b Hall), take_app_add, (appended_more _ _ _ _ Ea). eexists. reflexivity. }
  unfold ret at 1. apply appended_eq in Ea as [-> _]. set (r' := advancePos (set_back_value r (bv ++ x_buf r)) (length (x_buf r))).
  destruct (decide (x_buf r = [])) as [Eb|Eb].
  { right. left. unfold r'. rewrite Eb, app_nil_r. unfold bv. rewrite set_back_value_id by exact Hne. apply advance_0, Hr. }
  right. right. assert (x_buf r' = []) as Hr' by (cbn; apply drop_all).
  split; [reflexivity|]. split; [rewrite Hr'; destruct (x_buf r); [contradiction|cbn; lia]|].
  assert (back_value (x_attribs r') = bv ++ x_buf r) as Hbs by (apply back_value_set, Hne).
  assert (forall s, advancePos (set_back_value (feed r b) s) (length (x_buf r)) = set_back_value (feed r' b) s) as Hk.
  { intros s. change (set_back_value (feed r b) s) with (feed (set_back_value r s) b). rewrite feed_advance by (cbn; lia).
    rewrite <- (set_back_value_twice r (bv ++ x_buf r) s Hne). reflexivity. }
  unfold or_throw, alt, value_at. cbn [x_buf x_attribs x_charset feed set_buf]. fold p bv. rewrite (span_all p _ b Hall), take_app_add, lookup_feed, Hr'. cbn [app].
  change (x_charset r') with (x_charset r). unfold appending. rewrite Hbs, appended_app.
  destruct (appended bv _ _) as [s|]; [|right; split; eexists; reflexivity]. left. rewrite <- Nat.add_assoc, <- !advance_advance.
  destruct (b !! span p b) as [c|]; [destruct (c =? q)|]; unfold ret; rewrite <- ?Hk; reflexivity.
Qed.

Lemma value_carries e r b : rinv r -> nohash (x_buf r ++ b) -> (x_state r = STATE_ELEMENT_ATTR_VALUE_QUOT \/ x_state r = STATE_ELEMENT_ATTR_VALUE_APOS) ->
  exists q, carries_at (or_throw e (value_at q)) r b /\ forall r1, x_state r1 = x_state r -> elementAttrValue toUtf8 r1 = value_at q r1.
Proof using.
  intros Hr Hb Hst. assert (x_attribs r <> []) as Hne by (apply (rinv_attr r Hr); destruct Hst as [-> | ->]; reflexivity).
  set (q := if bool_decide (x_state r = STATE_ELEMENT_ATTR_VALUE_APOS) then 39 else 34). exists q. split; [|intros r1 E1; unfold elementAttrValue; rewrite E1; reflexivity].
  destruct (x_buf r !! span (plain_char q) (x_buf r)) as [c|] eqn:E; [|apply value_rest; assumption].
  apply (value_found q e r b c); try assumption. unfold q. destruct (bool_decide _); reflexivity.
Qed.

(** ** A step *)

(** What a function leaves: the same reader, or one with fewer characters whose position is in
    its type; after no answer, the same reader. *)
Definition strict (f : R -> Result) : Prop := forall r c r', rinv r -> f r = Some (inr (c, r')) ->
  (c = false -> r' = r) /\ (r' = r \/ (length (x_buf r') < length (x_buf r))%nat /\ u64 (x_pos r') = x_pos r').

Lemma u64_u64 z : u64 (u64 z) = u64 z.
Proof using. unfold u64, wrap. apply Zmod_mod. Qed.

Lemma strict_alt f g : strict f -> strict g -> strict (alt f g).
Proof using.
  intros Hf Hg r c r' Hr H. unfold alt in H. destruct (f r) as [[e|[[|] r1]]|] eqn:E; try discriminate.
  - injection H as <- <-. exact (Hf r true r1 Hr E).
  - destruct (Hf r false r1 Hr E) as [E1 _]. rewrite E1 in H by reflexivity. exact (Hg r c r' Hr H).
Qed.

Lemma strict_throw e : strict (fun r => throw r e).
Proof using. intros r c r' _ H. discriminate. Qed.

Ltac sinv H := injection H as <- <-.
Ltac left_it := split; [intros; reflexivity|left; reflexivity].
Ltac shorter := split; [discriminate|right; split; [cbn [x_buf advancePos set_buf set_xstate set_elements set_xattribs set_value set_a set_top]; rewrite length_drop; lia|apply u64_u64]].

Lemma strict_literal lit sp st : lit <> [] -> strict (literal lit sp st).
Proof using.
  intros Hl r c r' Hr H. unfold literal in H. destruct (lit_match _ _ _) as [n|] eqn:E; [|sinv H; left_it]. apply lit_match_le in E.
  assert (length lit <> O) by (destruct lit; [contradiction|discriminate]). destruct (Nat.eqb_spec n (length lit)) as [-> |]; [|sinv H; left_it].
  destruct sp; [destruct (_ =? _)%nat eqn:En; [sinv H; left_it|apply Nat.eqb_neq in En; destruct (negb _); sinv H; [left_it|shorter]]|sinv H; shorter].
Qed.

Lemma strict_simple : (forall c st, strict (character c st)) /\ strict element /\ strict elementAttr /\ strict (elementEndSimple startTag) /\
  strict (elementEndComplex startTag) /\ strict (elementEndEnd endTag toUtf8).
Proof using.
  split; [|split; [|split; [|split; [|split]]]]; [intros x st|..]; intros r c r' Hr H.
  1: unfold character in H. 2: unfold element in H. 3: unfold elementAttr in H. 4: unfold elementEndSimple, call_start in H.
  5: unfold elementEndComplex, call_start in H. 6: unfold elementEndEnd in H.
  all: match goal with H : context [needChars ?r ?n] |- _ => destruct (needChars r n) eqn:En; [apply Nat.leb_le in En|cbn [negb] in H; sinv H; left_it]; cbn [negb] in H end.
  all: match goal with H : _ = Some (inr _) |- _ => repeat match type of H with
    | context [if ?x then _ else _] => destruct x
    | context [match ?x with inl _ => _ | inr _ => _ end] => destruct x
    end; try discriminate; sinv H end; first [left_it|shorter].
Qed.

Lemma strict_elementEnd : strict elementEnd.
Proof using.
  intros r c r' Hr H. unfold elementEnd in H. destruct (x_elements r) as [|e l] eqn:E; [sinv H; left_it|].
  destruct (needChars r (length e)) eqn:En; cbn [negb] in H; [|sinv H; left_it]. apply Nat.leb_le in En.
  assert (length e <> O). { pose proof (rinv_named r Hr) as Hn. unfold named in Hn. rewrite E in Hn. apply Forall_cons in Hn as [Hn _]. destruct e; [contradiction|discriminate]. }
  destruct (bool_decide _); sinv H; [shorter|left_it].
Qed.

Lemma strict_skip store : strict (skipSpace store).
Proof using.
  intros r c r' Hr H. unfold skipSpace in H. destruct (needChars r 1) eqn:En; cbn [negb] in H; [|sinv H; left_it]. apply Nat.leb_le in En.
  destruct (_ && _ && _); [discriminate|]. pose proof (span_le isSpace (x_buf r)). destruct (span isSpace (x_buf r)) as [|n] eqn:E.
  - sinv H. rewrite take_0, app_nil_r, advance_0 by apply Hr. assert (set_value r (if store then x_value r else x_value r) = r) as -> by (destruct store, r; reflexivity). left_it.
  - sinv H. shorter.
Qed.

Lemma strict_space e : strict (spaceOrError e).
Proof using. apply strict_alt; [apply strict_skip|apply strict_throw]. Qed.

Lemma entref_strict d (upd : R -> list Z -> R) r c r' t : x_buf r = 38 :: t -> u64 (x_pos r) = x_pos r -> upd r d = r -> (forall s, x_buf (upd r s) = x_buf r) -> entref d upd r = Some (inr (c, r')) ->
  (c = false -> r' = r) /\ (r' = r \/ (length (x_buf r') < length (x_buf r))%nat /\ u64 (x_pos r') = x_pos r').
Proof using.
  intros Hb Hp Hd Hu H. unfold entref in H. destruct (_ <=? _); [discriminate|]. destruct (entity (x_buf r)) as [[n x]|] eqn:E; [|sinv H; left_it]. sinv H.
  pose proof (entity_len _ _ _ E) as [El En]. destruct n as [|n].
  - split; [discriminate|left]. destruct En as [En|En]; [lia|]. unfold entity in E. rewrite (proj2 (Nat.ltb_ge _ _) En) in E. injection E as <-. rewrite app_nil_r, Hd. apply advance_0, Hp.
  - split; [discriminate|right]. split; [cbn [x_buf advancePos set_buf]; rewrite length_drop, Hu; lia|apply u64_u64].
Qed.

Lemma strict_content : strict content.
Proof using.
  intros r c r' Hr H. unfold content in H. destruct (needChars r 1) eqn:En; cbn [negb] in H; [|sinv H; left_it].
  destruct (needChars_cons r En) as (x & t & Hb & Hx). rewrite Hx in H. apply Nat.leb_le in En.
  destruct (x =? 60); [destruct (bool_decide _); [sinv H; left_it|discriminate]|]. destruct (x =? 38) eqn:E38.
  - apply Z.eqb_eq in E38. rewrite E38 in Hb. apply (entref_strict (x_value r) set_value r c r' t Hb (rinv_pos r Hr)); [destruct r; reflexivity|reflexivity|exact H].
  - unfold appending in H. destruct (appended _ _ _); [sinv H; shorter|discriminate].
Qed.

Lemma strict_comment : strict comment /\ strict cdata.
Proof using.
  split; intros r c r' Hr H; [unfold comment in H; pose proof (comment_loop_le (x_buf r) 0) as Hl|unfold cdata in H; pose proof (cdata_loop_le (x_buf r) 0) as Hl];
    (destruct (_ (x_buf r) O) as [n e]; cbn [fst snd] in Hl; sinv H; destruct n as [|n];
     [destruct e; [exfalso; destruct Hl as [_ Hl]; specialize (Hl eq_refl); lia|]; split; [discriminate|left; apply advance_0, Hr]|destruct e; shorter]).
Qed.

Definition moved (r r' : R) : Prop := r' = r \/ (length (x_buf r') < length (x_buf r))%nat /\ u64 (x_pos r') = x_pos r'.

Lemma strict_moved f r c r' : strict f -> rinv r -> f r = Some (inr (c, r')) -> moved r r'.
Proof using. intros Hf Hr H. apply (Hf r c r' Hr H). Qed.

Lemma or_throw_inv e f r c r' : or_throw e f r = Some (inr (c, r')) -> f r = Some (inr (true, r')).
Proof using. unfold or_throw, alt. destruct (f r) as [[e1|[[|] r1]]|]; try discriminate. intros [= <- <-]. reflexivity. Qed.

Ltac shorter_only := right; split; [cbn [x_buf advancePos set_buf set_xstate set_elements set_xattribs set_value set_a set_top set_back_value]; rewrite length_drop; lia|apply u64_u64].

Lemma name_moved e r c r' : rinv r -> x_state r = STATE_ELEMENT_NAME -> or_throw e (elementName startTag) r = Some (inr (c, r')) -> moved r r'.
Proof using.
  intros Hr Hst H%or_throw_inv. unfold elementName in H. set (p := fun c => negb (name_end c) && isNameChar c) in *. destruct (x_buf r !! span p (x_buf r)) as [x|] eqn:E.
  - apply lookup_lt_Some in E. destruct (name_end x); [|discriminate]. unfold appending in H. destruct (appended _ _ _) as [s|]; [|discriminate].
    destruct (isSpace x); [injection H as <-; shorter_only|]. destruct (x =? 47); [injection H as <-; shorter_only|].
    unfold call_start in H. destruct (startTag _ _ _ _); [discriminate|]. injection H as <-. shorter_only.
  - apply lookup_span_end in E. unfold appending in H. destruct (appended _ _ _) as [s|] eqn:Ea; [|discriminate]. injection H as <-. apply appended_eq in Ea as [-> _].
    destruct (decide (x_buf r = [])) as [Eb|Eb]; [left|assert (length (x_buf r) <> O) by (destruct (x_buf r); [contradiction|discriminate]); shorter_only].
    rewrite Eb, take_nil, app_nil_r, set_top_id by (apply (rinv_elem r Hr Hst)). apply advance_0, Hr.
Qed.

Lemma attr_name_moved e r c r' : rinv r -> x_state r = STATE_ELEMENT_ATTR_NAME -> or_throw e elementAttrName r = Some (inr (c, r')) -> moved r r'.
Proof using.
  intros Hr Hst H%or_throw_inv. unfold elementAttrName in H. set (p := fun c => negb (isSpace c || (c =? 61)) && isNameChar c) in *.
  destruct (x_buf r !! span p (x_buf r)) as [x|] eqn:E.
  - apply lookup_lt_Some in E. destruct (_ || _); [|discriminate]. unfold appending in H. destruct (appended _ _ _) as [s|]; [|discriminate]. injection H as <-. shorter_only.
  - apply lookup_span_end in E. unfold appending in H. destruct (appended _ _ _) as [s|] eqn:Ea; [|discriminate]. injection H as <-. apply appended_eq in Ea as [-> _].
    destruct (decide (x_buf r = [])) as [Eb|Eb]; [left|assert (length (x_buf r) <> O) by (destruct (x_buf r); [contradiction|discriminate]); shorter_only].
    destruct (last_attrib _ (rinv_attr r Hr ltac:(rewrite Hst; reflexivity))) as (l & n & v & Hl). rewrite Eb, take_nil, app_nil_r, Hl.
    destruct (back_app l (n, v)) as [-> ->]. cbn [fst snd span]. rewrite set_back_app, <- Hl, advance_0 by apply Hr. destruct r; reflexivity.
Qed.

Lemma value_moved q r r' : rinv r -> x_attribs r <> [] -> value_at q r = Some (inr (true, r')) -> moved r r'.
Proof using.
  intros Hr Hne H. unfold value_at, appending in H. set (i := span (plain_char q) (x_buf r)) in *. destruct (appended _ _ _) as [s|] eqn:Ea; [|discriminate].
  apply appended_eq in Ea as [-> _]. set (s := back_value (x_attribs r) ++ take i (x_buf r)) in *. set (r1 := advancePos (set_back_value r s) i) in *.
  assert (moved r r1) as Hm.
  { destruct (decide (i = O)) as [Ei|Ei].
    - left. unfold r1, s. rewrite Ei, take_0, app_nil_r, set_back_value_id by exact Hne. apply advance_0, Hr.
    - pose proof (span_le (plain_char q) (x_buf r)). fold i in H0. unfold r1. shorter_only. }
  destruct (x_buf r !! i) as [x|] eqn:E; [|injection H as <-; exact Hm].
  pose proof (lookup_lt_Some _ _ _ E). destruct (x =? q) eqn:Eq; [injection H as <-; shorter_only|].
  assert (x = 38) as -> by (pose proof (span_stop _ _ _ E) as Hp; unfold plain_char in Hp; rewrite Eq in Hp; cbn in Hp; destruct (Z.eqb_spec x 38); [assumption|discriminate]).
  assert (x_attribs r1 <> []) as Hne1 by (destruct (last_attrib _ Hne) as (l & n & v & Hl); change (x_attribs r1) with (x_attribs (set_back_value r s));
    rewrite (set_back_value_attribs r l n v s Hl); destruct l; discriminate).
  assert (set_back_value r1 s = r1) as Hid by (rewrite <- (back_value_set r s Hne) at 1; change (x_attribs (set_back_value r s)) with (x_attribs r1); apply set_back_value_id, Hne1).
  destruct (entref_strict s set_back_value r1 true r' (drop (S i) (x_buf r)) ltac:(cbn; apply drop_S, E) ltac:(apply u64_u64) Hid ltac:(reflexivity) H) as [_ [E1|[H1 H2]]]; [rewrite E1; exact Hm|].
  right. split; [|exact H2]. destruct Hm as [E1|[Hm _]]; [rewrite E1 in H1; exact H1|lia].
Qed.

(** *** The states *)

Lemma alt_assoc (f g h : R -> Result) r : alt f (alt g h) r = alt (alt f g) h r.
Proof using. unfold alt. destruct (f r) as [[e|[[|] r1]]|]; reflexivity. Qed.

Ltac strict_chain :=
  repeat first [apply strict_alt|apply strict_space|apply strict_throw|apply strict_literal; discriminate|apply strict_simple|apply strict_skip|apply strict_elementEnd
    |apply strict_content|apply strict_comment].

Ltac sharp_chain :=
  repeat first [apply sharp_alt|apply sharp_throw|apply sharp_literal; discriminate|apply sharp_character|apply sharp_element|apply sharp_elementAttr|apply sharp_ends
    |apply sharp_content].

Ltac rejects_chain := repeat first [apply rejects_alt|apply rejects_literal; reflexivity|apply rejects_character; reflexivity].

Lemma step_moved r c r' : rinv r -> xstep r = Some (inr (c, r')) -> moved r r'.
Proof using.
  intros Hr H. pose proof (rinv_past r Hr) as Hpast. unfold step in H. destruct (x_state r) eqn:Hst; try discriminate Hpast.
  all: try (eapply strict_moved; [|exact Hr|exact H]; strict_chain; fail).
  - apply (name_moved _ r c r' Hr Hst H).
  - apply (attr_name_moved _ r c r' Hr Hst H).
  - apply or_throw_inv in H. apply (value_moved 34 r r' Hr); [apply (rinv_attr r Hr); rewrite Hst; reflexivity|]. unfold elementAttrValue in H. rewrite Hst in H. exact H.
  - apply or_throw_inv in H. apply (value_moved 39 r r' Hr); [apply (rinv_attr r Hr); rewrite Hst; reflexivity|]. unfold elementAttrValue in H. rewrite Hst in H. exact H.
  - injection H as <- <-. left. reflexivity.
Qed.

(** The last two parts of the invariant. *)
Definition shaped (r : R) : Prop := (attr_state (x_state r) = true -> x_attribs r <> []) /\ (x_state r = STATE_ELEMENT_NAME -> x_elements r <> []).
Definition shapes (f : R -> Result) : Prop := forall r c r', shaped r -> f r = Some (inr (c, r')) -> shaped r'.

Lemma shapes_alt f g : shapes f -> shapes g -> shapes (alt f g).
Proof using.
  intros Hf Hg r c r' Hp H. unfold alt in H. destruct (f r) as [[e|[[|] r1]]|] eqn:E; try discriminate.
  - injection H as <- <-. eapply Hf; eassumption.
  - eapply Hg; [|exact H]. eapply Hf; eassumption.
Qed.

(** A function that changes neither the attributes nor the elements, and goes to a state without them. *)
Lemma shapes_state f : (forall r c r', f r = Some (inr (c, r')) -> (x_state r' = x_state r /\ x_attribs r' = x_attribs r /\ x_elements r' = x_elements r) \/ attr_state (x_state r') = false /\ x_state r' <> STATE_ELEMENT_NAME) -> shapes f.
Proof using.
  intros H r c r' [H1 H2] E. unfold shaped. destruct (H r c r' E) as [(-> & -> & ->)|[H3 H4]]; [split; assumption|]. split; [rewrite H3; discriminate|contradiction].
Qed.

Ltac plain_state :=
  apply shapes_state; intros r c r' H;
  unfold literal, skipSpace, character, declVersionNum, elementEndSimple, elementEndComplex, elementEnd, elementEndEnd, comment, cdata, content, entref, appending, call_start, throw, ret in H;
  repeat match type of H with context [match ?x with _ => _ end] => destruct x end; try discriminate; injection H as <- <-;
  first [left; split; [reflexivity|split; reflexivity]|right; split; [reflexivity|cbn; discriminate]].

Lemma shapes_literal lit sp st : attr_state st = false -> st <> STATE_ELEMENT_NAME -> shapes (literal lit sp st).
Proof using.
  intros H1 H2. apply shapes_state. intros r c r' H. unfold literal, ret in H.
  repeat match type of H with context [match ?x with _ => _ end] => destruct x end; try discriminate; injection H as <- <-;
    first [left; split; [reflexivity|split; reflexivity]|right; split; assumption].
Qed.

Lemma shapes_character x st : attr_state st = false -> st <> STATE_ELEMENT_NAME -> shapes (character x st).
Proof using.
  intros H1 H2. apply shapes_state. intros r c r' H. unfold character, ret in H.
  repeat match type of H with context [match ?x with _ => _ end] => destruct x end; try discriminate; injection H as <- <-;
    first [left; split; [reflexivity|split; reflexivity]|right; split; assumption].
Qed.

Lemma shapes_skip store : shapes (skipSpace store).
Proof using. plain_state. Qed.
Lemma shapes_throw e : shapes (fun r => throw r e).
Proof using. intros r c r' _ H. discriminate. Qed.
Lemma shapes_space e : shapes (spaceOrError e).
Proof using. apply shapes_alt; [apply shapes_skip|apply shapes_throw]. Qed.
Lemma shapes_ends : shapes (elementEndSimple startTag) /\ shapes (elementEndComplex startTag) /\ shapes elementEnd /\ shapes (elementEndEnd endTag toUtf8).
Proof using.
  split; [plain_state|split; [plain_state|split; [|plain_state]]]. apply shapes_state. intros r c r' H. unfold elementEnd in H.
  destruct (x_elements r) as [|e l] eqn:E; [injection H as <- <-; left; auto|]. destruct (negb _); [injection H as <- <-; left; auto|].
  destruct (bool_decide _); injection H as <- <-; [right; split; [reflexivity|cbn; discriminate]|left; auto].
Qed.
Lemma shapes_content : shapes content /\ shapes comment /\ shapes cdata.
Proof using. split; [|split]; plain_state. Qed.

Lemma shapes_element : shapes element.
Proof using.
  intros r c r' Hr H. unfold element in H. destruct (negb _); [injection H as <- <-; exact Hr|]. destruct (_ && _); [|injection H as <- <-; exact Hr].
  destruct (_ <=? _)%nat; [discriminate|]. injection H as <- <-. split; cbn; discriminate.
Qed.

Lemma shapes_attr : shapes elementAttr.
Proof using.
  intros r c r' Hr H. unfold elementAttr in H. destruct (negb _); [injection H as <- <-; exact Hr|]. destruct (isNameStartChar _); injection H as <- <-; [|exact Hr].
  split; cbn; [destruct (x_attribs r); discriminate|discriminate].
Qed.

Lemma set_back_ne l a : set_back l a <> [].
Proof using. unfold set_back. destruct (removelast l); discriminate. Qed.

(** In the states of an attribute there is one. *)
Definition full (r : R) : Prop := x_attribs r <> [] /\ x_state r <> STATE_ELEMENT_NAME.
Definition fills (f : R -> Result) : Prop := forall r c r', full r -> f r = Some (inr (c, r')) -> full r'.

Lemma fills_alt f g : fills f -> fills g -> fills (alt f g).
Proof using.
  intros Hf Hg r c r' Hp H. unfold alt in H. destruct (f r) as [[e|[[|] r1]]|] eqn:E; try discriminate.
  - injection H as <- <-. eapply Hf; eassumption.
  - eapply Hg; [|exact H]. eapply Hf; eassumption.
Qed.

Lemma fills_throw e : fills (fun r => throw r e).
Proof using. intros r c r' _ H. discriminate. Qed.

Lemma fills_character x st : st <> STATE_ELEMENT_NAME -> fills (character x st).
Proof using.
  intros Hst r c r' Hr H. unfold character in H. destruct (negb _); [injection H as <- <-; exact Hr|]. destruct (_ =? _); injection H as <- <-; [|exact Hr].
  split; [apply Hr|exact Hst].
Qed.

Lemma fills_space e : fills (spaceOrError e).
Proof using.
  apply fills_alt; [|apply fills_throw]. intros r c r' Hr H. unfold skipSpace in H. destruct (negb _); [injection H as <- <-; exact Hr|].
  destruct (_ && _ && _); [discriminate|]. injection H as <- <-. exact Hr.
Qed.

Lemma fills_name : fills elementAttrName.
Proof using.
  intros r c r' Hr H. unfold elementAttrName in H. destruct (x_buf r !! _) as [x|]; [destruct (_ || _); [|injection H as <- <-; exact Hr]|];
    apply appending_inv in H as (y & _ & H); injection H as <- <-; (split; [apply set_back_ne|]); [cbn; destruct (isSpace x); discriminate|apply Hr].
Qed.

Lemma fills_value : fills (elementAttrValue toUtf8).
Proof using.
  intros r c r' Hr H. unfold elementAttrValue in H. apply appending_inv in H as (y & _ & H). destruct (x_buf r !! _) as [x|]; [destruct (x =? _)|].
  - injection H as <- <-. split; [apply set_back_ne|discriminate].
  - unfold entref in H. destruct (_ <=? _); [discriminate|]. destruct (entity _) as [[n z]|]; injection H as <- <-; (split; [apply set_back_ne|apply Hr]).
  - injection H as <- <-. split; [apply set_back_ne|apply Hr].
Qed.

Lemma fills_shaped f r c r' : fills f -> full r -> f r = Some (inr (c, r')) -> shaped r'.
Proof using. intros Hf Hr H. destruct (Hf r c r' Hr H) as [H1 H2]. split; [intros _; exact H1|contradiction]. Qed.

Lemma step_shaped r c r' : rinv r -> xstep r = Some (inr (c, r')) -> shaped r'.
Proof using.
  intros Hr H. assert (shaped r) as Hs by (split; apply Hr). pose proof (rinv_past r Hr) as Hpast. unfold step in H. destruct (x_state r) eqn:Hst; try discriminate Hpast.
  all: try (refine ((_ : shapes _) r c r' Hs H);
    repeat first [apply shapes_alt|apply shapes_space|apply shapes_throw|apply shapes_literal; [reflexivity|discriminate]|apply shapes_character; [reflexivity|discriminate]
      |apply shapes_skip|apply shapes_ends|apply shapes_content|apply shapes_element|apply shapes_attr]; fail).
  2-6: eapply fills_shaped; [|split; [apply Hs; rewrite Hst; reflexivity|rewrite Hst; discriminate]|exact H];
    repeat first [apply fills_space|apply fills_alt|apply fills_throw|apply fills_name|apply fills_value|apply fills_character; discriminate].
  - apply or_throw_inv in H. pose proof (rinv_elem r Hr Hst) as Hne. unfold elementName in H.
    destruct (x_buf r !! _) as [x|]; [destruct (name_end x); [|discriminate]|]; apply appending_inv in H as (y & _ & H).
    + destruct (isSpace x); [injection H as <-; split; cbn; discriminate|]. destruct (x =? 47); [injection H as <-; split; cbn; discriminate|].
      apply call_start_inv in H as (a & H). injection H as <-. split; cbn; discriminate.
    + injection H as <-. split; cbn; [rewrite Hst; discriminate|]. intros _. destruct (x_elements r); [contradiction|discriminate].
  - injection H as <- <-. exact Hs.
Qed.

(** *** Texts that may be cut anywhere *)

(** No reference by number, and a name after [</]. *)
Fixpoint plain (l : list Z) : bool :=
  match l with
  | [] => true
  | _ :: r => negb (begins [38; 35] l) && negb (begins [60; 47] l && match r with _ :: d :: _ => isSpace d | _ => false end) && plain r
  end.

Lemma plain_nohash l : plain l = true -> nohash l.
Proof using.
  unfold nohash. induction l as [|c l IH]; [reflexivity|]. cbn [plain]. intros H. apply andb_prop in H as [H1 H]. apply andb_prop in H1 as [H1 _].
  apply free_cons. split; [destruct (begins _ _); [discriminate|reflexivity]|apply IH, H].
Qed.

Lemma plain_drop l n : plain l = true -> plain (drop n l) = true.
Proof using.
  revert n. induction l as [|c l IH]; intros n H; [rewrite drop_nil; reflexivity|]. destruct n; [exact H|]. cbn [plain] in H. apply andb_prop in H as [_ H]. apply IH, H.
Qed.

Record ready (r : R) (b : list Z) : Prop := {
  ready_plain : plain (x_buf r ++ b) = true;
  ready_end : x_state r = STATE_ELEMENT_END -> no_space (x_buf r ++ b)
}.

Lemma carries_ext (F G : R -> Result) r b : (forall r1, x_state r1 = x_state r -> F r1 = G r1) -> carries_at G r b -> carries_at F r b.
Proof using.
  intros HE H. unfold carries_at in *. rewrite (HE r eq_refl), (HE (feed r b) eq_refl). destruct (G r) as [[e|[c r']]|]; [exact H| |exact I].
  destruct H as [H|[H|(H1 & H2 & H3)]]; [left; exact H|right; left; exact H|right; right]. split; [exact H1|]. split; [exact H2|].
  rewrite (HE (feed r b) eq_refl), (HE (feed r' b) H1). exact H3.
Qed.

Lemma step_rinv r c r' : rinv r -> xstep r = Some (inr (c, r')) -> rinv r'.
Proof using.
  intros Hr H. destruct (step_shaped r c r' Hr H) as [H1 H2]. split; [|destruct (step_moved r c r' Hr H) as [-> |[_ E]]; [apply Hr|exact E]|exact H1|exact H2|exact (step_stays startTag endTag toLower toUtf8 r c r' (rinv_past r Hr) H)].
  apply (step_moves startTag endTag toLower toUtf8 r c r' (rinv_named r Hr) H).
Qed.

Lemma carries_assoc f g h r b : carries_at (alt (alt f g) h) r b -> carries_at (alt f (alt g h)) r b.
Proof using. apply carries_ext. intros r1 _. apply alt_assoc. Qed.

Lemma rejects_attr : rejects elementAttr /\ rejects (elementEndComplex startTag) /\ rejects (elementEndEnd endTag toUtf8).
Proof using.
  split; [|split]; intros r c t Hb Hc; destruct (space_name c Hc) as (H1 & _ & H2).
  - unfold elementAttr, needChars, charAt. rewrite Hb. cbn [length Nat.leb negb nth]. rewrite H1. reflexivity.
  - unfold elementEndComplex, needChars, charAt. rewrite Hb. cbn [length Nat.leb negb nth]. rewrite H2. reflexivity.
  - unfold elementEndEnd, needChars, charAt. rewrite Hb. cbn [length Nat.leb negb nth]. rewrite H2. reflexivity.
Qed.

Ltac spaces :=
  repeat match goal with |- carries_at (alt _ (alt _ _)) _ _ => apply carries_assoc end;
  apply space_last; [sharp_chain|repeat first [apply rejects_alt|apply rejects_literal; reflexivity|apply rejects_character; reflexivity|apply rejects_attr]|assumption|assumption].

Lemma step_carries r b : rinv r -> ready r b -> carries_at xstep r b.
Proof using.
  intros Hr [Hp He]. pose proof (plain_nohash _ Hp) as Hn. pose proof (rinv_past r Hr) as Hpast. destruct (x_state r) eqn:Hst; try discriminate Hpast.
  all: eapply carries_ext; [intros r1 E1; unfold step; rewrite E1, Hst; reflexivity|].
  all: try (spaces; fail).
  all: try (apply sharp_carries; [sharp_chain|assumption|assumption]; fail).
  - apply (name_carries _ r b Hr Hst).
  - apply (attr_name_carries _ r b Hr Hst).
  - destruct (value_carries "Expecting attribute value"%string r b Hr Hn (or_introl Hst)) as (q & Hq & HV).
    revert Hq. apply carries_ext. intros r1 E1. unfold or_throw, alt. rewrite HV by exact E1. reflexivity.
  - destruct (value_carries "Expecting attribute value"%string r b Hr Hn (or_intror Hst)) as (q & Hq & HV).
    revert Hq. apply carries_ext. intros r1 E1. unfold or_throw, alt. rewrite HV by exact E1. reflexivity.
  - apply nospace_last; [sharp_chain|assumption|assumption|apply He; reflexivity].
  - apply comment_carries, Hr.
  - apply cdata_carries, Hr.
  - apply skip_first; [sharp_chain|assumption|assumption].
  - right. left. reflexivity.
Qed.
(** *** What a step leaves *)

(** The end of an element starts with [</] only. *)
Definition enters (f : R -> Result) : Prop := forall r c r', rinv r -> x_state r <> STATE_ELEMENT_END -> f r = Some (inr (c, r')) ->
  x_state r' = STATE_ELEMENT_END -> x_buf r = 60 :: 47 :: x_buf r'.

Lemma enters_alt f g : strict f -> enters f -> enters g -> enters (alt f g).
Proof using.
  intros Hs Hf Hg r c r' Hr Hst H. unfold alt in H. destruct (f r) as [[e|[[|] r1]]|] eqn:E; try discriminate.
  - injection H as <- <-. apply (Hf r true r1 Hr Hst E).
  - destruct (Hs r false r1 Hr E) as [E1 _]. rewrite E1 in H by reflexivity. exact (Hg r c r' Hr Hst H).
Qed.

(** A function that does not go there. *)
Definition avoids (f : R -> Result) : Prop := forall r c r', x_state r <> STATE_ELEMENT_END -> f r = Some (inr (c, r')) -> x_state r' <> STATE_ELEMENT_END.

Lemma avoids_enters f : avoids f -> enters f.
Proof using. intros Hf r c r' Hr Hst H E. destruct (Hf r c r' Hst H E). Qed.

Lemma avoids_alt f g : avoids f -> avoids g -> avoids (alt f g).
Proof using.
  intros Hf Hg r c r' Hst H. unfold alt in H. destruct (f r) as [[e|[[|] r1]]|] eqn:E; try discriminate.
  - injection H as <- <-. exact (Hf r true r1 Hst E).
  - exact (Hg r1 c r' (Hf r false r1 Hst E) H).
Qed.

Ltac avoid :=
  repeat match goal with |- avoids (alt _ _) => apply avoids_alt | |- avoids (spaceOrError _) => apply avoids_alt end;
  let r := fresh "r" in let H := fresh "H" in intros r ? ? ? H; try discriminate H;
  unfold literal, skipSpace, element, character, elementName, elementAttr, elementAttrName, elementAttrValue, elementEndSimple,
    elementEndComplex, elementEnd, elementEndEnd, comment, cdata, content, entref, appending, call_start in H;
  repeat match type of H with context [match ?x with _ => _ end] => destruct x end;
  first [discriminate H|injection H as <- <-; first [assumption|discriminate]].

Lemma enters_end : enters (literal [60; 47] false STATE_ELEMENT_END).
Proof using.
  intros r c r' Hr Hst H E. unfold literal in H. destruct (x_buf r) as [|x [|y t]] eqn:Eb; cbn [lit_match] in H.
  - injection H as <- <-. contradiction.
  - destruct (x =? 60); injection H as <- <-; contradiction.
  - destruct (Z.eqb_spec x 60) as [-> |]; [|injection H as <- <-; contradiction]. destruct (Z.eqb_spec y 47) as [-> |]; [|injection H as <- <-; contradiction].
    injection H as <- <-. cbn. rewrite Eb. reflexivity.
Qed.

Lemma step_enters r c r' : rinv r -> x_state r <> STATE_ELEMENT_END -> xstep r = Some (inr (c, r')) -> x_state r' = STATE_ELEMENT_END -> x_buf r = 60 :: 47 :: x_buf r'.
Proof using.
  intros Hr Hst H E. pose proof (rinv_past r Hr) as Hpast.
  assert (forall f, enters f -> f r = Some (inr (c, r')) -> x_buf r = 60 :: 47 :: x_buf r') as Hf by (intros f Hf Hs; exact (Hf r c r' Hr Hst Hs E)).
  unfold step in H. destruct (x_state r); try discriminate Hpast; try contradiction; (eapply Hf; [clear|exact H]).
  all: try (apply avoids_enters; avoid; fail).
  repeat first [apply enters_end|apply avoids_enters; avoid; fail|apply enters_alt; [strict_chain|..]].
Qed.

Lemma end_same r c r' b : rinv r -> x_state r = STATE_ELEMENT_END -> no_space (x_buf r ++ b) -> xstep r = Some (inr (c, r')) -> x_state r' = STATE_ELEMENT_END -> r' = r.
Proof using.
  intros Hr Hst Hsp H E. unfold step in H. rewrite Hst in H. unfold alt in H. destruct (elementEnd r) as [[e|[[|] r1]]|] eqn:Ee; try discriminate.
  - injection H as <- <-. unfold elementEnd in Ee. destruct (x_elements r); [discriminate|]. destruct (negb _); [injection Ee as <-; reflexivity|].
    destruct (bool_decide _); [injection Ee as <-; discriminate|discriminate].
  - destruct (strict_elementEnd r false r1 Hr Ee) as [E1 _]. rewrite E1 in H by reflexivity. unfold spaceOrError, alt, skipSpace in H.
    destruct (needChars r 1) eqn:En; cbn [negb] in H; [|injection H as <- <-; reflexivity].
    destruct (needChars_cons r En) as (x & t & Hb & _). rewrite Hb in *. cbn [app no_space] in Hsp. cbn [span] in H. rewrite Hsp, andb_false_r in H. discriminate.
Qed.

Lemma step_ready r b c r' : rinv r -> ready r b -> xstep r = Some (inr (c, r')) -> ready r' b.
Proof using.
  intros Hr [Hp He] H. destruct (step_moves startTag endTag toLower toUtf8 r c r' (rinv_named r Hr) H) as (_ & n & Hn & Hl & _). split.
  - rewrite Hn, <- drop_app_le by exact Hl. apply plain_drop, Hp.
  - intros E. destruct (decide (x_state r = STATE_ELEMENT_END)) as [Hst|Hst].
    + rewrite (end_same r c r' b Hr Hst (He Hst) H E). apply He, Hst.
    + rewrite (step_enters r c r' Hr Hst H E) in Hp. cbn [app plain] in Hp. apply andb_prop in Hp as [Hp _]. apply andb_prop in Hp as [_ Hp].
      destruct (x_buf r' ++ b) as [|d l]; [exact I|]. cbn in *. destruct (isSpace d); [discriminate|reflexivity].
Qed.

(** ** The loop *)

Lemma settle_rinv r r' : rinv r' -> rinv (settle r r').
Proof using. intros [H1 H2 H3 H4 H5]. unfold settle. destruct (_ && _); split; assumption. Qed.

Lemma settle_ready r r' b : ready r' b -> ready (settle r r') b.
Proof using. intros [H1 H2]. unfold settle. destruct (_ && _); split; assumption. Qed.

Lemma settle_feed r r' b : settle (feed r b) (feed r' b) = feed (settle r r') b.
Proof using. unfold settle. cbn [x_state feed set_buf]. destruct (_ && _); reflexivity. Qed.

Lemma feed_rinv r b : rinv r -> rinv (feed r b).
Proof using. intros [H1 H2 H3 H4 H5]. split; assumption. Qed.

Lemma process_throws r : x_state r <> STATE_END -> throws (xstep r) -> throws (xprocess r).
Proof using. intros Hst [e He]. exists e. unfold process. cbn [process_loop]. rewrite bool_decide_false by exact Hst. rewrite He. reflexivity. Qed.

(** Steps with the same result, one of them from fewer characters. *)
Lemma process_same x y : rinv x -> rinv y -> x_state x = x_state y -> x_state x <> STATE_END -> (length (x_buf y) < length (x_buf x))%nat ->
  xstep x = xstep y -> xprocess x = xprocess y.
Proof using.
  intros Hx Hy Hst Hend Hl E. assert (x_state y <> STATE_END) as Hend' by congruence. destruct (xstep y) as [[e|[c r]]|] eqn:Ey.
  - unfold process. cbn [process_loop]. rewrite !bool_decide_false, E, Ey by assumption. reflexivity.
  - destruct (step_moved y c r Hy Ey) as [-> |[Hm _]].
    + rewrite (process_step startTag endTag toLower toUtf8 x c y (rinv_named x Hx) Hend E Hl). unfold settle. rewrite Hst, (bool_decide_true (x_state y = x_state y)), andb_false_r by reflexivity. reflexivity.
    + rewrite (process_step startTag endTag toLower toUtf8 x c r (rinv_named x Hx) Hend E), (process_step startTag endTag toLower toUtf8 y c r (rinv_named y Hy) Hend' Ey) by lia.
      unfold settle. rewrite Hst. reflexivity.
  - unfold process. cbn [process_loop]. rewrite !bool_decide_false, E, Ey by assumption. reflexivity.
Qed.

Lemma partly_process r r1 b : rinv r -> rinv r1 -> x_state r <> STATE_END -> partly xstep r r1 b -> same (xprocess (feed r b)) (xprocess (feed r1 b)).
Proof using.
  intros Hr Hr1 Hend (Hst & Hl & [E|[H1 H2]]).
  - left. apply process_same; [apply feed_rinv, Hr|apply feed_rinv, Hr1|symmetry; exact Hst|exact Hend| |exact E]. cbn. rewrite !length_app. lia.
  - right. split; apply process_throws; try assumption. cbn. rewrite Hst. exact Hend.
Qed.

(** What is read, with more characters to come, is what is read with them. *)
Definition continues (x : Result) (r : R) (b : list Z) : Prop :=
  match x with
  | None => True
  | Some (inl _) => throws (xprocess (feed r b))
  | Some (inr (true, r')) => rinv r' /\ ready r' b /\ same (xprocess (feed r b)) (xprocess (feed r' b))
  | Some (inr (false, r')) => xprocess (feed r b) = Some (inr (false, r'))
  end.

Lemma continues_same x r r1 b : same (xprocess (feed r b)) (xprocess (feed r1 b)) -> continues x r1 b -> continues x r b.
Proof using.
  intros Hs. unfold continues. destruct x as [[e|[[|] r']]|]; [| | |auto].
  - intros He. destruct Hs as [-> |[H _]]; [exact He|exact H].
  - intros (H1 & H2 & H3). split; [exact H1|]. split; [exact H2|]. exact (same_trans _ _ _ Hs H3).
  - intros H. destruct Hs as [-> |[_ [e He]]]; [exact H|congruence].
Qed.

Lemma loop_continues fuel r b : rinv r -> ready r b -> continues (xloop fuel r) r b.
Proof using.
  revert r. induction fuel as [|fuel IH]; intros r Hr Hb; [exact I|]. cbn [process_loop]. case_bool_decide as Hend.
  { cbn. unfold process. cbn [process_loop]. rewrite bool_decide_true by exact Hend. reflexivity. }
  pose proof (step_carries r b Hr Hb) as Hc. unfold carries_at in Hc. destruct (xstep r) as [[e|[c r1]]|] eqn:E; [| |exact I].
  { apply process_throws; [exact Hend|exact Hc]. }
  pose proof (step_rinv r c r1 Hr E) as Hr1. pose proof (step_ready r b c r1 Hr Hb E) as Hb1. destruct (stalled r r1) eqn:Es.
  { destruct (step_moved r c r1 Hr E) as [-> |[Hm _]]; [cbn; auto using same_refl|].
    unfold stalled in Es. apply andb_prop in Es as [_ Es]. apply Nat.eqb_eq in Es. lia. }
  apply (stalled_spec _ _ (step_moves startTag endTag toLower toUtf8 r c r1 (rinv_named r Hr) E)) in Es.
  apply (continues_same _ r (settle r r1)); [|apply IH; [apply settle_rinv, Hr1|apply settle_ready, Hb1]].
  destruct Hc as [(c' & Hc)|[-> |Hc]]; [|lia|].
  - left. rewrite <- settle_feed. apply (process_step startTag endTag toLower toUtf8 (feed r b) c' (feed r1 b) (rinv_named r Hr) Hend Hc). cbn. rewrite !length_app. lia.
  - assert (settle r r1 = r1) as -> by (unfold settle; destruct Hc as [-> _]; rewrite (bool_decide_true (x_state r = x_state r)), andb_false_r by reflexivity; reflexivity).
    apply (partly_process r r1 b Hr Hr1 Hend Hc).
Qed.

(** ** The stream *)

(** Equal, or both an exception. *)
Definition alike (x y : option (XmlError + R)) : Prop := x = y \/ (exists e, x = Some (inl e)) /\ exists e, y = Some (inl e).

Lemma alike_trans x y z : alike x y -> alike y z -> alike x z.
Proof using. intros [-> |[H1 H2]]; [auto|]. intros [<- |[H3 H4]]; right; auto. Qed.

(** What [parse] of a stream makes of the last piece. *)
Definition stream_outcome (x : Result) : option (XmlError + R) :=
  match x with
  | Some (inr (true, r)) => parse_stream startTag endTag toLower toUtf8 r 0 0 []
  | Some (inr (false, r)) => Some (inr r)
  | Some (inl e) => Some (inl e)
  | None => None
  end.

Lemma stream_outcome_same x y : same x y -> alike (stream_outcome x) (stream_outcome y).
Proof using. intros [-> |[[e ->] [e' ->]]]; [left; reflexivity|right]. split; eexists; reflexivity. Qed.

Definition total (chunks : list (list Z)) : Z := Z.of_nat (length (concat chunks)).

Definition within (maxSize n : Z) : Prop := 0 < maxSize -> n <= maxSize.

Lemma within_test maxSize n : within maxSize n -> (0 <? maxSize) && (maxSize <? n) = false.
Proof using. unfold within. intros H. apply andb_false_iff. rewrite !Z.ltb_ge. lia. Qed.

(** A piece has been added; the others come next. *)
Definition next_pieces (maxSize n : Z) (chunks : list (list Z)) (x : Result) : option (XmlError + R) :=
  match x with
  | Some (inr (true, r)) => parse_stream startTag endTag toLower toUtf8 r maxSize n chunks
  | Some (inr (false, r)) => Some (inr r)
  | Some (inl e) => Some (inl e)
  | None => None
  end.

Lemma stream_cons r maxSize n d chunks : d <> [] -> within maxSize (n + Z.of_nat (length d)) ->
  parse_stream startTag endTag toLower toUtf8 r maxSize n (d :: chunks) = next_pieces maxSize (n + Z.of_nat (length d)) chunks (xprocess (feed r d)).
Proof using. intros Hd Hw. cbn [parse_stream]. rewrite (within_test _ _ Hw), bool_decide_false by exact Hd. reflexivity. Qed.

Lemma feed_feed r d b : feed (feed r d) b = feed r (d ++ b).
Proof using. unfold feed, set_buf. cbn. rewrite <- app_assoc. reflexivity. Qed.

Lemma feed_nil r : feed r [] = r.
Proof using. unfold feed, set_buf. rewrite app_nil_r. destruct r. reflexivity. Qed.

Lemma feed_ready r d b : ready r (d ++ b) -> ready (feed r d) b.
Proof using. intros [H1 H2]. split; cbn [x_buf x_state feed set_buf]; rewrite <- app_assoc; assumption. Qed.

Lemma stream_next chunks r maxSize n : rinv r -> ready r (concat chunks) -> Forall (fun d => d <> []) chunks -> within maxSize (n + total chunks) ->
  alike (next_pieces maxSize n chunks (xprocess r)) (stream_outcome (xprocess (feed r (concat chunks)))).
Proof using.
  revert r n. induction chunks as [|d chunks IH]; intros r n Hr Hb Hc Hw; [left; cbn [concat]; rewrite feed_nil; reflexivity|]. apply Forall_cons in Hc as [Hd Hc].
  unfold total in *. cbn [concat] in *. rewrite length_app in Hw.
  pose proof (loop_continues (S (length (x_buf r))) r (d ++ concat chunks) Hr Hb) as H.
  pose proof (process_loop_returns startTag endTag toLower toUtf8 (S (length (x_buf r))) r (rinv_named r Hr) (or_introl (past_decl_encoding _ (rinv_past r Hr))) ltac:(lia)) as Hret.
  change (xloop _ r) with (xprocess r) in *. unfold continues in H. destruct (xprocess r) as [[e|[[|] r1]]|]; [| | |congruence].
  - destruct H as [e' ->]. right. split; eexists; reflexivity.
  - destruct H as (Hr1 & Hb1 & Hs). cbn [next_pieces]. rewrite stream_cons by (try assumption; unfold within in *; lia).
    eapply alike_trans; [apply IH; [apply feed_rinv, Hr1|apply feed_ready, Hb1|exact Hc|unfold within in *; lia]|]. rewrite feed_feed. apply stream_outcome_same, same_sym, Hs.
  - rewrite H. left. reflexivity.
Qed.

(** The listener at the end of a stream that is read without an exception. *)
Lemma stream_state_ok chunks r maxSize n r' : parse_stream startTag endTag toLower toUtf8 r maxSize n chunks = Some (inr r') -> stream_state r maxSize n chunks = Some (x_a r').
Proof using.
  revert r n. induction chunks as [|d chunks IH]; intros r n H; cbn [parse_stream stream_state] in *.
  - destruct (bool_decide _); [|discriminate]. injection H as <-. reflexivity.
  - destruct (_ && _); [discriminate|]. destruct (bool_decide (d = [])); [destruct (bool_decide _); [|discriminate]; injection H as <-; reflexivity|].
    destruct (parse _ _ _ _ _ _) as [[e|[[|] r1]]|]; try discriminate; [apply IH, H|]. injection H as <-. reflexivity.
Qed.

(** *** From the start *)

(** The system leaves the name of the encoding as it is. *)
Hypothesis lower_utf8 : toLower utf8_name = Some utf8_name.

(** The header is read first; then the pieces follow. *)
Lemma pieces_alike a maxSize first chunks :
  Forall (fun d => d <> []) chunks -> plain ([13; 10] ++ first ++ concat chunks) = true -> within maxSize (total ((utf8Header ++ first) :: chunks)) ->
  alike (parse_stream startTag endTag toLower toUtf8 (SimpleXMLReader_new a) maxSize 0 ((utf8Header ++ first) :: chunks))
    (parse_stream startTag endTag toLower toUtf8 (SimpleXMLReader_new a) maxSize 0 [utf8Header ++ first ++ concat chunks]).
Proof using lower_utf8.
  intros Hc Hp Hw. destruct (header_reads_all startTag endTag toLower toUtf8 lower_utf8 a 0 eq_refl) as (p & Hu & Hh). unfold total in Hw. cbn [concat] in Hw. rewrite length_app in Hw.
  rewrite !stream_cons by (try (destruct utf8Header eqn:E; discriminate); unfold within in *; rewrite ?length_app in *; lia).
  assert (forall t, xprocess (feed (SimpleXMLReader_new a) (utf8Header ++ t)) = xprocess (feed (decl_rd utf8_name STATE_CONTENT [13; 10] a [] p) t)) as Hs by exact Hh.
  rewrite !Hs. set (r := decl_rd utf8_name STATE_CONTENT [13; 10] a [] p).
  assert (rinv r) as Hr by (split; [constructor|exact Hu|discriminate|discriminate|reflexivity]).
  rewrite <- feed_feed. change (next_pieces maxSize (0 + Z.of_nat (length (utf8Header ++ first ++ concat chunks))) []) with stream_outcome.
  apply stream_next; [apply feed_rinv, Hr|split; [change (plain (([13; 10] ++ first) ++ concat chunks) = true); rewrite <- app_assoc; exact Hp|discriminate]|exact Hc|unfold total, within in *; lia].
Qed.

(** A document of lines, in pieces: the listener is told about the lines. *)
Lemma stream_lines l a a' first chunks : Forall line_ok l -> plain (concat (map line_text l) ++ [13; 10]) = true -> lines_run startTag endTag ([], a) l = Some ([], a') ->
  Forall (fun d => d <> []) chunks -> [13; 10] ++ first ++ concat chunks = concat (map line_text l) ++ [13; 10] ->
  stream_state (SimpleXMLReader_new a) 0 0 ((utf8Header ++ first) :: chunks) = Some a'.
Proof using lower_utf8.
  intros Hl Hp Hr Hc Ht. pose proof (pieces_alike a 0 first chunks Hc ltac:(rewrite Ht; exact Hp) ltac:(intros H; lia)) as Ha.
  assert (exists r, parse_stream startTag endTag toLower toUtf8 (SimpleXMLReader_new a) 0 0 [utf8Header ++ first ++ concat chunks] = Some (inr r) /\ x_a r = a') as (r & E & Er).
  { rewrite stream_cons by (try (destruct utf8Header eqn:E; discriminate); intros H; lia).
    destruct (header_reads startTag endTag toLower toUtf8 lower_utf8 (first ++ concat chunks) a 0 eq_refl) as (p & Hu & Hh).
    change (13 :: 10 :: first ++ concat chunks) with ([13; 10] ++ first ++ concat chunks) in Hh. rewrite Ht in Hh.
    destruct (lines_read startTag endTag toLower toUtf8 utf8_name l [] a [] a' [13; 10] (Forall_nil_2 _) Hl Hr ltac:(cbn; lia) p Hu) as (p' & _ & Hd).
    assert (xprocess (feed (SimpleXMLReader_new a) (utf8Header ++ first ++ concat chunks)) = xprocess (rd utf8_name STATE_CONTENT [13; 10] [] [] [] a' p')) as -> by exact (eq_trans Hh Hd).
    eexists. split; reflexivity. }
  rewrite <- Er. apply stream_state_ok. destruct Ha as [-> |[_ [e He]]]; [exact E|congruence].
Qed.

(** C18.  The pieces in which a stream gives a text do not matter: from a document with the header that
    this program writes, cut anywhere after the header, the reader tells its listener the same,
    and ends in the same state, as from the document in one piece; or both end with an exception.
    Only texts with a reference by number, or with white space after [</], are excluded. *)
Theorem stream_pieces a maxSize first chunks :
  Forall (fun d => d <> []) chunks -> plain ([13; 10] ++ first ++ concat chunks) = true -> within maxSize (total ((utf8Header ++ first) :: chunks)) ->
  alike (parse_stream startTag endTag toLower toUtf8 (SimpleXMLReader_new a) maxSize 0 ((utf8Header ++ first) :: chunks))
    (parse_stream startTag endTag toLower toUtf8 (SimpleXMLReader_new a) maxSize 0 [utf8Header ++ first ++ concat chunks]).
Proof using lower_utf8. apply pieces_alike. Qed.
End Stream.

(** ** Where the pieces matter *)

(** [<a>&#12345; x</a>] cut before the semicolon: the reader throws, in one piece it does not. *)
Definition cut_header (t : list Z) : list Z := [60; 97; 62; 38; 35; 49; 50; 51; 52; 53] ++ t.
Definition cut_tail : list Z := [59; 32; 120; 60; 47; 97; 62].

Definition throws_stream (x : option (XmlError + @Reader unit)) : bool := match x with Some (inl _) => true | _ => false end.

Example reference_cut :
  throws_stream (parse_stream no_start no_end (fun s => Some s) (fun s _ => s) (SimpleXMLReader_new tt) 0 0 [cut_header cut_tail]) = false /\
  throws_stream (parse_stream no_start no_end (fun s => Some s) (fun s _ => s) (SimpleXMLReader_new tt) 0 0 [cut_header []; cut_tail]) = true.
Proof. vm_compute. split; reflexivity. Qed.

Lemma stream_pieces_witness :
  alike (parse_stream no_start no_end (fun s => Some s) (fun s _ => s) (SimpleXMLReader_new tt) 0 0 [utf8Header ++ [60; 97]; [62; 38; 97]; [109; 112; 59; 60; 47; 97; 62]])
    (parse_stream no_start no_end (fun s => Some s) (fun s _ => s) (SimpleXMLReader_new tt) 0 0 [utf8Header ++ [60; 97; 62; 38; 97; 109; 112; 59; 60; 47; 97; 62]]).
Proof.
  refine (stream_pieces no_start no_end (fun s => Some s) (fun s _ => s) _ tt 0 [60; 97] [[62; 38; 97]; [109; 112; 59; 60; 47; 97; 62]] _ _ _);
    [reflexivity|repeat constructor; discriminate|reflexivity|intros H; lia].
Defined.
