(* ===== verification/FileQueue.v ===== *)
(** * The queue by target: [QueueManager::FileQueue] of [client/QueueManager.h/.cpp]

    The class holds pointers to queue items by the lower case of their target and by their
    root; a pointer is a key into the store of items, which the manager shares.  The file name
    patterns use [Tokenizer], the search for a free block [NextSegment].  Settings are
    arguments, also random numbers and the clock.  [checkAntifragFile] renames a file on disk and
    is left out. *)

From S2P Require Import Prelude HashValue Segment SegmentSet MerkleTree SpeedCalc Download QueueItem NextSegment Text Tokenizer.

Abbreviation ItemPtr := positive.
Abbreviation Items := (gmap ItemPtr QueueItem).

(** [enum Priority] as integers. *)
Definition prio_int (p : Priority) : Z :=
  match p with
  | DEFAULT => -1 | PAUSED => 0 | LOWEST => 1 | LOWER => 2 | LOW => 3 | NORMAL => 4 | HIGH => 5 | HIGHER => 6 | HIGHEST => 7
  end.
Definition LAST : Z := 8.

(** The priority with a number of the enumeration. *)
Definition int_prio (z : Z) : option Priority :=
  find (fun p => prio_int p =? z) [DEFAULT; PAUSED; LOWEST; LOWER; LOW; NORMAL; HIGH; HIGHER; HIGHEST].

Definition XFLAG_REMOVED := 0x0002.
Definition XFLAG_DOWNLOAD_DIR := 0x0010.
Definition XFLAG_MATCH_QUEUE := 0x0020.
Definition XFLAG_AUTODROP := 0x0100.
Definition XFLAG_ALLOW_SEGMENTS := 0x0400.

(** The settings that [updatePriority], [getMaxSegments] and the search read. *)
Record FileQueueConf := mkFQConf {
  AUTO_PRIORITY_USE_PATTERNS : bool;
  AUTO_PRIORITY_PATTERNS : list Z;
  AUTO_PRIORITY_PATTERNS_PRIO : Z;
  AUTO_PRIORITY_USE_SIZE : bool;
  AUTO_PRIORITY_SMALL_SIZE : Z;
  AUTO_PRIORITY_SMALL_SIZE_PRIO : Z;
  SEGMENTS_MANUAL : bool;
  NUMBER_OF_SEGMENTS : Z;
  AUTO_SEARCH_LIMIT : Z
}.

Section FileQueue.
(** [Text::toLower] of the platform; [std::regex]. *)
Context (W : WChar) (lower : list Z -> list Z).
Context {Regex : Type} (regex_assign : list Z -> bool -> option Regex) (regex_match : list Z -> Regex -> bool).

(** [Text::toLower(target)], which returns on every string ([toLower_ok]). *)
Definition target_key (target : list Z) : list Z := default [] (Text.toLower W lower target).
Arguments target_key : simpl never.

Record FileQueue := mkFQ {
  fq_queue : gmap (list Z) ItemPtr;
  fq_generationId : Z;
  fq_queueTTH : gmap (list Z) (list ItemPtr);
  fq_reAutoPriority : option Regex;
  fq_autoPriorityPattern : list Z
}.

Definition FileQueue_new : FileQueue := mkFQ ∅ 0 ∅ None [].

Definition set_queue (fq : FileQueue) (queue : gmap (list Z) ItemPtr) (gen : Z) (tth : gmap (list Z) (list ItemPtr)) : FileQueue :=
  mkFQ queue gen tth (fq_reAutoPriority fq) (fq_autoPriorityPattern fq).

(** ** Priorities *)

(** [if (p < LOWEST) p = LOWEST; else if (p > HIGHEST) p = HIGHEST;]. *)
Definition clamp_prio (p : Z) : Z :=
  if p <? prio_int LOWEST then prio_int LOWEST else if prio_int HIGHEST <? p then prio_int HIGHEST else p.

(** The expression of the pattern, compiled again when the setting has changed. *)
Definition update_pattern (fq : FileQueue) (conf : FileQueueConf) : FileQueue :=
  let set re pattern := mkFQ (fq_queue fq) (fq_generationId fq) (fq_queueTTH fq) re pattern in
  if AUTO_PRIORITY_USE_PATTERNS conf then
    if negb (bool_decide (AUTO_PRIORITY_PATTERNS conf = fq_autoPriorityPattern fq)) then
      match regexFromPatternList regex_assign (AUTO_PRIORITY_PATTERNS conf) true with
      | Some re => set (Some re) (AUTO_PRIORITY_PATTERNS conf)
      | None => set None []
      end
    else fq
  else set (fq_reAutoPriority fq) [].

(** [std::regex_match]; while there is no expression the pattern is empty and it is not asked. *)
Definition matches (fileName : list Z) (re : option Regex) : bool :=
  match re with Some re => regex_match fileName re | None => false end.

(** [updatePriority]: the new [p], [autoPriority] and the queue. *)
Definition updatePriority (fq : FileQueue) (conf : FileQueueConf) (p : Z) (fileName : list Z) (size flags : Z) : Z * bool * FileQueue :=
  let p := if (p <? prio_int DEFAULT) || (LAST <=? p) then prio_int DEFAULT else p in
  let fq := update_pattern fq conf in
  let '(p, autoPriority) :=
    if (p =? prio_int DEFAULT) && negb (bool_decide (fq_autoPriorityPattern fq = [])) && matches fileName (fq_reAutoPriority fq)
    then (clamp_prio (AUTO_PRIORITY_PATTERNS_PRIO conf), true) else (p, false) in
  let '(p, autoPriority) :=
    if (p =? prio_int DEFAULT) && AUTO_PRIORITY_USE_SIZE conf then
      if (0 <? size) && (size <=? swrap 32 (AUTO_PRIORITY_SMALL_SIZE conf * 1024))
      then (clamp_prio (AUTO_PRIORITY_SMALL_SIZE_PRIO conf), true) else (p, autoPriority)
    else (p, autoPriority) in
  let p :=
    if isAnySet flags (Z.lor FLAG_USER_LIST (Z.lor FLAG_DCLST_LIST FLAG_USER_GET_IP)) then prio_int HIGHEST
    else if p =? prio_int DEFAULT then prio_int NORMAL else p in
  (p, autoPriority, fq).

(** [unsigned] of an [int]; the result is a [uint8_t]. *)
Definition getMaxSegments (conf : FileQueueConf) (filesize : Z) : Z :=
  let value :=
    if SEGMENTS_MANUAL conf then u32 (Z.min (NUMBER_OF_SEGMENTS conf) 200)
    else Z.min (u64 (filesize `div` (50 * MIN_BLOCK_SIZE) + 2)) 200 in
  let value := if value =? 0 then 1 else value in
  u8 value.

(** ** Adding and removing *)

Definition fq_isQueued (fq : FileQueue) (tth : list Z) : bool := bool_decide (is_Some (fq_queueTTH fq !! tth)).

Definition fq_addL (it : Items) (fq : FileQueue) (p : ItemPtr) : option (bool * FileQueue) :=
  q ← it !! p;
  let key := target_key (qi_target q) in
  match fq_queue fq !! key with
  | Some _ => Some (false, fq)
  | None =>
      let tth := qi_tthRoot q in
      let queueTTH :=
        if negb (HashValue_isZero tth)
        then <[tth := default [] (fq_queueTTH fq !! tth) ++ [p]]> (fq_queueTTH fq)
        else fq_queueTTH fq in
      Some (true, set_queue fq (<[key := p]> (fq_queue fq)) (u64 (fq_generationId fq + 1)) queueTTH)
  end.

(** [std::find] and [erase] of the first equal element. *)
Fixpoint erase_ptr (p : ItemPtr) (l : list ItemPtr) : list ItemPtr :=
  match l with [] => [] | x :: r => if bool_decide (x = p) then r else x :: erase_ptr p r end.

(** The part of [remove] on the lists by root. *)
Definition remove_root (m : gmap (list Z) (list ItemPtr)) (p : ItemPtr) (tth : list Z) : gmap (list Z) (list ItemPtr) :=
  if negb (HashValue_isZero tth) then
    match m !! tth with
    | Some l => if (1 <? length l)%nat then <[tth := erase_ptr p l]> m else delete tth m
    | None => m
    end
  else m.

Definition fq_remove (it : Items) (fq : FileQueue) (p : ItemPtr) : option (Items * FileQueue) :=
  q ← it !! p;
  let it := if bool_decide (qi_downloads q = []) then it else <[p := set_downloads q []]> it in
  let key := target_key (qi_target q) in
  let '(queue, gen) :=
    match fq_queue fq !! key with
    | Some _ =>
        let queue := delete key (fq_queue fq) in
        (queue, if bool_decide (queue = ∅) then 0 else u64 (fq_generationId fq + 1))
    | None => (fq_queue fq, fq_generationId fq)
    end in
  Some (it, set_queue fq queue gen (remove_root (fq_queueTTH fq) p (qi_tthRoot q))).

Definition fq_clearAll (fq : FileQueue) : FileQueue := set_queue fq ∅ 0 ∅.

(** [FileQueue::add]: [ptr] is the new object, [fileName] the name in [target], [nameFlags] what
    [getFlagsForFileName] says and [autodrop] the option of the download manager. *)
Definition FileQueue_add (it : Items) (fq : FileQueue) (conf : FileQueueConf) (ptr : ItemPtr) (target fileName : list Z)
    (targetSize flags extraFlags p : Z) (tempTarget : list Z) (root : option (list Z)) (maxSegments added nameFlags : Z) (autodrop : bool)
    : option (Items * FileQueue * option ItemPtr) :=
  let '(p, autoPriority, fq) := updatePriority fq conf p fileName targetSize flags in
  let maxSegments := if maxSegments =? 0 then getMaxSegments conf (u64 targetSize) else maxSegments in
  let flags := Z.lor flags nameFlags in
  let extraFlags := if autoPriority then Z.lor extraFlags XFLAG_AUTO_PRIORITY else extraFlags in
  let extraFlags := if autodrop then Z.lor extraFlags XFLAG_AUTODROP else extraFlags in
  prio ← int_prio p;
  qi ← QueueItem_new target targetSize prio flags extraFlags added (default HashValue_zero root) maxSegments tempTarget;
  let it := <[ptr := qi]> it in
  '(ok, fq) ← fq_addL it fq ptr;
  Some (it, fq, if ok : bool then Some ptr else None).

(** [moveTarget]: [ptr] is the new object. *)
Definition fq_moveTarget (it : Items) (fq : FileQueue) (p ptr : ItemPtr) (target : list Z) : option (Items * FileQueue * bool) :=
  '(it, fq) ← fq_remove it fq p;
  q ← it !! p;
  let '(qt, qs) := QueueItem_move target q in
  let it := <[ptr := qt]> (<[p := qs]> it) in
  '(ok, fq) ← fq_addL it fq ptr;
  Some (it, fq, ok).

(** ** Looking up *)

Definition fq_findTarget (fq : FileQueue) (target : list Z) : option ItemPtr := fq_queue fq !! target_key target.

Definition fq_getTTH (it : Items) (fq : FileQueue) (target : list Z) : option (list Z) :=
  p ← fq_findTarget fq target; qi_tthRoot <$> it !! p.

(** The loop of [findQueueItems], which stops after [maxCount] items. *)
Fixpoint find_items (l ql : list ItemPtr) (count maxCount : Z) : list ItemPtr * Z :=
  match l with
  | [] => (ql, count)
  | qi :: l => if maxCount =? count + 1 then (ql ++ [qi], count + 1) else find_items l (ql ++ [qi]) (count + 1) maxCount
  end.

Definition fq_findQueueItems (fq : FileQueue) (ql : list ItemPtr) (tth : list Z) (maxCount : Z) : list ItemPtr * Z :=
  match fq_queueTTH fq !! tth with Some l => find_items l ql 0 maxCount | None => (ql, 0) end.

Definition fq_findQueueItem (fq : FileQueue) (tth : list Z) : option ItemPtr := fq_queueTTH fq !! tth ≫= head.

(** ** The next file to search for *)

(** [getNextSegmentL(gsp, nullptr, nullptr).getSize() != 0]; without a partial source no random
    number is used. *)
Definition has_segment (q : QueueItem) (gsp : GetSegmentParams) : option bool :=
  '(seg, _) ← getNextSegmentL q gsp None 0; Some (negb (getSize seg =? 0)).

Section Search.
Context (isOnline : UserPtr -> bool) (conf : FileQueueConf) (recent : list (list Z)) (gsp : GetSegmentParams).

(** The tests between the two on segments. *)
Definition searchable (q : QueueItem) : bool :=
  negb (isFinished q) &&
  negb (isAnySet (qi_flags q) (Z.lor FLAG_USER_LIST FLAG_USER_GET_IP)) &&
  negb (bool_decide (qi_priority q = PAUSED)) &&
  negb (negb (AUTO_SEARCH_LIMIT conf =? 0) && hasOnlineSourcesL isOnline q (AUTO_SEARCH_LIMIT conf)) &&
  negb (bool_decide (qi_target q ∈ recent)).

Fixpoint candidate_loop (it : Items) (l : list ItemPtr) (cand : option ItemPtr) : option (option ItemPtr) :=
  match l with
  | [] => Some cand
  | i :: l =>
      q ← it !! i;
      free ← has_segment q gsp;
      if bool_decide (is_Some cand) && negb free then candidate_loop it l cand
      else if negb (searchable q) then candidate_loop it l cand
      else if free then Some (Some i) else candidate_loop it l (Some i)
  end.

Definition findCandidateL (it : Items) (l : list ItemPtr) : option (option ItemPtr) :=
  cand ← candidate_loop it l None;
  match cand with
  | Some i => q ← it !! i; free ← has_segment q gsp; Some (if free : bool then cand else None)
  | None => Some None
  end.

(** [findAutoSearch]; [rand] is what [Util::rand] returns for the size of the queue. *)
Definition fq_findAutoSearch (it : Items) (fq : FileQueue) (rand : Z) : option (option ItemPtr) :=
  let queue := (map_to_list (fq_queue fq)).*2 in
  if bool_decide (queue = []) then Some None
  else
    let start := Z.to_nat rand in
    let start := if (length queue <=? start)%nat then O else start in
    cand ← findCandidateL it (drop start queue);
    match cand with
    | None => findCandidateL it (take start queue)
    | Some i =>
        q ← it !! i;
        free ← has_segment q gsp;
        if negb free then
          cand2 ← findCandidateL it (take start queue);
          match cand2 with
          | Some i2 => q2 ← it !! i2; free2 ← has_segment q2 gsp; Some (if free2 : bool then cand2 else cand)
          | None => Some cand
          end
        else Some cand
    end.
End Search.

Definition PFS_SOURCES : nat := 10.

(** [findPFSSources]; the size is compared as a [size_t]. *)
Definition fq_findPFSSources (it : Items) (fq : FileQueue) (now : Z) (sl : list SourceListItem) : list SourceListItem :=
  foldl (fun sl i => match it !! i with
                     | Some q => if (u64 (qi_size q) <? PFS_MIN_FILE_SIZE) || (qi_downloadedBytes q =? 0) then sl
                                 else getPFSSourcesL q sl now PFS_SOURCES
                     | None => sl
                     end) sl (map_to_list (fq_queue fq)).*2.

(** ** The two indexes agree *)

(** The item is in the queue. *)
Definition queued (fq : FileQueue) (p : ItemPtr) : Prop := exists k, fq_queue fq !! k = Some p.

(** The item with a root, if the root is known. *)
Definition has_root (it : Items) (p : ItemPtr) (tth : list Z) : Prop :=
  exists q, it !! p = Some q /\ qi_tthRoot q = tth /\ HashValue_isZero tth = false.

(** Every entry is under the key of its item, the lists by root have the queued items of that root,
    each once, and no list is empty; an empty queue has generation 0. *)
Record fq_ok (it : Items) (fq : FileQueue) : Prop := {
  fq_keys : forall k p, fq_queue fq !! k = Some p -> exists q, it !! p = Some q /\ target_key (qi_target q) = k;
  fq_lists : forall tth l, fq_queueTTH fq !! tth = Some l -> l <> [] /\ NoDup l /\ HashValue_isZero tth = false;
  fq_roots : forall tth p, p ∈ default [] (fq_queueTTH fq !! tth) <-> queued fq p /\ has_root it p tth;
  fq_gen : 0 <= fq_generationId fq < 2 ^ 64 /\ (fq_queue fq = ∅ -> fq_generationId fq = 0)
}.

Lemma FileQueue_new_ok it : fq_ok it FileQueue_new.
Proof.
  split; cbn.
  - intros k p. rewrite lookup_empty. discriminate.
  - intros tth l. rewrite lookup_empty. discriminate.
  - intros tth p. rewrite lookup_empty. cbn. split; [intros H%elem_of_nil; destruct H|]. intros [(k & Hk) _]. cbn in Hk. rewrite lookup_empty in Hk. discriminate.
  - split; [lia|reflexivity].
Qed.

(** Items keep their target and root, so that a change of them is none of the indexes. *)
Definition same_file (q q' : QueueItem) : Prop := qi_target q' = qi_target q /\ qi_tthRoot q' = qi_tthRoot q.

Lemma fq_ok_items it it' fq : fq_ok it fq ->
  (forall p q, queued fq p -> it !! p = Some q -> exists q', it' !! p = Some q' /\ same_file q q') -> fq_ok it' fq.
Proof.
  intros [H1 H2 H3 H4] Hs. split; [|exact H2| |exact H4].
  - intros k p Hk. destruct (H1 k p Hk) as (q & Hq & <-). destruct (Hs p q) as (q' & Hq' & E & _); [exists (target_key (qi_target q)); exact Hk|exact Hq|].
    exists q'. split; [exact Hq'|]. rewrite E. reflexivity.
  - intros tth p. rewrite H3. split; intros [Hp (q & Hq & Hr & Hz)]; (split; [exact Hp|]).
    + destruct (Hs p q Hp Hq) as (q' & Hq' & _ & E). exists q'. split; [exact Hq'|]. rewrite E. split; assumption.
    + pose proof Hp as (k & Hk). destruct (H1 k p Hk) as (q0 & Hq0 & _). destruct (Hs p q0 Hp Hq0) as (q' & Hq' & _ & E).
      rewrite Hq in Hq'. injection Hq' as <-. exists q0. split; [exact Hq0|]. rewrite <- E. split; assumption.
Qed.

Lemma queued_key it fq p q : fq_ok it fq -> queued fq p -> it !! p = Some q -> fq_queue fq !! target_key (qi_target q) = Some p.
Proof. intros H (k & Hk) Hq. destruct (fq_keys _ _ H k p Hk) as (q' & Hq' & <-). rewrite Hq in Hq'. injection Hq' as <-. exact Hk. Qed.

Lemma fq_addL_ok it fq p b fq' : fq_ok it fq -> ~ queued fq p -> fq_addL it fq p = Some (b, fq') ->
  fq_ok it fq' /\ (b = true -> forall i, queued fq' i <-> queued fq i \/ i = p) /\ (b = false -> fq' = fq).
Proof.
  intros Hok Hp. unfold fq_addL. destruct (it !! p) as [q|] eqn:Hq; cbn; [|discriminate].
  set (key := target_key (qi_target q)). destruct (fq_queue fq !! key) as [i|] eqn:Hk.
  - intros [= <- <-]. split; [exact Hok|]. split; [discriminate|reflexivity].
  - intros [= <- <-]. set (tths := if negb _ then _ else _).
    assert (Hqd : forall i, queued (set_queue fq (<[key:=p]> (fq_queue fq)) (u64 (fq_generationId fq + 1)) tths) i <-> queued fq i \/ i = p).
    { intros i. unfold queued. cbn. split.
      - intros (k & H). destruct (decide (k = key)) as [->|Hne]; [rewrite lookup_insert_eq in H; right; congruence|].
        rewrite lookup_insert_ne in H by congruence. left. exists k. exact H.
      - intros [(k & H)| ->]; [|exists key; apply lookup_insert_eq]. exists k. rewrite lookup_insert_ne; [exact H|]. congruence. }
    assert (Ht : forall tth, default [] (tths !! tth) = default [] (fq_queueTTH fq !! tth) ++ (if negb (HashValue_isZero tth) && bool_decide (tth = qi_tthRoot q) then [p] else [])).
    { intros tth. unfold tths. destruct (HashValue_isZero (qi_tthRoot q)) eqn:Ez; cbn [negb].
      - case_bool_decide as E; [subst tth; rewrite Ez; cbn|rewrite andb_false_r]; rewrite app_nil_r; reflexivity.
      - case_bool_decide as E; [subst tth; rewrite Ez, lookup_insert_eq; reflexivity|]. rewrite lookup_insert_ne by congruence.
        rewrite andb_false_r, app_nil_r. reflexivity. }
    split; [|split; [intros _; exact Hqd|discriminate]]. split; cbn.
    + intros k i H. destruct (decide (k = key)) as [->|Hne].
      * rewrite lookup_insert_eq in H. injection H as <-. exists q. split; [exact Hq|reflexivity].
      * rewrite lookup_insert_ne in H by congruence. apply (fq_keys _ _ Hok k i H).
    + intros tth l Hl. unfold tths in Hl. destruct (HashValue_isZero (qi_tthRoot q)) eqn:Ez; cbn [negb] in Hl; [apply (fq_lists _ _ Hok tth l Hl)|].
      destruct (decide (tth = qi_tthRoot q)) as [->|Hne]; [|rewrite lookup_insert_ne in Hl by congruence; apply (fq_lists _ _ Hok tth l Hl)].
      rewrite lookup_insert_eq in Hl. injection Hl as <-. split; [destruct (default [] (fq_queueTTH fq !! qi_tthRoot q)); discriminate|]. split; [|exact Ez].
      apply NoDup_app. split; [|split; [|apply NoDup_singleton]].
      * destruct (fq_queueTTH fq !! qi_tthRoot q) as [l|] eqn:El; [apply (fq_lists _ _ Hok _ l El)|constructor].
      * intros i Hi ->%list_elem_of_singleton. apply Hp. apply (fq_roots _ _ Hok (qi_tthRoot q) p). exact Hi.
    + intros tth i. rewrite Ht, elem_of_app, (fq_roots _ _ Hok), Hqd. split.
      * intros [[H1 H2]|H]; [split; [left; exact H1|exact H2]|]. destruct (negb (HashValue_isZero tth)) eqn:Ez; cbn in H; [|apply elem_of_nil in H; destruct H].
        case_bool_decide as E; [|apply elem_of_nil in H; destruct H]. apply list_elem_of_singleton in H as ->.
        split; [right; reflexivity|]. exists q. split; [exact Hq|]. split; [congruence|]. apply negb_true_iff. exact Ez.
      * intros [[H1| ->] H2]; [left; split; assumption|]. destruct H2 as (q' & Hq' & Hr & Hz). rewrite Hq in Hq'. injection Hq' as <-.
        right. rewrite Hz. cbn. rewrite bool_decide_true by congruence. left.
    + split; [apply Z.mod_pos_bound; lia|]. intros E. exfalso. apply (insert_non_empty _ _ _ E).
Qed.

Lemma erase_ptr_spec p l : NoDup l -> NoDup (erase_ptr p l) /\ (forall x, x ∈ erase_ptr p l <-> x ∈ l /\ x <> p) /\
  (length l <= S (length (erase_ptr p l)))%nat.
Proof.
  induction 1 as [|y l Hy Hl (IH1 & IH2 & IH3)]; cbn [erase_ptr length].
  - split; [constructor|]. split; [|lia]. intros x. rewrite elem_of_nil. tauto.
  - case_bool_decide as E; [subst y|].
    + split; [exact Hl|]. split; [|lia]. intros x. rewrite elem_of_cons. split; [intros Hx; split; [right; exact Hx|congruence]|]. intros [[->|Hx] Hn]; congruence.
    + split; [constructor; [rewrite IH2; tauto|exact IH1]|]. split; [|cbn; lia]. intros x. rewrite !elem_of_cons, IH2. split; [|tauto].
      intros [->|[H1 H2]]; split; auto.
Qed.

Lemma remove_root_ok m p root tth : let m' := remove_root m p root in
  (forall l, m !! tth = Some l -> l <> [] /\ NoDup l) ->
  (HashValue_isZero root = false -> p ∈ default [] (m !! root)) -> (p ∈ default [] (m !! tth) -> tth = root /\ HashValue_isZero root = false) ->
  (forall l, m' !! tth = Some l -> l <> [] /\ NoDup l /\ is_Some (m !! tth)) /\
  (forall x, x ∈ default [] (m' !! tth) <-> x ∈ default [] (m !! tth) /\ x <> p).
Proof using.
  clear W lower regex_assign regex_match.
  intros m' Hl Hin Hp. unfold m', remove_root.
  assert (Hsame : p ∉ default [] (m !! tth) -> (forall l, m !! tth = Some l -> l <> [] /\ NoDup l /\ is_Some (m !! tth)) /\
    (forall x, x ∈ default [] (m !! tth) <-> x ∈ default [] (m !! tth) /\ x <> p)).
  { intros Hn. split; [intros l E; destruct (Hl l E); rewrite E; repeat split; eauto|]. intros x. split; [|tauto]. intros Hx. split; [exact Hx|]. intros ->. tauto. }
  destruct (HashValue_isZero root) eqn:Ez; cbn [negb]; [apply Hsame; intros H; destruct (Hp H); discriminate|].
  specialize (Hin eq_refl). destruct (m !! root) as [l0|] eqn:E0; [|apply elem_of_nil in Hin; destruct Hin].
  destruct (decide (tth = root)) as [->|Hne].
  2: { destruct (1 <? length l0)%nat; [rewrite lookup_insert_ne by congruence|rewrite lookup_delete_ne by congruence]; apply Hsame; intros H; destruct (Hp H); congruence. }
  rewrite E0 in *. destruct (Hl l0 eq_refl) as [Hne Hnd]. destruct (erase_ptr_spec p l0 Hnd) as (H1 & H2 & H3).
  destruct (Nat.ltb_spec 1 (length l0)) as [Hlen|Hlen].
  - rewrite lookup_insert_eq. split; [|exact H2]. intros l [= <-]. split; [intros E; rewrite E in H3; cbn in H3; lia|]. split; [exact H1|eauto].
  - rewrite lookup_delete_eq. split; [discriminate|]. intros x. cbn in *. rewrite elem_of_nil. split; [tauto|]. intros [Hx Hxp].
    destruct l0 as [|y [|]]; cbn in Hlen; [apply elem_of_nil in Hx; tauto| |lia]. apply list_elem_of_singleton in Hx, Hin. congruence.
Qed.

Lemma fq_remove_ok it fq p : fq_ok it fq -> queued fq p ->
  exists it' fq', fq_remove it fq p = Some (it', fq') /\ fq_ok it' fq' /\ (forall i, queued fq' i <-> queued fq i /\ i <> p) /\
    (forall i, i <> p -> it' !! i = it !! i) /\
    (forall q, it !! p = Some q -> it' !! p = Some (set_downloads q [])).
Proof using.
  clear regex_assign regex_match.
  intros Hok Hp. pose proof Hp as (k0 & Hk0). destruct (fq_keys _ _ Hok k0 p Hk0) as (q & Hq & <-). unfold fq_remove. rewrite Hq. cbn. rewrite Hk0.
  set (key := target_key (qi_target q)) in *. set (gen := if bool_decide _ then 0 else _). set (it' := if bool_decide _ then it else _).
  assert (Hit : it' !! p = Some (set_downloads q []) /\ forall i, i <> p -> it' !! i = it !! i).
  { unfold it'. case_bool_decide as E; [|rewrite lookup_insert_eq; split; [reflexivity|]; intros i Hi; rewrite lookup_insert_ne by congruence; reflexivity].
    rewrite Hq. split; [|reflexivity]. destruct q. cbn in E. subst. reflexivity. }
  eexists it', _. split; [reflexivity|]. set (fq' := set_queue _ _ _ _).
  assert (Hqd : forall i, queued fq' i <-> queued fq i /\ i <> p).
  { intros i. unfold queued, fq'. cbn. split.
    - intros (k & H). apply lookup_delete_Some in H as [Hne H]. split; [exists k; exact H|]. intros ->.
      destruct (fq_keys _ _ Hok k p H) as (q' & Hq' & E). rewrite Hq in Hq'. injection Hq' as <-. apply Hne. exact E.
    - intros [(k & H) Hi]. exists k. rewrite lookup_delete_ne; [exact H|]. intros <-. rewrite Hk0 in H. congruence. }
  assert (Hroots : forall tth, (forall l, fq_queueTTH fq' !! tth = Some l -> l <> [] /\ NoDup l /\ is_Some (fq_queueTTH fq !! tth)) /\
    (forall x, x ∈ default [] (fq_queueTTH fq' !! tth) <-> x ∈ default [] (fq_queueTTH fq !! tth) /\ x <> p)).
  { intros tth. apply (remove_root_ok (fq_queueTTH fq) p (qi_tthRoot q)).
    - intros l E. destruct (fq_lists _ _ Hok tth l E) as (H1 & H2 & _). split; assumption.
    - intros Hz. apply (fq_roots _ _ Hok). split; [exact Hp|]. exists q. repeat split; assumption.
    - intros H. apply (fq_roots _ _ Hok) in H as [_ (q' & Hq' & H1 & H2)]. rewrite Hq in Hq'. injection Hq' as <-. split; congruence. }
  split; [|split; [exact Hqd|split; [apply Hit|]]]; [|intros q' [= <-]; apply Hit].
  split.
  - intros k i H. cbn in H. apply lookup_delete_Some in H as [Hne H]. destruct (fq_keys _ _ Hok k i H) as (q' & Hq' & <-).
    exists q'. split; [|reflexivity]. rewrite (proj2 Hit); [exact Hq'|]. intros E. apply Hne. rewrite E, Hq in Hq'. injection Hq' as <-. reflexivity.
  - intros tth l Hl. destruct (proj1 (Hroots tth) l Hl) as (H1 & H2 & (l0 & H3)). repeat split; [exact H1|exact H2|]. apply (fq_lists _ _ Hok tth l0 H3).
  - intros tth i. rewrite (proj2 (Hroots tth)), Hqd, (fq_roots _ _ Hok).
    assert (Hroot : i <> p -> has_root it' i tth <-> has_root it i tth) by (intros Hi; unfold has_root; rewrite (proj2 Hit i Hi); reflexivity). tauto.
  - cbn. unfold gen. pose proof (fq_gen _ _ Hok) as [Hg _]. case_bool_decide as E; [split; [lia|reflexivity]|].
    split; [apply Z.mod_pos_bound; lia|]. intros E'. contradiction.
Qed.

Lemma fq_ok_fields it fq fq' : fq_queue fq' = fq_queue fq -> fq_generationId fq' = fq_generationId fq -> fq_queueTTH fq' = fq_queueTTH fq ->
  fq_ok it fq -> fq_ok it fq'.
Proof. intros E1 E2 E3 [H1 H2 H3 H4]. split; unfold queued in *; rewrite ?E1, ?E2, ?E3; assumption. Qed.

Lemma update_pattern_fields fq conf : let fq' := update_pattern fq conf in
  fq_queue fq' = fq_queue fq /\ fq_generationId fq' = fq_generationId fq /\ fq_queueTTH fq' = fq_queueTTH fq.
Proof.
  unfold update_pattern. destruct (AUTO_PRIORITY_USE_PATTERNS conf); [|repeat split]. destruct (negb _); [|repeat split].
  destruct (regexFromPatternList _ _ _); repeat split.
Qed.

Lemma updatePriority_queue fq conf p name size flags p' a fq' : updatePriority fq conf p name size flags = (p', a, fq') -> fq' = update_pattern fq conf.
Proof.
  unfold updatePriority. destruct (if _ && negb _ && _ then _ else _) as [p1 a1]. destruct (if (p1 =? _) && _ then _ else _) as [p2 a2]. congruence.
Qed.

Lemma queued_item it fq p : fq_ok it fq -> queued fq p -> is_Some (it !! p).
Proof. intros H (k & Hk). destruct (fq_keys _ _ H k p Hk) as (q & Hq & _). eauto. Qed.

Lemma FileQueue_add_ok it fq conf ptr target name size flags xflags p temp root maxs added nf ad it' fq' r :
  fq_ok it fq -> it !! ptr = None ->
  FileQueue_add it fq conf ptr target name size flags xflags p temp root maxs added nf ad = Some (it', fq', r) ->
  fq_ok it' fq' /\ (forall i, queued fq' i <-> queued fq i \/ r = Some i).
Proof.
  intros Hok Hnew. unfold FileQueue_add. destruct (updatePriority _ _ _ _ _ _) as [[p1 a] fq1] eqn:E. apply updatePriority_queue in E as ->.
  destruct (int_prio p1); cbn; [|discriminate]. destruct (QueueItem_new _ _ _ _ _ _ _ _ _) as [qi|]; cbn; [|discriminate].
  destruct (fq_addL _ _ ptr) as [[b fq2]|] eqn:Ea; cbn; [|discriminate]. intros [= <- <- <-].
  destruct (update_pattern_fields fq conf) as (F1 & F2 & F3).
  assert (Hq : forall i, queued (update_pattern fq conf) i <-> queued fq i) by (intros i; unfold queued; rewrite F1; reflexivity).
  assert (Hn : ~ queued fq ptr) by (intros Hp; destruct (queued_item it fq ptr Hok Hp); congruence).
  assert (Hok1 : fq_ok (<[ptr:=qi]> it) (update_pattern fq conf)).
  { apply (fq_ok_fields _ fq _ F1 F2 F3). apply (fq_ok_items it _ fq Hok). intros i q Hi Hiq. exists q. split; [|split; reflexivity].
    rewrite lookup_insert_ne; [exact Hiq|]. intros <-. contradiction. }
  apply fq_addL_ok in Ea as (H1 & H2 & H3); [|exact Hok1|rewrite Hq; exact Hn]. split; [exact H1|]. intros i. destruct b.
  - rewrite (H2 eq_refl), Hq. split; [intros [H| ->]; auto|]. intros [H|[= <-]]; auto.
  - rewrite (H3 eq_refl), Hq. split; [auto|]. intros [H|H]; [exact H|discriminate].
Qed.

Lemma fq_moveTarget_ok it fq p ptr target it' fq' b : fq_ok it fq -> queued fq p -> it !! ptr = None ->
  fq_moveTarget it fq p ptr target = Some (it', fq', b) ->
  fq_ok it' fq' /\ (forall i, queued fq' i <-> queued fq i /\ i <> p \/ b = true /\ i = ptr).
Proof using.
  clear regex_assign regex_match.
  intros Hok Hp Hnew. unfold fq_moveTarget. destruct (fq_remove_ok it fq p Hok Hp) as (it1 & fq1 & -> & Hok1 & Hq1 & Hi1 & Hd1). cbn.
  destruct (queued_item it fq p Hok Hp) as (q & Hq). rewrite (Hd1 q Hq). cbn. set (it2 := <[ptr := _]> _).
  assert (Hne : ptr <> p) by congruence.
  assert (Hok2 : fq_ok it2 fq1).
  { apply (fq_ok_items it1 _ fq1 Hok1). intros i qi Hi Hqi. apply Hq1 in Hi as [Hi Hip]. exists qi. split; [|split; reflexivity].
    unfold it2. destruct (decide (i = ptr)) as [->|]; [|rewrite !lookup_insert_ne by congruence; exact Hqi].
    rewrite Hi1, Hnew in Hqi by exact Hip. discriminate. }
  destruct (fq_addL it2 fq1 ptr) as [[ok fq2]|] eqn:Ea; cbn; [|discriminate]. intros [= <- <- <-].
  apply fq_addL_ok in Ea as (H1 & H2 & H3); [|exact Hok2|].
  - split; [exact H1|]. intros i. destruct ok; [rewrite (H2 eq_refl), Hq1; tauto|]. rewrite (H3 eq_refl), Hq1. split; [tauto|]. intros [H|[H _]]; [exact H|discriminate].
  - rewrite Hq1. intros [Hp' _]. destruct (queued_item it fq ptr Hok Hp'). congruence.
Qed.

(** The operations as their callers use them: new items are new objects, and an item that is
    removed or moved is in the queue; an item changes but for its target and root. *)
Inductive fq_step : Items * FileQueue -> Items * FileQueue -> Prop :=
  | fs_add it fq conf ptr target name size flags xflags p temp root maxs added nf ad it' fq' r : it !! ptr = None ->
      FileQueue_add it fq conf ptr target name size flags xflags p temp root maxs added nf ad = Some (it', fq', r) -> fq_step (it, fq) (it', fq')
  | fs_addL it fq ptr q b fq' : it !! ptr = None -> fq_addL (<[ptr := q]> it) fq ptr = Some (b, fq') -> fq_step (it, fq) (<[ptr := q]> it, fq')
  | fs_remove it fq p it' fq' : queued fq p -> fq_remove it fq p = Some (it', fq') -> fq_step (it, fq) (it', fq')
  | fs_move it fq p ptr target it' fq' b : queued fq p -> it !! ptr = None ->
      fq_moveTarget it fq p ptr target = Some (it', fq', b) -> fq_step (it, fq) (it', fq')
  | fs_clear it fq : fq_step (it, fq) (it, fq_clearAll fq)
  | fs_item it fq p q q' : it !! p = Some q -> same_file q q' -> fq_step (it, fq) (<[p := q']> it, fq).

Lemma fq_ok_change it fq p q q' : fq_ok it fq -> it !! p = Some q -> same_file q q' -> fq_ok (<[p := q']> it) fq.
Proof.
  intros Hok Hq Hs. apply (fq_ok_items it _ fq Hok). intros i qi Hi Hqi. destruct (decide (i = p)) as [->|Hne].
  - exists q'. rewrite lookup_insert_eq. split; [reflexivity|]. rewrite Hq in Hqi. injection Hqi as <-. exact Hs.
  - exists qi. rewrite lookup_insert_ne by congruence. split; [exact Hqi|split; reflexivity].
Qed.

Lemma fq_step_ok s s' : fq_step s s' -> fq_ok s.1 s.2 -> fq_ok s'.1 s'.2.
Proof.
  intros [] Hok; cbn in *.
  - eapply FileQueue_add_ok; eassumption.
  - assert (Hn : ~ queued fq ptr) by (intros Hp; destruct (queued_item it fq ptr Hok Hp); congruence).
    eapply fq_addL_ok; [|exact Hn|eassumption]. apply (fq_ok_items it _ fq Hok). intros i qi Hi Hqi. exists qi. split; [|split; reflexivity].
    rewrite lookup_insert_ne; [exact Hqi|]. intros <-. contradiction.
  - destruct (fq_remove_ok it fq p Hok) as (it1 & fq1 & E & H1 & _); [assumption|]. simplify_eq. exact H1.
  - eapply fq_moveTarget_ok; eassumption.
  - destruct (FileQueue_new_ok it) as [H1 H2 H3 H4]. split; assumption.
  - eapply fq_ok_change; eassumption.
Qed.

Lemma fq_reachable s s' : rtc fq_step s s' -> fq_ok s.1 s.2 -> fq_ok s'.1 s'.2.
Proof. induction 1 as [|s1 s2 s3 Hs _ IH]; [tauto|]. intros H. apply IH, (fq_step_ok s1); assumption. Qed.

Lemma find_items_all l ql c : 0 <= c -> find_items l ql c 0 = (ql ++ l, c + Z.of_nat (length l)).
Proof.
  revert ql c. induction l as [|x l IH]; intros ql c Hc; cbn [find_items length]; [rewrite app_nil_r; f_equal; lia|].
  destruct (Z.eqb_spec 0 (c + 1)); [lia|]. rewrite IH, <- app_assoc by lia. cbn. f_equal. lia.
Qed.

(** C8.  In every state reachable from the empty queue by adding, removing, moving and clearing items,
    the queue is a set of items, at most one for a target (up to case): [findTarget] finds exactly
    the item with that target, [findQueueItems] lists exactly the items with a root, each once,
    [isQueued] and [findQueueItem] tell whether there is one, and an empty queue is back at
    generation 0. *)
Theorem FileQueue_index it fq : rtc fq_step (∅, FileQueue_new) (it, fq) ->
  (forall target p, fq_findTarget fq target = Some p <->
     queued fq p /\ exists q, it !! p = Some q /\ target_key (qi_target q) = target_key target) /\
  (forall tth ql, exists l, fq_findQueueItems fq ql tth 0 = (ql ++ l, Z.of_nat (length l)) /\ NoDup l /\
     (forall p, p ∈ l <-> queued fq p /\ has_root it p tth) /\
     fq_isQueued fq tth = negb (bool_decide (l = [])) /\ fq_findQueueItem fq tth = head l) /\
  (fq_queue fq = ∅ -> fq_generationId fq = 0).
Proof.
  intros Hr. pose proof (fq_reachable _ _ Hr (FileQueue_new_ok ∅)) as Hok. cbn in Hok.
  split; [|split; [|apply (fq_gen _ _ Hok)]].
  - intros target p. unfold fq_findTarget. split.
    + intros H. destruct (fq_keys _ _ Hok _ _ H) as (q & Hq & E). split; [exists (target_key target); exact H|]. exists q. split; assumption.
    + intros [Hp (q & Hq & <-)]. apply (queued_key it fq p q Hok Hp Hq).
  - intros tth ql. unfold fq_findQueueItems, fq_isQueued, fq_findQueueItem. pose proof (fq_roots _ _ Hok tth) as Hr'. pose proof (fq_lists _ _ Hok tth) as Hl.
    destruct (fq_queueTTH fq !! tth) as [l|]; cbn in *.
    + destruct (Hl l eq_refl) as (H1 & H2 & _). exists l. rewrite find_items_all by lia. repeat split; [exact H2|apply Hr'; assumption..|].
      rewrite (bool_decide_false (l = [])) by exact H1. reflexivity.
    + exists []. rewrite app_nil_r. repeat split; [constructor|apply Hr'; assumption..].
Qed.

(** The item is one that [getNextSegmentL] works on. *)
Definition item_ok (q : QueueItem) : Prop :=
  qi_state_inv q /\ 0 < qi_blockSize q < 2 ^ 63 /\ (qi_size q = -1 \/ 0 < qi_size q).

Lemma full_source_answer q gsp rand : item_ok q -> maxChunkSize gsp < 2 ^ 31 -> is_Some (getNextSegmentL q gsp None rand).
Proof.
  intros ([(Hok & _) Hlt] & Hbs & Hsz) Hmax.
  destruct Hsz as [Hsz|Hsz]; [unfold getNextSegmentL; rewrite Hsz; cbn; eauto|].
  destruct (enableMultiChunk gsp) eqn:Em.
  - destruct (getNextSegmentL_answer q gsp rand Hok ltac:(lia) Hbs Hmax Em) as (r & e & -> & _). eauto.
  - unfold getNextSegmentL. destruct (_ || _); [eauto|]. rewrite Em. cbn [negb]. destruct (negb _); eauto.
Qed.

Lemma has_segment_ok q gsp : item_ok q -> maxChunkSize gsp < 2 ^ 31 -> is_Some (has_segment q gsp).
Proof.
  intros Hq Hmax. unfold has_segment. destruct (full_source_answer q gsp 0 Hq Hmax) as [[seg e] ->]. cbn. eauto.
Qed.

Section AutoSearch.
Context (isOnline : UserPtr -> bool) (conf : FileQueueConf) (recent : list (list Z)) (gsp : GetSegmentParams) (it : Items).

(** An item to search for. *)
Definition wanted (i : ItemPtr) : bool :=
  match it !! i with
  | Some q => searchable isOnline conf recent q && bool_decide (has_segment q gsp = Some true)
  | None => false
  end.

Definition decided (i : ItemPtr) : Prop := exists q, it !! i = Some q /\ is_Some (has_segment q gsp).

(** A candidate without a free block is kept only until a better one comes. *)
Definition busy (cand : option ItemPtr) : Prop :=
  match cand with Some i => exists q, it !! i = Some q /\ has_segment q gsp = Some false | None => True end.

Lemma candidate_loop_spec l cand : Forall decided l -> busy cand ->
  exists r, candidate_loop isOnline conf recent gsp it l cand = Some r /\
    match find wanted l with Some i => r = Some i | None => busy r end.
Proof using.
  intros Hl. revert cand. induction Hl as [|i l (q & Hq & (free & Hf)) _ IH]; intros cand Hc; cbn [candidate_loop find]; [eauto|].
  rewrite Hq. cbn. rewrite Hf. cbn. unfold wanted at 1. rewrite Hq, Hf. destruct free.
  - rewrite andb_false_r, bool_decide_true, andb_true_r by reflexivity. destruct (searchable isOnline conf recent q); [eauto|apply IH, Hc].
  - rewrite (bool_decide_false (Some false = Some true)), andb_false_r, andb_true_r by discriminate.
    destruct (bool_decide (is_Some cand)); [apply IH, Hc|]. destruct (searchable isOnline conf recent q); [|apply IH, Hc].
    apply IH. exists q. split; assumption.
Qed.

Lemma findCandidateL_spec l : Forall decided l -> findCandidateL isOnline conf recent gsp it l = Some (find wanted l).
Proof using.
  intros Hl. unfold findCandidateL. destruct (candidate_loop_spec l None Hl I) as (r & -> & Hr). cbn. destruct (find wanted l) as [i|] eqn:Ef.
  - subst r. apply find_some in Ef as [_ Ew]. unfold wanted in Ew. destruct (it !! i) as [q|]; [|discriminate]. apply andb_prop in Ew as [_ Ew].
    apply bool_decide_eq_true in Ew. cbn. rewrite Ew. reflexivity.
  - destruct r as [i|]; [|reflexivity]. destruct Hr as (q & -> & E). cbn. rewrite E. reflexivity.
Qed.

Lemma find_app_or {A} (f : A -> bool) l1 l2 : find f (l1 ++ l2) = match find f l1 with Some x => Some x | None => find f l2 end.
Proof using. induction l1 as [|x l1 IH]; cbn; [reflexivity|]. destruct (f x); [reflexivity|exact IH]. Qed.

Lemma find_first {A} (f : A -> bool) l x : find f l = Some x ->
  exists l1 l2, l = l1 ++ x :: l2 /\ f x = true /\ forall y, y ∈ l1 -> f y = false.
Proof using.
  induction l as [|y l IH]; cbn; [discriminate|]. destruct (f y) eqn:E.
  - intros [= <-]. exists [], l. split; [reflexivity|]. split; [exact E|]. intros z Hz%not_elem_of_nil. destruct Hz.
  - intros (l1 & l2 & -> & Hx & Hl)%IH. exists (y :: l1), l2. split; [reflexivity|]. split; [exact Hx|].
    intros z [->|Hz]%elem_of_cons; [exact E|apply Hl, Hz].
Qed.
End AutoSearch.

(** *** Which items are searched for *)

Section ToSearch.
Context (isOnline : UserPtr -> bool) (conf : FileQueueConf) (recent : list (list Z)) (gsp : GetSegmentParams) (it : Items).

(** What makes an item worth a search, read off the item alone: a byte of the file is missing (also
    when the size is not known); the item is neither a list of files nor there only for the address
    of a user (bits 0 and 4 of the flags); it is not paused; its target was not searched for
    recently; and, if the limit of online sources is positive, fewer of its sources than that are
    online. *)
Record search_due (q : QueueItem) : Prop := {
  sd_missing : 0 < qi_size q -> exists x, 0 <= x < qi_size q /\ ~ covered x (qi_doneSegments q);
  sd_file : Z.testbit (qi_flags q) 0 = false /\ Z.testbit (qi_flags q) 4 = false;
  sd_active : qi_priority q <> PAUSED;
  sd_sources : 0 < AUTO_SEARCH_LIMIT conf ->
    Z.of_nat (length (filter (fun u => isOnline u = true) (map_to_list (qi_sources q)).*1)) < AUTO_SEARCH_LIMIT conf;
  sd_recent : qi_target q ∉ recent }.

Definition to_search (p : ItemPtr) : Prop := exists q, it !! p = Some q /\ search_due q /\ has_segment q gsp = Some true.

Lemma list_flags_bits f : isAnySet f (Z.lor FLAG_USER_LIST FLAG_USER_GET_IP) = false <-> Z.testbit f 0 = false /\ Z.testbit f 4 = false.
Proof using.
  unfold isAnySet. rewrite negb_false_iff, Z.eqb_eq. change (Z.lor _ _) with 17. split.
  - intros H. split; [apply (f_equal (fun z => Z.testbit z 0)) in H|apply (f_equal (fun z => Z.testbit z 4)) in H];
      rewrite Z.land_spec in H; cbn in H; rewrite andb_true_r in H; exact H.
  - intros [H0 H4]. apply Z.bits_inj'. intros n Hn. rewrite Z.land_spec, Z.bits_0.
    destruct (decide (n = 0)) as [->|]; [rewrite H0; reflexivity|]. destruct (decide (n = 4)) as [->|]; [rewrite H4; reflexivity|].
    change 17 with (Z.lor (2 ^ 0) (2 ^ 4)). rewrite Z.lor_spec, !Z.pow2_bits_false by lia. apply andb_false_r.
Qed.

Lemma few_online_iff q : negb (AUTO_SEARCH_LIMIT conf =? 0) && hasOnlineSourcesL isOnline q (AUTO_SEARCH_LIMIT conf) = false <->
  (0 < AUTO_SEARCH_LIMIT conf ->
   Z.of_nat (length (filter (fun u => isOnline u = true) (map_to_list (qi_sources q)).*1)) < AUTO_SEARCH_LIMIT conf).
Proof using.
  set (n := AUTO_SEARCH_LIMIT conf). destruct (Z.lt_trichotomy n 0) as [H|[H|H]].
  - split; [intros _; lia|intros _]. apply andb_false_iff. right. unfold hasOnlineSourcesL.
    destruct (_ <? n) eqn:E; [reflexivity|]. apply hasOnline_loop_negative; lia.
  - rewrite H. cbn. split; [intros _; lia|reflexivity].
  - rewrite hasOnlineSourcesL_count by lia. destruct (Z.eqb_spec n 0); [lia|]. cbn [negb andb].
    rewrite Z.leb_gt. tauto.
Qed.

Lemma missing_iff q : item_ok q -> isFinished q = false <-> (0 < qi_size q -> exists x, 0 <= x < qi_size q /\ ~ covered x (qi_doneSegments q)).
Proof using.
  intros ([(Hok & _) _] & _ & Hsz). pose proof Hok as (_ & Hin & _). destruct Hsz as [Hsz|Hsz].
  - split; [intros _; lia|intros _]. unfold isFinished. destruct (qi_doneSegments q) as [|d [|]]; [reflexivity| |reflexivity].
    apply Forall_cons in Hin as [(_ & Hd & _) _]. rewrite Hsz. destruct (Z.eqb_spec (getSize d) (-1)); [lia|apply andb_false_r].
  - destruct (isFinished_iff q Hok Hsz) as [Hf _]. split.
    + intros E _. apply gapped_uncovered; [apply Hok|exact Hsz|]. intros s Hs Hall. rewrite (proj2 Hf) in E; [discriminate|].
      intros x Hx. apply Exists_exists. exists s. split; [exact Hs|]. seg_unfold. lia.
    + intros H. destruct (H Hsz) as (x & Hx & Hn). destruct (isFinished q) eqn:E; [|reflexivity]. destruct Hn. apply Hf; [exact eq_refl|exact Hx].
Qed.

Lemma searchable_iff q : item_ok q -> searchable isOnline conf recent q = true <-> search_due q.
Proof using.
  intros Hq. unfold searchable. rewrite !andb_true_iff, !negb_true_iff, !bool_decide_eq_false, missing_iff, list_flags_bits, few_online_iff by exact Hq.
  split; [intros ((((? & ?) & ?) & ?) & ?); split; assumption|intros [? ? ? ? ?]; tauto].
Qed.

Lemma wanted_iff p : (forall q, it !! p = Some q -> item_ok q) -> wanted isOnline conf recent gsp it p = true <-> to_search p.
Proof using.
  intros Hi. unfold wanted, to_search. destruct (it !! p) as [q|] eqn:E; [|split; [discriminate|intros (q & Hq & _); discriminate]].
  rewrite andb_true_iff, bool_decide_eq_true, (searchable_iff q (Hi q eq_refl)). split.
  - intros [H1 H2]. exists q. auto.
  - intros (q' & Hq' & H1 & H2). injection Hq' as <-. auto.
Qed.
End ToSearch.

(** The search as a test, whatever the order of the queue. *)
Lemma findAutoSearch_find isOnline conf recent gsp it fq rand :
  fq_ok it fq -> (forall p q, queued fq p -> it !! p = Some q -> item_ok q) -> maxChunkSize gsp < 2 ^ 31 ->
  let queue := (map_to_list (fq_queue fq)).*2 in
  let start := if (length queue <=? Z.to_nat rand)%nat then O else Z.to_nat rand in
  fq_findAutoSearch isOnline conf recent gsp it fq rand = Some (find (wanted isOnline conf recent gsp it) (drop start queue ++ take start queue)) /\
  forall p, p ∈ drop start queue ++ take start queue <-> queued fq p.
Proof.
  intros Hok Hi Hmax queue start.
  assert (Hin : forall p, p ∈ queue <-> queued fq p).
  { intros p. unfold queue, queued. rewrite list_elem_of_fmap. split.
    - intros ([k p'] & -> & H). exists k. apply elem_of_map_to_list, H.
    - intros (k & H). exists (k, p). split; [reflexivity|]. apply elem_of_map_to_list, H. }
  assert (Hd : Forall (decided gsp it) queue).
  { apply Forall_forall. intros p Hp%Hin. destruct (queued_item it fq p Hok Hp) as (q & Hq). exists q. split; [exact Hq|]. apply has_segment_ok; [apply (Hi p q Hp Hq)|exact Hmax]. }
  split; [|intros p; rewrite <- Hin, elem_of_app; rewrite <- (take_drop start queue) at 3; rewrite elem_of_app; tauto].
  unfold fq_findAutoSearch. fold queue. cbv zeta. fold start. case_bool_decide as E; [rewrite E, drop_nil, take_nil; reflexivity|].
  rewrite (findCandidateL_spec _ _ _ _ _ (drop start queue)) by (apply Forall_drop, Hd). cbn. rewrite find_app_or. destruct (find _ (drop start queue)) as [i|] eqn:Ef.
  - apply find_some in Ef as [_ Ew]. unfold wanted in Ew. destruct (it !! i) as [q|]; [|discriminate]. apply andb_prop in Ew as [_ Ew].
    apply bool_decide_eq_true in Ew. cbn. rewrite Ew. reflexivity.
  - apply findCandidateL_spec, Forall_take, Hd.
Qed.

End FileQueue.
Arguments target_key : simpl never.

(** ** A queue with one file *)

Definition sample_conf : FileQueueConf := mkFQConf false [] 0 false 0 0 false 0 0.
Definition sample_tth : list Z := repeat 1 24.
Definition sample_lower (s : list Z) : list Z := s.
Definition sample_assign (_ : list Z) (_ : bool) : option unit := Some tt.
Definition sample_match (_ : list Z) (_ : unit) : bool := false.

(** A file of 32 MiB, "f". *)
Definition sample_new : QueueItem := mkQI [102] (2 ^ 25) 0 0 0 sample_tth 65536 NORMAL 1 [] [] [] 0 0 0 0 0 0 ∅ ∅ DEFAULT.
Definition sample_it : Items := <[1%positive := sample_new]> ∅.
Definition sample_fq : @FileQueue unit := mkFQ (<[[102] := 1%positive]> ∅) 1 (<[sample_tth := [1%positive]]> ∅) None [].

Lemma sample_fq_step : fq_step W4 sample_lower sample_assign sample_match (∅, FileQueue_new) (sample_it, sample_fq).
Proof.
  apply (fs_add _ _ _ _ ∅ FileQueue_new sample_conf 1%positive [102] [102] (2 ^ 25) 0 0 (-1) [] (Some sample_tth) 1 0 0 false _ _ (Some 1%positive)); [reflexivity|].
  vm_compute. reflexivity.
Qed.

Lemma FileQueue_index_witness :
  fq_findTarget W4 sample_lower sample_fq [102] = Some 1%positive /\
  exists l, fq_findQueueItems sample_fq [] sample_tth 0 = ([] ++ l, Z.of_nat (length l)) /\ 1%positive ∈ l.
Proof.
  destruct (FileQueue_index W4 sample_lower sample_assign sample_match sample_it sample_fq) as (H1 & H2 & _); [apply rtc_once, sample_fq_step|]. split.
  - apply H1. split; [exists [102]; reflexivity|]. exists sample_new. split; reflexivity.
  - destruct (H2 sample_tth []) as (l & E & _ & Hl & _). exists l. split; [exact E|]. apply Hl. split; [exists [102]; reflexivity|]. exists sample_new. repeat split.
Defined.

Lemma sample_new_ok : item_ok sample_new.
Proof.
  split; [|split; [cbn; lia|right; reflexivity]]. split; [|reflexivity]. split; [|split; [split; [apply map_disjoint_empty_r|cbn; lia]|cbn; lia]].
  split; [split; constructor|]. split; [constructor|reflexivity].
Qed.

