(* ===== verification/UserQueue.v ===== *)
(** * The queue by user: [QueueManager::UserQueue] of [client/QueueManager.h/.cpp]

    For every priority and user, the items to download from that user, in the order they are
    tried, and the item each user is downloading now.  [userQueueMap] is an array of maps: an
    index outside is [None].  A pointer to an item is a key into the store of items; [h] is the
    store of downloads.  Every operation runs under [QueueItem::g_cs]. *)

From S2P Require Import Prelude HashValue Segment SegmentSet MerkleTree SpeedCalc Download QueueItem NextSegment FileQueue.

Definition SRC_FLAG_NO_NEED_PARTS := 0x080.
Definition FLAG_ADD_SEGMENT := 1.
Definition FLAG_ALLOW_REMOVE := 2.

Abbreviation UserQueueMap := (gmap UserPtr (list ItemPtr)).

Record UserQueue := mkUQ { uq_map : list UserQueueMap; uq_running : gmap UserPtr ItemPtr }.

Definition UserQueue_new : UserQueue := mkUQ (replicate (Z.to_nat LAST) ∅) ∅.

(** [userQueueMap[p]]: the index of a priority. *)
Definition prio_index (p : Priority) : option nat := if prio_int p <? 0 then None else Some (Z.to_nat (prio_int p)).

Definition uq_items (uq : UserQueue) (i : nat) (user : UserPtr) : option (list ItemPtr) := m ← uq_map uq !! i; m !! user.

(** [userQueueMap[i][user] = l], or [erase] of an empty list. *)
Definition uq_store (uq : UserQueue) (i : nat) (user : UserPtr) (l : list ItemPtr) : UserQueue :=
  mkUQ (alter (fun m => if bool_decide (l = []) then delete user m else <[user := l]> m) i (uq_map uq)) (uq_running uq).

Definition set_prioQueue (q : QueueItem) (p : Priority) : QueueItem :=
  set_sources q (qi_sourcesVersion q) (qi_sources q) (qi_badSources q) p.

(** ** Adding *)

Definition uq_addL_user (it : Items) (uq : UserQueue) (p : ItemPtr) (prio : Priority) (user : UserPtr) : option UserQueue :=
  q ← it !! p;
  i ← prio_index prio;
  m ← uq_map uq !! i;
  let l := default [] (m !! user) in
  Some (uq_store uq i user
    (if isAnySet (qi_flags q) (Z.lor FLAG_USER_LIST FLAG_USER_GET_IP) || (0 <? qi_downloadedBytes q) then p :: l else l ++ [p])).

Definition uq_addL (it : Items) (uq : UserQueue) (p : ItemPtr) (prio : Priority) : option (Items * UserQueue) :=
  q ← it !! p;
  uq ← foldl (fun uq user => uq ← uq; uq_addL_user it uq p prio user) (Some uq) (map_to_list (qi_sources q)).*1;
  Some (<[p := set_prioQueue q prio]> it, uq).

(** ** Running downloads *)

Definition setRunningDownload (uq : UserQueue) (p : ItemPtr) (user : UserPtr) : UserQueue :=
  mkUQ (uq_map uq) (<[user := p]> (uq_running uq)).
Definition getRunningCount (uq : UserQueue) : Z := Z.of_nat (size (uq_running uq)).
Definition removeRunning (uq : UserQueue) (user : UserPtr) : UserQueue := mkUQ (uq_map uq) (delete user (uq_running uq)).
Definition getRunning (uq : UserQueue) (user : UserPtr) : option ItemPtr := uq_running uq !! user.

Definition uq_removeDownload (h : Downloads) (it : Items) (uq : UserQueue) (p : ItemPtr) (user : UserPtr) : option (Items * UserQueue) :=
  q ← it !! p;
  Some (<[p := (removeDownload_user h q user).2]> it,
        if bool_decide (uq_running uq !! user = Some p) then removeRunning uq user else uq).

(** ** Removing *)

Definition uq_removeUserL (h : Downloads) (it : Items) (uq : UserQueue) (p : ItemPtr) (user : UserPtr) (removeDownloadFlag : bool)
    : option (Items * UserQueue) :=
  q ← it !! p;
  match prio_index (qi_prioQueue q) with
  | None => Some (it, uq)
  | Some i =>
      '(it, uq) ← (if removeDownloadFlag then uq_removeDownload h it uq p user else Some (it, uq));
      Some (it, match uq_items uq i user with
                | None => uq
                | Some l => if bool_decide (p ∈ l) then uq_store uq i user (erase_ptr p l) else uq
                end)
  end.

Definition uq_removeQueueItemL (h : Downloads) (it : Items) (uq : UserQueue) (p : ItemPtr) (removeDownloadFlag : bool)
    : option (Items * UserQueue) :=
  q ← it !! p;
  foldl (fun s user => '(it, uq) ← s; uq_removeUserL h it uq p user removeDownloadFlag) (Some (it, uq)) (map_to_list (qi_sources q)).*1.

Definition uq_removeQueueItem (h : Downloads) (it : Items) (uq : UserQueue) (p : ItemPtr) : option (Items * UserQueue) :=
  uq_removeQueueItemL h it uq p true.

Definition uq_setQIPriority (h : Downloads) (it : Items) (uq : UserQueue) (p : ItemPtr) (prio : Priority) : option (Items * UserQueue) :=
  '(it, uq) ← uq_removeQueueItemL h it uq p (bool_decide (prio = PAUSED));
  q ← it !! p;
  let it := <[p := setPriorityL q prio]> it in
  uq_addL it uq p prio.

(** ** Looking up *)

Definition uq_isInQueue (it : Items) (uq : UserQueue) (p : ItemPtr) : option bool :=
  q ← it !! p;
  match prio_index (qi_prioQueue q) with
  | None => Some false
  | Some i => m ← uq_map uq !! i; Some (existsb (fun user => bool_decide (is_Some (m !! user))) (map_to_list (qi_sources q)).*1)
  end.

(** [getQueuedItems]: [hasDown] and the items. *)
Definition uq_getQueuedItems (uq : UserQueue) (user : UserPtr) (shuttingDown : bool) : bool * list ItemPtr :=
  if shuttingDown then (false, [])
  else
    foldl (fun r i => match uq_items uq i user with
                      | Some l => (r.1 || negb (i =? Z.to_nat (prio_int PAUSED))%nat, r.2 ++ l)
                      | None => r
                      end) (false, []) (seq 0 (Z.to_nat LAST)).

Definition uq_findItemByFlag (it : Items) (uq : UserQueue) (user : UserPtr) (flag : Z) : option ItemPtr :=
  find (fun p => match it !! p with Some q => isAnySet (qi_flags q) flag | None => false end)
    (concat (map (fun i => default [] (uq_items uq i user)) (rev (seq 0 (Z.to_nat LAST))))).

(** ** The next item to download from a user *)

(** [struct QueueItemSegment]. *)
Record QueueItemSegment := mkQIS { qs_qi : option ItemPtr; qs_seg : Segment; qs_sourceFlags : Z }.

Definition set_qs_qi (r : QueueItemSegment) (p : ItemPtr) : QueueItemSegment := mkQIS (Some p) (qs_seg r) (qs_sourceFlags r).

#[global] Instance NextError_eq_dec : EqDecision NextError.
Proof. solve_decision. Defined.

(** What the body of the inner loop finds out about an item. *)
Inductive Verdict :=
  | NotAsked
  | NoFileSlot
  | Block (seg : Segment) (sourceFlags : Z)
  | NoBlock (e : NextError) (remove : bool).

Section Next.
(** [rand] is the random number [getNextSegmentL] draws for an item. *)
Context (rand : ItemPtr -> Z) (fileSlots : Z) (user : UserPtr) (gsp : GetSegmentParams) (flags : Z).

Definition next_verdict (it : Items) (hasFreeSlots : bool) (p : ItemPtr) : option Verdict :=
  q ← it !! p;
  match qi_sources q !! user with
  | None => Some NotAsked
  | Some source =>
      let isFileList := isAnySet (qi_flags q) (Z.lor FLAG_USER_LIST FLAG_USER_GET_IP) in
      if isWaiting q && negb isFileList && negb hasFreeSlots then Some NoFileSlot
      else if negb (isWaiting q) && (isFileList || (qi_size q =? -1) || negb (isAnySet (qi_extraFlags q) XFLAG_ALLOW_SEGMENTS)) then Some NotAsked
      else
        '(segment, e) ← getNextSegmentL q gsp (src_partial source) (rand p);
        Some (if negb (getSize segment =? 0) then Block segment (src_flags source)
              else NoBlock e (isAnySet flags FLAG_ALLOW_REMOVE && bool_decide (is_Some (src_partial source)) && bool_decide (e = ERROR_NO_NEEDED_PART)))
  end.

(** The inner loop: the items of the user that stay before [l], the items after it, the error and the
    result so far.  The answer has the whole list, and whether a block was found. *)
Fixpoint next_loop (hasFreeSlots : bool) (kept l : list ItemPtr) (it : Items) (lastError : NextError) (result : QueueItemSegment)
    : option (bool * list ItemPtr * Items * NextError * QueueItemSegment) :=
  match l with
  | [] => Some (false, kept, it, lastError, result)
  | p :: l' =>
      v ← next_verdict it hasFreeSlots p;
      q ← it !! p;
      match v with
      | NotAsked => next_loop hasFreeSlots (kept ++ [p]) l' it lastError result
      | NoFileSlot => next_loop hasFreeSlots (kept ++ [p]) l' it ERROR_FILE_SLOTS_TAKEN (set_qs_qi result p)
      | Block seg sourceFlags =>
          let '(it, seg) :=
            if isAnySet flags FLAG_ADD_SEGMENT && negb (getSize seg =? -1)
            then (<[p := addDownload_seg q seg]> it, seg) else (it, mkSeg 0 (-1)) in
          Some (true, kept ++ l, it, SUCCESS, mkQIS (Some p) seg sourceFlags)
      | NoBlock e remove =>
          let '(lastError, result) := if bool_decide (lastError = ERROR_NO_ITEM) then (e, set_qs_qi result p) else (lastError, result) in
          if remove
          then next_loop hasFreeSlots kept l' (<[p := removeSourceL q user SRC_FLAG_NO_NEED_PARTS]> it) lastError result
          else next_loop hasFreeSlots (kept ++ [p]) l' it lastError result
      end
  end.

(** The outer loop over the priorities [ps]. *)
Fixpoint prio_loop (hasFreeSlots : bool) (ps : list nat) (it : Items) (uq : UserQueue) (lastError : NextError) (result : QueueItemSegment)
    : option (NextError * QueueItemSegment * Items * UserQueue) :=
  match ps with
  | [] => Some (lastError, result, it, uq)
  | i :: ps =>
      m ← uq_map uq !! i;
      match m !! user with
      | None => prio_loop hasFreeSlots ps it uq lastError result
      | Some l =>
          '(found, l, it, lastError, result) ← next_loop hasFreeSlots [] l it lastError result;
          let uq := uq_store uq i user l in
          if found : bool then Some (lastError, result, it, uq) else prio_loop hasFreeSlots ps it uq lastError result
      end
  end.

Definition uq_getNextL (it : Items) (uq : UserQueue) (minPrio : Priority) : option (NextError * QueueItemSegment * Items * UserQueue) :=
  let hasFreeSlots := (fileSlots =? 0) || (getRunningCount uq <? fileSlots) in
  n ← prio_index minPrio;
  prio_loop hasFreeSlots (rev (seq n (Z.to_nat LAST - n))) it uq ERROR_NO_ITEM (mkQIS None (mkSeg 0 (-1)) 0).
End Next.

(** ** The lists follow the items *)

Definition items_of (uq : UserQueue) (i : nat) (u : UserPtr) : list ItemPtr := default [] (uq_items uq i u).

(** All maps are there, and no list is empty or has an item twice. *)
Definition uq_wf (uq : UserQueue) : Prop :=
  length (uq_map uq) = Z.to_nat LAST /\ forall i u l, uq_items uq i u = Some l -> l <> [] /\ NoDup l.

(** The queue by users is an index of the registered items [R]: an item is in the lists only under its
    [prioQueue] and its sources, and one that is not finished is there under all its sources. *)
Record uq_ok (it : Items) (uq : UserQueue) (R : ItemPtr -> Prop) : Prop := {
  uq_ok_wf : uq_wf uq;
  uq_sound : forall i u p, p ∈ items_of uq i u ->
    R p /\ exists q, it !! p = Some q /\ prio_index (qi_prioQueue q) = Some i /\ is_Some (qi_sources q !! u);
  uq_complete : forall p q u, R p -> it !! p = Some q -> isFinished q = false -> is_Some (qi_sources q !! u) ->
    exists i, prio_index (qi_prioQueue q) = Some i /\ p ∈ items_of uq i u
}.

Lemma prio_index_lt p i : prio_index p = Some i -> (i < Z.to_nat LAST)%nat.
Proof. change (Z.to_nat LAST) with 8%nat. destruct p; cbn; intros [= <-]; lia. Qed.

Lemma prio_index_some p : p <> DEFAULT -> exists i, prio_index p = Some i.
Proof. destruct p; [congruence|cbn; eauto..]. Qed.

Lemma prio_index_inj p p' i : prio_index p = Some i -> prio_index p' = Some i -> p = p'.
Proof. destruct p, p'; vm_compute; congruence. Qed.

Lemma items_of_wf uq i u : uq_wf uq -> NoDup (items_of uq i u).
Proof. intros [_ H]. unfold items_of. destruct (uq_items uq i u) eqn:E; [apply (H i u _ E)|constructor]. Qed.

Lemma uq_items_store uq i u l j v : (i < length (uq_map uq))%nat ->
  uq_items (uq_store uq i u l) j v = if decide (j = i /\ v = u) then (if bool_decide (l = []) then None else Some l) else uq_items uq j v.
Proof.
  intros Hi. unfold uq_items, uq_store. cbn. destruct (lookup_lt_is_Some_2 _ _ Hi) as [m Hm].
  destruct (decide (j = i)) as [->|Hj].
  - rewrite list_lookup_alter_eq, Hm. cbn. destruct (decide (i = i /\ v = u)) as [[_ ->]|Hv].
    + case_bool_decide; [apply lookup_delete_eq|apply lookup_insert_eq].
    + assert (u <> v) by (intros ->; apply Hv; split; reflexivity). case_bool_decide; [apply lookup_delete_ne; assumption|apply lookup_insert_ne; assumption].
  - rewrite list_lookup_alter_ne by congruence. rewrite decide_False by (intros [? _]; contradiction). reflexivity.
Qed.

Lemma items_of_store uq i u l j v : (i < length (uq_map uq))%nat ->
  items_of (uq_store uq i u l) j v = if decide (j = i /\ v = u) then l else items_of uq j v.
Proof.
  intros Hi. unfold items_of. rewrite uq_items_store by exact Hi. destruct (decide _); [|reflexivity]. case_bool_decide; [subst; reflexivity|reflexivity].
Qed.

Lemma uq_store_wf uq i u l : uq_wf uq -> (i < Z.to_nat LAST)%nat -> NoDup l -> uq_wf (uq_store uq i u l).
Proof.
  intros [H1 H2] Hi Hl. split; [cbn; rewrite length_alter; exact H1|]. intros j v l'. rewrite uq_items_store by lia. destruct (decide _); [|apply H2].
  case_bool_decide; [discriminate|]. intros [= <-]. split; assumption.
Qed.

Lemma uq_store_again uq i u l l' : (i < length (uq_map uq))%nat -> uq_wf (uq_store uq i u l) -> NoDup l' -> uq_wf (uq_store uq i u l').
Proof.
  intros Hi [Hlen Hls] Hl. cbn in Hlen. rewrite length_alter in Hlen. split; [cbn; rewrite length_alter; exact Hlen|].
  intros j v l0. specialize (Hls j v). rewrite uq_items_store in Hls by exact Hi. rewrite uq_items_store by exact Hi. destruct (decide _); [|apply Hls].
  clear Hls. case_bool_decide; [discriminate|]. intros [= <-]. split; assumption.
Qed.

(** One source of an item is added to the lists. *)
Lemma uq_addL_user_ok it uq p q prio i u : uq_wf uq -> it !! p = Some q -> prio_index prio = Some i -> p ∉ items_of uq i u ->
  exists uq', uq_addL_user it uq p prio u = Some uq' /\ uq_wf uq' /\ uq_running uq' = uq_running uq /\
    forall j v x, x ∈ items_of uq' j v <-> x ∈ items_of uq j v \/ x = p /\ j = i /\ v = u.
Proof.
  intros Hwf Hq Hi Hp. unfold uq_addL_user. rewrite Hq, Hi. cbn. pose proof (prio_index_lt _ _ Hi) as Hlt. pose proof Hwf as [Hlen _].
  destruct (lookup_lt_is_Some_2 (uq_map uq) i ltac:(lia)) as [m Hm]. rewrite Hm. cbn.
  assert (El : default [] (m !! u) = items_of uq i u) by (unfold items_of, uq_items; rewrite Hm; reflexivity). rewrite El. set (l := items_of uq i u) in *.
  pose proof (items_of_wf uq i u Hwf) as Hnd. fold l in Hnd.
  set (l' := if _ || _ then p :: l else l ++ [p]).
  assert (Hl' : NoDup l' /\ forall x, x ∈ l' <-> x ∈ l \/ x = p).
  { unfold l'. destruct (_ || _).
    - split; [constructor; assumption|]. intros x. rewrite elem_of_cons. tauto.
    - split; [|intros x; rewrite elem_of_app, list_elem_of_singleton; tauto]. apply NoDup_app. split; [exact Hnd|]. split; [|apply NoDup_singleton].
      intros x Hx ->%list_elem_of_singleton. contradiction. }
  eexists. split; [reflexivity|]. split; [apply uq_store_wf; tauto|]. split; [reflexivity|]. intros j v x. rewrite items_of_store by lia.
  destruct (decide _) as [[-> ->]|Hd]; [|tauto]. rewrite (proj2 Hl'). fold l. tauto.
Qed.


Lemma uq_addL_users_ok it p q prio i us : it !! p = Some q -> prio_index prio = Some i -> NoDup us -> forall uq,
  uq_wf uq -> (forall u, u ∈ us -> p ∉ items_of uq i u) ->
  exists uq', foldl (fun uq user => uq ← uq; uq_addL_user it uq p prio user) (Some uq) us = Some uq' /\ uq_wf uq' /\ uq_running uq' = uq_running uq /\
    forall j v x, x ∈ items_of uq' j v <-> x ∈ items_of uq j v \/ x = p /\ j = i /\ v ∈ us.
Proof.
  intros Hq Hi. induction 1 as [|u us Hu Hus IH]; intros uq Hwf Hp; cbn [foldl].
  - exists uq. split; [reflexivity|]. split; [exact Hwf|]. split; [reflexivity|]. intros j v x. rewrite elem_of_nil. tauto.
  - destruct (uq_addL_user_ok it uq p q prio i u Hwf Hq Hi) as (uq1 & E1 & Hwf1 & Hr1 & Hm1); [apply Hp; left|].
    rewrite option_bind_Some_eq, E1. destruct (IH uq1 Hwf1) as (uq2 & -> & Hwf2 & Hr2 & Hm2).
    { intros v Hv. rewrite Hm1. intros [H|(_ & _ & ->)]; [|contradiction]. revert H. apply Hp. right. exact Hv. }
    exists uq2. split; [reflexivity|]. split; [exact Hwf2|]. split; [congruence|]. intros j v x. rewrite Hm2, Hm1, elem_of_cons. tauto.
Qed.

Lemma elem_of_sources (q : QueueItem) u : u ∈ (map_to_list (qi_sources q)).*1 <-> is_Some (qi_sources q !! u).
Proof.
  rewrite list_elem_of_fmap. split.
  - intros ([u' s] & -> & H%elem_of_map_to_list). eauto.
  - intros [s H]. exists (u, s). split; [reflexivity|]. apply elem_of_map_to_list, H.
Qed.

(** An item that is not registered is put into the lists of all its sources. *)
Lemma uq_addL_ok it uq R p q prio : uq_ok it uq R -> ~ R p -> it !! p = Some q -> prio <> DEFAULT ->
  exists uq', uq_addL it uq p prio = Some (<[p := set_prioQueue q prio]> it, uq') /\
    uq_ok (<[p := set_prioQueue q prio]> it) uq' (fun x => R x \/ x = p) /\ uq_running uq' = uq_running uq.
Proof.
  intros Hok Hp Hq Hd. destruct (prio_index_some prio Hd) as [i Hi]. unfold uq_addL. rewrite Hq. cbn.
  destruct (uq_addL_users_ok it p q prio i (map_to_list (qi_sources q)).*1 Hq Hi) with (uq := uq) as (uq' & -> & Hwf & Hr & Hm).
  { apply NoDup_fst_map_to_list. }
  { apply Hok. }
  { intros u _ H. apply Hp, (uq_sound _ _ _ Hok i u p H). }
  exists uq'. split; [reflexivity|]. split; [|exact Hr]. split; [exact Hwf| |].
  - intros j v x. rewrite Hm, elem_of_sources. intros [H|(-> & -> & H)].
    + destruct (uq_sound _ _ _ Hok j v x H) as (Hx & q' & Hq' & H1 & H2). split; [left; exact Hx|]. exists q'. split; [|split; assumption].
      rewrite lookup_insert_ne; [exact Hq'|]. intros <-. contradiction.
    + split; [right; reflexivity|]. exists (set_prioQueue q prio). rewrite lookup_insert_eq. repeat split; [exact Hi|exact H].
  - intros x q' u Hx Hq' Hf Hu. destruct (decide (x = p)) as [->|Hne].
    + rewrite lookup_insert_eq in Hq'. injection Hq' as <-. exists i. split; [exact Hi|]. apply Hm. right. rewrite elem_of_sources. repeat split. exact Hu.
    + rewrite lookup_insert_ne in Hq' by congruence. destruct Hx as [Hx|Hx]; [|contradiction].
      destruct (uq_complete _ _ _ Hok x q' u Hx Hq' Hf Hu) as (j & Hj & H). exists j. split; [exact Hj|]. apply Hm. left. exact H.
Qed.

Lemma set_downloads_id q : set_downloads q (qi_downloads q) = q.
Proof. destruct q. reflexivity. Qed.

Lemma removeDownload_shape h q u : exists l, (removeDownload_user h q u).2 = set_downloads q l.
Proof. unfold removeDownload_user. destruct (erase_first _ _) as [l|]; cbn; [eauto|]. exists (qi_downloads q). rewrite set_downloads_id. reflexivity. Qed.

(** One source of an item is taken out of the lists. *)
Lemma uq_removeUserL_ok h it uq p q u b : uq_wf uq -> it !! p = Some q ->
  exists uq' l, uq_removeUserL h it uq p u b = Some (<[p := set_downloads q l]> it, uq') /\ uq_wf uq' /\
    forall j v x, x ∈ items_of uq' j v <-> x ∈ items_of uq j v /\ ~ (x = p /\ prio_index (qi_prioQueue q) = Some j /\ v = u).
Proof.
  intros Hwf Hq. unfold uq_removeUserL. rewrite Hq. cbn.
  assert (Hid : <[p := set_downloads q (qi_downloads q)]> it = it) by (rewrite set_downloads_id; apply insert_id, Hq).
  destruct (prio_index (qi_prioQueue q)) as [i|] eqn:Hi.
  2: { exists uq, (qi_downloads q). rewrite Hid. split; [reflexivity|]. split; [exact Hwf|]. intros j v x. split; [|tauto]. intros H. split; [exact H|]. intros (_ & ? & _). discriminate. }
  assert (Hrem : exists l uq1, (if b then uq_removeDownload h it uq p u else Some (it, uq)) = Some (<[p := set_downloads q l]> it, uq1) /\ uq_map uq1 = uq_map uq).
  { destruct b; [|exists (qi_downloads q), uq; rewrite Hid; split; reflexivity]. unfold uq_removeDownload. rewrite Hq. cbn.
    destruct (removeDownload_shape h q u) as [l ->]. eexists l, _. split; [reflexivity|]. case_bool_decide; reflexivity. }
  destruct Hrem as (l & uq1 & -> & Em). cbn.
  assert (Hwf1 : uq_wf uq1) by (unfold uq_wf, uq_items; rewrite Em; exact Hwf).
  assert (Ei : forall j v, items_of uq1 j v = items_of uq j v) by (intros j v; unfold items_of, uq_items; rewrite Em; reflexivity).
  pose proof (prio_index_lt _ _ Hi) as Hlt. eexists _, l. split; [reflexivity|].
  pose proof (items_of_wf uq1 i u Hwf1) as Hnd. unfold items_of in Hnd. pose proof (Ei i u) as Eiu. unfold items_of in Eiu at 1.
  destruct (uq_items uq1 i u) as [l1|] eqn:El; cbn in Hnd, Eiu.
  - case_bool_decide as Hin.
    + destruct (erase_ptr_spec p l1 Hnd) as (E1 & E2 & _). split; [apply uq_store_wf; assumption|]. intros j v x.
      rewrite items_of_store by (destruct Hwf1; lia). destruct (decide (j = i /\ v = u)) as [[-> ->]|Hd].
      * rewrite E2, <- Eiu. split; [intros [H1 H2]; split; [exact H1|]; tauto|]. intros [H1 H2]. split; [exact H1|]. intros ->. apply H2. repeat split; assumption.
      * rewrite Ei. split; [|tauto]. intros H. split; [exact H|]. intros (_ & [= ->] & ->). apply Hd. split; reflexivity.
    + split; [exact Hwf1|]. intros j v x. rewrite Ei. split; [|tauto]. intros H. split; [exact H|]. intros (-> & [= <-] & ->). rewrite <- Eiu in H. contradiction.
  - split; [exact Hwf1|]. intros j v x. rewrite Ei. split; [|tauto]. intros H. split; [exact H|]. intros (-> & [= <-] & ->). rewrite <- Eiu in H. apply elem_of_nil in H. exact H.
Qed.

Lemma uq_removeUsers_ok h p b us q : forall it uq, uq_wf uq -> it !! p = Some q ->
  exists uq' l, foldl (fun s user => '(it, uq) ← s; uq_removeUserL h it uq p user b) (Some (it, uq)) us = Some (<[p := set_downloads q l]> it, uq') /\ uq_wf uq' /\
    forall j v x, x ∈ items_of uq' j v <-> x ∈ items_of uq j v /\ ~ (x = p /\ prio_index (qi_prioQueue q) = Some j /\ v ∈ us).
Proof.
  revert q. induction us as [|u us IH]; intros q it uq Hwf Hq; cbn [foldl].
  - exists uq, (qi_downloads q). rewrite set_downloads_id, insert_id by exact Hq. split; [reflexivity|]. split; [exact Hwf|]. intros j v x. rewrite elem_of_nil. tauto.
  - destruct (uq_removeUserL_ok h it uq p q u b Hwf Hq) as (uq1 & l1 & E1 & Hwf1 & Hm1). rewrite option_bind_Some_eq, E1.
    destruct (IH (set_downloads q l1) (<[p := set_downloads q l1]> it) uq1 Hwf1 (lookup_insert_eq _ _ _)) as (uq2 & l2 & -> & Hwf2 & Hm2).
    exists uq2, l2. rewrite insert_insert_eq. split; [reflexivity|]. split; [exact Hwf2|]. intros j v x. rewrite Hm2, Hm1, elem_of_cons. cbn [qi_prioQueue set_downloads set_segments]. tauto.
Qed.

(** A registered item is taken out of all lists. *)
Lemma uq_removeQueueItemL_ok h it uq R p q b : uq_ok it uq R -> it !! p = Some q ->
  exists uq' l, uq_removeQueueItemL h it uq p b = Some (<[p := set_downloads q l]> it, uq') /\
    uq_ok (<[p := set_downloads q l]> it) uq' (fun x => R x /\ x <> p).
Proof.
  intros Hok Hq. unfold uq_removeQueueItemL. rewrite Hq. cbn.
  destruct (uq_removeUsers_ok h p b (map_to_list (qi_sources q)).*1 q it uq) as (uq' & l & -> & Hwf & Hm); [apply Hok|exact Hq|].
  exists uq', l. split; [reflexivity|]. split; [exact Hwf| |].
  - intros j v x. rewrite Hm, elem_of_sources. intros [H Hn]. destruct (uq_sound _ _ _ Hok j v x H) as (Hx & q' & Hq' & H1 & H2).
    assert (x <> p) by (intros ->; apply Hn; rewrite Hq in Hq'; injection Hq' as <-; repeat split; assumption).
    split; [split; assumption|]. exists q'. rewrite lookup_insert_ne by congruence. repeat split; assumption.
  - intros x q' u [Hx Hne] Hq' Hf Hu. rewrite lookup_insert_ne in Hq' by congruence.
    destruct (uq_complete _ _ _ Hok x q' u Hx Hq' Hf Hu) as (j & Hj & H). exists j. split; [exact Hj|]. apply Hm. split; [exact H|]. intros [? _]. contradiction.
Qed.

Lemma uq_ok_registered it uq (R R' : ItemPtr -> Prop) : uq_ok it uq R -> (forall x, R x <-> R' x) -> uq_ok it uq R'.
Proof.
  intros [H1 H2 H3] HR. split; [exact H1| |].
  - intros i u p H. destruct (H2 i u p H) as [Hp Hq]. split; [apply HR, Hp|exact Hq].
  - intros p q u Hp. apply H3, HR, Hp.
Qed.

(** An item may change but for the users that are its sources and [prioQueue]; it may finish, but not start again. *)
Definition same_place (q q' : QueueItem) : Prop :=
  (forall u, is_Some (qi_sources q' !! u) <-> is_Some (qi_sources q !! u)) /\ qi_prioQueue q' = qi_prioQueue q /\ (isFinished q = true -> isFinished q' = true).

Lemma uq_ok_change it uq R p q q' : uq_ok it uq R -> it !! p = Some q -> same_place q q' -> uq_ok (<[p := q']> it) uq R.
Proof.
  intros [H1 H2 H3] Hq (E1 & E2 & E3). split; [exact H1| |].
  - intros i u x H. destruct (H2 i u x H) as (Hx & qx & Hqx & Hi & Hu). split; [exact Hx|]. destruct (decide (x = p)) as [->|Hne].
    + exists q'. rewrite lookup_insert_eq, E1, E2. rewrite Hq in Hqx. injection Hqx as <-. repeat split; assumption.
    + exists qx. rewrite lookup_insert_ne by congruence. repeat split; assumption.
  - intros x qx u Hx Hqx Hf Hu. destruct (decide (x = p)) as [->|Hne].
    + rewrite lookup_insert_eq in Hqx. injection Hqx as <-. rewrite E2. apply (H3 p q u Hx Hq); [|apply E1, Hu].
      destruct (isFinished q); [rewrite E3 in Hf by reflexivity; discriminate|reflexivity].
    + rewrite lookup_insert_ne in Hqx by congruence. apply (H3 x qx u Hx Hqx Hf Hu).
Qed.

Lemma same_place_eq q q' : qi_sources q' = qi_sources q -> qi_prioQueue q' = qi_prioQueue q -> isFinished q' = isFinished q -> same_place q q'.
Proof. intros E1 E2 E3. split; [intros u; rewrite E1; reflexivity|]. split; [exact E2|]. rewrite E3. tauto. Qed.

Lemma set_downloads_place q l : same_place q (set_downloads q l).
Proof. apply same_place_eq; reflexivity. Qed.

(** A registered item moves to the lists of its new priority. *)
Lemma uq_setQIPriority_ok h it uq R p q prio : uq_ok it uq R -> it !! p = Some q -> prio <> DEFAULT ->
  exists uq' l, uq_setQIPriority h it uq p prio = Some (<[p := set_prioQueue (setPriorityL (set_downloads q l) prio) prio]> it, uq') /\
    uq_ok (<[p := set_prioQueue (setPriorityL (set_downloads q l) prio) prio]> it) uq' (fun x => R x \/ x = p).
Proof.
  intros Hok Hq Hd. unfold uq_setQIPriority. destruct (uq_removeQueueItemL_ok h it uq R p q (bool_decide (prio = PAUSED)) Hok Hq) as (uq1 & l & -> & Hok1).
  cbn. rewrite lookup_insert_eq. cbn. rewrite insert_insert_eq. set (q1 := setPriorityL (set_downloads q l) prio).
  assert (Hok2 : uq_ok (<[p := q1]> it) uq1 (fun x => R x /\ x <> p)).
  { apply (uq_ok_change _ _ _ p (set_downloads q l) q1) in Hok1; [rewrite insert_insert_eq in Hok1; exact Hok1|apply lookup_insert_eq|].
    apply same_place_eq; reflexivity. }
  destruct (uq_addL_ok _ uq1 _ p q1 prio Hok2) as (uq2 & E & Hok3 & _); [tauto|apply lookup_insert_eq|exact Hd|].
  rewrite insert_insert_eq in E, Hok3. exists uq2, l. split; [exact E|]. apply (uq_ok_registered _ _ _ _ Hok3). intros x. destruct (decide (x = p)); tauto.
Qed.

(** A source is removed from an item and the item from its list. *)
Lemma uq_ok_drop it uq uq' R p q i u r : uq_ok it uq R -> it !! p = Some q -> prio_index (qi_prioQueue q) = Some i -> uq_wf uq' ->
  (forall j v x, x ∈ items_of uq' j v <-> x ∈ items_of uq j v /\ ~ (x = p /\ j = i /\ v = u)) ->
  uq_ok (<[p := removeSourceL q u r]> it) uq' R.
Proof.
  intros Hok Hq Hi Hwf Hm.
  assert (Hsrc : qi_sources (removeSourceL q u r) = delete u (qi_sources q)).
  { unfold removeSourceL. destruct (qi_sources q !! u) eqn:E; [reflexivity|]. symmetry. apply delete_id, E. }
  assert (Hfin : isFinished (removeSourceL q u r) = isFinished q).
  { destruct (removeSourceL_shape q u r) as (v & src & bad & pr & ->). reflexivity. }
  assert (Hprio : forall v, is_Some (delete u (qi_sources q) !! v) -> qi_prioQueue (removeSourceL q u r) = qi_prioQueue q).
  { intros v [s Hs]. unfold removeSourceL. destruct (qi_sources q !! u); [|reflexivity]. cbn. rewrite bool_decide_false; [reflexivity|].
    intros E. rewrite E, lookup_empty in Hs. discriminate. }
  split; [exact Hwf| |].
  - intros j v x Hx. apply Hm in Hx as [Hx Hn]. destruct (uq_sound _ _ _ Hok j v x Hx) as (HR & qx & Hqx & Hj & Hv). split; [exact HR|].
    destruct (decide (x = p)) as [->|Hne]; [|exists qx; rewrite lookup_insert_ne by congruence; repeat split; assumption].
    rewrite Hq in Hqx. injection Hqx as <-. assert (v <> u) by (intros ->; apply Hn; repeat split; congruence).
    assert (Hv' : is_Some (delete u (qi_sources q) !! v)) by (rewrite lookup_delete_ne by congruence; exact Hv).
    exists (removeSourceL q u r). rewrite lookup_insert_eq, Hsrc, (Hprio v Hv'). repeat split; assumption.
  - intros x qx v HR Hqx Hf Hv. destruct (decide (x = p)) as [->|Hne].
    + rewrite lookup_insert_eq in Hqx. injection Hqx as <-. rewrite Hfin in Hf. rewrite Hsrc in Hv. rewrite (Hprio v Hv).
      destruct (decide (v = u)) as [->|Hvu]; [rewrite lookup_delete_eq in Hv; destruct Hv; discriminate|]. rewrite lookup_delete_ne in Hv by congruence.
      destruct (uq_complete _ _ _ Hok p q v HR Hq Hf Hv) as (j & Hj & H). exists j. split; [exact Hj|]. apply Hm. split; [exact H|]. intros (_ & _ & ?). contradiction.
    + rewrite lookup_insert_ne in Hqx by congruence. destruct (uq_complete _ _ _ Hok x qx v HR Hqx Hf Hv) as (j & Hj & H).
      exists j. split; [exact Hj|]. apply Hm. split; [exact H|]. intros (? & _ & _). contradiction.
Qed.

(** ** The next item *)

Section NextFacts.
Context (rand : ItemPtr -> Z) (fileSlots : Z) (user : UserPtr) (gsp : GetSegmentParams) (flags : Z) (R : ItemPtr -> Prop).

Abbreviation verdict := (next_verdict rand user gsp flags).

(** The item has a block for the user. *)
Definition takes (it : Items) (hasFreeSlots : bool) (p : ItemPtr) : bool :=
  match verdict it hasFreeSlots p with Some (Block _ _) => true | _ => false end.

(** [getNextSegmentL] returns, with an error when it has no block. *)
Definition answers (it : Items) (p : ItemPtr) : Prop :=
  exists q, it !! p = Some q /\ forall s, qi_sources q !! user = Some s ->
    exists seg e, getNextSegmentL q gsp (src_partial s) (rand p) = Some (seg, e) /\ (getSize seg = 0 -> e <> SUCCESS).

(** The result for an item: the source, and the block, added to the running segments if asked for. *)
Definition chosen (it it' : Items) (r : QueueItemSegment) (p : ItemPtr) : Prop :=
  exists q s seg e, it !! p = Some q /\ qi_sources q !! user = Some s /\
    getNextSegmentL q gsp (src_partial s) (rand p) = Some (seg, e) /\ getSize seg <> 0 /\
    let add := isAnySet flags FLAG_ADD_SEGMENT && negb (getSize seg =? -1) in
    r = mkQIS (Some p) (if add then seg else mkSeg 0 (-1)) (src_flags s) /\
    it' !! p = Some (if add then addDownload_seg q seg else q).

Lemma verdict_answers it hf p : answers it p -> exists v, verdict it hf p = Some v /\
  match v with
  | NoBlock e _ => e <> SUCCESS
  | Block seg sf => exists q s e, it !! p = Some q /\ qi_sources q !! user = Some s /\ sf = src_flags s /\
      getNextSegmentL q gsp (src_partial s) (rand p) = Some (seg, e) /\ getSize seg <> 0
  | _ => True
  end.
Proof using.
  intros (q & Hq & Hs). unfold next_verdict. rewrite Hq. cbn. destruct (qi_sources q !! user) as [s|] eqn:Es; [|eexists; split; [reflexivity|exact I]].
  destruct (isWaiting q && _ && _); [eexists; split; [reflexivity|exact I]|]. destruct (negb (isWaiting q) && _); [eexists; split; [reflexivity|exact I]|].
  destruct (Hs s eq_refl) as (seg & e & E & He). rewrite E. cbn. eexists. split; [reflexivity|].
  destruct (Z.eqb_spec (getSize seg) 0) as [Hz|Hz]; cbn; [exact (He Hz)|]. exists q, s, e. repeat split; assumption.
Qed.

Lemma verdict_same it it' hf p : it' !! p = it !! p -> verdict it' hf p = verdict it hf p.
Proof using. intros E. unfold next_verdict. rewrite E. reflexivity. Qed.

Lemma find_ext_in {A} (f g : A -> bool) l : (forall x, x ∈ l -> f x = g x) -> find f l = find g l.
Proof using.
  induction l as [|x l IH]; intros H; cbn; [reflexivity|]. rewrite (H x) by left. rewrite IH by (intros y Hy; apply H; right; exact Hy). reflexivity.
Qed.

Lemma find_takes_same it it' hf l : (forall x, x ∈ l -> it' !! x = it !! x) -> find (takes it' hf) l = find (takes it hf) l.
Proof using. intros H. apply find_ext_in. intros x Hx. unfold takes. rewrite (verdict_same it it') by (apply H, Hx). reflexivity. Qed.

Lemma answers_same it it' p : it' !! p = it !! p -> answers it p -> answers it' p.
Proof using. intros E H. unfold answers in *. rewrite E. exact H. Qed.

Lemma chosen_same it1 it it' r p : it1 !! p = it !! p -> chosen it1 it' r p -> chosen it it' r p.
Proof using. intros E H. unfold chosen in *. rewrite <- E. exact H. Qed.

(** The body of the loop at an item without a block. *)
Lemma next_loop_skip hf uq i kept p l it v : (i < length (uq_map uq))%nat -> uq_ok it (uq_store uq i user (kept ++ p :: l)) R ->
  Forall (answers it) (p :: l) -> verdict it hf p = Some v -> match v with Block _ _ => False | _ => True end -> forall e r, e <> SUCCESS ->
  exists kept' it' e' r', next_loop rand user gsp flags hf kept (p :: l) it e r = next_loop rand user gsp flags hf kept' l it' e' r' /\
    uq_ok it' (uq_store uq i user (kept' ++ l)) R /\ (forall x, x <> p -> it' !! x = it !! x) /\ e' <> SUCCESS.
Proof using.
  intros Hi Hok Ha Hv Hb e r He. apply Forall_cons in Ha as [Hp _]. destruct (verdict_answers it hf p Hp) as (v' & Hv' & Hspec).
  rewrite Hv in Hv'. injection Hv' as <-. destruct Hp as (q & Hq & _). cbn [next_loop]. rewrite Hv, Hq, !option_bind_Some_eq.
  assert (Hkeep : uq_ok it (uq_store uq i user ((kept ++ [p]) ++ l)) R) by (rewrite <- app_assoc; exact Hok).
  destruct v as [| |seg sf|e1 rm]; [| |contradiction|].
  - exists (kept ++ [p]), it, e, r. split; [reflexivity|]. split; [exact Hkeep|]. split; [reflexivity|exact He].
  - exists (kept ++ [p]), it, ERROR_FILE_SLOTS_TAKEN, (set_qs_qi r p). split; [reflexivity|]. split; [exact Hkeep|]. split; [reflexivity|discriminate].
  - set (er := if bool_decide (e = ERROR_NO_ITEM) then (e1, set_qs_qi r p) else (e, r)).
    assert (Her : er.1 <> SUCCESS) by (unfold er; case_bool_decide; [exact Hspec|exact He]). destruct er as [e2 r2]. cbn in Her.
    destruct rm; [|exists (kept ++ [p]), it, e2, r2; split; [reflexivity|]; split; [exact Hkeep|]; split; [reflexivity|exact Her]].
    eexists kept, _, e2, r2. split; [reflexivity|]. split; [|split; [intros x Hx; apply lookup_insert_ne; congruence|exact Her]].
    assert (Hin : p ∈ items_of (uq_store uq i user (kept ++ p :: l)) i user).
    { rewrite items_of_store, decide_True by (exact Hi || (split; reflexivity)). apply elem_of_app. right. left. }
    destruct (uq_sound _ _ _ Hok i user p Hin) as (_ & q' & Hq' & Hidx & _). rewrite Hq in Hq'. injection Hq' as <-.
    pose proof (items_of_wf _ i user (uq_ok_wf _ _ _ Hok)) as Hnd. rewrite items_of_store, decide_True in Hnd by (exact Hi || (split; reflexivity)).
    assert (Hnd' : NoDup (kept ++ l) /\ p ∉ kept ++ l).
    { apply NoDup_app in Hnd as (N1 & N2 & N3). apply NoDup_cons in N3 as [N3 N4]. split.
      - apply NoDup_app. split; [exact N1|]. split; [|exact N4]. intros x Hx Hx'. apply (N2 x Hx). right. exact Hx'.
      - rewrite elem_of_app. intros [H|H]; [apply (N2 p H); left|exact (N3 H)]. }
    apply (uq_ok_drop it _ _ R p q i user _ Hok Hq Hidx).
    + apply (uq_store_again uq i user (kept ++ p :: l)); [exact Hi|apply Hok|apply Hnd'].
    + intros j v x. rewrite !items_of_store by exact Hi. destruct (decide _) as [[-> ->]|Hd].
      * rewrite !elem_of_app, elem_of_cons. split; [intros Hx; split; [tauto|]; intros (-> & _); apply (proj2 Hnd'), elem_of_app, Hx|].
        intros [[H|[H|H]] Hn]; [tauto|exfalso; apply Hn; repeat split; exact H|tauto].
      * split; [|tauto]. intros Hx. split; [exact Hx|]. intros (_ & -> & ->). apply Hd. split; reflexivity.
Qed.

Lemma next_loop_ok hf uq i : (i < length (uq_map uq))%nat -> forall l kept it e r,
  uq_ok it (uq_store uq i user (kept ++ l)) R -> Forall (answers it) l -> e <> SUCCESS ->
  exists found l' it' e' r', next_loop rand user gsp flags hf kept l it e r = Some (found, l', it', e', r') /\
    uq_ok it' (uq_store uq i user l') R /\ (forall x, x ∉ l -> it' !! x = it !! x) /\
    match find (takes it hf) l with
    | Some p => found = true /\ e' = SUCCESS /\ chosen it it' r' p
    | None => found = false /\ e' <> SUCCESS
    end.
Proof using.
  intros Hi. induction l as [|p l IH]; intros kept it e r Hok Ha He.
  - rewrite app_nil_r in Hok. exists false, kept, it, e, r. split; [reflexivity|]. split; [exact Hok|]. split; [reflexivity|]. split; [reflexivity|exact He].
  - pose proof Ha as [Hp Hl]%Forall_cons. destruct (verdict_answers it hf p Hp) as (v & Hv & Hspec). cbn [find]. unfold takes at 1. rewrite Hv.
    assert (Hnd : NoDup (p :: l)).
    { pose proof (items_of_wf _ i user (uq_ok_wf _ _ _ Hok)) as Hnd. rewrite items_of_store, decide_True in Hnd by (exact Hi || (split; reflexivity)).
      apply NoDup_app in Hnd. apply Hnd. }
    apply NoDup_cons in Hnd as [Hpl Hnd].
    assert (Hskip : match v with Block _ _ => False | _ => True end -> exists found l' it' e' r', next_loop rand user gsp flags hf kept (p :: l) it e r = Some (found, l', it', e', r') /\
      uq_ok it' (uq_store uq i user l') R /\ (forall x, x ∉ p :: l -> it' !! x = it !! x) /\
      match find (takes it hf) l with Some p => found = true /\ e' = SUCCESS /\ chosen it it' r' p | None => found = false /\ e' <> SUCCESS end).
    { intros Hb. destruct (next_loop_skip hf uq i kept p l it v Hi Hok Ha Hv Hb e r He) as (kept1 & it1 & e1 & r1 & -> & Hok1 & Hit1 & He1).
      assert (Hsame : forall x, x ∈ l -> it1 !! x = it !! x) by (intros x Hx; apply Hit1; intros ->; contradiction).
      destruct (IH kept1 it1 e1 r1 Hok1) as (found & l' & it' & e' & r' & E & Hok' & Hit' & Hres); [|exact He1|].
      { rewrite Forall_forall in *. intros x Hx. apply (answers_same it); [apply Hsame, Hx|apply Hl, Hx]. }
      rewrite (find_takes_same it it1) in Hres by exact Hsame. exists found, l', it', e', r'. split; [exact E|]. split; [exact Hok'|]. split.
      - intros x Hx. rewrite elem_of_cons in Hx. rewrite Hit' by tauto. apply Hit1. tauto.
      - destruct (find (takes it hf) l) as [x|] eqn:Ef; [|exact Hres]. destruct Hres as (H1 & H2 & H3). repeat split; try assumption.
        apply find_some in Ef as [Hx _]. apply (chosen_same it1); [apply Hsame, list_elem_of_In, Hx|exact H3]. }
    destruct v as [| |seg sf|e1 rm]; [apply Hskip, I|apply Hskip, I| |apply Hskip, I]. clear Hskip.
    destruct Hspec as (q & s & e1 & Hq & Hs & -> & Hseg & Hne). cbn [next_loop]. rewrite Hv, Hq, !option_bind_Some_eq.
    set (add := isAnySet flags FLAG_ADD_SEGMENT && negb (getSize seg =? -1)).
    eexists true, (kept ++ p :: l), (if add then <[p := addDownload_seg q seg]> it else it), SUCCESS,
      (mkQIS (Some p) (if add then seg else mkSeg 0 (-1)) (src_flags s)). split; [destruct add; reflexivity|]. split; [|split].
    + destruct add; [|exact Hok]. apply (uq_ok_change it _ R p q); [exact Hok|exact Hq|]. apply set_downloads_place.
    + intros x Hx. rewrite elem_of_cons in Hx. destruct add; [apply lookup_insert_ne; intros ->; apply Hx; left; reflexivity|reflexivity].
    + split; [reflexivity|]. split; [reflexivity|]. exists q, s, seg, e1. fold add. repeat split; try assumption; destruct add; try reflexivity; [apply lookup_insert_eq|exact Hq].
Qed.

(** The items of the user in the order they are tried. *)
Definition order (uq : UserQueue) (ps : list nat) : list ItemPtr := concat (map (fun i => items_of uq i user) ps).

Lemma elem_of_order uq ps p : p ∈ order uq ps <-> exists i, i ∈ ps /\ p ∈ items_of uq i user.
Proof using.
  unfold order. induction ps as [|i ps IH]; cbn; [rewrite elem_of_nil; split; [intros []|]; intros (i & H%elem_of_nil & _); exact H|].
  rewrite elem_of_app, IH. split.
  - intros [H|(j & Hj & H)]; [exists i; split; [left|exact H]|exists j; split; [right; exact Hj|exact H]].
  - intros (j & [->|Hj]%elem_of_cons & H); [left; exact H|right; exists j; split; assumption].
Qed.

Lemma uq_store_id uq i l : uq_items uq i user = Some l -> l <> [] -> uq_store uq i user l = uq.
Proof using.
  unfold uq_items, uq_store. destruct uq as [m rn]. cbn. intros H Hl. destruct (m !! i) as [mi|] eqn:Hm; [|discriminate]. cbn in H. f_equal.
  apply list_eq. intros j. destruct (decide (j = i)) as [->|Hj]; [|apply list_lookup_alter_ne; congruence].
  rewrite list_lookup_alter_eq, Hm. cbn. rewrite bool_decide_false by exact Hl. rewrite insert_id by exact H. reflexivity.
Qed.

Lemma items_apart it uq i j p : uq_ok it uq R -> p ∈ items_of uq i user -> p ∈ items_of uq j user -> i = j.
Proof using.
  intros Hok H1 H2. destruct (uq_sound _ _ _ Hok i user p H1) as (_ & q & Hq & Hi & _). destruct (uq_sound _ _ _ Hok j user p H2) as (_ & q' & Hq' & Hj & _). congruence.
Qed.

Lemma prio_loop_ok hf ps : NoDup ps -> Forall (fun i => i < Z.to_nat LAST)%nat ps -> forall it uq e r,
  uq_ok it uq R -> Forall (answers it) (order uq ps) -> e <> SUCCESS ->
  exists e' r' it' uq', prio_loop rand user gsp flags hf ps it uq e r = Some (e', r', it', uq') /\
    uq_ok it' uq' R /\ (forall x, x ∉ order uq ps -> it' !! x = it !! x) /\
    match find (takes it hf) (order uq ps) with
    | Some p => e' = SUCCESS /\ chosen it it' r' p
    | None => e' <> SUCCESS
    end.
Proof using.
  induction 1 as [|i ps Hi Hps IH]; intros Hlt it uq e r Hok Ha He; cbn [prio_loop].
  - exists e, r, it, uq. split; [reflexivity|]. split; [exact Hok|]. split; [reflexivity|exact He].
  - apply Forall_cons in Hlt as [Hi8 Hlt]. pose proof (uq_ok_wf _ _ _ Hok) as [Hlen Hls].
    destruct (lookup_lt_is_Some_2 (uq_map uq) i ltac:(lia)) as [m Hm]. rewrite Hm, option_bind_Some_eq.
    assert (Em : m !! user = uq_items uq i user) by (unfold uq_items; rewrite Hm; reflexivity). rewrite Em.
    change (order uq (i :: ps)) with (items_of uq i user ++ order uq ps) in *. apply Forall_app in Ha as [Ha1 Ha2].
    destruct (uq_items uq i user) as [l|] eqn:El.
    2: { assert (items_of uq i user = []) as -> by (unfold items_of; rewrite El; reflexivity). apply IH; assumption. }
    assert (Ei : items_of uq i user = l) by (unfold items_of; rewrite El; reflexivity). rewrite Ei in *.
    destruct (Hls i user l El) as [Hl _]. pose proof (uq_store_id uq i l El Hl) as Eid.
    destruct (next_loop_ok hf uq i ltac:(lia) l [] it e r) as (found & l' & it1 & e1 & r1 & -> & Hok1 & Hit1 & Hres); [cbn; rewrite Eid; exact Hok|exact Ha1|exact He|].
    rewrite option_bind_Some_eq, FileQueue.find_app_or. destruct (find (takes it hf) l) as [p|] eqn:Ef.
    + destruct Hres as (-> & -> & Hch). exists SUCCESS, r1, it1, (uq_store uq i user l'). split; [reflexivity|]. split; [exact Hok1|]. split; [|split; [reflexivity|exact Hch]].
      intros x Hx. apply Hit1. intros Hxl. apply Hx, elem_of_app. left. exact Hxl.
    + destruct Hres as [-> He1].
      assert (Eord : order (uq_store uq i user l') ps = order uq ps).
      { unfold order. f_equal. apply map_ext_in. intros j Hj. rewrite items_of_store by lia. rewrite decide_False; [reflexivity|]. intros [-> _].
        apply Hi, list_elem_of_In, Hj. }
      assert (Hsame : forall x, x ∈ order uq ps -> it1 !! x = it !! x).
      { intros x (j & Hj & Hx)%elem_of_order. apply Hit1. intros Hxl. assert (i = j) as ->; [|contradiction].
        apply (items_apart it uq i j x Hok); [|exact Hx]. rewrite Ei. exact Hxl. }
      destruct (IH Hlt it1 (uq_store uq i user l') e1 r1 Hok1) as (e2 & r2 & it2 & uq2 & E & Hok2 & Hit2 & Hres2); [|exact He1|].
      { rewrite Eord. rewrite Forall_forall in *. intros x Hx. apply (answers_same it); [apply Hsame, Hx|apply Ha2, Hx]. }
      rewrite Eord in Hit2, Hres2. rewrite (find_takes_same it it1) in Hres2 by exact Hsame. exists e2, r2, it2, uq2. split; [exact E|]. split; [exact Hok2|]. split.
      * intros x Hx. rewrite elem_of_app in Hx. rewrite Hit2 by tauto. apply Hit1. tauto.
      * destruct (find (takes it hf) (order uq ps)) as [p|] eqn:Ef2; [|exact Hres2]. destruct Hres2 as [H1 H2]. split; [exact H1|].
        apply find_some in Ef2 as [Hp _]. apply (chosen_same it1); [apply Hsame, list_elem_of_In, Hp|exact H2].
Qed.
End NextFacts.

(** A file with a missing byte is not finished. *)
Lemma missing_unfinished q : (exists x, 0 <= x < qi_size q /\ ~ covered x (qi_doneSegments q)) -> isFinished q = false.
Proof.
  intros (x & Hx & Hn). unfold isFinished. destruct (qi_doneSegments q) as [|s [|]]; [reflexivity| |reflexivity].
  apply not_true_iff_false. intros H. apply Hn. apply Exists_cons_hd. zb. seg_unfold. lia.
Qed.

Lemma getNextL_first rand fileSlots user gsp flags R it uq minPrio n :
  uq_ok it uq R -> prio_index minPrio = Some n ->
  let ps := rev (seq n (Z.to_nat LAST - n)) in
  let hasFreeSlots := (fileSlots =? 0) || (getRunningCount uq <? fileSlots) in
  Forall (answers rand user gsp it) (order user uq ps) ->
  exists e r it' uq', uq_getNextL rand fileSlots user gsp flags it uq minPrio = Some (e, r, it', uq') /\ uq_ok it' uq' R /\
    match find (takes rand user gsp flags it hasFreeSlots) (order user uq ps) with
    | Some p => e = SUCCESS /\ chosen rand user gsp flags it it' r p
    | None => e <> SUCCESS
    end.
Proof.
  intros Hok Hn ps hf Ha. unfold uq_getNextL. rewrite Hn, option_bind_Some_eq. fold hf.
  destruct (prio_loop_ok rand user gsp flags R hf ps) with (it := it) (uq := uq) (e := ERROR_NO_ITEM) (r := mkQIS None (mkSeg 0 (-1)) 0)
    as (e & r & it' & uq' & E & Hok' & _ & Hres); [| |exact Hok|exact Ha|discriminate|exists e, r, it', uq'; split; [exact E|split; [exact Hok'|exact Hres]]].
  - apply NoDup_ListNoDup, NoDup_rev, seq_NoDup.
  - apply Forall_forall. intros i Hi. unfold ps in Hi. apply list_elem_of_In, in_rev, in_seq in Hi. pose proof (prio_index_lt _ _ Hn). lia.
Qed.

Lemma UserQueue_new_ok it : uq_ok it UserQueue_new (fun _ => False).
Proof.
  assert (forall i u, uq_items UserQueue_new i u = None) as H.
  { intros i u. unfold uq_items, UserQueue_new. cbn [uq_map]. destruct (replicate _ _ !! i) as [m|] eqn:E; [|reflexivity]. apply lookup_replicate in E as [-> _]. apply lookup_empty. }
  split; [split; [reflexivity|]| |].
  - intros i u l. rewrite H. discriminate.
  - intros i u p. unfold items_of. rewrite H. intros Hp%elem_of_nil. destruct Hp.
  - intros p q u [].
Qed.

(** A queue with one item, and one user who has it. *)
Definition sample_items : Items := <[1%positive := set_prioQueue sample_sources NORMAL]> ∅.
Definition sample_users : UserQueue := uq_store UserQueue_new 4 1%positive [1%positive].

Lemma sample_users_ok : uq_ok sample_items sample_users (fun x => x = 1%positive).
Proof.
  destruct (uq_addL_ok (<[1%positive := sample_sources]> ∅) UserQueue_new (fun _ => False) 1%positive sample_sources NORMAL) as (uq' & E & Hok & _);
    [apply UserQueue_new_ok|tauto|reflexivity|discriminate|].
  assert (uq' = sample_users) as -> by (vm_compute in E; injection E as <-; reflexivity). rewrite insert_insert_eq in Hok.
  apply (uq_ok_registered _ _ _ _ Hok). tauto.
Qed.

Lemma sample_item_ok : item_ok (set_prioQueue sample_sources NORMAL).
Proof.
  split; [|split; [cbn; lia|right; reflexivity]]. split; [|reflexivity]. split; [exact sample_qi_ok|]. split; [|cbn; lia].
  split; [apply map_disjoint_empty_r|cbn; lia].
Qed.

(** *** Which item the user gets *)

Section Offers.
Context (rand : ItemPtr -> Z) (user : UserPtr) (gsp : GetSegmentParams) (flags : Z) (it : Items).

(** A list of files, or an item that is there only for the address of a user. *)
Definition list_item (q : QueueItem) : Prop := Z.testbit (qi_flags q) 0 = true \/ Z.testbit (qi_flags q) 4 = true.

(** What makes an item one that the user is given, read off the item: the user is a source of it; if it is a
    file and nothing of it is running a file slot is free; if something of it is running it is no list, its size is
    known and it may be loaded in segments; and there is a block for the source. *)
Definition offered (slotFree : bool) (p : ItemPtr) : Prop :=
  exists q s seg e, it !! p = Some q /\ qi_sources q !! user = Some s /\
    (qi_downloads q = [] -> list_item q \/ slotFree = true) /\
    (qi_downloads q <> [] -> ~ list_item q /\ qi_size q <> -1 /\ Z.testbit (qi_extraFlags q) 10 = true) /\
    getNextSegmentL q gsp (src_partial s) (rand p) = Some (seg, e) /\ getSize seg <> 0.

Lemma list_item_flags q : isAnySet (qi_flags q) (Z.lor FLAG_USER_LIST FLAG_USER_GET_IP) = true <-> list_item q.
Proof using.
  unfold list_item. pose proof (list_flags_bits (qi_flags q)) as H. destruct (isAnySet _ _).
  - split; [intros _|reflexivity]. destruct (Z.testbit (qi_flags q) 0); [left; reflexivity|]. destruct (Z.testbit (qi_flags q) 4); [right; reflexivity|].
    destruct H as [_ H]. specialize (H (conj eq_refl eq_refl)). discriminate.
  - destruct H as [H _]. destruct (H eq_refl) as [-> ->]. split; [discriminate|intros [?|?]; discriminate].
Qed.

Lemma segments_flag f : isAnySet f XFLAG_ALLOW_SEGMENTS = Z.testbit f 10.
Proof using.
  unfold isAnySet. change XFLAG_ALLOW_SEGMENTS with (2 ^ 10). destruct (Z.testbit f 10) eqn:E.
  - apply negb_true_iff, Z.eqb_neq. intros H. apply (f_equal (fun z => Z.testbit z 10)) in H. rewrite Z.land_spec, E in H. discriminate.
  - apply negb_false_iff, Z.eqb_eq, Z.bits_inj'. intros n Hn. rewrite Z.land_spec, Z.bits_0. destruct (decide (n = 10)) as [->|]; [rewrite E; reflexivity|].
    rewrite Z.pow2_bits_false by lia. apply andb_false_r.
Qed.

Lemma takes_offered slotFree p : takes rand user gsp flags it slotFree p = true <-> offered slotFree p.
Proof using.
  unfold takes, next_verdict, offered. destruct (it !! p) as [q|] eqn:Hq; [|split; [discriminate|intros (q & ? & ? & ? & ? & _); discriminate]].
  rewrite option_bind_Some_eq. destruct (qi_sources q !! user) as [s|] eqn:Hs; [|split; [discriminate|intros (q' & ? & ? & ? & [= <-] & ? & _); congruence]].
  pose proof (list_item_flags q) as Hl. rewrite segments_flag. set (lst := isAnySet (qi_flags q) _) in *. unfold isWaiting.
  destruct (getNextSegmentL q gsp (src_partial s) (rand p)) as [[seg e]|] eqn:Eg.
  - rewrite option_bind_Some_eq. transitivity ((qi_downloads q = [] -> list_item q \/ slotFree = true) /\
      (qi_downloads q <> [] -> ~ list_item q /\ qi_size q <> -1 /\ Z.testbit (qi_extraFlags q) 10 = true) /\ getSize seg <> 0).
    + rewrite <- Hl. destruct (Z.eqb_spec (qi_size q) (-1)), (Z.eqb_spec (getSize seg) 0), (Z.testbit (qi_extraFlags q) 10), lst, slotFree;
        destruct (bool_decide_reflect (qi_downloads q = [])); cbn; intuition congruence.
    + split; [intros (H1 & H2 & H3); exists q, s, seg, e; auto 6|].
      intros (q' & s' & seg' & e' & E1 & E2 & H1 & H2 & E3 & H3). simplify_eq. auto.
  - split; [|intros (q' & s' & seg' & e' & E1 & E2 & _ & _ & E3 & _); simplify_eq].
    destruct (bool_decide _ && _ && _); [discriminate|]. destruct (negb _ && _); discriminate.
Qed.

(** An item that [getNextSegmentL] works on: the invariant of its segments, a known or unknown size; the parts of a
    partial source are pairs of blocks inside the file, few enough that the draw of one is defined; in single-chunk mode the item is
    not finished and its done segments are on block boundaries. *)
Definition item_ready (p : ItemPtr) : Prop :=
  exists q, it !! p = Some q /\ item_ok q /\ (enableMultiChunk gsp = false -> single_ready q) /\
    forall s, qi_sources q !! user = Some s -> source_ok q (src_partial s) /\
      (is_Some (src_partial s) -> is_Some (getNextSegmentL q gsp (src_partial s) (rand p))).

Lemma item_ready_answers p : maxChunkSize gsp < 2 ^ 31 -> item_ready p -> answers rand user gsp it p.
Proof using.
  intros Hmax (q & Hq & Hqok & Hsingle & Hs). exists q. split; [exact Hq|]. intros s Es. destruct (Hs s Es) as [Hps Hret].
  pose proof Hqok as ([(Hok & _) Hlt] & Hbs & Hsz).
  assert (is_Some (getNextSegmentL q gsp (src_partial s) (rand p))) as [[seg e] E].
  { destruct (src_partial s) as [ps|]; [apply Hret; eauto|]. apply full_source_answer; assumption. }
  exists seg, e. split; [exact E|]. intros Hz ->. exact (success_block q gsp _ _ _ Hok ltac:(lia) Hbs Hmax Hsingle Hps E Hz).
Qed.
End Offers.

(** The first item of the user that is offered. *)
Lemma getNextL_offered rand fileSlots user gsp flags R it uq minPrio n :
  uq_ok it uq R -> prio_index minPrio = Some n -> maxChunkSize gsp < 2 ^ 31 ->
  let tried := order user uq (rev (seq n (Z.to_nat LAST - n))) in
  let slotFree := (fileSlots =? 0) || (getRunningCount uq <? fileSlots) in
  Forall (item_ready rand user gsp it) tried ->
  exists e r it' uq', uq_getNextL rand fileSlots user gsp flags it uq minPrio = Some (e, r, it', uq') /\ uq_ok it' uq' R /\
    ((exists before p after, tried = before ++ p :: after /\ Forall (fun p' => ~ offered rand user gsp it slotFree p') before /\
        offered rand user gsp it slotFree p /\ e = SUCCESS /\ chosen rand user gsp flags it it' r p) \/
     (Forall (fun p' => ~ offered rand user gsp it slotFree p') tried /\ e <> SUCCESS)).
Proof.
  intros Hok Hn Hmax tried slotFree Hr.
  assert (Forall (answers rand user gsp it) tried) as Ha by (eapply Forall_impl; [exact Hr|]; intros p; apply item_ready_answers, Hmax).
  destruct (getNextL_first rand fileSlots user gsp flags R it uq minPrio n Hok Hn Ha) as (e & r & it' & uq' & E & Hok' & Hres).
  exists e, r, it', uq'. split; [exact E|]. split; [exact Hok'|]. fold slotFree tried in Hres. destruct (find _ tried) as [p|] eqn:Ef.
  - left. destruct (find_first _ _ _ Ef) as (l1 & l2 & El & Hp & Hl1). exists l1, p, l2. split; [exact El|]. split; [|split; [apply (takes_offered _ _ _ flags), Hp|exact Hres]].
    apply Forall_forall. intros p' Hp' H. apply (takes_offered _ _ _ flags) in H. rewrite (Hl1 p' Hp') in H. discriminate.
  - right. split; [|exact Hres]. apply Forall_forall. intros p Hp H. apply (takes_offered _ _ _ flags) in H.
    rewrite (find_none _ _ Ef p) in H by apply list_elem_of_In, Hp. discriminate.
Qed.

Lemma sample_ready gsp rand : enableMultiChunk gsp = true ->
  Forall (item_ready rand 1%positive gsp sample_items) (order 1%positive sample_users (rev (seq 1 7))).
Proof.
  intros H. change (order _ _ _) with [1%positive]. constructor; [|constructor].
  exists (set_prioQueue sample_sources NORMAL). split; [reflexivity|]. split; [apply sample_item_ok|]. split; [congruence|].
  intros s [= <-]. split; [exact I|]. intros [? ?]. discriminate.
Qed.

(** C6.  [getNextL] keeps the lists in step with the items and answers for the first item, from the highest
    priority down to the one asked for and in the order of each list, that the user can be given: the user is a source
    of it; if nothing of it is running, it is a list or a file slot is free; if something is
    running, it is a file of known size that may be loaded in segments; and [getNextSegmentL] has a
    block for the source.  It returns that item with [SUCCESS], the flags of the source and the
    block, which is added to the running segments if asked for.  It fails exactly when no item of
    the user is such.  This is for a largest chunk below 2 GiB and lists whose items satisfy the invariant of the
    segments, with positive block sizes and sizes that are -1 or positive; the parts of partial
    sources are pairs of blocks inside the file, and the draw among the parts found (fewer than
    2^32) is defined; in single-chunk mode the items are not finished and their done segments are on block
    boundaries (a finished item would be answered with [SUCCESS] and no block). *)
Theorem getNextL_correct rand fileSlots user gsp flags R it uq minPrio n :
  uq_ok it uq R -> prio_index minPrio = Some n -> maxChunkSize gsp < 2 ^ 31 ->
  let tried := order user uq (rev (seq n (Z.to_nat LAST - n))) in
  let slotFree := (fileSlots =? 0) || (getRunningCount uq <? fileSlots) in
  Forall (item_ready rand user gsp it) tried ->
  exists e r it' uq', uq_getNextL rand fileSlots user gsp flags it uq minPrio = Some (e, r, it', uq') /\ uq_ok it' uq' R /\
    ((exists before p after, tried = before ++ p :: after /\ Forall (fun p' => ~ offered rand user gsp it slotFree p') before /\
        offered rand user gsp it slotFree p /\ e = SUCCESS /\ chosen rand user gsp flags it it' r p) \/
     (Forall (fun p' => ~ offered rand user gsp it slotFree p') tried /\ e <> SUCCESS)).
Proof. apply getNextL_offered. Qed.

Lemma getNextL_correct_witness :
  exists e r it' uq', uq_getNextL (fun _ => 0) 5 1%positive sample_gsp FLAG_ADD_SEGMENT sample_items sample_users LOWEST = Some (e, r, it', uq') /\
    uq_ok it' uq' (fun x => x = 1%positive) /\ e = SUCCESS /\ chosen (fun _ => 0) 1%positive sample_gsp FLAG_ADD_SEGMENT sample_items it' r 1%positive.
Proof.
  destruct (getNextL_correct (fun _ => 0) 5 1%positive sample_gsp FLAG_ADD_SEGMENT (fun x => x = 1%positive) sample_items sample_users LOWEST 1
    sample_users_ok eq_refl eq_refl (sample_ready sample_gsp (fun _ => 0) eq_refl)) as (e & r & it' & uq' & E & Hok & [H|[_ H]]).
  - exists e, r, it', uq'. split; [exact E|]. split; [exact Hok|]. destruct H as (b & p & a & El & _ & _ & He & Hc). split; [exact He|].
    assert (Ho : order 1%positive sample_users (rev (seq 1 (Z.to_nat LAST - 1))) = [1%positive]) by (vm_compute; reflexivity). rewrite Ho in El.
    assert (p ∈ [1%positive]) as ->%list_elem_of_singleton by (rewrite El; apply elem_of_app; right; left). exact Hc.
  - exfalso. apply H. vm_compute in E. congruence.
Defined.

(** C7.  Progress: a user who is a full source of a registered file of known size that is not finished and has nothing
    running, of at least the priority asked for, is given a block, of this or of another registered item, as
    long as a file slot is free; no item is lost between the queue by target and the queue by user.  The items
    tried satisfy [item_ready] (as for [getNextL_correct]), and the largest chunk is below 2 GiB; with the setting not to begin segments above a speed, the average speed the
    item keeps must not be above it. *)
Theorem getNextL_progress rand fileSlots user gsp flags R it uq minPrio n p q s i :
  uq_ok it uq R -> prio_index minPrio = Some n -> maxChunkSize gsp < 2 ^ 31 ->
  Forall (item_ready rand user gsp it) (order user uq (rev (seq n (Z.to_nat LAST - n)))) ->
  fileSlots = 0 \/ getRunningCount uq < fileSlots ->
  (enableMultiChunk gsp = true -> dontBeginSegment gsp = true -> qi_averageSpeed q <= dontBeginSegSpeed gsp * 1024) ->
  R p -> it !! p = Some q -> 0 < qi_size q -> qi_downloads q = [] ->
  (exists x, 0 <= x < qi_size q /\ ~ covered x (qi_doneSegments q)) ->
  qi_sources q !! user = Some s -> src_partial s = None -> prio_index (qi_prioQueue q) = Some i -> (n <= i)%nat ->
  exists p' r it' uq', uq_getNextL rand fileSlots user gsp flags it uq minPrio = Some (SUCCESS, r, it', uq') /\
    qs_qi r = Some p' /\ R p' /\ uq_ok it' uq' R.
Proof.
  intros Hok Hn Hmax Hr Hslot Hspeed HR Hq Hsz Hidle Hx Hs Hps Hi Hni.
  destruct (getNextL_offered rand fileSlots user gsp flags R it uq minPrio n Hok Hn Hmax Hr) as (e & r & it' & uq' & E & Hok' & Hres).
  set (tried := order user uq _) in *.
  pose proof (missing_unfinished q Hx) as Hnf. assert (Hin : p ∈ tried).
  { apply elem_of_order. exists i. split; [apply list_elem_of_In; rewrite <- in_rev; apply in_seq; pose proof (prio_index_lt _ _ Hi); lia|].
    destruct (uq_complete _ _ _ Hok p q user HR Hq Hnf) as (j & Hj & H); [rewrite Hs; eauto|]. congruence. }
  pose proof Hr as Hr'. rewrite Forall_forall in Hr'. destruct (Hr' p Hin) as (q0 & Hq0 & ([Hinv Hlt] & Hbs & _) & Hsingle & _).
  rewrite Hq in Hq0. injection Hq0 as <-.
  assert (Hfree : (fileSlots =? 0) || (getRunningCount uq <? fileSlots) = true) by (apply orb_true_iff; rewrite Z.eqb_eq, Z.ltb_lt; exact Hslot).
  assert (Ho : offered rand user gsp it true p).
  { destruct (idle_block q gsp (rand p) Hinv ltac:(lia) Hbs Hmax Hspeed Hsingle Hidle Hnf) as (seg & Eg & Hpos).
    exists q, s, seg, SUCCESS. rewrite Hps. split_and!; try assumption; [right; reflexivity|contradiction|lia]. }
  rewrite Hfree in Hres. destruct Hres as [(b & p' & a & El & _ & _ & -> & q' & s' & seg & e' & _ & _ & _ & _ & -> & _)|[Hno _]].
  - exists p', (mkQIS (Some p') (if isAnySet flags FLAG_ADD_SEGMENT && negb (getSize seg =? -1) then seg else mkSeg 0 (-1)) (src_flags s')), it', uq'.
    split; [exact E|]. split; [reflexivity|]. split; [|exact Hok'].
    assert (Hp' : p' ∈ tried) by (rewrite El; apply elem_of_app; right; left). apply elem_of_order in Hp' as (j & _ & Hp'). apply (uq_sound _ _ _ Hok j user p' Hp').
  - exfalso. rewrite Forall_forall in Hno. exact (Hno p Hin Ho).
Qed.

Lemma getNextL_progress_witness :
  exists p' r it' uq', uq_getNextL (fun _ => 0) 5 1%positive sample_gsp FLAG_ADD_SEGMENT sample_items sample_users LOWEST = Some (SUCCESS, r, it', uq') /\
    qs_qi r = Some p' /\ p' = 1%positive /\ uq_ok it' uq' (fun x => x = 1%positive).
Proof.
  apply (getNextL_progress (fun _ => 0) 5 1%positive sample_gsp FLAG_ADD_SEGMENT (fun x => x = 1%positive) sample_items sample_users LOWEST 1
    1%positive (set_prioQueue sample_sources NORMAL) (mkSource 0x100 None) 4
    sample_users_ok eq_refl eq_refl (sample_ready sample_gsp (fun _ => 0) eq_refl)); try reflexivity; try lia.
  - right. reflexivity.
  - exists 65536. split; [cbn; lia|]. apply (bool_decide_unpack (~ covered 65536 (qi_doneSegments (set_prioQueue sample_sources NORMAL)))). vm_compute. exact I.
Defined.
