(* ===== verification/QueueManager.v ===== *)
(** * The download queue: [client/QueueManager.h], [client/QueueManager.cpp]

    The operations that change the queue, over both indexes ([FileQueue], [UserQueue]), the items
    ([QueueItem]) and the downloads.  An operation takes and returns the state; what it does to the
    rest of the program (listeners, connections, uploads, files) is appended to the list of
    events, in order.  Settings, the clock and answers of the file system and of the database of
    trees are arguments.  [None] is undefined behaviour: a pointer to nothing, an index outside
    [userQueueMap], [begin()] of an empty map, a remainder by zero.  The program is not shutting
    down, so that listeners are told.

    Saving and loading the queue is in [QueueXml], the check of a target in [PathUtil].  Not here:
    [add] with its checks of the file that exists, file lists and directories, [processList], the moving of finished files and the timers. *)

From S2P Require Import Prelude HashValue Segment SegmentSet MerkleTree SpeedCalc Download QueueItem NextSegment PartsInfo Text FileQueue UserQueue.

(** [class DirectoryItem], the fields the operations below look at. *)
Record DirectoryItem := mkDirItem { di_name : list Z; di_flags : Z }.

(** What is done outside the queue. *)
Inductive Event :=
  | Removed (p : ItemPtr)
  | RemovedArray (l : list ItemPtr)
  | StatusUpdated (p : ItemPtr)
  | Moved (qs qt : ItemPtr)
  | Finished (p : ItemPtr) (dir : list Z) (d : DownloadPtr)
  | UserCheckFailure (user : UserPtr)
  | GetDownloadConnection (user : UserPtr)
  | Disconnect (user : UserPtr)
  | AbortDownload (target : list Z)
  | AbortUpload (path : list Z)
  | DownloadCanceled (tth : list Z)
  | DeleteFile (path : list Z)
  | MoveFile (source target : list Z)
  | AddTree (d : DownloadPtr)
  | FileDownloaded (tth : list Z) (size : Z) (path : list Z)
  | AddDclstFile (target : list Z)
  | PartialList (user : UserPtr) (buffer : list Z)
  | UserCheckDone (user : UserPtr)
  | ProcessList (fileName : list Z) (user : UserPtr) (flags : Z) (dir : option DirectoryItem)
  | AddList (user : UserPtr) (flags : Z).

(** [stricmp(a, b) == 0]. *)
Definition stricmp_eq (a b : list Z) : bool := bool_decide (asciiMakeLower a = asciiMakeLower b).

Section QueueManager.
Context (W : WChar) (lower : list Z -> list Z) {Regex : Type}.

Record QueueManager := mkManager {
  m_items : Items;
  m_downloads : Downloads;
  m_files : @FileQueue Regex;
  m_users : UserQueue;
  m_directories : gmap UserPtr (list DirectoryItem);
  m_dirty : bool;
  m_sourceAdded : bool;
  m_batchCounter : Z;
  m_batchRemove : list ItemPtr;
  m_events : list Event
}.

Definition with_items (m : QueueManager) (it : Items) : QueueManager :=
  mkManager it (m_downloads m) (m_files m) (m_users m) (m_directories m) (m_dirty m) (m_sourceAdded m) (m_batchCounter m) (m_batchRemove m) (m_events m).
Definition with_downloads (m : QueueManager) (h : Downloads) : QueueManager :=
  mkManager (m_items m) h (m_files m) (m_users m) (m_directories m) (m_dirty m) (m_sourceAdded m) (m_batchCounter m) (m_batchRemove m) (m_events m).
Definition with_files (m : QueueManager) (it : Items) (fq : FileQueue) : QueueManager :=
  mkManager it (m_downloads m) fq (m_users m) (m_directories m) (m_dirty m) (m_sourceAdded m) (m_batchCounter m) (m_batchRemove m) (m_events m).
Definition with_users (m : QueueManager) (it : Items) (uq : UserQueue) : QueueManager :=
  mkManager it (m_downloads m) (m_files m) uq (m_directories m) (m_dirty m) (m_sourceAdded m) (m_batchCounter m) (m_batchRemove m) (m_events m).
Definition with_directories (m : QueueManager) d : QueueManager :=
  mkManager (m_items m) (m_downloads m) (m_files m) (m_users m) d (m_dirty m) (m_sourceAdded m) (m_batchCounter m) (m_batchRemove m) (m_events m).
Definition setDirty (m : QueueManager) : QueueManager :=
  mkManager (m_items m) (m_downloads m) (m_files m) (m_users m) (m_directories m) true (m_sourceAdded m) (m_batchCounter m) (m_batchRemove m) (m_events m).
Definition with_sourceAdded (m : QueueManager) : QueueManager :=
  mkManager (m_items m) (m_downloads m) (m_files m) (m_users m) (m_directories m) (m_dirty m) true (m_batchCounter m) (m_batchRemove m) (m_events m).
Definition with_batch (m : QueueManager) (n : Z) (l : list ItemPtr) : QueueManager :=
  mkManager (m_items m) (m_downloads m) (m_files m) (m_users m) (m_directories m) (m_dirty m) (m_sourceAdded m) n l (m_events m).
Definition fire (m : QueueManager) (l : list Event) : QueueManager :=
  mkManager (m_items m) (m_downloads m) (m_files m) (m_users m) (m_directories m) (m_dirty m) (m_sourceAdded m) (m_batchCounter m) (m_batchRemove m) (m_events m ++ l).

Definition set_item (m : QueueManager) (p : ItemPtr) (q : QueueItem) : QueueManager := with_items m (<[p := q]> (m_items m)).

Definition is_list (q : QueueItem) : bool := isAnySet (qi_flags q) (Z.lor FLAG_USER_LIST FLAG_USER_GET_IP).

Definition findTarget (m : QueueManager) (target : list Z) : option ItemPtr := fq_findTarget W lower (m_files m) target.

(** ** Sources *)

(** [addSourceL] throws a [QueueException] or answers whether to connect to the user. *)
Inductive AddSource := DUPLICATE_SOURCE | SourceAdded (wantConnection : bool).

Definition m_addSourceL (m : QueueManager) (p : ItemPtr) (user : UserPtr) (addBad : Z) : option (AddSource * QueueManager) :=
  q ← m_items m !! p;
  let prio := qi_priority q in
  let wantConnection := negb (bool_decide (prio = PAUSED)) && bool_decide (getRunning (m_users m) user = None) in
  if isSourceL q user then
    Some (if is_list q then SourceAdded wantConnection else DUPLICATE_SOURCE, m)
  else if isBadSourceExceptL q user addBad then Some (DUPLICATE_SOURCE, m)
  else
    let q := addSourceL q user in
    if isFinished q then Some (SourceAdded false, setDirty (set_item m p q))
    else
      let m := if is_list q then m else with_sourceAdded m in
      let q := if bool_decide (qi_prioQueue q = DEFAULT) then set_prioQueue q prio else q in
      let m := set_item m p q in
      uq ← uq_addL_user (m_items m) (m_users m) p (qi_prioQueue q) user;
      Some (SourceAdded wantConnection, setDirty (with_users m (m_items m) uq)).

(** ** Removing items *)

Definition startBatch (m : QueueManager) : QueueManager := with_batch m (m_batchCounter m + 1) (m_batchRemove m).

(** Items added in a batch are only collected for the listeners and left out. *)
Definition endBatch (m : QueueManager) : QueueManager :=
  let n := Z.max 0 (m_batchCounter m - 1) in
  if n =? 0 then
    let removed := m_batchRemove m in
    fire (with_batch m n []) (if bool_decide (removed = []) then [] else [RemovedArray removed])
  else with_batch m n (m_batchRemove m).

Definition removeItem (m : QueueManager) (p : ItemPtr) (removeFromUserQueue : bool) : option QueueManager :=
  q ← m_items m !! p;
  m ← (if removeFromUserQueue then
         let m := if isAnySet (qi_flags q) FLAG_USER_CHECK
                  then match getFirstSource q with Some user => fire m [UserCheckFailure user] | None => m end else m in
         '(it, uq) ← uq_removeQueueItem (m_downloads m) (m_items m) (m_users m) p;
         Some (with_users m it uq)
       else Some m);
  '(it, fq) ← fq_remove W lower (m_items m) (m_files m) p;
  let m := with_files m it fq in
  Some (if negb (m_batchCounter m =? 0) then with_batch m (m_batchCounter m) (m_batchRemove m ++ [p]) else fire m [Removed p]).

(** The directory waiting for a list is dropped: the first one with the name of a partial list, or all of
    the user. *)
Fixpoint erase_directory (name : list Z) (l : list DirectoryItem) : list DirectoryItem :=
  match l with [] => [] | d :: l => if stricmp_eq name (di_name d) then l else d :: erase_directory name l end.

Definition forget_directory (m : QueueManager) (q : QueueItem) : option QueueManager :=
  if isAnySet (qi_extraFlags q) (Z.lor XFLAG_MATCH_QUEUE XFLAG_DOWNLOAD_DIR) then
    user ← getFirstSource q;
    Some (with_directories m
      (if isAnySet (qi_flags q) FLAG_PARTIAL_LIST
       then alter (erase_directory (qi_tempTarget q)) user (m_directories m)
       else delete user (m_directories m)))
  else Some m.

(** [fileExists] is what [File::isExist] says about the temporary file. *)
Definition removeTarget (m : QueueManager) (target : list Z) (fileExists : bool) : option (bool * QueueManager) :=
  match findTarget m target with
  | None => Some (false, m)
  | Some p =>
      q ← m_items m !! p;
      let tempTarget := qi_tempTarget q in
      m ← forget_directory m q;
      let m := if negb (HashValue_isZero (qi_tthRoot q)) && negb (isUserList q) then fire m [DownloadCanceled (qi_tthRoot q)] else m in
      let hasTemp := negb (isAnySet (qi_flags q) FLAG_USER_LIST) && negb (bool_decide (tempTarget = [])) in
      let m := if hasTemp then fire m [AbortUpload tempTarget] else m in
      let x := if isRunning q then getUsers (m_downloads m) q [] else [] in
      let m := if negb (isRunning q) && hasTemp && negb (bool_decide (tempTarget = qi_target q)) && fileExists then fire m [DeleteFile tempTarget] else m in
      let m := set_item m p (changeExtraFlags q XFLAG_REMOVED XFLAG_REMOVED) in
      m ← removeItem m p true;
      Some (true, fire (setDirty m) (map Disconnect x))
  end.

(** ** Removing sources *)

Definition setSourceFlag (q : QueueItem) (user : UserPtr) (flag : Z) : QueueItem :=
  set_sources q (qi_sourcesVersion q) (alter (fun s => mkSource (setFlag (src_flags s) flag) (src_partial s)) user (qi_sources q))
    (qi_badSources q) (qi_prioQueue q).

Definition removeSource (m : QueueManager) (target : list Z) (user : UserPtr) (reason : Z) (removeConn fileExists : bool) : option QueueManager :=
  match findTarget m target with
  | None => Some m
  | Some p =>
      q ← m_items m !! p;
      if negb (isSourceL q user) then Some m
      else
        let q := if reason =? SRC_FLAG_NO_TREE then setSourceFlag q user reason else q in
        let m := set_item m p q in
        if is_list q then snd <$> removeTarget m target fileExists
        else
          let running := isRunning q && bool_decide (getRunning (m_users m) user = Some p) in
          m ← (if running then '(it, uq) ← uq_removeDownload (m_downloads m) (m_items m) (m_users m) p user; Some (with_users m it uq) else Some m);
          '(it, uq) ← uq_removeUserL (m_downloads m) (m_items m) (m_users m) p user true;
          q ← it !! p;
          let m := setDirty (with_users m (<[p := removeSourceL q user reason]> it) uq) in
          Some (if running && removeConn then fire m [Disconnect user] else m)
  end.

(** [for (QueueItemPtr& qi : ql)]: the items of a list lose the source; the targets to remove, and
    [dirty]. *)
Fixpoint drop_source (it : Items) (l : list ItemPtr) (user : UserPtr) (reason : Z) (targets : list (list Z)) (dirty : bool)
    : option (Items * list (list Z) * bool) :=
  match l with
  | [] => Some (it, targets, dirty)
  | p :: l =>
      q ← it !! p;
      let it := <[p := removeSourceL q user reason]> it in
      if isAnySet (qi_flags q) FLAG_USER_LIST then drop_source it l user reason (targets ++ [qi_target q]) dirty
      else drop_source it l user reason targets true
  end.

Fixpoint drop_lists (ps : list nat) (it : Items) (uq : UserQueue) (user : UserPtr) (reason : Z) (targets : list (list Z)) (dirty : bool)
    : option (Items * UserQueue * list (list Z) * bool) :=
  match ps with
  | [] => Some (it, uq, targets, dirty)
  | i :: ps =>
      match uq_items uq i user with
      | None => drop_lists ps it uq user reason targets dirty
      | Some l =>
          '(it, targets, dirty) ← drop_source it l user reason targets dirty;
          drop_lists ps it (uq_store uq i user []) user reason targets dirty
      end
  end.

Definition removeSource_user (m : QueueManager) (user : UserPtr) (reason : Z) (fileExists : bool) : option QueueManager :=
  '(it, uq, targets, dirty) ← drop_lists (rev (seq 0 (Z.to_nat LAST))) (m_items m) (m_users m) user reason [] false;
  let m := with_users m it uq in
  '(m, dirty) ←
    match getRunning (m_users m) user with
    | Some p =>
        q ← m_items m !! p;
        if negb (isAnySet (qi_flags q) FLAG_USER_LIST) then
          '(it, uq) ← uq_removeDownload (m_downloads m) (m_items m) (m_users m) p user;
          Some (fire (with_users m it uq) [StatusUpdated p; Disconnect user], true)
        else Some (m, dirty)
    | None => Some (m, dirty)
    end;
  m ← foldl (fun m target => m ← m; snd <$> removeTarget m target fileExists) (Some m) targets;
  Some (if dirty : bool then setDirty m else m).

(** ** Priorities *)

Definition setPriority (isOnline : UserPtr -> bool) (m : QueueManager) (target : list Z) (prio : Priority) (resetAutoPriority : bool) : option QueueManager :=
  match findTarget m target with
  | None => Some m
  | Some p =>
      q ← m_items m !! p;
      let reset := resetAutoPriority && isAnySet (qi_extraFlags q) XFLAG_AUTO_PRIORITY in
      let m := if reset then set_item m p (setExtraFlags q (Z.land (qi_extraFlags q) (u16 (Z.lnot XFLAG_AUTO_PRIORITY)))) else m in
      let change := negb (bool_decide (qi_priority q = prio)) && negb (isFinished q) in
      let getConn := if change && (bool_decide (qi_priority q = PAUSED) || bool_decide (prio = HIGHEST)) then getOnlineUsers isOnline q [] else [] in
      m ← (if change then '(it, uq) ← uq_setQIPriority (m_downloads m) (m_items m) (m_users m) p prio; Some (with_users m it uq) else Some m);
      let m := if reset || change then fire (setDirty m) [StatusUpdated p] else m in
      Some (fire m (if bool_decide (prio = PAUSED) then (if change && isRunning q then [AbortDownload target] else [])
                    else map GetDownloadConnection getConn))
  end.

Definition setAutoPriority (isOnline : UserPtr -> bool) (m : QueueManager) (target : list Z) (ap : bool) : option QueueManager :=
  match findTarget m target with
  | None => Some m
  | Some p =>
      q ← m_items m !! p;
      let oldFlags := qi_extraFlags q in
      let newFlags := if ap then Z.lor oldFlags XFLAG_AUTO_PRIORITY else Z.land oldFlags (u16 (Z.lnot XFLAG_AUTO_PRIORITY)) in
      if negb (newFlags =? oldFlags) then
        let q := setExtraFlags q newFlags in
        prio ← (if ap then calculateAutoPriorityL q else Some DEFAULT);
        let m := fire (setDirty (set_item m p q)) [StatusUpdated p] in
        if ap then setPriority isOnline m (qi_target q) prio false else Some m
      else Some m
  end.

(** [move]; [target] is the validated new name, [ptr] the new object. *)
Definition m_move (m : QueueManager) (source target : list Z) (ptr : ItemPtr) (fileExists : bool) : option QueueManager :=
  if bool_decide (source = target) then Some m
  else
    match findTarget m source with
    | None => Some m
    | Some ps =>
        qs ← m_items m !! ps;
        if is_list qs || isRunning qs then Some m
        else
          let found := findTarget m target in
          match (if stricmp_eq source target then None else found) with
          | None =>
              '(it, uq) ← uq_removeQueueItemL (m_downloads m) (m_items m) (m_users m) ps false;
              '(it, fq, _) ← fq_moveTarget W lower it (m_files m) ps ptr target;
              qs ← it !! ps;
              '(it, uq) ← uq_addL it uq ptr (qi_priority qs);
              Some (setDirty (fire (with_users (with_files m it fq) it uq) [Moved ps ptr]))
          | Some pt =>
              qt ← m_items m !! pt;
              if negb (qi_size qs =? qi_size qt) || negb (HashValue_eq (qi_tthRoot qs) (qi_tthRoot qt)) then Some m
              else
                m ← foldl (fun m user => m ← m; snd <$> m_addSourceL m pt user SRC_FLAG_MASK) (Some m) (map_to_list (qi_sources qs)).*1;
                snd <$> removeTarget m source fileExists
          end
    end.

(** ** Downloads *)

(** What a download needs of its connection. *)
Record ConnInfo := mkConn { c_user : option UserPtr; c_supportsTTHL : bool; c_lastSpeed : Z; c_secure : bool; c_trusted : bool }.

Definition download_type (q : QueueItem) : TransferType :=
  if isAnySet (qi_flags q) FLAG_PARTIAL_LIST then TYPE_PARTIAL_LIST
  else if isAnySet (qi_flags q) FLAG_USER_LIST then TYPE_FULL_LIST else TYPE_FILE.

(** [Transfer::Transfer] and [Download::Download]; [memory] is what the array of samples holds. *)
Definition Download_new (c : ConnInfo) (user : UserPtr) (q : QueueItem) (now : Z) (memory : list Sample) : Download :=
  let flags :=
    if isAnySet (qi_flags q) FLAG_PARTIAL_LIST then
      Z.lor (if isAnySet (qi_flags q) FLAG_RECURSIVE_LIST then DL_FLAG_RECURSIVE_LIST else 0)
        (if isAnySet (qi_extraFlags q) XFLAG_MATCH_QUEUE then DL_FLAG_MATCH_QUEUE else 0)
    else 0 in
  let flags := if isAnySet (qi_flags q) FLAG_USER_CHECK then setFlag flags DL_FLAG_USER_CHECK else flags in
  let flags := if isAnySet (qi_flags q) FLAG_USER_GET_IP then setFlag flags DL_FLAG_USER_GET_IP else flags in
  mkDownload user (mkSeg 0 (-1)) (download_type q) flags 0 0 0 (qi_size q) 0 now (c_lastSpeed c) (setStartTick (SpeedCalc_new SPEED_SAMPLES memory) now)
    (c_secure c) (c_trusted c) (c_lastSpeed c) false.

Definition dl_set (d : Download) (seg : Segment) (type : TransferType) (flags : Z) : Download :=
  mkDownload (dl_user d) seg type flags (dl_pos d) (dl_actual d) (dl_startPos d) (dl_fileSize d) (dl_startTime d) (dl_lastTick d)
    (dl_runningAverage d) (dl_speed d) (dl_isSecure d) (dl_isTrusted d) (dl_connSpeed d) (dl_disconnected d).

(** [Download::ErrorInfo]. *)
Record ErrorInfo := mkErrorInfo { ei_error : NextError; ei_type : TransferType; ei_target : list Z; ei_size : Z }.

Definition error_item (e : NextError) (type : TransferType) (q : QueueItem) : ErrorInfo := mkErrorInfo e type (qi_target q) (qi_size q).
Definition set_error (i : ErrorInfo) (e : NextError) : ErrorInfo := mkErrorInfo e (ei_type i) (ei_target i) (ei_size i).

Section GetDownload.
(** [gsp]: the settings with the chunk size and speed of the connection; [tempExists]: whether the
    temporary file is there; [startDownload]: [isStartDownload] of the download manager;
    [tree]: the block size of the tree in the database; [d]: the new object;
    [errorInfo]: what the caller's object holds. *)
Context (rand : ItemPtr -> Z) (rand2 : Z) (fileSlots : Z) (gsp : GetSegmentParams) (c : ConnInfo) (now : Z) (tempExists : list Z -> bool)
  (startDownload : Priority -> bool) (tree : option Z) (checkSlots : bool) (memory : list Sample) (d : DownloadPtr) (errorInfo : ErrorInfo).

(** The tree of the file is looked up: the segment to download, whether it is among the running segments, the
    type of the download, and the item. *)
Definition choose_segment (q : QueueItem) (user : UserPtr) (seg : Segment) (sourceFlags : Z) (segmentAdded : bool) (type : TransferType)
    : option (Segment * bool * TransferType * QueueItem) :=
  let unadd q := if segmentAdded then (removeDownload_seg q seg).2 else q in
  if bool_decide (type = TYPE_FILE) && negb (qi_size q =? -1) && negb (HashValue_isZero (qi_tthRoot q)) then
    match tree with
    | Some treeBlockSize =>
        let '(updated, q) := updateBlockSize q treeBlockSize in
        '(seg, segmentAdded, q) ←
          (if updated : bool then
             let q := unadd q in
             match qi_sources q !! user with
             | Some s => '(seg, _) ← getNextSegmentL q gsp (src_partial s) rand2; Some (seg, false, q)
             | None => Some (mkSeg (-1) 0, false, q)
             end
           else Some (seg, segmentAdded, q));
        Some (seg, segmentAdded, type, changeExtraFlags q XFLAG_ALLOW_SEGMENTS XFLAG_ALLOW_SEGMENTS)
    | None =>
        Some (mkSeg 0 (-1), false,
          if c_supportsTTHL c && negb (isAnySet sourceFlags SRC_FLAG_NO_TREE) && (MIN_BLOCK_SIZE <? u64 (qi_size q)) then TYPE_TREE else type, unadd q)
    end
  else Some (seg, segmentAdded, type, q).

Definition getDownload (m : QueueManager) : option (ErrorInfo * option DownloadPtr * QueueManager) :=
  match c_user c with
  | None => Some (set_error errorInfo ERROR_INVALID_CONNECTION, None, m)
  | Some user =>
      '(e, r, it, uq) ← uq_getNextL rand fileSlots user gsp (Z.lor FLAG_ADD_SEGMENT FLAG_ALLOW_REMOVE) (m_items m) (m_users m) LOWEST;
      let m := with_users m it uq in
      if negb (bool_decide (e = SUCCESS)) then
        match qs_qi r with
        | Some p => q ← it !! p; Some (error_item e (download_type q) q, None, m)
        | None => Some (mkErrorInfo e TYPE_FILE (ei_target errorInfo) (-1), None, m)
        end
      else
        p ← qs_qi r;
        q ← it !! p;
        let q := updateDownloadedBytesAndSpeed (m_downloads m) q in
        let q := if (0 <? qi_downloadedBytes q) && negb (tempExists (qi_tempTarget q)) then resetDownloaded q else q in
        let segmentAdded := negb (getSize (qs_seg r) =? -1) in
        if checkSlots && negb (startDownload (qi_priority q)) then
          let q := if segmentAdded then (removeDownload_seg q (qs_seg r)).2 else q in
          Some (error_item ERROR_DOWNLOAD_SLOTS_TAKEN TYPE_FILE q, None, set_item m p q)
        else
          let dl := Download_new c user q now memory in
          '(seg, segmentAdded, type, q) ← choose_segment q user (qs_seg r) (qs_sourceFlags r) segmentAdded (dl_type dl);
          if getSize seg =? 0 then Some (error_item ERROR_NO_NEEDED_PART TYPE_FILE q, None, set_item m p q)
          else
            q ← (if segmentAdded : bool then Some (setDownloadForSegment q seg d).2
                 else addDownload (<[d := dl]> (m_downloads m)) q d);
            let chunked := negb (getStart seg =? 0) || (negb (getSize seg =? -1) && negb (getEnd seg =? qi_size q)) in
            let dl := dl_set dl seg type (if chunked then setFlag (dl_flags dl) FLAG_CHUNKED else dl_flags dl) in
            let m := with_downloads (set_item m p q) (<[d := dl]> (m_downloads m)) in
            Some (set_error errorInfo SUCCESS, Some d, with_users m (m_items m) (setRunningDownload (m_users m) p user))
  end.
End GetDownload.

(** [hasDownload] and [getQueuedItem]. *)
Definition hasDownload (rand : ItemPtr -> Z) (fileSlots : Z) (gsp : GetSegmentParams) (m : QueueManager) (user : UserPtr) : option Priority :=
  '(e, r, it, _) ← uq_getNextL rand fileSlots user gsp 0 (m_items m) (m_users m) LOWEST;
  if negb (bool_decide (e = SUCCESS)) then Some PAUSED
  else p ← qs_qi r; qi_priority <$> it !! p.

Definition getQueuedItem (rand : ItemPtr -> Z) (fileSlots : Z) (gsp : GetSegmentParams) (m : QueueManager) (user : UserPtr) : option (option ItemPtr) :=
  '(e, r, _, _) ← uq_getNextL rand fileSlots user gsp 0 (m_items m) (m_users m) LOWEST;
  Some (if bool_decide (e = SUCCESS) then qs_qi r else None).

(** ** The end of a download *)

Definition DL_FLAG_XML_BZ_LIST := 0x010.
Definition DL_FLAG_OVERLAP := 0x040.
Definition DL_FLAG_TTH_LIST := 0x800.
Definition XFLAG_DOWNLOAD_CONTENTS := 0x0200.
Definition DIR_FLAG_DOWNLOAD_DIRECTORY := 1.
Definition DIR_FLAG_MATCH_QUEUE := 2.
Definition DIR_FLAG_TEXT := 4.
Definition DIR_FLAG_TTH_LIST := 8.

Definition queueItemFlagsToDirFlags (extraFlags : Z) : Z :=
  if isAnySet extraFlags XFLAG_DOWNLOAD_DIR then DIR_FLAG_DOWNLOAD_DIRECTORY
  else if isAnySet extraFlags XFLAG_MATCH_QUEUE then DIR_FLAG_MATCH_QUEUE else 0.

Definition dirFlagsToQueueItemFlags (dirFlags : Z) : Z :=
  if isAnySet dirFlags DIR_FLAG_DOWNLOAD_DIRECTORY then XFLAG_DOWNLOAD_DIR
  else if isAnySet dirFlags DIR_FLAG_MATCH_QUEUE then XFLAG_MATCH_QUEUE else 0.

(** The rest of a [Download]: its item, paths, the buffer of a partial list, the number of leaves and the
    block size of its tree, and why it failed. *)
Record DownloadInfo := mkInfo {
  i_queueItem : ItemPtr;
  i_path : list Z;
  i_tempTarget : list Z;
  i_fileListBuffer : list Z;
  i_leaves : Z;
  i_blockSize : Z;
  i_fileUnavailable : bool;
  i_reasonText : list Z
}.

Definition getFileListTempTarget (d : Download) (i : DownloadInfo) : list Z :=
  i_path i ++ (if isSet (dl_flags d) DL_FLAG_XML_BZ_LIST then xmlBz2Extension else xmlExtension) ++ dctmpExtension.

Section PutDownload.
Context (isOnline : UserPtr -> bool) (hashDb : bool) (fileExists : list Z -> bool) (d : DownloadPtr) (i : DownloadInfo).

(** A partial list: the directory that waits for it, and the item, are taken out of the queue. *)
Definition put_partial_list (m : QueueManager) (dl : Download) (p : ItemPtr) (q : QueueItem) : option QueueManager :=
  let user := dl_user dl in
  let waiting := default [] (m_directories m !! user) in
  if negb (bool_decide (i_fileListBuffer i = [])) then
    let dir := if isAnySet (qi_extraFlags q) (Z.lor XFLAG_MATCH_QUEUE XFLAG_DOWNLOAD_DIR)
               then find (fun x => stricmp_eq (qi_tempTarget q) (di_name x)) waiting else None in
    let m := match dir with Some _ => with_directories m (alter (erase_directory (qi_tempTarget q)) user (m_directories m)) | None => m end in
    let dirFlags := match dir with Some x => di_flags x | None => 0 end in
    if negb (dirFlags =? 0) then
      m ← removeItem m p true;
      let flags := Z.lor dirFlags DIR_FLAG_TEXT in
      let flags := if isSet (dl_flags dl) DL_FLAG_TTH_LIST then Z.lor flags DIR_FLAG_TTH_LIST else flags in
      Some (fire m [ProcessList (i_fileListBuffer i) user flags dir])
    else removeItem (fire m [if isAnySet (qi_flags q) FLAG_USER_CHECK then UserCheckDone user else PartialList user (i_fileListBuffer i)]) p true
  else if isAnySet (qi_flags q) FLAG_USER_CHECK then removeItem (fire m [UserCheckFailure user]) p true
  else
    let flags := foldr Z.lor 0 (map di_flags waiting) in
    m ← removeItem m p true;
    Some (if negb (flags =? 0) && isOnline user then fire m [AddList user (dirFlagsToQueueItemFlags flags)] else m).

(** [TYPE_TREE] finished. *)
Definition put_tree (m : QueueManager) (dl : Download) (p : ItemPtr) (q : QueueItem) : option QueueManager :=
  let user := dl_user dl in
  let hasTree := 2 <=? i_leaves i in
  let m := if hashDb && hasTree then fire m [AddTree d] else set_item m p (setSourceFlag q user SRC_FLAG_NO_TREE) in
  '(it, uq) ← uq_removeDownload (m_downloads m) (m_items m) (m_users m) p user;
  q ← it !! p;
  let m := with_users m (if hasTree then <[p := changeExtraFlags q XFLAG_ALLOW_SEGMENTS XFLAG_ALLOW_SEGMENTS]> it else it) uq in
  Some (fire m [StatusUpdated p]).

(** What is done with a finished file or list before its item is removed; logging and the tree in a stream
    of NTFS are left out. *)
Definition finish_events (m : QueueManager) (p : ItemPtr) (q : QueueItem) (isFile : bool) (dir : list Z) : QueueManager :=
  let temp := qi_tempTarget q in
  let m :=
    if negb (isAnySet (qi_flags q) (Z.lor FLAG_USER_GET_IP FLAG_USER_CHECK)) && isFile then
      let m := if negb (bool_decide (temp = [])) then fire m [AbortUpload temp] else m in
      let m := with_downloads m (disconnectOthers (m_downloads m) q d) in
      if negb (bool_decide (temp = [])) && negb (stricmp_eq (i_path i) temp) then fire m [MoveFile temp (i_path i)] else m
    else m in
  let m := if hashDb && negb (HashValue_isZero (qi_tthRoot q)) && negb (isAnySet (qi_flags q) (Z.lor FLAG_USER_LIST (Z.lor FLAG_DCLST_LIST FLAG_USER_GET_IP)))
           then fire m [FileDownloaded (qi_tthRoot q) (qi_size q) (i_path i)] else m in
  let m := fire m [Finished p dir d] in
  if isAnySet (qi_flags q) FLAG_DCLST_LIST && isAnySet (qi_extraFlags q) XFLAG_DOWNLOAD_CONTENTS
  then fire m [AddDclstFile (qi_target q)] else m.

(** A file or list: the segment is done; when that was the last one the item leaves the queue. *)
Definition put_finished (m : QueueManager) (dl : Download) (p : ItemPtr) (q : QueueItem) (reportFinish : bool) : option QueueManager :=
  let listName := if isAnySet (qi_extraFlags q) (Z.lor XFLAG_DOWNLOAD_DIR XFLAG_MATCH_QUEUE) then i_path i ++ getListExt q else [] in
  let processList := if bool_decide (listName = []) then [] else [ProcessList listName (dl_user dl) (queueItemFlagsToDirFlags (qi_extraFlags q)) None] in
  let isFile := bool_decide (dl_type dl = TYPE_FILE) in
  '(m, q, dir) ←
    (if bool_decide (dl_type dl = TYPE_FULL_LIST) then
       q' ← addSegment q (mkSeg 0 (qi_size q));
       let dest := i_path i ++ getListExt q in
       Some (fire (set_item m p q') [MoveFile (dest ++ dctmpExtension) dest], q', qi_tempTarget q)
     else if isFile then
       let dl := setOverlapped_dl dl false in
       q' ← addSegment q (dl_segment dl);
       Some (set_item (with_downloads m (<[d := dl]> (m_downloads m))) p q', q', [])
     else Some (m, q, []));
  m ← (if negb isFile || isFinished q then removeItem (finish_events m p q isFile dir) p true
       else
         '(it, uq) ← uq_removeDownload (m_downloads m) (m_items m) (m_users m) p (dl_user dl);
         q ← it !! p;
         let m := with_users m it uq in
         Some (if reportFinish && isWaiting q then fire m [StatusUpdated p] else m));
  Some (fire (setDirty m) processList).

(** The whole blocks that were received are done; the item stays in the queue, a list whose file the user does
    not have excepted. *)
Definition put_unfinished (m : QueueManager) (dl : Download) (p : ItemPtr) (q : QueueItem) : option QueueManager :=
  let notTree := negb (bool_decide (dl_type dl = TYPE_TREE)) in
  let q := if notTree then updateDownloadedBytesAndSpeed (m_downloads m) q else q in
  let m := set_item m p q in
  let userList := notTree && isAnySet (qi_flags q) FLAG_USER_LIST in
  let m := if userList then fire m [DeleteFile (i_path i ++ getListExt q ++ dctmpExtension)] else m in
  if userList && i_fileUnavailable i then removeItem m p true
  else
    '(m, q) ←
      (if bool_decide (dl_type dl = TYPE_FILE) then
         if i_blockSize i =? 0 then None
         else
           let downloaded := dl_pos dl - Z.rem (dl_pos dl) (i_blockSize i) in
           if 0 <? downloaded then
             q ← addSegment q (mkSeg (getStart (dl_segment dl)) downloaded);
             Some (setDirty (set_item m p q), q)
           else Some (m, q)
       else Some (m, q));
    let getConn := if negb (bool_decide (qi_priority q = PAUSED)) && bool_decide (i_reasonText i = []) then getOnlineUsers isOnline q [] else [] in
    '(it, uq) ← uq_removeDownload (m_downloads m) (m_items m) (m_users m) p (dl_user dl);
    q ← it !! p;
    let m := fire (with_users m it uq) [StatusUpdated p] in
    let m := if isSet (dl_flags dl) DL_FLAG_OVERLAP then with_downloads m (setOverlapped (m_downloads m) q (dl_segment dl) false) else m in
    Some (fire m (map GetDownloadConnection getConn)).

Definition putDownload (m : QueueManager) (finished reportFinish : bool) : option QueueManager :=
  dl ← m_downloads m !! d;
  qd ← m_items m !! i_queueItem i;
  match findTarget m (qi_target qd) with
  | Some p =>
      q ← m_items m !! p;
      if bool_decide (dl_type dl = TYPE_PARTIAL_LIST) then put_partial_list m dl p q
      else
        let q := if bool_decide (dl_type dl = TYPE_FULL_LIST)
                 then changeExtraFlags q (if isSet (dl_flags dl) DL_FLAG_XML_BZ_LIST then XFLAG_XML_BZLIST else 0) XFLAG_XML_BZLIST else q in
        let m := set_item m p q in
        if finished then
          if bool_decide (dl_type dl = TYPE_TREE) then put_tree m dl p q else put_finished m dl p q reportFinish
        else put_unfinished m dl p q
  | None =>
      Some (if bool_decide (dl_type dl = TYPE_PARTIAL_LIST) then m
            else if bool_decide (dl_type dl = TYPE_FULL_LIST) then
              let temp := getFileListTempTarget dl i in if fileExists temp then fire m [DeleteFile temp] else m
            else if negb (bool_decide (dl_type dl = TYPE_TREE)) && isAnySet (qi_extraFlags qd) XFLAG_REMOVED then
              let temp := i_tempTarget i in
              if negb (bool_decide (temp = [])) && negb (bool_decide (temp = i_path i)) && fileExists temp then fire m [DeleteFile temp] else m
            else m)
  end.
End PutDownload.

(** ** Partial file sharing *)

Definition PFS_QUERY_INTERVAL : Z := 300000.

Definition set_nextQueryTime (ps : PartialSource) (t : Z) : PartialSource :=
  mkPartial (ps_parts ps) t (ps_udpPort ps) (ps_pendingQueryCount ps) (ps_blockSize ps).

(** A user tells the parts of a file it has; [ps] has its address.  The answer is whether to reply, and the
    parts to reply with. *)
Definition handlePartialResult (m : QueueManager) (user : UserPtr) (tth : list Z) (ps : PartialSource) (now : Z) : option (bool * list Z * QueueManager) :=
  match fq_findQueueItem (m_files m) tth with
  | None => Some (false, [], m)
  | Some p =>
      q ← m_items m !! p;
      if isFinished q || (u64 (qi_size q) <? PFS_MIN_FILE_SIZE) then Some (false, [], m)
      else
        let out := getParts q [] (qi_blockSize q) in
        wantConnection ← isNeededPart (ps_parts ps) out;
        let reply m := Some (true, out, if wantConnection : bool then fire m [GetDownloadConnection user] else m) in
        match qi_sources q !! user with
        | None =>
            let bad := qi_badSources q !! user in
            if match bad with Some s => isSet (src_flags s) SRC_FLAG_TTH_INCONSISTENCY | None => false end then Some (false, out, m)
            else if negb wantConnection then
              match bad with
              | None => Some (false, out, m)
              | Some s =>
                  let s := mkSource (src_flags s) ((fun x => set_nextQueryTime x (now + PFS_QUERY_INTERVAL)) <$> src_partial s) in
                  reply (set_item m p (set_sources q (qi_sourcesVersion q) (qi_sources q) (<[user := s]> (qi_badSources q)) (qi_prioQueue q)))
              end
            else
              let q := addSourceL q user in
              let new := mkPartial (ps_parts ps) (now + PFS_QUERY_INTERVAL) (ps_udpPort ps) 0 (qi_blockSize q) in
              let q := set_sources q (qi_sourcesVersion q) (alter (fun s => mkSource (setFlag (src_flags s) SRC_FLAG_PARTIAL) (Some new)) user (qi_sources q))
                         (qi_badSources q) (qi_prioQueue q) in
              let m := set_item m p q in
              uq ← uq_addL_user (m_items m) (m_users m) p (qi_priority q) user;
              reply (with_users m (m_items m) uq)
        | Some s =>
            let update x := mkPartial (ps_parts ps) (now + PFS_QUERY_INTERVAL) (if ps_udpPort ps =? 0 then ps_udpPort x else ps_udpPort ps)
                              (ps_pendingQueryCount x) (ps_blockSize x) in
            reply (set_item m p (set_sources q (qi_sourcesVersion q) (<[user := mkSource (src_flags s) (update <$> src_partial s)]> (qi_sources q))
                     (qi_badSources q) (qi_prioQueue q)))
        end
  end.
End QueueManager.
