(* ===== verification/QueueInvariant.v ===== *)
(** * The invariant of the download queue

    The queue by target and the queue by user hold the same items: every operation of
    [QueueManager] keeps [UserQueue] an index of [FileQueue], and none gets stuck.  What an operation
    relies on is stated with it in [manager_op]. *)

From S2P Require Import Prelude HashValue Segment SegmentSet MerkleTree SpeedCalc Download QueueItem NextSegment PartsInfo Text Tokenizer FileQueue UserQueue QueueManager.

Section Invariant.
Context (W : WChar) (lower : list Z -> list Z) {Regex : Type}.

Abbreviation Manager := (@QueueManager Regex).
Abbreviation fq_ok := (FileQueue.fq_ok W lower).

(** An item in the queue. *)
Definition good (q : QueueItem) : Prop := item_ok q /\ qi_priority q <> DEFAULT.

Record queue_ok (it : Items) (fq : @FileQueue Regex) (uq : UserQueue) : Prop := {
  ok_files : fq_ok it fq;
  ok_users : uq_ok it uq (queued fq);
  ok_good : forall p q, queued fq p -> it !! p = Some q -> good q
}.

Definition manager_ok (m : Manager) : Prop := queue_ok (m_items m) (m_files m) (m_users m).

(** ** Changes of an item *)

Definition evolves (q q' : QueueItem) : Prop := same_file q q' /\ (good q -> good q').

Lemma evolves_refl q : evolves q q.
Proof using. split; [split; reflexivity|tauto]. Qed.

Lemma evolves_trans q1 q2 q3 : evolves q1 q2 -> evolves q2 q3 -> evolves q1 q3.
Proof using. intros [[H1 H2] H3] [[H4 H5] H6]. split; [split; congruence|tauto]. Qed.

Lemma evolves_step q q' : qi_step q q' -> same_file q q' -> qi_size q' = qi_size q -> qi_blockSize q' = qi_blockSize q ->
  qi_priority q' = qi_priority q -> evolves q q'.
Proof using.
  intros Hs Hf E1 E2 E3. split; [exact Hf|]. intros [(H1 & H2 & H3) H4]. split; [|rewrite E3; exact H4].
  split; [apply (qi_step_inv q); assumption|]. rewrite E1, E2. split; assumption.
Qed.

Lemma evolves_sources q v src bad pr : sources_ok (set_sources q v src bad pr) -> evolves q (set_sources q v src bad pr).
Proof using.
  intros Hs. split; [split; reflexivity|]. intros [(H1 & H2 & H3) H4]. split; [|exact H4]. split; [|split; assumption].
  apply (qi_inv_sources q _ v src bad pr); [exact H1|reflexivity|exact Hs].
Qed.

Lemma evolves_downloads q l : evolves q (set_downloads q l).
Proof using. split; [split; reflexivity|]. intros H. exact H. Qed.

Lemma evolves_removeSource q u r : evolves q (removeSourceL q u r).
Proof using. destruct (removeSourceL_shape q u r) as (v & src & bad & pr & E). apply evolves_step; [constructor|rewrite E; try split; reflexivity..]. Qed.

Lemma evolves_addSource q u : isSourceL q u = false -> evolves q (addSourceL q u).
Proof using.
  intros H. destruct (addSourceL_shape q u) as (v & src & bad & pr & E). apply evolves_step; [constructor; exact H|rewrite E; try split; reflexivity..].
Qed.

Lemma evolves_flags q f : evolves q (setExtraFlags q f).
Proof using. apply evolves_step; [constructor|try split; reflexivity..]. Qed.

Lemma evolves_changeFlags q v k : evolves q (changeExtraFlags q v k).
Proof using. apply evolves_step; [constructor|try split; reflexivity..]. Qed.

Lemma evolves_prioQueue q p : evolves q (set_prioQueue q p).
Proof using. split; [split; reflexivity|]. intros H. exact H. Qed.

Lemma evolves_priority q p : p <> DEFAULT -> evolves q (setPriorityL q p).
Proof using. intros Hp. split; [split; reflexivity|]. intros [(H1 & H2 & H3) _]. split; [|exact Hp]. split; [|split; assumption]. apply (qi_step_inv q); [exact H1|constructor]. Qed.

Lemma updateSpeed_shape h q : exists b s, updateDownloadedBytesAndSpeed h q = set_segments q (qi_downloads q) (qi_doneSegments q) (qi_doneSegmentsSize q) b s.
Proof using. unfold updateDownloadedBytesAndSpeed. destruct (foldl _ _ _). eauto. Qed.

Lemma evolves_updateSpeed h q : evolves q (updateDownloadedBytesAndSpeed h q).
Proof using. destruct (updateSpeed_shape h q) as (b & s & ->). split; [split; reflexivity|]. intros H. exact H. Qed.

Lemma updateSpeed_place h q : same_place q (updateDownloadedBytesAndSpeed h q).
Proof using. destruct (updateSpeed_shape h q) as (b & s & ->). apply same_place_eq; reflexivity. Qed.

Lemma evolves_reset q : evolves q (resetDownloaded q).
Proof using. apply evolves_step; [constructor|try split; reflexivity..]. Qed.

(** ** The invariant *)

Lemma ok_at it fq uq p q q' uq' : queue_ok it fq uq -> it !! p = Some q -> evolves q q' -> uq_ok (<[p := q']> it) uq' (queued fq) ->
  queue_ok (<[p := q']> it) fq uq'.
Proof using.
  intros [H1 H2 H3] Hq [Hf Hg] Hu. split; [apply (fq_ok_change W lower it fq p q); assumption|exact Hu|].
  intros x qx Hx Hqx. destruct (decide (x = p)) as [->|Hne].
  - rewrite lookup_insert_eq in Hqx. injection Hqx as <-. apply Hg, (H3 p); assumption.
  - rewrite lookup_insert_ne in Hqx by congruence. apply (H3 x qx Hx Hqx).
Qed.

Lemma ok_item it fq uq p q q' : queue_ok it fq uq -> it !! p = Some q -> same_place q q' -> evolves q q' -> queue_ok (<[p := q']> it) fq uq.
Proof using. intros H Hq Hs He. apply (ok_at it fq uq p q); [exact H|exact Hq|exact He|]. apply (uq_ok_change it uq _ p q); [apply H|exact Hq|exact Hs]. Qed.

Lemma uq_ok_running it uq uq' R : uq_map uq' = uq_map uq -> uq_ok it uq R -> uq_ok it uq' R.
Proof using.
  intros E [H1 H2 H3].
  assert (Ei : forall i u, items_of uq' i u = items_of uq i u) by (intros; unfold items_of, uq_items; rewrite E; reflexivity).
  split; [unfold uq_wf, uq_items; rewrite E; exact H1| |].
  - intros i u p. rewrite Ei. apply H2.
  - intros p q u HR Hq Hf Hu. destruct (H3 p q u HR Hq Hf Hu) as (i & Hi & H). exists i. rewrite Ei. split; assumption.
Qed.

Lemma removeDownload_ok h it fq uq p q u : queue_ok it fq uq -> it !! p = Some q ->
  exists l uq', uq_removeDownload h it uq p u = Some (<[p := set_downloads q l]> it, uq') /\ uq_map uq' = uq_map uq /\
    queue_ok (<[p := set_downloads q l]> it) fq uq'.
Proof using.
  intros H Hq. unfold uq_removeDownload. rewrite Hq. cbn. destruct (removeDownload_shape h q u) as [l ->].
  eexists l, _. split; [reflexivity|].
  assert (E : uq_map (if bool_decide (uq_running uq !! u = Some p) then removeRunning uq u else uq) = uq_map uq) by (case_bool_decide; reflexivity).
  split; [exact E|].
  apply (ok_at it fq uq p q); [exact H|exact Hq|apply evolves_downloads|]. apply (uq_ok_running _ uq _ _ E).
  apply (uq_ok_change it uq _ p q); [apply H|exact Hq|apply set_downloads_place].
Qed.

Lemma queued_findTarget (m : Manager) target p : findTarget W lower m target = Some p -> queued (m_files m) p.
Proof using. intros H. exists (target_key W lower target). exact H. Qed.

Lemma ok_lookup (m : Manager) p : manager_ok m -> queued (m_files m) p -> exists q, m_items m !! p = Some q.
Proof using. intros H Hp. apply (queued_item W lower _ (m_files m) p); [apply H|exact Hp]. Qed.

(** ** Adding a source *)

(** An item that is not finished gets a source, and goes to its lists. *)
Lemma uq_add_source it uq R p q q' u : uq_ok it uq R -> R p -> it !! p = Some q -> isFinished q = false ->
  qi_sources q !! u = None -> (forall v, is_Some (qi_sources q' !! v) <-> is_Some (qi_sources q !! v) \/ v = u) ->
  (qi_prioQueue q <> DEFAULT -> qi_prioQueue q' = qi_prioQueue q) -> qi_prioQueue q' <> DEFAULT ->
  exists uq', uq_addL_user (<[p := q']> it) uq p (qi_prioQueue q') u = Some uq' /\ uq_ok (<[p := q']> it) uq' R.
Proof using.
  intros Hok HR Hq Hf Hn Hsrc Hp Hd. destruct (prio_index_some _ Hd) as [i Hi].
  assert (Hidx : forall j, prio_index (qi_prioQueue q) = Some j -> i = j).
  { intros j Hj. rewrite Hp in Hi; [congruence|]. intros E. rewrite E in Hj. discriminate. }
  destruct (uq_addL_user_ok (<[p := q']> it) uq p q' (qi_prioQueue q') i u) as (uq' & E & Hwf & _ & Hm);
    [apply Hok|apply lookup_insert_eq|exact Hi| |exists uq'; split; [exact E|]].
  { intros H. destruct (uq_sound _ _ _ Hok i u p H) as (_ & q0 & Hq0 & _ & [s Hs]). congruence. }
  split; [exact Hwf| |].
  - intros j v x. rewrite Hm. intros [H|(-> & -> & ->)].
    + destruct (uq_sound _ _ _ Hok j v x H) as (Hx & qx & Hqx & Hj & Hv). split; [exact Hx|]. destruct (decide (x = p)) as [->|Hne].
      * exists q'. rewrite lookup_insert_eq. rewrite Hq in Hqx. injection Hqx as <-. apply Hidx in Hj as <-. split; [reflexivity|]. split; [exact Hi|]. apply Hsrc. left. exact Hv.
      * exists qx. rewrite lookup_insert_ne by congruence. repeat split; assumption.
    + split; [exact HR|]. exists q'. rewrite lookup_insert_eq. split; [reflexivity|]. split; [exact Hi|]. apply Hsrc. right. reflexivity.
  - intros x qx v Hx Hqx Hfx Hv. destruct (decide (x = p)) as [->|Hne].
    + rewrite lookup_insert_eq in Hqx. injection Hqx as <-. exists i. split; [exact Hi|]. apply Hm. apply Hsrc in Hv as [Hv| ->]; [|right; repeat split].
      destruct (uq_complete _ _ _ Hok p q v HR Hq Hf Hv) as (j & Hj & H). apply Hidx in Hj as <-. left. exact H.
    + rewrite lookup_insert_ne in Hqx by congruence. destruct (uq_complete _ _ _ Hok x qx v Hx Hqx Hfx Hv) as (j & Hj & H).
      exists j. split; [exact Hj|]. apply Hm. left. exact H.
Qed.

(** A finished item is not asked for. *)
Lemma uq_ok_finished it uq R p q q' : uq_ok it uq R -> it !! p = Some q -> isFinished q' = true -> qi_prioQueue q' = qi_prioQueue q ->
  (forall v, is_Some (qi_sources q !! v) -> is_Some (qi_sources q' !! v)) -> uq_ok (<[p := q']> it) uq R.
Proof using.
  intros [H1 H2 H3] Hq Hf Hp Hs. split; [exact H1| |].
  - intros i u x H. destruct (H2 i u x H) as (Hx & qx & Hqx & Hi & Hu). split; [exact Hx|]. destruct (decide (x = p)) as [->|Hne].
    + exists q'. rewrite lookup_insert_eq. rewrite Hq in Hqx. injection Hqx as <-. rewrite Hp. repeat split; [exact Hi|apply Hs, Hu].
    + exists qx. rewrite lookup_insert_ne by congruence. repeat split; assumption.
  - intros x qx u Hx Hqx Hfx Hu. destruct (decide (x = p)) as [->|Hne]; [rewrite lookup_insert_eq in Hqx; congruence|].
    rewrite lookup_insert_ne in Hqx by congruence. apply (H3 x qx u Hx Hqx Hfx Hu).
Qed.

Lemma addSourceL_users q u v : is_Some (qi_sources (addSourceL q u) !! v) <-> is_Some (qi_sources q !! v) \/ v = u.
Proof using.
  unfold addSourceL. destruct (match qi_badSources q !! u with Some s => _ | None => _ end) as [s bad]. cbn.
  destruct (qi_sources q !! u) as [s'|] eqn:E.
  - split; [tauto|]. intros [H| ->]; [exact H|]. rewrite E. eauto.
  - destruct (decide (v = u)) as [->|Hne]; [rewrite lookup_insert_eq; split; [tauto|eauto]|]. rewrite lookup_insert_ne by congruence. split; [tauto|]. intros [H|H]; [exact H|contradiction].
Qed.

Lemma m_addSourceL_ok (m : Manager) p user addBad : manager_ok m -> queued (m_files m) p ->
  exists r m', m_addSourceL m p user addBad = Some (r, m') /\ manager_ok m' /\ m_files m' = m_files m /\
    forall x q, m_items m !! x = Some q -> exists q', m_items m' !! x = Some q' /\ qi_extraFlags q' = qi_extraFlags q.
Proof using.
  intros H Hp. destruct (ok_lookup m p H Hp) as [q Hq]. unfold m_addSourceL. rewrite Hq. cbn [mbind option_bind].
  assert (Hsame : forall x q, m_items m !! x = Some q -> exists q', m_items m !! x = Some q' /\ qi_extraFlags q' = qi_extraFlags q) by eauto.
  destruct (isSourceL q user) eqn:Es; [eexists _, m; split; [reflexivity|]; split; [exact H|]; split; [reflexivity|exact Hsame]|].
  destruct (isBadSourceExceptL q user addBad); [eexists _, m; split; [reflexivity|]; split; [exact H|]; split; [reflexivity|exact Hsame]|].
  assert (Hn : qi_sources q !! user = None) by (unfold isSourceL in Es; apply bool_decide_eq_false, eq_None_not_Some in Es; exact Es).
  destruct (addSourceL_shape q user) as (v & src & bad & pr & E).
  assert (Epr : qi_prioQueue (addSourceL q user) = qi_prioQueue q) by (unfold addSourceL; destruct (qi_badSources q !! user); reflexivity).
  assert (Hflags : forall q1, qi_extraFlags q1 = qi_extraFlags q -> forall x q, m_items m !! x = Some q -> exists q', <[p := q1]> (m_items m) !! x = Some q' /\ qi_extraFlags q' = qi_extraFlags q).
  { intros q1 E1 x qx Hx. destruct (decide (x = p)) as [->|Hne]; [|exists qx; rewrite lookup_insert_ne by congruence; split; [exact Hx|reflexivity]].
    rewrite Hx in Hq. injection Hq as ->. exists q1. rewrite lookup_insert_eq. split; [reflexivity|exact E1]. }
  destruct (isFinished (addSourceL q user)) eqn:Ef.
  - eexists _, _. split; [reflexivity|]. split; [|split; [reflexivity|apply Hflags; rewrite E; reflexivity]].
    apply (ok_at _ _ (m_users m) p q); [exact H|exact Hq|apply evolves_addSource, Es|].
    apply (uq_ok_finished (m_items m) (m_users m) _ p q); [apply H|exact Hq|exact Ef|exact Epr|]. intros u Hu. apply addSourceL_users. left. exact Hu.
  - set (m1 := if is_list _ then m else _). set (q1 := if bool_decide _ then _ else _).
    assert (Em : m_items m1 = m_items m /\ m_users m1 = m_users m /\ m_files m1 = m_files m) by (unfold m1; destruct (is_list _); repeat split).
    destruct Em as (E1 & E2 & E3). clearbody m1. cbn [set_item with_items m_items m_users m_downloads]. rewrite E1, E2.
    assert (Hev : evolves q q1).
    { unfold q1. case_bool_decide; [eapply evolves_trans; [apply evolves_addSource, Es|apply evolves_prioQueue]|apply evolves_addSource, Es]. }
    destruct (uq_add_source (m_items m) (m_users m) (queued (m_files m)) p q q1 user) as (uq' & Ea & Hu);
      [apply H|exact Hp|exact Hq|rewrite E in Ef; exact Ef|exact Hn| | | |].
    + intros u. rewrite <- addSourceL_users. unfold q1. case_bool_decide; reflexivity.
    + intros Hd. unfold q1. rewrite bool_decide_false by congruence. exact Epr.
    + unfold q1. case_bool_decide as Hd; [|exact Hd]. cbn. apply (ok_good _ _ _ H p q Hp Hq).
    + rewrite Ea. cbn [mbind option_bind]. eexists _, _. split; [reflexivity|].
      split; [unfold manager_ok; cbn; rewrite E3; apply (ok_at _ _ (m_users m) p q); [exact H|exact Hq|exact Hev|exact Hu]|].
      split; [exact E3|]. apply Hflags. unfold q1. case_bool_decide; rewrite E; reflexivity.
Qed.

(** ** Removing *)

Lemma uq_ok_items it it' uq R : uq_ok it uq R -> (forall x, R x -> it' !! x = it !! x) -> uq_ok it' uq R.
Proof using.
  intros [H1 H2 H3] E. split; [exact H1| |].
  - intros i u p H. destruct (H2 i u p H) as (Hp & q & Hq & Hr). split; [exact Hp|]. exists q. rewrite E by exact Hp. split; assumption.
  - intros p q u Hp Hq. apply H3; [exact Hp|]. rewrite <- E by exact Hp. exact Hq.
Qed.

(** The state of the queue is the same up to events and the like. *)
Definition same_queue (m m' : Manager) : Prop :=
  m_items m' = m_items m /\ m_files m' = m_files m /\ m_users m' = m_users m /\ m_downloads m' = m_downloads m.

Lemma same_queue_ok m m' : same_queue m m' -> manager_ok m -> manager_ok m'.
Proof using. intros (E1 & E2 & E3 & _). unfold manager_ok. rewrite E1, E2, E3. tauto. Qed.

Lemma removeItem_ok (m : Manager) p : manager_ok m -> queued (m_files m) p ->
  exists m', removeItem W lower m p true = Some m' /\ manager_ok m' /\ (forall i, queued (m_files m') i <-> queued (m_files m) i /\ i <> p) /\
    forall i, i <> p -> m_items m' !! i = m_items m !! i.
Proof using.
  intros H Hp. destruct (ok_lookup m p H Hp) as [q Hq]. unfold removeItem. rewrite Hq. cbn [mbind option_bind].
  set (m1 := if isAnySet _ _ then _ else m).
  assert (Em : same_queue m m1) by (unfold m1; destruct (isAnySet _ _); [destruct (getFirstSource q)|]; repeat split). clearbody m1.
  destruct Em as (E1 & E2 & E3 & E4). unfold uq_removeQueueItem. rewrite E1, E3.
  destruct (uq_removeQueueItemL_ok (m_downloads m1) (m_items m) (m_users m) (queued (m_files m)) p q true) as (uq' & l & -> & Hu); [apply H|exact Hq|].
  cbn [mbind option_bind with_users m_items m_files]. rewrite E2.
  destruct (fq_remove_ok W lower (<[p := set_downloads q l]> (m_items m)) (m_files m) p) as (it2 & fq2 & -> & Hf & Hqd & Hit & _);
    [apply (fq_ok_change W lower _ _ p q); [apply H|exact Hq|split; reflexivity]|exact Hp|].
  cbn [mbind option_bind]. set (m2 := with_files _ _ _). eexists. split; [reflexivity|].
  assert (Hit' : forall i, i <> p -> it2 !! i = m_items m !! i) by (intros i Hi; rewrite Hit, lookup_insert_ne by congruence; reflexivity).
  assert (Em2 : same_queue m2 (if negb (m_batchCounter m2 =? 0) then with_batch m2 (m_batchCounter m2) (m_batchRemove m2 ++ [p]) else fire m2 [Removed p])) by (destruct (negb _); repeat split).
  split; [apply (same_queue_ok m2); [exact Em2|]|]. 2: { destruct Em2 as (F1 & F2 & _). rewrite F1, F2. split; [exact Hqd|exact Hit']. }
  split; cbn; [exact Hf| |].
  - apply (uq_ok_registered _ _ (fun x => queued (m_files m) x /\ x <> p)); [|intros x; rewrite Hqd; tauto].
    apply (uq_ok_items _ _ _ _ Hu). intros x [_ Hx]. apply Hit, Hx.
  - intros x qx Hx. apply Hqd in Hx as [Hx Hne]. rewrite Hit' by exact Hne. apply (ok_good _ _ _ H x qx Hx).
Qed.

(** No list in the queue is waited for, as a directory to download or to match. *)
Definition waited (q : QueueItem) : bool := isAnySet (qi_extraFlags q) (Z.lor XFLAG_MATCH_QUEUE XFLAG_DOWNLOAD_DIR).
Definition calm (m : Manager) : Prop := forall p q, queued (m_files m) p -> m_items m !! p = Some q -> waited q = false.

Lemma removed_flag_waited q : waited (changeExtraFlags q XFLAG_REMOVED XFLAG_REMOVED) = waited q.
Proof using.
  unfold waited, changeExtraFlags, isAnySet. cbn. f_equal. f_equal. apply Z.bits_inj'. intros n Hn.
  destruct (decide (n < 16)) as [Hlt|Hge].
  - assert (n ∈ [0; 1; 2; 3; 4; 5; 6; 7; 8; 9; 10; 11; 12; 13; 14; 15]) as Hin by (apply list_elem_of_In; cbn; lia).
    rewrite !Z.land_spec, Z.lor_spec, Z.land_spec. repeat (apply elem_of_cons in Hin as [->|Hin]; [cbn; rewrite ?andb_true_r, ?andb_false_r, ?orb_false_r; reflexivity|]). apply elem_of_nil in Hin. destruct Hin.
  - rewrite !Z.land_spec. assert (Z.testbit (Z.lor XFLAG_MATCH_QUEUE XFLAG_DOWNLOAD_DIR) n = false) as ->; [|rewrite !andb_false_r; reflexivity].
    apply Z.bits_above_log2; [vm_compute; discriminate|]. change (Z.log2 _) with 5. lia.
Qed.

Lemma removeTarget_ok (m : Manager) target fileExists : manager_ok m ->
  (forall p q, findTarget W lower m target = Some p -> m_items m !! p = Some q -> waited q = true -> getFirstSource q <> None) ->
  exists r m', removeTarget W lower m target fileExists = Some (r, m') /\ manager_ok m' /\ (calm m -> calm m') /\
    forall i, queued (m_files m') i -> queued (m_files m) i.
Proof using.
  intros H Hw. unfold removeTarget. destruct (findTarget W lower m target) as [p|] eqn:Ht; [|exists false, m; split; [reflexivity|]; split; [exact H|]; split; tauto].
  pose proof (queued_findTarget m target p Ht) as Hp. destruct (ok_lookup m p H Hp) as [q Hq]. rewrite Hq. cbn [mbind option_bind].
  assert (Hfd : exists m1, forget_directory m q = Some m1 /\ same_queue m m1).
  { unfold forget_directory. fold (waited q). destruct (waited q) eqn:Ew; [|exists m; repeat split]. specialize (Hw p q eq_refl Hq Ew).
    destruct (getFirstSource q) as [u|]; [|contradiction]. cbn. eexists. split; [reflexivity|repeat split]. }
  destruct Hfd as (m1 & -> & Em). cbn [mbind option_bind].
  match goal with |- context [set_item ?m2 p ?q2] => set (m3 := m2); set (q3 := q2) end.
  assert (Em3 : same_queue m m3).
  { destruct Em as (E1 & E2 & E3 & E4). unfold m3. repeat (match goal with |- context [if ?b then _ else _] => destruct b end; cbn); repeat split; assumption. }
  clearbody m3. destruct Em3 as (E1 & E2 & E3 & E4).
  assert (H3 : manager_ok (set_item m3 p q3)).
  { unfold manager_ok. cbn. rewrite E1, E2, E3. apply (ok_item _ _ _ p q); [exact H|exact Hq|apply same_place_eq; reflexivity|apply evolves_changeFlags]. }
  destruct (removeItem_ok (set_item m3 p q3) p H3) as (m4 & -> & H4 & Hqd & Hit); [cbn; rewrite E2; exact Hp|]. cbn [mbind option_bind].
  eexists true, _. split; [reflexivity|]. split; [exact H4|]. cbn in Hqd, Hit. split; [|intros i Hi; apply Hqd in Hi; rewrite E2 in Hi; apply Hi].
  intros Hc x qx Hx Hqx. cbn in Hx, Hqx. apply Hqd in Hx as [Hx Hne]. rewrite E2 in Hx. rewrite Hit, E1, lookup_insert_ne in Hqx by congruence. apply (Hc x qx Hx Hqx).
Qed.

(** ** Sources *)

Lemma same_sources_ok q src : (forall u, is_Some (src !! u) <-> is_Some (qi_sources q !! u)) ->
  let q' := set_sources q (qi_sourcesVersion q) src (qi_badSources q) (qi_prioQueue q) in same_place q q' /\ evolves q q'.
Proof using.
  intros Hs. split; [split; [exact Hs|]; split; [reflexivity|tauto]|]. split; [split; reflexivity|]. intros [([(H1 & [H2 H3] & H4) H5] & H6 & H7) H8].
  repeat split; try apply H1; try assumption; try apply H3; try apply H6. cbn. apply map_disjoint_spec. intros v x y Hx Hy.
  destruct (proj1 (Hs v) ltac:(exists x; exact Hx)) as [s Hs']. apply (proj1 (map_disjoint_spec _ _) H2 v s y Hs' Hy).
Qed.

Lemma alter_users (m : SourceMap) f u v : is_Some (alter f u m !! v) <-> is_Some (m !! v).
Proof using.
  destruct (decide (v = u)) as [->|Hne]; [rewrite lookup_alter_eq; destruct (m !! u); cbn; split; intros []; eauto; discriminate|].
  rewrite lookup_alter_ne by congruence. reflexivity.
Qed.

Lemma setSourceFlag_ok q u f : same_place q (setSourceFlag q u f) /\ evolves q (setSourceFlag q u f).
Proof using. apply same_sources_ok. intros v. apply alter_users. Qed.

(** A user is removed from an item and from its lists. *)
Lemma removeUser_ok h it fq uq p q u r : queue_ok it fq uq -> queued fq p -> it !! p = Some q -> is_Some (qi_sources q !! u) ->
  exists l uq', uq_removeUserL h it uq p u true = Some (<[p := set_downloads q l]> it, uq') /\
    queue_ok (<[p := removeSourceL (set_downloads q l) u r]> it) fq uq'.
Proof using.
  intros H Hp Hq Hs. destruct (uq_removeUserL_ok h it uq p q u true) as (uq' & l & E & Hwf & Hm); [apply H|exact Hq|]. exists l, uq'. split; [exact E|].
  apply (ok_at it fq uq p q); [exact H|exact Hq|eapply evolves_trans; [apply evolves_downloads|apply evolves_removeSource]|].
  assert (Hok : uq_ok (<[p := set_downloads q l]> it) uq (queued fq)) by (apply (uq_ok_change it uq _ p q); [apply H|exact Hq|apply set_downloads_place]).
  rewrite <- (insert_insert_eq it p (removeSourceL _ _ _) (set_downloads q l)).
  destruct (prio_index (qi_prioQueue q)) as [i|] eqn:Hi.
  - apply (uq_ok_drop _ uq uq' _ p (set_downloads q l) i u r Hok); [apply lookup_insert_eq|exact Hi|exact Hwf|].
    intros j v x. rewrite Hm. split; intros [H1 H2]; (split; [exact H1|]); intros (-> & E1 & ->); apply H2; repeat split; congruence.
  - assert (Hno : forall j v x, x ∈ items_of uq' j v -> x ∈ items_of uq j v /\ x <> p).
    { intros j v x Hx. apply Hm in Hx as [Hx _]. split; [exact Hx|]. intros ->. destruct (uq_sound _ _ _ (ok_users _ _ _ H) j v p Hx) as (_ & q0 & Hq0 & Hj & _). congruence. }
    split; [exact Hwf| |].
    + intros j v x Hx. apply Hno in Hx as [Hx Hne]. destruct (uq_sound _ _ _ Hok j v x Hx) as (HR & qx & Hqx & Hr). split; [exact HR|]. exists qx. rewrite lookup_insert_ne by congruence. split; assumption.
    + intros x qx v HR Hqx Hf Hv. destruct (decide (x = p)) as [->|Hne].
      * exfalso. rewrite lookup_insert_eq in Hqx. injection Hqx as <-. destruct (removeSourceL_shape (set_downloads q l) u r) as (v0 & src & bad & pr & E0). rewrite E0 in Hf.
        destruct (uq_complete _ _ _ (ok_users _ _ _ H) p q u Hp Hq Hf Hs) as (i & Hi' & _). congruence.
      * rewrite lookup_insert_ne in Hqx by congruence. destruct (uq_complete _ _ _ Hok x qx v HR Hqx Hf Hv) as (j & Hj & Hin). exists j. split; [exact Hj|].
        apply Hm. split; [exact Hin|]. intros [? _]. contradiction.
Qed.

Lemma removeSource_ok (m : Manager) target user reason removeConn fileExists : manager_ok m ->
  (forall p q, findTarget W lower m target = Some p -> m_items m !! p = Some q -> waited q = true -> getFirstSource q <> None) ->
  exists m', removeSource W lower m target user reason removeConn fileExists = Some m' /\ manager_ok m'.
Proof using.
  intros H Hw. unfold removeSource. destruct (findTarget W lower m target) as [p|] eqn:Ht; [|eauto].
  pose proof (queued_findTarget m target p Ht) as Hp. destruct (ok_lookup m p H Hp) as [q Hq]. rewrite Hq. cbn [mbind option_bind].
  destruct (isSourceL q user) eqn:Es; cbn [negb]; [|eauto].
  set (q1 := if reason =? SRC_FLAG_NO_TREE then _ else q).
  assert (Hq1 : same_place q q1 /\ evolves q q1 /\ (waited q1 = true -> getFirstSource q1 <> None)).
  { unfold q1. destruct (reason =? _); [|split; [apply same_place_eq; reflexivity|split; [apply evolves_refl|apply (Hw p q eq_refl Hq)]]].
    destruct (setSourceFlag_ok q user reason) as [H1 H2]. split; [exact H1|]. split; [exact H2|]. intros _ Hn.
    apply bool_decide_eq_true in Es. apply H1, elem_of_sources in Es.
    unfold getFirstSource in Hn. destruct ((map_to_list (qi_sources (setSourceFlag q user reason))).*1); [apply elem_of_nil in Es; exact Es|discriminate]. }
  clearbody q1. destruct Hq1 as (Hpl & Hev & Hw1).
  assert (H1 : manager_ok (set_item m p q1)) by (apply (ok_item _ _ _ p q); assumption).
  assert (Hq1 : m_items (set_item m p q1) !! p = Some q1) by apply lookup_insert_eq.
  set (m1 := set_item m p q1) in *. assert (Hp1 : queued (m_files m1) p) by exact Hp. assert (Ht1 : findTarget W lower m1 target = Some p) by exact Ht. clearbody m1.
  destruct (is_list q1).
  { destruct (removeTarget_ok m1 target fileExists H1) as (r & m' & -> & Hm' & _); [|exists m'; split; [reflexivity|exact Hm']]. intros p' q' Ht' Hq'. rewrite Ht1 in Ht'. injection Ht' as <-.
    rewrite Hq1 in Hq'. injection Hq' as <-. exact Hw1. }
  set (running := isRunning q1 && _).
  assert (H2 : exists m2 q2, (if running then '(it, uq) ← uq_removeDownload (m_downloads m1) (m_items m1) (m_users m1) p user; Some (with_users m1 it uq) else Some m1) = Some m2 /\
    manager_ok m2 /\ m_files m2 = m_files m1 /\ m_items m2 !! p = Some q2 /\ qi_sources q2 = qi_sources q1).
  { destruct running; [|exists m1, q1; split; [reflexivity|]; split; [exact H1|]; repeat split; assumption].
    destruct (removeDownload_ok (m_downloads m1) _ _ _ p q1 user H1 Hq1) as (l & uq' & -> & _ & Hok). cbn. eexists _, _. split; [reflexivity|]. split; [exact Hok|].
    split; [reflexivity|]. cbn. rewrite lookup_insert_eq. split; reflexivity. }
  destruct H2 as (m2 & q2 & -> & Hm2 & Ef & Hq2 & Esrc). cbn [mbind option_bind].
  destruct (removeUser_ok (m_downloads m2) (m_items m2) (m_files m2) (m_users m2) p q2 user reason) as (l & uq' & -> & Hok); [exact Hm2|rewrite Ef; exact Hp1|exact Hq2| |].
  { rewrite Esrc. apply Hpl. apply bool_decide_eq_true in Es. exact Es. }
  cbn [mbind option_bind]. rewrite lookup_insert_eq. cbn [mbind option_bind]. rewrite insert_insert_eq. eexists. split; [reflexivity|]. destruct (running && removeConn); exact Hok.
Qed.

Definition same_flags (it it' : Items) : Prop :=
  forall x q, it !! x = Some q -> exists q', it' !! x = Some q' /\ qi_extraFlags q' = qi_extraFlags q.

Lemma same_flags_trans it1 it2 it3 : same_flags it1 it2 -> same_flags it2 it3 -> same_flags it1 it3.
Proof using. intros H1 H2 x q Hq. destruct (H1 x q Hq) as (q' & Hq' & E). destruct (H2 x q' Hq') as (q2 & Hq2 & E2). exists q2. split; [exact Hq2|congruence]. Qed.

Lemma same_flags_at it p q q' : it !! p = Some q -> qi_extraFlags q' = qi_extraFlags q -> same_flags it (<[p := q']> it).
Proof using.
  intros Hq E x qx Hx. destruct (decide (x = p)) as [->|Hne]; [|exists qx; rewrite lookup_insert_ne by congruence; split; [exact Hx|reflexivity]].
  exists q'. rewrite lookup_insert_eq. split; [reflexivity|]. congruence.
Qed.

Lemma calm_flags (m m' : Manager) : manager_ok m -> same_flags (m_items m) (m_items m') -> m_files m' = m_files m -> calm m -> calm m'.
Proof using.
  intros H Hs Ef Hc p q Hp Hq. rewrite Ef in Hp. destruct (ok_lookup m p H Hp) as [q0 Hq0]. destruct (Hs p q0 Hq0) as (q1 & Hq1 & E). rewrite Hq in Hq1. injection Hq1 as <-.
  unfold waited. rewrite E. apply (Hc p q0 Hp Hq0).
Qed.

(** ** All sources of a user *)

Lemma drop_source_ok fq uq i user reason : (i < length (uq_map uq))%nat -> forall l it targets dirty,
  queue_ok it fq (uq_store uq i user l) ->
  exists it' t d, drop_source it l user reason targets dirty = Some (it', t, d) /\ queue_ok it' fq (uq_store uq i user []) /\ same_flags it it'.
Proof using.
  intros Hi. induction l as [|p l IH]; intros it targets dirty H; cbn [drop_source].
  - eexists _, _, _. split; [reflexivity|]. split; [exact H|]. intros x q Hq. eauto.
  - assert (Hl : items_of (uq_store uq i user (p :: l)) i user = p :: l) by (rewrite items_of_store, decide_True by (exact Hi || (split; reflexivity)); reflexivity).
    destruct (uq_sound _ _ _ (ok_users _ _ _ H) i user p) as (Hp & q & Hq & Hidx & _); [rewrite Hl; left|]. rewrite Hq. cbn [mbind option_bind].
    pose proof (items_of_wf _ i user (uq_ok_wf _ _ _ (ok_users _ _ _ H))) as Hnd. rewrite Hl in Hnd. apply NoDup_cons in Hnd as [Hpl Hnd].
    assert (H1 : queue_ok (<[p := removeSourceL q user reason]> it) fq (uq_store uq i user l)).
    { apply (ok_at it fq _ p q _ _ H Hq); [apply evolves_removeSource|]. apply (uq_ok_drop it _ _ _ p q i user reason (ok_users _ _ _ H) Hq Hidx).
      - apply (uq_store_again uq i user (p :: l)); [exact Hi|apply H|exact Hnd].
      - intros j v x. rewrite !items_of_store by exact Hi. destruct (decide _) as [[-> ->]|Hd].
        + rewrite elem_of_cons. split; [intros Hx; split; [right; exact Hx|]; intros (-> & _); contradiction|]. intros [[->|Hx] Hn]; [exfalso; apply Hn; repeat split|exact Hx].
        + split; [|tauto]. intros Hx. split; [exact Hx|]. intros (_ & -> & ->). apply Hd. split; reflexivity. }
    assert (Hf : same_flags it (<[p := removeSourceL q user reason]> it)).
    { apply (same_flags_at it p q _ Hq). destruct (removeSourceL_shape q user reason) as (v & src & bad & pr & ->). reflexivity. }
    destruct (isAnySet (qi_flags q) FLAG_USER_LIST);
      [destruct (IH _ (targets ++ [qi_target q]) dirty H1) as (it' & t & d & E & Hok & Hf')|destruct (IH _ targets true H1) as (it' & t & d & E & Hok & Hf')];
      exists it', t, d; (split; [exact E|]); (split; [exact Hok|]); apply (same_flags_trans _ _ _ Hf Hf').
Qed.

Lemma drop_lists_ok fq user reason ps : Forall (fun i => i < Z.to_nat LAST)%nat ps -> forall it uq targets dirty, queue_ok it fq uq ->
  exists it' uq' t d, drop_lists ps it uq user reason targets dirty = Some (it', uq', t, d) /\ queue_ok it' fq uq' /\ same_flags it it' /\
    uq_running uq' = uq_running uq.
Proof using.
  induction 1 as [|i ps Hi _ IH]; intros it uq targets dirty H; cbn [drop_lists].
  - eexists _, _, _, _. split; [reflexivity|]. split; [exact H|]. split; [|reflexivity]. intros x q Hq. eauto.
  - destruct (uq_items uq i user) as [l|] eqn:El; [|apply IH, H]. pose proof (uq_ok_wf _ _ _ (ok_users _ _ _ H)) as [Hlen Hls].
    destruct (Hls i user l El) as [Hl _]. rewrite <- (uq_store_id user uq i l El Hl) in H.
    destruct (drop_source_ok fq uq i user reason ltac:(lia) l it targets dirty H) as (it1 & t1 & d1 & -> & H1 & Hf1). cbn [mbind option_bind].
    destruct (IH it1 (uq_store uq i user []) t1 d1 H1) as (it2 & uq2 & t2 & d2 & E & H2 & Hf2 & Er). exists it2, uq2, t2, d2. split; [exact E|]. split; [exact H2|]. split; [|exact Er]. apply (same_flags_trans _ _ _ Hf1 Hf2).
Qed.

Lemma removeTargets_ok fileExists targets : forall m : Manager, manager_ok m -> calm m ->
  exists m', foldl (fun m target => m ← m; snd <$> removeTarget W lower m target fileExists) (Some m) targets = Some m' /\ manager_ok m'.
Proof using.
  induction targets as [|t ts IH]; intros m H Hc; cbn [foldl]; [eauto|]. rewrite option_bind_Some_eq.
  destruct (removeTarget_ok m t fileExists H) as (r & m1 & -> & H1 & Hc1 & _).
  { intros p q Ht Hq Hw. rewrite (Hc p q (queued_findTarget m t p Ht) Hq) in Hw. discriminate. }
  cbn. apply IH; [exact H1|apply Hc1, Hc].
Qed.

Lemma removeSource_user_ok (m : Manager) user reason fileExists : manager_ok m -> calm m ->
  (forall p, getRunning (m_users m) user = Some p -> is_Some (m_items m !! p)) ->
  exists m', removeSource_user W lower m user reason fileExists = Some m' /\ manager_ok m'.
Proof using.
  intros H Hc Hr. unfold removeSource_user.
  destruct (drop_lists_ok (m_files m) user reason (rev (seq 0 (Z.to_nat LAST)))) with (it := m_items m) (uq := m_users m) (targets := @nil (list Z)) (dirty := false)
    as (it1 & uq1 & targets & dirty & -> & H1 & Hf1 & Er); [|exact H|].
  { apply Forall_forall. intros i Hi. apply list_elem_of_In, in_rev, in_seq in Hi. lia. }
  cbn [mbind option_bind]. set (m1 := with_users m it1 uq1). assert (Hm1 : manager_ok m1) by exact H1.
  assert (Hc1 : calm m1) by (apply (calm_flags m); [exact H|exact Hf1|reflexivity|exact Hc]).
  assert (Hr1 : forall p, getRunning (m_users m1) user = Some p -> is_Some (m_items m1 !! p)).
  { unfold getRunning, m1. cbn. rewrite Er. intros p Hp. destruct (Hr p Hp) as [q Hq]. destruct (Hf1 p q Hq) as (q' & Hq' & _). eauto. }
  clearbody m1.
  set (run := match getRunning (m_users m1) user with Some p => _ | None => _ end).
  assert (Hrun : exists m2 d2, run = Some (m2, d2) /\ manager_ok m2 /\ calm m2).
  { unfold run. destruct (getRunning (m_users m1) user) as [p|]; [|eexists _, _; split; [reflexivity|]; split; assumption].
    destruct (Hr1 p eq_refl) as [q Hq]. rewrite Hq. cbn [mbind option_bind]. destruct (negb _); [|eexists _, _; split; [reflexivity|]; split; assumption].
    destruct (removeDownload_ok (m_downloads m1) _ _ _ p q user Hm1 Hq) as (l & uq' & -> & _ & Hok). cbn. eexists _, _. split; [reflexivity|]. split; [exact Hok|].
    apply (calm_flags m1); [exact Hm1| |reflexivity|exact Hc1]. apply (same_flags_at _ p q); [exact Hq|reflexivity]. }
  destruct Hrun as (m2 & d2 & -> & H2 & Hc2). cbn [mbind option_bind].
  destruct (removeTargets_ok fileExists targets m2 H2 Hc2) as (m3 & -> & H3). cbn. eexists. split; [reflexivity|]. destruct d2; exact H3.
Qed.

(** ** Priorities *)

Lemma setPriority_ok isOnline (m : Manager) target prio reset : manager_ok m -> prio <> DEFAULT ->
  exists m', setPriority W lower isOnline m target prio reset = Some m' /\ manager_ok m'.
Proof using.
  intros H Hd. unfold setPriority. destruct (findTarget W lower m target) as [p|] eqn:Ht; [|eauto].
  pose proof (queued_findTarget m target p Ht) as Hp. destruct (ok_lookup m p H Hp) as [q Hq]. rewrite Hq. cbn [mbind option_bind].
  set (rst := reset && _). set (m1 := if rst then _ else m). set (change := negb _ && negb _). set (getConn := if change && _ then _ else _).
  assert (H1 : manager_ok m1 /\ m_files m1 = m_files m /\ exists q1, m_items m1 !! p = Some q1).
  { unfold m1. destruct rst; [|eauto]. split; [|split; [reflexivity|cbn; rewrite lookup_insert_eq; eauto]].
    apply (ok_item _ _ _ p q); [exact H|exact Hq|apply same_place_eq; reflexivity|apply evolves_flags]. }
  destruct H1 as (H1 & Ef & q1 & Hq1). clearbody m1. rewrite <- Ef in Hp.
  assert (H2 : exists m2, (if change then '(it, uq) ← uq_setQIPriority (m_downloads m1) (m_items m1) (m_users m1) p prio; Some (with_users m1 it uq) else Some m1) = Some m2 /\ manager_ok m2).
  { destruct change; [|eauto]. destruct (uq_setQIPriority_ok (m_downloads m1) (m_items m1) (m_users m1) (queued (m_files m1)) p q1 prio) as (uq' & l & -> & Hu);
      [apply H1|exact Hq1|exact Hd|]. cbn. eexists. split; [reflexivity|]. apply (ok_at _ _ (m_users m1) p q1); [exact H1|exact Hq1| |].
    - eapply evolves_trans; [apply (evolves_downloads _ l)|]. eapply evolves_trans; [apply evolves_priority, Hd|apply evolves_prioQueue].
    - apply (uq_ok_registered _ _ _ _ Hu). intros x. split; [intros [Hx| ->]; assumption|tauto]. }
  destruct H2 as (m2 & -> & H2). cbn. eexists. split; [reflexivity|]. destruct (rst || change); exact H2.
Qed.

Lemma calculateAutoPriorityL_ok q : good q -> exists prio, calculateAutoPriorityL q = Some prio /\ prio <> DEFAULT.
Proof using.
  intros [(_ & _ & Hsz) Hp]. unfold calculateAutoPriorityL. destruct (negb _); [|eauto]. destruct (Z.eqb_spec (qi_size q) 0); [lia|].
  eexists. split; [reflexivity|]. destruct (_ && _); [discriminate|]. destruct (_ && _); [discriminate|]. destruct (_ && _); discriminate.
Qed.

Lemma setAutoPriority_ok isOnline (m : Manager) target ap : manager_ok m ->
  exists m', setAutoPriority W lower isOnline m target ap = Some m' /\ manager_ok m'.
Proof using.
  intros H. unfold setAutoPriority. destruct (findTarget W lower m target) as [p|] eqn:Ht; [|eauto].
  pose proof (queued_findTarget m target p Ht) as Hp. destruct (ok_lookup m p H Hp) as [q Hq]. rewrite Hq. cbn [mbind option_bind].
  set (f := if ap then _ else _). destruct (negb (f =? qi_extraFlags q)); [|eauto].
  destruct (calculateAutoPriorityL_ok (setExtraFlags q f)) as (prio & Ep & Hd); [apply evolves_flags, (ok_good _ _ _ H p q Hp Hq)|].
  assert (H1 : manager_ok (fire (setDirty (set_item m p (setExtraFlags q f))) [StatusUpdated p])).
  { apply (ok_item _ _ _ p q); [exact H|exact Hq|apply same_place_eq; reflexivity|apply evolves_flags]. }
  destruct ap; [rewrite Ep|]; cbn [mbind option_bind]; [|eauto]. apply setPriority_ok; assumption.
Qed.

(** ** Moving an item *)

Lemma good_move q target : good q -> good (QueueItem_move target q).1.
Proof using. intros [(H1 & H2 & H3) H4]. split; [|exact H4]. split; [|split; assumption]. apply (qi_step_inv q); [exact H1|constructor]. Qed.

(** The key of the new target is free once the item is out of the queue. *)
Lemma free_key it it' (fq fq' : @FileQueue Regex) p key : fq_ok it fq -> fq_ok it' fq' -> (forall i, queued fq' i <-> queued fq i /\ i <> p) -> (forall i, i <> p -> it' !! i = it !! i) ->
  (forall i, fq_queue fq !! key = Some i -> i = p) -> fq_queue fq' !! key = None.
Proof using.
  intros Hok Hok' Hq Hit Hk. apply eq_None_not_Some. intros [i Hi]. destruct (fq_keys _ _ _ _ Hok' key i Hi) as (q & Hqi & E).
  assert (Hi' : queued fq i /\ i <> p) by (apply Hq; exists key; exact Hi). destruct Hi' as [Hqi' Hne]. rewrite Hit in Hqi by exact Hne. apply Hne, Hk.
  rewrite <- E. apply (queued_key W lower it fq i q); assumption.
Qed.

Lemma move_item_ok (m : Manager) ps ptr target qs : manager_ok m -> queued (m_files m) ps -> m_items m !! ps = Some qs -> m_items m !! ptr = None ->
  (forall i, fq_queue (m_files m) !! target_key W lower target = Some i -> i = ps) ->
  exists m', ('(it, uq) ← uq_removeQueueItemL (m_downloads m) (m_items m) (m_users m) ps false;
     '(it, fq, _) ← fq_moveTarget W lower it (m_files m) ps ptr target;
     qs ← it !! ps;
     '(it, uq) ← uq_addL it uq ptr (qi_priority qs);
     Some (setDirty (fire (with_users (with_files m it fq) it uq) [Moved ps ptr]))) = Some m' /\ manager_ok m'.
Proof using.
  intros H Hp Hq Hnew Hkey. assert (Hne : ptr <> ps) by congruence.
  destruct (uq_removeQueueItemL_ok (m_downloads m) (m_items m) (m_users m) (queued (m_files m)) ps qs false) as (uq1 & l & -> & Hu1); [apply H|exact Hq|]. cbn [mbind option_bind].
  assert (Hf1 : fq_ok (<[ps := set_downloads qs l]> (m_items m)) (m_files m)) by (apply (fq_ok_change W lower _ _ ps qs); [apply H|exact Hq|split; reflexivity]).
  unfold fq_moveTarget. destruct (fq_remove_ok W lower _ (m_files m) ps Hf1 Hp) as (it2 & fq2 & -> & Hf2 & Hqd & Hit & Hps).
  cbn [mbind option_bind]. rewrite (Hps _ (lookup_insert_eq _ _ _)). cbn [mbind option_bind].
  set (qm := set_downloads (set_downloads qs l) []). destruct (QueueItem_move target qm) as [qt qs'] eqn:Em.
  assert (Eqt : qt = (QueueItem_move target qm).1) by (rewrite Em; reflexivity). assert (Eqs : qs' = (QueueItem_move target qm).2) by (rewrite Em; reflexivity). clear Em.
  set (it3 := <[ptr := qt]> (<[ps := qs']> it2)).
  assert (Hit' : forall i, i <> ps -> it2 !! i = m_items m !! i) by (intros i Hi; rewrite Hit, lookup_insert_ne by congruence; reflexivity).
  assert (Hold : forall i, queued fq2 i -> i <> ps /\ i <> ptr).
  { intros i Hi. apply Hqd in Hi as [Hi Hi']. split; [exact Hi'|]. intros ->. destruct (ok_lookup m ptr H Hi). congruence. }
  assert (Hf3 : fq_ok it3 fq2).
  { apply (fq_ok_items W lower it2 _ fq2 Hf2). intros i q Hi Hqi. exists q. split; [|split; reflexivity]. destruct (Hold i Hi). unfold it3. rewrite !lookup_insert_ne by congruence. exact Hqi. }
  assert (Hfree : fq_queue fq2 !! target_key W lower target = None).
  { apply (free_key (m_items m) it2 (m_files m) fq2 ps); [apply H|exact Hf2|exact Hqd|exact Hit'|exact Hkey]. }
  destruct (fq_addL W lower it3 fq2 ptr) as [[b fq3]|] eqn:Ea.
  2: { exfalso. unfold fq_addL, it3 in Ea. rewrite lookup_insert_eq in Ea. cbn [mbind option_bind] in Ea.
    destruct (fq_queue fq2 !! target_key W lower (qi_target qt)); discriminate. }
  assert (b = true) as ->.
  { unfold fq_addL, it3 in Ea. rewrite lookup_insert_eq in Ea. cbn [mbind option_bind] in Ea. rewrite Eqt in Ea. change (qi_target (QueueItem_move target qm).1) with target in Ea.
    rewrite Hfree in Ea. congruence. }
  apply fq_addL_ok in Ea as (Hf4 & Hqd4 & _); [|exact Hf3|intros Hx; destruct (Hold _ Hx); contradiction]. specialize (Hqd4 eq_refl).
  cbn [mbind option_bind]. assert (Hps3 : it3 !! ps = Some qs') by (unfold it3; rewrite lookup_insert_ne, lookup_insert_eq by congruence; reflexivity). rewrite Hps3. cbn [mbind option_bind].
  assert (Eprio : qi_priority qs' = qi_priority qs) by (rewrite Eqs; reflexivity). rewrite Eprio.
  assert (Hg : good qt). { rewrite Eqt. apply good_move. apply evolves_downloads, evolves_downloads. apply (ok_good _ _ _ H ps qs Hp Hq). }
  destruct (uq_addL_ok it3 uq1 (fun x => queued (m_files m) x /\ x <> ps) ptr qt (qi_priority qs)) as (uq4 & -> & Hu4 & _).
  - apply (uq_ok_items _ _ _ _ Hu1). intros x [Hx Hxp]. unfold it3. destruct (decide (ptr = x)) as [<-|]; [destruct (ok_lookup m ptr H Hx); congruence|].
    rewrite !lookup_insert_ne by congruence. rewrite Hit, lookup_insert_ne by congruence. reflexivity.
  - intros [Hx _]. destruct (ok_lookup m ptr H Hx). congruence.
  - apply lookup_insert_eq.
  - apply (ok_good _ _ _ H ps qs Hp Hq).
  - cbn [mbind option_bind]. eexists. split; [reflexivity|]. split; cbn.
    + apply (fq_ok_change W lower _ _ ptr qt); [exact Hf4|apply lookup_insert_eq|split; reflexivity].
    + apply (uq_ok_registered _ _ _ _ Hu4). intros x. rewrite Hqd4, Hqd. reflexivity.
    + intros x qx Hx Hqx. apply Hqd4 in Hx as [Hx| ->].
      * destruct (Hold x Hx) as [N1 N2]. unfold it3 in Hqx. rewrite !lookup_insert_ne in Hqx by congruence. rewrite Hit' in Hqx by exact N1.
        apply (ok_good _ _ _ H x qx); [apply Hqd, Hx|exact Hqx].
      * rewrite lookup_insert_eq in Hqx. injection Hqx as <-. apply evolves_prioQueue, Hg.
Qed.

Lemma addSources_ok pt us : forall m : Manager, manager_ok m -> queued (m_files m) pt -> calm m ->
  exists m', foldl (fun m user => m ← m; snd <$> m_addSourceL m pt user SRC_FLAG_MASK) (Some m) us = Some m' /\ manager_ok m' /\ calm m'.
Proof using.
  induction us as [|u us IH]; intros m H Hp Hc; cbn [foldl]; [eauto|]. rewrite option_bind_Some_eq.
  destruct (m_addSourceL_ok m pt u SRC_FLAG_MASK H Hp) as (r & m1 & -> & H1 & Ef & Hfl). cbn. apply IH; [exact H1|rewrite Ef; exact Hp|].
  apply (calm_flags m); assumption.
Qed.

Lemma m_move_ok (m : Manager) source target ptr fileExists : manager_ok m -> calm m -> m_items m !! ptr = None ->
  (stricmp_eq source target = true -> target_key W lower source = target_key W lower target) ->
  exists m', m_move W lower m source target ptr fileExists = Some m' /\ manager_ok m'.
Proof using.
  intros H Hc Hnew Hkey. unfold m_move. case_bool_decide; [eauto|]. destruct (findTarget W lower m source) as [ps|] eqn:Hs; [|eauto].
  pose proof (queued_findTarget m source ps Hs) as Hp. destruct (ok_lookup m ps H Hp) as [qs Hq]. rewrite Hq. cbn [mbind option_bind].
  destruct (is_list qs || isRunning qs); [eauto|]. destruct (if stricmp_eq source target then None else _) as [pt|] eqn:Ht.
  - destruct (stricmp_eq source target); [discriminate|]. pose proof (queued_findTarget m target pt Ht) as Hpt. destruct (ok_lookup m pt H Hpt) as [qt Hqt]. rewrite Hqt. cbn [mbind option_bind].
    destruct (_ || _); [eauto|]. destruct (addSources_ok pt (map_to_list (qi_sources qs)).*1 m H Hpt Hc) as (m1 & -> & H1 & Hc1). cbn [mbind option_bind].
    destruct (removeTarget_ok m1 source fileExists H1) as (r & m2 & -> & H2 & _); [|cbn; eauto].
    intros p q Hp1 Hq1 Hw. rewrite (Hc1 p q (queued_findTarget m1 source p Hp1) Hq1) in Hw. discriminate.
  - apply (move_item_ok m ps ptr target qs H Hp Hq Hnew). intros i Hi. unfold findTarget, fq_findTarget in Hs, Ht. destruct (stricmp_eq source target).
    + rewrite <- Hkey in Hi by reflexivity. congruence.
    + congruence.
Qed.

(** ** Giving a download to a connection *)

Definition keeps (q q' : QueueItem) : Prop := same_place q q' /\ evolves q q'.

Lemma keeps_refl q : keeps q q.
Proof using. split; [apply same_place_eq; reflexivity|apply evolves_refl]. Qed.

Lemma keeps_trans q1 q2 q3 : keeps q1 q2 -> keeps q2 q3 -> keeps q1 q3.
Proof using.
  intros [(H1 & H2 & H3) H4] [(H5 & H6 & H7) H8]. split; [|apply (evolves_trans _ _ _ H4 H8)]. split; [intros u; rewrite H5; apply H1|]. split; [congruence|tauto].
Qed.

Lemma keeps_downloads q l : keeps q (set_downloads q l).
Proof using. split; [apply set_downloads_place|apply evolves_downloads]. Qed.

Lemma keeps_changeFlags q v k : keeps q (changeExtraFlags q v k).
Proof using. split; [apply same_place_eq; reflexivity|apply evolves_changeFlags]. Qed.

Lemma keeps_updateSpeed h q : keeps q (updateDownloadedBytesAndSpeed h q).
Proof using. split; [apply updateSpeed_place|apply evolves_updateSpeed]. Qed.

Lemma keeps_removeSegment q seg : keeps q (removeDownload_seg q seg).2.
Proof using. unfold removeDownload_seg. destruct (erase_first _ _); [apply keeps_downloads|apply keeps_refl]. Qed.

Lemma keeps_setDownload q seg d : keeps q (setDownloadForSegment q seg d).2.
Proof using. unfold setDownloadForSegment. destruct (set_download_in _ _ _); [apply keeps_downloads|apply keeps_refl]. Qed.

Lemma keeps_reset q : isFinished q = false -> keeps q (resetDownloaded q).
Proof using. intros Hf. split; [|apply evolves_reset]. split; [reflexivity|]. split; [reflexivity|]. rewrite Hf. discriminate. Qed.

Lemma keeps_blockSize q n : n < 2 ^ 63 -> keeps q (updateBlockSize q n).2.
Proof using.
  intros Hn. unfold updateBlockSize. destruct (Z.ltb_spec (qi_blockSize q) n) as [Hlt|]; [|apply keeps_refl]. cbn [snd].
  split; [apply same_place_eq; reflexivity|]. split; [split; reflexivity|]. intros [(H1 & H2 & H3) H4]. split; [|exact H4]. split; [|split; [cbn; lia|exact H3]]. exact H1.
Qed.

Lemma keeps_sources q q' : keeps q q' -> forall u, is_Some (qi_sources q' !! u) <-> is_Some (qi_sources q !! u).
Proof using. intros [(H & _) _]. exact H. Qed.

Lemma ok_keeps it fq uq p q q' : queue_ok it fq uq -> it !! p = Some q -> keeps q q' -> queue_ok (<[p := q']> it) fq uq.
Proof using. intros H Hq [H1 H2]. apply (ok_item it fq uq p q); assumption. Qed.

(** What [getNextL] does to the items. *)
Definition items_evolve (it it' : Items) : Prop := forall x q, it !! x = Some q -> exists q', it' !! x = Some q' /\ evolves q q'.

Lemma items_evolve_trans it1 it2 it3 : items_evolve it1 it2 -> items_evolve it2 it3 -> items_evolve it1 it3.
Proof using. intros H1 H2 x q Hq. destruct (H1 x q Hq) as (q' & Hq' & E). destruct (H2 x q' Hq') as (q2 & Hq2 & E2). exists q2. split; [exact Hq2|apply (evolves_trans _ _ _ E E2)]. Qed.

Lemma items_evolve_at it p q q' : it !! p = Some q -> evolves q q' -> items_evolve it (<[p := q']> it).
Proof using.
  intros Hq E x qx Hx. destruct (decide (x = p)) as [->|Hne]; [|exists qx; rewrite lookup_insert_ne by congruence; split; [exact Hx|apply evolves_refl]].
  exists q'. rewrite lookup_insert_eq. split; [reflexivity|]. rewrite Hq in Hx. injection Hx as <-. exact E.
Qed.

(** The item of a result is an object. *)
Definition points (it : Items) (r : QueueItemSegment) : Prop := forall p, qs_qi r = Some p -> is_Some (it !! p).

Lemma points_evolve it it' r : items_evolve it it' -> points it r -> points it' r.
Proof using. intros H Hr p Hp. destruct (Hr p Hp) as [q Hq]. destruct (H p q Hq) as (q' & Hq' & _). eauto. Qed.

Lemma next_loop_items rand user gsp flags hf l : forall kept it e r found l' it' e' r', points it r ->
  next_loop rand user gsp flags hf kept l it e r = Some (found, l', it', e', r') -> items_evolve it it' /\ points it' r'.
Proof using.
  assert (Hid : forall it, items_evolve it it) by (intros it x q Hq; exists q; split; [exact Hq|apply evolves_refl]).
  induction l as [|p l IH]; intros kept it e r found l' it' e' r' Hr; cbn [next_loop]; [intros [= <- <- <- <- <-]; split; [apply Hid|exact Hr]|].
  destruct (next_verdict rand user gsp flags it hf p) as [v|]; cbn [mbind option_bind]; [|discriminate]. destruct (it !! p) as [q|] eqn:Hq; cbn [mbind option_bind]; [|discriminate].
  assert (Hp : forall r0, points it (set_qs_qi r0 p)) by (intros r0 p' [= <-]; eauto).
  destruct v as [| |seg sf|e1 rm]; [apply IH, Hr|apply IH, Hp| |].
  - set (add := _ && _). destruct add.
    + intros [= <- <- <- <- <-]. split; [apply (items_evolve_at it p q _ Hq), evolves_downloads|]. intros p' [= <-]. rewrite lookup_insert_eq. eauto.
    + intros [= <- <- <- <- <-]. split; [apply Hid|]. intros p' [= <-]. eauto.
  - set (er := if bool_decide _ then _ else _). assert (Her : points it er.2) by (unfold er; case_bool_decide; [apply Hp|exact Hr]). destruct er as [e2 r2]. cbn in Her.
    destruct rm; [|apply IH, Her]. intros E.
    assert (Hev : items_evolve it (<[p := removeSourceL q user SRC_FLAG_NO_NEED_PARTS]> it)) by (apply (items_evolve_at it p q _ Hq), evolves_removeSource).
    apply IH in E as [H1 H2]; [|apply (points_evolve it _ _ Hev Her)]. split; [apply (items_evolve_trans _ _ _ Hev H1)|exact H2].
Qed.

Lemma prio_loop_items rand user gsp flags hf ps : forall it uq e r e' r' it' uq', points it r ->
  prio_loop rand user gsp flags hf ps it uq e r = Some (e', r', it', uq') -> items_evolve it it' /\ points it' r'.
Proof using.
  induction ps as [|i ps IH]; intros it uq e r e' r' it' uq' Hr; cbn [prio_loop].
  { intros [= <- <- <- <-]. split; [|exact Hr]. intros x q Hq. exists q. split; [exact Hq|apply evolves_refl]. }
  destruct (uq_map uq !! i) as [mi|]; cbn [mbind option_bind]; [|discriminate]. destruct (mi !! user) as [l|]; [|apply IH, Hr].
  destruct (next_loop _ _ _ _ _ _ _ _ _ _) as [[[[[found l'] it1] e1] r1]|] eqn:E; cbn [mbind option_bind]; [|discriminate].
  apply next_loop_items in E as [H1 H2]; [|exact Hr]. destruct found; [intros [= <- <- <- <-]; split; assumption|].
  intros E. apply IH in E as [H3 H4]; [|exact H2]. split; [apply (items_evolve_trans _ _ _ H1 H3)|exact H4].
Qed.

Lemma getNextL_items rand fileSlots user gsp flags it uq minPrio e r it' uq' :
  uq_getNextL rand fileSlots user gsp flags it uq minPrio = Some (e, r, it', uq') -> items_evolve it it' /\ points it' r.
Proof using. unfold uq_getNextL. destruct (prio_index minPrio); cbn [mbind option_bind]; [|discriminate]. apply prio_loop_items. intros p. discriminate. Qed.

Lemma ok_evolve it it' fq uq uq' : queue_ok it fq uq -> items_evolve it it' -> uq_ok it' uq' (queued fq) -> queue_ok it' fq uq'.
Proof using.
  intros [H1 H2 H3] He Hu. split; [|exact Hu|].
  - apply (fq_ok_items W lower it _ fq H1). intros p q _ Hq. destruct (He p q Hq) as (q' & Hq' & Hs & _). eauto.
  - intros p q Hp Hq. destruct (queued_item W lower it fq p H1 Hp) as [q0 Hq0]. destruct (He p q0 Hq0) as (q' & Hq' & _ & Hg). rewrite Hq in Hq'. injection Hq' as <-.
    apply Hg, (H3 p q0 Hp Hq0).
Qed.

Lemma choose_segment_ok rand2 gsp c tree q user seg sf added type : good q -> maxChunkSize gsp < 2 ^ 31 ->
  (forall n, tree = Some n -> n < 2 ^ 63) -> (forall s, qi_sources q !! user = Some s -> src_partial s = None) ->
  exists seg' added' type' q', choose_segment rand2 gsp c tree q user seg sf added type = Some (seg', added', type', q') /\ keeps q q'.
Proof using.
  intros Hg Hmax Ht Hs. unfold choose_segment.
  assert (Hun : forall q0, keeps q0 (if added then (removeDownload_seg q0 seg).2 else q0) /\ qi_sources (if added then (removeDownload_seg q0 seg).2 else q0) = qi_sources q0).
  { intros q0. destruct added; [|split; [apply keeps_refl|reflexivity]]. split; [apply keeps_removeSegment|]. unfold removeDownload_seg. destruct (erase_first _ _); reflexivity. }
  destruct (bool_decide (type = TYPE_FILE) && negb (qi_size q =? -1)) eqn:Ec; cbn [andb]; [|eexists _, _, _, _; split; [reflexivity|apply keeps_refl]].
  destruct (negb (HashValue_isZero (qi_tthRoot q))); [|eexists _, _, _, _; split; [reflexivity|apply keeps_refl]].
  assert (Hsz : 0 < qi_size q). { apply andb_prop in Ec as [_ Ec]. destruct Hg as [(_ & _ & Hsz) _]. apply negb_true_iff, Z.eqb_neq in Ec. lia. }
  destruct tree as [n|]; [|eexists _, _, _, _; split; [reflexivity|apply Hun]].
  pose proof (keeps_blockSize q n (Ht n eq_refl)) as Hk. assert (Es : qi_sources (updateBlockSize q n).2 = qi_sources q /\ qi_size (updateBlockSize q n).2 = qi_size q) by (unfold updateBlockSize; destruct (_ <? _); split; reflexivity).
  destruct (updateBlockSize q n) as [upd q1]. cbn [snd] in Hk, Es. destruct upd.
  2: { cbn [mbind option_bind]. eexists _, _, _, _. split; [reflexivity|]. apply (keeps_trans _ _ _ Hk), keeps_changeFlags. }
  destruct (Hun q1) as [Hk2 Es2]. set (q2 := if added then _ else q1) in *.
  assert (E2 : qi_size q2 = qi_size q1) by (unfold q2, removeDownload_seg; destruct added; [destruct (erase_first _ _)|]; reflexivity).
  assert (Hkq : keeps q q2) by (apply (keeps_trans _ _ _ Hk Hk2)).
  destruct (qi_sources q2 !! user) as [s|] eqn:Eu.
  - rewrite Es2, (proj1 Es) in Eu. rewrite (Hs s Eu). destruct (full_source_answer q2 gsp rand2) as [[seg2 e2] ->]; [apply Hkq, Hg|exact Hmax|].
    cbn [mbind option_bind]. eexists _, _, _, _. split; [reflexivity|]. apply (keeps_trans _ _ _ Hkq), keeps_changeFlags.
  - cbn [mbind option_bind]. eexists _, _, _, _. split; [reflexivity|]. apply (keeps_trans _ _ _ Hkq), keeps_changeFlags.
Qed.

(** The user has all of each file it is a source of. *)
Definition full_source (m : Manager) (user : UserPtr) : Prop :=
  forall p q s, queued (m_files m) p -> m_items m !! p = Some q -> qi_sources q !! user = Some s -> src_partial s = None.

(** In single-chunk mode the items of the user are not finished, and their done segments are on block boundaries. *)
Definition chunk_ready (gsp : GetSegmentParams) (m : Manager) (user : UserPtr) : Prop :=
  enableMultiChunk gsp = false ->
  forall p q, queued (m_files m) p -> m_items m !! p = Some q -> is_Some (qi_sources q !! user) -> single_ready q.

Lemma getDownload_ok rand rand2 fileSlots gsp c now tempExists startDownload tree checkSlots memory d errorInfo (m : Manager) :
  manager_ok m -> maxChunkSize gsp < 2 ^ 31 -> (forall n, tree = Some n -> n < 2 ^ 63) ->
  (forall user, c_user c = Some user -> full_source m user /\ chunk_ready gsp m user) ->
  exists i r m', getDownload rand rand2 fileSlots gsp c now tempExists startDownload tree checkSlots memory d errorInfo m = Some (i, r, m') /\ manager_ok m'.
Proof using.
  intros H Hmax Htree Hfull. unfold getDownload. destruct (c_user c) as [user|]; [|eauto]. destruct (Hfull user eq_refl) as [Hfull' Hm]. clear Hfull. rename Hfull' into Hfull.
  destruct (getNextL_first rand fileSlots user gsp (Z.lor FLAG_ADD_SEGMENT FLAG_ALLOW_REMOVE) (queued (m_files m)) (m_items m) (m_users m) LOWEST 1 (ok_users _ _ _ H) eq_refl)
    as (e & r & it & uq & E & Hu & Hres).
  { apply Forall_forall. intros p (i & _ & Hp)%elem_of_order. destruct (uq_sound _ _ _ (ok_users _ _ _ H) i user p Hp) as (Hp' & q & Hq & _ & Hu).
    apply (item_ready_answers rand user gsp); [exact Hmax|]. exists q. split; [exact Hq|]. split; [apply (ok_good _ _ _ H p q Hp' Hq)|].
    split; [intros Es; apply (Hm Es p q Hp' Hq Hu)|]. intros s Hs. rewrite (Hfull p q s Hp' Hq Hs). split; [exact I|]. intros [? ?]. discriminate. }
  rewrite E. cbn [mbind option_bind]. apply getNextL_items in E as [Hev Hpt]. pose proof (ok_evolve _ _ _ _ _ H Hev Hu) as H1.
  destruct (find _ _) as [p|] eqn:Ef.
  2: { rewrite bool_decide_false by exact Hres. cbn [negb]. destruct (qs_qi r) as [p|] eqn:Er; [|eauto]. destruct (Hpt p Er) as [q ->]. cbn [mbind option_bind]. eauto. }
  destruct Hres as (-> & q & s & seg & e1 & Hq & Hs & Hseg & Hne & -> & Hq').
  apply find_some in Ef as [Hp _]. apply list_elem_of_In, elem_of_order in Hp as (i & _ & Hp). apply (uq_sound _ _ _ (ok_users _ _ _ H)) in Hp as (Hp & _).
  assert (Hg : good q) by (apply (ok_good _ _ _ H p q Hp Hq)). assert (Hps : src_partial s = None) by (apply (Hfull p q s Hp Hq Hs)).
  assert (Hnf : isFinished q = false).
  { rewrite Hps in Hseg. destruct (enableMultiChunk gsp) eqn:Em; [|apply (Hm Em p q Hp Hq); rewrite Hs; eauto]. destruct Hg as [([(Hok & _) Hlt] & Hbs & Hsz) _]. apply (block_unfinished q gsp None (rand p) seg e1 Hok); [lia|exact Hbs|exact Hmax|exact Em|exact I|exact Hseg|exact Hne]. }
  cbn [qs_qi qs_seg qs_sourceFlags mbind option_bind bool_decide decide_rel negb]. set (q1 := if _ && _ then addDownload_seg q seg else q) in Hq'.
  assert (Hk1 : keeps q q1 /\ qi_sources q1 = qi_sources q /\ isFinished q1 = false) by (unfold q1; destruct (_ && _); [split; [apply keeps_downloads|split; [reflexivity|exact Hnf]]|split; [apply keeps_refl|split; [reflexivity|exact Hnf]]]).
  clearbody q1. rewrite Hq'. cbn [mbind option_bind]. set (seg1 := if _ && _ then seg else _).
  set (q2 := if (0 <? _) && _ then resetDownloaded _ else _).
  assert (Hk2 : keeps q1 q2 /\ qi_sources q2 = qi_sources q1).
  { unfold q2. destruct (updateSpeed_shape (m_downloads (with_users m it uq)) q1) as (b & sp & Eu). pose proof (keeps_updateSpeed (m_downloads (with_users m it uq)) q1) as Hk.
    rewrite Eu in *. match goal with |- context [if ?b then resetDownloaded _ else _] => destruct b end; [|split; [exact Hk|reflexivity]]. split; [|reflexivity]. apply (keeps_trans _ _ _ Hk), keeps_reset. apply Hk1. }
  clearbody q2. destruct Hk1 as (Hk1 & Es1 & _). destruct Hk2 as (Hk2 & Es2). set (added := negb (getSize seg1 =? -1)).
  destruct (checkSlots && _).
  { eexists _, _, _. split; [reflexivity|]. apply (ok_keeps it (m_files m) uq p q1); [exact H1|exact Hq'|]. apply (keeps_trans _ _ _ Hk2). destruct added; [apply keeps_removeSegment|apply keeps_refl]. }
  destruct (choose_segment_ok rand2 gsp c tree q2 user seg1 (src_flags s) added (dl_type (Download_new c user q2 now memory))) as (seg' & added' & type' & q3 & -> & Hk3);
    [apply Hk2, Hk1, Hg|exact Hmax|exact Htree| |].
  { rewrite Es2, Es1, Hs. intros s' [= <-]. exact Hps. }
  cbn [mbind option_bind]. destruct (getSize seg' =? 0).
  { eexists _, _, _. split; [reflexivity|]. apply (ok_keeps it (m_files m) uq p q1); [exact H1|exact Hq'|]. apply (keeps_trans _ _ _ Hk2 Hk3). }
  set (dl := Download_new _ _ _ _ _).
  assert (Hadd : exists q4, (if added' then Some (setDownloadForSegment q3 seg' d).2 else addDownload (<[d := dl]> (m_downloads (with_users m it uq))) q3 d) = Some q4 /\ keeps q3 q4).
  { destruct added'; [eexists; split; [reflexivity|apply keeps_setDownload]|]. unfold addDownload. rewrite lookup_insert_eq. cbn [mbind option_bind]. eexists. split; [reflexivity|apply keeps_downloads]. }
  destruct Hadd as (q4 & -> & Hk4). cbn [mbind option_bind]. eexists _, _, _. split; [reflexivity|].
  assert (H5 : queue_ok (<[p := q4]> it) (m_files m) uq) by (apply (ok_keeps it _ uq p q1); [exact H1|exact Hq'|]; apply (keeps_trans _ _ _ Hk2), (keeps_trans _ _ _ Hk3), Hk4).
  destruct H5 as [F1 F2 F3]. split; cbn; [exact F1|apply (uq_ok_running _ uq); [reflexivity|exact F2]|exact F3].
Qed.

(** ** The end of a download *)

(** A segment of the file that is not among the done ones. *)
Definition fresh (q : QueueItem) (s : Segment) : Prop :=
  in_file (qi_size q) s /\ forall t, t ∈ qi_doneSegments q -> seg_eq s t = false.

Lemma addSegment_keeps q s : good q -> fresh q s -> exists q', addSegment q s = Some q' /\ keeps q q'.
Proof using.
  intros [([(Hok & Hsrc & Hmax) Hlt] & Hbs & Hsz) Hp] [Hin Hno]. destruct (addSegment_ok q s Hok Hin Hlt Hno) as (q' & E & Hok' & Hcov & Eq). exists q'. split; [exact E|].
  assert (Hpos : 0 < qi_size q) by (destruct Hin as (? & ? & ?); unfold getEnd in *; lia). split.
  - assert (Esrc : qi_sources q' = qi_sources q) by (rewrite Eq; reflexivity). split; [intros u; rewrite Esrc; reflexivity|]. split; [rewrite Eq; reflexivity|]. intros Hf.
    assert (Hpos' : 0 < qi_size q') by (rewrite Eq; exact Hpos). apply (proj1 (isFinished_iff q' Hok' Hpos')).
    intros x Hx. apply Hcov. left. apply (proj1 (isFinished_iff q Hok Hpos)); [exact Hf|]. rewrite Eq in Hx. exact Hx.
  - apply evolves_step; [apply (step_addSegment q s q' Hin Hno E)|rewrite Eq; try split; reflexivity..].
Qed.

Lemma removeItem_same (m m' : Manager) p : manager_ok m -> m_items m' = m_items m -> m_files m' = m_files m -> m_users m' = m_users m -> queued (m_files m) p ->
  exists m2, removeItem W lower m' p true = Some m2 /\ manager_ok m2.
Proof using.
  intros H E1 E2 E3 Hp. destruct (removeItem_ok m' p) as (m2 & E & H2 & _); [unfold manager_ok; rewrite E1, E2, E3; exact H|rewrite E2; exact Hp|eauto].
Qed.

Lemma put_partial_list_ok isOnline i (m : Manager) dl p q : manager_ok m -> queued (m_files m) p ->
  exists m', put_partial_list W lower isOnline i m dl p q = Some m' /\ manager_ok m'.
Proof using.
  intros H Hp. unfold put_partial_list. set (dir := if isAnySet _ _ then find _ _ else None). destruct (negb (bool_decide (i_fileListBuffer i = []))).
  - set (m1 := match dir with Some _ => _ | None => m end).
    assert (E : m_items m1 = m_items m /\ m_files m1 = m_files m /\ m_users m1 = m_users m) by (unfold m1; destruct dir; repeat split). destruct E as (E1 & E2 & E3). clearbody m1.
    destruct (negb _).
    + destruct (removeItem_same m m1 p H E1 E2 E3 Hp) as (m2 & -> & H2). cbn. eauto.
    + apply (removeItem_same m); assumption.
  - destruct (isAnySet (qi_flags q) FLAG_USER_CHECK); [apply (removeItem_same m); trivial|].
    destruct (removeItem_same m m p H eq_refl eq_refl eq_refl Hp) as (m2 & -> & H2). cbn. eexists. split; [reflexivity|]. destruct (_ && _); exact H2.
Qed.

Lemma put_tree_ok hashDb d i (m : Manager) dl p q : manager_ok m -> queued (m_files m) p -> m_items m !! p = Some q ->
  exists m', put_tree hashDb d i m dl p q = Some m' /\ manager_ok m'.
Proof using.
  intros H Hp Hq. unfold put_tree. set (m1 := if hashDb && _ then _ else _).
  assert (H1 : manager_ok m1 /\ exists q1, m_items m1 !! p = Some q1).
  { unfold m1. destruct (_ && _); [split; [exact H|exists q; exact Hq]|]. split; [|exists (setSourceFlag q (dl_user dl) SRC_FLAG_NO_TREE); apply lookup_insert_eq].
    destruct (setSourceFlag_ok q (dl_user dl) SRC_FLAG_NO_TREE) as [Hs He]. apply (ok_item _ _ _ p q); assumption. }
  clearbody m1. destruct H1 as (H1 & q1 & Hq1). destruct (removeDownload_ok (m_downloads m1) _ _ _ p q1 (dl_user dl) H1 Hq1) as (l & uq' & -> & _ & Hok).
  cbn [mbind option_bind]. rewrite lookup_insert_eq. cbn [mbind option_bind]. eexists. split; [reflexivity|]. destruct (2 <=? i_leaves i); [|exact Hok].
  apply (ok_keeps _ _ uq' p (set_downloads q1 l)); [exact Hok|apply lookup_insert_eq|apply keeps_changeFlags].
Qed.

Lemma finish_events_same hashDb d i (m : Manager) p q isFile dir : let m' := finish_events hashDb d i m p q isFile dir in
  m_items m' = m_items m /\ m_files m' = m_files m /\ m_users m' = m_users m.
Proof using.
  unfold finish_events. cbv zeta. repeat match goal with |- context [if ?b then _ else _] => destruct b end; repeat split.
Qed.

Lemma put_finished_ok hashDb d i (m : Manager) dl p q reportFinish : manager_ok m -> queued (m_files m) p -> m_items m !! p = Some q ->
  (dl_type dl = TYPE_FULL_LIST -> fresh q (mkSeg 0 (qi_size q))) -> (dl_type dl = TYPE_FILE -> fresh q (setOverlapped_seg (dl_segment dl) false)) ->
  exists m', put_finished W lower hashDb d i m dl p q reportFinish = Some m' /\ manager_ok m'.
Proof using.
  intros H Hp Hq Hl Hf. unfold put_finished. set (isFile := bool_decide (dl_type dl = TYPE_FILE)). pose proof (ok_good _ _ _ H p q Hp Hq) as Hg.
  set (first := if bool_decide (dl_type dl = TYPE_FULL_LIST) then _ else _).
  assert (H1 : exists m1 q1 dir, first = Some (m1, q1, dir) /\ manager_ok m1 /\ m_files m1 = m_files m /\ m_items m1 !! p = Some q1).
  { unfold first. case_bool_decide as El.
    - destruct (addSegment_keeps q _ Hg (Hl El)) as (q' & -> & Hk). cbn [mbind option_bind]. eexists _, _, _. split; [reflexivity|]. split; [apply (ok_keeps _ _ _ p q); assumption|].
      split; [reflexivity|apply lookup_insert_eq].
    - unfold isFile. case_bool_decide as Ef; [|eexists _, _, _; split; [reflexivity|]; split; [exact H|]; split; [reflexivity|exact Hq]].
      destruct (addSegment_keeps q _ Hg (Hf Ef)) as (q' & E & Hk). change (dl_segment (setOverlapped_dl dl false)) with (setOverlapped_seg (dl_segment dl) false). rewrite E.
      cbn [mbind option_bind]. eexists _, _, _. split; [reflexivity|]. split; [apply (ok_keeps _ _ _ p q); assumption|]. split; [reflexivity|apply lookup_insert_eq]. }
  clearbody first. destruct H1 as (m1 & q1 & dir & -> & H1 & Ef & Hq1). cbn [mbind option_bind].
  assert (H2 : exists m2, (if negb isFile || isFinished q1 then removeItem W lower (finish_events hashDb d i m1 p q1 isFile dir) p true
       else '(it, uq) ← uq_removeDownload (m_downloads m1) (m_items m1) (m_users m1) p (dl_user dl); q ← it !! p;
         Some (if reportFinish && isWaiting q then fire (with_users m1 it uq) [StatusUpdated p] else with_users m1 it uq)) = Some m2 /\ manager_ok m2).
  { destruct (negb isFile || isFinished q1).
    - destruct (finish_events_same hashDb d i m1 p q1 isFile dir) as (E1 & E2 & E3). apply (removeItem_same m1); [exact H1|exact E1|exact E2|exact E3|rewrite Ef; exact Hp].
    - destruct (removeDownload_ok (m_downloads m1) _ _ _ p q1 (dl_user dl) H1 Hq1) as (l & uq' & -> & _ & Hok). cbn [mbind option_bind]. rewrite lookup_insert_eq. cbn [mbind option_bind].
      eexists. split; [reflexivity|]. destruct (_ && _); exact Hok. }
  destruct H2 as (m2 & E2 & H2). cbv zeta in E2 |- *. rewrite E2. cbn [mbind option_bind]. eexists. split; [reflexivity|exact H2].
Qed.

Lemma put_unfinished_ok isOnline i (m : Manager) dl p q : manager_ok m -> queued (m_files m) p -> m_items m !! p = Some q ->
  let downloaded := dl_pos dl - Z.rem (dl_pos dl) (i_blockSize i) in
  (dl_type dl = TYPE_FILE -> i_blockSize i <> 0 /\ (0 < downloaded -> fresh q (mkSeg (getStart (dl_segment dl)) downloaded))) ->
  exists m', put_unfinished W lower isOnline i m dl p q = Some m' /\ manager_ok m'.
Proof using.
  intros H Hp Hq downloaded Hf. unfold put_unfinished. set (notTree := negb _). set (q1 := if notTree then _ else q).
  assert (Hk1 : keeps q q1 /\ qi_size q1 = qi_size q /\ qi_doneSegments q1 = qi_doneSegments q).
  { unfold q1. destruct notTree; [|split; [apply keeps_refl|split; reflexivity]]. split; [apply keeps_updateSpeed|]. destruct (updateSpeed_shape (m_downloads m) q) as (b & sp & ->). split; reflexivity. }
  clearbody q1. destruct Hk1 as (Hk1 & Es1 & Ed1). set (m1 := if notTree && _ then _ else _).
  assert (Em1 : m_items m1 = <[p := q1]> (m_items m) /\ m_files m1 = m_files m /\ m_users m1 = m_users m) by (unfold m1; destruct (notTree && _); repeat split).
  clearbody m1. destruct Em1 as (E1 & E2 & E3).
  assert (H1 : manager_ok m1) by (unfold manager_ok; rewrite E1, E2, E3; apply (ok_keeps _ _ _ p q); assumption).
  destruct (notTree && isAnySet (qi_flags q1) FLAG_USER_LIST && i_fileUnavailable i); [apply (removeItem_same m1); [exact H1|reflexivity..|rewrite E2; exact Hp]|].
  assert (Hq1 : m_items m1 !! p = Some q1) by (rewrite E1; apply lookup_insert_eq).
  set (part := if bool_decide (dl_type dl = TYPE_FILE) then _ else _).
  assert (H2 : exists m2 q2, part = Some (m2, q2) /\ manager_ok m2 /\ m_items m2 !! p = Some q2).
  { unfold part. case_bool_decide as Et; [|eexists _, _; split; [reflexivity|split; assumption]]. destruct (Hf Et) as [Hb Hfr]. destruct (Z.eqb_spec (i_blockSize i) 0); [contradiction|].
    fold downloaded. destruct (Z.ltb_spec 0 downloaded) as [Hd|]; [|eexists _, _; split; [reflexivity|split; assumption]].
    destruct (addSegment_keeps q1 (mkSeg (getStart (dl_segment dl)) downloaded)) as (q2 & -> & Hk2).
    { apply (ok_good _ _ _ H1 p q1); [rewrite E2; exact Hp|exact Hq1]. } { unfold fresh. rewrite Es1, Ed1. apply Hfr, Hd. }
    cbn [mbind option_bind]. eexists _, _. split; [reflexivity|]. split; [apply (ok_keeps _ _ _ p q1); assumption|apply lookup_insert_eq]. }
  clearbody part. destruct H2 as (m2 & q2 & -> & H2 & Hq2). cbn [mbind option_bind].
  destruct (removeDownload_ok (m_downloads m2) _ _ _ p q2 (dl_user dl) H2 Hq2) as (l & uq' & -> & _ & Hok). cbn [mbind option_bind]. rewrite lookup_insert_eq. cbn [mbind option_bind].
  eexists. split; [reflexivity|]. destruct (isSet _ _); exact Hok.
Qed.

(** What [putDownload] relies on: the objects are there, and the bytes received are not done yet. *)
Definition put_ready (m : Manager) (d : DownloadPtr) (i : DownloadInfo) (finished : bool) : Prop :=
  exists dl qd, m_downloads m !! d = Some dl /\ m_items m !! i_queueItem i = Some qd /\ i_blockSize i <> 0 /\
    forall p q, findTarget W lower m (qi_target qd) = Some p -> m_items m !! p = Some q ->
      match dl_type dl with
      | TYPE_FILE =>
          let downloaded := dl_pos dl - Z.rem (dl_pos dl) (i_blockSize i) in
          if finished then fresh q (setOverlapped_seg (dl_segment dl) false)
          else 0 < downloaded -> fresh q (mkSeg (getStart (dl_segment dl)) downloaded)
      | TYPE_FULL_LIST => finished = true -> fresh q (mkSeg 0 (qi_size q))
      | _ => True
      end.

Lemma putDownload_ok isOnline hashDb fileExists d i (m : Manager) finished reportFinish : manager_ok m -> put_ready m d i finished ->
  exists m', putDownload W lower isOnline hashDb fileExists d i m finished reportFinish = Some m' /\ manager_ok m'.
Proof using.
  intros H (dl & qd & Hdl & Hqd & Hb & Hr). unfold putDownload. rewrite Hdl. cbn [mbind option_bind]. rewrite Hqd. cbn [mbind option_bind].
  destruct (findTarget W lower m (qi_target qd)) as [p|] eqn:Ht.
  2: { eexists. split; [reflexivity|]. repeat match goal with |- context [if ?b then _ else _] => destruct b end; exact H. }
  pose proof (queued_findTarget m _ p Ht) as Hp. destruct (ok_lookup m p H Hp) as [q Hq]. specialize (Hr p q eq_refl Hq). rewrite Hq. cbn [mbind option_bind].
  case_bool_decide as E1; [apply put_partial_list_ok; assumption|]. set (q1 := if bool_decide (dl_type dl = TYPE_FULL_LIST) then _ else q).
  assert (Hk : keeps q q1 /\ qi_size q1 = qi_size q /\ qi_doneSegments q1 = qi_doneSegments q) by (unfold q1; case_bool_decide; [split; [apply keeps_changeFlags|split; reflexivity]|split; [apply keeps_refl|split; reflexivity]]).
  clearbody q1. destruct Hk as (Hk & Es & Ed). assert (H1 : manager_ok (set_item m p q1)) by (apply (ok_keeps _ _ _ p q); assumption).
  assert (Hfr : forall s, fresh q s -> fresh q1 s) by (intros s; unfold fresh; rewrite Es, Ed; tauto).
  assert (Hq1 : m_items (set_item m p q1) !! p = Some q1) by apply lookup_insert_eq. destruct finished.
  - case_bool_decide as E2; [apply put_tree_ok; assumption|]. apply put_finished_ok; [exact H1|exact Hp|exact Hq1| |].
    + intros E. rewrite E in Hr. rewrite Es. apply Hfr, Hr. reflexivity.
    + intros E. rewrite E in Hr. apply Hfr, Hr.
  - apply put_unfinished_ok; [exact H1|exact Hp|exact Hq1|]. intros E. rewrite E in Hr. split; [exact Hb|]. intros Hd. apply Hfr, Hr, Hd.
Qed.

(** ** Partial sources *)

Lemma getParts_loop_length size bs n l : forall acc, (length (getParts_loop size bs n l acc) <= Nat.max (length acc) (n + 1))%nat.
Proof using.
  induction l as [|x l IH]; intros acc; cbn [getParts_loop]; [lia|]. destruct (Nat.ltb_spec (length acc) n); [|lia].
  specialize (IH (acc ++ getParts_step size bs x)). rewrite length_app in IH. change (length (getParts_step size bs x)) with 2%nat in IH. lia.
Qed.

Lemma getParts_length q bs : (length (getParts q [] bs) <= 511)%nat.
Proof using.
  unfold getParts. destruct (bs =? 0); [cbn; lia|]. set (n := Nat.min _ _). assert (n <= 510)%nat by (unfold n; lia).
  pose proof (getParts_loop_length (qi_size q) bs n (qi_doneSegments q) []). cbn [length] in *. lia.
Qed.

Lemma queued_findQueueItem it (fq : @FileQueue Regex) tth p : fq_ok it fq -> fq_findQueueItem fq tth = Some p -> queued fq p.
Proof using.
  intros H. unfold fq_findQueueItem. destruct (fq_queueTTH fq !! tth) as [l|] eqn:El; [|discriminate]. cbn. intros Hp.
  apply (fq_roots _ _ _ _ H tth p). rewrite El. cbn. destruct l; [discriminate|]. injection Hp as ->. left.
Qed.

Lemma handlePartialResult_ok (m : Manager) user tth ps now : manager_ok m -> Z.of_nat (length (ps_parts ps)) < 2 ^ 32 ->
  (forall p q, fq_findQueueItem (m_files m) tth = Some p -> m_items m !! p = Some q -> qi_sources q !! user = None -> qi_prioQueue q = qi_priority q) ->
  exists r out m', handlePartialResult m user tth ps now = Some (r, out, m') /\ manager_ok m'.
Proof using.
  intros H Hlen Hprio. unfold handlePartialResult. destruct (fq_findQueueItem (m_files m) tth) as [p|] eqn:Ef; [|eauto].
  pose proof (queued_findQueueItem _ _ _ _ (ok_files _ _ _ H) Ef) as Hp. destruct (ok_lookup m p H Hp) as [q Hq]. rewrite Hq. cbn [mbind option_bind].
  destruct (isFinished q || _) eqn:Efin; [eauto|]. apply orb_false_iff in Efin as [Hnf _].
  destruct (isNeededPart_total (ps_parts ps) (getParts q [] (qi_blockSize q))) as [want ->]; [pose proof (getParts_length q (qi_blockSize q)); lia|]. cbn [mbind option_bind].
  assert (Hreply : forall m1 : Manager, manager_ok m1 -> manager_ok (if want then fire m1 [GetDownloadConnection user] else m1)) by (intros m1 H1; destruct want; exact H1).
  destruct (qi_sources q !! user) as [s|] eqn:Es.
  { eexists _, _, _. split; [reflexivity|]. apply Hreply. set (src := <[user := _]> (qi_sources q)). destruct (same_sources_ok q src) as [H1 H2].
    { intros v. unfold src. destruct (decide (v = user)) as [->|Hne]; [rewrite lookup_insert_eq, Es; split; eauto|]. rewrite lookup_insert_ne by congruence. reflexivity. }
    apply (ok_item _ _ _ p q); assumption. }
  set (bad := qi_badSources q !! user) in *. destruct (match bad with Some s => _ | None => false end); [eauto|]. destruct want; cbn [negb].
  - specialize (Hprio p q eq_refl Hq Es). set (q1 := addSourceL q user). set (src := alter _ user (qi_sources q1)). set (q2 := set_sources q1 _ src _ _).
    assert (Hn : isSourceL q user = false) by (unfold isSourceL; rewrite Es; reflexivity).
    assert (Ep : qi_prioQueue q2 = qi_prioQueue q /\ qi_priority q2 = qi_priority q) by (unfold q2, q1, addSourceL; destruct (qi_badSources q !! user); split; reflexivity).
    assert (Hev : evolves q q2) by (apply (evolves_trans _ q1); [apply evolves_addSource, Hn|apply (same_sources_ok q1 src); intros v; apply alter_users]).
    assert (Hd : qi_prioQueue q <> DEFAULT) by (rewrite Hprio; apply (ok_good _ _ _ H p q Hp Hq)). destruct Ep as [Ep Ep'].
    destruct (uq_add_source (m_items m) (m_users m) (queued (m_files m)) p q q2 user) as (uq' & Ea & Hu);
      [apply H|exact Hp|exact Hq|exact Hnf|exact Es| |intros _; exact Ep|rewrite Ep; exact Hd|].
    { intros v. rewrite <- addSourceL_users. apply alter_users. }
    rewrite Ep, Hprio, <- Ep' in Ea. cbn [set_item with_items m_items m_users]. rewrite Ea. cbn [mbind option_bind]. eexists _, _, _. split; [reflexivity|].
    apply (ok_at _ _ (m_users m) p q); assumption.
  - destruct bad as [s|] eqn:Eb; [|eauto]. eexists _, _, _. split; [reflexivity|]. apply (ok_item _ _ _ p q); [exact H|exact Hq|apply same_place_eq; reflexivity|].
    split; [split; reflexivity|]. intros [([(H1 & [H2 H3] & H4) H5] & H6 & H7) H8]. repeat split; try apply H1; try assumption; try apply H3; try apply H6. cbn.
    apply map_disjoint_insert_r. split; [exact Es|exact H2].
Qed.

(** ** Adding an item *)

Context (regex_assign : list Z -> bool -> option Regex) (regex_match : list Z -> Regex -> bool).

Lemma updatePriority_range (fq : @FileQueue Regex) conf p name size flags : 0 <= (updatePriority regex_assign regex_match fq conf p name size flags).1.1 < LAST.
Proof using.
  unfold updatePriority. cbv zeta. set (p0 := if _ || _ then _ else p).
  assert (H0 : -1 <= p0 < 8) by (unfold p0, LAST; cbn [prio_int]; destruct (Z.ltb_spec p (-1)), (Z.leb_spec 8 p); cbn [orb]; lia). clearbody p0.
  assert (Hc : forall z, 1 <= clamp_prio z <= 7) by (intros z; unfold clamp_prio; cbn [prio_int]; destruct (Z.ltb_spec z 1); [lia|]; destruct (Z.ltb_spec 7 z); lia).
  set (s1 := if (p0 =? _) && _ && _ then _ else _). assert (H1 : -1 <= s1.1 < 8) by (unfold s1; destruct (_ && _); cbn [fst]; [pose proof (Hc (AUTO_PRIORITY_PATTERNS_PRIO conf)); lia|exact H0]).
  clearbody s1. destruct s1 as [p1 a1]. cbn [fst] in H1. set (s2 := if (p1 =? _) && _ then _ else _).
  assert (H2 : -1 <= s2.1 < 8).
  { unfold s2. destruct ((p1 =? _) && _); [|exact H1]. destruct (_ && _); cbn [fst]; [pose proof (Hc (AUTO_PRIORITY_SMALL_SIZE_PRIO conf)); lia|exact H1]. }
  clearbody s2. destruct s2 as [p2 a2]. cbn [fst] in *. unfold LAST. cbn [prio_int]. destruct (isAnySet _ _); [lia|]. destruct (Z.eqb_spec p2 (-1)); lia.
Qed.

Lemma int_prio_range z : 0 <= z < LAST -> exists prio, int_prio z = Some prio /\ prio <> DEFAULT.
Proof using.
  unfold LAST. intros Hz. assert (z = 0 \/ z = 1 \/ z = 2 \/ z = 3 \/ z = 4 \/ z = 5 \/ z = 6 \/ z = 7) as [->|[->|[->|[->|[->|[->|[->| ->]]]]]]] by lia;
    (eexists; split; [reflexivity|discriminate]).
Qed.

Lemma QueueItem_new_good target size prio flags xflags added tth maxs temp : size = -1 \/ 0 < size < 2 ^ 63 -> prio <> DEFAULT ->
  exists q, QueueItem_new target size prio flags xflags added tth maxs temp = Some q /\ good q /\ qi_sources q = ∅.
Proof using.
  intros Hsz Hp. assert (Hbs : exists bs, (if 0 <=? size then getMaxBlockSize size else Some DEFAULT_BLOCK_SIZE) = Some bs /\ 0 < bs < 2 ^ 63).
  { destruct (Z.leb_spec 0 size); [|eexists; split; [reflexivity|unfold DEFAULT_BLOCK_SIZE; lia]]. unfold getMaxBlockSize. destruct (calcBlockSize_ok size ltac:(lia)) as (i & -> & Hi & _). cbn.
    assert (2 ^ Z.of_nat i <= 2 ^ 44) by (apply Z.pow_le_mono_r; lia). assert (0 < 2 ^ Z.of_nat i) by (apply Z.pow_pos_nonneg; lia). eexists. split; [reflexivity|]. unfold MIN_BLOCK_SIZE. lia. }
  destruct Hbs as (bs & Ebs & Hbs). unfold QueueItem_new. rewrite Ebs. cbn [mbind option_bind]. eexists. split; [reflexivity|]. split; [|reflexivity].
  split; [|exact Hp]. split; [|cbn; split; [exact Hbs|lia]].
  apply (QueueItem_new_inv target size prio flags xflags added tth maxs temp); [lia|]. unfold QueueItem_new. rewrite Ebs. reflexivity.
Qed.

Lemma uq_ok_new it uq (R R' : ItemPtr -> Prop) p q : uq_ok it uq R -> it !! p = None -> qi_sources q = ∅ -> (forall x, R x -> R' x) -> (forall x, R' x -> R x \/ x = p) ->
  uq_ok (<[p := q]> it) uq R'.
Proof using.
  intros [H1 H2 H3] Hn Hs Hi Hr. split; [exact H1| |].
  - intros i u x Hx. destruct (H2 i u x Hx) as (HR & qx & Hqx & Hrest). split; [apply Hi, HR|]. exists qx. rewrite lookup_insert_ne by congruence. split; assumption.
  - intros x qx u HR Hqx Hf Hu. destruct (decide (x = p)) as [->|Hne].
    + rewrite lookup_insert_eq in Hqx. injection Hqx as <-. rewrite Hs, lookup_empty in Hu. destruct Hu. discriminate.
    + rewrite lookup_insert_ne in Hqx by congruence. destruct (Hr x HR) as [HR'|]; [|contradiction]. apply (H3 x qx u HR' Hqx Hf Hu).
Qed.

Lemma addItem_ok (m : Manager) conf ptr target name size flags xflags p temp root maxs added nf ad : manager_ok m -> m_items m !! ptr = None -> size = -1 \/ 0 < size < 2 ^ 63 ->
  exists it fq r, FileQueue_add W lower regex_assign regex_match (m_items m) (m_files m) conf ptr target name size flags xflags p temp root maxs added nf ad = Some (it, fq, r) /\
    manager_ok (with_files m it fq).
Proof using.
  intros H Hn Hsz.
  assert (E : exists qi it fq r, FileQueue_add W lower regex_assign regex_match (m_items m) (m_files m) conf ptr target name size flags xflags p temp root maxs added nf ad = Some (it, fq, r) /\
    it = <[ptr := qi]> (m_items m) /\ good qi /\ qi_sources qi = ∅ /\ (r = None \/ r = Some ptr)).
  { unfold FileQueue_add. pose proof (updatePriority_range (m_files m) conf p name size flags) as Hp. destruct (updatePriority _ _ _ _ _ _ _ _) as [[p1 a] fq1]. cbn [fst] in Hp.
    destruct (int_prio_range p1 Hp) as (prio & -> & Hd). cbn [mbind option_bind].
    match goal with |- context [QueueItem_new ?a ?b ?c ?d ?e ?f ?g ?h ?i] => destruct (QueueItem_new_good a b c d e f g h i Hsz Hd) as (qi & -> & Hg & Hs) end. cbn [mbind option_bind].
    unfold fq_addL. rewrite lookup_insert_eq. cbn [mbind option_bind]. destruct (fq_queue fq1 !! _); cbn [mbind option_bind]; eexists qi, _, _, _; (split; [reflexivity|]); repeat split; try apply Hg; auto. }
  destruct E as (qi & it & fq & r & E & -> & Hg & Hs & Hr). exists (<[ptr := qi]> (m_items m)), fq, r. split; [exact E|].
  apply FileQueue_add_ok in E as [Hf Hq]; [|apply H|exact Hn].
  assert (Hq' : forall x, queued fq x -> queued (m_files m) x \/ x = ptr) by (intros x Hx; apply Hq in Hx as [Hx|Hx]; [left; exact Hx|right; destruct Hr; congruence]).
  split; cbn; [exact Hf|apply (uq_ok_new _ _ (queued (m_files m))); [apply H|exact Hn|exact Hs|intros x Hx; apply Hq; left; exact Hx|exact Hq']|].
  intros x qx Hx Hqx. destruct (decide (x = ptr)) as [->|Hne]; [rewrite lookup_insert_eq in Hqx; congruence|]. rewrite lookup_insert_ne in Hqx by congruence.
  apply Hq' in Hx as [Hx|]; [|contradiction]. apply (ok_good _ _ _ H x qx Hx Hqx).
Qed.

(** ** Reachable states *)

Definition QueueManager_new : Manager := mkManager ∅ ∅ FileQueue_new UserQueue_new ∅ false false 0 [] [].

(** An operation, and the states it is called in.  New objects are new; the chunk settings are in range, tree sizes
    are [int64_t]; [removeSource] of a user and [move] are called while no list is waited for;
    a partial source is told of an item that is queued under its own priority.  The callers do not
    see to all of this: see the examples at the end. *)
Inductive manager_op : (Manager -> option Manager) -> (Manager -> Prop) -> Prop :=
  | op_add conf ptr target name size flags xflags p temp root maxs added nf ad :
      manager_op (fun m => '(it, fq, _) ← FileQueue_add W lower regex_assign regex_match (m_items m) (m_files m) conf ptr target name size flags xflags p temp root maxs added nf ad;
                           Some (with_files m it fq))
        (fun m => m_items m !! ptr = None /\ (size = -1 \/ 0 < size < 2 ^ 63))
  | op_addSource p user addBad : manager_op (fun m => snd <$> m_addSourceL m p user addBad) (fun m => queued (m_files m) p)
  | op_removeTarget target fe : manager_op (fun m => snd <$> removeTarget W lower m target fe)
      (fun m => forall p q, findTarget W lower m target = Some p -> m_items m !! p = Some q -> waited q = true -> getFirstSource q <> None)
  | op_removeSource target user reason rc fe : manager_op (fun m => removeSource W lower m target user reason rc fe)
      (fun m => forall p q, findTarget W lower m target = Some p -> m_items m !! p = Some q -> waited q = true -> getFirstSource q <> None)
  | op_removeSource_user user reason fe : manager_op (fun m => removeSource_user W lower m user reason fe)
      (fun m => calm m /\ forall p, getRunning (m_users m) user = Some p -> is_Some (m_items m !! p))
  | op_setPriority isOnline target prio reset : manager_op (fun m => setPriority W lower isOnline m target prio reset) (fun _ => prio <> DEFAULT)
  | op_setAutoPriority isOnline target ap : manager_op (fun m => setAutoPriority W lower isOnline m target ap) (fun _ => True)
  | op_move source target ptr fe : manager_op (fun m => m_move W lower m source target ptr fe)
      (fun m => calm m /\ m_items m !! ptr = None /\ (stricmp_eq source target = true -> target_key W lower source = target_key W lower target))
  | op_getDownload rand rand2 fileSlots gsp c now te sd tree cs memory d ei :
      manager_op (fun m => '(_, _, m) ← getDownload rand rand2 fileSlots gsp c now te sd tree cs memory d ei m; Some m)
        (fun m => maxChunkSize gsp < 2 ^ 31 /\ (forall n, tree = Some n -> n < 2 ^ 63) /\
                  forall user, c_user c = Some user -> full_source m user /\ chunk_ready gsp m user)
  | op_putDownload isOnline hashDb fe d i finished report :
      manager_op (fun m => putDownload W lower isOnline hashDb fe d i m finished report) (fun m => put_ready m d i finished)
  | op_handlePartialResult user tth ps now : manager_op (fun m => '(_, _, m) ← handlePartialResult m user tth ps now; Some m)
      (fun m => Z.of_nat (length (ps_parts ps)) < 2 ^ 32 /\
        forall p q, fq_findQueueItem (m_files m) tth = Some p -> m_items m !! p = Some q -> qi_sources q !! user = None -> qi_prioQueue q = qi_priority q)
  | op_startBatch : manager_op (fun m => Some (startBatch m)) (fun _ => True)
  | op_endBatch : manager_op (fun m => Some (endBatch m)) (fun _ => True).

Lemma manager_op_ok f pre m : manager_op f pre -> manager_ok m -> pre m -> exists m', f m = Some m' /\ manager_ok m'.
Proof using.
  intros [] H Hpre.
  - destruct Hpre as [Hn Hsz]. destruct (addItem_ok m conf ptr target name size flags xflags p temp root maxs added nf ad H Hn Hsz) as (it & fq & r & -> & Hm). cbn. eauto.
  - destruct (m_addSourceL_ok m p user addBad H Hpre) as (r & m' & -> & Hm & _). cbn. eauto.
  - destruct (removeTarget_ok m target fe H Hpre) as (r & m' & -> & Hm & _). cbn. eauto.
  - apply removeSource_ok; assumption.
  - apply removeSource_user_ok; [assumption|apply Hpre..].
  - apply setPriority_ok; assumption.
  - apply setAutoPriority_ok; assumption.
  - apply m_move_ok; [assumption|apply Hpre..].
  - destruct (getDownload_ok rand rand2 fileSlots gsp c now te sd tree cs memory d ei m H) as (x & r & m' & -> & Hm); [apply Hpre..|]. cbn. eauto.
  - apply putDownload_ok; assumption.
  - destruct (handlePartialResult_ok m user tth ps now H) as (x & r & m' & -> & Hm); [apply Hpre..|]. cbn. eauto.
  - eexists. split; [reflexivity|exact H].
  - eexists. split; [reflexivity|]. unfold endBatch. destruct (_ =? 0); exact H.
Qed.

Inductive reachable : Manager -> Prop :=
  | reach_new : reachable QueueManager_new
  | reach_op f pre m m' : manager_op f pre -> reachable m -> pre m -> f m = Some m' -> reachable m'.

Lemma QueueManager_new_ok : manager_ok QueueManager_new.
Proof using.
  assert (Hn : forall p, ~ queued (@FileQueue_new Regex) p) by (intros p (k & Hk); cbn in Hk; rewrite lookup_empty in Hk; discriminate).
  split; cbn; [apply FileQueue_new_ok| |intros p q Hp; destruct (Hn p Hp)].
  apply (uq_ok_registered _ _ _ _ (UserQueue_new_ok ∅)). intros x. split; [tauto|apply Hn].
Qed.

Lemma reachable_ok m : reachable m -> manager_ok m.
Proof using.
  induction 1 as [|f pre m m' Hop _ IH Hpre E]; [apply QueueManager_new_ok|]. destruct (manager_op_ok f pre m Hop IH Hpre) as (m1 & E1 & H1). congruence.
Qed.

(** C4.  In every state reachable from the empty queue by the operations of the manager, each called as [manager_op] says,
    the queue by user is an index of the queue by target: a user's lists hold only items of the
    queue that have the user as a source, under the priority the item is queued with and each
    once, and an item that is not finished is in the list of each of its sources.  In such a
    state every operation called that way returns.  How the operations are called: an item added or
    moved is a new object; its size is -1 or positive; a source is added to an item of the queue; a
    list that is waited for has a source when [removeTarget] or [removeSource] is called on it, and no
    list is waited for when [removeSource] of a user or [move] is called (else the removal looks at the
    first source of an item without sources, [removeSource_user_no_source]); the item a user is
    downloading exists; the priority set is not [DEFAULT]; equal names to [move] have the same key.
    [getDownload] is called with a largest chunk below 2 GiB, block sizes of trees below 2^63, and a
    user who is a full source; in single-chunk mode the user's items are not finished and their
    done segments are on block boundaries.  [putDownload] is given an existing download whose
    segment is not done yet.  [handlePartialResult] is told of a new source only of an item queued under
    its own priority, with fewer than 2^32 parts; the code does not see to this, and without it
    the index breaks ([partial_source_stays]). *)
Theorem QueueManager_index m : reachable m ->
  (forall i u, NoDup (items_of (m_users m) i u)) /\
  (forall i u p, p ∈ items_of (m_users m) i u -> queued (m_files m) p /\
     exists q, m_items m !! p = Some q /\ prio_index (qi_prioQueue q) = Some i /\ is_Some (qi_sources q !! u)) /\
  (forall p q u, queued (m_files m) p -> m_items m !! p = Some q -> isFinished q = false -> is_Some (qi_sources q !! u) ->
     exists i, prio_index (qi_prioQueue q) = Some i /\ p ∈ items_of (m_users m) i u) /\
  (forall f pre, manager_op f pre -> pre m -> is_Some (f m)).
Proof using.
  intros H%reachable_ok. pose proof (ok_users _ _ _ H) as Hu. split; [intros i u; apply items_of_wf, Hu|]. split; [apply Hu|]. split; [apply Hu|].
  intros f pre Hop Hpre. destruct (manager_op_ok f pre m Hop H Hpre) as (m' & E & _). eauto.
Qed.
End Invariant.

(** ** A queue *)

(** An item of 32 MiB is added under the name "f", a list of user 7 under "l", and user 7 as a source of both. *)
Definition sample_add (m : @QueueManager unit) (ptr : ItemPtr) (target : list Z) (size flags xflags : Z) (root : option (list Z)) : option QueueManager :=
  '(it, fq, _) ← FileQueue_add W4 sample_lower sample_assign sample_match (m_items m) (m_files m) sample_conf ptr target target size flags xflags (-1) [] root 1 0 0 false;
  Some (with_files m it fq).

Definition sample_file : @QueueManager unit := default QueueManager_new (sample_add QueueManager_new 1%positive [102] (2 ^ 25) 0 0 (Some sample_tth)).
Definition sample_queue : @QueueManager unit := default sample_file (snd <$> m_addSourceL sample_file 1%positive 7%positive 0).
Definition sample_waited : @QueueManager unit :=
  default sample_file (m ← sample_add sample_file 2%positive [108] (-1) FLAG_USER_LIST XFLAG_MATCH_QUEUE None; snd <$> m_addSourceL m 2%positive 7%positive 0).

Lemma sample_file_reachable : reachable W4 sample_lower sample_assign sample_match sample_file.
Proof.
  eapply reach_op; [eapply (op_add _ _ _ _ sample_conf 1%positive [102] [102] (2 ^ 25) 0 0 (-1) [] (Some sample_tth) 1 0 0 false)|apply reach_new|split; [reflexivity|right; lia]|].
  vm_compute. reflexivity.
Qed.

Lemma QueueManager_index_witness :
  NoDup (items_of (m_users sample_queue) 4 7%positive) /\ 1%positive ∈ items_of (m_users sample_queue) 4 7%positive /\ is_Some (setPriority W4 sample_lower (fun _ => true) sample_queue [102] HIGH true).
Proof.
  destruct (QueueManager_index W4 sample_lower sample_assign sample_match sample_queue) as (H1 & _ & H3 & H4).
  { eapply reach_op; [eapply (op_addSource _ _ _ _ 1%positive 7%positive 0)|apply sample_file_reachable|exists [102]; reflexivity|]. vm_compute. reflexivity. }
  split; [apply H1|]. split.
  - destruct (m_items sample_queue !! 1%positive) as [q|] eqn:Eq; [|vm_compute in Eq; discriminate].
    destruct (H3 1%positive q 7%positive) as (i & Hi & H); [exists [102]; reflexivity|exact Eq| | |].
    + vm_compute in Eq. injection Eq as <-. reflexivity.
    + vm_compute in Eq. injection Eq as <-. eexists. reflexivity.
    + assert (i = 4%nat) as -> by (vm_compute in Eq; injection Eq as <-; vm_compute in Hi; congruence). exact H.
  - apply (H4 _ _ (op_setPriority _ _ _ _ (fun _ => true) [102] HIGH true)). discriminate.
Defined.

(** [handlePartialResult] puts a user into the lists of the item's priority but leaves [prioQueue] as it is.  For an
    item without sources that is [DEFAULT], so that nothing takes the item out of the list again: removed
    from the queue, it is still the item that user is asked for. *)
Example partial_source_stays :
  exists m1 m2 out r it uq, handlePartialResult sample_file 7%positive sample_tth (mkPartial [0; 2] 0 412 0 0) 1000 = Some (true, out, m1) /\
    removeTarget W4 sample_lower m1 [102] false = Some (true, m2) /\
    findTarget W4 sample_lower m2 [102] = None /\ items_of (m_users m2) 4 7%positive = [1%positive] /\
    uq_getNextL (fun _ => 0) 0 7%positive sample_gsp FLAG_ADD_SEGMENT (m_items m2) (m_users m2) LOWEST = Some (SUCCESS, r, it, uq) /\ qs_qi r = Some 1%positive.
Proof. eexists _, _, _, _, _, _. split; [vm_compute; reflexivity|]. split; [vm_compute; reflexivity|]. split; [vm_compute; reflexivity|]. split; [vm_compute; reflexivity|]. split; vm_compute; reflexivity. Qed.

(** [removeSource] of a user takes the last source of a list that is waited for, and [removeTarget] then looks at the first
    of its sources. *)
Example removeSource_user_no_source : removeSource_user W4 sample_lower sample_waited 7%positive SRC_FLAG_REMOVED false = None.
Proof. vm_compute. reflexivity. Qed.

(** The first connection of user 7, with a tree of 1 MiB blocks in the database. *)
Definition sample_download : option (ErrorInfo * option DownloadPtr * @QueueManager unit) :=
  getDownload (fun _ => 0) 0 0 sample_gsp (mkConn (Some 7%positive) true 0 false false) 0 (fun _ => true) (fun _ => true) (Some (2 ^ 20)) false [] 1%positive
    (mkErrorInfo SUCCESS TYPE_FILE [] 0) sample_queue.

(** When the tree of the database has larger blocks, the download is added before its segment is set: the block it
    was given is not among the running segments, and another source is given the same block. *)
Example getDownload_same_block :
  match sample_download with
  | Some (_, Some d, m) =>
      q ← m_items m !! 1%positive;
      dl ← m_downloads m !! d;
      '(seg, e) ← getNextSegmentL (setMaxSegmentsL q 2) sample_gsp None 0;
      Some (rs_seg <$> qi_downloads q, dl_segment dl, seg, e)
  | _ => None
  end = Some ([mkSeg 0 (-1)], mkSeg 0 (2 ^ 20), mkSeg 0 (2 ^ 20), SUCCESS).
Proof. vm_compute. reflexivity. Qed.
