(* ===== verification/QueueXml.v ===== *)
(** * The queue file: [QueueManager::saveQueue], [loadQueue] and [QueueLoader] of
    [client/QueueManager.cpp], [getFlagsForFileName], and the users of [client/ClientManager.cpp]

    [saveQueue] writes the items to Queue.xml; [QueueLoader] listens to the XML reader and fills the
    queue.  The text is a list of bytes; a file that cannot be written or read is an argument.  A
    new object gets the next pointer.  [None] is undefined behaviour, as in [QueueManager], and
    with it an overflow in a number of the file and a number that is not a priority (see
    [load_priority_unchecked]).  [checkAntifragFile], the statistics by nick and address of the
    users and [lastSave] are left out. *)

From S2P Require Import Prelude StrUtil Tokenizer Segment SegmentSet Hasher MerkleTree TigerHash Base32 HashValue SpeedCalc Download QueueItem NextSegment Text FileQueue UserQueue QueueManager QueueInvariant XmlReader XmlText PathUtil XmlStream.
From Stdlib Require String Ascii.
From Stdlib Require Import (notations) String.

(** The bytes of a literal. *)
Definition LIT (s : String.string) : list Z := map (fun c => Z.of_N (Ascii.N_of_ascii c)) (String.list_ascii_of_string s).

Definition sDownloads := LIT "Downloads"%string.
Definition sVersion := LIT "Version"%string.
Definition sDownload := LIT "Download"%string.
Definition sTempTarget := LIT "TempTarget"%string.
Definition sTarget := LIT "Target"%string.
Definition sSize := LIT "Size"%string.
Definition sDownloaded := LIT "Downloaded"%string.
Definition sPriority := LIT "Priority"%string.
Definition sSource := LIT "Source"%string.
Definition sNick := LIT "Nick"%string.
Definition sAdded := LIT "Added"%string.
Definition sTTH := LIT "TTH"%string.
Definition sCID := LIT "CID"%string.
Definition sHubHint := LIT "HubHint"%string.
Definition sSegment := LIT "Segment"%string.
Definition sStart := LIT "Start"%string.
Definition sAutoPriority := LIT "AutoPriority"%string.
Definition sMaxSegments := LIT "MaxSegments"%string.

Definition VERSION_STR := LIT "0.9"%string.

(** ** Objects *)

(** The address of a new object. *)
Definition next_ptr {A} (m : gmap positive A) : positive := Pos.succ (map_fold (fun k _ p => Pos.max k p) 1%positive m).

Lemma next_ptr_fresh {A} (m : gmap positive A) : m !! next_ptr m = None.
Proof.
  assert (forall k x, m !! k = Some x -> (k <= map_fold (fun k _ p => Pos.max k p) 1 m)%positive) as H.
  { induction m as [|i x m Hi Hf IH] using map_first_key_ind; intros k y Hk; [rewrite lookup_empty in Hk; discriminate|].
    rewrite map_fold_insert_first_key by assumption. destruct (decide (k = i)) as [->|Hne]; [lia|].
    rewrite lookup_insert_ne in Hk by congruence. specialize (IH k y Hk). lia. }
  unfold next_ptr. destruct (m !! Pos.succ _) as [x|] eqn:E; [|reflexivity]. apply H in E. lia.
Qed.

(** ** Users *)

(** [class User], the fields that are looked at here. *)
Record User := mkUser { u_cid : list Z; u_nick : list Z; u_nmdc : bool }.

(** [ClientManager::g_users] and the objects. *)
Record Users := mkUsers { g_users : gmap (list Z) UserPtr; user_at : gmap UserPtr User }.

Definition makeCid (nick hubUrl : list Z) : list Z :=
  getResult (th_res (tiger_finalize (tiger_update (tiger_update TigerHash_init nick) hubUrl))).

Definition new_user (us : Users) (cid nick : list Z) : Users * UserPtr :=
  let p := next_ptr (user_at us) in
  (mkUsers (<[cid := p]> (g_users us)) (<[p := mkUser cid nick false]> (user_at us)), p).

Definition getUser (us : Users) (nick hubUrl : list Z) : Users * UserPtr :=
  let cid := makeCid nick hubUrl in
  let '(us, p) := match g_users us !! cid with Some p => (us, p) | None => new_user us cid nick end in
  (mkUsers (g_users us) (alter (fun u => mkUser (u_cid u) (u_nick u) true) p (user_at us)), p).

Definition updateNick (newNick : list Z) (u : User) : User :=
  if bool_decide (u_nick u = []) then mkUser (u_cid u) newNick (u_nmdc u) else u.

Definition createUser (us : Users) (cid nick : list Z) : Users * UserPtr :=
  match g_users us !! cid with
  | Some p => (if negb (bool_decide (nick = [])) then mkUsers (g_users us) (alter (updateNick nick) p (user_at us)) else us, p)
  | None => new_user us cid nick
  end.

Section QueueXml.
Context (W : WChar) (lower : list Z -> list Z) (win : bool).
Context {Regex : Type} (regex_assign : list Z -> bool -> option Regex) (regex_match : list Z -> Regex -> bool).

Abbreviation Manager := (@QueueManager Regex).

(** ** Saving *)

Definition crlf := [13; 10].

Definition save_segment (j : Segment) : option (list Z) :=
  start ← intToString (getStart j);
  size ← intToString (getSize j);
  Some ([9; 9] ++ LIT "<Segment Start="%string ++ [34] ++ start ++ [34] ++ LIT " Size="%string ++ [34] ++ size ++ [34] ++ LIT "/>"%string ++ crlf).

Definition save_source (us : Users) (j : UserPtr * Source) : option (list Z) :=
  if isSet (src_flags (snd j)) SRC_FLAG_PARTIAL then Some []
  else
    user ← user_at us !! fst j;
    cid ← CID_toBase32 (u_cid user);
    Some ([9; 9] ++ LIT "<Source CID="%string ++ [34] ++ cid ++ [34] ++ LIT " Nick="%string ++ [34] ++ stored true (u_nick user) ++ [34] ++ LIT "/>"%string ++ crlf).

Definition save_item (us : Users) (qi : QueueItem) : option (list Z) :=
  if is_list qi then Some []
  else
    let autoPriority := if isAnySet (qi_extraFlags qi) XFLAG_AUTO_PRIORITY then 1 else 0 in
    size ← intToString (qi_size qi);
    priority ← intToString (prio_int (qi_priority qi));
    added ← intToString (qi_added qi);
    tth ← HashValue_toBase32 (qi_tthRoot qi);
    auto ← intToString autoPriority;
    maxSegments ← intToString (qi_maxSegments qi);
    let done := qi_doneSegments qi in
    let tempTarget := qi_tempTarget qi in
    segments ← mapM save_segment done;
    sources ← mapM (save_source us) (map_to_list (qi_sources qi));
    Some ([9] ++ LIT "<Download Target="%string ++ [34] ++ stored true (qi_target qi) ++
          [34] ++ LIT " Size="%string ++ [34] ++ size ++
          [34] ++ LIT " Priority="%string ++ [34] ++ priority ++
          [34] ++ LIT " Added="%string ++ [34] ++ added ++
          [34] ++ LIT " TTH="%string ++ [34] ++ tth ++
          (if negb (bool_decide (done = [])) && negb (bool_decide (tempTarget = []))
           then [34] ++ LIT " TempTarget="%string ++ [34] ++ stored true tempTarget else []) ++
          [34] ++ LIT " AutoPriority="%string ++ [34] ++ auto ++
          [34] ++ LIT " MaxSegments="%string ++ [34] ++ maxSegments ++
          [34] ++ LIT ">"%string ++ crlf ++
          concat segments ++ concat sources ++
          [9] ++ LIT "</Download>"%string ++ crlf).

(** The items in the order of the map. *)
Definition queue_items (m : Manager) : option (list QueueItem) := mapM (fun p => m_items m !! p) (map_to_list (fq_queue (m_files m))).*2.

Definition saved_text (m : Manager) (us : Users) : option (list Z) :=
  items ← queue_items m;
  texts ← mapM (save_item us) items;
  Some (utf8Header ++ LIT "<Downloads Version="%string ++ [34] ++ VERSION_STR ++ [34] ++ LIT ">"%string ++ crlf ++ concat texts ++
        LIT "</Downloads>"%string ++ crlf).

(** [saveQueue]: the new contents of the file, if it is written; [fileOk] is that no file
    operation throws. *)
Definition with_dirty (m : Manager) (dirty : bool) : Manager :=
  mkManager (m_items m) (m_downloads m) (m_files m) (m_users m) (m_directories m) dirty (m_sourceAdded m) (m_batchCounter m) (m_batchRemove m) (m_events m).

Definition saveQueue (m : Manager) (us : Users) (force fileOk : bool) : option (option (list Z) * Manager) :=
  if negb (m_dirty m) && negb force then Some (None, m)
  else
    text ← saved_text m us;
    Some (if fileOk then (Some text, with_dirty m false) else (None, m)).

(** ** Loading *)

(** [getFlagsForFileName]: the expression is compiled again when the setting has changed; one
    that was never assigned matches nothing. *)
Record WantEnd := mkWantEnd { w_pattern : list Z; w_re : option Regex }.

Definition getFlagsForFileName (w : WantEnd) (pattern fileName : list Z) : WantEnd * Z :=
  let w :=
    if negb (bool_decide (pattern = w_pattern w)) then
      match regexFromPatternList regex_assign pattern true with
      | Some re => mkWantEnd pattern (Some re)
      | None => mkWantEnd [] (w_re w)
      end
    else w in
  (w, match w_re w with Some re => if regex_match fileName re then FLAG_WANT_END else 0 | None => 0 end).

(** What the loader reads besides the file. *)
Record LoadEnv := mkEnv {
  e_now : Z;
  e_conf : FileQueueConf;
  e_wantEndFiles : list Z;
  e_autoDisconnect : bool
}.

Record QueueLoader := mkLoader {
  l_target : list Z;
  l_cur : option ItemPtr;
  l_isInDownloads : bool;
  l_qm : Manager;
  l_users : Users;
  l_wantEnd : WantEnd
}.

Definition QueueLoader_new (m : Manager) (us : Users) (w : WantEnd) : QueueLoader := mkLoader [] None false m us w.

Definition set_qm (l : QueueLoader) (m : Manager) : QueueLoader := mkLoader (l_target l) (l_cur l) (l_isInDownloads l) m (l_users l) (l_wantEnd l).

Section Loader.
Context (env : LoadEnv).

(** The end of an item: [updateDownloadedBytes] and the priority. *)
Definition finish_item (qi : QueueItem) : option QueueItem :=
  let qi := updateDownloadedBytes qi in
  p ← calculateAutoPriorityL qi;
  Some (setPriorityL qi p).

(** [const string& tgt] is in the attributes; a [FileException] needs a size. *)
Definition load_download (l : QueueLoader) (attribs : list (list Z * list Z)) (simple : bool) : option QueueLoader :=
  size ← toInt64 (getAttrib attribs sSize 1);
  if size <=? 0 then Some l
  else
    let tthRoot := getAttrib attribs sTTH 5 in
    if bool_decide (tthRoot = []) then Some l
    else
      checked ← checkTarget win (fun _ => -1) (getAttrib attribs sTarget 0) (-1) true;
      match checked with
      | inl _ => Some l
      | inr target =>
          if bool_decide (target = []) then Some (mkLoader target (l_cur l) (l_isInDownloads l) (l_qm l) (l_users l) (l_wantEnd l))
          else
            p ← toInt (getAttrib attribs sPriority 3);
            added ← toInt (getAttrib attribs sAdded 4);
            let tempTarget := getAttrib attribs sTempTarget 5 in
            maxSegments ← toInt (getAttrib attribs sMaxSegments 5);
            let maxSegments := if maxSegments <? 0 then 0 else if 255 <? maxSegments then 255 else maxSegments in
            downloaded ← toInt64 (getAttrib attribs sDownloaded 5);
            let downloaded := if (size <? downloaded) || (downloaded <? 0) then 0 else downloaded in
            let added := if added =? 0 then e_now env else added in
            let maxSegments := if maxSegments =? 0 then getMaxSegments (e_conf env) (u64 size) else maxSegments in
            let fileName := getFileName win target in
            let '(w, flags) := getFlagsForFileName (l_wantEnd l) (e_wantEndFiles env) fileName in
            auto ← toInt (getAttrib attribs sAutoPriority 6);
            let extraFlags := if auto =? 1 then XFLAG_AUTO_PRIORITY else 0 in
            let extraFlags := if e_autoDisconnect env then Z.lor extraFlags XFLAG_AUTODROP else extraFlags in
            tth ← HashValue_base32 tthRoot;
            prio ← int_prio p;
            qi ← QueueItem_new target size prio flags extraFlags added tth (u8 maxSegments) tempTarget;
            let m := l_qm l in
            let ptr := next_ptr (m_items m) in
            '(ok, fq) ← fq_addL W lower (<[ptr := qi]> (m_items m)) (m_files m) ptr;
            if ok : bool then
              qi ← (if 0 <? downloaded then addSegment qi (mkSeg 0 downloaded) else Some qi);
              qi ← (if simple then finish_item qi else Some qi);
              Some (mkLoader target (if simple then l_cur l else Some ptr) (l_isInDownloads l)
                      (with_files m (<[ptr := qi]> (m_items m)) fq) (l_users l) w)
            else Some (mkLoader target (if simple then l_cur l else None) (l_isInDownloads l) m (l_users l) w)
      end.

Definition load_segment (l : QueueLoader) (cur : ItemPtr) (attribs : list (list Z * list Z)) : option QueueLoader :=
  start ← toInt64 (getAttrib attribs sStart 0);
  size ← toInt64 (getAttrib attribs sSize 1);
  qi ← m_items (l_qm l) !! cur;
  if (0 <? size) && (size <=? qi_size qi) && (0 <=? start) then
    e ← in_type int64_t (start + size);
    if e <=? qi_size qi then
      qi ← addSegment qi (mkSeg start size);
      Some (set_qm l (set_item (l_qm l) cur qi))
    else Some l
  else Some l.

(** The [QueueException] of a duplicate is dropped. *)
Definition load_source (l : QueueLoader) (cur : ItemPtr) (attribs : list (list Z * list Z)) : option QueueLoader :=
  let cid := getAttrib attribs sCID 0 in
  let nick := getAttrib attribs sNick 1 in
  let hubHint := getAttrib attribs sHubHint 1 in
  '(us, user) ←
    (if negb (length cid =? 39)%nat then Some (getUser (l_users l) nick hubHint)
     else c ← CID_fromBase32 cid; Some (createUser (l_users l) c nick));
  '(_, m) ← m_addSourceL (l_qm l) cur user 0;
  Some (mkLoader (l_target l) (l_cur l) (l_isInDownloads l) m us (l_wantEnd l)).

Definition loader_startTag (l : QueueLoader) (name : list Z) (attribs : list (list Z * list Z)) (simple : bool) : option QueueLoader :=
  if negb (l_isInDownloads l) && bool_decide (name = sDownloads)
  then Some (mkLoader (l_target l) (l_cur l) true (l_qm l) (l_users l) (l_wantEnd l))
  else if l_isInDownloads l then
    if bool_decide (l_cur l = None) && bool_decide (name = sDownload) then load_download l attribs simple
    else if bool_decide (name = sSegment) then match l_cur l with Some cur => load_segment l cur attribs | None => Some l end
    else if bool_decide (name = sSource) then match l_cur l with Some cur => load_source l cur attribs | None => Some l end
    else Some l
  else Some l.

Definition loader_endTag (l : QueueLoader) (name : list Z) : option QueueLoader :=
  if l_isInDownloads l then
    if bool_decide (name = sDownload) then
      match l_cur l with
      | Some cur =>
          qi ← m_items (l_qm l) !! cur;
          qi ← finish_item qi;
          Some (mkLoader (l_target l) None true (set_item (l_qm l) cur qi) (l_users l) (l_wantEnd l))
      | None => Some l
      end
    else if bool_decide (name = sDownloads)
    then Some (mkLoader (l_target l) (l_cur l) false (l_qm l) (l_users l) (l_wantEnd l))
    else Some l
  else Some l.

(** The callbacks: the loader throws nothing; after undefined behaviour there is no state. *)
Definition on_start (l : option QueueLoader) (name : list Z) (attribs : list (list Z * list Z)) (simple : bool) : XmlError + option QueueLoader :=
  inr (l ← l; loader_startTag l name attribs simple).
Definition on_end (l : option QueueLoader) (name data : list Z) : XmlError + option QueueLoader := inr (l ← l; loader_endTag l name).

(** [loadQueue]: [file] is what the reads of the file return, if it can be opened. *)
Definition with_generation (m : Manager) (gen : Z) : Manager :=
  with_files m (m_items m) (set_queue (m_files m) (fq_queue (m_files m)) gen (fq_queueTTH (m_files m))).

(** What is left when the loader is destroyed. *)
Definition loaded (l : QueueLoader) : Manager * Users * WantEnd :=
  let m := with_generation (l_qm l) (if bool_decide (fq_queue (m_files (l_qm l)) = ∅) then 0 else 1) in
  (with_dirty m false, l_users l, l_wantEnd l).

Definition loadQueue (toUtf8 : list Z -> Z -> list Z) (m : Manager) (us : Users) (w : WantEnd) (file : option (list (list Z))) : option (Manager * Users * WantEnd) :=
  match file with
  | None => Some (with_dirty m false, us, w)
  | Some chunks =>
      l ← stream_state on_start on_end (Text.toLower W lower) toUtf8 (SimpleXMLReader_new (Some (QueueLoader_new m us w))) 0 0 chunks;
      l ← l;
      Some (loaded l)
  end.
End Loader.
End QueueXml.
