(* ===== verification/QueueLines.v ===== *)
(** * The text of the queue file: [QueueManager::saveQueue] of [client/QueueManager.cpp]

    The text that [saved_text] writes is a list of lines with one tag each ([document_lines]),
    which the XML reader can read ([line_ok] of [XmlText]) and which can be cut anywhere ([plain] of
    [XmlStream]).  [savable] is what an item needs for that. *)

From S2P Require Import Prelude StrUtil Tokenizer Segment SegmentSet Hasher MerkleTree TigerHash Base32 HashValue SpeedCalc Download QueueItem NextSegment Text FileQueue UserQueue QueueManager QueueInvariant XmlReader XmlText PathUtil XmlStream QueueXml.
From Stdlib Require Import (notations) String.

(** ** The lines *)

Definition num (z : Z) : list Z := default [] (intToString z).
Definition b32 (v : list Z) : list Z := default [] (HashValue_toBase32 v).

Definition seg_line (s : Segment) : nat * Piece := (2%nat, PEmpty sSegment [(sStart, num (getStart s)); (sSize, num (getSize s))]).

Definition source_attribs (user : User) : list (list Z * list Z) := [(sCID, b32 (u_cid user)); (sNick, u_nick user)].
Definition full_source_of (j : UserPtr * Source) : bool := negb (isSet (src_flags (snd j)) SRC_FLAG_PARTIAL).

(** The users of the full sources, in the order in which they are written. *)
Definition saved_sources (us : Users) (q : QueueItem) : list User :=
  omap (fun j => if full_source_of j then user_at us !! fst j else None) (map_to_list (qi_sources q)).

Definition auto_priority (q : QueueItem) : bool := isAnySet (qi_extraFlags q) XFLAG_AUTO_PRIORITY.
Definition saved_temp (q : QueueItem) : list Z := if bool_decide (qi_doneSegments q = []) then [] else qi_tempTarget q.

Definition temp_attribs (q : QueueItem) : list (list Z * list Z) := if bool_decide (saved_temp q = []) then [] else [(sTempTarget, saved_temp q)].

Definition item_attribs (q : QueueItem) : list (list Z * list Z) :=
  [(sTarget, qi_target q); (sSize, num (qi_size q)); (sPriority, num (prio_int (qi_priority q))); (sAdded, num (qi_added q)); (sTTH, b32 (qi_tthRoot q))] ++
  temp_attribs q ++ [(sAutoPriority, num (if auto_priority q then 1 else 0)); (sMaxSegments, num (qi_maxSegments q))].

Definition source_line (user : User) : nat * Piece := (2%nat, PEmpty sSource (source_attribs user)).

Definition item_lines (us : Users) (q : QueueItem) : list (nat * Piece) :=
  if is_list q then []
  else (1%nat, POpen sDownload (item_attribs q)) :: map seg_line (qi_doneSegments q) ++ map source_line (saved_sources us q) ++ [(1%nat, PClose sDownload)].

Definition document_lines (us : Users) (items : list QueueItem) : list (nat * Piece) :=
  (O, POpen sDownloads [(sVersion, VERSION_STR)]) :: concat (map (item_lines us) items) ++ [(O, PClose sDownloads)].

(** A text that ends its lines, and lines that start with the end of the line before. *)
Definition written (t : list Z) (l : list (nat * Piece)) : Prop := crlf ++ t = concat (map line_text l) ++ crlf.

Lemma written_nil : written [] [].
Proof. reflexivity. Qed.

Lemma written_app t1 t2 l1 l2 : written t1 l1 -> written t2 l2 -> written (t1 ++ t2) (l1 ++ l2).
Proof. unfold written. intros H1 H2. rewrite app_assoc, H1, map_app, concat_app, <- !app_assoc, H2. reflexivity. Qed.

Lemma written_line t x : crlf ++ t = line_text x ++ crlf -> written t [x].
Proof. intros H. unfold written. rewrite H. cbn [map concat]. rewrite app_nil_r. reflexivity. Qed.

(** *** Values *)

Lemma escape_none s : existsb (special true) s = false -> escape_store true s = s.
Proof. rewrite <- stored_escape. unfold stored, needsEscape. cbn [negb orb Z.eqb CHARSET_UTF8 Pos.eqb]. intros ->. reflexivity. Qed.

Lemma no_special (p : Z -> bool) s : (forall c, p c = true -> special true c = false) -> forallb p s = true -> existsb (special true) s = false.
Proof. intros Hp. induction s as [|c s IH]; [reflexivity|]. cbn. intros H. apply andb_prop in H as [H1 H2]. rewrite (Hp c H1), (IH H2). reflexivity. Qed.

(** A number and its text. *)
Definition num_ok (w n : Z) : Prop := 48 + Z.abs n < 2 ^ (w - 1).

Lemma int_digits_length fuel neg v s t : int_digits fuel neg v s = Some t -> (length t <= fuel + length s)%nat.
Proof.
  revert v s. induction fuel as [|fuel IH]; intros v s; cbn [int_digits]; destruct (v =? 0); intros H; try discriminate; try (injection H as <-; lia).
  apply IH in H. cbn in H. lia.
Qed.

Lemma num_text w n : num_ok w n -> 0 < w <= 64 ->
  intToString n = Some (num n) /\ stringToInt (mkInt w true) (num n) = Some n /\ escape_store true (num n) = num n /\ (length (num n) <= 64)%nat.
Proof.
  intros Hn Hw. unfold num_ok in Hn. assert (2 ^ (w - 1) <= 2 ^ 63) by (apply Z.pow_le_mono_r; lia).
  destruct (number_text w n [] Hn Hw I) as (t & Ht & Hr). rewrite app_nil_r in Hr. unfold num. rewrite Ht. cbn [default from_option].
  split; [reflexivity|]. split; [exact Hr|]. split.
  - destruct (intToString_ok n ltac:(lia)) as (x & ds & Hi & Hd & _). rewrite Ht in Hi. injection Hi as ->. apply escape_none.
    assert (existsb (special true) (x :: ds) = false) as Hs by (apply (no_special is_digit); [|exact Hd]; intros c Hc; unfold is_digit in Hc; unfold special; lia).
    destruct (n <? 0); [|exact Hs]. transitivity (special true 45 || existsb (special true) (x :: ds)); [reflexivity|rewrite Hs; reflexivity].
  - unfold intToString in Ht. destruct (int_digits 63 _ n []) as [s|] eqn:E; [|discriminate]. apply int_digits_length in E. cbn in Ht, E.
    injection Ht as <-. destruct s as [|d s]; destruct (n <? 0); cbn in *; lia.
Qed.

Definition hash_ok (v : list Z) : Prop := bytes_ok v /\ length v = HV_BYTES.

Lemma b32_text v : hash_ok v ->
  HashValue_toBase32 v = Some (b32 v) /\ CID_toBase32 v = Some (b32 v) /\ HashValue_base32 (b32 v) = Some v /\ CID_fromBase32 (b32 v) = Some v /\
  length (b32 v) = 39%nat /\ escape_store true (b32 v) = b32 v.
Proof.
  intros [Hv Hl]. destruct (hash_text_roundtrip v Hv Hl) as (s & Hs & H39 & H1 & H2). unfold b32. rewrite Hs. cbn [default from_option].
  split; [reflexivity|]. split; [exact Hs|]. split; [exact H1|]. split; [exact H2|]. split; [exact H39|].
  destruct (base32_decode_encode v false Hv) as (s' & Hto & _ & Hb & _); [intros ->; discriminate|rewrite Hl; unfold HV_BYTES; lia|].
  unfold HashValue_toBase32 in Hs. rewrite Hto in Hs. injection Hs as ->. apply escape_none. apply (no_special isBase32_char); [|exact Hb].
  intros c Hc. unfold isBase32_char in Hc. unfold special. lia.
Qed.

Lemma b32_plain v : hash_ok v -> escape_store true (b32 v) = b32 v.
Proof. intros H. apply (b32_text v H). Qed.

Lemma b32_cid v : hash_ok v -> CID_toBase32 v = Some (b32 v).
Proof. intros H. apply (b32_text v H). Qed.

(** *** The parts of the text *)

(** Appended texts to the right. *)
Ltac flat := repeat first [rewrite <- app_assoc|rewrite <- app_comm_cons|rewrite app_nil_l].

(** The literals of the source, by the names they hold. *)
Lemma segment_literals : LIT "<Segment Start="%string = 60 :: sSegment ++ 32 :: sStart ++ [61] /\ LIT " Size="%string = 32 :: sSize ++ [61] /\ LIT "/>"%string = [47; 62].
Proof. repeat split. Qed.

Lemma source_literals : LIT "<Source CID="%string = 60 :: sSource ++ 32 :: sCID ++ [61] /\ LIT " Nick="%string = 32 :: sNick ++ [61] /\ LIT "/>"%string = [47; 62].
Proof. repeat split. Qed.

Lemma download_literals :
  LIT "<Download Target="%string = 60 :: sDownload ++ 32 :: sTarget ++ [61] /\ LIT " Size="%string = 32 :: sSize ++ [61] /\ LIT " Priority="%string = 32 :: sPriority ++ [61] /\
  LIT " Added="%string = 32 :: sAdded ++ [61] /\ LIT " TTH="%string = 32 :: sTTH ++ [61] /\ LIT " TempTarget="%string = 32 :: sTempTarget ++ [61] /\
  LIT " AutoPriority="%string = 32 :: sAutoPriority ++ [61] /\ LIT " MaxSegments="%string = 32 :: sMaxSegments ++ [61] /\ LIT ">"%string = [62].
Proof. repeat split. Qed.

Lemma attribs_text_cons n v l : attribs_text ((n, v) :: l) = [32] ++ n ++ [61; 34] ++ escape_store true v ++ [34] ++ attribs_text l.
Proof. unfold attribs_text. cbn [map concat fst snd]. rewrite <- !app_assoc. reflexivity. Qed.

(** What an item needs to be written and read back. *)
Definition value_fits (v : list Z) : Prop := Z.of_nat (length v) + 1 < MAX_VALUE_SIZE.

Definition segment_fits (s : Segment) : Prop := num_ok 64 (getStart s) /\ num_ok 64 (getSize s).

Lemma save_segment_text s : segment_fits s -> exists t, save_segment s = Some t /\ written t [seg_line s].
Proof.
  intros [H1 H2]. destruct (num_text 64 _ H1 ltac:(lia)) as (E1 & _ & X1 & _). destruct (num_text 64 _ H2 ltac:(lia)) as (E2 & _ & X2 & _).
  unfold save_segment. rewrite E1, E2. cbn [mbind option_bind]. eexists. split; [reflexivity|]. apply written_line. unfold seg_line, line_text, piece_text. cbn [fst snd].
  destruct segment_literals as (-> & -> & ->).
  rewrite !attribs_text_cons, X1, X2. unfold crlf. cbn [attribs_text map concat tabs replicate]. flat. reflexivity.
Qed.

(** The sources of an item have users with identifiers of 24 bytes. *)
Definition source_fits (us : Users) (j : UserPtr * Source) : Prop :=
  full_source_of j = true -> exists user, user_at us !! fst j = Some user /\ hash_ok (u_cid user) /\ value_fits (u_nick user).

Lemma bind_to {B C} (x : option B) (y : B) (f : B -> option C) : x = Some y -> x ≫= f = f y.
Proof. intros ->. reflexivity. Qed.

(** The text of a source. *)
Definition source_text (user : User) : list Z :=
  [9; 9] ++ LIT "<Source CID="%string ++ [34] ++ b32 (u_cid user) ++ [34] ++ LIT " Nick="%string ++ [34] ++ stored true (u_nick user) ++ [34] ++ LIT "/>"%string ++ crlf.

Lemma source_tag c n : escape_store true c = c ->
  crlf ++ [9; 9] ++ LIT "<Source CID="%string ++ [34] ++ c ++ [34] ++ LIT " Nick="%string ++ [34] ++ stored true n ++ [34] ++ LIT "/>"%string ++ crlf =
  line_text (2%nat, PEmpty sSource [(sCID, c); (sNick, n)]) ++ crlf.
Proof.
  intros X. unfold line_text, piece_text. cbn [fst snd]. destruct source_literals as (-> & -> & ->).
  rewrite !attribs_text_cons, X, stored_escape. unfold crlf. cbn [attribs_text map concat tabs replicate]. flat. reflexivity.
Qed.

Lemma source_line_text user : escape_store true (b32 (u_cid user)) = b32 (u_cid user) -> crlf ++ source_text user = line_text (source_line user) ++ crlf.
Proof. exact (source_tag (b32 (u_cid user)) (u_nick user)). Qed.

Lemma source_written user : hash_ok (u_cid user) -> written (source_text user) [source_line user].
Proof. intros H. apply written_line, source_line_text, b32_plain, H. Qed.

Lemma save_source_eq us j user : full_source_of j = true -> user_at us !! fst j = Some user -> hash_ok (u_cid user) -> save_source us j = Some (source_text user).
Proof.
  intros Hf Hu Hc. unfold save_source. unfold full_source_of in Hf. apply negb_true_iff in Hf. rewrite Hf.
  rewrite (bind_to _ user _ Hu). cbv beta. rewrite (bind_to _ _ _ (b32_cid (u_cid user) Hc)). reflexivity.
Qed.

Lemma save_source_text us j : source_fits us j ->
  exists t, save_source us j = Some t /\
    written t (map source_line (match (if full_source_of j then user_at us !! fst j else None) with Some user => [user] | None => [] end)).
Proof.
  intros Hj. destruct (full_source_of j) eqn:Ef.
  - destruct (Hj Ef) as (user & Hu & Hc & _). exists (source_text user). rewrite Hu. split; [apply save_source_eq; assumption|apply source_written, Hc].
  - exists []. unfold save_source, full_source_of in *. destruct (isSet _ _); [|discriminate]. split; [reflexivity|apply written_nil].
Qed.

(** Texts one after the other. *)
Lemma save_all {B} (save : B -> option (list Z)) (lines : B -> list (nat * Piece)) l :
  (forall x, x ∈ l -> exists t, save x = Some t /\ written t (lines x)) -> exists ts, mapM save l = Some ts /\ written (concat ts) (concat (map lines l)).
Proof.
  induction l as [|x l IH]; intros H; [exists []; split; [reflexivity|apply written_nil]|].
  destruct (H x ltac:(left)) as (t & Ht & Hw). destruct IH as (ts & Hts & Hws); [intros y Hy; apply H; right; exact Hy|].
  exists (t :: ts). cbn [mapM]. rewrite Ht. cbn [mbind option_bind]. rewrite Hts. split; [reflexivity|]. apply written_app; assumption.
Qed.

Lemma concat_singles {B C} (f : B -> C) l : concat (map (fun x => [f x]) l) = map f l.
Proof. induction l as [|x l IH]; [reflexivity|]. cbn. rewrite IH. reflexivity. Qed.

Lemma concat_omap {B C D} (f : B -> option C) (g : C -> D) l : concat (map (fun x => map g (match f x with Some y => [y] | None => [] end)) l) = map g (omap f l).
Proof. induction l as [|x l IH]; [reflexivity|]. cbn. rewrite IH. destruct (f x); reflexivity. Qed.

Record savable (win : bool) (us : Users) (q : QueueItem) : Prop := {
  sv_size : 0 < qi_size q /\ num_ok 64 (qi_size q);
  sv_target : qi_target q <> [] /\ checkTarget win (fun _ => -1) (qi_target q) (-1) true = Some (inr (qi_target q));
  sv_temp : value_fits (qi_tempTarget q);
  sv_added : 0 < qi_added q /\ num_ok 32 (qi_added q);
  sv_tth : hash_ok (qi_tthRoot q);
  sv_segments : qi_maxSegments q <= 255;
  sv_sources : forall j, j ∈ map_to_list (qi_sources q) -> source_fits us j
}.

Lemma prio_num p : num_ok 32 (prio_int p).
Proof. unfold num_ok. destruct p; cbn; lia. Qed.

Lemma auto_num q : num_ok 32 (if auto_priority q then 1 else 0).
Proof. unfold num_ok. destruct (auto_priority q); cbn; lia. Qed.

Lemma num_ok_le w w' n : num_ok w n -> 0 < w <= w' -> num_ok w' n.
Proof. unfold num_ok. intros H Hw. assert (2 ^ (w - 1) <= 2 ^ (w' - 1)) by (apply Z.pow_le_mono_r; lia). lia. Qed.

Lemma done_fits q s : good q -> num_ok 64 (qi_size q) -> s ∈ qi_doneSegments q -> segment_fits s.
Proof.
  intros [([((_ & Hin & _) & _) _] & _) _] Hn Hs. rewrite Forall_forall in Hin. destruct (Hin s Hs) as (H1 & H2 & H3). unfold segment_fits, num_ok, getEnd in *. lia.
Qed.

(** The text of the start tag. *)
Definition temp_text (q : QueueItem) : list Z :=
  if negb (bool_decide (qi_doneSegments q = [])) && negb (bool_decide (qi_tempTarget q = []))
  then [34] ++ LIT " TempTarget="%string ++ [34] ++ stored true (qi_tempTarget q) else [].

Definition head_text (q : QueueItem) : list Z :=
  [9] ++ LIT "<Download Target="%string ++ [34] ++ stored true (qi_target q) ++
  [34] ++ LIT " Size="%string ++ [34] ++ num (qi_size q) ++
  [34] ++ LIT " Priority="%string ++ [34] ++ num (prio_int (qi_priority q)) ++
  [34] ++ LIT " Added="%string ++ [34] ++ num (qi_added q) ++
  [34] ++ LIT " TTH="%string ++ [34] ++ b32 (qi_tthRoot q) ++
  temp_text q ++
  [34] ++ LIT " AutoPriority="%string ++ [34] ++ num (if auto_priority q then 1 else 0) ++
  [34] ++ LIT " MaxSegments="%string ++ [34] ++ num (qi_maxSegments q) ++
  [34] ++ LIT ">"%string ++ crlf.

(** The values that are written as they are. *)
Definition plain_values (q : QueueItem) : Prop :=
  Forall (fun v => escape_store true v = v)
    [num (qi_size q); num (prio_int (qi_priority q)); num (qi_added q); b32 (qi_tthRoot q); num (if auto_priority q then 1 else 0); num (qi_maxSegments q)].

Lemma temp_text_eq q r : temp_text q ++ 34 :: r = 34 :: attribs_text (temp_attribs q) ++ r.
Proof.
  unfold temp_text, temp_attribs, saved_temp. destruct (bool_decide (qi_doneSegments q = [])) eqn:Ed; cbn [negb andb]; [reflexivity|].
  destruct (bool_decide (qi_tempTarget q = [])); cbn [negb]; [reflexivity|].
  destruct download_literals as (_ & _ & _ & _ & _ & -> & _). rewrite attribs_text_cons, stored_escape. cbn [attribs_text map concat]. flat. reflexivity.
Qed.

Lemma attribs_text_app l1 l2 : attribs_text (l1 ++ l2) = attribs_text l1 ++ attribs_text l2.
Proof. unfold attribs_text. rewrite map_app, concat_app. reflexivity. Qed.

Lemma head_written q : plain_values q -> written (head_text q) [(1%nat, POpen sDownload (item_attribs q))].
Proof.
  intros H. unfold plain_values in H. rewrite !Forall_cons in H. destruct H as (X1 & X2 & X3 & X4 & X5 & X6 & _).
  apply written_line. unfold item_attribs, line_text, piece_text, head_text. cbn [fst snd]. rewrite !attribs_text_app, !attribs_text_cons, X1, X2, X3, X4, X5, X6.
  destruct download_literals as (-> & -> & -> & -> & -> & _ & -> & -> & ->). rewrite stored_escape. unfold crlf. cbn [attribs_text map concat tabs replicate]. flat.
  rewrite temp_text_eq. flat. reflexivity.
Qed.

Lemma item_values win us q : good q -> savable win us q ->
  intToString (qi_size q) = Some (num (qi_size q)) /\ intToString (prio_int (qi_priority q)) = Some (num (prio_int (qi_priority q))) /\
  intToString (qi_added q) = Some (num (qi_added q)) /\ HashValue_toBase32 (qi_tthRoot q) = Some (b32 (qi_tthRoot q)) /\
  intToString (if auto_priority q then 1 else 0) = Some (num (if auto_priority q then 1 else 0)) /\ intToString (qi_maxSegments q) = Some (num (qi_maxSegments q)) /\ plain_values q.
Proof.
  intros Hg Hs.
  destruct (num_text 64 _ (proj2 (sv_size _ _ _ Hs)) ltac:(lia)) as (E1 & _ & X1 & _). destruct (num_text 32 _ (prio_num (qi_priority q)) ltac:(lia)) as (E2 & _ & X2 & _).
  destruct (num_text 32 _ (proj2 (sv_added _ _ _ Hs)) ltac:(lia)) as (E3 & _ & X3 & _). destruct (b32_text _ (sv_tth _ _ _ Hs)) as (E4 & _ & _ & _ & _ & X4).
  destruct (num_text 32 _ (auto_num q) ltac:(lia)) as (E5 & _ & X5 & _).
  assert (num_ok 32 (qi_maxSegments q)) as Hm by (destruct Hg as [([(_ & _ & Hm) _] & _) _]; pose proof (sv_segments _ _ _ Hs); unfold num_ok; cbn; lia).
  destruct (num_text 32 _ Hm ltac:(lia)) as (E6 & _ & X6 & _). repeat split; try assumption. repeat constructor; assumption.
Qed.

Lemma save_item_text win us q : good q -> is_list q = false -> savable win us q -> exists t, save_item us q = Some t /\ written t (item_lines us q).
Proof.
  intros Hg Hl Hs. destruct (item_values win us q Hg Hs) as (E1 & E2 & E3 & E4 & E5 & E6 & Hp).
  destruct (save_all save_segment (fun s => [seg_line s]) (qi_doneSegments q)) as (ts & Ets & Wts); [intros s Hin; apply save_segment_text, (done_fits q s Hg (proj2 (sv_size _ _ _ Hs)) Hin)|].
  destruct (save_all (save_source us) (fun j => map source_line (match (if full_source_of j then user_at us !! fst j else None) with Some user => [user] | None => [] end)) (map_to_list (qi_sources q)))
    as (js & Ejs & Wjs); [intros j Hj; apply save_source_text, (sv_sources _ _ _ Hs j Hj)|].
  rewrite concat_singles in Wts. rewrite (concat_omap (fun j => if full_source_of j then user_at us !! fst j else None)) in Wjs. fold (saved_sources us q) in Wjs.
  exists (head_text q ++ concat ts ++ concat js ++ [9] ++ LIT "</Download>"%string ++ crlf). split.
  - unfold save_item. rewrite Hl. fold (auto_priority q). rewrite E1, E2, E3, E4, E5, E6, Ets, Ejs. cbn [mbind option_bind]. unfold head_text. rewrite <- !app_assoc. reflexivity.
  - unfold item_lines. rewrite Hl. apply (written_app _ _ [_]); [apply head_written, Hp|]. apply written_app; [exact Wts|]. apply written_app; [exact Wjs|reflexivity].
Qed.

(** The whole file. *)
Lemma saved_text_lines win {Regex} (m : @QueueManager Regex) us items : queue_items m = Some items ->
  (forall q, q ∈ items -> is_list q = false -> good q /\ savable win us q) ->
  exists t, saved_text m us = Some (utf8Header ++ t) /\ written t (document_lines us items).
Proof.
  intros Hi Hq. destruct (save_all (save_item us) (item_lines us) items) as (ts & Ets & Wts).
  { intros q Hin. destruct (is_list q) eqn:El.
    - exists []. unfold save_item, item_lines. rewrite El. split; [reflexivity|apply written_nil].
    - destruct (Hq q Hin El) as [H1 H2]. apply (save_item_text win); assumption. }
  unfold saved_text. rewrite Hi. cbn [mbind option_bind]. rewrite Ets. cbn [mbind option_bind]. eexists. split; [reflexivity|].
  unfold document_lines. set (h := LIT "<Downloads Version="%string ++ [34] ++ VERSION_STR ++ [34] ++ LIT ">"%string ++ crlf).
  assert (LIT "<Downloads Version="%string ++ [34] ++ VERSION_STR ++ [34] ++ LIT ">"%string ++ crlf ++ concat ts ++ LIT "</Downloads>"%string ++ crlf =
    h ++ concat ts ++ LIT "</Downloads>"%string ++ crlf) as -> by (unfold h; rewrite <- !app_assoc; reflexivity).
  apply (written_app _ _ [_]); [reflexivity|]. apply written_app; [exact Wts|reflexivity].
Qed.

(** *** The lines can be read *)

Lemma item_names : Forall name_ok [sDownloads; sVersion; sDownload; sTempTarget; sTarget; sSize; sPriority; sSource; sNick; sAdded; sTTH; sCID; sSegment; sStart; sAutoPriority; sMaxSegments].
Proof. repeat constructor; vm_compute; lia. Qed.

Lemma short_fits v : (length v <= 64)%nat -> value_fits v.
Proof. unfold value_fits, MAX_VALUE_SIZE. lia. Qed.

Lemma num_fits w n : num_ok w n -> 0 < w <= 64 -> value_fits (num n).
Proof. intros H Hw. apply short_fits, (num_text w n H Hw). Qed.

Lemma target_fits win t : checkTarget win (fun _ => -1) t (-1) true = Some (inr t) -> value_fits t.
Proof.
  unfold checkTarget. destruct (Z.ltb_spec (if win then FULL_MAX_PATH else PATH_MAX) (Z.of_nat (length t))) as [|H]; [discriminate|]. intros _.
  unfold value_fits, MAX_VALUE_SIZE, FULL_MAX_PATH, PATH_MAX in *. destruct win; lia.
Qed.

Lemma named n : n ∈ [sDownloads; sVersion; sDownload; sTempTarget; sTarget; sSize; sPriority; sSource; sNick; sAdded; sTTH; sCID; sSegment; sStart; sAutoPriority; sMaxSegments] -> name_ok n.
Proof. apply (proj1 (Forall_forall _ _) item_names). Qed.

Ltac a_name := apply named; refine (bool_decide_unpack _ _); vm_compute; exact I.

Lemma attrib_fits n v : name_ok n -> value_fits v -> attrib_ok (n, v).
Proof. split; assumption. Qed.

Lemma seg_line_ok s : segment_fits s -> line_ok (seg_line s).
Proof.
  intros [H1 H2]. split; [cbn; lia|]. split; [a_name|].
  apply Forall_cons; split; [apply attrib_fits; [a_name|apply (num_fits 64 _ H1); lia]|]. apply Forall_cons; split; [apply attrib_fits; [a_name|apply (num_fits 64 _ H2); lia]|constructor].
Qed.

Lemma b32_fits v : hash_ok v -> value_fits (b32 v).
Proof. intros H. apply short_fits. destruct (b32_text v H) as (_ & _ & _ & _ & -> & _). lia. Qed.

Lemma source_line_ok user : hash_ok (u_cid user) -> value_fits (u_nick user) -> line_ok (source_line user).
Proof.
  intros H1 H2. split; [cbn; lia|]. split; [a_name|].
  apply Forall_cons; split; [apply attrib_fits; [a_name|apply b32_fits, H1]|]. apply Forall_cons; split; [apply attrib_fits; [a_name|exact H2]|constructor].
Qed.

Lemma temp_fits q : value_fits (qi_tempTarget q) -> value_fits (saved_temp q).
Proof. intros H. unfold saved_temp. destruct (bool_decide _); [apply short_fits; cbn; lia|exact H]. Qed.

Lemma max_segments_num win us q : good q -> savable win us q -> num_ok 32 (qi_maxSegments q).
Proof. intros Hg Hs. destruct Hg as [([(_ & _ & Hm) _] & _) _]. pose proof (sv_segments _ _ _ Hs). unfold num_ok. cbn. lia. Qed.

Lemma item_attribs_ok win us q : good q -> savable win us q -> Forall attrib_ok (item_attribs q).
Proof.
  intros Hg Hs. unfold item_attribs, temp_attribs. rewrite !Forall_app, !Forall_cons, !Forall_nil.
  split; [|split; [destruct (bool_decide _); [constructor|]|]].
  - repeat split; try (a_name || constructor); cbn [snd].
    + apply (target_fits win), Hs.
    + apply (num_fits 64); [apply Hs|lia].
    + apply (num_fits 32); [apply prio_num|lia].
    + apply (num_fits 32); [apply Hs|lia].
    + apply b32_fits, Hs.
  - apply Forall_cons; split; [apply attrib_fits; [a_name|apply temp_fits, Hs]|constructor].
  - repeat split; try a_name; cbn [snd]; [apply (num_fits 32); [apply auto_num|lia]|apply (num_fits 32); [apply (max_segments_num win us q Hg Hs)|lia]].
Qed.

Lemma saved_sources_in us q user : user ∈ saved_sources us q -> exists j, j ∈ map_to_list (qi_sources q) /\ full_source_of j = true /\ user_at us !! fst j = Some user.
Proof.
  unfold saved_sources. intros H. apply list_elem_of_omap in H as (j & Hj & E). exists j. destruct (full_source_of j); [|discriminate]. repeat split; assumption.
Qed.

Lemma item_lines_ok win us q : good q -> savable win us q -> Forall line_ok (item_lines us q).
Proof.
  intros Hg Hs. unfold item_lines. destruct (is_list q); [constructor|]. apply Forall_cons; split; [split; [cbn; lia|split; [a_name|apply (item_attribs_ok win us q Hg Hs)]]|].
  rewrite !Forall_app. split; [|split].
  - apply Forall_map, Forall_forall. intros s Hin. apply seg_line_ok, (done_fits q s Hg); [apply Hs|exact Hin].
  - apply Forall_map, Forall_forall. intros user Hu. destruct (saved_sources_in us q user Hu) as (j & Hj & Hf & E).
    destruct (sv_sources _ _ _ Hs j Hj Hf) as (user' & E' & H1 & H2). rewrite E in E'. injection E' as <-. apply source_line_ok; assumption.
  - apply Forall_cons; split; [split; [cbn; lia|a_name]|constructor].
Qed.

Lemma document_lines_ok win us items : (forall q, q ∈ items -> is_list q = false -> good q /\ savable win us q) -> Forall line_ok (document_lines us items).
Proof.
  intros H. unfold document_lines. apply Forall_cons; split.
  { split; [cbn; lia|]. split; [a_name|]. apply Forall_cons; split; [apply attrib_fits; [a_name|apply short_fits; vm_compute; lia]|constructor]. }
  apply Forall_app. split; [|apply Forall_cons; split; [split; [cbn; lia|a_name]|constructor]].
  apply Forall_concat, Forall_map, Forall_forall. intros q Hq. destruct (is_list q) eqn:El; [unfold item_lines; rewrite El; constructor|].
  destruct (H q Hq El). apply (item_lines_ok win); assumption.
Qed.

(** *** The lines can be cut anywhere *)

Lemma plain_skip c l : c <> 38 -> c <> 60 -> plain (c :: l) = plain l.
Proof.
  intros H1 H2. cbn [plain begins]. rewrite (proj2 (Z.eqb_neq 38 c)), (proj2 (Z.eqb_neq 60 c)) by lia. reflexivity.
Qed.

Lemma plain_escaped v t : plain (escape_store true v ++ t) = plain t.
Proof.
  induction v as [|c v IH]; [reflexivity|]. cbn [escape_store]. rewrite <- app_assoc. rewrite <- IH. set (r := escape_store true v ++ t). destruct (special true c) eqn:E.
  - unfold special in E. unfold reference. destruct (c =? 60); [reflexivity|]. destruct (c =? 38); [reflexivity|]. destruct (c =? 62); [reflexivity|].
    destruct (c =? 39); [reflexivity|]. destruct (c =? 34); [reflexivity|discriminate].
  - apply plain_skip; unfold special in E; lia.
Qed.

Lemma name_char_plain c : isNameChar c = true -> c <> 38 /\ c <> 60.
Proof. unfold isNameChar, isNameStartChar, inRange. lia. Qed.

Lemma plain_chars n t : forallb isNameChar n = true -> plain (n ++ t) = plain t.
Proof.
  induction n as [|c n IH]; [reflexivity|]. cbn [forallb app]. intros H. apply andb_prop in H as [H1 H2]. apply name_char_plain in H1 as [H1 H3]. rewrite plain_skip by assumption. apply IH, H2.
Qed.

Lemma name_chars n : name_ok n -> forallb isNameChar n = true /\ exists c r, n = c :: r /\ c <> 47 /\ c <> 35 /\ isSpace c = false.
Proof.
  intros [H _]. destruct n as [|c r]; [destruct H|]. destruct H as [H1 H2]. split; [cbn; unfold isNameChar at 1; rewrite H1; exact H2|].
  exists c, r. unfold isNameStartChar, inRange in H1. unfold isSpace. repeat split; lia.
Qed.

Lemma plain_attribs l t : Forall attrib_ok l -> plain (attribs_text l ++ t) = plain t.
Proof.
  induction 1 as [|[n v] l [Hn _] _ IH]; [reflexivity|]. rewrite attribs_text_cons. flat. rewrite plain_skip, plain_chars, !plain_skip, plain_escaped, plain_skip by (lia || apply name_chars, Hn). exact IH.
Qed.

Lemma plain_open c r : c <> 47 -> plain (60 :: c :: r) = plain (c :: r).
Proof. intros H. cbn [plain begins]. rewrite (proj2 (Z.eqb_neq 47 c)) by lia. reflexivity. Qed.

Lemma plain_line x t : line_ok x -> plain (line_text x ++ t) = plain t.
Proof.
  intros [_ H]. destruct x as [ind p]. cbn [snd] in H. unfold line_text. cbn [fst snd]. flat. rewrite !plain_skip by lia.
  assert (forall r, plain (tabs ind ++ r) = plain r) as -> by (intros r; induction ind as [|ind IH]; [reflexivity|]; unfold tabs in *; cbn [replicate app]; rewrite plain_skip by lia; exact IH).
  destruct p as [n l|n l|n]; cbn [piece_text]; [destruct H as [Hn Hl]; pose proof (name_chars n Hn) as (Hc & c & r & E & H1 & H2 & H3)..|pose proof (name_chars n H) as (Hc & c & r & E & H1 & H2 & H3)]; flat.
  - rewrite E at 1. flat. rewrite plain_open by exact H1. change (c :: r ++ ?x) with ((c :: r) ++ x). rewrite <- E, plain_chars, plain_attribs, plain_skip by (assumption || lia). reflexivity.
  - rewrite E at 1. flat. rewrite plain_open by exact H1. change (c :: r ++ ?x) with ((c :: r) ++ x). rewrite <- E, plain_chars, plain_attribs, !plain_skip by (assumption || lia). reflexivity.
  - transitivity (plain (n ++ 62 :: t)).
    + rewrite E. flat. cbn [plain begins Z.eqb Pos.eqb andb negb]. rewrite H3. cbn [negb andb]. reflexivity.
    + rewrite plain_chars, plain_skip by (assumption || lia). reflexivity.
Qed.

Lemma plain_lines l t : Forall line_ok l -> plain (concat (map line_text l) ++ t) = plain t.
Proof. induction 1 as [|x l Hx _ IH]; [reflexivity|]. cbn [map concat]. rewrite <- app_assoc, plain_line by exact Hx. exact IH. Qed.
