(* ===== verification/QueueReload.v ===== *)
(** * The queue file is read back: [saveQueue] and [loadQueue] of [client/QueueManager.cpp]

    What the loader makes of the lines of [QueueLines], one by one, for the segments, the sources and
    the items, and the round trip [queue_roundtrip]: each saved item is restored.  What is not in
    the file is not restored: lists, partial sources, sources that are not in use, and the flags
    other than that of the automatic priority. *)

From S2P Require Import Prelude StrUtil Tokenizer Segment SegmentSet Hasher MerkleTree TigerHash Base32 HashValue SpeedCalc Download QueueItem NextSegment Text FileQueue UserQueue QueueManager QueueInvariant XmlReader XmlText PathUtil XmlStream QueueXml QueueLines.
From Stdlib Require Import (notations) String.

(** *** Attributes *)

Lemma segment_attribs v1 v2 : let l := [(sStart, v1); (sSize, v2)] in getAttrib l sStart 0 = v1 /\ getAttrib l sSize 1 = v2.
Proof. split; reflexivity. Qed.

Lemma source_attribs_get v1 v2 : let l := [(sCID, v1); (sNick, v2)] in getAttrib l sCID 0 = v1 /\ getAttrib l sNick 1 = v2 /\ getAttrib l sHubHint 1 = [].
Proof. repeat split; reflexivity. Qed.

Lemma item_attribs_get t s p a h temp au mx :
  let l := [(sTarget, t); (sSize, s); (sPriority, p); (sAdded, a); (sTTH, h)] ++ (if bool_decide (temp = []) then [] else [(sTempTarget, temp)]) ++ [(sAutoPriority, au); (sMaxSegments, mx)] in
  getAttrib l sSize 1 = s /\ getAttrib l sTTH 5 = h /\ getAttrib l sTarget 0 = t /\ getAttrib l sPriority 3 = p /\ getAttrib l sAdded 4 = a /\
  getAttrib l sTempTarget 5 = temp /\ getAttrib l sMaxSegments 5 = mx /\ getAttrib l sDownloaded 5 = [] /\ getAttrib l sAutoPriority 6 = au.
Proof. case_bool_decide as Ht; [subst temp|]; repeat split; reflexivity. Qed.

(** *** Segments *)

Definition clean_seg (s : Segment) : Segment := mkSeg (getStart s) (getSize s).

Definition add_done (q : QueueItem) (l : list Segment) : QueueItem :=
  set_segments q (qi_downloads q) (qi_doneSegments q ++ l) (qi_doneSegmentsSize q + total_size l) (qi_downloadedBytes q) (qi_averageSpeed q).

Lemma gapped_app_last l s : gapped (l ++ [s]) -> Forall (fun x => getEnd x < getStart s /\ 0 < getSize x) l /\ gapped l.
Proof.
  intros [H1 H2]. apply Forall_app in H2 as [H2 _]. induction l as [|x l IH]; [split; [constructor|split; constructor]|]. cbn in H1. apply StronglySorted_inv in H1 as [H1 H3].
  apply Forall_cons in H2 as [H2 H4]. apply Forall_app in H3 as [H3 H5]. apply Forall_cons in H5 as [H5 _]. destruct (IH H1 H4) as [H6 [H7 H8]].
  split; [constructor; [split; assumption|exact H6]|]. split; constructor; assumption.
Qed.

Lemma addSegment_last q s : good q -> gapped (qi_doneSegments q ++ [s]) -> addSegment q s = Some (add_done q [s]).
Proof.
  intros [([((_ & Hin & _) & _) Hlt] & _) _] Hg. destruct (gapped_app_last _ _ Hg) as [Hb Hgl]. unfold addSegment.
  assert (Z.of_nat (length (qi_doneSegments q)) < 2 ^ 200) as Hlen.
  { pose proof (gapped_length (qi_size q) _ Hgl Hin). assert (2 ^ 63 < 2 ^ 200) by (apply Z.pow_lt_mono_r; lia). lia. }
  rewrite (addSegmentL_eq _ _ _ (gapped_fs_sorted _ Hgl) Hlen).
  assert (fst (fs_insert s (qi_doneSegments q)) = qi_doneSegments q ++ [s]) as ->.
  { rewrite <- (app_nil_r (qi_doneSegments q)) at 1. rewrite fs_insert_between; [reflexivity| |constructor]. eapply Forall_impl; [exact Hb|]. intros x [H1 H2].
    unfold seg_lt, getEnd in *. apply orb_true_iff. left. apply Z.ltb_lt. lia. }
  rewrite (gapped_consolidated_id _ Hg). cbn [mbind option_bind]. unfold add_done. do 2 f_equal. change (total_size [s]) with (getSize s + 0). lia.
Qed.

Lemma add_done_nil q : add_done q [] = q.
Proof. unfold add_done, set_segments. rewrite app_nil_r. cbn. rewrite Z.add_0_r. destruct q. reflexivity. Qed.

Lemma add_done_cons q s l : add_done (add_done q [s]) l = add_done q (s :: l).
Proof.
  unfold add_done, set_segments. cbn -[total_size]. rewrite <- app_assoc. f_equal.
  change (total_size (s :: l)) with (getSize s + total_size l). change (total_size [s]) with (getSize s + 0). lia.
Qed.

(** *** The loader *)

Section Loading.
Context (W : WChar) (lower : list Z -> list Z) (win : bool).
Context {Regex : Type} (regex_assign : list Z -> bool -> option Regex) (regex_match : list Z -> Regex -> bool).
Context (env : LoadEnv).

Abbreviation Manager := (@QueueManager Regex).
Abbreviation Loader := (@QueueLoader Regex).
Abbreviation run := (lines_run (on_start W lower win regex_assign regex_match env) (on_end (Regex := Regex))).
Abbreviation startTag := (loader_startTag W lower win regex_assign regex_match env).
Abbreviation manager_ok := (manager_ok W lower).

(** A loader inside an item. *)
Definition inside (l : Loader) (p : ItemPtr) (q : QueueItem) : Prop :=
  l_isInDownloads l = true /\ l_cur l = Some p /\ manager_ok (l_qm l) /\ queued (m_files (l_qm l)) p /\ m_items (l_qm l) !! p = Some q.

Lemma run_empty els l n attribs rest l' : (length els < 256)%nat -> startTag l n attribs true = Some l' ->
  run (els, Some l) ((2%nat, PEmpty n attribs) :: rest) = run (els, Some l') rest.
Proof using.
  intros Hl Hs. cbn [lines_run]. unfold line_run at 1. cbn [snd]. rewrite (proj2 (Nat.ltb_lt _ _) Hl).
  assert (on_start W lower win regex_assign regex_match env (Some l) n attribs true = inr (Some l')) as -> by (unfold on_start; rewrite <- Hs; reflexivity). reflexivity.
Qed.

Lemma start_segment (l : Loader) p q attribs : inside l p q -> startTag l sSegment attribs true = load_segment l p attribs.
Proof using. intros (H1 & H2 & _). unfold loader_startTag. rewrite H1, H2. reflexivity. Qed.

Lemma start_source (l : Loader) p q attribs : inside l p q -> startTag l sSource attribs true = load_source l p attribs.
Proof using. intros (H1 & H2 & _). unfold loader_startTag. rewrite H1, H2. reflexivity. Qed.

Lemma inside_good l p q : inside l p q -> good q.
Proof using. intros (_ & _ & Hm & Hp & Hq). apply (ok_good _ _ _ _ _ Hm p q Hp Hq). Qed.

Lemma load_one (l : Loader) p q s : inside l p q -> num_ok 64 (qi_size q) -> in_file (qi_size q) s -> gapped (qi_doneSegments q ++ [clean_seg s]) ->
  let l' := set_qm l (set_item (l_qm l) p (add_done q [clean_seg s])) in
  load_segment l p [(sStart, num (getStart s)); (sSize, num (getSize s))] = Some l' /\ inside l' p (add_done q [clean_seg s]).
Proof using.
  intros Hl Hn (H1 & H2 & H3) Hg l'. pose proof (inside_good l p q Hl) as Hgood. destruct Hl as (Hd & Hc & Hm & Hp & Hq).
  assert (num_ok 64 (getStart s) /\ num_ok 64 (getSize s)) as [N1 N2] by (unfold num_ok, getEnd in *; lia).
  destruct (num_text 64 _ N1 ltac:(lia)) as (_ & T1 & _). destruct (num_text 64 _ N2 ltac:(lia)) as (_ & T2 & _).
  destruct (segment_attribs (num (getStart s)) (num (getSize s))) as [A1 A2]. pose proof (addSegment_last q (clean_seg s) Hgood Hg) as Ea. split.
  - unfold load_segment. cbv zeta in A1, A2. rewrite A1, A2. unfold toInt64, int64_t. rewrite T1, T2. cbn [mbind option_bind]. rewrite Hq. cbn [mbind option_bind].
    unfold getEnd in H3. replace ((0 <? getSize s) && (getSize s <=? qi_size q) && (0 <=? getStart s)) with true by lia.
    unfold in_type. cbn [it_signed it_width]. unfold num_ok in Hn.
    replace ((- 2 ^ (64 - 1) <=? getStart s + getSize s) && (getStart s + getSize s <? 2 ^ (64 - 1))) with true by lia. cbn [mbind option_bind].
    rewrite (proj2 (Z.leb_le _ _)) by lia. change (mkSeg (getStart s) (getSize s)) with (clean_seg s). rewrite Ea. reflexivity.
  - split; [exact Hd|]. split; [exact Hc|]. split; [|split; [exact Hp|apply lookup_insert_eq]].
    apply (ok_keeps W lower _ _ _ p q); [exact Hm|exact Hq|]. destruct (addSegment_keeps q (clean_seg s) Hgood) as (q' & E & Hk); [|congruence].
    split; [repeat split; assumption|]. intros t Ht. destruct (gapped_app_last _ _ Hg) as [Hb _]. rewrite Forall_forall in Hb. destruct (Hb t Ht) as [B1 B2].
    unfold seg_eq, getEnd in *. cbn in *. apply andb_false_iff. left. lia.
Qed.

Lemma set_item_twice (m : Manager) p q1 q2 : set_item (set_item m p q1) p q2 = set_item m p q2.
Proof using. unfold set_item, with_items. cbn. rewrite insert_insert_eq. reflexivity. Qed.

Lemma run_segments els ss rest : (length els < 256)%nat -> forall l p q, inside l p q -> num_ok 64 (qi_size q) -> Forall (in_file (qi_size q)) ss ->
  gapped (qi_doneSegments q ++ map clean_seg ss) ->
  let l' := set_qm l (set_item (l_qm l) p (add_done q (map clean_seg ss))) in
  run (els, Some l) (map seg_line ss ++ rest) = run (els, Some l') rest /\ inside l' p (add_done q (map clean_seg ss)).
Proof using.
  intros Hels. induction ss as [|s ss IH]; intros l p q Hl Hn Hin Hg; cbn [map app].
  - rewrite add_done_nil. assert (set_qm l (set_item (l_qm l) p q) = l) as ->; [|split; [reflexivity|exact Hl]].
    destruct Hl as (_ & _ & _ & _ & Hq). unfold set_qm, set_item, with_items. rewrite insert_id by exact Hq. destruct l as [t c b [] u w]. reflexivity.
  - apply Forall_cons in Hin as [Hs Hin]. cbn [map] in Hg. change (clean_seg s :: map clean_seg ss) with ([clean_seg s] ++ map clean_seg ss) in Hg. rewrite app_assoc in Hg.
    assert (gapped (qi_doneSegments q ++ [clean_seg s])) as Hg1 by (destruct Hg as [G1 G2]; split; [apply StronglySorted_app_1_l in G1; exact G1|apply Forall_app in G2; apply G2]).
    destruct (load_one l p q s Hl Hn Hs Hg1) as [E1 Hl1]. rewrite (run_empty _ _ _ _ _ _ Hels (eq_trans (start_segment l p q _ Hl) E1)).
    destruct (IH _ p _ Hl1 Hn Hin Hg) as [E2 Hl2]. rewrite E2. cbn [l_qm set_qm] in *. rewrite set_item_twice, add_done_cons in *. split; [reflexivity|exact Hl2].
Qed.

(** *** Users *)

Definition users_ok (us : Users) : Prop := forall cid p, g_users us !! cid = Some p -> exists u, user_at us !! p = Some u /\ u_cid u = cid.
Definition users_le (us us' : Users) : Prop := forall cid p, g_users us !! cid = Some p -> g_users us' !! cid = Some p.

Lemma createUser_ok us cid nick : users_ok us ->
  let '(us', p) := createUser us cid nick in users_ok us' /\ users_le us us' /\ g_users us' !! cid = Some p.
Proof using.
  intros Hus. unfold createUser. destruct (g_users us !! cid) as [p|] eqn:E.
  - destruct (negb _); [|split; [exact Hus|split; [intros c x Hx; exact Hx|exact E]]]. split; [|split; [intros c x Hx; exact Hx|exact E]].
    intros c x Hx. destruct (Hus c x Hx) as (u & Hu & Hc). cbn. destruct (decide (x = p)) as [->|Hne].
    + rewrite lookup_alter_eq, Hu. exists (updateNick nick u). split; [reflexivity|]. unfold updateNick. destruct (bool_decide _); exact Hc.
    + rewrite lookup_alter_ne by congruence. eauto.
  - unfold new_user. set (p := next_ptr (user_at us)). pose proof (next_ptr_fresh (user_at us)) as Hf. fold p in Hf. split; [|split; [|cbn; apply lookup_insert_eq]].
    + intros c x Hx. cbn in *. destruct (decide (c = cid)) as [->|Hne].
      * rewrite lookup_insert_eq in Hx. injection Hx as <-. eexists. split; [apply lookup_insert_eq|reflexivity].
      * rewrite lookup_insert_ne in Hx by congruence. destruct (Hus c x Hx) as (u & Hu & Hc). exists u. rewrite lookup_insert_ne by congruence. split; assumption.
    + intros c x Hx. cbn. rewrite lookup_insert_ne by congruence. exact Hx.
Qed.

(** *** Sources *)

(** A change of the sources of an item, which had none that are bad: the users there are, and each
    new one has no flags. *)
Definition with_sources (q : QueueItem) (new : UserPtr -> Prop) (q' : QueueItem) : Prop :=
  exists v src pr, q' = set_sources q v src ∅ pr /\ (forall u, is_Some (src !! u) <-> is_Some (qi_sources q !! u) \/ new u) /\
    forall u s, src !! u = Some s -> qi_sources q !! u = Some s \/ s = Source_new.

Lemma with_sources_refl q : qi_badSources q = ∅ -> with_sources q (fun _ => False) q.
Proof using.
  intros Hb. exists (qi_sourcesVersion q), (qi_sources q), (qi_prioQueue q). split; [rewrite <- Hb; destruct q; reflexivity|]. split; [tauto|]. intros u s H. left. exact H.
Qed.

Lemma with_sources_bad q new q' : with_sources q new q' -> qi_badSources q' = ∅.
Proof using. intros (v & src & pr & -> & _). reflexivity. Qed.

Lemma with_sources_trans q1 n1 q2 n2 q3 (n3 : UserPtr -> Prop) : with_sources q1 n1 q2 -> with_sources q2 n2 q3 -> (forall u, n3 u <-> n1 u \/ n2 u) -> with_sources q1 n3 q3.
Proof using.
  intros (v & src & pr & -> & H1 & H2) (v' & src' & pr' & -> & H3 & H4) Hn. exists v', src', pr'. split; [reflexivity|]. split.
  - intros u. rewrite H3. cbn. rewrite H1, Hn. tauto.
  - intros u s H. apply H4 in H as [H|H]; [apply H2, H|right; exact H].
Qed.

Lemma add_one_source (m : Manager) p q u : manager_ok m -> queued (m_files m) p -> m_items m !! p = Some q -> qi_badSources q = ∅ ->
  exists r m' q', m_addSourceL m p u 0 = Some (r, m') /\ manager_ok m' /\ m_files m' = m_files m /\ m_items m' = <[p := q']> (m_items m) /\ with_sources q (eq u) q'.
Proof using.
  intros Hm Hp Hq Hb. destruct (m_addSourceL_ok W lower m p u 0 Hm Hp) as (r & m' & E & Hm' & Hf & _). exists r, m'.
  enough (exists q', m_items m' = <[p := q']> (m_items m) /\ with_sources q (eq u) q') as (q' & H1 & H2) by (exists q'; auto).
  unfold m_addSourceL in E. rewrite Hq in E. cbn [mbind option_bind] in E. destruct (isSourceL q u) eqn:Es.
  { injection E as _ <-. exists q. rewrite insert_id by exact Hq. split; [reflexivity|]. destruct (with_sources_refl q Hb) as (v & src & pr & Eq & H1 & H2).
    exists v, src, pr. split; [exact Eq|]. split; [|exact H2]. intros x. rewrite H1. unfold isSourceL in Es. apply bool_decide_eq_true in Es.
    split; [tauto|]. intros [H|<-]; [left; exact H|left; exact Es]. }
  assert (qi_sources q !! u = None) as Hn by (unfold isSourceL in Es; apply bool_decide_eq_false, eq_None_not_Some in Es; exact Es).
  assert (isBadSourceExceptL q u 0 = false) as Hbad by (unfold isBadSourceExceptL; rewrite Hb, lookup_empty; reflexivity). rewrite Hbad in E.
  assert (with_sources q (eq u) (addSourceL q u)) as Hw.
  { unfold addSourceL. rewrite Hb, lookup_empty, Hn. eexists _, _, _. split; [reflexivity|]. split.
    - intros x. destruct (decide (x = u)) as [->|Hne]; [rewrite lookup_insert_eq; split; [right; reflexivity|eauto]|]. rewrite lookup_insert_ne by congruence. split; [tauto|]. intros [H|H]; congruence.
    - intros x y H. destruct (decide (x = u)) as [->|Hne]; [rewrite lookup_insert_eq in H; right; congruence|]. rewrite lookup_insert_ne in H by congruence. left. exact H. }
  destruct (isFinished (addSourceL q u)).
  { injection E as _ <-. exists (addSourceL q u). split; [reflexivity|exact Hw]. }
  set (q1 := if bool_decide (qi_prioQueue (addSourceL q u) = DEFAULT) then _ else _) in E. destruct (uq_addL_user _ _ _ _ _) as [uq|]; [|discriminate].
  injection E as _ <-. exists q1. split; [destruct (is_list _); reflexivity|]. unfold q1. destruct (bool_decide _); [|exact Hw].
  destruct Hw as (v & src & pr & -> & H1 & H2). exists v, src, (qi_priority q). split; [reflexivity|]. split; assumption.
Qed.

(** The users of a list are sources. *)
Definition new_sources (us : Users) (l : list User) (u : UserPtr) : Prop := exists x, x ∈ l /\ g_users us !! u_cid x = Some u.

Lemma run_sources els ul rest : (length els < 256)%nat -> Forall (fun x => hash_ok (u_cid x)) ul -> forall l p q, inside l p q -> users_ok (l_users l) -> qi_badSources q = ∅ ->
  exists l' q', run (els, Some l) (map source_line ul ++ rest) = run (els, Some l') rest /\ inside l' p q' /\ users_ok (l_users l') /\ users_le (l_users l) (l_users l') /\
    m_files (l_qm l') = m_files (l_qm l) /\ m_items (l_qm l') = <[p := q']> (m_items (l_qm l)) /\ with_sources q (new_sources (l_users l') ul) q' /\
    forall x, x ∈ ul -> is_Some (g_users (l_users l') !! u_cid x).
Proof using.
  intros Hels Hul. induction Hul as [|x ul Hx _ IH]; intros l p q Hl Hus Hb; cbn [map app].
  - exists l, q. split; [reflexivity|]. split; [exact Hl|]. split; [exact Hus|]. split; [intros c y H; exact H|]. split; [reflexivity|].
    split; [symmetry; apply insert_id, Hl|]. split; [|intros x Hx; apply elem_of_nil in Hx; destruct Hx].
    destruct (with_sources_refl q Hb) as (v & src & pr & Eq & H1 & H2). exists v, src, pr. split; [exact Eq|]. split; [|exact H2].
    intros u. rewrite H1. split; [intros [H|[]]; left; exact H|]. intros [H|(x & Hx & _)]; [left; exact H|]. apply elem_of_nil in Hx. destruct Hx.
  - destruct (b32_text _ Hx) as (_ & _ & _ & Hc & H39 & _). destruct (source_attribs_get (b32 (u_cid x)) (u_nick x)) as (A1 & A2 & A3).
    pose proof (createUser_ok (l_users l) (u_cid x) (u_nick x) Hus) as Hcu. destruct (createUser (l_users l) (u_cid x) (u_nick x)) as [us1 u1] eqn:Ecu. destruct Hcu as (Hus1 & Hle1 & Hg1).
    pose proof Hl as (Hd & Hcur & Hm & Hp & Hq). destruct (add_one_source (l_qm l) p q u1 Hm Hp Hq Hb) as (r & m1 & q1 & Ea & Hm1 & Hf1 & Hi1 & Hw1).
    set (l1 := mkLoader (l_target l) (l_cur l) (l_isInDownloads l) m1 us1 (l_wantEnd l)).
    assert (startTag l sSource (source_attribs x) true = Some l1) as Est.
    { rewrite (start_source l p q _ Hl). unfold load_source, source_attribs. cbv zeta in A1, A2, A3 |- *. rewrite A1, A2, H39. cbn [Nat.eqb negb]. rewrite Hc. cbn [mbind option_bind]. rewrite Ecu, Ea. reflexivity. }
    assert (inside l1 p q1) as Hl1 by (split; [exact Hd|split; [exact Hcur|split; [exact Hm1|split; [cbn; rewrite Hf1; exact Hp|cbn; rewrite Hi1; apply lookup_insert_eq]]]]).
    rewrite (run_empty els l sSource (source_attribs x) _ l1 Hels Est).
    destruct (IH l1 p q1 Hl1 Hus1 (with_sources_bad _ _ _ Hw1)) as (l2 & q2 & E2 & Hl2 & Hus2 & Hle2 & Hf2 & Hi2 & Hw2 & Hk2). exists l2, q2.
    split; [exact E2|]. split; [exact Hl2|]. split; [exact Hus2|]. split; [intros c y Hy; apply Hle2, Hle1, Hy|]. split; [rewrite Hf2; exact Hf1|].
    split; [rewrite Hi2; cbn; rewrite Hi1; apply insert_insert_eq|].
    split; [|intros y Hy; apply elem_of_cons in Hy as [->|Hy]; [exists u1; apply Hle2, Hg1|apply Hk2, Hy]]. apply (with_sources_trans q (eq u1) q1 _ q2 _ Hw1 Hw2). intros u. split.
    + intros (y & Hy & Hu). apply elem_of_cons in Hy as [->|Hy]; [left|right; exists y; split; assumption]. rewrite (Hle2 _ _ Hg1) in Hu. congruence.
    + intros [<-|(y & Hy & Hu)]; [exists x; split; [left|apply Hle2, Hg1]|exists y; split; [right; exact Hy|exact Hu]].
Qed.

(** *** The start of an item *)

Lemma new_item_ok (m : Manager) ptr q : manager_ok m -> m_items m !! ptr = None -> good q -> qi_sources q = ∅ -> fq_queue (m_files m) !! target_key W lower (qi_target q) = None ->
  exists fq, fq_addL W lower (<[ptr := q]> (m_items m)) (m_files m) ptr = Some (true, fq) /\ manager_ok (with_files m (<[ptr := q]> (m_items m)) fq) /\
    fq_queue fq = <[target_key W lower (qi_target q) := ptr]> (fq_queue (m_files m)).
Proof using.
  intros Hm Hn Hg Hs Hk.
  assert (~ queued (m_files m) ptr) as Hnq by (intros (k & Hkq); destruct (fq_keys _ _ _ _ (ok_files _ _ _ _ _ Hm) k ptr Hkq) as (q1 & Hq1 & _); congruence).
  assert (fq_ok W lower (<[ptr := q]> (m_items m)) (m_files m)) as Hf.
  { apply (fq_ok_items W lower (m_items m)); [apply Hm|]. intros p q1 Hp Hq1. exists q1. rewrite lookup_insert_ne by congruence. split; [exact Hq1|split; reflexivity]. }
  assert (exists fq, fq_addL W lower (<[ptr := q]> (m_items m)) (m_files m) ptr = Some (true, fq) /\ fq_queue fq = <[target_key W lower (qi_target q) := ptr]> (fq_queue (m_files m))) as (fq & E & Eq).
  { unfold fq_addL. rewrite lookup_insert_eq. cbn [mbind option_bind]. rewrite Hk. eexists. split; reflexivity. }
  exists fq. split; [exact E|]. split; [|exact Eq]. apply (fq_addL_ok W lower) in E as (Hf' & Hq & _); [|exact Hf|exact Hnq]. specialize (Hq eq_refl).
  split; cbn; [exact Hf'| |].
  - apply (uq_ok_new _ _ (queued (m_files m))); [apply Hm|exact Hn|exact Hs|intros x Hx; apply Hq; left; exact Hx|intros x Hx; apply Hq, Hx].
  - intros x qx Hx Hqx. destruct (decide (x = ptr)) as [->|Hne]; [rewrite lookup_insert_eq in Hqx; congruence|]. rewrite lookup_insert_ne in Hqx by congruence.
    apply Hq in Hx as [Hx|]; [|contradiction]. apply (ok_good _ _ _ _ _ Hm x qx Hx Hqx).
Qed.

Lemma int_prio_int p : int_prio (prio_int p) = Some p.
Proof using. destruct p; reflexivity. Qed.

(** An item that was just made. *)
Definition fresh_item (q q0 : QueueItem) : Prop :=
  qi_target q0 = qi_target q /\ qi_size q0 = qi_size q /\ qi_tthRoot q0 = qi_tthRoot q /\ qi_added q0 = qi_added q /\ qi_priority q0 = qi_priority q /\
  qi_maxSegments q0 = qi_maxSegments q /\ qi_tempTarget q0 = saved_temp q /\ auto_priority q0 = auto_priority q /\
  qi_doneSegments q0 = [] /\ qi_doneSegmentsSize q0 = 0 /\ qi_sources q0 = ∅ /\ qi_badSources q0 = ∅ /\ is_list q0 = false /\ good q0.

Lemma auto_flags (a d : bool) : isAnySet (let x := if a then XFLAG_AUTO_PRIORITY else 0 in if d then Z.lor x XFLAG_AUTODROP else x) XFLAG_AUTO_PRIORITY = a.
Proof using. destruct a, d; reflexivity. Qed.

(** A loader between items. *)
Definition between_items (l : Loader) : Prop := l_isInDownloads l = true /\ l_cur l = None /\ manager_ok (l_qm l).

Lemma bind_some {B C} (x : B) (f : B -> option C) : Some x ≫= f = f x.
Proof using. reflexivity. Qed.

Ltac evaluated := repeat (rewrite bind_some; cbv beta iota zeta).

Lemma load_head us (l : Loader) q : between_items l -> good q -> savable win us q -> fq_queue (m_files (l_qm l)) !! target_key W lower (qi_target q) = None ->
  exists l1 q0, startTag l sDownload (item_attribs q) false = Some l1 /\ inside l1 (next_ptr (m_items (l_qm l))) q0 /\ fresh_item q q0 /\ l_users l1 = l_users l /\
    m_items (l_qm l1) = <[next_ptr (m_items (l_qm l)) := q0]> (m_items (l_qm l)) /\
    fq_queue (m_files (l_qm l1)) = <[target_key W lower (qi_target q) := next_ptr (m_items (l_qm l))]> (fq_queue (m_files (l_qm l))).
Proof using.
  intros (Hd & Hc & Hm) Hg Hs Hk. set (ptr := next_ptr (m_items (l_qm l))).
  destruct (num_text 64 _ (proj2 (sv_size _ _ _ Hs)) ltac:(lia)) as (_ & T1 & _). destruct (num_text 32 _ (prio_num (qi_priority q)) ltac:(lia)) as (_ & T2 & _).
  destruct (num_text 32 _ (proj2 (sv_added _ _ _ Hs)) ltac:(lia)) as (_ & T3 & _). destruct (b32_text _ (sv_tth _ _ _ Hs)) as (_ & _ & T4 & _ & T5 & _).
  destruct (num_text 32 _ (auto_num q) ltac:(lia)) as (_ & T6 & _). destruct (num_text 32 _ (max_segments_num win us q Hg Hs) ltac:(lia)) as (_ & T7 & _).
  destruct (sv_target _ _ _ Hs) as [Hne Ht]. destruct (sv_size _ _ _ Hs) as [Hsz Hsz']. destruct (sv_added _ _ _ Hs) as [Had _]. pose proof (sv_segments _ _ _ Hs) as Hmx.
  assert (1 <= qi_maxSegments q) as Hmx1 by (destruct Hg as [([(_ & _ & H) _] & _) _]; exact H).
  destruct (getFlagsForFileName regex_assign regex_match (l_wantEnd l) (e_wantEndFiles env) (getFileName win (qi_target q))) as [w flags] eqn:Ew.
  set (xf := let x := if (if auto_priority q then 1 else 0) =? 1 then XFLAG_AUTO_PRIORITY else 0 in if e_autoDisconnect env then Z.lor x XFLAG_AUTODROP else x).
  destruct (QueueItem_new_good (qi_target q) (qi_size q) (qi_priority q) flags xf (qi_added q) (qi_tthRoot q) (u8 (qi_maxSegments q)) (saved_temp q)) as (q0 & E0 & Hg0 & Hs0);
    [right; unfold num_ok in Hsz'; lia|apply Hg|].
  assert (flags = FLAG_WANT_END \/ flags = 0) as Hfl by (unfold getFlagsForFileName in Ew; injection Ew as _ <-; destruct (w_re _); [destruct (regex_match _ _)|]; tauto).
  assert (fresh_item q q0) as Hf0.
  { unfold QueueItem_new in E0. destruct (if 0 <=? qi_size q then _ else _) as [bs|]; [|discriminate]. cbn [mbind option_bind] in E0. injection E0 as <-.
    assert (Z.max 1 (u8 (qi_maxSegments q)) = qi_maxSegments q) as Eu by (unfold u8, wrap; rewrite Z.mod_small; lia).
    assert (isAnySet xf XFLAG_AUTO_PRIORITY = auto_priority q) as Ex by (unfold xf; destruct (auto_priority q); apply (auto_flags _ (e_autoDisconnect env))).
    unfold fresh_item. repeat split; try reflexivity; try exact Eu; try exact Ex; [destruct Hfl as [-> | ->]; reflexivity|apply Hg0..]. }
  destruct (new_item_ok (l_qm l) ptr q0 Hm (next_ptr_fresh _) Hg0 Hs0) as (fq & Ef & Hm1 & Efq); [replace (qi_target q0) with (qi_target q) by (symmetry; apply Hf0); exact Hk|].
  exists (mkLoader (qi_target q) (Some ptr) (l_isInDownloads l) (with_files (l_qm l) (<[ptr := q0]> (m_items (l_qm l))) fq) (l_users l) w), q0.
  replace (qi_target q0) with (qi_target q) in Efq by (symmetry; apply Hf0).
  split; [|split; [|split; [exact Hf0|split; [reflexivity|split; [reflexivity|exact Efq]]]]].
  2: { split; [exact Hd|]. split; [reflexivity|]. split; [exact Hm1|]. split; [exists (target_key W lower (qi_target q)); cbn; rewrite Efq; apply lookup_insert_eq|apply lookup_insert_eq]. }
  unfold loader_startTag. rewrite Hd, Hc. change (negb true && bool_decide (sDownload = sDownloads)) with false. cbv iota.
  change (bool_decide (@None ItemPtr = None) && bool_decide (sDownload = sDownload)) with true. cbv iota.
  unfold load_download, item_attribs, temp_attribs.
  destruct (item_attribs_get (qi_target q) (num (qi_size q)) (num (prio_int (qi_priority q))) (num (qi_added q)) (b32 (qi_tthRoot q)) (saved_temp q) (num (if auto_priority q then 1 else 0)) (num (qi_maxSegments q)))
    as (A1 & A2 & A3 & A4 & A5 & A6 & A7 & A8 & A9). cbv zeta in A1, A2, A3, A4, A5, A6, A7, A8, A9.
  rewrite A1, A2, A3, A4, A5, A6, A7, A8, A9. unfold toInt64, toInt, int64_t, int_t. rewrite T1. evaluated. rewrite (proj2 (Z.leb_gt _ _)) by lia.
  rewrite bool_decide_false by (intros E; rewrite E in T5; discriminate). rewrite Ht. evaluated. rewrite bool_decide_false by exact Hne.
  rewrite T2. evaluated. rewrite T3. evaluated. rewrite T7. evaluated. change (stringToInt (mkInt 64 true) []) with (Some 0). evaluated.
  rewrite (proj2 (Z.ltb_ge (qi_maxSegments q) 0)), (proj2 (Z.ltb_ge 255 (qi_maxSegments q))), (proj2 (Z.eqb_neq (qi_maxSegments q) 0)), (proj2 (Z.eqb_neq (qi_added q) 0)) by lia.
  rewrite Ew, T6. evaluated. fold xf. rewrite T4. evaluated. rewrite int_prio_int. evaluated. rewrite E0. evaluated. fold ptr. rewrite Ef. evaluated.
  rewrite orb_false_r. replace (if qi_size q <? 0 then 0 else 0) with 0 by (destruct (_ <? _); reflexivity). change (0 <? 0) with false. cbv iota. evaluated. rewrite Hd. reflexivity.
Qed.

(** *** The end of an item *)

Lemma line_opens els l n attribs i rest l' : (length els < 256)%nat -> startTag l n attribs false = Some l' ->
  run (els, Some l) ((i, POpen n attribs) :: rest) = run (n :: els, Some l') rest.
Proof using.
  intros Hl Hs. cbn [lines_run]. unfold line_run at 1. cbn [snd]. rewrite (proj2 (Nat.ltb_lt _ _) Hl).
  assert (on_start W lower win regex_assign regex_match env (Some l) n attribs false = inr (Some l')) as -> by (unfold on_start; rewrite <- Hs; reflexivity). reflexivity.
Qed.

Lemma line_closes els (l : Loader) n i rest l' : loader_endTag l n = Some l' -> run (n :: els, Some l) ((i, PClose n) :: rest) = run (els, Some l') rest.
Proof using.
  intros Hs. cbn [lines_run]. unfold line_run at 1. cbn [fst snd]. rewrite bool_decide_true by reflexivity.
  assert (forall data, on_end (Some l) n data = inr (Some l')) as -> by (intros data; unfold on_end; rewrite <- Hs; reflexivity). reflexivity.
Qed.

Lemma finish_item_ok q : good q -> exists p, finish_item q = Some (setPriorityL (updateDownloadedBytes q) p) /\ keeps q (setPriorityL (updateDownloadedBytes q) p) /\
  calculateAutoPriorityL (setPriorityL (updateDownloadedBytes q) p) = Some p /\ (auto_priority q = false -> p = qi_priority q).
Proof using.
  intros Hg. assert (keeps q (updateDownloadedBytes q)) as Hk by (split; [apply same_place_eq; reflexivity|split; [split; reflexivity|intros H; exact H]]).
  destruct (calculateAutoPriorityL_ok (updateDownloadedBytes q)) as (p & Ep & Hp); [apply Hk, Hg|]. exists p. unfold finish_item. rewrite Ep. split; [reflexivity|]. split; [|split].
  - apply (keeps_trans _ _ _ Hk). split; [apply same_place_eq; reflexivity|apply evolves_priority, Hp].
  - unfold calculateAutoPriorityL in *. cbn in *. destruct (negb _); [exact Ep|reflexivity].
  - unfold auto_priority, isAnySet, calculateAutoPriorityL in *. cbn in *. intros Ha. rewrite Ha in Ep. injection Ep as <-. reflexivity.
Qed.

Lemma load_end (l : Loader) p q : inside l p q -> exists l' pr, loader_endTag l sDownload = Some l' /\ between_items l' /\ l_users l' = l_users l /\ m_files (l_qm l') = m_files (l_qm l) /\
  m_items (l_qm l') = <[p := setPriorityL (updateDownloadedBytes q) pr]> (m_items (l_qm l)) /\
  calculateAutoPriorityL (setPriorityL (updateDownloadedBytes q) pr) = Some pr /\ (auto_priority q = false -> pr = qi_priority q).
Proof using.
  intros Hl. destruct (finish_item_ok q (inside_good _ _ _ Hl)) as (pr & Ef & Hk & Ha & Hn). destruct Hl as (Hd & Hc & Hm & Hp & Hq).
  eexists _, pr. unfold loader_endTag. rewrite Hd, Hc, (bool_decide_true (sDownload = sDownload)) by reflexivity. rewrite Hq, bind_some, Ef, bind_some.
  split; [reflexivity|]. split; [|split; [reflexivity|split; [reflexivity|split; [reflexivity|split; assumption]]]].
  split; [reflexivity|]. split; [reflexivity|]. apply (ok_keeps W lower _ _ _ p q); assumption.
Qed.

(** *** An item *)

(** What is left of the sources of an item, for the users that were found or made. *)
Definition sources_loaded (us us' : Users) (q q' : QueueItem) : Prop :=
  (forall x, x ∈ saved_sources us q -> is_Some (g_users us' !! u_cid x)) /\ (forall u, is_Some (qi_sources q' !! u) <-> new_sources us' (saved_sources us q) u) /\
  forall u s, qi_sources q' !! u = Some s -> s = Source_new.

Lemma sources_loaded_le us us1 us2 q q' : users_le us1 us2 -> sources_loaded us us1 q q' -> sources_loaded us us2 q q'.
Proof using.
  intros Hle (H1 & H2 & H3). split; [intros x Hx; destruct (H1 x Hx) as [u Hu]; exists u; apply Hle, Hu|]. split; [|exact H3]. intros u. rewrite H2. split; intros (x & Hx & Hu).
  - exists x. split; [exact Hx|apply Hle, Hu].
  - exists x. split; [exact Hx|]. destruct (H1 x Hx) as [u' Hu']. rewrite (Hle _ _ Hu') in Hu. congruence.
Qed.

(** The fields of the file. *)
Record same_item (q q' : QueueItem) : Prop := {
  si_target : qi_target q' = qi_target q;
  si_size : qi_size q' = qi_size q;
  si_root : qi_tthRoot q' = qi_tthRoot q;
  si_added : qi_added q' = qi_added q;
  si_maxSegments : qi_maxSegments q' = qi_maxSegments q;
  si_temp : qi_tempTarget q' = saved_temp q;
  si_list : is_list q' = false;
  si_auto : auto_priority q' = auto_priority q;
  si_priority : auto_priority q = false -> qi_priority q' = qi_priority q;
  si_calculated : calculateAutoPriorityL q' = Some (qi_priority q');
  si_done : qi_doneSegments q' = map clean_seg (qi_doneSegments q);
  si_bytes : qi_downloadedBytes q' = qi_doneSegmentsSize q
}.

Lemma total_clean l : total_size (map clean_seg l) = total_size l.
Proof using. induction l as [|s l IH]; [reflexivity|]. change (getSize s + total_size (map clean_seg l) = getSize s + total_size l). rewrite IH. reflexivity. Qed.

Lemma gapped_clean l : gapped l -> gapped (map clean_seg l).
Proof using.
  intros [H1 H2]. split; [|apply Forall_map; exact H2]. induction H1 as [|s l _ IH Hs]; [constructor|]. apply Forall_cons in H2 as [_ H2]. cbn. constructor; [apply IH, H2|].
  apply Forall_map. exact Hs.
Qed.

Lemma load_item us (l : Loader) q rest : between_items l -> users_ok (l_users l) -> good q -> is_list q = false -> savable win us q ->
  fq_queue (m_files (l_qm l)) !! target_key W lower (qi_target q) = None ->
  exists l' q', run ([sDownloads], Some l) (item_lines us q ++ rest) = run ([sDownloads], Some l') rest /\ between_items l' /\ users_ok (l_users l') /\ users_le (l_users l) (l_users l') /\
    fq_queue (m_files (l_qm l')) = <[target_key W lower (qi_target q) := next_ptr (m_items (l_qm l))]> (fq_queue (m_files (l_qm l))) /\
    m_items (l_qm l') = <[next_ptr (m_items (l_qm l)) := q']> (m_items (l_qm l)) /\ same_item q q' /\ sources_loaded us (l_users l') q q'.
Proof using.
  intros Hb Hus Hg Hl Hs Hk. destruct (load_head us l q Hb Hg Hs Hk) as (l1 & q0 & E1 & Hl1 & Hf & Eu1 & Ei1 & Eq1). set (ptr := next_ptr (m_items (l_qm l))) in *.
  unfold item_lines. rewrite Hl. cbn [app]. rewrite <- !app_assoc. rewrite (line_opens [sDownloads] l sDownload (item_attribs q) 1 _ l1) by (cbn; lia || exact E1).
  pose proof Hg as [([((Hgap & Hin & Hsum) & _) _] & _) _].
  destruct Hf as (F1 & F2 & F3 & F4 & F5 & F6 & F7 & F8 & F9 & F10 & F11 & F12 & F13 & F14).
  assert (num_ok 64 (qi_size q0)) as Hn by (rewrite F2; apply Hs).
  destruct (run_segments [sDownload; sDownloads] (qi_doneSegments q) (map source_line (saved_sources us q) ++ [(1%nat, PClose sDownload)] ++ rest) ltac:(cbn; lia) l1 ptr q0 Hl1 Hn) as [E2 Hl2];
    [rewrite F2; exact Hin|rewrite F9; apply gapped_clean, Hgap|]. rewrite E2. set (q2 := add_done q0 _) in *. set (l2 := set_qm _ _) in *.
  destruct (run_sources [sDownload; sDownloads] (saved_sources us q) ([(1%nat, PClose sDownload)] ++ rest) ltac:(cbn; lia)) with (l := l2) (p := ptr) (q := q2)
    as (l3 & q3 & E3 & Hl3 & Hus3 & Hle3 & Ef3 & Ei3 & (v & src & pq & Eq3 & Hsrc & Hnew) & Hk3); [|exact Hl2|change (l_users l2) with (l_users l1); rewrite Eu1; exact Hus|exact F12|].
  { apply Forall_forall. intros x Hx. destruct (saved_sources_in us q x Hx) as (j & Hj & Hfj & Ej). destruct (sv_sources _ _ _ Hs j Hj Hfj) as (x' & E' & H' & _). congruence. }
  rewrite E3. destruct (load_end l3 ptr q3 Hl3) as (l4 & pr & E4 & Hb4 & Eu4 & Ef4 & Ei4 & Hc4 & Ha4). cbn [app]. rewrite (line_closes [sDownloads] l3 sDownload 1 rest l4 E4).
  exists l4, (setPriorityL (updateDownloadedBytes q3) pr). split; [reflexivity|]. split; [exact Hb4|]. rewrite Eu4, Ef4, Ei4, Ei3, Ef3. change (m_files (l_qm l2)) with (m_files (l_qm l1)).
  change (m_items (l_qm l2)) with (<[ptr := q2]> (m_items (l_qm l1))). rewrite Ei1, !insert_insert_eq.
  split; [exact Hus3|]. split; [intros c x Hx; apply Hle3; change (l_users l2) with (l_users l1); rewrite Eu1; exact Hx|]. split; [exact Eq1|]. split; [reflexivity|]. subst q3. split.
  - split; cbn; try assumption.
    + intros Ha. rewrite Ha4; [exact F5|]. transitivity (auto_priority q0); [reflexivity|congruence].
    + rewrite F9. reflexivity.
    + rewrite F10, total_clean, Hsum. lia.
  - assert (qi_sources q2 = ∅) as Hs2 by exact F11. rewrite Hs2 in Hnew. split; [exact Hk3|]. split.
    + intros u. change (is_Some (src !! u) <-> new_sources (l_users l3) (saved_sources us q) u).
      rewrite Hsrc, Hs2, lookup_empty. split; [intros [[x Hx]|H]; [discriminate|exact H]|right; assumption].
    + intros u s H. apply Hnew in H as [H|H]; [rewrite lookup_empty in H; discriminate|exact H].
Qed.

(** *** The items *)

(** An item of the saved queue and what is in the queue for it. *)
Definition in_queue (us : Users) (l : Loader) (q : QueueItem) : Prop :=
  exists p q', fq_queue (m_files (l_qm l)) !! target_key W lower (qi_target q) = Some p /\ m_items (l_qm l) !! p = Some q' /\ same_item q q' /\ sources_loaded us (l_users l) q q'.

(** The loader goes on, and the queue grows. *)
Definition grows (l l' : Loader) : Prop :=
  users_le (l_users l) (l_users l') /\ (forall k p, fq_queue (m_files (l_qm l)) !! k = Some p -> fq_queue (m_files (l_qm l')) !! k = Some p) /\
  forall p q, m_items (l_qm l) !! p = Some q -> m_items (l_qm l') !! p = Some q.

Lemma grows_trans l1 l2 l3 : grows l1 l2 -> grows l2 l3 -> grows l1 l3.
Proof using. intros (H1 & H2 & H3) (H4 & H5 & H6). split; [intros c p H; apply H4, H1, H|]. split; [intros k p H; apply H5, H2, H|intros p q H; apply H6, H3, H]. Qed.

Lemma in_queue_grows us l l' q : grows l l' -> in_queue us l q -> in_queue us l' q.
Proof using. intros (H1 & H2 & H3) (p & q' & Hp & Hq & Hs & Hu). exists p, q'. split; [apply H2, Hp|]. split; [apply H3, Hq|]. split; [exact Hs|apply (sources_loaded_le _ _ _ _ _ H1 Hu)]. Qed.

Definition key_of (q : QueueItem) : list Z := target_key W lower (qi_target q).

Lemma load_items us items rest : NoDup (map key_of items) -> forall l : Loader, between_items l -> users_ok (l_users l) ->
  (forall q, q ∈ items -> is_list q = false -> good q /\ savable win us q /\ fq_queue (m_files (l_qm l)) !! key_of q = None) ->
  exists l', run ([sDownloads], Some l) (concat (map (item_lines us) items) ++ rest) = run ([sDownloads], Some l') rest /\ between_items l' /\ users_ok (l_users l') /\ grows l l' /\
    (forall q, q ∈ items -> is_list q = false -> in_queue us l' q) /\
    forall k p, fq_queue (m_files (l_qm l')) !! k = Some p -> fq_queue (m_files (l_qm l)) !! k = Some p \/ exists q, q ∈ items /\ is_list q = false /\ key_of q = k.
Proof using.
  induction items as [|q items IH]; intros Hnd l Hb Hus Hq; cbn [map concat].
  { exists l. split; [reflexivity|]. split; [exact Hb|]. split; [exact Hus|]. split; [split; [intros c p H; exact H|split; intros a b H; exact H]|].
    split; [intros q Hin; apply elem_of_nil in Hin; destruct Hin|]. intros k p H. left. exact H. }
  cbn [map] in Hnd. apply NoDup_cons in Hnd as [Hfresh Hnd]. rewrite <- app_assoc. destruct (is_list q) eqn:El.
  { unfold item_lines at 1. rewrite El. cbn [app]. destruct (IH Hnd l Hb Hus) as (l' & E & Hb' & Hus' & Hgr & Hin & Hkeys); [intros x Hx; apply Hq; right; exact Hx|].
    exists l'. split; [exact E|]. split; [exact Hb'|]. split; [exact Hus'|]. split; [exact Hgr|]. split.
    - intros x Hx Hxl. apply elem_of_cons in Hx as [->|Hx]; [congruence|]. apply Hin; assumption.
    - intros k p H. apply Hkeys in H as [H|(x & Hx & H)]; [left; exact H|right]. exists x. split; [right; exact Hx|exact H]. }
  destruct (Hq q ltac:(left) El) as (Hg & Hs & Hk). destruct (load_item us l q (concat (map (item_lines us) items) ++ rest) Hb Hus Hg El Hs Hk) as (l1 & q1 & E1 & Hb1 & Hus1 & Hle1 & Eq1 & Ei1 & Hsame & Hsrc).
  rewrite E1. assert (grows l l1) as Hgr1.
  { split; [exact Hle1|]. split.
    - intros k p Hp. rewrite Eq1, lookup_insert_ne; [exact Hp|]. intros <-. unfold key_of in Hk. congruence.
    - intros p x Hp. rewrite Ei1, lookup_insert_ne; [exact Hp|]. intros <-. rewrite next_ptr_fresh in Hp. discriminate. }
  destruct (IH Hnd l1 Hb1 Hus1) as (l2 & E2 & Hb2 & Hus2 & Hgr2 & Hin & Hkeys).
  { intros x Hx Hxl. destruct (Hq x ltac:(right; exact Hx) Hxl) as (Hgx & Hsx & Hkx). split; [exact Hgx|]. split; [exact Hsx|]. rewrite Eq1, lookup_insert_ne; [exact Hkx|].
    intros Ek. apply Hfresh. change (target_key W lower (qi_target q)) with (key_of q) in Ek. rewrite Ek. apply list_elem_of_fmap. exists x. split; [reflexivity|exact Hx]. }
  exists l2. split; [exact E2|]. split; [exact Hb2|]. split; [exact Hus2|]. split; [apply (grows_trans _ _ _ Hgr1 Hgr2)|]. split.
  - intros x Hx Hxl. apply elem_of_cons in Hx as [->|Hx]; [|apply Hin; assumption]. apply (in_queue_grows us l1 l2 q Hgr2).
    exists (next_ptr (m_items (l_qm l))), q1. rewrite Eq1, Ei1, !lookup_insert_eq. repeat split; try reflexivity; try apply Hsame; apply Hsrc.
  - intros k p H. apply Hkeys in H as [H|(x & Hx & H)]; [|right; exists x; split; [right; exact Hx|exact H]].
    rewrite Eq1 in H. destruct (decide (k = key_of q)) as [->|Hne]; [right; exists q; split; [left|split; [exact El|reflexivity]]|].
    rewrite lookup_insert_ne in H by (intros E; apply Hne; symmetry; exact E). left. exact H.
Qed.

(** *** The file *)

Lemma load_document us items (l : Loader) : NoDup (map key_of items) -> l_isInDownloads l = false -> l_cur l = None -> manager_ok (l_qm l) -> users_ok (l_users l) -> fq_queue (m_files (l_qm l)) = ∅ ->
  (forall q, q ∈ items -> is_list q = false -> good q /\ savable win us q) ->
  exists l', run ([], Some l) (document_lines us items) = Some ([], Some l') /\ manager_ok (l_qm l') /\ users_ok (l_users l') /\
    (forall q, q ∈ items -> is_list q = false -> in_queue us l' q) /\
    forall k p, fq_queue (m_files (l_qm l')) !! k = Some p -> exists q, q ∈ items /\ is_list q = false /\ key_of q = k.
Proof using.
  intros Hnd Hd Hc Hm Hus He Hq. set (l1 := mkLoader (l_target l) (l_cur l) true (l_qm l) (l_users l) (l_wantEnd l)).
  assert (startTag l sDownloads [(sVersion, VERSION_STR)] false = Some l1) as E1 by (unfold loader_startTag; rewrite Hd; reflexivity).
  unfold document_lines. rewrite (line_opens [] l sDownloads _ O _ l1) by (cbn; lia || exact E1).
  destruct (load_items us items [(O, PClose sDownloads)] Hnd l1) as (l2 & E2 & (Hd2 & Hc2 & Hm2) & Hus2 & _ & Hin & Hkeys).
  { split; [reflexivity|]. split; [exact Hc|exact Hm]. }
  { exact Hus. }
  { intros q Hi Hl. destruct (Hq q Hi Hl) as [H1 H2]. split; [exact H1|]. split; [exact H2|]. cbn. rewrite He. apply lookup_empty. }
  rewrite E2. exists (mkLoader (l_target l2) (l_cur l2) false (l_qm l2) (l_users l2) (l_wantEnd l2)).
  rewrite (line_closes [] l2 sDownloads O [] (mkLoader (l_target l2) (l_cur l2) false (l_qm l2) (l_users l2) (l_wantEnd l2))) by (unfold loader_endTag; rewrite Hd2; reflexivity).
  split; [reflexivity|]. split; [exact Hm2|]. split; [exact Hus2|]. split; [exact Hin|].
  intros k p H. apply Hkeys in H as [H|H]; [|exact H]. cbn in H. rewrite He, lookup_empty in H. discriminate.
Qed.

(** *** The items of a queue *)

Lemma item_keys (m : Manager) (l : list (list Z * ItemPtr)) items :
  (forall k p, (k, p) ∈ l -> exists q, m_items m !! p = Some q /\ target_key W lower (qi_target q) = k) -> mapM (fun p => m_items m !! p) l.*2 = Some items -> map key_of items = l.*1.
Proof using.
  intros Hl H. apply mapM_Some in H. revert items H. induction l as [|[k p] l IH]; intros items H; [apply Forall2_nil_inv_l in H as ->; reflexivity|].
  apply Forall2_cons_inv_l in H as (q & items' & Hq & H & ->). destruct (Hl k p ltac:(left)) as (q' & Hq' & Hk). cbn in *. f_equal; [unfold key_of; congruence|].
  apply IH; [|exact H]. intros k' p' Hin. apply Hl. right. exact Hin.
Qed.

Lemma queue_items_ok (m : Manager) : manager_ok m ->
  exists items, queue_items m = Some items /\ NoDup (map key_of items) /\
    forall q, q ∈ items <-> exists p, fq_queue (m_files m) !! key_of q = Some p /\ m_items m !! p = Some q.
Proof using.
  intros Hm. pose proof (fq_keys _ _ _ _ (ok_files _ _ _ _ _ Hm)) as Hk. unfold queue_items.
  assert (is_Some (mapM (fun p => m_items m !! p) (map_to_list (fq_queue (m_files m))).*2)) as [items E].
  { apply mapM_is_Some, Forall_fmap, Forall_forall. intros [k p] Hin. apply elem_of_map_to_list in Hin. destruct (Hk k p Hin) as (q & Hq & _). exists q. exact Hq. }
  exists items. split; [exact E|]. split.
  - rewrite (item_keys m (map_to_list (fq_queue (m_files m))) items); [apply NoDup_fst_map_to_list| |exact E]. intros k p Hin. apply elem_of_map_to_list in Hin. apply Hk, Hin.
  - apply mapM_Some in E. intros q. split.
    + intros Hin. apply list_elem_of_lookup in Hin as [i Hi]. destruct (Forall2_lookup_r _ _ _ _ _ E Hi) as (p & Hp & Hq). rewrite list_lookup_fmap in Hp.
      destruct (map_to_list (fq_queue (m_files m)) !! i) as [[k p']|] eqn:Ei; [|discriminate]. injection Hp as <-. apply list_elem_of_lookup_2, elem_of_map_to_list in Ei.
      exists p'. destruct (Hk k p' Ei) as (q' & Hq' & Ek). unfold key_of. replace q' with q in Ek by congruence. rewrite Ek. split; assumption.
    + intros (p & Hp & Hq). assert (p ∈ (map_to_list (fq_queue (m_files m))).*2) as Hi by (apply list_elem_of_fmap; exists (key_of q, p); split; [reflexivity|apply elem_of_map_to_list, Hp]).
      apply list_elem_of_lookup in Hi as [i Hi].
      destruct (Forall2_lookup_l _ _ _ _ _ E Hi) as (q' & Hi' & Hq'). cbn in Hq'. replace q with q' by congruence. apply list_elem_of_lookup_2 in Hi'. exact Hi'.
Qed.

(** *** What is restored *)

(** The identifiers of the full sources of an item. *)
Definition source_cid (us : Users) (q : QueueItem) (cid : list Z) : Prop :=
  exists u s x, qi_sources q !! u = Some s /\ full_source_of (u, s) = true /\ user_at us !! u = Some x /\ u_cid x = cid.

Definition restored (us : Users) (q : QueueItem) (us' : Users) (q' : QueueItem) : Prop := same_item q q' /\ forall cid, source_cid us' q' cid <-> source_cid us q cid.

Lemma saved_source us q cid : source_cid us q cid <-> exists x, x ∈ saved_sources us q /\ u_cid x = cid.
Proof using.
  split.
  - intros (u & s & x & Hu & Hf & Hx & Hc). exists x. split; [|exact Hc]. apply list_elem_of_omap. exists (u, s). split; [apply elem_of_map_to_list, Hu|]. rewrite Hf. exact Hx.
  - intros (x & Hx & Hc). destruct (saved_sources_in us q x Hx) as ([u s] & Hj & Hf & E). exists u, s, x. apply elem_of_map_to_list in Hj. repeat split; assumption.
Qed.

Lemma loaded_restored us us' q q' : users_ok us' -> same_item q q' -> sources_loaded us us' q q' -> restored us q us' q'.
Proof using.
  intros Hus Hs (H1 & H2 & H3). split; [exact Hs|]. intros cid. rewrite (saved_source us q). split.
  - intros (u & s & y & Hu & _ & Hy & <-). destruct (proj1 (H2 u) ltac:(eauto)) as (x & Hx & Hg). exists x. split; [exact Hx|]. destruct (Hus _ _ Hg) as (y' & Hy' & Hc). congruence.
  - intros (x & Hx & <-). destruct (H1 x Hx) as [u Hu]. destruct (proj2 (H2 u)) as [s Hs']; [exists x; split; assumption|]. destruct (Hus _ _ Hu) as (y & Hy & Hc).
    rewrite (H3 u s Hs') in Hs'.
    exists u, Source_new, y. split; [exact Hs'|]. split; [reflexivity|]. split; assumption.
Qed.

Lemma loaded_ok (l : Loader) : manager_ok (l_qm l) -> manager_ok (loaded l).1.1.
Proof using.
  intros [[H1 H2 H3 H4] H5 H6]. split; [split; [exact H1|exact H2|exact H3|]|exact H5|exact H6]. cbn. case_bool_decide; split; (lia || tauto).
Qed.

(** *** The round trip *)

(** The system leaves the name of the encoding as it is. *)
Hypothesis lower_utf8 : Text.toLower W lower utf8_name = Some utf8_name.

(** C5.  The queue survives a restart, for items that can be saved: [saveQueue] writes a text, and
    [loadQueue] into an empty queue, in whatever pieces it reads that text after the header,
    ends without an error and with a queue that has exactly the items whose flags have neither
    [FLAG_USER_LIST] nor [FLAG_USER_GET_IP] (a DCLST list is saved like a file).  Each has its target, size, root,
    time, number of segments, the finished segments with their temporary file, and the full
    sources by their identifiers; its priority is the one it had or, if it is automatic, the one
    for what is done.  The indexes of the new queue agree.  An item can be saved if its size is
    known, positive and less than 2^63 - 48; its target is not empty and is left as it is by [checkTarget]; the name of its
    temporary file and the nicks of its sources are shorter than the limit of a value of the XML
    reader; the time it was added is positive and less than 2^31 - 48, since the loader reads it into
    an [int] (from January 2038 on a time is not read back); its root and the identifiers of its full
    sources have 24 bytes; its sources are known users; and it has at most 255 segments.  Both
    queues satisfy the invariant of the manager, the table of users of the new one is
    consistent, and [Text::toLower] leaves the name [utf-8] as it is. *)
Theorem queue_roundtrip (m m0 : Manager) us us0 w toUtf8 : manager_ok m ->
  (forall p q, queued (m_files m) p -> m_items m !! p = Some q -> is_list q = false -> savable win us q) ->
  manager_ok m0 -> fq_queue (m_files m0) = ∅ -> users_ok us0 ->
  exists text, saveQueue m us true true = Some (Some text, with_dirty m false) /\
    forall first chunks, text = utf8Header ++ first ++ concat chunks -> Forall (fun d => d <> []) chunks ->
    exists m' us' w', loadQueue W lower win regex_assign regex_match env toUtf8 m0 us0 w (Some ((utf8Header ++ first) :: chunks)) = Some (m', us', w') /\ manager_ok m' /\
      (forall k, is_Some (fq_queue (m_files m') !! k) <-> exists p q, fq_queue (m_files m) !! k = Some p /\ m_items m !! p = Some q /\ is_list q = false) /\
      forall k p q, fq_queue (m_files m) !! k = Some p -> m_items m !! p = Some q -> is_list q = false ->
        exists p' q', fq_queue (m_files m') !! k = Some p' /\ m_items m' !! p' = Some q' /\ restored us q us' q'.
Proof using lower_utf8.
  intros Hm Hs Hm0 He Hus0. destruct (queue_items_ok m Hm) as (items & Ei & Hnd & Hin).
  assert (forall q, q ∈ items -> is_list q = false -> good q /\ savable win us q) as Hq.
  { intros q Hq Hl. apply Hin in Hq as (p & Hp & Hq). assert (queued (m_files m) p) as Hpq by (eexists; exact Hp). split; [apply (ok_good _ _ _ _ _ Hm p q Hpq Hq)|apply (Hs p q Hpq Hq Hl)]. }
  destruct (saved_text_lines win m us items Ei Hq) as (t & Et & Hw). exists (utf8Header ++ t). split; [unfold saveQueue; rewrite andb_false_r, Et; reflexivity|].
  intros first chunks Ht Hc. apply app_inv_head in Ht. pose proof (document_lines_ok win us items Hq) as Hok.
  destruct (load_document us items (QueueLoader_new m0 us0 w) Hnd eq_refl eq_refl Hm0 Hus0 He Hq) as (l' & El & Hml & Husl & Hall & Hkeys).
  exists (loaded l').1.1, (l_users l'), (l_wantEnd l'). split; [|split; [apply loaded_ok, Hml|]].
  - unfold loadQueue.
    rewrite (stream_lines _ _ _ _ lower_utf8 (document_lines us items) (Some (QueueLoader_new m0 us0 w)) (Some l') first chunks Hok); [reflexivity| |exact El|exact Hc|rewrite <- Ht; exact Hw].
    rewrite plain_lines by exact Hok. reflexivity.
  - assert (forall k p q, fq_queue (m_files m) !! k = Some p -> m_items m !! p = Some q -> key_of q = k /\ q ∈ items) as Hitem.
    { intros k p q Hp Hq'. destruct (fq_keys _ _ _ _ (ok_files _ _ _ _ _ Hm) k p Hp) as (q1 & Hq1 & Ek). assert (key_of q = k) as E by (unfold key_of; congruence). split; [exact E|]. apply Hin. exists p. rewrite E. split; assumption. }
    split.
    + intros k. split.
      * intros [p' Hp']. destruct (Hkeys k p' Hp') as (q & Hqi & Hl & <-). apply Hin in Hqi as (p & Hp & Hq'). eauto.
      * intros (p & q & Hp & Hq' & Hl). destruct (Hitem k p q Hp Hq') as [<- Hqi]. destruct (Hall q Hqi Hl) as (p' & q' & Hp' & _). exists p'. exact Hp'.
    + intros k p q Hp Hq' Hl. destruct (Hitem k p q Hp Hq') as [<- Hqi]. destruct (Hall q Hqi Hl) as (p' & q' & Hp' & Hq1 & Hsame & Hsrc).
      exists p', q'. split; [exact Hp'|]. split; [exact Hq1|apply loaded_restored; assumption].
Qed.
End Loading.

(** ** A queue that is saved and read *)

(** A file of 32 MiB in the directory "/d", with two finished segments and a source. *)
Definition reload_file : @QueueManager unit :=
  default QueueManager_new ('(it, fq, _) ← FileQueue_add W4 sample_lower sample_assign sample_match ∅ FileQueue_new sample_conf 1%positive (LIT "/d/f&1.bin"%string) (LIT "f&1.bin"%string)
      (2 ^ 25) 0 0 (-1) (LIT "/t/f"%string) (Some sample_tth) 2 1700000000 0 false;
    Some (with_files QueueManager_new it fq)).
Definition reload_sourced : @QueueManager unit := default reload_file (snd <$> m_addSourceL reload_file 1%positive 7%positive 0).
Definition reload_segment (q : QueueItem) (s : Segment) : QueueItem := default q (addSegment q s).
Definition reload_item : QueueItem := Eval vm_compute in
  reload_segment (reload_segment (default sample_new (m_items reload_sourced !! 1%positive)) (mkSeg 0 1048576)) (mkSeg 3145728 1048576).
Definition reload_queue : @QueueManager unit := set_item reload_sourced 1%positive reload_item.
Definition reload_users : Users := mkUsers {[ repeat 5 24 := 7%positive ]} {[ 7%positive := mkUser (repeat 5 24) (LIT "nick<>"%string) false ]}.
Definition reload_env : LoadEnv := mkEnv 0 sample_conf [] false.

Lemma reload_segment_keeps q s : good q -> fresh q s -> keeps q (reload_segment q s).
Proof. intros Hg Hf. destruct (addSegment_keeps q s Hg Hf) as (q' & E & Hk). unfold reload_segment. rewrite E. exact Hk. Qed.

Lemma reload_file_reachable : reachable W4 sample_lower sample_assign sample_match reload_file.
Proof.
  eapply reach_op; [eapply (op_add _ _ _ _ sample_conf 1%positive (LIT "/d/f&1.bin"%string) (LIT "f&1.bin"%string) (2 ^ 25) 0 0 (-1) (LIT "/t/f"%string) (Some sample_tth) 2 1700000000 0 false)
    |apply reach_new|split; [reflexivity|right; lia]|]. vm_compute. reflexivity.
Qed.

Lemma reload_sourced_ok : manager_ok W4 sample_lower reload_sourced.
Proof.
  apply (reachable_ok W4 sample_lower sample_assign sample_match).
  eapply reach_op; [eapply (op_addSource _ _ _ _ 1%positive 7%positive 0)|apply reload_file_reachable|exists (LIT "/d/f&1.bin"%string); reflexivity|]. vm_compute. reflexivity.
Qed.

Lemma reload_queue_ok : manager_ok W4 sample_lower reload_queue.
Proof.
  pose proof reload_sourced_ok as Hm.
  destruct (m_items reload_sourced !! 1%positive) as [q|] eqn:Eq; [|vm_compute in Eq; discriminate].
  assert (good q) as Hg by (apply (ok_good _ _ _ _ _ Hm 1%positive q); [exists (LIT "/d/f&1.bin"%string); reflexivity|exact Eq]).
  assert (keeps q reload_item) as Hk; [|exact (ok_keeps W4 sample_lower _ _ _ 1%positive q reload_item Hm Eq Hk)].
  assert (reload_item = reload_segment (reload_segment (default sample_new (m_items reload_sourced !! 1%positive)) (mkSeg 0 1048576)) (mkSeg 3145728 1048576)) as -> by (vm_compute; reflexivity).
  rewrite Eq. cbn [default from_option]. assert (keeps q (reload_segment q (mkSeg 0 1048576))) as Hk.
  { apply reload_segment_keeps; [exact Hg|]. vm_compute in Eq. injection Eq as <-. split; [repeat split; vm_compute; congruence|]. intros t Ht. apply elem_of_nil in Ht. destruct Ht. }
  apply (keeps_trans _ _ _ Hk), reload_segment_keeps; [apply Hk, Hg|]. clear Hk. vm_compute in Eq. injection Eq as <-. split; [repeat split; vm_compute; congruence|].
  intros t Ht. vm_compute in Ht. apply list_elem_of_singleton in Ht as ->. reflexivity.
Qed.

Lemma hash_repeat c : 0 <= c < 256 -> hash_ok (repeat c 24).
Proof. intros H. split; [do 24 (constructor; [exact H|]); constructor|reflexivity]. Qed.

Lemma reload_savable p q : m_items reload_queue !! p = Some q -> savable false reload_users q.
Proof.
  intros Hq. assert (m_items reload_queue = {[ 1%positive := reload_item ]}) as E by (vm_compute; reflexivity). rewrite E in Hq. apply lookup_singleton_Some in Hq as [_ <-].
  split; [vm_compute; split; congruence| | |vm_compute; split; congruence|apply (hash_repeat 1); lia|vm_compute; congruence|].
  - split; [discriminate|vm_compute; reflexivity].
  - vm_compute. reflexivity.
  - intros j Hj. assert (map_to_list (qi_sources reload_item) = [(7%positive, Source_new)]) as Es by (vm_compute; reflexivity). rewrite Es in Hj. apply list_elem_of_singleton in Hj as ->.
    intros _. exists (mkUser (repeat 5 24) (LIT "nick<>"%string) false). split; [reflexivity|]. split; [apply (hash_repeat 5); lia|vm_compute; reflexivity].
Qed.

Definition reload_body : list Z := drop (length utf8Header) (default [] (saved_text reload_queue reload_users)).

Lemma queue_roundtrip_witness :
  exists m' us' w' p' q', loadQueue W4 sample_lower false sample_assign sample_match reload_env (fun s _ => s) QueueManager_new (mkUsers ∅ ∅) (mkWantEnd [] None)
      (Some ((utf8Header ++ take 100 reload_body) :: [drop 100 reload_body])) = Some (m', us', w') /\ manager_ok W4 sample_lower m' /\
    fq_queue (m_files m') !! LIT "/d/f&1.bin"%string = Some p' /\ m_items m' !! p' = Some q' /\ restored reload_users reload_item us' q'.
Proof.
  destruct (queue_roundtrip W4 sample_lower false sample_assign sample_match reload_env eq_refl reload_queue QueueManager_new reload_users (mkUsers ∅ ∅) (mkWantEnd [] None) (fun s _ => s))
    as (text & E & H).
  - exact reload_queue_ok.
  - intros p q _ Hq _. exact (reload_savable p q Hq).
  - apply QueueManager_new_ok.
  - reflexivity.
  - intros cid p Hc. cbn in Hc. rewrite lookup_empty in Hc. discriminate.
  - assert (text = utf8Header ++ reload_body) as -> by (vm_compute in E; injection E as <-; vm_compute; reflexivity).
    destruct (H (take 100 reload_body) [drop 100 reload_body]) as (m' & us' & w' & E' & Hm & _ & Hq).
    + cbn [concat]. rewrite app_nil_r, take_drop. reflexivity.
    + constructor; [vm_compute; discriminate|constructor].
    + destruct (Hq (LIT "/d/f&1.bin"%string) 1%positive reload_item) as (p' & q' & Hp & Hq' & Hr); [reflexivity..|]. exists m', us', w', p', q'. do 4 (split; [assumption|]). exact Hr.
Defined.
