(* ===== verification/StringSearch.v ===== *)
(** * Substring search: [client/StringSearch.h]

    Searching the share matches the words of a query against file names with Quick
    Search, a variant of Boyer-Moore: after a mismatch the pattern moves by a distance
    read from a table at the character after the window.  [T] is the width of a table
    entry in bits (8 or 16).  Strings are changed to lower case with [toLower] of [Text], in
    which the system's function [lower] for wide strings is an argument. *)

From S2P Require Import Prelude CArray Text.

Section Search.
Variable W : WChar.
Variable lower : list Z -> list Z.

Definition fold_case (ignoreCase : bool) (s : list Z) : option (list Z) :=
  if ignoreCase then toLower W lower s else Some s.

(** [delta1] is [None] for a null pointer. *)
Record StringSearch := mkSearch {
  ss_delta1 : option (list Z);
  ss_pattern : list Z;
  ss_ignoreCase : bool;
  ss_smallTable : bool
}.

(** [for (unsigned i = 0; i < x; ++i) d[p[i]] = (T) (x - i);] *)
Fixpoint fill_delta (T x i : Z) (p : list Z) (d : list Z) : option (list Z) :=
  match p with
  | [] => Some d
  | c :: p => if i <? x then d ← wr d c (wrap T (x - i)); fill_delta T x (i + 1) p d else Some d
  end.

Definition initDelta1 (T : Z) (pattern : list Z) : option (list Z) :=
  let x := wrap T (len pattern + 1) in
  let d := replicate 256 x in
  fill_delta T (wrap T (x - 1)) 0 pattern d.

Definition search_init (pattern : list Z) (ignoreCase : bool) : option StringSearch :=
  let small := len pattern <? 255 in
  d ← initDelta1 (if small then 8 else 16) pattern;
  Some (mkSearch (Some d) pattern ignoreCase small).

Definition StringSearch_new (pattern : list Z) (ignoreCase : bool) : option StringSearch :=
  pattern ← fold_case ignoreCase pattern; search_init pattern ignoreCase.

(** The copy and move constructors; [rhs] after a move is the second component. *)
Definition StringSearch_copy (rhs : StringSearch) : StringSearch :=
  mkSearch (ss_delta1 rhs) (ss_pattern rhs) (ss_ignoreCase rhs) (ss_smallTable rhs).
Definition StringSearch_move (rhs : StringSearch) : StringSearch * StringSearch :=
  (mkSearch (ss_delta1 rhs) (ss_pattern rhs) (ss_ignoreCase rhs) (ss_smallTable rhs),
   mkSearch None [] (ss_ignoreCase rhs) (ss_smallTable rhs)).

(** The assignments; assigning an object to itself changes nothing. *)
Definition StringSearch_assign (s rhs : StringSearch) : StringSearch := StringSearch_copy rhs.
Definition StringSearch_move_assign (s rhs : StringSearch) : StringSearch * StringSearch :=
  StringSearch_move rhs.

Definition StringSearch_eq (s rhs : StringSearch) : bool :=
  bool_decide (ss_pattern s = ss_pattern rhs) && eqb (ss_ignoreCase s) (ss_ignoreCase rhs).

Definition getTableSize (s : StringSearch) : Z := if ss_smallTable s then 256 else 512.

(** [while (i < plen && px[i] == tx[i]) ++i;] from [tx] at [pos]: the text is followed by a
    zero byte. *)
Definition compare_step (tx px : list Z) (pos plen i : Z) : option (Z + Z) :=
  if i <? plen then
    a ← rd px i; b ← rd tx (pos + i);
    Some (if a =? b then inl (i + 1) else inr i)
  else Some (inr i).

Definition match_step (d tx px : list Z) (tlen plen pos : Z) : option (Z + bool) :=
  if pos <? tlen - plen + 1 then
    i ← whileM (compare_step tx px pos plen) 0;
    if i =? plen then Some (inr true)
    else
      c ← rd tx (pos + plen);
      s ← rd d c;
      Some (inl (pos + s))
  else Some (inr false).

Definition doMatch (d tx px : list Z) (tlen plen : Z) : option bool :=
  whileM (match_step d tx px tlen plen) 0.

Definition matchKeepCase (s : StringSearch) (text : list Z) : option bool :=
  match ss_delta1 s with
  | None => Some false
  | Some d =>
      if len text <? len (ss_pattern s) then Some false
      else doMatch d (text ++ [0]) (ss_pattern s) (len text) (len (ss_pattern s))
  end.

Definition search_match (s : StringSearch) (text : list Z) : option bool :=
  text ← fold_case (ss_ignoreCase s) text; matchKeepCase s text.

(** ** Correctness *)

(** [text] has [pattern] at position [q]. *)
Definition at_pos (text pattern : list Z) (q : Z) : Prop :=
  0 <= q /\ q + len pattern <= len text /\ forall i, 0 <= i < len pattern -> get text (q + i) = get pattern i.

(** What the table promises: an entry is positive and at most the distance from any
    occurrence of the character to the end of the pattern. *)
Definition table_ok (d pattern : list Z) : Prop :=
  len d = 256 /\ (forall c, 0 <= c < 256 -> 1 <= get d c <= len pattern + 1) /\
  (forall i, 0 <= i < len pattern -> get d (get pattern i) <= len pattern - i).

Lemma len_cons' (x : Z) l : len (x :: l) = len l + 1.
Proof. unfold len. cbn [length]. lia. Qed.

Lemma get_cons_0 (x : Z) l : get (x :: l) 0 = x.
Proof. done. Qed.

Lemma get_cons_pos (x : Z) l i : 0 < i -> get (x :: l) i = get l (i - 1).
Proof. intros Hi. unfold get. replace (Z.to_nat i) with (S (Z.to_nat (i - 1))) by lia. done. Qed.

(** The loop from index [i] on: entries only get smaller, and those of the characters left
    are at most their distances. *)
Lemma fill_delta_ok T n p : forall i d, 0 <= i -> i + len p = n -> n < 2 ^ T -> bytes_ok p ->
  len d = 256 -> (forall c, 0 <= c < 256 -> 1 <= get d c <= n + 1) ->
  exists d', fill_delta T n i p d = Some d' /\ len d' = 256 /\
    (forall c, 0 <= c < 256 -> 1 <= get d' c <= n + 1) /\
    (forall c, 0 <= c < 256 -> get d' c <= get d c \/ get d' c <= n - i) /\
    (forall k, 0 <= k < len p -> get d' (get p k) <= n - i - k).
Proof.
  induction p as [|c p IH]; intros i d Hi Hn HT Hp Hd Hr.
  - exists d. split; [done|]. split; [done|]. split; [done|]. split; [by intros; left|].
    intros k Hk. unfold len in Hk. simpl in Hk. lia.
  - rewrite len_cons' in Hn. pose proof (len_nonneg p). apply Forall_cons in Hp as [Hc Hp]. unfold is_byte in Hc.
    cbn [fill_delta]. destruct (i <? n) eqn:E; zb; [|lia]. rewrite wr_ok, option_bind_Some_eq by lia.
    unfold wrap. rewrite Z.mod_small by lia.
    destruct (IH (i + 1) (set d c (n - i))) as (d' & -> & Hl & Hr' & Hmono & Hocc); try done; try lia.
    { by rewrite len_set. }
    { intros x Hx. rewrite get_set by lia. case_if; [lia|by apply Hr]. }
    exists d'. split; [done|]. split; [done|]. split; [done|]. split.
    + intros x Hx. destruct (Hmono x Hx) as [Hm|Hm]; [|right; lia]. rewrite get_set in Hm by lia.
      case_if_in Hm; [right; lia|by left].
    + intros k Hk. rewrite len_cons' in Hk. destruct (decide (k = 0)) as [->|].
      * rewrite get_cons_0. destruct (Hmono c Hc) as [Hm|Hm]; [rewrite get_set_eq in Hm by lia|]; lia.
      * rewrite get_cons_pos by lia. specialize (Hocc (k - 1) ltac:(lia)). lia.
Qed.

Lemma initDelta1_ok T p : bytes_ok p -> len p + 1 < 2 ^ T ->
  exists d, initDelta1 T p = Some d /\ table_ok d p.
Proof.
  intros Hp HT. unfold initDelta1. pose proof (len_nonneg p).
  unfold wrap. rewrite (Z.mod_small (len p + 1)) by lia. replace (len p + 1 - 1) with (len p) by lia.
  rewrite (Z.mod_small (len p)) by lia.
  assert (forall c, 0 <= c < 256 -> get (replicate 256 (len p + 1)) c = len p + 1) as Hrep.
  { intros c Hc. unfold get. apply lookup_total_replicate_2. lia. }
  destruct (fill_delta_ok T (len p) p 0 (replicate 256 (len p + 1))) as (d & -> & Hl & Hr & _ & Hocc); try done; try lia.
  { intros c Hc. rewrite Hrep by done. lia. }
  exists d. split; [done|]. split; [done|]. split; [done|]. intros i Hi. specialize (Hocc i Hi). lia.
Qed.

Lemma compare_ok (tx px : list Z) pos : 0 <= pos -> pos + len px < len tx -> len px < 2 ^ 200 ->
  exists i, whileM (compare_step tx px pos (len px)) 0 = Some i /\ 0 <= i <= len px /\
    (i = len px <-> forall k, 0 <= k < len px -> get tx (pos + k) = get px k).
Proof.
  intros Hpos Hlen Hbig.
  destruct (whileM_total (compare_step tx px pos (len px))
    (fun i => 0 <= i <= len px /\ forall k, 0 <= k < i -> get tx (pos + k) = get px k)
    (fun i => len px - i)
    (fun i => 0 <= i <= len px /\ (i = len px <-> forall k, 0 <= k < len px -> get tx (pos + k) = get px k)) 0)
    as (i & Hw & Hi); [| |lia|by exists i].
  - intros i (Hi & Hk). unfold compare_step. destruct (i <? len px) eqn:E; zb.
    + rewrite !rd_ok, !option_bind_Some_eq by lia. eexists. split; [done|].
      destruct (get px i =? get tx (pos + i)) eqn:Eq; zb.
      * split; [|lia]. split; [lia|]. intros k Hk'. destruct (decide (k = i)) as [->|]; [done|]. apply Hk. lia.
      * split; [lia|]. split; [lia|]. intros Hall. specialize (Hall i ltac:(lia)). congruence.
    + eexists. split; [done|]. split; [done|]. assert (i = len px) as -> by lia. done.
  - split; [pose proof (len_nonneg px); lia|]. intros; lia.
Qed.

(** The shift never jumps over an occurrence. *)
Lemma shift_sound d text px pos q : table_ok d px -> bytes_ok text -> bytes_ok px ->
  0 <= pos -> pos + len px <= len text ->
  let c := get (text ++ [0]) (pos + len px) in
  pos < q < pos + get d c -> ~ at_pos text px q.
Proof.
  intros (Hl & Hr & Hocc) Ht Hp Hpos Hin c Hq (Hq0 & Hqe & Hat).
  assert (pos + len px < len text) as Hlt.
  { destruct (decide (pos + len px = len text)); [lia|lia]. }
  assert (0 <= c < 256) as Hc.
  { unfold c, get. rewrite lookup_total_app_l by (unfold len in *; lia).
    unfold bytes_ok in Ht. rewrite Forall_forall in Ht. apply Ht, list_elem_of_lookup_total_2. unfold len in *. lia. }
  assert (c = get px (len px - (q - pos))) as Hcp.
  { specialize (Hr c Hc). rewrite <-Hat by lia. unfold c, get. rewrite lookup_total_app_l by (unfold len in *; lia).
    f_equal. lia. }
  specialize (Hr c Hc). specialize (Hocc (len px - (q - pos)) ltac:(lia)). rewrite <-Hcp in Hocc. lia.
Qed.

Lemma at_pos_terminated text px q : 0 <= q -> q + len px <= len text ->
  (at_pos text px q <-> forall k, 0 <= k < len px -> get (text ++ [0]) (q + k) = get px k).
Proof.
  intros Hq Hl. assert (forall k, 0 <= k < len px -> get (text ++ [0]) (q + k) = get text (q + k)) as Happ.
  { intros k Hk. unfold get. apply lookup_total_app_l. unfold len in *. lia. }
  split.
  - intros (_ & _ & H) k Hk. rewrite Happ by done. by apply H.
  - intros H. split; [done|]. split; [done|]. intros i Hi. rewrite <-Happ by done. by apply H.
Qed.

Lemma doMatch_ok d text px : table_ok d px -> bytes_ok text -> bytes_ok px -> len px <= len text -> len text < 2 ^ 100 ->
  exists b, doMatch d (text ++ [0]) px (len text) (len px) = Some b /\ (b = true <-> exists q, at_pos text px q).
Proof.
  intros Ht Hb Hp Hle Hbig. unfold doMatch. pose proof Ht as (Hl & Hr & _).
  assert (len (text ++ [0]) = len text + 1) as Hlt by (unfold len; rewrite length_app; simpl; lia).
  pose proof (len_nonneg px).
  apply (whileM_total (match_step d (text ++ [0]) px (len text) (len px))
    (fun pos => 0 <= pos /\ forall q, 0 <= q < pos -> ~ at_pos text px q)
    (fun pos => Z.max 0 (len text - len px + 1 - pos))); [|split; [lia|]; intros; lia|lia].
  intros pos (Hpos & Hno). unfold match_step. destruct (pos <? len text - len px + 1) eqn:E; zb.
  - destruct (compare_ok (text ++ [0]) px pos) as (i & -> & Hi & Hiff); [done|lia|lia|].
    rewrite option_bind_Some_eq. pose proof (at_pos_terminated text px pos Hpos ltac:(lia)) as Hat.
    destruct (i =? len px) eqn:Ei; zb.
    + eexists. split; [done|]. split; [|done]. intros _. exists pos. by apply Hat, Hiff.
    + assert (0 <= get (text ++ [0]) (pos + len px) < 256) as Hc.
      { unfold get. apply (Forall_lookup_total_1 is_byte); [|unfold len in *; lia].
        apply Forall_app. split; [done|]. repeat constructor; unfold is_byte; lia. }
      rewrite rd_ok, option_bind_Some_eq, rd_ok, option_bind_Some_eq by lia.
      eexists. split; [done|]. cbn beta iota. specialize (Hr _ Hc). split; [|lia]. split; [lia|].
      intros q Hq. destruct (decide (q < pos)); [apply Hno; lia|].
      destruct (decide (q = pos)) as [->|]; [rewrite Hat, <-Hiff; done|].
      apply (shift_sound d text px pos q); try done; lia.
  - eexists. split; [done|]. split; [done|]. intros (q & Hq). exfalso. apply (Hno q); [|done].
    destruct Hq as (? & ? & _). lia.
Qed.

Lemma at_pos_substring text px : (exists q, at_pos text px q) <-> exists a b, text = a ++ px ++ b.
Proof.
  split.
  - intros (q & Hq & Hl & Hat). exists (take (Z.to_nat q) text), (drop (Z.to_nat q + length px) text).
    rewrite <-(take_drop (Z.to_nat q) text) at 1. f_equal. rewrite <-(take_drop (length px) (drop _ text)).
    rewrite drop_drop. f_equal. unfold len in *.
    apply list_eq_same_length with (length px); [done|rewrite length_take, length_drop; lia|].
    intros i x y Hi Hx Hy. rewrite lookup_take_lt, lookup_drop in Hx by done.
    specialize (Hat (Z.of_nat i) ltac:(lia)). unfold get in Hat. rewrite Nat2Z.id in Hat.
    apply list_lookup_total_correct in Hx, Hy. rewrite <-Hx, <-Hy. rewrite <-Hat. f_equal. lia.
  - intros (a & b & ->). exists (len a). unfold at_pos, len. split; [lia|]. rewrite !length_app. split; [lia|].
    intros i Hi. unfold get. rewrite lookup_total_app_r by lia. rewrite lookup_total_app_l by lia. f_equal. lia.
Qed.

Lemma fold_case_ok (Hlower : forall ws, Forall (unit_ok W) (lower ws)) ignoreCase s : bytes_ok s ->
  exists r, fold_case ignoreCase s = Some r /\ bytes_ok r.
Proof. intros Hs. unfold fold_case. destruct ignoreCase; [apply toLower_ok; assumption|eauto]. Qed.

(** C35.  Quick Search finds exactly the substrings: for a pattern of fewer than 65535 bytes,
    the constructor returns, and [match] returns true exactly when the pattern occurs in
    the text (both in lower case if case is ignored); the table and the text are
    read inside their bounds. *)
Theorem StringSearch_correct (Hlower : forall ws, Forall (unit_ok W) (lower ws)) (pattern text : list Z) (ignoreCase : bool)
  (Hpattern : bytes_ok pattern) (Htext : bytes_ok text) :
  exists p t, fold_case ignoreCase pattern = Some p /\ fold_case ignoreCase text = Some t /\
  (len p < 65535 -> len t < 2 ^ 64 ->
   exists s b, StringSearch_new pattern ignoreCase = Some s /\ search_match s text = Some b /\
     (b = true <-> exists u v, t = u ++ p ++ v)).
Proof.
  destruct (fold_case_ok Hlower ignoreCase pattern Hpattern) as (p & Ep & Hp).
  destruct (fold_case_ok Hlower ignoreCase text Htext) as (t & Et & Ht).
  exists p, t. split; [exact Ep|]. split; [exact Et|]. intros Hlen Hbig.
  unfold StringSearch_new, search_match, search_init. rewrite Ep, option_bind_Some_eq.
  destruct (initDelta1_ok (if len p <? 255 then 8 else 16) p Hp) as (d & -> & Htab).
  { destruct (len p <? 255) eqn:E; zb; [change (2 ^ 8) with 256; lia|change (2 ^ 16) with 65536; lia]. }
  rewrite option_bind_Some_eq. exists (mkSearch (Some d) p ignoreCase (len p <? 255)). cbn [ss_ignoreCase].
  rewrite Et, option_bind_Some_eq. unfold matchKeepCase. cbn [ss_delta1 ss_pattern].
  destruct (len t <? len p) eqn:E; zb.
  - exists false. split; [done|]. split; [done|]. rewrite <-at_pos_substring. split; [done|]. intros (q & Hq & Hl & _). lia.
  - destruct (doMatch_ok d t p Htab Ht Hp) as (b & -> & Hb); [lia|lia|]. exists b. by rewrite <-at_pos_substring.
Qed.
End Search.

(** [towlower] on the Latin letters. *)
Definition sample_lower (ws : list Z) : list Z := map (fun x => u16 (asciiToLower x)) ws.

Lemma StringSearch_correct_witness :
  exists s b, StringSearch_new W2 sample_lower [66; 99] true = Some s /\
    search_match W2 sample_lower s [97; 98; 98; 67] = Some b /\
    (b = true <-> exists u v, [97; 98; 98; 99] = u ++ [98; 99] ++ v).
Proof.
  destruct (StringSearch_correct W2 sample_lower) with (pattern := [66; 99]) (text := [97; 98; 98; 67]) (ignoreCase := true)
    as (p & t & Hp & Ht & H).
  - intros ws. apply Forall_forall. intros x (y & -> & _)%list_elem_of_fmap. apply (Z.mod_pos_bound _ 65536). lia.
  - repeat constructor; unfold is_byte; lia.
  - repeat constructor; unfold is_byte; lia.
  - vm_compute in Hp. vm_compute in Ht. injection Hp as <-. injection Ht as <-. apply H; reflexivity.
Defined.
