(* ===== verification/Bloom.v ===== *)
(** * Bloom filters: [client/BloomFilter.h], [client/HashBloom.h], [client/HashBloom.cpp]

    [BloomFilter<N>] remembers the substrings of length [N] of the names in the share, so
    that most searches are answered without looking at it; [HashBloom] is the filter of
    file hashes sent to hubs, whose positions are [h]-bit fields of the hash.  A
    [vector<bool>] is a list; [size_t] has 64 bits and [char] is signed.  Reading or writing
    outside a vector, and dividing by zero, are undefined ([None]). *)

From S2P Require Import Prelude CArray.

(** ** [BloomFilter<N>] *)

Section BloomFilter.
Variable N : nat.

Definition BloomFilter := list bool.

Definition BloomFilter_new (tableSize : Z) : BloomFilter := replicate (Z.to_nat tableSize) false.

(** [h ^= *c + 0x9e3779b9 + (h << 6) + (h >> 2)]: the first sum is in [unsigned int]. *)
Definition hash_char (h c : Z) : Z :=
  Z.lxor h (u64 (u64 (u32 (swrap 8 c + 0x9e3779b9) + u64 (Z.shiftl h 6)) + Z.shiftr h 2)).

Definition getPos (table : BloomFilter) (s : list Z) (i : nat) (l : nat) : option Z :=
  let h := foldl hash_char 0 (take l (drop i s)) in
  if len table =? 0 then None else Some (h mod len table).

(** [for (i = 0; i <= l; ++i)] over the positions left, [n] of them. *)
Fixpoint xadd_loop (n : nat) (table : BloomFilter) (s : list Z) (i : nat) : option BloomFilter :=
  match n with
  | O => Some table
  | S n => p ← getPos table s i N; table ← wr table p true; xadd_loop n table s (S i)
  end.

Definition xadd (table : BloomFilter) (s : list Z) : option BloomFilter :=
  if (N <=? length s)%nat then xadd_loop (S (length s - N)) table s 0 else Some table.

Definition bloom_add (table : BloomFilter) (s : list Z) : option BloomFilter := xadd table s.

Fixpoint match_loop (n : nat) (table : BloomFilter) (s : list Z) (i : nat) : option bool :=
  match n with
  | O => Some true
  | S n => p ← getPos table s i N; b ← rd table p; if b : bool then match_loop n table s (S i) else Some false
  end.

Definition bloom_match (table : BloomFilter) (s : list Z) : option bool :=
  if (N <=? length s)%nat then match_loop (S (length s - N)) table s 0 else Some true.

Fixpoint bloom_match_list (table : BloomFilter) (s : list (list Z)) : option bool :=
  match s with
  | [] => Some true
  | x :: r => b ← bloom_match table x; if b : bool then bloom_match_list table r else Some false
  end.

Definition bloom_clear (table : BloomFilter) : BloomFilter := replicate (length table) false.

Definition bloom_getInfo (table : BloomFilter) : Z * Z :=
  (len table, Z.of_nat (length (filter (fun b => b = true) table))).

Fixpoint bloom_add_all (table : BloomFilter) (ss : list (list Z)) : option BloomFilter :=
  match ss with [] => Some table | s :: ss => table ← bloom_add table s; bloom_add_all table ss end.
End BloomFilter.

(** ** [HashBloom] *)

Record HashBloom := mkHashBloom { hb_bloom : list bool; hb_k : Z; hb_h : Z }.

Definition TTH_BITS := 192.
Definition HashBloom_new : HashBloom := mkHashBloom [] 0 0.

(** [get_k]; the number of bits [get_m] is computed with [log] and is an argument. *)
Fixpoint get_k_loop (get_m : Z -> Z -> Z) (n : Z) (k : nat) : Z :=
  match k with
  | O => 1
  | S O => 1
  | S k' => if Z.shiftr (get_m n (Z.of_nat k)) 24 =? 0 then Z.of_nat k else get_k_loop get_m n k'
  end.
Definition get_k (get_m : Z -> Z -> Z) (n h : Z) : Z := get_k_loop get_m n (Z.to_nat (TTH_BITS / h)).

(** [for (i = 0; i < h; ++i)]: shifting a 64-bit one by 64 or more is undefined. *)
Fixpoint pos_loop (n : nat) (tth : list Z) (start i x : Z) : option Z :=
  match n with
  | O => Some x
  | S n =>
      let bit := start + i in
      b ← rd tth (bit / 8);
      if Z.testbit b (bit mod 8)
      then if i <? 64 then pos_loop n tth start (i + 1) (Z.lor x (Z.shiftl 1 i)) else None
      else pos_loop n tth start (i + 1) x
  end.

Definition hb_pos (f : HashBloom) (tth : list Z) (n : Z) : option Z :=
  if TTH_BITS <? (n + 1) * hb_h f then Some 0
  else
    x ← pos_loop (Z.to_nat (hb_h f)) tth (n * hb_h f) 0 0;
    if len (hb_bloom f) =? 0 then None else Some (x mod len (hb_bloom f)).

Fixpoint hb_add_loop (n : nat) (f : HashBloom) (tth : list Z) (i : Z) : option HashBloom :=
  match n with
  | O => Some f
  | S n => p ← hb_pos f tth i; b ← wr (hb_bloom f) p true; hb_add_loop n (mkHashBloom b (hb_k f) (hb_h f)) tth (i + 1)
  end.
Definition hb_add (f : HashBloom) (tth : list Z) : option HashBloom := hb_add_loop (Z.to_nat (hb_k f)) f tth 0.

Fixpoint hb_match_loop (n : nat) (f : HashBloom) (tth : list Z) (i : Z) : option bool :=
  match n with
  | O => Some true
  | S n => p ← hb_pos f tth i; b ← rd (hb_bloom f) p; if b : bool then hb_match_loop n f tth (i + 1) else Some false
  end.
Definition hb_match (f : HashBloom) (tth : list Z) : option bool :=
  match hb_bloom f with [] => Some false | _ => hb_match_loop (Z.to_nat (hb_k f)) f tth 0 end.

Definition hb_push_back (f : HashBloom) (v : bool) : HashBloom := mkHashBloom (hb_bloom f ++ [v]) (hb_k f) (hb_h f).

(** [resize] keeps what is there. *)
Definition hb_reset (f : HashBloom) (k m h : Z) : HashBloom := mkHashBloom (resize (Z.to_nat m) false (hb_bloom f)) k h.

(** [v[i / 8] |= bloom[i] << (i % 8)] in [uint8_t]. *)
Fixpoint copy_loop (bloom : list bool) (v : list Z) (i : Z) : option (list Z) :=
  match bloom with
  | [] => Some v
  | b :: bloom =>
      x ← rd v (i / 8);
      v ← wr v (i / 8) (u8 (Z.lor x (Z.shiftl (Z.b2z b) (i mod 8))));
      copy_loop bloom v (i + 1)
  end.
Definition hb_copy_to (f : HashBloom) (v : list Z) : option (list Z) :=
  copy_loop (hb_bloom f) (resize (Z.to_nat (len (hb_bloom f) / 8)) 0 v) 0.

(** ** Bits stay set *)

(** [t'] has the size of [t] and at least its bits. *)
Definition grown (t t' : list bool) : Prop :=
  length t' = length t /\ forall p, rd t p = Some true -> rd t' p = Some true.

Lemma grown_refl t : grown t t.
Proof. by split. Qed.

Lemma grown_trans t1 t2 t3 : grown t1 t2 -> grown t2 t3 -> grown t1 t3.
Proof. intros [H1 H2] [H3 H4]. split; [congruence|]. auto. Qed.

Lemma wr_true t p : 0 <= p < len t -> exists t', wr t p true = Some t' /\ grown t t' /\ rd t' p = Some true.
Proof.
  intros Hp. rewrite wr_ok by done. exists (set t p true). split; [done|].
  assert (rd (set t p true) p = Some true) as Hset by (rewrite rd_ok, get_set_eq by (rewrite ?len_set; lia); done).
  split; [|done]. split; [unfold set; apply length_insert|]. intros q Hq.
  destruct (decide (q = p)) as [->|Hne]; [done|]. unfold rd in *. destruct (0 <=? q) eqn:E; zb; [|done].
  unfold set. rewrite list_lookup_insert_ne by lia. done.
Qed.

Lemma grown_len t t' : grown t t' -> len t' = len t.
Proof. intros [Hl _]. unfold len. by rewrite Hl. Qed.

(** ** No false negatives *)

Section BloomFilterFacts.
Variable N : nat.

(** The bit of the word [w] is set. *)
Definition marked (table : list bool) (w : list Z) : Prop :=
  rd table (foldl hash_char 0 w mod len table) = Some true.

Lemma marked_grown t t' w : grown t t' -> marked t w -> marked t' w.
Proof. intros Hg Hm. unfold marked. rewrite (grown_len _ _ Hg). by apply Hg. Qed.

Lemma getPos_ok table s i : 0 < len table ->
  getPos table s i N = Some (foldl hash_char 0 (take N (drop i s)) mod len table).
Proof. intros Ht. unfold getPos. destruct (len table =? 0) eqn:E; zb; [lia|done]. Qed.

Lemma xadd_loop_ok n : forall table s i, 0 < len table ->
  exists t', xadd_loop N n table s i = Some t' /\ grown table t' /\
    forall k, (i <= k < i + n)%nat -> marked t' (take N (drop k s)).
Proof.
  induction n as [|n IH]; intros table s i Ht.
  - exists table. split; [done|]. split; [apply grown_refl|]. intros; lia.
  - cbn [xadd_loop]. rewrite getPos_ok, option_bind_Some_eq by done.
    destruct (wr_true table (foldl hash_char 0 (take N (drop i s)) mod len table)) as (t1 & -> & Hg & Hm);
      [by apply Z.mod_pos_bound|]. rewrite option_bind_Some_eq.
    destruct (IH t1 s (S i)) as (t2 & -> & Hg2 & Hk); [by rewrite (grown_len _ _ Hg)|].
    exists t2. split; [done|]. split; [by eapply grown_trans|]. intros k Hk'.
    destruct (decide (k = i)) as [->|]; [|apply Hk; lia]. apply (marked_grown t1); [done|].
    unfold marked. by rewrite (grown_len _ _ Hg).
Qed.

(** All words of [s] are marked. *)
Definition words_marked (table : list bool) (s : list Z) : Prop :=
  forall k, (k + N <= length s)%nat -> marked table (take N (drop k s)).

Lemma bloom_add_ok table s : 0 < len table ->
  exists t', bloom_add N table s = Some t' /\ grown table t' /\ words_marked t' s.
Proof.
  intros Ht. unfold bloom_add, xadd. destruct (N <=? length s)%nat eqn:E.
  - apply Nat.leb_le in E. destruct (xadd_loop_ok (S (length s - N)) table s 0 Ht) as (t' & -> & Hg & Hk).
    exists t'. split; [done|]. split; [done|]. intros k Hk'. apply Hk. lia.
  - apply Nat.leb_gt in E. exists table. split; [done|]. split; [apply grown_refl|]. intros k Hk'. lia.
Qed.

Lemma bloom_add_all_ok ss : forall table, 0 < len table ->
  exists t', bloom_add_all N table ss = Some t' /\ grown table t' /\ Forall (words_marked t') ss.
Proof.
  induction ss as [|s ss IH]; intros table Ht.
  - exists table. split; [done|]. split; [apply grown_refl|constructor].
  - cbn [bloom_add_all]. destruct (bloom_add_ok table s Ht) as (t1 & -> & Hg1 & Ha). rewrite option_bind_Some_eq.
    destruct (IH t1) as (t2 & -> & Hg2 & Hall); [by rewrite (grown_len _ _ Hg1)|].
    exists t2. split; [done|]. split; [by eapply grown_trans|]. constructor; [|done].
    intros k Hk. apply (marked_grown t1); [done|by apply Ha].
Qed.

Lemma match_loop_ok n : forall table s i, 0 < len table ->
  (forall k, (i <= k < i + n)%nat -> marked table (take N (drop k s))) -> match_loop N n table s i = Some true.
Proof.
  induction n as [|n IH]; intros table s i Ht Hk; [done|]. cbn [match_loop].
  rewrite getPos_ok, option_bind_Some_eq by done. specialize (Hk i ltac:(lia)) as Hi. unfold marked in Hi.
  rewrite Hi, option_bind_Some_eq. apply IH; [done|]. intros k Hk'. apply Hk. lia.
Qed.

Lemma match_loop_some n : forall table s i, 0 < len table -> exists b, match_loop N n table s i = Some b.
Proof.
  induction n as [|n IH]; intros table s i Ht; [by eexists|]. cbn [match_loop].
  rewrite getPos_ok, option_bind_Some_eq by done. rewrite rd_ok, option_bind_Some_eq by (by apply Z.mod_pos_bound).
  destruct (get _ _); [by apply IH|by eexists].
Qed.

(** A part of an added string matches. *)
Lemma bloom_match_part table a t b : 0 < len table -> words_marked table (a ++ t ++ b) -> bloom_match N table t = Some true.
Proof.
  intros Ht Ha. unfold bloom_match. destruct (N <=? length t)%nat eqn:E; [|done]. apply Nat.leb_le in E.
  apply match_loop_ok; [done|]. intros k Hk. specialize (Ha (length a + k)%nat). rewrite !length_app in Ha.
  replace (take N (drop k t)) with (take N (drop (length a + k) (a ++ t ++ b))); [apply Ha; lia|].
  rewrite <-drop_drop, drop_app_length. rewrite drop_app_le, take_app_le by (rewrite ?length_drop; lia). done.
Qed.

Lemma bloom_match_list_ok table ws : Forall (fun t => bloom_match N table t = Some true) ws ->
  bloom_match_list N table ws = Some true.
Proof. induction 1 as [|w ws Hw _ IH]; [done|]. cbn [bloom_match_list]. by rewrite Hw. Qed.

(** C36.  No false negatives: whatever strings are added to a filter with a non-empty table,
    nothing is accessed outside the table, and every list of words each of which is part
    of one of the strings matches. *)
Theorem BloomFilter_no_false_negative (tableSize : Z) (ss ws : list (list Z))
  (Hsize : 0 < tableSize)
  (Hparts : Forall (fun w => exists s a b, s ∈ ss /\ s = a ++ w ++ b) ws) :
  exists t, bloom_add_all N (BloomFilter_new tableSize) ss = Some t /\ bloom_match_list N t ws = Some true.
Proof.
  assert (0 < len (BloomFilter_new tableSize)) as Ht by (unfold len, BloomFilter_new; rewrite length_replicate; lia).
  destruct (bloom_add_all_ok ss _ Ht) as (t & -> & Hg & Hall). exists t. split; [done|].
  apply bloom_match_list_ok. eapply Forall_impl; [exact Hparts|]. intros w (s & a & b & Hs & ->).
  rewrite Forall_forall in Hall. apply (bloom_match_part t a w b); [by rewrite (grown_len _ _ Hg)|by apply Hall].
Qed.
End BloomFilterFacts.

Lemma BloomFilter_no_false_negative_witness :
  exists t, bloom_add_all 2 (BloomFilter_new 16) [[97; 98; 99]; [1]] = Some t /\
    bloom_match_list 2 t [[98; 99]; [1]] = Some true.
Proof.
  apply (BloomFilter_no_false_negative 2 16 [[97; 98; 99]; [1]] [[98; 99]; [1]]); [reflexivity|].
  repeat constructor.
  - exists [97; 98; 99], [97], []. split; [left|done].
  - exists [1], [], []. split; [right; left|done].
Defined.

(** ** The filter of hashes *)

Definition tth_ok (tth : list Z) : Prop := length tth = 24%nat.

Lemma pos_loop_ok n : forall tth start i x, tth_ok tth -> 0 <= start -> 0 <= i -> 0 <= x -> i + Z.of_nat n <= 64 ->
  start + i + Z.of_nat n <= TTH_BITS -> exists y, pos_loop n tth start i x = Some y /\ 0 <= y.
Proof.
  unfold TTH_BITS, tth_ok. induction n as [|n IH]; intros tth start i x Ht Hs Hi Hx H64 Hb; [by eexists|]. cbn [pos_loop].
  rewrite rd_ok, option_bind_Some_eq.
  - destruct (Z.testbit _ _); [|apply IH; (done || lia)]. destruct (i <? 64) eqn:E; zb; [|lia].
    apply IH; try done; try lia. apply Z.lor_nonneg. split; [done|]. apply Z.shiftl_nonneg. lia.
  - unfold len. rewrite Ht. split; [apply Z.div_pos; lia|]. apply Z.div_lt_upper_bound; lia.
Qed.

(** Parameters a hub may ask for. *)
Definition filter_ok (f : HashBloom) : Prop := 0 < len (hb_bloom f) /\ 0 <= hb_h f <= 64 /\ 0 <= hb_k f.

Lemma hb_pos_ok f tth n : filter_ok f -> tth_ok tth -> 0 <= n ->
  exists p, hb_pos f tth n = Some p /\ 0 <= p < len (hb_bloom f).
Proof.
  intros (Hl & Hh & _) Ht Hn. unfold hb_pos. destruct (TTH_BITS <? (n + 1) * hb_h f) eqn:E; zb; [exists 0; split; [done|lia]|].
  destruct (pos_loop_ok (Z.to_nat (hb_h f)) tth (n * hb_h f) 0 0) as (y & -> & Hy); [done|nia|lia|lia|lia|lia|].
  rewrite option_bind_Some_eq. destruct (len (hb_bloom f) =? 0) eqn:E0; zb; [lia|].
  eexists. split; [done|]. by apply Z.mod_pos_bound.
Qed.

Lemma hb_pos_same f g tth n : len (hb_bloom f) = len (hb_bloom g) -> hb_h f = hb_h g -> hb_pos f tth n = hb_pos g tth n.
Proof. intros Hl Hh. unfold hb_pos. by rewrite Hl, Hh. Qed.

(** The same parameters, at least the bits. *)
Definition hb_grown (f f' : HashBloom) : Prop :=
  grown (hb_bloom f) (hb_bloom f') /\ hb_k f' = hb_k f /\ hb_h f' = hb_h f.

Lemma hb_grown_trans f g h : hb_grown f g -> hb_grown g h -> hb_grown f h.
Proof. intros (H1 & H2 & H3) (H4 & H5 & H6). split; [by eapply grown_trans|]. split; congruence. Qed.

Lemma hb_grown_pos f f' tth n : hb_grown f f' -> hb_pos f' tth n = hb_pos f tth n.
Proof. intros (Hg & _ & Hh). apply hb_pos_same; [by apply grown_len|done]. Qed.

Lemma hb_grown_ok f f' : hb_grown f f' -> filter_ok f -> filter_ok f'.
Proof. intros (Hg & Hk & Hh) (Hl & H1 & H2). unfold filter_ok. by rewrite (grown_len _ _ Hg), Hk, Hh. Qed.

(** The bit of the [i]-th position of [tth] is set. *)
Definition bit_set (f : HashBloom) (tth : list Z) (i : Z) : Prop :=
  exists p, hb_pos f tth i = Some p /\ rd (hb_bloom f) p = Some true.

Lemma bit_set_grown f f' tth i : hb_grown f f' -> bit_set f tth i -> bit_set f' tth i.
Proof. intros Hg (p & Hp & Hb). exists p. split; [by rewrite (hb_grown_pos f)|]. by apply Hg. Qed.

Lemma hb_add_loop_ok n : forall f tth i, filter_ok f -> tth_ok tth -> 0 <= i ->
  exists f', hb_add_loop n f tth i = Some f' /\ hb_grown f f' /\
    forall k, i <= k < i + Z.of_nat n -> bit_set f' tth k.
Proof.
  induction n as [|n IH]; intros f tth i Hf Ht Hi.
  - exists f. split; [done|]. split; [by repeat split|]. intros; lia.
  - cbn [hb_add_loop]. destruct (hb_pos_ok f tth i Hf Ht Hi) as (p & Hp & Hpb). rewrite Hp, option_bind_Some_eq.
    destruct (wr_true _ _ Hpb) as (b & -> & Hg & Hb). rewrite option_bind_Some_eq.
    set (f1 := mkHashBloom b (hb_k f) (hb_h f)). assert (hb_grown f f1) as Hg1 by done.
    destruct (IH f1 tth (i + 1)) as (f2 & -> & Hg2 & Hk); [by apply (hb_grown_ok f)|done|lia|].
    exists f2. split; [done|]. split; [by apply (hb_grown_trans f f1)|]. intros k Hk'.
    destruct (decide (k = i)) as [->|]; [|apply Hk; lia]. apply (bit_set_grown f1); [done|].
    exists p. split; [by rewrite (hb_grown_pos f)|done].
Qed.

Lemma hb_add_ok f tth : filter_ok f -> tth_ok tth ->
  exists f', hb_add f tth = Some f' /\ hb_grown f f' /\ forall k, 0 <= k < hb_k f -> bit_set f' tth k.
Proof.
  intros Hf Ht. destruct (hb_add_loop_ok (Z.to_nat (hb_k f)) f tth 0 Hf Ht) as (f' & Ha & Hg & Hk); [lia|].
  exists f'. split; [done|]. split; [done|]. intros k Hk'. apply Hk. lia.
Qed.

Fixpoint hb_add_all (f : HashBloom) (tths : list (list Z)) : option HashBloom :=
  match tths with [] => Some f | t :: r => f ← hb_add f t; hb_add_all f r end.

Lemma hb_add_all_ok tths : forall f, filter_ok f -> Forall tth_ok tths ->
  exists f', hb_add_all f tths = Some f' /\ hb_grown f f' /\
    Forall (fun t => forall k, 0 <= k < hb_k f -> bit_set f' t k) tths.
Proof.
  induction tths as [|t r IH]; intros f Hf Ht.
  - exists f. split; [done|]. split; [by repeat split|constructor].
  - apply Forall_cons in Ht as [Ht Hr]. cbn [hb_add_all]. destruct (hb_add_ok f t Hf Ht) as (f1 & -> & Hg1 & Hk).
    rewrite option_bind_Some_eq. destruct (IH f1) as (f2 & -> & Hg2 & Hall); [by apply (hb_grown_ok f)|done|].
    exists f2. split; [done|]. split; [by apply (hb_grown_trans f f1)|].
    destruct Hg1 as (Hg1 & Hk1 & Hh1). rewrite Hk1 in Hall.
    constructor; [|done]. intros k Hk'. apply (bit_set_grown f1); [done|by apply Hk].
Qed.

Lemma hb_match_loop_ok n : forall f tth i, (forall k, i <= k < i + Z.of_nat n -> bit_set f tth k) ->
  hb_match_loop n f tth i = Some true.
Proof.
  induction n as [|n IH]; intros f tth i Hk; [done|]. cbn [hb_match_loop].
  destruct (Hk i ltac:(lia)) as (p & -> & Hb). rewrite option_bind_Some_eq, Hb, option_bind_Some_eq.
  apply IH. intros k Hk'. apply Hk. lia.
Qed.

(** Every added hash matches. *)
Lemma hb_match_added f tths f' t : filter_ok f -> Forall tth_ok tths -> hb_add_all f tths = Some f' -> t ∈ tths ->
  hb_match f' t = Some true.
Proof.
  intros Hf Ht Ha Hin. destruct (hb_add_all_ok tths f Hf Ht) as (f1 & Ha' & Hg & Hall).
  rewrite Ha in Ha'. injection Ha' as <-. rewrite Forall_forall in Hall. specialize (Hall t Hin).
  destruct (hb_grown_ok _ _ Hg Hf) as (Hl & _). destruct Hg as (_ & Hk & _). unfold hb_match.
  destruct (hb_bloom f') eqn:E; [unfold len in Hl; simpl in Hl; lia|].
  apply hb_match_loop_ok. intros k Hk'. apply Hall. lia.
Qed.

(** ** The filter as bytes *)

Definition vbit (v : list Z) (q : Z) : bool := Z.testbit (get v (q / 8)) (q mod 8).

Lemma testbit_b2z_shift b s n : 0 <= s -> 0 <= n -> Z.testbit (Z.shiftl (Z.b2z b) s) n = b && (n =? s).
Proof.
  intros Hs Hn. rewrite Z.shiftl_spec by done. destruct (decide (n < s)).
  - rewrite Z.testbit_neg_r by lia. destruct (n =? s) eqn:E; zb; [lia|]. by rewrite andb_false_r.
  - destruct (n =? s) eqn:E; zb.
    + subst. rewrite Z.sub_diag, andb_true_r. by destruct b.
    + rewrite andb_false_r. destruct b; [|by rewrite Z.bits_0]. change (Z.b2z true) with 1.
      rewrite <-Z.pow_0_r with 2. rewrite Z.pow2_bits_eqb by lia. apply Z.eqb_neq. lia.
Qed.

Lemma copy_loop_ok bloom : forall v i, 0 <= i -> i + len bloom <= 8 * len v ->
  exists v', copy_loop bloom v i = Some v' /\ len v' = len v /\
    forall q, 0 <= q < 8 * len v -> vbit v' q =
      vbit v q || ((i <=? q) && (q <? i + len bloom) && get bloom (q - i)).
Proof.
  induction bloom as [|b bloom IH]; intros v i Hi Hl.
  - exists v. split; [done|]. split; [done|]. intros q Hq. change (len []) with 0.
    replace ((i <=? q) && (q <? i + 0)) with false; [by rewrite orb_false_r|].
    symmetry. apply andb_false_iff. destruct (decide (i <= q)); [right; apply Z.ltb_ge|left; apply Z.leb_gt]; lia.
  - assert (len (b :: bloom) = len bloom + 1) as Hlen by (unfold len; cbn [length]; lia). rewrite Hlen in *.
    pose proof (len_nonneg bloom). assert (0 <= i / 8 < len v) as Hd.
    { split; [apply Z.div_pos; lia|apply Z.div_lt_upper_bound; lia]. }
    cbn [copy_loop]. rewrite rd_ok, option_bind_Some_eq, wr_ok, option_bind_Some_eq by done.
    set (y := u8 _). destruct (IH (set v (i / 8) y) (i + 1)) as (v' & -> & Hl' & Hb); [lia|rewrite len_set; lia|].
    exists v'. rewrite len_set in *. split; [done|]. split; [done|]. intros q Hq. rewrite Hb by lia.
    assert (vbit (set v (i / 8) y) q = vbit v q || (b && (q =? i))) as ->.
    { unfold vbit. pose proof (Z.mod_pos_bound q 8 ltac:(lia)). pose proof (Z.mod_pos_bound i 8 ltac:(lia)).
      rewrite get_set by (try apply Z.div_pos; lia). pose proof (Z.div_mod i 8). pose proof (Z.div_mod q 8).
      destruct (i / 8 =? q / 8) eqn:E; zb.
      - unfold y, wrap. rewrite Z.mod_pow2_bits_low by lia. rewrite Z.lor_spec, testbit_b2z_shift by lia.
        rewrite E. f_equal. f_equal. apply Bool.eq_iff_eq_true. rewrite !Z.eqb_eq. lia.
      - replace (q =? i) with false; [by rewrite andb_false_r, orb_false_r|]. symmetry. apply Z.eqb_neq. intros ->. lia. }
    rewrite <-orb_assoc. f_equal. destruct (q =? i) eqn:E; zb.
    + subst q. replace (i + 1 <=? i) with false by (symmetry; apply Z.leb_gt; lia). rewrite Z.leb_refl.
      replace (i <? i + (len bloom + 1)) with true by (symmetry; apply Z.ltb_lt; lia).
      rewrite Z.sub_diag. simpl. by rewrite andb_true_r, orb_false_r.
    + rewrite andb_false_r. simpl. destruct (decide (i <= q)).
      * replace (i <=? q) with true by (symmetry; apply Z.leb_le; lia).
        replace (i + 1 <=? q) with true by (symmetry; apply Z.leb_le; lia).
        replace (i + (len bloom + 1)) with (i + 1 + len bloom) by lia. f_equal.
        unfold get. replace (Z.to_nat (q - i)) with (S (Z.to_nat (q - (i + 1)))) by lia. done.
      * replace (i <=? q) with false by (symmetry; apply Z.leb_gt; lia).
        replace (i + 1 <=? q) with false by (symmetry; apply Z.leb_gt; lia). done.
Qed.

Lemma hb_copy_to_ok f : len (hb_bloom f) mod 8 = 0 ->
  exists v, hb_copy_to f [] = Some v /\ len v = len (hb_bloom f) / 8 /\
    forall q, 0 <= q < len (hb_bloom f) -> vbit v q = get (hb_bloom f) q.
Proof.
  intros Hm. unfold hb_copy_to. pose proof (len_nonneg (hb_bloom f)). pose proof (Z.div_mod (len (hb_bloom f)) 8).
  rewrite resize_nil. set (z := replicate _ 0).
  assert (len z = len (hb_bloom f) / 8) as Hz by (unfold len at 1, z; rewrite length_replicate; lia).
  destruct (copy_loop_ok (hb_bloom f) z 0) as (v & -> & Hl & Hb); [lia|lia|].
  exists v. split; [done|]. split; [congruence|]. intros q Hq. rewrite Hb by lia.
  replace (0 <=? q) with true by (symmetry; apply Z.leb_le; lia).
  replace (q <? 0 + len (hb_bloom f)) with true by (symmetry; apply Z.ltb_lt; lia).
  rewrite Z.sub_0_r. cbn [andb]. assert (vbit z q = false) as ->; [|done].
  unfold vbit, get, z. rewrite lookup_total_replicate_2; [apply Z.bits_0|].
  pose proof (Z.div_pos q 8 ltac:(lia) ltac:(lia)). assert (q / 8 < len (hb_bloom f) / 8); [|lia].
  apply Z.div_lt_upper_bound; lia.
Qed.
