(* ===== verification/ShareBloom.v ===== *)
(** * The filter of the share sent to hubs: [ShareManager::getHashBloom]
    ([client/ShareManager.cpp])

    A hub asks for a Bloom filter of the hashes of the shared files with parameters of its
    choice; the filters made are cached by their parameters.  [tthIndex] is the list of
    hashes of the share, read under its lock. *)

From S2P Require Import Prelude CArray LruCache Bloom.

(** [HashBloomCacheKey]: three [uint32_t]. *)
Definition BloomKey := (Z * Z * Z)%type.
Definition BloomCache := @LruCache BloomKey (list Z) _ _.
Definition HASH_BLOOM_CACHE_SIZE := 50.

Definition getHashBloom (hashBloom : BloomCache) (tthIndex : list (list Z)) (v : list Z) (k m h : Z) :
    option (list Z * BloomCache) :=
  let key := (u32 k, u32 m, u32 h) in
  match lru_get hashBloom key with
  | Some item => Some (it_value item, hashBloom)
  | None =>
      bloom ← hb_add_all (hb_reset HashBloom_new k m h) tthIndex;
      v ← hb_copy_to bloom v;
      '(hashBloom, _) ← lru_shrink hashBloom HASH_BLOOM_CACHE_SIZE;
      '(_, hashBloom) ← lru_add hashBloom key v;
      Some (v, hashBloom)
  end.

(** [v] has the bits of every hash of the share. *)
Definition filter_of (tthIndex : list (list Z)) (k m h : Z) (v : list Z) : Prop :=
  len v = m / 8 /\
  Forall (fun t => forall i, 0 <= i < k ->
    exists p, hb_pos (hb_reset HashBloom_new k m h) t i = Some p /\ 0 <= p < m /\ vbit v p = true) tthIndex.

(** What the check of the request leaves: [1 <= k <= 8], [1 <= h <= 64], whole bytes. *)
Definition params_ok (k m h : Z) : Prop := 1 <= k <= 8 /\ 1 <= h <= 64 /\ 0 < m < 2 ^ 32 /\ m mod 8 = 0.

(** Every cached filter is one of the current share. *)
Definition cache_ok (l : list (BloomKey * list Z)) (tthIndex : list (list Z)) : Prop :=
  Forall (fun '((k, m, h), v) => params_ok k m h -> filter_of tthIndex k m h v) l.

Lemma new_filter_ok tthIndex k m h : params_ok k m h -> Forall tth_ok tthIndex ->
  exists f v, hb_add_all (hb_reset HashBloom_new k m h) tthIndex = Some f /\ hb_copy_to f [] = Some v /\
    filter_of tthIndex k m h v.
Proof.
  intros (Hk & Hh & Hm & Hm8) Ht. set (f0 := hb_reset HashBloom_new k m h).
  assert (len (hb_bloom f0) = m) as Hl.
  { unfold f0, hb_reset, len. cbn [hb_bloom HashBloom_new]. rewrite resize_nil, length_replicate. lia. }
  assert (filter_ok f0) as Hf0 by (unfold filter_ok; rewrite Hl; cbn; lia).
  destruct (hb_add_all_ok tthIndex f0 Hf0 Ht) as (f & Ha & Hg & Hall).
  assert (len (hb_bloom f) = m) as Hlf by (rewrite <-Hl; apply grown_len, Hg).
  destruct (hb_copy_to_ok f) as (v & Hv & Hlv & Hbits); [by rewrite Hlf|]. rewrite Hlf in *.
  exists f, v. split; [done|]. split; [done|]. split; [done|]. eapply Forall_impl; [exact Hall|].
  intros t Hbit i Hi. destruct (Hbit i Hi) as (p & Hp & Hb). exists p.
  assert (0 <= p < m) as Hpb.
  { unfold rd in Hb. destruct (0 <=? p) eqn:E; zb; [|done]. apply lookup_lt_Some in Hb. unfold len in Hlf. lia. }
  split; [by rewrite <-(hb_grown_pos f0 f)|]. split; [done|]. rewrite Hbits by done.
  rewrite rd_ok in Hb by (rewrite Hlf; done). by injection Hb.
Qed.

(** A hub gets a filter of the share: with parameters that pass the check and a cache of
    current filters, [getHashBloom] returns a filter of the size asked for in which all
    positions of every shared file's hash are set, so that a search for it is never
    dropped; the cache stays one of current filters. *)
Theorem getHashBloom_correct (hashBloom : BloomCache) (l : list (BloomKey * list Z)) (tthIndex : list (list Z)) (k m h : Z)
  (Hc : lru_ok hashBloom l) (Hl : Z.of_nat (length l) < 2 ^ 255) (Hcur : cache_ok l tthIndex)
  (Hp : params_ok k m h) (Ht : Forall tth_ok tthIndex) :
  exists v hashBloom' l', getHashBloom hashBloom tthIndex [] k m h = Some (v, hashBloom') /\
    filter_of tthIndex k m h v /\ lru_ok hashBloom' l' /\ cache_ok l' tthIndex.
Proof.
  unfold getHashBloom, BloomCache, BloomKey in *. assert ((u32 k, u32 m, u32 h) = (k, m, h)) as ->.
  { destruct Hp as (? & ? & ? & _). unfold wrap. rewrite !Z.mod_small by lia. done. }
  pose proof (lru_get_ok hashBloom l (k, m, h) Hc) as Hget. destruct (lru_get hashBloom (k, m, h)) as [item|].
  - exists (it_value item), hashBloom, l. split; [done|]. split; [|done]. symmetry in Hget.
    apply elem_of_list_to_map_2 in Hget. unfold cache_ok in Hcur. rewrite Forall_forall in Hcur.
    by apply (Hcur _ Hget).
  - destruct (new_filter_ok tthIndex k m h Hp Ht) as (f & v & -> & Hv & Hfil). rewrite option_bind_Some_eq, Hv, option_bind_Some_eq.
    destruct (lru_shrink_ok hashBloom l HASH_BLOOM_CACHE_SIZE Hc Hl) as (c1 & d & -> & Hc1 & _ & _).
    rewrite option_bind_Some_eq.
    assert (cache_ok (shrunk l HASH_BLOOM_CACHE_SIZE) tthIndex) as Hcur1 by (by apply Forall_drop).
    pose proof (lru_add_ok c1 _ (k, m, h) v Hc1) as Hadd. destruct (decide _) as [Hin|Hnot].
    + rewrite Hadd, option_bind_Some_eq. eauto 10.
    + destruct Hadd as (c2 & -> & Hc2 & _). rewrite option_bind_Some_eq. eexists _, _, _. split; [done|].
      split; [done|]. split; [exact Hc2|]. apply Forall_app. split; [done|]. apply Forall_singleton. by intros _.
Qed.

Lemma getHashBloom_correct_witness :
  exists v hashBloom' l', getHashBloom lru_new [replicate 24 7] [] 2 64 8 = Some (v, hashBloom') /\
    filter_of [replicate 24 7] 2 64 8 v /\ lru_ok hashBloom' l' /\ cache_ok l' [replicate 24 7].
Proof.
  apply (getHashBloom_correct lru_new [] [replicate 24 7] 2 64 8).
  - exact (lru_new_ok false).
  - reflexivity.
  - constructor.
  - unfold params_ok. repeat split; (done || lia).
  - repeat constructor.
Defined.

(** The cache outlives the share: once a filter was made, the same request gets the same
    filter whatever was added to the share since ([addFile] and the end of hashing extend
    [tthIndex] and leave the cache), so that the positions of a new file need not be set. *)
Theorem getHashBloom_stale (hashBloom hashBloom' : BloomCache) (l : list (BloomKey * list Z))
  (tthIndex tthIndex' : list (list Z)) (v v0 : list Z) (k m h : Z)
  (Hc : lru_ok hashBloom l) (Hl : Z.of_nat (length l) < 2 ^ 255)
  (Hget : getHashBloom hashBloom tthIndex v0 k m h = Some (v, hashBloom')) :
  getHashBloom hashBloom' tthIndex' [] k m h = Some (v, hashBloom').
Proof.
  unfold getHashBloom, BloomCache, BloomKey in *. set (key := (u32 k, u32 m, u32 h)) in *.
  pose proof (lru_get_ok hashBloom l key Hc) as Hlk.
  destruct (lru_get hashBloom key) as [item|] eqn:E.
  - injection Hget as <- <-. by rewrite E.
  - destruct (hb_add_all _ tthIndex) as [f|]; [|done]. rewrite option_bind_Some_eq in Hget.
    destruct (hb_copy_to f v0) as [w|]; [|done]. rewrite option_bind_Some_eq in Hget.
    destruct (lru_shrink_ok hashBloom l HASH_BLOOM_CACHE_SIZE Hc Hl) as (c1 & d & Hs & Hc1 & _ & _).
    rewrite Hs, option_bind_Some_eq in Hget. pose proof (lru_add_ok c1 _ key w Hc1) as Hadd.
    assert (key ∉ (shrunk l HASH_BLOOM_CACHE_SIZE).*1) as Hnot.
    { intros Hin. apply elem_of_keys in Hin as (a & x & b & Hsp). symmetry in Hlk. cbn in Hlk.
      apply not_elem_of_list_to_map_2 in Hlk. apply Hlk. apply list_elem_of_fmap. exists (key, x). split; [done|].
      apply (subseteq_drop (length l - Z.to_nat (Z.max 0 (HASH_BLOOM_CACHE_SIZE - 1))) l).
      change (drop _ l) with (shrunk l HASH_BLOOM_CACHE_SIZE). rewrite Hsp, elem_of_app. right. left. }
    rewrite decide_False in Hadd by done. destruct Hadd as (c2 & Ha & Hc2 & _). rewrite Ha, option_bind_Some_eq in Hget.
    injection Hget as <- <-. pose proof (lru_get_ok c2 _ key Hc2) as Hlk2.
    rewrite (cell_lookup (shrunk l HASH_BLOOM_CACHE_SIZE) [] key w) in Hlk2 by apply Hc2.
    destruct (lru_get c2 key) as [item|]; [|done]. cbn in Hlk2. by injection Hlk2 as ->.
Qed.

(** Two files, the second added after the filter was made. *)
Lemma getHashBloom_stale_witness :
  let first := getHashBloom lru_new [replicate 24 7] [] 1 8 3 in
  exists v c, first = Some (v, c) /\
    getHashBloom c [replicate 24 7; replicate 24 1] [] 1 8 3 = Some (v, c) /\
    filter_of [replicate 24 7] 1 8 3 v /\ ~ filter_of [replicate 24 7; replicate 24 1] 1 8 3 v.
Proof.
  destruct (getHashBloom lru_new [replicate 24 7] [] 1 8 3) as [[v c]|] eqn:E; [|vm_compute in E; discriminate].
  exists v, c. split; [reflexivity|]. split.
  - exact (getHashBloom_stale lru_new c [] [replicate 24 7] [replicate 24 7; replicate 24 1] v [] 1 8 3 (lru_new_ok false) eq_refl E).
  - assert (v = [128]) as -> by (vm_compute in E; by injection E). split.
    + split; [reflexivity|]. constructor; [|constructor]. intros i Hi. assert (i = 0) as -> by lia.
      exists 7. vm_compute. split; [reflexivity|]. split; [split; congruence|reflexivity].
    + intros [_ Hall]. apply Forall_cons in Hall as [_ [Hall _]%Forall_cons].
      destruct (Hall 0 ltac:(lia)) as (p & Hp & _ & Hb). vm_compute in Hp. injection Hp as <-. vm_compute in Hb. discriminate.
Defined.
