(* ===== verification/Midl.v ===== *)
(** * ID lists of the database: [lmdb/midl.h], [lmdb/midl.c]

    The store of file hashes is an LMDB database; its free pages and dirty pages are
    ID lists.  An [MDB_IDL] is a pointer into an allocated array: [ids[-1]] is the
    number of IDs it has room for, [ids[0]] the number it holds, and the IDs follow, in
    descending order.  The model keeps [ids[-1]] and the cells from [ids[0]] on.
    [realloc] takes its outcome ([ok]) and the value of new cells ([junk]) as
    arguments.  ID2 and ID3 lists are ascending arrays of records keyed by [mid]. *)

From S2P Require Import Prelude CArray.

Definition MDB_IDL_LOGN : Z := 16.
Definition MDB_IDL_UM_SIZE : Z := Z.shiftl 1 (MDB_IDL_LOGN + 1).
Definition MDB_IDL_UM_MAX : Z := MDB_IDL_UM_SIZE - 1.
Definition ENOMEM : Z := 12.

Record MDB_IDL := mkIDL { idl_alloclen : Z; idl_ids : list Z }.

Definition CMP (x y : Z) : Z := if x <? y then -1 else if y <? x then 1 else 0.

(** ** Binary search *)

(** The loop shared by the three searches; [cmp c] is the comparison at cursor [c].
    The state is [base], [cursor], [val], [n]. *)
Definition search_step (cmp : Z -> option Z) (st : Z * Z * Z * Z) : option ((Z * Z * Z * Z) + Z) :=
  let '(base, cursor, val, n) := st in
  if 0 <? n then
    let pivot := Z.shiftr n 1 in
    let cursor := u32 (base + pivot + 1) in
    val ← cmp cursor;
    if val <? 0 then Some (inl (base, cursor, val, pivot))
    else if 0 <? val then Some (inl (cursor, cursor, val, u32 (n - (pivot + 1))))
    else Some (inr cursor)
  else Some (inr (if 0 <? val then u32 (cursor + 1) else cursor)).

Definition search (cmp : Z -> option Z) (n : Z) : option Z := whileM (search_step cmp) (0, 1, 0, n).

Definition mdb_midl_search (ids : list Z) (id : Z) : option Z :=
  n ← rd ids 0;
  search (fun cursor => x ← rd ids cursor; Some (CMP x id)) (u32 n).

(** ** Allocation *)

Definition mdb_midl_alloc (ok : bool) (junk num : Z) : option MDB_IDL :=
  if ok then Some (mkIDL num (0 :: replicate (Z.to_nat num) junk)) else None.

(** [realloc] of the whole block to [n] words, the first being [ids[-1]]. *)
Definition realloc (ok : bool) (junk n : Z) (ids : list Z) : option (list Z) :=
  if ok then Some (resize (Z.to_nat (n - 1)) junk ids) else None.

Definition mdb_midl_shrink (ok : bool) (junk : Z) (idl : MDB_IDL) : MDB_IDL :=
  if MDB_IDL_UM_MAX <? idl_alloclen idl then
    match realloc ok junk (MDB_IDL_UM_MAX + 2) (idl_ids idl) with
    | Some ids => mkIDL MDB_IDL_UM_MAX ids
    | None => idl
    end
  else idl.

Definition mdb_midl_grow (ok : bool) (junk : Z) (idl : MDB_IDL) (num : Z) : Z * MDB_IDL :=
  match realloc ok junk (idl_alloclen idl + num + 2) (idl_ids idl) with
  | Some ids => (0, mkIDL (idl_alloclen idl + num) ids)
  | None => (ENOMEM, idl)
  end.

Definition mdb_midl_need (ok : bool) (junk : Z) (idl : MDB_IDL) (num : Z) : option (Z * MDB_IDL) :=
  count ← rd (idl_ids idl) 0;
  let num := u32 (num + count) in
  if idl_alloclen idl <? num then
    let num := Z.land (u32 (num + num / 4 + (256 + 2))) (u32 (-256)) in
    match realloc ok junk num (idl_ids idl) with
    | Some ids => Some (0, mkIDL (num - 2) ids)
    | None => Some (ENOMEM, idl)
    end
  else Some (0, idl).

(** ** Appending *)

Definition mdb_midl_append (ok : bool) (junk : Z) (idl : MDB_IDL) (id : Z) : option (Z * MDB_IDL) :=
  count ← rd (idl_ids idl) 0;
  let '(rc, idl) := if idl_alloclen idl <=? count then mdb_midl_grow ok junk idl MDB_IDL_UM_MAX else (0, idl) in
  if negb (rc =? 0) then Some (ENOMEM, idl)
  else
    count ← rd (idl_ids idl) 0;
    ids ← wr (idl_ids idl) 0 (count + 1);
    ids ← wr ids (count + 1) id;
    Some (0, mkIDL (idl_alloclen idl) ids).

(** [memcpy] of [n] cells from [src] to [dst] of two arrays, cell by cell. *)
Fixpoint copy_cells (n : nat) (ids app : list Z) (dst src : Z) : option (list Z) :=
  match n with
  | O => Some ids
  | S n => x ← rd app src; ids ← wr ids dst x; copy_cells n ids app (dst + 1) (src + 1)
  end.

Definition mdb_midl_append_list (ok : bool) (junk : Z) (idl : MDB_IDL) (app : list Z) : option (Z * MDB_IDL) :=
  count ← rd (idl_ids idl) 0;
  acount ← rd app 0;
  let '(rc, idl) := if idl_alloclen idl <=? count + acount then mdb_midl_grow ok junk idl acount else (0, idl) in
  if negb (rc =? 0) then Some (ENOMEM, idl)
  else
    count ← rd (idl_ids idl) 0;
    ids ← copy_cells (Z.to_nat acount) (idl_ids idl) app (count + 1) 1;
    ids ← wr ids 0 (count + acount);
    Some (0, mkIDL (idl_alloclen idl) ids).

(** [while (n) ids[n--] = id++;] with [ids] moved on by [len]. *)
Fixpoint range_cells (n : nat) (ids : list Z) (len_ id : Z) : option (list Z) :=
  match n with
  | O => Some ids
  | S m => ids ← wr ids (len_ + Z.of_nat n) id; range_cells m ids len_ (id + 1)
  end.

Definition mdb_midl_append_range (ok : bool) (junk : Z) (idl : MDB_IDL) (id n : Z) : option (Z * MDB_IDL) :=
  len_ ← rd (idl_ids idl) 0;
  let '(rc, idl) :=
    if idl_alloclen idl <? len_ + n then mdb_midl_grow ok junk idl (Z.lor n MDB_IDL_UM_MAX) else (0, idl) in
  if negb (rc =? 0) then Some (ENOMEM, idl)
  else
    ids ← wr (idl_ids idl) 0 (len_ + n);
    ids ← range_cells (Z.to_nat n) ids len_ id;
    Some (0, mkIDL (idl_alloclen idl) ids).

(** [mdb_midl_xappend(idl, id)]: the list must be big enough. *)
Definition mdb_midl_xappend (ids : list Z) (id : Z) : option (list Z) :=
  count ← rd ids 0;
  ids ← wr ids 0 (count + 1);
  wr ids (count + 1) id.

(** ** Merging *)

(** The inner loop: move the IDs below [merge_id] up. *)
Definition xmerge_shift (merge_id : Z) (st : list Z * Z * Z * Z) : option ((list Z * Z * Z * Z) + (list Z * Z * Z * Z)) :=
  let '(idl, old_id, j, k) := st in
  if old_id <? merge_id then
    idl ← wr idl k old_id;
    old_id ← rd idl (j - 1);
    Some (inl (idl, old_id, j - 1, k - 1))
  else Some (inr (idl, old_id, j, k)).

Fixpoint xmerge_loop (i : nat) (merge idl : list Z) (old_id j k : Z) : option (list Z) :=
  match i with
  | O => Some idl
  | S i' =>
      merge_id ← rd merge (Z.of_nat i);
      '(idl, old_id, j, k) ← whileM (xmerge_shift merge_id) (idl, old_id, j, k);
      idl ← wr idl k merge_id;
      xmerge_loop i' merge idl old_id j (k - 1)
  end.

Definition mdb_midl_xmerge (idl merge : list Z) : option (list Z) :=
  i ← rd merge 0;
  j ← rd idl 0;
  let total := i + j in
  idl ← wr idl 0 (2 ^ 64 - 1);
  old_id ← rd idl j;
  idl ← xmerge_loop (Z.to_nat i) merge idl old_id j total;
  wr idl 0 total.

(** ** Sorting *)

Definition SMALL : Z := 8.

(** [MIDL_SWAP(ids[x], ids[y])]. *)
Definition MIDL_SWAP (ids : list Z) (x y : Z) : option (list Z) :=
  itmp ← rd ids x;
  b ← rd ids y;
  ids ← wr ids x b;
  wr ids y itmp.

(** [if (ids[x] < ids[y]) MIDL_SWAP(ids[x], ids[y]);] *)
Definition swap_if_less (ids : list Z) (x y : Z) : option (list Z) :=
  a ← rd ids x;
  b ← rd ids y;
  if a <? b then MIDL_SWAP ids x y else Some ids.

(** The indices are [int]s: each sum and difference is [c_int], which is undefined outside them. *)

(** [for (i=j-1;i>=1;i--) { if (ids[i] >= a) break; ids[i+1] = ids[i]; }] *)
Definition insertion_inner (a : Z) (st : list Z * Z) : option ((list Z * Z) + (list Z * Z)) :=
  let '(ids, i) := st in
  if 1 <=? i then
    x ← rd ids i;
    if a <=? x then Some (inr (ids, i))
    else
      k ← c_int (i + 1);
      ids ← wr ids k x;
      i ← c_int (i - 1);
      Some (inl (ids, i))
  else Some (inr (ids, i)).

Definition insertion_outer (ir : Z) (st : list Z * Z) : option ((list Z * Z) + list Z) :=
  let '(ids, j) := st in
  if j <=? ir then
    a ← rd ids j;
    i ← c_int (j - 1);
    '(ids, i) ← whileM (insertion_inner a) (ids, i);
    k ← c_int (i + 1);
    ids ← wr ids k a;
    j ← c_int (j + 1);
    Some (inl (ids, j))
  else Some (inr ids).

(** [do i++; while (ids[i] > a);] and [do j--; while (ids[j] < a);] *)
Definition scan_up (ids : list Z) (a i : Z) : option (Z + Z) :=
  i ← c_int (i + 1); x ← rd ids i; Some (if a <? x then inl i else inr i).
Definition scan_down (ids : list Z) (a j : Z) : option (Z + Z) :=
  j ← c_int (j - 1); x ← rd ids j; Some (if x <? a then inl j else inr j).

Definition partition_step (a : Z) (st : list Z * Z * Z) : option ((list Z * Z * Z) + (list Z * Z * Z)) :=
  let '(ids, i, j) := st in
  i ← whileM (scan_up ids a) i;
  j ← whileM (scan_down ids a) j;
  if j <? i then Some (inr (ids, i, j))
  else ids ← MIDL_SWAP ids i j; Some (inl (ids, i, j)).

(** The median of three, the partition and the pivot's final place; [l1] is [l + 1]. *)
Definition partition (ids : list Z) (l ir : Z) : option (list Z * Z * Z) :=
  s ← c_int (l + ir);
  let k := Z.shiftr s 1 in
  l1 ← c_int (l + 1);
  ids ← MIDL_SWAP ids k l1;
  ids ← swap_if_less ids l ir;
  ids ← swap_if_less ids l1 ir;
  ids ← swap_if_less ids l l1;
  a ← rd ids l1;
  '(ids, i, j) ← whileM (partition_step a) (ids, l1, ir);
  x ← rd ids j;
  ids ← wr ids l1 x;
  ids ← wr ids j a;
  Some (ids, i, j).

(** The state of the outer loop: [ids], [istack], [jstack], [l], [ir]. *)
Abbreviation sort_state := (list Z * list Z * Z * Z * Z)%type.

Definition sort_step (st : sort_state) : option (sort_state + list Z) :=
  let '(ids, istack, jstack, l, ir) := st in
  d ← c_int (ir - l);
  if d <? SMALL then
    j ← c_int (l + 1);
    ids ← whileM (insertion_outer ir) (ids, j);
    if jstack =? 0 then Some (inr ids)
    else
      ir ← rd istack jstack;
      jstack ← c_int (jstack - 1);
      l ← rd istack jstack;
      jstack ← c_int (jstack - 1);
      Some (inl (ids, istack, jstack, l, ir))
  else
    '(ids, i, j) ← partition ids l ir;
    jstack ← c_int (jstack + 2);
    right ← c_int (ir - i);
    right ← c_int (right + 1);
    left ← c_int (j - l);
    below ← c_int (jstack - 1);
    j1 ← c_int (j - 1);
    if left <=? right then
      istack ← wr istack jstack ir;
      istack ← wr istack below i;
      Some (inl (ids, istack, jstack, l, j1))
    else
      istack ← wr istack jstack j1;
      istack ← wr istack below l;
      Some (inl (ids, istack, jstack, i, ir)).

(** [istack0] is what the uninitialised stack array holds: 64 [int]s.  The cast to [int] keeps
    the low 32 bits. *)
Definition mdb_midl_sort (istack0 : list Z) (ids : list Z) : option (list Z) :=
  n ← rd ids 0;
  whileM sort_step (ids, istack0, 0, 1, swrap 32 n).

(** ** ID2 and ID3 lists *)

Record MDB_ID2 := mkID2 { mid : Z; mptr : Z }.
#[global] Instance MDB_ID2_inhabited : Inhabited MDB_ID2 := populate (mkID2 0 0).

Definition mdb_mid2l_search (ids : list MDB_ID2) (id : Z) : option Z :=
  h ← rd ids 0;
  search (fun cursor => x ← rd ids cursor; Some (CMP id (mid x))) (u32 (mid h)).

(** [for (i=ids[0].mid; i>x; i--) ids[i] = ids[i-1];] *)
Fixpoint shift_cells (n : nat) (ids : list MDB_ID2) (i : Z) : option (list MDB_ID2) :=
  match n with
  | O => Some ids
  | S n => e ← rd ids (i - 1); ids ← wr ids i e; shift_cells n ids (i - 1)
  end.

Definition mdb_mid2l_insert (ids : list MDB_ID2) (id : MDB_ID2) : option (Z * list MDB_ID2) :=
  x ← mdb_mid2l_search ids (mid id);
  if x <? 1 then Some (-2, ids)
  else
    h ← rd ids 0;
    dup ← (if x <=? mid h then e ← rd ids x; Some (mid e =? mid id) else Some false);
    if (dup : bool) then Some (-1, ids)
    else if MDB_IDL_UM_MAX <=? mid h then Some (-2, ids)
    else
      ids ← wr ids 0 (mkID2 (mid h + 1) (mptr h));
      ids ← shift_cells (Z.to_nat (mid h + 1 - x)) ids (mid h + 1);
      ids ← wr ids x id;
      Some (0, ids).

Definition mdb_mid2l_append (ids : list MDB_ID2) (id : MDB_ID2) : option (Z * list MDB_ID2) :=
  h ← rd ids 0;
  if MDB_IDL_UM_MAX <=? mid h then Some (-2, ids)
  else
    ids ← wr ids 0 (mkID2 (mid h + 1) (mptr h));
    ids ← wr ids (mid h + 1) id;
    Some (0, ids).

(** ** Facts: binary search *)

Lemma shiftr1_half n : 0 <= n -> Z.shiftr n 1 = n / 2.
Proof. intros. rewrite Z.shiftr_div_pow2 by lia. done. Qed.

(** If the comparison is positive before [p], negative after it and not positive at
    it, the search returns [p]. *)
Lemma midl_search_ok cmp c n p :
  0 <= n < 2 ^ 31 -> 1 <= p <= n + 1 ->
  (forall k, 1 <= k <= n -> cmp k = Some (c k) /\ (k < p -> 0 < c k) /\ (p < k -> c k < 0)) ->
  (p <= n -> c p <= 0) ->
  search cmp n = Some p.
Proof.
  intros Hn Hp Hc Hcp. unfold search.
  edestruct (whileM_total (search_step cmp)
    (fun '(base, cursor, val, m) => 0 <= base /\ 0 <= m /\ base + m <= n /\ base < p <= base + m + 1 /\
       (m = 0 -> (if 0 <? val then u32 (cursor + 1) else cursor) = p))
    (fun '(base, cursor, val, m) => m) (fun r => r = p)) as (r & -> & ->); [| | |done].
  - intros [[[base cursor] val] m] (Hb & Hm & Hbm & Hbp & H0). unfold search_step.
    destruct (0 <? m) eqn:E; zb; [|eexists; split; [done|]; apply H0; lia].
    rewrite shiftr1_half by lia. pose proof (Z.div_mod m 2 ltac:(lia)). pose proof (Z.mod_pos_bound m 2 ltac:(lia)).
    assert (u32 (base + m / 2 + 1) = base + m / 2 + 1) as -> by (apply Z.mod_small; lia).
    destruct (Hc (base + m / 2 + 1)) as (-> & Hlo & Hhi); [lia|]. rewrite option_bind_Some_eq.
    destruct (c (base + m / 2 + 1) <? 0) eqn:E1; zb.
    + eexists; split; [done|]. cbv beta iota. split; [|lia]. split_and!; [lia..|].
      intros Hz. destruct (0 <? c (base + m / 2 + 1)) eqn:E2; zb; lia.
    + destruct (0 <? c (base + m / 2 + 1)) eqn:E2; zb.
      * assert (u32 (m - (m / 2 + 1)) = m - (m / 2 + 1)) as -> by (apply Z.mod_small; lia).
        eexists; split; [done|]. cbv beta iota. split; [|lia]. split_and!; [lia| | | | |]; [lia|lia| |lia|].
        -- destruct (decide (base + m / 2 + 1 < p)); [lia|]. destruct (decide (base + m / 2 + 1 = p)) as [<-|]; lia.
        -- intros Hz. rewrite (proj2 (Z.ltb_lt _ _) E2). unfold wrap. rewrite Z.mod_small by lia.
           destruct (decide (base + m / 2 + 1 < p)); [lia|]. destruct (decide (base + m / 2 + 1 = p)) as [<-|]; lia.
      * eexists; split; [done|]. cbv beta iota.
        destruct (decide (base + m / 2 + 1 < p)); [lia|]. destruct (decide (p < base + m / 2 + 1)); lia.
  - split_and!; [lia..|]. intros ->. simpl. lia.
  - lia.
Qed.

(** ** ID lists as lists

    [idl_ok idl l]: the list holds [l], inside its allocation. *)
Definition ids_ok (ids l : list Z) : Prop := exists rest, ids = len l :: l ++ rest.
Definition idl_ok (idl : MDB_IDL) (l : list Z) : Prop :=
  ids_ok (idl_ids idl) l /\ len (idl_ids idl) = idl_alloclen idl + 1.

Lemma len_cons {A} (x : A) l : len (x :: l) = len l + 1.
Proof. unfold len. simpl. lia. Qed.
Lemma len_app {A} (l1 l2 : list A) : len (l1 ++ l2) = len l1 + len l2.
Proof. unfold len. rewrite length_app. lia. Qed.

Lemma ids_ok_count ids l : ids_ok ids l -> rd ids 0 = Some (len l).
Proof. by intros [rest ->]. Qed.

Lemma ids_ok_len ids l : ids_ok ids l -> len l + 1 <= len ids.
Proof. intros [rest ->]. rewrite len_cons, len_app. pose proof (len_nonneg rest). lia. Qed.

Lemma get_cons_S x (l : list Z) i : 0 <= i -> get (x :: l) (i + 1) = get l i.
Proof. intros Hi. unfold get. replace (Z.to_nat (i + 1)) with (S (Z.to_nat i)) by lia. done. Qed.

Lemma get_app_l (l1 l2 : list Z) i : 0 <= i < len l1 -> get (l1 ++ l2) i = get l1 i.
Proof. intros Hi. unfold get, len in *. apply lookup_total_app_l. lia. Qed.

Lemma ids_ok_get ids l k : ids_ok ids l -> 1 <= k <= len l -> get ids k = get l (k - 1).
Proof.
  intros [rest ->] Hk. replace k with (k - 1 + 1) at 1 by lia. rewrite get_cons_S by lia. apply get_app_l. lia.
Qed.

(** Writing the first cell after the list. *)
Lemma wr_next h (l rest : list Z) x v : wr (h :: l ++ x :: rest) (len l + 1) v = Some (h :: l ++ v :: rest).
Proof.
  rewrite wr_ok.
  - unfold set, len. replace (Z.to_nat (Z.of_nat (length l) + 1)) with (S (length l + 0)) by lia.
    simpl. by rewrite insert_app_r.
  - rewrite len_cons, len_app, len_cons. pose proof (len_nonneg l). pose proof (len_nonneg rest). lia.
Qed.

Lemma rd_head h (l : list Z) : rd (h :: l) 0 = Some h.
Proof. done. Qed.

Lemma wr_head h (l : list Z) v : wr (h :: l) 0 v = Some (v :: l).
Proof. rewrite wr_ok; [done|]. rewrite len_cons. pose proof (len_nonneg l). lia. Qed.

Lemma resize_grow (n : nat) junk (ids : list Z) : (length ids <= n)%nat -> exists r, resize n junk ids = ids ++ r.
Proof. intros Hn. rewrite resize_ge by done. by eexists. Qed.

Lemma mdb_midl_grow_ok ok junk idl l num :
  idl_ok idl l -> 0 <= num ->
  exists rc idl', mdb_midl_grow ok junk idl num = (rc, idl') /\
    (rc = 0 /\ ok = true /\ idl_ok idl' l /\ idl_alloclen idl' = idl_alloclen idl + num \/
     rc = ENOMEM /\ ok = false /\ idl' = idl).
Proof.
  intros [[rest Hids] Hlen] Hn. unfold mdb_midl_grow, realloc. destruct ok; [|by eexists _, _; split; [|right]].
  eexists _, _. split; [done|]. left. split_and!; [done|done| |done].
  destruct (resize_grow (Z.to_nat (idl_alloclen idl + num + 2 - 1)) junk (idl_ids idl)) as [r Hr].
  { unfold len in Hlen. lia. }
  split; cbn [idl_ids idl_alloclen].
  - rewrite Hr, Hids. exists (rest ++ r). simpl. by rewrite <-app_assoc.
  - unfold len. rewrite length_resize. pose proof (len_nonneg (idl_ids idl)). lia.
Qed.

(** A list with room: the cells after it. *)
Lemma idl_room idl l n :
  idl_ok idl l -> 0 <= n -> len l + n <= idl_alloclen idl ->
  exists room rest, idl_ids idl = len l :: l ++ room ++ rest /\ len room = n.
Proof.
  intros [[rest Hids] Hlen] Hn Hroom. rewrite Hids, len_cons, len_app in Hlen.
  exists (take (Z.to_nat n) rest), (drop (Z.to_nat n) rest). rewrite take_drop. split; [done|].
  unfold len in *. rewrite length_take. lia.
Qed.

Lemma mdb_midl_append_ok ok junk idl l id :
  idl_ok idl l -> exists rc idl', mdb_midl_append ok junk idl id = Some (rc, idl') /\
    (rc = 0 /\ idl_ok idl' (l ++ [id]) \/ rc = ENOMEM /\ ok = false /\ idl' = idl).
Proof.
  intros Hok. unfold mdb_midl_append. rewrite (ids_ok_count _ _ (proj1 Hok)), option_bind_Some_eq.
  assert (forall i, idl_ok i l -> len l + 1 <= idl_alloclen i -> exists idl',
    (count ← rd (idl_ids i) 0; ids ← wr (idl_ids i) 0 (count + 1); ids ← wr ids (count + 1) id;
     Some (0, mkIDL (idl_alloclen i) ids)) = Some (0, idl') /\ idl_ok idl' (l ++ [id])) as Hput.
  { intros i Hi Hroom. destruct (idl_room i l 1 Hi ltac:(lia) Hroom) as (room & rest & Hids & Hr).
    destruct Hi as [_ Hlen].
    destruct room as [|x [|y room]]; [done| |unfold len in Hr; simpl in Hr; lia].
    rewrite Hids, rd_head, option_bind_Some_eq.
    cbn [app]. rewrite wr_head, option_bind_Some_eq, wr_next, option_bind_Some_eq.
    eexists. split; [done|]. split; cbn [idl_ids idl_alloclen].
    - exists rest. rewrite len_app. unfold len at 3. simpl. by rewrite <-app_assoc.
    - rewrite <-Hlen, Hids. rewrite !len_cons, !len_app. unfold len. simpl. lia. }
  pose proof (ids_ok_len _ _ (proj1 Hok)). pose proof (proj2 Hok) as Hlen0.
  destruct (idl_alloclen idl <=? len l) eqn:E; zb.
  - destruct (mdb_midl_grow_ok ok junk idl l MDB_IDL_UM_MAX Hok ltac:(done)) as
      (rc & idl' & -> & [(-> & -> & Hok' & Hal)|(-> & -> & ->)]); cbn [Z.eqb negb].
    + destruct (Hput idl' Hok') as (idl2 & -> & Hok2).
      { rewrite Hal. change MDB_IDL_UM_MAX with 131071. lia. }
      eexists _, _. split; [done|]. by left.
    + eexists _, _. split; [done|]. by right.
  - cbn [Z.eqb negb]. destruct (Hput idl Hok) as (idl2 & -> & Hok2); [lia|].
    eexists _, _. split; [done|]. by left.
Qed.

Lemma copy_cells_ok a h l room rest ap src tl :
  length room = length a -> 0 <= src -> drop (Z.to_nat src) ap = a ++ tl ->
  copy_cells (length a) (h :: l ++ room ++ rest) ap (len l + 1) src = Some (h :: l ++ a ++ rest).
Proof.
  revert l room src. induction a as [|x a IH]; intros l room src Hl Hs Hd.
  - apply nil_length_inv in Hl as ->. done.
  - destruct room as [|y room]; [done|]. simpl in Hl. cbn [copy_cells length].
    assert (rd ap src = Some x) as ->.
    { unfold rd. rewrite (proj2 (Z.leb_le _ _) Hs). rewrite <-(Nat.add_0_r (Z.to_nat src)), <-lookup_drop, Hd. done. }
    rewrite option_bind_Some_eq. cbn [app]. rewrite wr_next, option_bind_Some_eq.
    assert (len l + 1 = len (l ++ [x])) as -> by (rewrite len_app; done).
    replace (l ++ x :: room ++ rest) with ((l ++ [x]) ++ room ++ rest) by (by rewrite <-app_assoc).
    rewrite IH; [by rewrite <-!app_assoc|lia|lia|].
    replace (Z.to_nat (src + 1)) with (Z.to_nat src + 1)%nat by lia. by rewrite <-drop_drop, Hd.
Qed.

(** The IDs [id + n - 1, ..., id]. *)
Fixpoint down (n : nat) (id : Z) : list Z :=
  match n with O => [] | S m => down m (id + 1) ++ [id] end.

Lemma range_cells_ok n h l room rest id :
  length room = n -> range_cells n (h :: l ++ room ++ rest) (len l) id = Some (h :: l ++ down n id ++ rest).
Proof.
  revert room rest id. induction n as [|n IH]; intros room rest id Hl.
  - apply nil_length_inv in Hl as ->. done.
  - destruct (exists_last (l := room)) as (room' & x & ->); [by intros ->|].
    rewrite length_app in Hl. simpl in Hl. cbn [range_cells down].
    assert (len l + Z.of_nat (S n) = len (l ++ room') + 1) as -> by (rewrite len_app; unfold len; lia).
    replace (h :: l ++ (room' ++ [x]) ++ rest) with (h :: (l ++ room') ++ x :: rest) by (by rewrite <-!app_assoc).
    rewrite wr_next, option_bind_Some_eq, <-app_assoc, IH by lia. by rewrite <-!app_assoc.
Qed.

Lemma down_length n id : length (down n id) = n.
Proof. revert id. induction n as [|n IH]; intros id; simpl; [done|]. rewrite length_app, IH. simpl. lia. Qed.

Lemma mdb_midl_append_list_ok ok junk idl l app la :
  idl_ok idl l -> ids_ok app la ->
  exists rc idl', mdb_midl_append_list ok junk idl app = Some (rc, idl') /\
    (rc = 0 /\ idl_ok idl' (l ++ la) \/ rc = ENOMEM /\ ok = false /\ idl' = idl).
Proof.
  intros Hok Happ. unfold mdb_midl_append_list.
  rewrite (ids_ok_count _ _ (proj1 Hok)), option_bind_Some_eq, (ids_ok_count _ _ Happ), option_bind_Some_eq.
  pose proof (len_nonneg la) as Hla.
  assert (forall i, idl_ok i l -> len l + len la <= idl_alloclen i -> exists idl',
    (count ← rd (idl_ids i) 0; ids ← copy_cells (Z.to_nat (len la)) (idl_ids i) app (count + 1) 1;
     ids ← wr ids 0 (count + len la); Some (0, mkIDL (idl_alloclen i) ids)) = Some (0, idl') /\
    idl_ok idl' (l ++ la)) as Hput.
  { intros i Hi Hroom. destruct (idl_room i l (len la) Hi Hla Hroom) as (room & rest & Hids & Hr).
    destruct Hi as [_ Hlen], Happ as [arest ->]. rewrite Hids, rd_head, option_bind_Some_eq.
    replace (Z.to_nat (len la)) with (length la) by (unfold len; lia).
    rewrite (copy_cells_ok la _ _ _ _ _ _ arest); [|unfold len in Hr; lia|lia|done].
    rewrite option_bind_Some_eq, wr_head, option_bind_Some_eq. eexists. split; [done|].
    split; cbn [idl_ids idl_alloclen].
    - exists rest. by rewrite len_app, <-app_assoc.
    - rewrite <-Hlen, Hids. rewrite !len_cons, !len_app. lia. }
  pose proof (ids_ok_len _ _ (proj1 Hok)). pose proof (proj2 Hok) as Hlen0.
  destruct (idl_alloclen idl <=? len l + len la) eqn:E; zb.
  - destruct (mdb_midl_grow_ok ok junk idl l (len la) Hok Hla) as
      (rc & idl' & -> & [(-> & -> & Hok' & Hal)|(-> & -> & ->)]); cbn [Z.eqb negb].
    + destruct (Hput idl' Hok') as (idl2 & -> & Hok2); [lia|]. eexists _, _. split; [done|]. by left.
    + eexists _, _. split; [done|]. by right.
  - cbn [Z.eqb negb]. destruct (Hput idl Hok) as (idl2 & -> & Hok2); [lia|].
    eexists _, _. split; [done|]. by left.
Qed.

Lemma lor_ge a b : 0 <= a -> 0 <= b -> a <= Z.lor a b.
Proof.
  intros Ha Hb. pose proof (Z.lor_nonneg a b).
  assert (Z.ldiff a (Z.lor a b) = 0) as H0.
  { apply Z.bits_inj'. intros n Hn. rewrite Z.ldiff_spec, Z.lor_spec, Z.bits_0. by destruct (Z.testbit a n), (Z.testbit b n). }
  apply Z.ldiff_le in H0; lia.
Qed.

Lemma mdb_midl_append_range_ok ok junk idl l id n :
  idl_ok idl l -> 0 <= n ->
  exists rc idl', mdb_midl_append_range ok junk idl id n = Some (rc, idl') /\
    (rc = 0 /\ idl_ok idl' (l ++ down (Z.to_nat n) id) \/ rc = ENOMEM /\ ok = false /\ idl' = idl).
Proof.
  intros Hok Hn. unfold mdb_midl_append_range. rewrite (ids_ok_count _ _ (proj1 Hok)), option_bind_Some_eq.
  assert (forall i, idl_ok i l -> len l + n <= idl_alloclen i -> exists idl',
    (ids ← wr (idl_ids i) 0 (len l + n); ids ← range_cells (Z.to_nat n) ids (len l) id;
     Some (0, mkIDL (idl_alloclen i) ids)) = Some (0, idl') /\
    idl_ok idl' (l ++ down (Z.to_nat n) id)) as Hput.
  { intros i Hi Hroom. destruct (idl_room i l n Hi Hn Hroom) as (room & rest & Hids & Hr).
    destruct Hi as [_ Hlen]. rewrite Hids, wr_head, option_bind_Some_eq.
    rewrite range_cells_ok by (unfold len in Hr; lia). rewrite option_bind_Some_eq. eexists. split; [done|].
    split; cbn [idl_ids idl_alloclen].
    - exists rest. rewrite len_app. unfold len at 3. rewrite down_length, <-app_assoc. do 2 f_equal. lia.
    - rewrite <-Hlen, Hids. rewrite !len_cons, !len_app. unfold len. rewrite down_length. unfold len in Hr. lia. }
  pose proof (ids_ok_len _ _ (proj1 Hok)). pose proof (proj2 Hok) as Hlen0.
  destruct (idl_alloclen idl <? len l + n) eqn:E; zb.
  - pose proof (lor_ge n MDB_IDL_UM_MAX Hn ltac:(done)) as Hlor.
    destruct (mdb_midl_grow_ok ok junk idl l (Z.lor n MDB_IDL_UM_MAX) Hok ltac:(lia)) as
      (rc & idl' & -> & [(-> & -> & Hok' & Hal)|(-> & -> & ->)]); cbn [Z.eqb negb].
    + destruct (Hput idl' Hok') as (idl2 & -> & Hok2); [lia|]. eexists _, _. split; [done|]. by left.
    + eexists _, _. split; [done|]. by right.
  - cbn [Z.eqb negb]. destruct (Hput idl Hok) as (idl2 & -> & Hok2); [lia|].
    eexists _, _. split; [done|]. by left.
Qed.

Lemma land_round256 x : 0 <= x < 2 ^ 32 -> Z.land x (u32 (-256)) = x - x mod 256.
Proof.
  intros Hx. assert (Z.land x (u32 (-256)) = Z.ldiff x (Z.ones 8)) as ->.
  { apply Z.bits_inj'. intros n Hn. rewrite Z.land_spec, Z.ldiff_spec.
    change (u32 (-256)) with (Z.shiftl (Z.ones 24) 8). rewrite Z.shiftl_spec by done.
    destruct (decide (n < 8)); [rewrite (Z.ones_spec_low 8), (Z.testbit_neg_r _ (n - 8)) by lia; by rewrite !andb_false_r|].
    rewrite (Z.ones_spec_high 8) by lia. destruct (decide (n < 32)); [by rewrite Z.ones_spec_low by lia|].
    rewrite (Z.bits_above_log2 x n); [done|lia|].
    destruct (decide (x = 0)) as [->|]; [simpl; lia|]. assert (Z.log2 x < 32) by (apply Z.log2_lt_pow2; lia). lia. }
  rewrite Z.ldiff_ones_r, Z.shiftl_mul_pow2, Z.shiftr_div_pow2 by lia. change (2 ^ 8) with 256.
  pose proof (Z.div_mod x 256). lia.
Qed.

Lemma mdb_midl_need_ok ok junk idl l num :
  idl_ok idl l -> 0 <= num -> len l + num < 2 ^ 30 ->
  exists rc idl', mdb_midl_need ok junk idl num = Some (rc, idl') /\
    (rc = 0 /\ idl_ok idl' l /\ len l + num <= idl_alloclen idl' \/ rc = ENOMEM /\ ok = false /\ idl' = idl).
Proof.
  intros Hok Hn Hbound. unfold mdb_midl_need. rewrite (ids_ok_count _ _ (proj1 Hok)), option_bind_Some_eq.
  pose proof (len_nonneg l). assert (u32 (num + len l) = num + len l) as -> by (apply Z.mod_small; lia).
  destruct (idl_alloclen idl <? num + len l) eqn:E; zb.
  2:{ eexists _, _. split; [done|]. left. split; [done|]. split; [done|lia]. }
  remember (num + len l) as N eqn:HN. assert (0 <= N / 4 <= N) by (split; [apply Z.div_pos; lia|apply Z.div_le_upper_bound; lia]).
  assert (u32 (N + N / 4 + (256 + 2)) = N + N / 4 + 258) as -> by (apply Z.mod_small; lia).
  rewrite land_round256 by lia. pose proof (Z.mod_pos_bound (N + N / 4 + 258) 256 ltac:(lia)).
  unfold realloc. destruct ok; [|by eexists _, _; split; [|right]].
  eexists _, _. split; [done|]. left. split; [done|]. split; [|cbn [idl_alloclen]; lia].
  destruct Hok as [[rest Hids] Hlen].
  destruct (resize_grow (Z.to_nat (N + N / 4 + 258 - (N + N / 4 + 258) mod 256 - 1)) junk (idl_ids idl)) as [r Hr].
  { unfold len in Hlen. lia. }
  split; cbn [idl_ids idl_alloclen].
  - rewrite Hr, Hids. exists (rest ++ r). simpl. by rewrite <-app_assoc.
  - unfold len. rewrite length_resize. lia.
Qed.

(** Growing ID lists: in every case where a list holds [l] inside its
    allocation, [mdb_midl_append], [mdb_midl_append_list] and
    [mdb_midl_append_range] make no access outside the allocation and either return 0
    with a list that holds [l] followed by the ID, the other list, or the range
    (in descending order), or fail with [ENOMEM] because the allocator failed and
    leave the list as it was; [mdb_midl_need] keeps [l] and makes the room. *)
Theorem midl_append_refines (ok : bool) (junk : Z) (idl : MDB_IDL) (l : list Z) (id : Z)
  (app la : list Z) (n : Z)
  (Hok : idl_ok idl l) (Happ : ids_ok app la) (Hn : 0 <= n) (Hb : len l + n < 2 ^ 30) :
  (exists rc idl', mdb_midl_append ok junk idl id = Some (rc, idl') /\
     (rc = 0 /\ idl_ok idl' (l ++ [id]) \/ rc = ENOMEM /\ ok = false /\ idl' = idl)) /\
  (exists rc idl', mdb_midl_append_list ok junk idl app = Some (rc, idl') /\
     (rc = 0 /\ idl_ok idl' (l ++ la) \/ rc = ENOMEM /\ ok = false /\ idl' = idl)) /\
  (exists rc idl', mdb_midl_append_range ok junk idl id n = Some (rc, idl') /\
     (rc = 0 /\ idl_ok idl' (l ++ down (Z.to_nat n) id) \/ rc = ENOMEM /\ ok = false /\ idl' = idl)) /\
  (exists rc idl', mdb_midl_need ok junk idl n = Some (rc, idl') /\
     (rc = 0 /\ idl_ok idl' l /\ len l + n <= idl_alloclen idl' \/ rc = ENOMEM /\ ok = false /\ idl' = idl)).
Proof.
  split_and!; [by apply mdb_midl_append_ok|by apply mdb_midl_append_list_ok|by apply mdb_midl_append_range_ok|
    by apply mdb_midl_need_ok].
Qed.

Lemma midl_append_refines_witness :
  let idl := mkIDL 2 [2; 9; 4] in
  (exists rc idl', mdb_midl_append true 0 idl 3 = Some (rc, idl') /\
     (rc = 0 /\ idl_ok idl' ([9; 4] ++ [3]) \/ rc = ENOMEM /\ true = false /\ idl' = idl)) /\
  (exists rc idl', mdb_midl_append_list true 0 idl [1; 3] = Some (rc, idl') /\
     (rc = 0 /\ idl_ok idl' ([9; 4] ++ [3]) \/ rc = ENOMEM /\ true = false /\ idl' = idl)) /\
  (exists rc idl', mdb_midl_append_range true 0 idl 3 5 = Some (rc, idl') /\
     (rc = 0 /\ idl_ok idl' ([9; 4] ++ down (Z.to_nat 5) 3) \/ rc = ENOMEM /\ true = false /\ idl' = idl)) /\
  (exists rc idl', mdb_midl_need true 0 idl 5 = Some (rc, idl') /\
     (rc = 0 /\ idl_ok idl' [9; 4] /\ len [9; 4] + 5 <= idl_alloclen idl' \/ rc = ENOMEM /\ true = false /\ idl' = idl)).
Proof.
  apply (midl_append_refines true 0 (mkIDL 2 [2; 9; 4]) [9; 4] 3 [1; 3] [3] 5).
  - split; [by exists []|done].
  - by exists [].
  - lia.
  - reflexivity.
Defined.

(** Strictly descending lists. *)
Definition desc (l : list Z) : Prop := forall i j, 0 <= i -> i < j -> j < len l -> get l j < get l i.

(** The position in a descending list where the IDs stop being greater than [id]. *)
Lemma desc_split_point ids l id : ids_ok ids l -> desc l -> forall n : nat, Z.of_nat n <= len l ->
  exists p, 1 <= p <= Z.of_nat n + 1 /\
    (forall k, 1 <= k < p -> id < get ids k) /\ (forall k, p <= k <= Z.of_nat n -> get ids k <= id).
Proof.
  intros Hok Hd. pose proof (ids_ok_get ids l) as Hget.
  intros n. induction n as [|n IH]; intros Hn; [exists 1; split_and!; intros; lia|].
    destruct IH as (p & Hp & H1 & H2); [lia|].
    destruct (decide (id < get ids (Z.of_nat n + 1))) as [Hlt|Hge].
    - exists (Z.of_nat n + 2). split_and!; [lia|lia| |intros; lia]. intros k Hk.
      destruct (decide (k = Z.of_nat n + 1)) as [->|]; [done|].
      specialize (Hd (k - 1) (Z.of_nat n) ltac:(lia) ltac:(lia) ltac:(lia)).
      rewrite (Hget k Hok) by lia. rewrite (Hget (Z.of_nat n + 1) Hok) in Hlt by lia.
      replace (Z.of_nat n + 1 - 1) with (Z.of_nat n) in Hlt by lia. lia.
    - exists p. split_and!; [lia|lia|done|]. intros k Hk.
      destruct (decide (k = Z.of_nat n + 1)) as [->|]; [lia|]. apply H2. lia.
Qed.

(** Binary search in an ID list: for a strictly descending list of up to
    [2^31] IDs, [mdb_midl_search] reads only cells of the list and returns the
    position before which every ID is greater than the one sought and from which
    every ID is not greater: the position of the ID if it is in the list. *)
Theorem mdb_midl_search_spec (ids l : list Z) (id : Z)
  (Hok : ids_ok ids l) (Hd : desc l) (Hlen : len l < 2 ^ 31) :
  exists p, mdb_midl_search ids id = Some p /\ 1 <= p <= len l + 1 /\
    (forall k, 1 <= k < p -> id < get ids k) /\ (forall k, p <= k <= len l -> get ids k <= id) /\
    (id ∈ l -> get ids p = id /\ p <= len l).
Proof.
  pose proof (len_nonneg l). pose proof (ids_ok_len _ _ Hok) as Hl1.
  destruct (desc_split_point ids l id Hok Hd (length l)) as (p & Hp & Hlo & Hhi'); [done|].
  assert (forall k, p <= k <= len l -> get ids k <= id) as Hhi by (intros k Hk; apply Hhi'; unfold len in *; lia).
  clear Hhi'. assert (1 <= p <= len l + 1) as Hp1 by (unfold len; lia). clear Hp.
  exists p. split_and!; [|lia|lia|done|done|].
  - unfold mdb_midl_search. rewrite (ids_ok_count _ _ Hok), option_bind_Some_eq.
    unfold wrap. rewrite Z.mod_small by lia.
    apply (midl_search_ok _ (fun k => CMP (get ids k) id)); [lia|lia| |].
    + intros k Hk. rewrite rd_ok, option_bind_Some_eq by lia. split; [done|]. unfold CMP. split.
      * intros Hkp. specialize (Hlo k ltac:(lia)). case_if; [lia|]. case_if; lia.
      * intros Hkp. assert (get ids k < get ids p) as Hlt.
        { rewrite (ids_ok_get _ _ k Hok), (ids_ok_get _ _ p Hok) by lia. apply Hd; lia. }
        specialize (Hhi p ltac:(lia)). case_if; lia.
    + intros Hpl. specialize (Hhi p ltac:(lia)). unfold CMP. case_if; [lia|]. case_if; lia.
  - intros (n & Hn)%list_elem_of_lookup. pose proof (lookup_lt_Some _ _ _ Hn) as Hnl.
    assert (get ids (Z.of_nat n + 1) = id) as Hg.
    { rewrite (ids_ok_get _ _ _ Hok) by (unfold len; lia). replace (Z.of_nat n + 1 - 1) with (Z.of_nat n) by lia.
      unfold get. rewrite Nat2Z.id. by apply list_lookup_total_correct. }
    assert (p <= Z.of_nat n + 1) as Hpn.
    { destruct (decide (p <= Z.of_nat n + 1)); [done|]. specialize (Hlo (Z.of_nat n + 1) ltac:(lia)). lia. }
    destruct (decide (p = Z.of_nat n + 1)) as [->|Hne]; [split; [done|unfold len; lia]|].
    exfalso. specialize (Hhi p ltac:(unfold len in *; lia)).
    assert (get ids (Z.of_nat n + 1) < get ids p) as Hlt; [|lia].
    rewrite (ids_ok_get _ _ p Hok), (ids_ok_get _ _ (Z.of_nat n + 1) Hok) by (unfold len in *; lia).
    apply Hd; unfold len in *; lia.
Qed.

Lemma mdb_midl_search_spec_witness :
  let ids := [3; 9; 5; 1; 77] in
  exists p, mdb_midl_search ids 5 = Some p /\ 1 <= p <= len [9; 5; 1] + 1 /\
    (forall k, 1 <= k < p -> 5 < get ids k) /\ (forall k, p <= k <= len [9; 5; 1] -> get ids k <= 5) /\
    (5 ∈ [9; 5; 1] -> get ids p = 5 /\ p <= len [9; 5; 1]).
Proof.
  apply (mdb_midl_search_spec [3; 9; 5; 1; 77] [9; 5; 1] 5); [by exists [77]| |reflexivity].
  intros i j Hi Hij Hj. unfold len in Hj. simpl in Hj.
  assert (i = 0 /\ j = 1 \/ i = 0 /\ j = 2 \/ i = 1 /\ j = 2) as [[-> ->]|[[-> ->]|[-> ->]]] by lia; reflexivity.
Defined.
