(* ===== verification/MidlSort.v ===== *)
(** * Merging and sorting ID lists

    The theorems about [mdb_midl_xmerge] and [mdb_midl_sort] of [lmdb/midl.c]: both make
    no access outside their arrays, terminate, and return the descending
    rearrangement of their input. *)

From S2P Require Import Prelude CArray Midl.

Ltac lens := unfold len in *; rewrite ?length_app, ?length_take in *; cbn [length] in *; lia.

Abbreviation descending := (StronglySorted Z.ge).

(** ** Merging *)

(** The last element of [M :: l]. *)
Definition last_or (M : Z) (l : list Z) : Z := default M (last l).

Lemma last_or_snoc M l x : last_or M (l ++ [x]) = x.
Proof. unfold last_or. by rewrite last_snoc. Qed.

Lemma rd_last M l t : rd (M :: l ++ t) (len l) = Some (last_or M l).
Proof.
  destruct l as [|y l _] using rev_ind; [done|]. rewrite last_or_snoc, len_app.
  unfold rd. rewrite (proj2 (Z.leb_le _ _)) by (unfold len; simpl; lia).
  unfold len. replace (Z.to_nat (Z.of_nat (length l) + Z.of_nat (length [y]))) with (S (length l)) by (simpl; lia).
  simpl. rewrite <-app_assoc. by apply list_lookup_middle.
Qed.

Lemma wr_mid M (l r : list Z) x v : wr (M :: l ++ x :: r) (len l + 1) v = Some (M :: l ++ v :: r).
Proof. apply wr_next. Qed.

(** The inner loop moves the IDs below [m] up by the size of the gap. *)
Lemma xmerge_shift_ok M m L1 gap T :
  gap <> [] -> m <= M -> len L1 < 2 ^ 200 ->
  exists L1' moved gap', L1 = L1' ++ moved /\ length gap' = length gap /\ Forall (fun x => x < m) moved /\
    m <= last_or M L1' /\
    whileM (xmerge_shift m) (M :: L1 ++ gap ++ T, last_or M L1, len L1, len L1 + len gap) =
    Some (M :: L1' ++ gap' ++ moved ++ T, last_or M L1', len L1', len L1' + len gap).
Proof.
  intros Hgap Hm Hlen.
  edestruct (whileM_total (xmerge_shift m)
    (fun '(idl, old, j, k) => exists L1' moved gap', L1 = L1' ++ moved /\ length gap' = length gap /\
       Forall (fun x => x < m) moved /\ idl = M :: L1' ++ gap' ++ moved ++ T /\ old = last_or M L1' /\
       j = len L1' /\ k = len L1' + len gap)
    (fun '(idl, old, j, k) => j)
    (fun '(idl, old, j, k) => exists L1' moved gap', L1 = L1' ++ moved /\ length gap' = length gap /\
       Forall (fun x => x < m) moved /\ m <= last_or M L1' /\ idl = M :: L1' ++ gap' ++ moved ++ T /\
       old = last_or M L1' /\ j = len L1' /\ k = len L1' + len gap)
    (M :: L1 ++ gap ++ T, last_or M L1, len L1, len L1 + len gap))
    as ([[[idl old] j] k] & Hw & L1' & moved & gap' & H1 & H2 & H3 & H4 & -> & -> & -> & ->).
  - intros [[[idl old] j] k] (L1' & moved & gap' & H1 & H2 & H3 & -> & -> & -> & ->). unfold xmerge_shift.
    destruct (last_or M L1' <? m) eqn:E; zb.
    2:{ eexists. split; [done|]. exists L1', moved, gap'. done. }
    destruct L1' as [|x L1' _] using rev_ind; [unfold last_or in E; simpl in E; lia|].
    rewrite last_or_snoc in *.
    destruct (exists_last (l := gap')) as (g & y & ->).
    { intros ->. destruct gap; [done|discriminate]. }
    assert (len (L1' ++ [x]) + len gap = len ((L1' ++ [x]) ++ g) + 1) as ->.
    { lens. }
    replace (M :: (L1' ++ [x]) ++ (g ++ [y]) ++ moved ++ T) with (M :: ((L1' ++ [x]) ++ g) ++ y :: moved ++ T)
      by (by rewrite <-!app_assoc).
    rewrite wr_mid, option_bind_Some_eq.
    replace (len (L1' ++ [x]) - 1) with (len L1') by lens.
    replace (M :: ((L1' ++ [x]) ++ g) ++ x :: moved ++ T) with (M :: L1' ++ (x :: g) ++ (x :: moved) ++ T)
      by (simpl; by rewrite <-!app_assoc).
    rewrite rd_last, option_bind_Some_eq. eexists. split; [done|]. cbv beta iota.
    split.
    + exists L1', (x :: moved), (x :: g). split_and!; [by rewrite H1, <-app_assoc|lens|by constructor|done|done|done|].
      lens.
    + lens.
  - exists L1, [], gap. rewrite app_nil_r. done.
  - lia.
  - exists L1', moved, gap'. rewrite Hw. done.
Qed.

Lemma descending_last_or M l m x : descending l -> m <= last_or M l -> x ∈ l -> m <= x.
Proof.
  intros Hs Hm Hx. destruct l as [|y l _] using rev_ind; [by apply not_elem_of_nil in Hx|].
  rewrite last_or_snoc in Hm. apply elem_of_app in Hx as [Hx|Hx%list_elem_of_singleton]; [|lia].
  pose proof (StronglySorted_app_1_elem_of _ _ _ x y Hs Hx ltac:(left)). lia.
Qed.

Lemma xmerge_loop_ok M n merge L1 L2 mrest gap D T c :
  n = length L2 -> merge = c :: L2 ++ mrest -> length gap = n ->
  Forall (fun x => x <= M) L2 -> len L1 < 2 ^ 200 ->
  descending L1 -> descending L2 -> descending D ->
  (forall x y, x ∈ L1 ++ L2 -> y ∈ D -> y <= x) ->
  exists L, xmerge_loop n merge (M :: L1 ++ gap ++ D ++ T) (last_or M L1) (len L1) (len L1 + len gap) =
    Some (M :: L ++ T) /\ descending L /\ L ≡ₚ L1 ++ L2 ++ D.
Proof.
  revert merge L1 L2 mrest gap D. induction n as [|n IH]; intros merge L1 L2 mrest gap D Hn Hme Hgl HM Hlen H1 H2 HD Hord.
  - destruct L2; [|done]. apply nil_length_inv in Hgl as ->. exists (L1 ++ D). simpl. rewrite <-app_assoc.
    split_and!; [done| |done]. apply StronglySorted_app_2; [|done|done]. intros x y Hx Hy.
    specialize (Hord x y). rewrite app_nil_r in Hord. specialize (Hord Hx Hy). lia.
  - destruct L2 as [|m L2 _] using rev_ind; [done|]. assert (n = length L2) as Hn' by lens.
    apply Forall_app in HM as [HM [HMm _]%Forall_cons].
    pose proof H2 as (H2lt & H2' & _)%StronglySorted_app.
    cbn [xmerge_loop].
    assert (rd merge (Z.of_nat (S n)) = Some m) as ->.
    { rewrite Hme. replace (Z.of_nat (S n)) with (len (L2 ++ [m])) by lens.
      rewrite rd_last. by rewrite last_or_snoc. }
    rewrite option_bind_Some_eq.
    destruct (xmerge_shift_ok M m L1 gap (D ++ T)) as (L1' & moved & gap' & E1 & E2 & E3 & E4 & ->);
      [by intros ->|done|done|]. rewrite option_bind_Some_eq.
    destruct (exists_last (l := gap')) as (g & y & ->).
    { intros ->. destruct gap; done. }
    assert (len gap = len g + 1) as Hg by lens.
    replace (len L1' + len gap) with (len (L1' ++ g) + 1) by (rewrite len_app; lia).
    replace (M :: L1' ++ (g ++ [y]) ++ moved ++ D ++ T) with (M :: (L1' ++ g) ++ y :: moved ++ D ++ T)
      by (by rewrite <-!app_assoc).
    rewrite wr_mid, option_bind_Some_eq.
    replace (M :: (L1' ++ g) ++ m :: moved ++ D ++ T) with (M :: L1' ++ g ++ (m :: moved ++ D) ++ T)
      by (simpl; by rewrite <-!app_assoc).
    replace (len (L1' ++ g) + 1 - 1) with (len L1' + len g) by (rewrite len_app; lia).
    subst L1. pose proof H1 as (Hlt & H1' & Hmv)%StronglySorted_app. rewrite Forall_forall in E3.
    destruct (IH merge L1' L2 ([m] ++ mrest) g (m :: moved ++ D)) as (L & HL & HLs & HLp).
    + lens.
    + rewrite Hme. by rewrite <-!app_assoc.
    + lens.
    + done.
    + rewrite len_app in Hlen. pose proof (len_nonneg moved). lia.
    + done.
    + done.
    + apply StronglySorted_cons. split.
      * apply Forall_app. split; apply Forall_forall; intros x Hx; [specialize (E3 x Hx); lia|].
        specialize (Hord m x ltac:(set_solver) Hx). lia.
      * apply StronglySorted_app_2; [|done|done]. intros x z Hx Hz. specialize (Hord x z ltac:(set_solver) Hz). lia.
    + intros x z Hx Hz. apply elem_of_app in Hx.
      assert (m <= x) as Hmx.
      { destruct Hx as [Hx|Hx]; [by apply (descending_last_or M L1')|]. specialize (H2lt x m Hx ltac:(left)). lia. }
      apply elem_of_cons in Hz as [->|[Hz|Hz]%elem_of_app]; [done|specialize (E3 z Hz); lia|].
      apply Hord; [|done]. rewrite !elem_of_app. tauto.
    + exists L. split_and!; [done|done|]. rewrite HLp. simpl. solve_Permutation.
Qed.

(** Merging: for two descending ID lists, the first with room for both,
    [mdb_midl_xmerge] stays inside the array, and the first list then holds the IDs of
    both in descending order. *)
Theorem mdb_midl_xmerge_spec (idl merge l1 l2 : list Z)
  (H1 : ids_ok idl l1) (H2 : ids_ok merge l2) (Hs1 : descending l1) (Hs2 : descending l2)
  (Hv : Forall (fun x => x < 2 ^ 64) l2)
  (Hroom : len l1 + len l2 + 1 <= len idl) (Hlen : len l1 < 2 ^ 64) :
  exists idl' l, mdb_midl_xmerge idl merge = Some idl' /\ ids_ok idl' l /\ descending l /\ l ≡ₚ l1 ++ l2 /\
    len idl' = len idl.
Proof.
  unfold mdb_midl_xmerge. rewrite (ids_ok_count _ _ H1), (ids_ok_count _ _ H2), !option_bind_Some_eq.
  destruct H1 as [rest ->], H2 as [mrest ->]. rewrite wr_head, option_bind_Some_eq, rd_last, option_bind_Some_eq.
  rewrite len_cons, len_app in Hroom.
  pose proof (len_nonneg l2).
  rewrite <-(take_drop (Z.to_nat (len l2)) rest).
  assert (len (take (Z.to_nat (len l2)) rest) = len l2) as Hgl by (unfold len in *; rewrite length_take; lia).
  replace (len l2 + len l1) with (len l1 + len (take (Z.to_nat (len l2)) rest)) by lia.
  destruct (xmerge_loop_ok (2 ^ 64 - 1) (Z.to_nat (len l2)) (len l2 :: l2 ++ mrest) l1 l2 mrest
    (take (Z.to_nat (len l2)) rest) [] (drop (Z.to_nat (len l2)) rest) (len l2)) as (L & HL & HLs & HLp).
  - unfold len. lia.
  - done.
  - unfold len in *. lia.
  - eapply Forall_impl; [exact Hv|]. simpl. lia.
  - lia.
  - done.
  - done.
  - constructor.
  - intros x y _ Hy. by apply not_elem_of_nil in Hy.
  - cbn [app] in HL. rewrite HL, option_bind_Some_eq, wr_head. rewrite app_nil_r in HLp.
    assert (len L = len l1 + len l2) as HLl by (unfold len; rewrite HLp; lens).
    eexists _, L. split; [done|]. split_and!; [|done|done|].
    + eexists. f_equal. lia.
    + rewrite !len_cons, !len_app. lia.
Qed.

Lemma mdb_midl_xmerge_spec_witness :
  exists idl' l, mdb_midl_xmerge [3; 9; 5; 1; 0; 0; 7] [2; 10; 4] = Some idl' /\ ids_ok idl' l /\ descending l /\
    l ≡ₚ [9; 5; 1] ++ [10; 4] /\ len idl' = len [3; 9; 5; 1; 0; 0; 7].
Proof.
  apply (mdb_midl_xmerge_spec [3; 9; 5; 1; 0; 0; 7] [2; 10; 4] [9; 5; 1] [10; 4]).
  - by exists [0; 0; 7].
  - by exists [].
  - repeat apply SSorted_cons || apply Forall_cons_2 || apply Forall_nil_2 || apply SSorted_nil; lia.
  - repeat apply SSorted_cons || apply Forall_cons_2 || apply Forall_nil_2 || apply SSorted_nil; lia.
  - repeat apply Forall_cons_2 || apply Forall_nil_2; lia.
  - unfold len. simpl. lia.
  - unfold len. simpl. lia.
Defined.

(** An index that stays an [int]. *)
Ltac int_ok := repeat match goal with |- context [c_int ?z ≫= _] => rewrite (c_int_ok z), option_bind_Some_eq by lia end.

(** ** Sorting: insertion *)

Definition sorted_range (a : list Z) (l r : Z) : Prop := forall p q, l <= p -> p < q -> q <= r -> get a q <= get a p.

Lemma MIDL_SWAP_ok a x y : 0 <= x < len a -> 0 <= y < len a -> MIDL_SWAP a x y = Some (swap a x y).
Proof.
  intros Hx Hy. unfold MIDL_SWAP. rewrite !rd_ok, !option_bind_Some_eq by done.
  rewrite wr_ok, option_bind_Some_eq, wr_ok by (rewrite ?len_set; done). done.
Qed.

(** The inner loop, with the element being inserted put in the hole: [W] below. *)
Lemma insertion_inner_ok a0 l j :
  1 <= l -> l < j -> j < len a0 -> j < 2 ^ 30 + 2 ->
  sorted_range a0 l (j - 1) -> (1 < l -> get a0 j <= get a0 (l - 1)) ->
  exists ids i, whileM (insertion_inner (get a0 j)) (a0, j - 1) = Some (ids, i) /\
    0 <= i < j /\ len ids = len a0 /\
    shuffled l j a0 (set ids (i + 1) (get a0 j)) /\ sorted_range (set ids (i + 1) (get a0 j)) l j.
Proof.
  intros Hl Hlj Hj Hbig Hs Hg. set (x := get a0 j) in *.
  edestruct (whileM_total (insertion_inner x)
    (fun '(ids, i) => l - 1 <= i < j /\ len ids = len a0 /\
       let W := set ids (i + 1) x in shuffled l j a0 W /\
       (forall p q, l <= p -> p < q -> q <= j -> p <> i + 1 -> q <> i + 1 -> get W q <= get W p) /\
       (forall q, i + 1 < q <= j -> get W q < x))
    (fun '(ids, i) => i)
    (fun '(ids, i) => 0 <= i < j /\ len ids = len a0 /\
       shuffled l j a0 (set ids (i + 1) x) /\ sorted_range (set ids (i + 1) x) l j)
    (a0, j - 1)) as ([ids i] & Hw & H1 & H2 & H3 & H4).
  - intros [ids i] (Hi & Hli & Hsh & Hord & Hgt). cbv zeta in *. unfold insertion_inner.
    set (W := set ids (i + 1) x) in *.
    assert (forall k, 0 <= k -> k <> i + 1 -> get W k = get ids k) as HW by (intros; apply get_set_ne; lia).
    assert (get W (i + 1) = x) as HWx by (apply get_set_eq; lia).
    assert ((i = l - 1 \/ x <= get ids i) -> sorted_range W l j) as Hdone.
    { intros Hstop p q Hp Hpq Hq. destruct (decide (p = i + 1)) as [->|Hp1].
      - rewrite HWx. specialize (Hgt q ltac:(lia)). lia.
      - destruct (decide (q = i + 1)) as [->|]; [|apply Hord; lia]. rewrite HWx.
        destruct Hstop as [?|Hstop]; [lia|]. rewrite <-(HW i) in Hstop by lia.
        destruct (decide (p = i)) as [->|]; [done|]. specialize (Hord p i ltac:(lia) ltac:(lia) ltac:(lia) ltac:(lia) ltac:(lia)). lia. }
    destruct (1 <=? i) eqn:Ei; zb.
    2:{ eexists. split; [done|]. split_and!; [lia|lia|done|done|]. apply Hdone. left. lia. }
    rewrite rd_ok, option_bind_Some_eq by lia. destruct (x <=? get ids i) eqn:Ex; zb.
    { eexists. split; [done|]. split_and!; [lia|lia|done|done|]. apply Hdone. by right. }
    assert (l <= i) as Hil.
    { destruct (decide (l <= i)); [done|]. assert (i = l - 1) as -> by lia. exfalso.
      destruct Hsh as (_ & _ & Hout & _). rewrite <-HW in Ex by lia. rewrite Hout in Ex by lia. specialize (Hg ltac:(lia)). lia. }
    int_ok. rewrite wr_ok, option_bind_Some_eq by lia. int_ok. eexists. split; [done|]. cbv beta iota.
    assert (set (set ids (i + 1) (get ids i)) (i - 1 + 1) x = swap W i (i + 1)) as HW'.
    { replace (i - 1 + 1) with i by lia. unfold swap. rewrite HWx, HW by lia. unfold W.
      rewrite (set_comm (set ids (i + 1) x) i (i + 1)), set_set by lia. done. }
    rewrite HW'. assert (len W = len a0) as HlW by (unfold W; by rewrite len_set).
    split; [|lia]. split_and!; [lia|lia|by rewrite len_set| | |].
    + eapply shuffled_trans; [exact Hsh|]. apply shuffled_swap; lia.
    + intros p q Hp Hpq Hq Hpi Hqi. rewrite !get_swap by lia.
      repeat case_if; try lia; subst; try (apply Hord; lia).
    + intros q Hq. rewrite get_swap by lia. repeat case_if; try lia; subst.
      * rewrite HW by lia. done.
      * apply Hgt. lia.
  - cbv zeta. replace (j - 1 + 1) with j by lia. unfold x. rewrite set_get by lia.
    split_and!; [lia|lia|done|apply shuffled_refl| |intros; lia]. intros p q ????? . apply Hs; lia.
  - lia.
  - exists ids, i. done.
Qed.

Lemma insertion_outer_ok a0 l ir :
  1 <= l -> l <= 2 ^ 30 + 1 -> ir < len a0 -> ir <= 2 ^ 30 ->
  (forall q, 1 < l -> l <= q <= ir -> get a0 q <= get a0 (l - 1)) ->
  exists ids, whileM (insertion_outer ir) (a0, l + 1) = Some ids /\ shuffled l ir a0 ids /\ sorted_range ids l ir.
Proof.
  intros Hl Hl2 Hir Hbig Hg.
  edestruct (whileM_total (insertion_outer ir)
    (fun '(ids, j) => l + 1 <= j /\ (j <= ir + 1 \/ j = l + 1) /\ shuffled l ir a0 ids /\ sorted_range ids l (j - 1))
    (fun '(ids, j) => Z.max 0 (ir + 1 - j))
    (fun ids => shuffled l ir a0 ids /\ sorted_range ids l ir) (a0, l + 1)) as (ids & -> & H1 & H2).
  - intros [ids j] (Hj & Hjr & Hsh & Hs). unfold insertion_outer. pose proof Hsh as (Hln & _ & Hout & Hin).
    destruct (j <=? ir) eqn:E; zb.
    2:{ eexists. split; [done|]. split; [done|]. intros p q ???. apply Hs; lia. }
    rewrite rd_ok, option_bind_Some_eq by lia. int_ok.
    destruct (insertion_inner_ok ids l j) as (ids' & i & -> & Hi & Hl' & Hsh' & Hs'); [lia|lia|lia|lia|done| |].
    { intros Hl1. rewrite (Hout (l - 1)) by lia. destruct (Hin j ltac:(lia)) as (k & Hk & ->). by apply Hg. }
    rewrite option_bind_Some_eq. int_ok. rewrite wr_ok, option_bind_Some_eq by lia. int_ok. eexists. split; [done|]. cbv beta iota.
    split; [|lia]. split_and!; [lia|lia| |by replace (j + 1 - 1) with j by lia].
    eapply shuffled_trans; [exact Hsh|]. eapply shuffled_mono; [..|exact Hsh']; lia.
  - split_and!; [lia|by right|apply shuffled_refl|]. intros p q ???. lia.
  - lia.
  - exists ids. done.
Qed.

(** ** Sorting: partition *)

Lemma swap_if_less_ok a x y :
  0 <= x < len a -> 0 <= y < len a -> x <> y ->
  exists b, swap_if_less a x y = Some b /\ len b = len a /\
    (forall l r, 0 <= l -> l <= x <= r -> l <= y <= r -> r < len a -> shuffled l r a b) /\
    get b x = Z.max (get a x) (get a y) /\ get b y = Z.min (get a x) (get a y) /\
    (forall k, 0 <= k -> k <> x -> k <> y -> get b k = get a k).
Proof.
  intros Hx Hy Hxy. unfold swap_if_less. rewrite !rd_ok, !option_bind_Some_eq by done. case_if.
  - exists (swap a x y). rewrite MIDL_SWAP_ok by done. split; [done|]. rewrite len_swap, !get_swap by lia.
    rewrite Z.eqb_refl. destruct (x =? y) eqn:E1; zb; [lia|]. rewrite Z.eqb_refl.
    split_and!; [done|by intros; apply shuffled_swap|lia|lia|].
    intros k Hk Hkx Hky. rewrite get_swap by lia. do 2 (case_if; [lia|]). done.
  - exists a. split_and!; [done|done|intros; apply shuffled_refl|lia|lia|done].
Qed.

(** The two scans: the first cell not above the pivot, with a sentinel at [s]. *)
Lemma scan_up_ok ids a i s :
  0 <= i < s -> s < len ids -> s <= 2 ^ 30 -> get ids s <= a ->
  exists i', whileM (scan_up ids a) i = Some i' /\ i < i' <= s /\ get ids i' <= a /\
    forall k, i < k < i' -> a < get ids k.
Proof.
  intros Hi Hs Hbig Hsent.
  edestruct (whileM_total (scan_up ids a) (fun k => i <= k < s /\ forall q, i < q <= k -> a < get ids q)
    (fun k => s - k) (fun k => i < k <= s /\ get ids k <= a /\ forall q, i < q < k -> a < get ids q) i) as (i' & -> & H).
  - intros k [Hk Hall]. unfold scan_up. int_ok. rewrite rd_ok, option_bind_Some_eq by lia. eexists. split; [done|].
    destruct (a <? get ids (k + 1)) eqn:E; zb.
    + destruct (decide (k + 1 = s)) as [<-|]; [lia|]. split; [|lia]. split; [lia|].
      intros q Hq. destruct (decide (q = k + 1)) as [->|]; [done|]. apply Hall. lia.
    + split_and!; [lia|lia|done|]. intros q Hq. apply Hall. lia.
  - split; [lia|]. intros; lia.
  - lia.
  - exists i'. done.
Qed.

Lemma scan_down_ok ids a j s :
  0 <= s < j -> j <= len ids -> j <= 2 ^ 30 -> a <= get ids s ->
  exists j', whileM (scan_down ids a) j = Some j' /\ s <= j' < j /\ a <= get ids j' /\
    forall k, j' < k < j -> get ids k < a.
Proof.
  intros Hj Hs Hbig Hsent.
  edestruct (whileM_total (scan_down ids a) (fun k => s < k <= j /\ forall q, k <= q < j -> get ids q < a)
    (fun k => k) (fun k => s <= k < j /\ a <= get ids k /\ forall q, k < q < j -> get ids q < a) j) as (j' & -> & H).
  - intros k [Hk Hall]. unfold scan_down. int_ok. rewrite rd_ok, option_bind_Some_eq by lia. eexists. split; [done|].
    destruct (get ids (k - 1) <? a) eqn:E; zb.
    + destruct (decide (k - 1 = s)) as [<-|]; [lia|]. split; [|lia]. split; [lia|].
      intros q Hq. destruct (decide (q = k - 1)) as [->|]; [done|]. apply Hall. lia.
    + split_and!; [lia|lia|done|]. intros q Hq. apply Hall. lia.
  - split; [lia|]. intros; lia.
  - lia.
  - exists j'. done.
Qed.

Lemma partition_loop_ok a0 l ir a :
  1 <= l -> l + 1 < ir -> ir < len a0 -> ir <= 2 ^ 30 ->
  a <= get a0 l -> get a0 (l + 1) = a -> get a0 ir <= a ->
  exists ids i j, whileM (partition_step a) (a0, l + 1, ir) = Some (ids, i, j) /\
    shuffled l ir a0 ids /\ get ids (l + 1) = a /\ l + 1 <= j < i /\ i <= ir /\ j < ir /\
    (forall k, l <= k < i -> a <= get ids k) /\ (forall k, j < k <= ir -> get ids k <= a).
Proof.
  intros Hl Hlr Hr Hbig H0 H1 H2.
  edestruct (whileM_total (partition_step a)
    (fun '(ids, i, j) => l + 1 <= i <= j /\ j <= ir /\ (i < j \/ (j < ir /\ l + 1 < i)) /\
       shuffled l ir a0 ids /\ get ids (l + 1) = a /\
       (forall k, l <= k <= i -> a <= get ids k) /\ (forall k, j <= k <= ir -> get ids k <= a))
    (fun '(ids, i, j) => j - i)
    (fun '(ids, i, j) => shuffled l ir a0 ids /\ get ids (l + 1) = a /\ l + 1 <= j < i /\ i <= ir /\ j < ir /\
       (forall k, l <= k < i -> a <= get ids k) /\ (forall k, j < k <= ir -> get ids k <= a))
    (a0, l + 1, ir)) as ([[ids i] j] & Hw & H).
  - intros [[ids i] j] (Hij & Hjr & Hfirst & Hsh & Hp & Hlo & Hhi). unfold partition_step.
    pose proof Hsh as (Hln & _).
    destruct (scan_up_ok ids a i (Z.max j (i + 1))) as (i' & -> & Hi' & Hia & Hib); [lia|lia|lia|apply Hhi; lia|].
    rewrite option_bind_Some_eq.
    destruct (scan_down_ok ids a j (Z.min i (j - 1))) as (j' & -> & Hj' & Hja & Hjb); [lia|lia|lia|apply Hlo; lia|].
    rewrite option_bind_Some_eq.
    assert (forall k, l <= k < i' -> a <= get ids k) as Hlo'.
    { intros k Hk. destruct (decide (k <= i)); [apply Hlo; lia|]. specialize (Hib k ltac:(lia)). lia. }
    assert (forall k, j' < k <= ir -> get ids k <= a) as Hhi'.
    { intros k Hk. destruct (decide (j <= k)); [apply Hhi; lia|]. specialize (Hjb k ltac:(lia)). lia. }
    destruct (j' <? i') eqn:E; zb.
    + eexists. split; [done|]. split_and!; [done|done|lia|lia|lia|lia|done|done].
    + rewrite MIDL_SWAP_ok, option_bind_Some_eq by lia. eexists. split; [done|]. cbv beta iota.
      split; [|lia]. split_and!; [lia|lia|lia|right; lia| | | |].
      * eapply shuffled_trans; [exact Hsh|]. apply shuffled_swap; lia.
      * rewrite get_swap by lia. do 2 (case_if; [lia|]). done.
      * intros k Hk. rewrite get_swap by lia. case_if; [assert (i' = j') as -> by lia; done|].
        case_if; [done|]. apply Hlo'. lia.
      * intros k Hk. rewrite get_swap by lia. case_if; [done|]. case_if; [lia|]. apply Hhi'. lia.
  - split_and!; [lia|lia|lia|left; lia|apply shuffled_refl|done| |].
    + intros k Hk. destruct (decide (k = l)) as [->|]; [done|]. assert (k = l + 1) as -> by lia. lia.
    + intros k Hk. assert (k = ir) as -> by lia. done.
  - lia.
  - exists ids, i, j. done.
Qed.

Lemma partition_ok a0 l ir :
  1 <= l -> l + SMALL <= ir -> ir < len a0 -> ir <= 2 ^ 30 ->
  exists ids i j, partition a0 l ir = Some (ids, i, j) /\ shuffled l ir a0 ids /\
    l + 1 <= j < i /\ i <= ir /\ j < ir /\
    (forall k, l <= k < i -> get ids j <= get ids k) /\ (forall k, j <= k <= ir -> get ids k <= get ids j).
Proof.
  unfold SMALL. intros Hl Hlr Hr Hbig. unfold partition. int_ok. cbv zeta. int_ok.
  assert (l + 1 <= Z.shiftr (l + ir) 1 <= ir) as Hk.
  { rewrite shiftr1_half by lia. pose proof (Z.div_mod (l + ir) 2). pose proof (Z.mod_pos_bound (l + ir) 2). lia. }
  rewrite MIDL_SWAP_ok, option_bind_Some_eq by lia.
  pose proof (shuffled_swap l ir a0 (Z.shiftr (l + ir) 1) (l + 1) ltac:(lia) ltac:(lia) ltac:(lia) ltac:(lia)) as Hsh1.
  set (a1 := swap a0 _ _) in *. assert (len a1 = len a0) as Hl1 by apply len_swap. clearbody a1.
  destruct (swap_if_less_ok a1 l ir) as (a2 & -> & Hl2 & Hsh2 & X1 & X2 & X3); [lia..|]. rewrite option_bind_Some_eq.
  destruct (swap_if_less_ok a2 (l + 1) ir) as (a3 & -> & Hl3 & Hsh3 & Y1 & Y2 & Y3); [lia..|]. rewrite option_bind_Some_eq.
  destruct (swap_if_less_ok a3 l (l + 1)) as (a4 & -> & Hl4 & Hsh4 & Z1 & Z2 & Z3); [lia..|]. rewrite option_bind_Some_eq.
  rewrite rd_ok, option_bind_Some_eq by lia.
  assert (shuffled l ir a0 a4) as Hsh.
  { eapply shuffled_trans; [exact Hsh1|]. eapply shuffled_trans; [apply Hsh2; lia|].
    eapply shuffled_trans; [apply Hsh3; lia|]. apply Hsh4; lia. }
  rewrite (X3 (l + 1)) in Y1, Y2 by lia. rewrite (Y3 l) in Z1, Z2 by lia. specialize (Z3 ir ltac:(lia) ltac:(lia) ltac:(lia)).
  destruct (partition_loop_ok a4 l ir (get a4 (l + 1))) as (ids & i & j & -> & Hsh' & Hp & Hj & Hi & Hjr & Hlo & Hhi); [lia..|].
  rewrite option_bind_Some_eq. pose proof Hsh' as (Hl5 & _). rewrite rd_ok, option_bind_Some_eq by lia.
  rewrite wr_ok, option_bind_Some_eq, wr_ok, option_bind_Some_eq by (rewrite ?len_set; lia).
  rewrite <-Hp. change (set (set ids (l + 1) (get ids j)) j (get ids (l + 1))) with (swap ids (l + 1) j).
  exists (swap ids (l + 1) j), i, j. split; [done|].
  assert (get (swap ids (l + 1) j) j = get ids (l + 1)) as -> by (rewrite get_swap, Z.eqb_refl by lia; done).
  split_and!; [|lia|lia|lia|lia| |].
  - eapply shuffled_trans; [exact Hsh|]. eapply shuffled_trans; [exact Hsh'|]. apply shuffled_swap; lia.
  - intros k Hk'. rewrite get_swap by lia. rewrite Hp. case_if; [lia|]. case_if; apply Hlo; lia.
  - intros k Hk'. rewrite get_swap by lia. case_if; [lia|]. case_if; [lia|]. rewrite Hp. apply Hhi. lia.
Qed.

(** ** Sorting: the outer loop

    [pend] are the ranges still to be sorted; outside them the order is final. *)
Definition ordered (n : Z) (a : list Z) (pend : list (Z * Z)) : Prop :=
  forall p q, 1 <= p -> p < q -> q <= n ->
    get a q <= get a p \/ exists s, s ∈ pend /\ s.1 <= p /\ q <= s.2.

Definition apart (s t : Z * Z) : Prop := s.2 < t.1 \/ t.2 < s.1.

(** Rearranging a pending range keeps the order outside the ranges that replace it. *)
Lemma ordered_shuffle n a b l r S P :
  ordered n a ((l, r) :: S) -> shuffled l r a b -> 1 <= l -> r <= n -> (forall s, s ∈ S -> apart (l, r) s) ->
  (forall p q, l <= p -> p < q -> q <= r -> get b q <= get b p \/ exists s, s ∈ P /\ s.1 <= p /\ q <= s.2) ->
  ordered n b (P ++ S).
Proof.
  intros Hord (_ & _ & Hout & Hin) Hl Hr Hap Hloc p q Hp Hpq Hq.
  assert (forall p' q', 1 <= p' -> p' < q' -> q' <= n -> ~ (l <= p' /\ q' <= r) ->
    (l <= p' <= r \/ l <= q' <= r) -> get a q' <= get a p') as Hcross.
  { intros p' q' ?? Hq' Hno Hx. destruct (Hord p' q') as [?|(s & Hs & H1 & H2)]; [lia..|done|].
    apply elem_of_cons in Hs as [->|Hs]; [simpl in *; lia|]. specialize (Hap s Hs). unfold apart in Hap. simpl in Hap. lia. }
  destruct (decide (l <= p /\ q <= r)) as [[? ?]|Hno].
  { destruct (Hloc p q) as [?|(s & Hs & ?)]; [lia..|by left|]. right. exists s. split; [|done]. apply elem_of_app. by left. }
  destruct (decide (l <= p <= r)) as [Hpi|Hpo].
  - left. destruct (Hin p Hpi) as (p' & Hp' & ->). rewrite (Hout q) by lia. apply Hcross; lia.
  - rewrite (Hout p) by lia. destruct (decide (l <= q <= r)) as [Hqi|Hqo].
    + left. destruct (Hin q Hqi) as (q' & Hq' & ->). apply Hcross; lia.
    + rewrite (Hout q) by lia. destruct (Hord p q) as [?|(s & Hs & H1 & H2)]; [lia..|by left|].
      right. apply elem_of_cons in Hs as [->|Hs]; [simpl in *; lia|]. exists s. split; [|done]. apply elem_of_app. by right.
Qed.

(** The stack array holds the pending ranges, bottom first. *)
Definition stack_ok (istack : list Z) (S : list (Z * Z)) : Prop :=
  forall t l r, S !! t = Some (l, r) ->
    get istack (2 * Z.of_nat t + 1) = l /\ get istack (2 * Z.of_nat t + 2) = r.

Definition seg_ok (n : Z) (s : Z * Z) : Prop := 1 <= s.1 /\ s.2 <= n /\ s.1 <= s.2 + 1.

Definition weight (s : Z * Z) : Z := 3 * (s.2 - s.1 + 1) + 1.
Definition weights (S : list (Z * Z)) : Z := foldr (fun s w => weight s + w) 0 S.

Lemma weights_app S T : weights (S ++ T) = weights S + weights T.
Proof. unfold weights. induction S as [|s S IH]; simpl; lia. Qed.

Lemma weights_nonneg n S : Forall (seg_ok n) S -> 0 <= weights S.
Proof. induction 1 as [|s S (? & ? & ?) _ IH]; simpl; [lia|]. unfold weight. lia. Qed.

Definition sort_inv (n : Z) (a0 : list Z) (st : sort_state) : Prop :=
  let '(ids, istack, jstack, l, ir) := st in
  exists S, jstack = 2 * len S /\ (len istack = 64 /\ 2 * len S < 64) /\ stack_ok istack S /\
    Forall (seg_ok n) ((l, ir) :: S) /\ (forall s, s ∈ S -> apart (l, ir) s) /\
    (forall i j s t, S !! i = Some s -> S !! j = Some t -> i <> j -> apart s t) /\
    shuffled 1 n a0 ids /\ ordered n ids ((l, ir) :: S) /\
    (forall t s, S !! t = Some s -> (s.2 - s.1 + 1) * 2 ^ Z.of_nat t <= n) /\
    (ir - l + 1) * 2 ^ len S <= n.

Definition sort_measure (S : list (Z * Z)) (l ir : Z) : Z := weight (l, ir) + weights S.

(** Pushing a range and going on with a smaller one; [s] is pushed. *)
Lemma stack_push istack S s v w :
  len istack = 64 -> stack_ok istack S -> 2 * len S + 2 < 64 -> s = (w, v) ->
  stack_ok (set (set istack (2 * len S + 2) v) (2 * len S + 1) w) (S ++ [s]).
Proof.
  intros Hl Hok Hlen -> t l r Ht. assert (t < length (S ++ [(w, v)]))%nat as Htl by (by eapply lookup_lt_Some).
  rewrite length_app in Htl. simpl in Htl.
  destruct (decide (t = length S)) as [->|Hne].
  - rewrite list_lookup_middle in Ht by done. injection Ht as -> ->. unfold len in *.
    rewrite get_set_eq, get_set_ne, get_set_eq by (unfold len; rewrite ?length_insert; lia || (unfold set; rewrite ?length_insert; lia)). done.
  - rewrite lookup_app_l in Ht by lia. destruct (Hok t l r Ht) as [<- <-]. unfold len in *.
    rewrite !get_set_ne by lia. done.
Qed.

Definition stack_of (istack : list Z) (jstack : Z) : list (Z * Z) :=
  (fun t => (get istack (2 * Z.of_nat t + 1), get istack (2 * Z.of_nat t + 2))) <$> seq 0 (Z.to_nat (jstack / 2)).

Lemma stack_of_ok istack S : stack_ok istack S -> stack_of istack (2 * len S) = S.
Proof.
  intros Hok. unfold stack_of. rewrite Z.mul_comm, Z.div_mul by lia. unfold len. rewrite Nat2Z.id.
  apply list_eq_same_length with (length S); [done|by rewrite length_fmap, length_seq|].
  intros t x y Hlt Hx Hy. rewrite list_lookup_fmap, lookup_seq_lt in Hx by done. simpl in Hx. injection Hx as <-.
  destruct y as [l r]. destruct (Hok t l r Hy) as [-> ->]. done.
Qed.

Definition sort_weight (st : sort_state) : Z :=
  let '(ids, istack, jstack, l, ir) := st in weight (l, ir) + weights (stack_of istack jstack).

Lemma ordered_perm n a P Q : (forall s, s ∈ P -> s ∈ Q) -> ordered n a P -> ordered n a Q.
Proof.
  intros Hsub Hord p q H1 H2 H3. destruct (Hord p q H1 H2 H3) as [?|(s & Hs & ?)]; [by left|].
  right. exists s. split; [by apply Hsub|done].
Qed.

(** Going on with [c] after pushing [s], two parts of the current range. *)
Lemma sort_push n a0 ids istack S l ir ids' c s :
  sort_inv n a0 (ids, istack, 2 * len S, l, ir) -> stack_ok istack S -> n <= 2 ^ 30 -> l + SMALL <= ir ->
  shuffled l ir ids ids' -> ordered n ids' ([c; s] ++ S) -> apart c s ->
  l <= c.1 -> c.2 <= ir -> c.1 <= c.2 + 1 -> l <= s.1 -> s.2 <= ir -> s.1 <= s.2 + 1 ->
  2 * (c.2 - c.1 + 1) <= ir - l + 1 -> (c.2 - c.1 + 1) + (s.2 - s.1 + 1) < ir - l + 1 ->
  let istack' := set (set istack (2 * len S + 2) s.2) (2 * len S + 1) s.1 in
  2 * len S + 2 < 64 /\
  sort_inv n a0 (ids', istack', 2 * len S + 2, c.1, c.2) /\
  0 <= sort_weight (ids', istack', 2 * len S + 2, c.1, c.2) < sort_weight (ids, istack, 2 * len S, l, ir).
Proof.
  intros (S0 & Hj & [Hl _] & Hst & Hseg & Hap & Hpair & Hsh & _ & Hsz & Hcur) HS Hn Hbig Hsh' Hord Hcs ??????? Hw istack'.
  assert (S0 = S) as ->.
  { rewrite <-(stack_of_ok _ _ Hst), <-(stack_of_ok _ _ HS). by rewrite Hj. }
  apply Forall_cons in Hseg as [(Hs1 & Hs2 & Hs3) Hseg]. simpl in Hs1, Hs2, Hs3. unfold SMALL in Hbig.
  assert (2 * len S + 2 < 64) as Hroom.
  { destruct (decide (len S <= 28)); [lia|]. exfalso.
    assert (2 ^ 29 <= 2 ^ len S) by (apply Z.pow_le_mono_r; lia). nia. }
  assert (stack_ok istack' (S ++ [s])) as HS'.
  { apply stack_push; [done|done|lia|]. by destruct s. }
  assert (2 * len S + 2 = 2 * len (S ++ [s])) as Hjs by lens.
  split; [done|]. rewrite Hjs. split.
  - exists (S ++ [s]). split_and!; [done|by unfold istack'; rewrite !len_set|lia|done| | | | | | |].
    + apply Forall_cons. split; [split_and!; simpl; lia|]. apply Forall_app. split; [done|].
      apply Forall_cons. split; [split_and!; simpl; lia|constructor].
    + intros t [Ht| ->%list_elem_of_singleton]%elem_of_app; [|by destruct c].
      specialize (Hap t Ht). unfold apart in *. simpl in *. lia.
    + assert (forall t, t ∈ S -> apart s t) as Hst'.
      { intros t Ht. specialize (Hap t Ht). unfold apart in *. simpl in *. lia. }
      intros i j x y Hi Hj' Hij.
      apply lookup_app_Some in Hi as [Hi|[Hi1 Hi2]]; apply lookup_app_Some in Hj' as [Hj'|[Hj1 Hj2]].
      * by apply (Hpair i j).
      * apply list_lookup_singleton_Some in Hj2 as [_ <-]. specialize (Hst' x (list_elem_of_lookup_2 _ _ _ Hi)).
        unfold apart in *. tauto.
      * apply list_lookup_singleton_Some in Hi2 as [_ <-]. apply Hst'. by eapply list_elem_of_lookup_2.
      * apply list_lookup_singleton_Some in Hi2 as [? _]. apply list_lookup_singleton_Some in Hj2 as [? _]. lia.
    + eapply shuffled_trans; [exact Hsh|]. eapply shuffled_mono; [..|exact Hsh']; lia.
    + eapply ordered_perm; [|exact Hord]. intros t. destruct c. rewrite !elem_of_cons, !elem_of_app, !elem_of_cons. tauto.
    + intros t x Hx. apply lookup_app_Some in Hx as [Hx|[Hx1 Hx2]]; [by apply Hsz|].
      apply list_lookup_singleton_Some in Hx2 as [Ht <-]. replace (Z.of_nat t) with (len S) by (unfold len; lia).
      assert (0 < 2 ^ len S) by (apply Z.pow_pos_nonneg; [lia|apply len_nonneg]). nia.
    + rewrite len_app. change (len [s]) with 1. rewrite Z.pow_add_r by (try apply len_nonneg; lia).
      assert (0 < 2 ^ len S) by (apply Z.pow_pos_nonneg; [lia|apply len_nonneg]). nia.
  - unfold sort_weight. rewrite !stack_of_ok by done. rewrite weights_app.
    pose proof (weights_nonneg n S Hseg). change (weights [s]) with (weight s + 0).
    unfold weight. cbn [fst snd]. lia.
Qed.

(** One iteration of the outer loop. *)
Lemma sort_step_ok n a0 st :
  0 <= n <= 2 ^ 30 -> n < len a0 -> sort_inv n a0 st ->
  exists o, sort_step st = Some o /\
    match o with
    | inl st' => sort_inv n a0 st' /\ 0 <= sort_weight st' < sort_weight st
    | inr r => shuffled 1 n a0 r /\ ordered n r []
    end.
Proof.
  destruct st as [[[[ids istack] jstack] l] ir]. intros Hn Hna Hinv. pose proof Hinv as
    (S & -> & [Hl Hroom] & Hst & Hseg & Hap & Hpair & Hsh & Hord & Hsz & Hcur).
  apply Forall_cons in Hseg as [(Hs1 & Hs2 & Hs3) Hseg]. simpl in Hs1, Hs2, Hs3.
  pose proof Hsh as (Hlen & _). pose proof (len_nonneg S) as HS0. unfold sort_step. int_ok.
  destruct (ir - l <? SMALL) eqn:E; zb; unfold SMALL in E.
  - int_ok. destruct (insertion_outer_ok ids l ir) as (ids' & -> & Hsh' & Hs'); [lia|lia|lia|lia| |].
    { intros q Hl1 Hq. destruct (Hord (l - 1) q) as [?|(s & Hs & ? & ?)]; [lia..|done|].
      apply elem_of_cons in Hs as [->|Hs]; [simpl in *; lia|]. specialize (Hap s Hs). unfold apart in Hap. simpl in Hap. lia. }
    rewrite option_bind_Some_eq.
    assert (shuffled 1 n a0 ids') as Hsh1.
    { eapply shuffled_trans; [exact Hsh|]. eapply shuffled_mono; [..|exact Hsh']; lia. }
    assert (ordered n ids' S) as Hord'.
    { apply (ordered_shuffle n ids ids' l ir S []); [done|done|lia|lia|done|]. intros p q ???. left. apply Hs'; lia. }
    destruct S as [|[l' r'] S _] using rev_ind.
    { eexists. split; [done|]. done. }
    assert (2 * len (S ++ [(l', r')]) = 2 * len S + 2) as Hjs by lens. pose proof (len_nonneg S).
    destruct (Hst (length S) l' r') as [Hg1 Hg2]; [by rewrite list_lookup_middle by done|].
    fold (len S) in Hg1, Hg2.
    rewrite Hjs. destruct (2 * len S + 2 =? 0) eqn:E0; zb; [lia|].
    rewrite rd_ok, option_bind_Some_eq by lia. int_ok. rewrite rd_ok, option_bind_Some_eq by lia. int_ok. replace (2 * len S + 2 - 1) with (2 * len S + 1) by lia.
    rewrite Hg1, Hg2. replace (2 * len S + 1 - 1) with (2 * len S) by lia. eexists. split; [done|]. cbv beta iota.
    assert (stack_ok istack S) as HstS.
    { intros t x y Ht. apply Hst. apply lookup_app_l_Some. done. }
    apply Forall_app in Hseg as [HsegS [Hsegl _]%Forall_cons]. split.
    + exists S. split_and!; [done|done|lia|done|by apply Forall_cons| | |done| | |].
      * intros s Hs. apply list_elem_of_lookup in Hs as [t Ht]. apply (Hpair (length S) t).
        -- by rewrite list_lookup_middle by done.
        -- by apply lookup_app_l_Some.
        -- apply lookup_lt_Some in Ht. lia.
      * intros i j s t Hi Hj Hij. apply (Hpair i j); [by apply lookup_app_l_Some..|done].
      * eapply ordered_perm; [|exact Hord']. intros t. rewrite elem_of_app, !elem_of_cons, elem_of_nil. tauto.
      * intros t s Ht. apply Hsz. by apply lookup_app_l_Some.
      * apply (Hsz (length S) (l', r')). by rewrite list_lookup_middle by done.
    + unfold sort_weight. rewrite <-Hjs, !stack_of_ok by done. rewrite weights_app.
      pose proof (weights_nonneg n S HsegS). destruct Hsegl as (? & ? & ?). simpl in *.
      change (weights [(l', r')]) with (weight (l', r') + 0). unfold weight. cbn [fst snd]. lia.
  - destruct (partition_ok ids l ir) as (ids' & i & j & -> & Hsh' & Hij & Hi & Hj & Hlo & Hhi);
      [lia|unfold SMALL; lia|lia|lia|]. rewrite option_bind_Some_eq. int_ok.
    assert (ordered n ids' ([(l, j - 1); (i, ir)] ++ S)) as Hord'.
    { apply (ordered_shuffle n ids ids' l ir); [done|done|lia|lia|done|]. intros p q ???.
      destruct (decide (q <= j - 1)); [right; exists (l, j - 1); split; [left|simpl; lia]|].
      destruct (decide (i <= p)); [right; exists (i, ir); split; [right; left|simpl; lia]|].
      left. specialize (Hlo p ltac:(lia)). specialize (Hhi q ltac:(lia)). lia. }
    destruct (j - l <=? ir - i + 1) eqn:Ec; zb.
    + destruct (sort_push n a0 ids istack S l ir ids' (l, j - 1) (i, ir)) as (Hr & Hi' & Hw);
        [done|done|lia|unfold SMALL; lia|done|done|unfold apart; simpl; lia|simpl; lia..|].
      rewrite wr_ok, option_bind_Some_eq, wr_ok, option_bind_Some_eq by (rewrite ?len_set; lia).
      replace (2 * len S + 2 - 1) with (2 * len S + 1) by lia. eexists. split; [done|]. done.
    + destruct (sort_push n a0 ids istack S l ir ids' (i, ir) (l, j - 1)) as (Hr & Hi' & Hw);
        [done|done|lia|unfold SMALL; lia|done| |unfold apart; simpl; lia|simpl; lia..|].
      { eapply ordered_perm; [|exact Hord']. intros t. rewrite !elem_of_app, !elem_of_cons. tauto. }
      rewrite wr_ok, option_bind_Some_eq, wr_ok, option_bind_Some_eq by (rewrite ?len_set; lia).
      replace (2 * len S + 2 - 1) with (2 * len S + 1) by lia. eexists. split; [done|]. done.
Qed.

Lemma ids_ok_get' ids l i : ids_ok ids l -> 0 <= i < len l -> get l i = get ids (i + 1).
Proof. intros Hok Hi. rewrite (ids_ok_get ids l) by (done || lia). f_equal. lia. Qed.

Lemma descending_get l : (forall i j, 0 <= i -> i < j -> j < len l -> get l j <= get l i) -> descending l.
Proof.
  induction l as [|x l IH]; intros Hall; constructor.
  - apply IH. intros i j Hi Hij Hj. specialize (Hall (i + 1) (j + 1)). rewrite !get_cons_S in Hall by lia.
    apply Hall; lens.
  - apply Forall_forall. intros y (n & Hn)%list_elem_of_lookup. pose proof (lookup_lt_Some _ _ _ Hn).
    specialize (Hall 0 (Z.of_nat n + 1) ltac:(lia) ltac:(lia) ltac:(lens)). rewrite get_cons_S in Hall by lia.
    unfold get in Hall. rewrite Nat2Z.id, (list_lookup_total_correct _ _ _ Hn) in Hall. simpl in Hall. lia.
Qed.

(** Rearranging the IDs of a list leaves a list with the same IDs. *)
Lemma shuffled_ids ids l r : ids_ok ids l -> shuffled 1 (len l) ids r -> exists l', ids_ok r l' /\ l' ≡ₚ l.
Proof.
  intros [rest ->] (Hlen & Hp & Hout & _). destruct r as [|h r]; [by rewrite len_cons in Hlen; pose proof (len_nonneg (l ++ rest)); unfold len in *; simpl in Hlen; lia|].
  assert (h = len l) as -> by (apply (Hout 0); lia).
  apply (Permutation_cons_inv (a := len l)) in Hp.
  assert (drop (length l) r = rest) as Hrest.
  { apply array_ext; [lens || (unfold len in *; rewrite length_drop; cbn [length] in *; rewrite length_app in *; lia)|].
    intros i Hi. specialize (Hout (len l + 1 + i)). rewrite <-!Z.add_assoc, (Z.add_comm 1 i), !Z.add_assoc in Hout.
    rewrite !get_cons_S in Hout by (pose proof (len_nonneg l); lia).
    unfold get, len in *. rewrite lookup_total_drop. replace (length l + Z.to_nat i)%nat with (Z.to_nat (Z.of_nat (length l) + i)) by lia.
    rewrite Hout by lia. rewrite lookup_total_app_r by lia. f_equal. lia. }
  exists (take (length l) r).
  assert (length (take (length l) r) = length l) as Htl.
  { rewrite length_take. apply Permutation_length in Hp. rewrite length_app in Hp. lia. }
  split.
  - exists rest. rewrite <-Hrest at 1. rewrite take_drop. unfold len. by rewrite Htl.
  - apply (Permutation_app_inv_r rest). by rewrite <-Hp, <-Hrest, take_drop.
Qed.

(** C28.  Sorting: for a list of up to [2^30] IDs in an array that may be longer, and whatever
    the 64 cells of the uninitialised stack hold, [mdb_midl_sort] terminates without an
    access outside the array or the stack and without an overflow of its [int] indices, and
    the array then holds the same IDs in descending order.  (With more IDs the sum [l + ir] for
    the median can overflow: [mdb_midl_sort_overflow].) *)
Theorem mdb_midl_sort_spec (istack0 ids l : list Z)
  (Hok : ids_ok ids l) (Hstack : len istack0 = 64) (Hlen : len l <= 2 ^ 30) :
  exists ids' l', mdb_midl_sort istack0 ids = Some ids' /\ ids_ok ids' l' /\ descending l' /\ l' ≡ₚ l.
Proof.
  unfold mdb_midl_sort. rewrite (ids_ok_count _ _ Hok), option_bind_Some_eq.
  pose proof (ids_ok_len _ _ Hok) as Hl1. pose proof (len_nonneg l) as Hl0.
  assert (swrap 32 (len l) = len l) as -> by (unfold swrap; rewrite Z.mod_small; lia).
  edestruct (whileM_total sort_step (sort_inv (len l) ids) sort_weight
    (fun r => shuffled 1 (len l) ids r /\ ordered (len l) r []) (ids, istack0, 0, 1, len l)) as (r & -> & Hsh & Hord).
  - intros st Hst. apply sort_step_ok; [lia|lia|done].
  - exists []. split_and!; [done|done|done| | | | | | | |].
    + intros t x y Ht. done.
    + apply Forall_cons. split; [split_and!; simpl; lia|constructor].
    + intros s Hs. by apply not_elem_of_nil in Hs.
    + done.
    + apply shuffled_refl.
    + intros p q ???. right. exists (1, len l). split; [left|simpl; lia].
    + done.
    + change (len (@nil (Z * Z))) with 0. lia.
  - unfold sort_weight, weight, weights, stack_of. simpl. lia.
  - destruct (shuffled_ids ids l r Hok Hsh) as (l' & Hr & Hp). exists r, l'. split_and!; [done|done| |done].
    apply descending_get. intros i j Hi Hij Hj. assert (len l' = len l) as Hll by (unfold len; by rewrite Hp).
    rewrite !(ids_ok_get' r l') by (done || lia). destruct (Hord (i + 1) (j + 1)) as [?|(s & Hs & _)]; [lia..|done|].
    by apply not_elem_of_nil in Hs.
Qed.

Lemma mdb_midl_sort_spec_witness :
  let ids := [12; 5; 3; 9; 1; 7; 5; 11; 2; 8; 6; 4; 10; 77] in
  exists ids' l', mdb_midl_sort (replicate 64 (-1)) ids = Some ids' /\ ids_ok ids' l' /\ descending l' /\
    l' ≡ₚ [5; 3; 9; 1; 7; 5; 11; 2; 8; 6; 4; 10].
Proof.
  apply (mdb_midl_sort_spec (replicate 64 (-1)) [12; 5; 3; 9; 1; 7; 5; 11; 2; 8; 6; 4; 10; 77]
    [5; 3; 9; 1; 7; 5; 11; 2; 8; 6; 4; 10]); [by exists [77]|reflexivity|vm_compute; discriminate].
Defined.

(** The longest list whose count is an [int]: the sum for the first median overflows. *)
Lemma mdb_midl_sort_overflow istack0 ids l : ids_ok ids l -> len l = 2 ^ 31 - 1 -> mdb_midl_sort istack0 ids = None.
Proof.
  intros Hok Hl. unfold mdb_midl_sort. rewrite (ids_ok_count _ _ Hok), option_bind_Some_eq, Hl. apply whileM_undefined. reflexivity.
Qed.
