(* ===== verification/MidlPairs.v ===== *)
(** * ID2 lists: [mdb_mid2l_search], [mdb_mid2l_insert], [mdb_mid2l_append] of
    [lmdb/midl.c]

    The list of dirty pages of a transaction: an array of ID/pointer pairs, sorted by
    ID, with its length in the first cell. *)

From S2P Require Import Prelude CArray Midl MidlSort.

Lemma rd_at {A} (a b : list A) x : rd (a ++ x :: b) (len a) = Some x.
Proof.
  unfold rd. pose proof (len_nonneg a). rewrite (proj2 (Z.leb_le _ _)) by done.
  unfold len. rewrite Nat2Z.id. by apply list_lookup_middle.
Qed.

Lemma wr_at {A} (a b : list A) x v : wr (a ++ x :: b) (len a) v = Some (a ++ v :: b).
Proof.
  unfold wr. pose proof (len_nonneg a). rewrite (proj2 (Z.leb_le _ _)), (proj2 (Z.ltb_lt _ _)) by lens.
  cbn [andb]. unfold len. rewrite Nat2Z.id. f_equal.
  rewrite <-(Nat.add_0_r (length a)). by rewrite insert_app_r.
Qed.

(** Moving the cells of [l2] up by one, over [y]. *)
Lemma shift_cells_ok (pre l2 rest : list MDB_ID2) y :
  exists z, shift_cells (length l2) (pre ++ l2 ++ y :: rest) (len pre + len l2) = Some (pre ++ z :: l2 ++ rest).
Proof.
  revert y rest. induction l2 as [|w l2 IH] using rev_ind; intros y rest.
  - exists y. done.
  - rewrite length_app. simpl length. rewrite Nat.add_1_r. cbn [shift_cells].
    replace (len pre + len (l2 ++ [w]) - 1) with (len (pre ++ l2)) by lens.
    replace (pre ++ (l2 ++ [w]) ++ y :: rest) with ((pre ++ l2) ++ w :: y :: rest) by (by rewrite <-!app_assoc).
    rewrite rd_at, option_bind_Some_eq.
    replace (len pre + len (l2 ++ [w])) with (len ((pre ++ l2) ++ [w])) by lens.
    replace ((pre ++ l2) ++ w :: y :: rest) with (((pre ++ l2) ++ [w]) ++ y :: rest) by (by rewrite <-!app_assoc).
    rewrite wr_at, option_bind_Some_eq.
    replace (((pre ++ l2) ++ [w]) ++ w :: rest) with (pre ++ l2 ++ w :: w :: rest) by (by rewrite <-!app_assoc).
    rewrite len_app. destruct (IH w (w :: rest)) as [z ->]. exists z. by rewrite <-app_assoc.
Qed.

(** [ids] holds [l], in ascending order of IDs, and [room] more cells. *)
Definition id2l_ok (ids l : list MDB_ID2) : Prop :=
  StronglySorted (fun x y => mid x < mid y) l /\ exists h rest, ids = h :: l ++ rest /\ mid h = len l.

(** The IDs below and from [v]. *)
Lemma ascending_split v l :
  StronglySorted (fun x y => mid x < mid y) l ->
  exists l1 l2, l = l1 ++ l2 /\ Forall (fun x => mid x < v) l1 /\ Forall (fun x => v <= mid x) l2.
Proof.
  induction 1 as [|x l Hs (l1 & l2 & -> & H1 & H2) Hx]; [by exists [], []|].
  destruct (decide (mid x < v)).
  - exists (x :: l1), l2. split_and!; [done|by constructor|done].
  - exists [], (x :: l1 ++ l2). split_and!; [done|done|]. constructor; [lia|].
    eapply Forall_impl; [exact Hx|]. simpl. lia.
Qed.

Lemma get_split {A} `{Inhabited A} (a b : list A) x : get (a ++ x :: b) (len a) = x.
Proof. unfold get, len. rewrite Nat2Z.id. by apply list_lookup_total_middle. Qed.

Lemma mdb_mid2l_search_ok h l1 l2 rest v :
  mid h = len (l1 ++ l2) -> len (l1 ++ l2) < 2 ^ 31 ->
  StronglySorted (fun x y => mid x < mid y) (l1 ++ l2) ->
  Forall (fun x => mid x < v) l1 -> Forall (fun x => v <= mid x) l2 ->
  mdb_mid2l_search (h :: (l1 ++ l2) ++ rest) v = Some (len l1 + 1).
Proof.
  intros Hh Hlen Hs H1 H2. unfold mdb_mid2l_search.
  change (rd (h :: (l1 ++ l2) ++ rest) 0) with (Some h). rewrite option_bind_Some_eq, Hh.
  pose proof (len_nonneg l1). pose proof (len_nonneg l2). rewrite len_app in *.
  unfold wrap. rewrite Z.mod_small by lia.
  set (ids := h :: (l1 ++ l2) ++ rest).
  assert (forall k, 1 <= k <= len l1 -> mid (get ids k) < v) as Hlo.
  { intros k Hk. unfold ids, get. replace (Z.to_nat k) with (S (Z.to_nat (k - 1))) by lia. simpl.
    rewrite <-app_assoc, lookup_total_app_l by lens. rewrite Forall_forall in H1. apply H1.
    apply list_elem_of_lookup_total_2. lens. }
  assert (forall k, len l1 < k <= len l1 + len l2 -> get ids k ∈ l2) as Hin.
  { intros k Hk. unfold ids, get. replace (Z.to_nat k) with (S (Z.to_nat (k - 1))) by lia. simpl.
    rewrite <-app_assoc, lookup_total_app_r, lookup_total_app_l by lens. apply list_elem_of_lookup_total_2. lens. }
  apply (midl_search_ok _ (fun k => CMP v (mid (get ids k)))); [lia|lia| |].
  - intros k Hk. rewrite rd_ok, option_bind_Some_eq by (unfold ids; rewrite len_cons, !len_app; pose proof (len_nonneg rest); lia).
    split; [done|]. unfold CMP. split.
    + intros Hkp. specialize (Hlo k ltac:(lia)). case_if; [lia|]. case_if; lia.
    + intros Hkp. assert (v < mid (get ids k)) as Hlt; [|case_if; lia].
      destruct l2 as [|w l2]; [unfold len in *; simpl in *; lia|].
      apply StronglySorted_app_1_r in Hs. apply StronglySorted_cons in Hs as [Hw _].
      apply Forall_cons in H2 as [Hv _]. rewrite Forall_forall in Hw.
      assert (get ids k ∈ l2) as Hk2.
      { unfold ids, get. replace (Z.to_nat k) with (S (Z.to_nat (k - 1))) by lia. simpl.
        rewrite <-app_assoc, lookup_total_app_r by lens. simpl.
        replace (Z.to_nat (k - 1) - length l1)%nat with (S (Z.to_nat (k - 2 - len l1))) by lens. simpl.
        rewrite len_cons in Hk. rewrite lookup_total_app_l by lens. apply list_elem_of_lookup_total_2. lens. }
      specialize (Hw _ Hk2). lia.
  - intros Hp. rewrite Forall_forall in H2. specialize (H2 _ (Hin (len l1 + 1) ltac:(lia))).
    unfold CMP. case_if; [lia|]. case_if; lia.
Qed.

(** The part of [mdb_mid2l_insert] after the search, for an ID that is not there. *)
Lemma mid2l_insert_new h l1 l2 rest e :
  StronglySorted (fun x y => mid x < mid y) (l1 ++ l2) ->
  Forall (fun x => mid x < mid e) l1 -> Forall (fun x => mid e <= mid x) l2 ->
  len (l1 ++ l2) + 2 <= len (h :: (l1 ++ l2) ++ rest) ->
  mid e ∉ (mid <$> l1 ++ l2) -> exists rc ids',
    (if MDB_IDL_UM_MAX <=? len (l1 ++ l2) then Some (-2, h :: (l1 ++ l2) ++ rest)
     else ids ← wr (h :: (l1 ++ l2) ++ rest) 0 (mkID2 (len (l1 ++ l2) + 1) (mptr h));
          ids ← shift_cells (Z.to_nat (len (l1 ++ l2) + 1 - (len l1 + 1))) ids (len (l1 ++ l2) + 1);
          ids ← wr ids (len l1 + 1) e; Some (0, ids)) = Some (rc, ids') /\
    ((MDB_IDL_UM_MAX <= len (l1 ++ l2) /\ rc = -2 /\ ids' = h :: (l1 ++ l2) ++ rest) \/
     (len (l1 ++ l2) < MDB_IDL_UM_MAX /\ rc = 0 /\
      exists l', id2l_ok ids' l' /\ l' ≡ₚ e :: l1 ++ l2 /\ len ids' = len (h :: (l1 ++ l2) ++ rest))).
Proof.
  intros Hs H1 H2 Hroom Hnot. pose proof (len_nonneg l1). pose proof (len_nonneg l2).
  destruct (MDB_IDL_UM_MAX <=? len (l1 ++ l2)) eqn:Em; zb; [eexists _, _; split; [done|by left]|].
    rewrite wr_ok, option_bind_Some_eq by (rewrite len_cons; pose proof (len_nonneg ((l1 ++ l2) ++ rest)); lia).
    destruct rest as [|y rest]; [rewrite len_cons, !len_app in Hroom; unfold len in *; simpl in *; lia|].
    set (h' := mkID2 _ _). change (set (h :: (l1 ++ l2) ++ y :: rest) 0 h') with (h' :: (l1 ++ l2) ++ y :: rest).
    replace (Z.to_nat (len (l1 ++ l2) + 1 - (len l1 + 1))) with (length l2) by lens.
    replace (len (l1 ++ l2) + 1) with (len (h' :: l1) + len l2) by lens.
    destruct (shift_cells_ok (h' :: l1) l2 rest y) as [z Hz]. cbn [app] in Hz. rewrite app_assoc in Hz. rewrite Hz.
    rewrite option_bind_Some_eq. replace (len l1 + 1) with (len (h' :: l1)) by lens.
    change (h' :: l1 ++ z :: l2 ++ rest) with ((h' :: l1) ++ z :: l2 ++ rest). rewrite wr_at, option_bind_Some_eq.
    eexists _, _. split; [done|]. right. split_and!; [done|done|]. exists (l1 ++ e :: l2). split_and!.
    - split.
      + apply StronglySorted_app in Hs as (Hc & Hs1 & Hs2). apply StronglySorted_app_2; [|done|].
        * rewrite Forall_forall in H1. intros x w Hx [->|Hw]%elem_of_cons; [by apply H1|by apply Hc].
        * apply StronglySorted_cons. split; [|done]. apply Forall_forall. intros x Hx. rewrite Forall_forall in H2.
          specialize (H2 x Hx). destruct (decide (mid e = mid x)) as [Heq|]; [|lia]. exfalso. apply Hnot.
          rewrite fmap_app, elem_of_app. right. rewrite Heq. by apply list_elem_of_fmap_2.
      + exists h', rest. simpl. rewrite <-app_assoc. split; [done|]. lens.
    - by rewrite <-Permutation_middle.
    - unfold len. rewrite !length_app. cbn [length]. rewrite !length_app. cbn [length]. lia.
Qed.

Lemma not_in_split l1 w l2 e :
  StronglySorted (fun x y => mid x < mid y) (l1 ++ w :: l2) ->
  Forall (fun x => mid x < mid e) l1 -> Forall (fun x => mid e <= mid x) (w :: l2) ->
  mid e <> mid w -> mid e ∉ (mid <$> l1 ++ w :: l2).
Proof.
  intros Hs H1 H2 Hne. rewrite Forall_forall in H1. rewrite fmap_app, elem_of_app.
  intros [(x & Hx & Hin)%list_elem_of_fmap|Hin]; [specialize (H1 x Hin); lia|].
  rewrite fmap_cons, elem_of_cons in Hin. destruct Hin as [?|(y & Hy & Hin)%list_elem_of_fmap]; [done|].
  apply StronglySorted_app_1_r, StronglySorted_cons in Hs as [Hx _]. rewrite Forall_forall in Hx.
  specialize (Hx y Hin). apply Forall_cons in H2 as [? _]. lia.
Qed.

(** C39.  Inserting a page into a dirty list: for an ascending list, [mdb_mid2l_insert]
    returns -1 and changes nothing if the ID is present, -2 and changes nothing
    if the list is full, and otherwise 0 with the pair inserted so that the list is
    ascending again; it stays inside an array with one free cell. *)
Theorem mdb_mid2l_insert_spec (ids l : list MDB_ID2) (e : MDB_ID2)
  (Hok : id2l_ok ids l) (Hlen : len l < 2 ^ 31) (Hroom : len l + 2 <= len ids) :
  exists rc ids', mdb_mid2l_insert ids e = Some (rc, ids') /\
    ((mid e ∈ (mid <$> l) /\ rc = -1 /\ ids' = ids) \/
     (~ (mid e ∈ (mid <$> l)) /\ MDB_IDL_UM_MAX <= len l /\ rc = -2 /\ ids' = ids) \/
     (~ (mid e ∈ (mid <$> l)) /\ len l < MDB_IDL_UM_MAX /\ rc = 0 /\
      exists l', id2l_ok ids' l' /\ l' ≡ₚ e :: l /\ len ids' = len ids)).
Proof.
  destruct Hok as (Hs & h & rest & -> & Hh). destruct (ascending_split (mid e) l Hs) as (l1 & l2 & -> & H1 & H2).
  unfold mdb_mid2l_insert. rewrite mdb_mid2l_search_ok by done. rewrite option_bind_Some_eq.
  pose proof (len_nonneg l1). pose proof (len_nonneg l2).
  destruct (len l1 + 1 <? 1) eqn:E; zb; [lia|].
  change (rd (h :: (l1 ++ l2) ++ rest) 0) with (Some h). rewrite option_bind_Some_eq, Hh.
  pose proof (mid2l_insert_new h l1 l2 rest e Hs H1 H2 Hroom) as Hins.
  destruct (len l1 + 1 <=? len (l1 ++ l2)) eqn:E1; zb.
  - destruct l2 as [|w l2]; [rewrite len_app in E1; unfold len in E1; simpl in E1; lia|].
    assert (rd (h :: (l1 ++ w :: l2) ++ rest) (len l1 + 1) = Some w) as ->.
    { replace (h :: (l1 ++ w :: l2) ++ rest) with ((h :: l1) ++ w :: l2 ++ rest) by (simpl; by rewrite <-app_assoc).
      rewrite <-(len_cons h l1). apply rd_at. }
    rewrite !option_bind_Some_eq. destruct (mid w =? mid e) eqn:Ed; zb.
    + eexists _, _. split; [done|]. left. split_and!; [|done|done]. rewrite <-Ed. apply list_elem_of_fmap_2.
      rewrite elem_of_app. right. left.
    + pose proof (not_in_split l1 w l2 e Hs H1 H2 ltac:(congruence)) as Hn2.
      destruct (Hins Hn2) as (rc & ids' & -> & [(? & -> & ->)|(? & -> & Hl')]); eexists _, _; (split; [done|]); right; [by left|by right].
  - rewrite option_bind_Some_eq. assert (l2 = []) as -> by (destruct l2; [done|rewrite len_app in E1; unfold len in E1; simpl in E1; lia]).
    assert (mid e ∉ (mid <$> l1 ++ [])) as Hn.
    { rewrite app_nil_r. intros (x & Hx & Hin)%list_elem_of_fmap. rewrite Forall_forall in H1. specialize (H1 x Hin). lia. }
    destruct (Hins Hn) as (rc & ids' & -> & [(? & -> & ->)|(? & -> & Hl')]); eexists _, _; (split; [done|]); right; [by left|by right].
Qed.

Lemma mdb_mid2l_insert_spec_witness :
  let ids := [mkID2 2 0; mkID2 4 40; mkID2 9 90; mkID2 0 0] in
  let l := [mkID2 4 40; mkID2 9 90] in
  let e := mkID2 7 70 in
  exists rc ids', mdb_mid2l_insert ids e = Some (rc, ids') /\
    ((mid e ∈ (mid <$> l) /\ rc = -1 /\ ids' = ids) \/
     (~ (mid e ∈ (mid <$> l)) /\ MDB_IDL_UM_MAX <= len l /\ rc = -2 /\ ids' = ids) \/
     (~ (mid e ∈ (mid <$> l)) /\ len l < MDB_IDL_UM_MAX /\ rc = 0 /\
      exists l', id2l_ok ids' l' /\ l' ≡ₚ e :: l /\ len ids' = len ids)).
Proof.
  apply (mdb_mid2l_insert_spec [mkID2 2 0; mkID2 4 40; mkID2 9 90; mkID2 0 0] [mkID2 4 40; mkID2 9 90] (mkID2 7 70)).
  - split; [|by exists (mkID2 2 0), [mkID2 0 0]].
    repeat apply SSorted_cons || apply Forall_cons_2 || apply Forall_nil_2 || apply SSorted_nil; simpl; lia.
  - reflexivity.
  - unfold len. simpl. lia.
Defined.
