(* ===== verification/Natpmp.v ===== *)
(** * NAT-PMP port mapping: [natpmp/natpmp.h], [natpmp/natpmp.c]

    The client's port mapper talks NAT-PMP to the gateway: one request at a time, sent
    again with doubled delays until an answer arrives or the ninth try times out.
    The outcomes of system calls ([socket], [send], [recvfrom], [gettimeofday]) are
    arguments; the datagrams sent are part of each result.  A null pointer is [None].
    The reception buffer's bytes past the received ones are what the stack held
    before ([stack]). *)

From S2P Require Import Prelude.

Definition NATPMP_ERR_INVALIDARGS : Z := -1.
Definition NATPMP_ERR_SOCKETERROR : Z := -2.
Definition NATPMP_ERR_CANNOTGETGATEWAY : Z := -3.
Definition NATPMP_ERR_CLOSEERR : Z := -4.
Definition NATPMP_ERR_RECVFROM : Z := -5.
Definition NATPMP_ERR_NOPENDINGREQ : Z := -6.
Definition NATPMP_ERR_NOGATEWAYSUPPORT : Z := -7.
Definition NATPMP_ERR_CONNECTERR : Z := -8.
Definition NATPMP_ERR_WRONGPACKETSOURCE : Z := -9.
Definition NATPMP_ERR_SENDERR : Z := -10.
Definition NATPMP_ERR_FCNTLERROR : Z := -11.
Definition NATPMP_ERR_GETTIMEOFDAYERR : Z := -12.
Definition NATPMP_ERR_UNSUPPORTEDVERSION : Z := -14.
Definition NATPMP_ERR_UNSUPPORTEDOPCODE : Z := -15.
Definition NATPMP_ERR_UNDEFINEDERROR : Z := -49.
Definition NATPMP_ERR_NOTAUTHORIZED : Z := -51.
Definition NATPMP_ERR_NETWORKFAILURE : Z := -52.
Definition NATPMP_ERR_OUTOFRESOURCES : Z := -53.
Definition NATPMP_TRYAGAIN : Z := -100.

Definition NATPMP_PROTOCOL_UDP : Z := 1.
Definition NATPMP_PROTOCOL_TCP : Z := 2.

Record timeval := mkTv { tv_sec : Z; tv_usec : Z }.

Record natpmp_t := mkNatpmp {
  np_s : Z;
  np_gateway : Z;
  np_has_pending_request : bool;
  np_pending_request : list Z;
  np_pending_request_len : nat;
  np_try_number : Z;
  np_retry_time : timeval
}.

(** The [pnu] union of a response: which member was written last. *)
Inductive Pnu :=
  | publicaddress (addr : Z)
  | newportmapping (privateport mappedpublicport lifetime : Z).

Record natpmpresp_t := mkResp { r_type : Z; r_resultcode : Z; r_epoch : Z; r_pnu : Pnu }.

(** Network byte order. *)
Definition be_store (n : nat) (w : Z) : list Z := reverse (le_store n w).
Definition be_load (l : list Z) : Z := le_load (reverse l).

(** ** Opening and closing *)

(** [sock] is the result of [socket], [nonblock] of the calls that make it
    non-blocking, [gw] of [getdefaultgateway], [conn] of [connect]. *)
Definition initnatpmp (p : option natpmp_t) (forcegw : bool) (forcedgw : Z)
    (sock : Z) (nonblock : bool) (gw : option Z) (conn : Z) : Z * option natpmp_t :=
  match p with
  | None => (NATPMP_ERR_INVALIDARGS, None)
  | Some _ =>
      let cleared s g := mkNatpmp s g false (replicate 12 0) 0 0 (mkTv 0 0) in
      if sock <? 0 then (NATPMP_ERR_SOCKETERROR, Some (cleared sock 0))
      else if negb nonblock then (NATPMP_ERR_FCNTLERROR, Some (cleared sock 0))
      else
        match (if forcegw then Some forcedgw else gw) with
        | None => (NATPMP_ERR_CANNOTGETGATEWAY, Some (cleared sock 0))
        | Some g => (if conn <? 0 then NATPMP_ERR_CONNECTERR else 0, Some (cleared sock g))
        end
  end.

Definition closenatpmp (p : option natpmp_t) (close : Z) : Z :=
  match p with
  | None => NATPMP_ERR_INVALIDARGS
  | Some _ => if close <? 0 then NATPMP_ERR_CLOSEERR else 0
  end.

(** ** Sending

    [sent] is the result of [send]; the datagram is part of the result. *)

Definition sendpendingrequest (p : natpmp_t) (sent : Z) : Z * list (list Z) :=
  (if sent <? 0 then NATPMP_ERR_SENDERR else sent, [take (np_pending_request_len p) (np_pending_request p)]).

Definition sendnatpmprequest (p : natpmp_t) (sent : Z) (now : timeval) : Z * natpmp_t * list (list Z) :=
  let p1 := mkNatpmp (np_s p) (np_gateway p) true (np_pending_request p) (np_pending_request_len p) 1 (np_retry_time p) in
  let '(n, out) := sendpendingrequest p1 sent in
  let usec := tv_usec now + 250000 in
  let retry := if 1000000 <=? usec then mkTv (tv_sec now + 1) (usec - 1000000) else mkTv (tv_sec now) usec in
  (n, mkNatpmp (np_s p) (np_gateway p) true (np_pending_request p) (np_pending_request_len p) 1 retry, out).

Definition set_request (p : natpmp_t) (bytes : list Z) (len : nat) : natpmp_t :=
  mkNatpmp (np_s p) (np_gateway p) (np_has_pending_request p) (buf_write (np_pending_request p) 0 bytes) len
    (np_try_number p) (np_retry_time p).

Definition sendpublicaddressrequest (p : option natpmp_t) (sent : Z) (now : timeval) :
    Z * option natpmp_t * list (list Z) :=
  match p with
  | None => (NATPMP_ERR_INVALIDARGS, None, [])
  | Some p =>
      let '(n, p', out) := sendnatpmprequest (set_request p [0; 0] 2) sent now in (n, Some p', out)
  end.

Definition sendnewportmappingrequest (p : option natpmp_t) (protocol privateport publicport lifetime : Z)
    (sent : Z) (now : timeval) : Z * option natpmp_t * list (list Z) :=
  match p with
  | None => (NATPMP_ERR_INVALIDARGS, None, [])
  | Some p =>
      if negb (protocol =? NATPMP_PROTOCOL_TCP) && negb (protocol =? NATPMP_PROTOCOL_UDP)
      then (NATPMP_ERR_INVALIDARGS, Some p, [])
      else
        let bytes := [0; u8 protocol; 0; 0] ++ be_store 2 privateport ++ be_store 2 publicport ++ be_store 4 lifetime in
        let '(n, p', out) := sendnatpmprequest (set_request p bytes 12) sent now in (n, Some p', out)
  end.

(** [now = None]: [gettimeofday] failed. *)
Definition getnatpmprequesttimeout (p : option natpmp_t) (now : option timeval) : Z * option timeval :=
  match p with
  | None => (NATPMP_ERR_INVALIDARGS, None)
  | Some p =>
      if negb (np_has_pending_request p) then (NATPMP_ERR_NOPENDINGREQ, None)
      else
        match now with
        | None => (NATPMP_ERR_GETTIMEOFDAYERR, None)
        | Some now =>
            let sec := tv_sec (np_retry_time p) - tv_sec now in
            let usec := tv_usec (np_retry_time p) - tv_usec now in
            (0, Some (if usec <? 0 then mkTv (sec - 1) (usec + 1000000) else mkTv sec usec))
        end
  end.

(** ** Receiving *)

Inductive Errno := EWOULDBLOCK | ECONNREFUSED | OtherErrno.

(** [recvfrom]: an error, or a datagram and its source address. *)
Inductive Recv := RecvError (e : Errno) | RecvData (addr : Z) (data : list Z).

(** The 16-byte buffer after the reception. *)
Definition recv_buf (stack data : list Z) : list Z := buf_write stack 0 (take 16 data).

Definition sub (l : list Z) (i n : nat) : list Z := take n (drop i l).

Definition readnatpmpresponse (p : natpmp_t) (response : natpmpresp_t) (stack : list Z) (r : Recv) : Z * natpmpresp_t :=
  match r with
  | RecvError EWOULDBLOCK => (NATPMP_TRYAGAIN, response)
  | RecvError ECONNREFUSED => (NATPMP_ERR_NOGATEWAYSUPPORT, response)
  | RecvError OtherErrno => (NATPMP_ERR_RECVFROM, response)
  | RecvData addr data =>
      if negb (addr =? np_gateway p) then (NATPMP_ERR_WRONGPACKETSOURCE, response)
      else
        let buf := recv_buf stack data in
        let resultcode := be_load (sub buf 2 2) in
        let epoch := be_load (sub buf 4 4) in
        let response := mkResp (r_type response) resultcode epoch (r_pnu response) in
        let b0 := be_load (sub buf 0 1) in
        let b1 := be_load (sub buf 1 1) in
        if negb (b0 =? 0) then (NATPMP_ERR_UNSUPPORTEDVERSION, response)
        else if (b1 <? 128) || (130 <? b1) then (NATPMP_ERR_UNSUPPORTEDOPCODE, response)
        else if negb (resultcode =? 0) then
          ((if resultcode =? 1 then NATPMP_ERR_UNSUPPORTEDVERSION
            else if resultcode =? 2 then NATPMP_ERR_NOTAUTHORIZED
            else if resultcode =? 3 then NATPMP_ERR_NETWORKFAILURE
            else if resultcode =? 4 then NATPMP_ERR_OUTOFRESOURCES
            else if resultcode =? 5 then NATPMP_ERR_UNSUPPORTEDOPCODE
            else NATPMP_ERR_UNDEFINEDERROR), response)
        else
          let pnu := if b1 =? 128 then publicaddress (le_load (sub buf 8 4))
                     else newportmapping (be_load (sub buf 8 2)) (be_load (sub buf 10 2)) (be_load (sub buf 12 4)) in
          (0, mkResp (Z.land b1 0x7f) resultcode epoch pnu)
  end.

(** [timercmp(&now, &retry_time, >=)]. *)
Definition timer_ge (a b : timeval) : bool :=
  if tv_sec a =? tv_sec b then tv_usec b <=? tv_usec a else tv_sec b <=? tv_sec a.

Definition retry_delay (try_number : Z) : Z := 250 * Z.shiftl 1 try_number.

Definition readnatpmpresponseorretry (p : option natpmp_t) (response : option natpmpresp_t) (stack : list Z)
    (r : Recv) (now : timeval) (sent : Z) : Z * option natpmp_t * option natpmpresp_t * list (list Z) :=
  match p, response with
  | Some p, Some response =>
      if negb (np_has_pending_request p) then (NATPMP_ERR_NOPENDINGREQ, Some p, Some response, [])
      else
        let '(n, response) := readnatpmpresponse p response stack r in
        if n <? 0 then
          if n =? NATPMP_TRYAGAIN then
            if timer_ge now (np_retry_time p) then
              if 9 <=? np_try_number p then (NATPMP_ERR_NOGATEWAYSUPPORT, Some p, Some response, [])
              else
                let delay := retry_delay (np_try_number p) in
                let sec := tv_sec (np_retry_time p) + delay ÷ 1000 in
                let usec := tv_usec (np_retry_time p) + Z.rem delay 1000 * 1000 in
                let retry := if 1000000 <=? usec then mkTv (sec + 1) (usec - 1000000) else mkTv sec usec in
                let p := mkNatpmp (np_s p) (np_gateway p) (np_has_pending_request p) (np_pending_request p)
                           (np_pending_request_len p) (np_try_number p + 1) retry in
                let '(r, out) := sendpendingrequest p sent in
                (if r <? 0 then r else n, Some p, Some response, out)
            else (n, Some p, Some response, [])
          else (n, Some p, Some response, [])
        else
          (n, Some (mkNatpmp (np_s p) (np_gateway p) false (np_pending_request p)
                      (np_pending_request_len p) (np_try_number p) (np_retry_time p)), Some response, [])
  | _, _ => (NATPMP_ERR_INVALIDARGS, p, response, [])
  end.

(** ** Byte order *)

Lemma be_load_store n w : 0 <= w < 2 ^ (8 * Z.of_nat n) -> be_load (be_store n w) = w.
Proof. intros Hw. unfold be_load, be_store. rewrite reverse_involutive. by apply le_load_store. Qed.

Lemma length_be_store n w : length (be_store n w) = n.
Proof. unfold be_store. by rewrite length_reverse, length_le_store. Qed.

(** ** Time *)

Definition us (t : timeval) : Z := tv_sec t * 1000000 + tv_usec t.
Definition tv_ok (t : timeval) : Prop := 0 <= tv_usec t < 1000000.

Lemma timer_ge_us a b : tv_ok a -> tv_ok b -> timer_ge a b = (us b <=? us a).
Proof.
  unfold tv_ok, timer_ge, us. intros Ha Hb. apply eq_true_iff_eq. case_if; rewrite !Z.leb_le; [|]; lia.
Qed.

(** Carrying over a full second. *)
Lemma tv_carry sec usec :
  0 <= usec < 2000000 ->
  let t := if 1000000 <=? usec then mkTv (sec + 1) (usec - 1000000) else mkTv sec usec in
  tv_ok t /\ us t = sec * 1000000 + usec.
Proof. intros H. unfold tv_ok, us. case_if; simpl; lia. Qed.

Lemma retry_delay_pos n : 0 <= n -> retry_delay n = 250 * 2 ^ n.
Proof. intros Hn. unfold retry_delay. by rewrite Z.shiftl_1_l. Qed.

(** ** The retry schedule *)

(** A request sent at [t0], and now at its [try_number]-th try: the next one is due
    [250 * (2^try - 1)] milliseconds after [t0]. *)
Definition retry_inv (t0 : timeval) (p : natpmp_t) : Prop :=
  np_has_pending_request p = true /\ 1 <= np_try_number p <= 9 /\ tv_ok (np_retry_time p) /\
  us (np_retry_time p) = us t0 + 250000 * (2 ^ np_try_number p - 1).

Lemma send_retry_inv p sent t0 :
  tv_ok t0 -> let '(n, p', out) := sendnatpmprequest p sent t0 in
  retry_inv t0 p' /\ np_try_number p' = 1 /\ np_pending_request p' = np_pending_request p /\
  np_pending_request_len p' = np_pending_request_len p /\
  out = [take (np_pending_request_len p) (np_pending_request p)].
Proof.
  intros Ht. unfold sendnatpmprequest, sendpendingrequest. cbv zeta.
  destruct (tv_carry (tv_sec t0) (tv_usec t0 + 250000)) as [H1 H2]; [unfold tv_ok in Ht; lia|].
  unfold retry_inv. simpl. split_and!; try done; try lia. rewrite H2. unfold us. change (2 ^ 1) with 2. lia.
Qed.

(** One poll that finds no datagram. *)
Definition poll (stack : list Z) (p : natpmp_t) (resp : natpmpresp_t) (now : timeval) (sent : Z) :=
  readnatpmpresponseorretry (Some p) (Some resp) stack (RecvError EWOULDBLOCK) now sent.

Definition request_of (p : natpmp_t) : list Z := take (np_pending_request_len p) (np_pending_request p).

(** What a poll at [now], in microseconds, has to answer when [k] datagrams were sent, the first
    at [t0]: nothing is due before [250 * (2^k - 1)] ms; then the request is sent again, or the
    ninth was the last. *)
Definition due_answer (t0 : Z) (request : list Z) (k now sent : Z) : Z * list (list Z) :=
  if now <? t0 + 250000 * (2 ^ k - 1) then (NATPMP_TRYAGAIN, [])
  else if k =? 9 then (NATPMP_ERR_NOGATEWAYSUPPORT, [])
  else (if sent <? 0 then NATPMP_ERR_SENDERR else NATPMP_TRYAGAIN, [request]).

(** The answers of a row of polls, from the times alone. *)
Fixpoint schedule (t0 : Z) (request : list Z) (k : Z) (l : list (timeval * Z)) : list (Z * list (list Z)) :=
  match l with
  | [] => []
  | (now, sent) :: l =>
      let answer := due_answer t0 request k (us now) sent in
      answer :: schedule t0 request (k + Z.of_nat (length (snd answer))) l
  end.

Lemma poll_ok stack p resp now sent t0 :
  retry_inv t0 p -> tv_ok now ->
  let answer := due_answer (us t0) (request_of p) (np_try_number p) (us now) sent in
  exists p', poll stack p resp now sent = (fst answer, Some p', Some resp, snd answer) /\ retry_inv t0 p' /\ request_of p' = request_of p /\
    np_try_number p' = np_try_number p + Z.of_nat (length (snd answer)).
Proof.
  intros (Hp & Htry & Hok & Hus) Hnow. unfold poll, readnatpmpresponseorretry, due_answer. rewrite Hp. cbn [negb readnatpmpresponse].
  change (NATPMP_TRYAGAIN <? 0) with true. change (NATPMP_TRYAGAIN =? NATPMP_TRYAGAIN) with true. cbv iota zeta.
  rewrite timer_ge_us, <-Hus, (Z.leb_antisym (us now)) by done. destruct (us now <? us (np_retry_time p)) eqn:E; cbn [negb].
  - exists p. simpl. split; [done|]. split; [done|]. split; [done|lia].
  - destruct (np_try_number p =? 9) eqn:E9; zb.
    + rewrite E9. exists p. simpl. split; [done|]. split; [done|]. split; [done|lia].
    + rewrite (proj2 (Z.leb_gt 9 (np_try_number p))) by lia.
      rewrite retry_delay_pos by lia. pose proof (Z.pow_pos_nonneg 2 (np_try_number p) ltac:(lia) ltac:(lia)) as H2.
      rewrite Z.quot_div_nonneg, Z.rem_mod_nonneg by lia.
      pose proof (Z.div_mod (250 * 2 ^ np_try_number p) 1000 ltac:(lia)) as Hdm.
      pose proof (Z.mod_pos_bound (250 * 2 ^ np_try_number p) 1000 ltac:(lia)) as Hmb.
      remember (250 * 2 ^ np_try_number p) as D eqn:HD. remember (D / 1000) as dq. remember (D mod 1000) as dr.
      destruct (tv_carry (tv_sec (np_retry_time p) + dq) (tv_usec (np_retry_time p) + dr * 1000)) as [H3 H4];
        [unfold tv_ok in Hok; lia|].
      unfold sendpendingrequest. cbn [np_pending_request np_pending_request_len]. eexists. split.
      { cbn [fst snd]. destruct (sent <? 0) eqn:Es; [reflexivity|]. by rewrite Es. }
      cbn [snd length]. unfold retry_inv, request_of. cbn [np_has_pending_request np_try_number np_retry_time np_pending_request np_pending_request_len].
      split; [|split; [done|lia]]. split; [done|]. split; [lia|]. split; [apply H3|]. rewrite H4, Z.pow_add_r by lia. unfold us in *. lia.
Qed.

(** A row of polls: the result and the datagrams of each. *)
Fixpoint polls (stack : list Z) (p : natpmp_t) (resp : natpmpresp_t) (l : list (timeval * Z)) : list (Z * list (list Z)) :=
  match l with
  | [] => []
  | (now, sent) :: r =>
      match poll stack p resp now sent with
      | (ret, Some p', Some resp', out) => (ret, out) :: polls stack p' resp' r
      | (ret, _, _, out) => [(ret, out)]
      end
  end.

Lemma polls_ok stack resp l p t0 : retry_inv t0 p -> Forall (fun x => tv_ok x.1) l ->
  polls stack p resp l = schedule (us t0) (request_of p) (np_try_number p) l.
Proof.
  revert p. induction l as [|[now sent] l IH]; intros p Hinv Hl; [done|]. apply Forall_cons in Hl as [Hnow Hl]. cbn [polls schedule]. cbv zeta.
  destruct (poll_ok stack p resp now sent t0 Hinv Hnow) as (p' & -> & Hinv' & Hreq & Htry). rewrite (IH p' Hinv' Hl), Hreq, Htry. by destruct (due_answer _ _ _ _ _).
Qed.

Lemma schedule_bound t0 request l : forall k, k <= 9 -> k + Z.of_nat (length (concat (map snd (schedule t0 request k l)))) <= 9.
Proof.
  induction l as [|[now sent] l IH]; intros k Hk; cbn [schedule map concat]; [simpl; lia|]. cbv zeta. cbn [map concat]. rewrite length_app.
  set (a := due_answer _ _ _ _ _). assert (k + Z.of_nat (length (snd a)) <= 9) as Ha.
  { unfold a, due_answer. destruct (_ <? _); [simpl; lia|]. destruct (k =? 9) eqn:E; zb; simpl; lia. }
  specialize (IH _ Ha). lia.
Qed.


Definition sample_natpmp : natpmp_t := mkNatpmp 5 0x0101A8C0 false (replicate 12 0) 2 0 (mkTv 0 0).
Definition sample_resp : natpmpresp_t := mkResp 0 0 0 (publicaddress 0).


(** The schedule of those polls: none before 250 ms, then a datagram, then one that cannot be sent. *)
Example schedule_sample :
  schedule (us (mkTv 100 900000)) [0; 0] 1 [(mkTv 101 0, 2); (mkTv 101 149999, 2); (mkTv 101 150000, 2); (mkTv 300 0, -1)] =
  [(NATPMP_TRYAGAIN, []); (NATPMP_TRYAGAIN, []); (NATPMP_TRYAGAIN, [[0; 0]]); (NATPMP_ERR_SENDERR, [[0; 0]])].
Proof. reflexivity. Qed.

(** ** The packets *)

Lemma sub_at (a b c : list Z) (i n : nat) : length a = i -> length b = n -> sub (a ++ b ++ c) i n = b.
Proof. intros <- <-. unfold sub. by rewrite drop_app_length, take_app_length. Qed.

(** Requests on the wire: an accepted mapping request sends exactly one
    datagram, of 12 bytes, with version 0, the protocol as opcode, two
    reserved zero bytes and the two ports and the lifetime in network byte order; any other
    protocol is refused and nothing is sent. *)
Theorem natpmp_request_encoding (p : natpmp_t) (protocol privateport publicport lifetime sent : Z) (now : timeval)
  (Hreq : length (np_pending_request p) = 12%nat)
  (Hpriv : 0 <= privateport < 2 ^ 16) (Hpub : 0 <= publicport < 2 ^ 16) (Hlife : 0 <= lifetime < 2 ^ 32) :
  let '(ret, _, out) := sendnewportmappingrequest (Some p) protocol privateport publicport lifetime sent now in
  if (protocol =? NATPMP_PROTOCOL_TCP) || (protocol =? NATPMP_PROTOCOL_UDP) then
    exists d, out = [d] /\ length d = 12%nat /\ sub d 0 4 = [0; protocol; 0; 0] /\
      be_load (sub d 4 2) = privateport /\ be_load (sub d 6 2) = publicport /\ be_load (sub d 8 4) = lifetime /\
      ret = (if sent <? 0 then NATPMP_ERR_SENDERR else sent)
  else ret = NATPMP_ERR_INVALIDARGS /\ out = [].
Proof.
  unfold sendnewportmappingrequest. rewrite <-negb_orb.
  destruct ((protocol =? NATPMP_PROTOCOL_TCP) || (protocol =? NATPMP_PROTOCOL_UDP)) eqn:E; cbn [negb]; [|done].
  assert (u8 protocol = protocol) as ->.
  { unfold NATPMP_PROTOCOL_TCP, NATPMP_PROTOCOL_UDP in E. zb. apply Z.mod_small. destruct E; zb; lia. }
  set (b := [0; protocol; 0; 0]). set (w := b ++ _ ++ _ ++ _).
  assert (length w = 12%nat) as Hw by (unfold w; rewrite !length_app, !length_be_store; done).
  unfold sendnatpmprequest, sendpendingrequest, set_request. cbv zeta beta iota.
  cbn [np_pending_request np_pending_request_len]. eexists. split; [done|].
  assert (take 12 (buf_write (np_pending_request p) 0 w) = w) as ->.
  { unfold buf_write. rewrite take_0, Hw, drop_ge by lia. rewrite app_nil_r, app_nil_l. apply take_ge. lia. }
  split; [done|]. unfold w. split_and!.
  - done.
  - rewrite (sub_at b (be_store 2 privateport)) by (done || apply length_be_store). by apply be_load_store.
  - rewrite app_assoc, (sub_at _ (be_store 2 publicport)) by (rewrite ?length_app, ?length_be_store; done). by apply be_load_store.
  - rewrite 2!app_assoc, <-(app_nil_r (be_store 4 lifetime)), (sub_at _ (be_store 4 lifetime)) by (rewrite ?length_app, ?length_be_store; done).
    by apply be_load_store.
  - done.
Qed.

Lemma natpmp_request_encoding_witness :
  let '(ret, _, out) := sendnewportmappingrequest (Some sample_natpmp) 2 411 1412 3600 12 (mkTv 1 0) in
  if (2 =? NATPMP_PROTOCOL_TCP) || (2 =? NATPMP_PROTOCOL_UDP) then
    exists d, out = [d] /\ length d = 12%nat /\ sub d 0 4 = [0; 2; 0; 0] /\
      be_load (sub d 4 2) = 411 /\ be_load (sub d 6 2) = 1412 /\ be_load (sub d 8 4) = 3600 /\
      ret = (if 12 <? 0 then NATPMP_ERR_SENDERR else 12)
  else ret = NATPMP_ERR_INVALIDARGS /\ out = [].
Proof. apply (natpmp_request_encoding sample_natpmp 2 411 1412 3600 12 (mkTv 1 0)); [reflexivity|lia..]. Defined.

(** A gateway's answer to a mapping request. *)
Definition mapping_reply (op epoch privateport publicport lifetime : Z) : list Z :=
  [0; op] ++ be_store 2 0 ++ be_store 4 epoch ++ be_store 2 privateport ++ be_store 2 publicport ++ be_store 4 lifetime.

(** Reading a complete reply from the gateway. *)
Lemma natpmp_full_reply p resp stack op epoch privateport publicport lifetime :
  length stack = 16%nat -> 129 <= op <= 130 -> 0 <= epoch < 2 ^ 32 -> 0 <= privateport < 2 ^ 16 ->
  0 <= publicport < 2 ^ 16 -> 0 <= lifetime < 2 ^ 32 ->
  readnatpmpresponse p resp stack (RecvData (np_gateway p) (mapping_reply op epoch privateport publicport lifetime)) =
  (0, mkResp (op - 128) 0 epoch (newportmapping privateport publicport lifetime)).
Proof.
  intros Hstack Hop Hep Hpriv Hpub Hlife. unfold readnatpmpresponse. rewrite Z.eqb_refl. cbn [negb].
  set (w := mapping_reply _ _ _ _ _).
  assert (recv_buf stack w = w) as ->.
  { assert (length w = 16%nat) as Hw by (unfold w, mapping_reply; rewrite !length_app, !length_be_store; done).
    unfold recv_buf, buf_write. rewrite take_0, (take_ge w) by lia. rewrite drop_ge by lia. rewrite app_nil_l. apply app_nil_r. }
  unfold w, mapping_reply. change [0; op] with ([0] ++ [op]). rewrite <-(app_nil_r (be_store 4 lifetime)).
  set (A := be_store 2 0). set (B := be_store 4 epoch). set (C := be_store 2 privateport). set (D := be_store 2 publicport).
  set (F := be_store 4 lifetime). rewrite <-!app_assoc.
  assert (length A = 2%nat /\ length B = 4%nat /\ length C = 2%nat /\ length D = 2%nat /\ length F = 4%nat) as (LA & LB & LC & LD & LF).
  { unfold A, B, C, D, F. by rewrite !length_be_store. }
  assert (sub ([0] ++ [op] ++ A ++ B ++ C ++ D ++ F ++ []) 2 2 = A) as ->.
  { rewrite (app_assoc [0]). by apply sub_at. }
  assert (sub ([0] ++ [op] ++ A ++ B ++ C ++ D ++ F ++ []) 4 4 = B) as ->.
  { rewrite (app_assoc [0]), (app_assoc _ A). apply sub_at; [|done]. rewrite !length_app, LA. done. }
  assert (sub ([0] ++ [op] ++ A ++ B ++ C ++ D ++ F ++ []) 8 2 = C) as ->.
  { rewrite (app_assoc [0]), (app_assoc _ A), (app_assoc _ B). apply sub_at; [|done]. rewrite !length_app, LA, LB. done. }
  assert (sub ([0] ++ [op] ++ A ++ B ++ C ++ D ++ F ++ []) 10 2 = D) as ->.
  { rewrite (app_assoc [0]), (app_assoc _ A), (app_assoc _ B), (app_assoc _ C). apply sub_at; [|done].
    rewrite !length_app, LA, LB, LC. done. }
  assert (sub ([0] ++ [op] ++ A ++ B ++ C ++ D ++ F ++ []) 12 4 = F) as ->.
  { rewrite (app_assoc [0]), (app_assoc _ A), (app_assoc _ B), (app_assoc _ C), (app_assoc _ D). apply sub_at; [|done].
    rewrite !length_app, LA, LB, LC, LD. done. }
  change (sub ([0] ++ [op] ++ A ++ B ++ C ++ D ++ F ++ []) 0 1) with [0].
  change (sub ([0] ++ [op] ++ A ++ B ++ C ++ D ++ F ++ []) 1 1) with [op].
  unfold A, B, C, D, F. rewrite !be_load_store by lia.
  change (be_load [0]) with 0. replace (be_load [op]) with op by (unfold be_load; simpl; lia).
  cbn [Z.eqb negb]. destruct ((op <? 128) || (130 <? op)) eqn:E1; [zb; destruct E1; zb; lia|].
  destruct (op =? 128) eqn:E2; zb; [lia|].
  assert (Z.land op 127 = op - 128) as ->; [|done].
  assert (op = 129 \/ op = 130) as [->| ->] by lia; done.
Qed.

(** Responses: a complete successful mapping reply from the gateway is read back
    field by field whatever the buffer held before, and clears the pending
    request; the same packet from another address is refused and nothing changes. *)
Theorem natpmp_response_decoding (p : natpmp_t) (resp : natpmpresp_t) (stack : list Z) (now : timeval) (sent : Z)
  (op epoch privateport publicport lifetime addr : Z)
  (Hstack : length stack = 16%nat) (Hpend : np_has_pending_request p = true) (Hop : 129 <= op <= 130)
  (Hep : 0 <= epoch < 2 ^ 32) (Hpriv : 0 <= privateport < 2 ^ 16) (Hpub : 0 <= publicport < 2 ^ 16)
  (Hlife : 0 <= lifetime < 2 ^ 32) :
  readnatpmpresponseorretry (Some p) (Some resp) stack
    (RecvData addr (mapping_reply op epoch privateport publicport lifetime)) now sent =
  if addr =? np_gateway p then
    (0, Some (mkNatpmp (np_s p) (np_gateway p) false (np_pending_request p) (np_pending_request_len p)
                (np_try_number p) (np_retry_time p)),
     Some (mkResp (op - 128) 0 epoch (newportmapping privateport publicport lifetime)), [])
  else (NATPMP_ERR_WRONGPACKETSOURCE, Some p, Some resp, []).
Proof.
  unfold readnatpmpresponseorretry. rewrite Hpend. cbn [negb]. destruct (addr =? np_gateway p) eqn:E.
  - zb. subst addr. by rewrite natpmp_full_reply.
  - unfold readnatpmpresponse. by rewrite E.
Qed.

Lemma natpmp_response_decoding_witness :
  let p := mkNatpmp 5 7 true (replicate 12 0) 12 1 (mkTv 0 0) in
  readnatpmpresponseorretry (Some p) (Some sample_resp) (replicate 16 255)
    (RecvData 7 (mapping_reply 130 1000 411 1412 3600)) (mkTv 0 0) 0 =
  if 7 =? np_gateway p then
    (0, Some (mkNatpmp 5 7 false (replicate 12 0) 12 1 (mkTv 0 0)),
     Some (mkResp (130 - 128) 0 1000 (newportmapping 411 1412 3600)), [])
  else (NATPMP_ERR_WRONGPACKETSOURCE, Some p, Some sample_resp, []).
Proof.
  apply (natpmp_response_decoding (mkNatpmp 5 7 true (replicate 12 0) 12 1 (mkTv 0 0)) sample_resp (replicate 16 255)
    (mkTv 0 0) 0 130 1000 411 1412 3600 7); [reflexivity|reflexivity|lia..].
Defined.

(** The length of a reply is not checked: a one-byte datagram from the gateway is
    accepted as a successful mapping whose ports and lifetime are whatever the stack
    buffer held. *)
Theorem natpmp_short_response (p : natpmp_t) (resp : natpmpresp_t)
  (epoch privateport publicport lifetime : Z)
  (Hep : 0 <= epoch < 2 ^ 32) (Hpriv : 0 <= privateport < 2 ^ 16) (Hpub : 0 <= publicport < 2 ^ 16)
  (Hlife : 0 <= lifetime < 2 ^ 32) :
  readnatpmpresponse p resp (mapping_reply 130 epoch privateport publicport lifetime)
    (RecvData (np_gateway p) [0]) =
  (0, mkResp 2 0 epoch (newportmapping privateport publicport lifetime)).
Proof.
  assert (recv_buf (mapping_reply 130 epoch privateport publicport lifetime) [0] =
          mapping_reply 130 epoch privateport publicport lifetime) as Hbuf by done.
  pose proof (natpmp_full_reply p resp (replicate 16 0) 130 epoch privateport publicport lifetime eq_refl ltac:(lia) Hep Hpriv Hpub Hlife) as H.
  unfold readnatpmpresponse in *. rewrite Hbuf. done.
Qed.

Lemma natpmp_short_response_witness :
  readnatpmpresponse sample_natpmp sample_resp (mapping_reply 130 5 80 81 60)
    (RecvData (np_gateway sample_natpmp) [0]) =
  (0, mkResp 2 0 5 (newportmapping 80 81 60)).
Proof. apply (natpmp_short_response sample_natpmp sample_resp 5 80 81 60); lia. Defined.
