(* ===== verification/IpList.v ===== *)
(** * Lists of address ranges: [client/Ip4Address.cpp], [client/IpList.h],
    [client/IpList.cpp]

    The files of allowed and blocked addresses are lines with an address, a range or a
    network; an [IpList] holds their ranges by first address.  Strings are lists of bytes;
    an access outside a string and moving an iterator before [begin()] are undefined
    ([None]).  A [std::map] is the list of its entries by increasing key. *)

From S2P Require Import Prelude CArray.

(** ** Addresses as text *)

(** The state of the loop: [byte], [bytes], [digitFound], [dotCount]. *)
Definition parse_ip_step (st : Z * Z * bool * Z) (c : Z) : option (Z * Z * bool * Z) :=
  let '(byte, bytes, digitFound, dotCount) := st in
  if (48 <=? c) && (c <=? 57) then
    let byte := u32 (byte * 10 + c - 48) in
    if 255 <? byte then None else Some (byte, bytes, true, dotCount)
  else if c =? 46 then
    if negb digitFound || (dotCount + 1 =? 4) then None
    else Some (0, Z.lor (u32 (Z.shiftl bytes 8)) byte, false, dotCount + 1)
  else None.

Fixpoint parse_ip_loop (st : Z * Z * bool * Z) (s : list Z) : option (Z * Z * bool * Z) :=
  match s with [] => Some st | c :: s => st ← parse_ip_step st c; parse_ip_loop st s end.

(** [parseIpAddress(result, s, start, end)] of the characters from [start] to [end]:
    [None] is the answer [false]. *)
Definition parseIpAddress (s : list Z) : option Z :=
  '(byte, bytes, digitFound, dotCount) ← parse_ip_loop (0, 0, false, 0) s;
  if negb (dotCount =? 3) || negb digitFound then None
  else Some (Z.lor (u32 (Z.shiftl bytes 8)) byte).

Definition isValidIp4 (ip : list Z) : bool :=
  match parseIpAddress ip with Some r => negb (r =? 0) && negb (r =? 0xFFFFFFFF) | None => false end.

Definition printIpAddress (addr : Z) : list Z :=
  print_byte (Z.shiftr addr 24) ++ [46] ++ print_byte (Z.land (Z.shiftr addr 16) 0xFF) ++ [46] ++
  print_byte (Z.land (Z.shiftr addr 8) 0xFF) ++ [46] ++ print_byte (Z.land addr 0xFF).

(** ** The list *)

Record Range := mkRange { rg_end : Z; rg_payload : Z }.
Definition IpListMap := list (Z * list Range).

Definition ERR_LINE_SKIPPED := 1.
Definition ERR_BAD_RANGE := 2.
Definition ERR_ALREADY_EXISTS := 3.
Definition ERR_BAD_FORMAT := 4.
Definition ERR_BAD_NETMASK := 5.

(** [addRange]: the error code (0 for success) and the map. *)
Fixpoint addRange (m : IpListMap) (start end_ payload : Z) : Z * IpListMap :=
  match m with
  | [] => (0, [(start, [mkRange end_ payload])])
  | (s, ranges) :: r =>
      if s =? start then
        if existsb (fun x => rg_end x =? end_) ranges then (ERR_ALREADY_EXISTS, m)
        else (0, (s, ranges ++ [mkRange end_ payload]) :: r)
      else if start <? s then (0, (start, [mkRange end_ payload]) :: m)
      else let '(e, r') := addRange r start end_ payload in (e, (s, ranges) :: r')
  end.

(** The scan of the ranges of one first address: the payload found and [minRangeLen]. *)
Definition scan_range (addr start : Z) (st : option Z * Z) (r : Range) : option Z * Z :=
  let '(result, minRangeLen) := st in
  if addr <=? rg_end r then
    let rangeLen := u32 (rg_end r - start) in
    if rangeLen <=? minRangeLen then (Some (rg_payload r), rangeLen) else st
  else st.

Fixpoint find_loop (m : IpListMap) (addr : Z) (i : nat) : option (option Z) :=
  match m !! i with
  | None => Some None
  | Some (start, ranges) =>
      if addr <? start then Some None
      else match fst (foldl (scan_range addr start) (None, 0xFFFFFFFF) ranges) with
           | Some payload => Some (Some payload)
           | None => match i with O => None | S i => find_loop m addr i end
           end
  end.

Fixpoint map_lower_bound (m : IpListMap) (addr : Z) : nat :=
  match m with [] => O | (s, _) :: r => if s <? addr then S (map_lower_bound r addr) else O end.

(** [find]: the payload, or nothing. *)
Definition ipl_find (m : IpListMap) (addr : Z) : option (option Z) :=
  let i := map_lower_bound m addr in
  let not_equal := match m !! i with None => true | Some (s, _) => negb (s =? addr) end in
  let i := if not_equal && negb (Nat.eqb i 0) then pred i else i in
  find_loop m addr i.

(** ** Lines *)

Fixpoint skip (p : Z -> bool) (s : list Z) : nat :=
  match s with [] => O | c :: s => if p c then S (skip p s) else O end.
Definition is_blank (c : Z) : bool := (c =? 32) || (c =? 9).
Definition is_digit (c : Z) : bool := (48 <=? c) && (c <=? 57).
Definition is_ip_char (c : Z) : bool := is_digit c || (c =? 46).
Definition skipWhiteSpace (s : list Z) (i : nat) : nat := (i + skip is_blank (drop i s))%nat.
Definition skipIpAddress (s : list Z) (i : nat) : nat := (i + skip is_ip_char (drop i s))%nat.
Definition skipNumber (s : list Z) (i : nat) : nat := (i + skip is_digit (drop i s))%nat.

Definition isValidMask (x : Z) : bool :=
  if x =? 0 then false
  else let x := Z.lxor x 0xFFFFFFFF in Z.land x (u32 (x + 1)) =? 0.

(** [atoi]: white space, a sign, digits; out of the range of [int] it is undefined. *)
Definition digits_value (s : list Z) : Z := foldl (fun n c => n * 10 + (c - 48)) 0 (take (skip is_digit s) s).
Definition atoi (s : list Z) : option Z :=
  let s := drop (skip (fun c => (c =? 32) || ((9 <=? c) && (c <=? 13))) s) s in
  let n := match s with
           | 45 :: r => - digits_value r
           | 43 :: r => digits_value r
           | _ => digits_value s
           end in
  if (- 2 ^ 31 <=? n) && (n <? 2 ^ 31) then Some n else None.

Record ParseLineResult := mkLine { pl_start : Z; pl_end : Z; pl_pos : nat; pl_specialChar : Z }.

Definition sub (s : list Z) (i j : nat) : list Z := take (j - i) (drop i s).

(** The part of [parseLine] after the first address and the separator [sep]; [i] is after
    them, [j] after the first address: the end of the range and the position, or an error. *)
Definition parse_second (s : list Z) (sep start : Z) (i j : nat) : option (Z + Z * nat) :=
  if sep =? 47 then
    let j := skipNumber s i in
    if match s !! j with Some c => c =? 46 | None => false end then
      let j := skipIpAddress s i in
      match parseIpAddress (sub s i j) with
      | Some mask => if isValidMask mask then Some (inr (Z.lor start (Z.lxor mask 0xFFFFFFFF), j))
                     else Some (inl ERR_BAD_NETMASK)
      | None => Some (inl ERR_BAD_NETMASK)
      end
    else
      bits ← atoi (drop i s);
      if (bits <=? 0) || (32 <? bits) then Some (inl ERR_BAD_NETMASK)
      else Some (inr (Z.lor start (Z.lxor (u32 (Z.shiftl 0xFFFFFFFF (32 - bits))) 0xFFFFFFFF), j))
  else if sep =? 45 then
    let j := skipIpAddress s i in
    match parseIpAddress (sub s i j) with
    | Some e => Some (inr (e, j))
    | None => Some (inl ERR_BAD_FORMAT)
    end
  else Some (inr (start, j)).

(** The characters before the first address: the position of the address and
    [specialChar], or an error. *)
Definition parse_prefix (s : list Z) (options : option (list Z)) (startPos : nat) : option (Z + nat * Z) :=
  let i := skipWhiteSpace s startPos in
  if (i =? length s)%nat then Some (inl ERR_LINE_SKIPPED)
  else
    c ← s !! i;
    if c =? 35 then Some (inl ERR_LINE_SKIPPED)
    else if match s !! S i with Some c' => (c' =? c) && ((c =? 47) || (c =? 45)) | None => false end
    then Some (inl ERR_LINE_SKIPPED)
    else match options with
         | None => Some (inr (i, 0))
         | Some chars =>
             if existsb (Z.eqb c) chars && negb (c =? 0) then
               if (S i =? length s)%nat then Some (inl ERR_BAD_FORMAT) else Some (inr (S i, c))
             else Some (inr (i, 0))
         end.

(** [parseLine] on success, or the error code. *)
Definition parseLine (s : list Z) (options : option (list Z)) (startPos : nat) : option (Z + ParseLineResult) :=
  p ← parse_prefix s options startPos;
  match p with
  | inl e => Some (inl e)
  | inr (i, special) =>
      let j := skipIpAddress s i in
      match parseIpAddress (sub s i j) with
      | None => Some (inl ERR_BAD_FORMAT)
      | Some start =>
          let i := skipWhiteSpace s j in
          if (i =? length s)%nat then Some (inr (mkLine start start i special))
          else
            sep ← s !! i;
            let i := skipWhiteSpace s (S i) in
            if (i =? length s)%nat then Some (inl ERR_BAD_FORMAT)
            else
              r ← parse_second s sep start i j;
              match r with
              | inl e => Some (inl e)
              | inr (e, j) => if e <? start then Some (inl ERR_BAD_RANGE) else Some (inr (mkLine start e j special))
              end
      end
  end.

(** ** The text of an address *)

Definition is_u32 (a : Z) : Prop := 0 <= a < 2 ^ 32.

Lemma parse_digit byte bytes df dc d s :
  0 <= byte -> 0 <= d <= 9 -> byte * 10 + d <= 255 ->
  parse_ip_loop (byte, bytes, df, dc) (48 + d :: s) = parse_ip_loop (byte * 10 + d, bytes, true, dc) s.
Proof.
  intros. cbn [parse_ip_loop parse_ip_step].
  replace (48 <=? 48 + d) with true by lia. replace (48 + d <=? 57) with true by lia. cbn [andb].
  replace (u32 (byte * 10 + (48 + d) - 48)) with (byte * 10 + d) by (unfold u32; rewrite Z.mod_small; lia).
  destruct (255 <? byte * 10 + d) eqn:E; [lia|]. reflexivity.
Qed.

(** Reading back a printed byte. *)
Lemma parse_print_byte b bytes df dc s : 0 <= b <= 255 ->
  parse_ip_loop (0, bytes, df, dc) (print_byte b ++ s) = parse_ip_loop (b, bytes, true, dc) s.
Proof.
  intros Hb. unfold print_byte. pose proof (Z.div_mod b 10 ltac:(lia)).
  pose proof (Z.mod_pos_bound b 10 ltac:(lia)).
  pose proof (Z.div_mod (b / 10) 10 ltac:(lia)). pose proof (Z.mod_pos_bound (b / 10) 10 ltac:(lia)).
  assert (b / 100 = b / 10 / 10) as -> by (rewrite Z.div_div; [reflexivity|lia..]).
  destruct (100 <=? b) eqn:E1, (10 <=? b) eqn:E2; zb; try lia; cbn [app];
    rewrite ?parse_digit by lia;
    match goal with |- parse_ip_loop (?x, _, _, _) _ = _ => replace x with b by lia end; reflexivity.
Qed.

Lemma parse_dot byte bytes dc s : 0 <= dc < 3 ->
  parse_ip_loop (byte, bytes, true, dc) (46 :: s)
  = parse_ip_loop (0, Z.lor (u32 (Z.shiftl bytes 8)) byte, false, dc + 1) s.
Proof.
  intros. cbn [parse_ip_loop parse_ip_step]. cbn -[Z.lor u32 Z.shiftl parse_ip_loop Z.add Z.eqb].
  replace (dc + 1 =? 4) with false by lia. reflexivity.
Qed.

Lemma lor_shift8 x b : 0 <= x -> 0 <= b < 256 -> x * 256 + b < 2 ^ 32 ->
  Z.lor (u32 (Z.shiftl x 8)) b = x * 256 + b.
Proof.
  intros. unfold u32. rewrite Z.mod_small by (rewrite Z.shiftl_mul_pow2 by lia; change (2 ^ 8) with 256; lia).
  apply (lor_shiftl x 8 b); [lia|]. change (2 ^ 8) with 256. lia.
Qed.

Lemma addr_bytes a : is_u32 a ->
  exists b3 b2 b1 b0, a = ((b3 * 256 + b2) * 256 + b1) * 256 + b0 /\
    0 <= b3 <= 255 /\ 0 <= b2 <= 255 /\ 0 <= b1 <= 255 /\ 0 <= b0 <= 255 /\
    printIpAddress a = print_byte b3 ++ [46] ++ print_byte b2 ++ [46] ++ print_byte b1 ++ [46] ++ print_byte b0.
Proof.
  intros Ha. unfold is_u32 in Ha. unfold printIpAddress.
  rewrite !Z.shiftr_div_pow2 by lia. change 0xFF with (Z.ones 8). rewrite !Z.land_ones by lia.
  change (2 ^ 24) with (256 * 256 * 256). change (2 ^ 16) with (256 * 256). change (2 ^ 8) with 256.
  rewrite <- !(Z.div_div a) by lia.
  exists (a / 256 / 256 / 256), ((a / 256 / 256) mod 256), ((a / 256) mod 256), (a mod 256).
  split; [|split; [|split; [|split; [|split; [|reflexivity]]]]].
  all: change (Z.ones 8) with 255; pose proof (Z.div_mod a 256 ltac:(lia));
    pose proof (Z.mod_pos_bound a 256 ltac:(lia));
    pose proof (Z.div_mod (a / 256) 256 ltac:(lia)); pose proof (Z.mod_pos_bound (a / 256) 256 ltac:(lia));
    pose proof (Z.div_mod (a / 256 / 256) 256 ltac:(lia));
    pose proof (Z.mod_pos_bound (a / 256 / 256) 256 ltac:(lia)); lia.
Qed.

Lemma parse_print a : is_u32 a -> parseIpAddress (printIpAddress a) = Some a.
Proof.
  intros Ha. destruct (addr_bytes a Ha) as (b3 & b2 & b1 & b0 & Ea & H3 & H2 & H1 & H0 & ->).
  unfold is_u32 in Ha. unfold parseIpAddress.
  rewrite <- (app_nil_r (print_byte b0)).
  do 3 (rewrite parse_print_byte by lia; cbn [app]; rewrite parse_dot by lia).
  rewrite parse_print_byte by lia. cbn [parse_ip_loop mbind option_bind].
  change (Z.lor (u32 (Z.shiftl 0 8)) b3) with b3.
  rewrite (lor_shift8 b3), (lor_shift8 (_ + b2)), (lor_shift8 (_ + b1)) by lia.
  cbn. rewrite Ea. reflexivity.
Qed.

(** ** The lines of a list *)

(** What may follow the first address: nothing, the last address, the number of bits of the
    network, or its mask. *)
Inductive Suffix := Single | Upto (b : Z) | Bits (n : Z) | Mask (n : Z).
#[export] Instance Suffix_dec : EqDecision Suffix. Proof. solve_decision. Defined.

Definition netmask (n : Z) : Z := 2 ^ 32 - 2 ^ (32 - n).
Definition suffix_ok (x : Suffix) : Prop :=
  match x with Single => True | Upto b => is_u32 b | Bits n | Mask n => 1 <= n <= 32 end.
Definition print_suffix (w : list Z) (x : Suffix) : list Z :=
  match x with
  | Single => []
  | Upto b => [45] ++ w ++ printIpAddress b
  | Bits n => [47] ++ w ++ print_byte n
  | Mask n => [47] ++ w ++ printIpAddress (netmask n)
  end.
Definition suffix_end (a : Z) (x : Suffix) : Z :=
  match x with Single => a | Upto b => b | Bits n | Mask n => Z.lor a (2 ^ (32 - n) - 1) end.

Lemma skip_app p l s : Forall (fun c => p c = true) l -> skip p (l ++ s) = (length l + skip p s)%nat.
Proof. induction 1 as [|c l Hc _ IH]; cbn; [reflexivity|]. rewrite Hc, IH. reflexivity. Qed.

Definition stops (p : Z -> bool) (s : list Z) : Prop :=
  match s with [] => True | c :: _ => p c = false end.

Lemma skip_stops p s : stops p s -> skip p s = O.
Proof. destruct s; cbn; [reflexivity|intros ->; reflexivity]. Qed.

Lemma skip_at p l1 l2 l3 : Forall (fun c => p c = true) l2 -> stops p l3 ->
  (length l1 + skip p (drop (length l1) (l1 ++ l2 ++ l3)) = length l1 + length l2)%nat.
Proof. intros H2 H3. rewrite drop_app_length, skip_app, skip_stops by assumption. lia. Qed.

Lemma sub_string_at l1 l2 l3 : sub (l1 ++ l2 ++ l3) (length l1) (length l1 + length l2) = l2.
Proof.
  unfold sub. rewrite drop_app_length.
  replace (length l1 + length l2 - length l1)%nat with (length l2) by lia. apply take_app_length.
Qed.

Lemma print_byte_digits b : 0 <= b <= 255 ->
  Forall (fun c => is_digit c = true) (print_byte b) /\ print_byte b <> [].
Proof.
  intros Hb. pose proof (Z.mod_pos_bound b 10 ltac:(lia)). pose proof (Z.mod_pos_bound (b / 10) 10 ltac:(lia)).
  assert (0 <= b / 100 <= 9) by (split; [apply Z.div_pos; lia|apply Z.lt_succ_r, Z.div_lt_upper_bound; lia]).
  assert (forall d, 0 <= d <= 9 -> is_digit (48 + d) = true) as Hd by (intros; unfold is_digit; lia).
  unfold print_byte. destruct (100 <=? b), (10 <=? b); cbn [app]; split; try discriminate;
    repeat constructor; apply Hd; lia.
Qed.

Lemma digits_ip l : Forall (fun c => is_digit c = true) l -> Forall (fun c => is_ip_char c = true) l.
Proof. intros H. eapply Forall_impl; [exact H|]. intros c Hc. cbn in Hc |- *. unfold is_ip_char. rewrite Hc. reflexivity. Qed.

Lemma printIpAddress_chars a : is_u32 a ->
  Forall (fun c => is_ip_char c = true) (printIpAddress a) /\
  exists c r, printIpAddress a = c :: r /\ is_digit c = true.
Proof.
  intros Ha. destruct (addr_bytes a Ha) as (b3 & b2 & b1 & b0 & _ & H3 & H2 & H1 & H0 & ->).
  split.
  - rewrite !Forall_app. repeat split; try (apply digits_ip, print_byte_digits; lia); repeat constructor.
  - destruct (print_byte_digits b3 H3) as [Hd Hn]. destruct (print_byte b3) as [|c l]; [contradiction|].
    eexists c, _. split; [reflexivity|]. inversion Hd; assumption.
Qed.

Lemma digit_not_blank c s : is_digit c = true -> stops is_blank (c :: s).
Proof. unfold is_digit, is_blank. cbn. lia. Qed.

Definition blanks (w : list Z) : Prop := Forall (fun c => is_blank c = true) w.
Definition opts_ok (options : option (list Z)) : Prop :=
  match options with Some l => Forall (fun c => is_digit c = false) l | None => True end.

Lemma parse_prefix_at w s c r options : blanks w -> s = c :: r -> is_digit c = true -> opts_ok options ->
  parse_prefix (w ++ s) options 0 = Some (inr (length w, 0)).
Proof.
  intros Hw -> Hc Ho. unfold parse_prefix, skipWhiteSpace.
  pose proof (skip_at is_blank [] w (c :: r) Hw (digit_not_blank _ _ Hc)) as Hs. cbn in Hs |- *. rewrite Hs.
  rewrite length_app. cbn [length].
  replace (length w =? length w + S (length r))%nat with false by (symmetry; apply Nat.eqb_neq; lia).
  rewrite (list_lookup_middle w r c (length w)) by reflexivity. cbn [mbind option_bind]. unfold is_digit in Hc.
  replace (c =? 35) with false by lia. replace ((c =? 47) || (c =? 45)) with false by lia.
  assert (match (w ++ c :: r) !! S (length w) with Some c' => (c' =? c) && false | None => false end = false)
    as -> by (destruct ((w ++ c :: r) !! S (length w)); [apply andb_false_r|reflexivity]).
  destruct options as [l|]; [|reflexivity]. cbn in Ho.
  replace (existsb (Z.eqb c) l) with false; [reflexivity|]. symmetry. apply not_true_is_false.
  rewrite existsb_exists. intros (x & Hx & ->%Z.eqb_eq).
  rewrite List.Forall_forall in Ho. apply Ho in Hx. unfold is_digit in Hx. lia.
Qed.

Lemma in_1_32 (P : Z -> bool) : forallb P (seqZ 1 32) = true -> forall n, 1 <= n <= 32 -> P n = true.
Proof. intros H n Hn. rewrite forallb_forall in H. apply H, list_elem_of_In, elem_of_seqZ. lia. Qed.

Lemma netmask_valid n : 1 <= n <= 32 ->
  isValidMask (netmask n) = true /\ Z.lxor (netmask n) 0xFFFFFFFF = 2 ^ (32 - n) - 1.
Proof.
  intros Hn. rewrite <- Z.eqb_eq. apply andb_true_iff.
  apply (in_1_32 (fun n => isValidMask (netmask n) && (Z.lxor (netmask n) 0xFFFFFFFF =? 2 ^ (32 - n) - 1)));
    [vm_compute; reflexivity|assumption].
Qed.

Lemma bits_valid n : 1 <= n <= 32 ->
  atoi (print_byte n) = Some n /\ Z.lxor (u32 (Z.shiftl 0xFFFFFFFF (32 - n))) 0xFFFFFFFF = 2 ^ (32 - n) - 1.
Proof.
  intros Hn. rewrite <- Z.eqb_eq.
  pose proof (in_1_32 (fun n => match atoi (print_byte n) with Some v => v =? n | None => false end &&
    (Z.lxor (u32 (Z.shiftl 0xFFFFFFFF (32 - n))) 0xFFFFFFFF =? 2 ^ (32 - n) - 1))
    ltac:(vm_compute; reflexivity) n Hn) as [H1 H2]%andb_true_iff.
  split; [|assumption]. destruct (atoi (print_byte n)); [|discriminate]. apply Z.eqb_eq in H1 as ->. reflexivity.
Qed.

Lemma lookup_end {A} (l : list A) n : n = length l -> l !! n = None.
Proof. intros ->. apply lookup_ge_None. lia. Qed.

Lemma number_dot l a : is_u32 a ->
  let s := l ++ printIpAddress a ++ [] in
  s !! (length l + skip is_digit (drop (length l) s))%nat = Some 46.
Proof.
  intros Ha s. subst s. rewrite app_nil_r.
  destruct (addr_bytes a Ha) as (b3 & b2 & b1 & b0 & _ & H3 & _ & _ & _ & ->). cbn [app].
  rewrite skip_at by (reflexivity || (apply print_byte_digits; lia)).
  rewrite app_assoc, list_lookup_middle by (rewrite length_app; reflexivity). reflexivity.
Qed.

Lemma netmask_u32 n : 1 <= n <= 32 -> is_u32 (netmask n).
Proof.
  intros Hn. unfold is_u32, netmask. pose proof (Z.pow_le_mono_r 2 (32 - n) 31 ltac:(lia) ltac:(lia)).
  pose proof (Z.pow_pos_nonneg 2 (32 - n) ltac:(lia) ltac:(lia)). lia.
Qed.

(** The part after the separator. *)
Lemma parse_second_at l w sep start j x :
  blanks w -> suffix_ok x -> x <> Single ->
  print_suffix w x = sep :: drop 1 (print_suffix w x) ->
  let s := l ++ print_suffix w x in
  parse_second s sep start (S (length l + length w)) j = Some (inr (suffix_end start x, length s)).
Proof.
  intros Hw Hx Hs Hp s.
  assert (forall q y, print_suffix w x = [q] ++ w ++ y -> s = (l ++ [q] ++ w) ++ y ++ [] /\
    S (length l + length w) = length (l ++ [q] ++ w)) as Hsplit.
  { intros q y Hy. subst s. rewrite Hy, app_nil_r, <- !app_assoc, !length_app. cbn [length]. split; [reflexivity|lia]. }
  destruct x as [|b|n|n]; cbn [print_suffix] in Hp, Hsplit; [contradiction|..]; injection Hp as <-;
    destruct (Hsplit _ _ eq_refl) as [-> ->]; cbn [suffix_ok suffix_end] in *; unfold parse_second;
    unfold skipIpAddress, skipNumber.
  - destruct (printIpAddress_chars b Hx) as [Hi _]. cbn [Z.eqb Pos.eqb].
    rewrite skip_at, sub_string_at, parse_print by (assumption || exact I). rewrite app_nil_r, <- length_app. reflexivity.
  - destruct (print_byte_digits n ltac:(lia)) as [Hd _]. cbn [Z.eqb Pos.eqb].
    rewrite skip_at by (assumption || exact I).
    rewrite lookup_end by (rewrite !length_app; cbn; lia).
    rewrite drop_app_length, app_nil_r. destruct (bits_valid n Hx) as [-> Hl]. cbn [mbind option_bind]. rewrite Hl.
    destruct ((n <=? 0) || (32 <? n)) eqn:E; [lia|]. rewrite <- length_app. reflexivity.
  - pose proof (netmask_u32 n Hx) as Hm. destruct (printIpAddress_chars _ Hm) as [Hi _]. cbn [Z.eqb Pos.eqb].
    rewrite number_dot by assumption. cbn [Z.eqb Pos.eqb].
    rewrite (skip_at is_ip_char), sub_string_at, parse_print by (assumption || exact I).
    destruct (netmask_valid n Hx) as [-> ->]. rewrite app_nil_r, <- length_app. reflexivity.
Qed.

Lemma suffix_shape w x : x <> Single -> suffix_ok x ->
  exists sep c r, print_suffix w x = sep :: w ++ c :: r /\ is_digit c = true /\ is_blank sep = false.
Proof.
  intros Hs Hx. destruct x as [|b|n|n]; [contradiction|..]; cbn [print_suffix suffix_ok] in *.
  - destruct (printIpAddress_chars b Hx) as [_ (c & r & -> & Hc)]. eexists _, c, r. split; [reflexivity|auto].
  - destruct (print_byte_digits n ltac:(lia)) as [Hd Hn]. destruct (print_byte n) as [|c r]; [contradiction|].
    eexists _, c, r. split; [reflexivity|]. inversion Hd. auto.
  - destruct (printIpAddress_chars (netmask n)) as [_ (c & r & -> & Hc)].
    + apply netmask_u32, Hx.
    + eexists _, c, r. split; [reflexivity|auto].
Qed.

Lemma stops_after w1 w2 x : blanks w1 -> stops is_ip_char (w1 ++ print_suffix w2 x).
Proof.
  intros H1. destruct w1 as [|c w1].
  - destruct x; cbn; auto.
  - inversion H1 as [|? ? Hc _]. cbn. revert Hc. unfold is_blank, is_ip_char, is_digit. lia.
Qed.

(** C37.  The lines of an address list are read back: an address, alone or with a last
    address, a number of bits or a mask after it, with blanks around the separator, gives the
    range from the address to the last address (to the last address of the network), unless
    the range is reversed, which is reported. *)
Theorem parseLine_correct w0 w1 w2 a x options :
  blanks w0 -> blanks w1 -> blanks w2 -> is_u32 a -> suffix_ok x -> opts_ok options ->
  let s := w0 ++ printIpAddress a ++ w1 ++ print_suffix w2 x in
  parseLine s options 0 =
  Some (if suffix_end a x <? a then inl ERR_BAD_RANGE else inr (mkLine a (suffix_end a x) (length s) 0)).
Proof.
  intros H0 H1 H2 Ha Hx Ho s. destruct (printIpAddress_chars a Ha) as [Hi (c & r & Hp & Hc)].
  unfold parseLine. subst s.
  rewrite (parse_prefix_at w0 _ c (r ++ w1 ++ print_suffix w2 x)) by (assumption || rewrite Hp; reflexivity).
  cbn [mbind option_bind]. cbv zeta. unfold skipIpAddress, skipWhiteSpace.
  rewrite skip_at by (assumption || apply stops_after, H1). rewrite sub_string_at, parse_print by assumption.
  rewrite (app_assoc w0), <- !length_app.
  destruct (decide (x = Single)) as [->|Hs].
  - cbn [print_suffix suffix_end]. rewrite skip_at by (assumption || exact I).
    rewrite !length_app, Nat.add_0_r, Nat.eqb_refl, Z.ltb_irrefl. reflexivity.
  - destruct (suffix_shape w2 x Hs Hx) as (sep & c' & r' & Ex & Hc' & Hb).
    rewrite skip_at by (assumption || rewrite Ex; exact Hb). rewrite <- !length_app, (app_assoc _ w1).
    set (l := ((w0 ++ printIpAddress a) ++ w1)).
    assert (length (l ++ print_suffix w2 x) = length l + S (length w2 + S (length r')))%nat as El
      by (rewrite Ex, length_app; cbn [length]; rewrite length_app; reflexivity).
    assert ((S (length l) + skip is_blank (drop (S (length l)) (l ++ print_suffix w2 x))
             = S (length l + length w2))%nat) as Ei.
    { rewrite Ex. change (l ++ sep :: w2 ++ c' :: r') with (l ++ [sep] ++ (w2 ++ c' :: r')).
      rewrite (app_assoc l). replace (S (length l)) with (length (l ++ [sep])) by (rewrite length_app; cbn; lia).
      rewrite skip_at by (assumption || apply digit_not_blank, Hc'). rewrite length_app. cbn. lia. }
    assert ((l ++ print_suffix w2 x) !! length l = Some sep) as ->
      by (rewrite Ex; apply list_lookup_middle; reflexivity).
    rewrite Ei. cbn [mbind option_bind].
    rewrite parse_second_at by (assumption || rewrite Ex; reflexivity).
    rewrite (proj2 (Nat.eqb_neq _ _)) by lia. rewrite (proj2 (Nat.eqb_neq _ _)) by lia.
    cbn [mbind option_bind]. destruct (suffix_end a x <? a); reflexivity.
Qed.

Lemma parseLine_correct_witness :
  parseLine ([32] ++ printIpAddress 0x0A000000 ++ [32] ++ print_suffix [9] (Bits 8)) (Some [43; 45]) 0
  = Some (inr (mkLine 0x0A000000 0x0AFFFFFF 13 0)).
Proof.
  rewrite (parseLine_correct [32] [32] [9] 0x0A000000 (Bits 8) (Some [43; 45]));
    [reflexivity|repeat constructor..|unfold is_u32; lia|cbn; lia|repeat constructor].
Defined.

(** ** The ranges of a list *)

Definition ipl_ok (m : IpListMap) : Prop :=
  StronglySorted Z.lt (map fst m) /\
  Forall (fun x => 0 <= fst x /\ snd x <> [] /\ Forall (fun r => fst x <= rg_end r < 2 ^ 32) (snd x)) m.

(** The list holds the range from [s] to [e] with payload [p]. *)
Definition holds (m : IpListMap) (s e p : Z) : Prop := exists rs, (s, rs) ∈ m /\ mkRange e p ∈ rs.

(** The range to find for [addr]: among those that contain [addr], the last to start and, of
    these, the first to end. *)
Definition best (m : IpListMap) (addr p : Z) : Prop :=
  exists s e, holds m s e p /\ s <= addr <= e /\
    forall s' e' p', holds m s' e' p' -> s' <= addr <= e' -> s' < s \/ (s' = s /\ e <= e').

Lemma scan_spec addr start rs : Forall (fun r => start <= rg_end r < 2 ^ 32) rs -> 0 <= start ->
  match foldl (scan_range addr start) (None, 0xFFFFFFFF) rs with
  | (None, len) => len = 0xFFFFFFFF /\ Forall (fun r => rg_end r < addr) rs
  | (Some p, len) => mkRange (start + len) p ∈ rs /\ addr <= start + len /\
                     Forall (fun r => addr <= rg_end r -> start + len <= rg_end r) rs
  end.
Proof.
  intros Hrs H0. induction rs as [|r rs IH] using rev_ind; [cbn; auto|].
  rewrite Forall_app, Forall_singleton in Hrs. destruct Hrs as [Hrs Hr]. specialize (IH Hrs).
  rewrite foldl_snoc. unfold scan_range at 1. cbv zeta.
  replace (u32 (rg_end r - start)) with (rg_end r - start) by (unfold u32; rewrite Z.mod_small; lia).
  destruct (foldl _ _ rs) as [[p|] len].
  - destruct IH as (Hin & Ha & Hmin).
    destruct (addr <=? rg_end r) eqn:E1; [destruct (rg_end r - start <=? len) eqn:E2|]; zb.
    2, 3: split; [apply elem_of_app; left; exact Hin|split; [exact Ha|]];
      apply Forall_app; split; [exact Hmin|apply Forall_singleton; lia].
    replace (start + (rg_end r - start)) with (rg_end r) by lia. split; [|split; [lia|]].
    + destruct r. apply elem_of_app; right. apply list_elem_of_singleton. reflexivity.
    + apply Forall_app. split; [|apply Forall_singleton; lia].
      eapply Forall_impl; [exact Hmin|]. cbn. lia.
  - destruct IH as [-> Hno]. destruct (addr <=? rg_end r) eqn:E1; zb.
    2: split; [reflexivity|]; apply Forall_app; split; [exact Hno|apply Forall_singleton; lia].
    destruct (rg_end r - start <=? 0xFFFFFFFF) eqn:E2; zb; [|lia].
    replace (start + (rg_end r - start)) with (rg_end r) by lia. split; [|split; [lia|]].
    + destruct r. apply elem_of_app; right. apply list_elem_of_singleton. reflexivity.
    + apply Forall_app. split; [|apply Forall_singleton; lia].
      eapply Forall_impl; [exact Hno|]. cbn. lia.
Qed.

Lemma keys_sorted (m : IpListMap) i j x y : StronglySorted Z.lt (map fst m) -> (i < j)%nat ->
  m !! i = Some x -> m !! j = Some y -> fst x < fst y.
Proof.
  revert i j. induction m as [|z m IH]; intros i j Hs Hij Hi Hj; [discriminate|].
  cbn in Hs. apply StronglySorted_inv in Hs as [Hs Hz]. destruct j as [|j]; [lia|]. destruct i as [|i].
  - injection Hi as ->. rewrite Forall_map in Hz. rewrite Forall_lookup in Hz. exact (Hz j y Hj).
  - apply (IH i j); auto. lia.
Qed.

Lemma holds_lookup m s e p : holds m s e p <-> exists i rs, m !! i = Some (s, rs) /\ mkRange e p ∈ rs.
Proof.
  split.
  - intros (rs & Hm & Hr). apply list_elem_of_lookup in Hm as [i Hi]. eauto.
  - intros (i & rs & Hi & Hr). exists rs. split; [eapply list_elem_of_lookup_2, Hi|exact Hr].
Qed.

(** No range of an entry from the [i]-th on contains [addr]. *)
Definition none_from (m : IpListMap) (addr : Z) (i : nat) : Prop :=
  forall j y r, (i <= j)%nat -> m !! j = Some y -> r ∈ snd y -> fst y <= addr <= rg_end r -> False.

Lemma none_from_step m addr i s rs : m !! i = Some (s, rs) -> none_from m addr (S i) ->
  Forall (fun r => rg_end r < addr) rs -> none_from m addr i.
Proof.
  intros Hi Hno Hend j y r Hj Hy Hr. destruct (Nat.eq_dec i j) as [->|]; [|apply (Hno j y r); auto; lia].
  rewrite Hi in Hy. injection Hy as <-. cbn in *. rewrite Forall_forall in Hend. specialize (Hend r Hr). lia.
Qed.

Lemma best_at m addr i s rs e p : ipl_ok m -> m !! i = Some (s, rs) -> none_from m addr (S i) ->
  s <= addr <= e -> mkRange e p ∈ rs -> Forall (fun r => addr <= rg_end r -> e <= rg_end r) rs ->
  best m addr p.
Proof.
  intros [Hs _] Hi Hno Ha Hin Hmin. exists s, e. split; [apply holds_lookup; eauto|]. split; [exact Ha|].
  intros s' e' p' (j & rs' & Hj & Hr)%holds_lookup Ha'.
  destruct (lt_eq_lt_dec i j) as [[Hij| ->]|Hij].
  - exfalso. apply (Hno j (s', rs') (mkRange e' p')); auto.
  - rewrite Hi in Hj. injection Hj as -> ->. rewrite Forall_forall in Hmin. specialize (Hmin _ Hr). cbn in Hmin. lia.
  - left. apply (keys_sorted m j i (s', rs') (s, rs)); auto.
Qed.

Lemma find_loop_spec m addr i x : ipl_ok m -> m !! i = Some x -> fst x <= addr -> none_from m addr (S i) ->
  match find_loop m addr i with
  | Some (Some p) => best m addr p
  | Some None => False
  | None => none_from m addr 0
  end.
Proof.
  intros Hm. revert x. induction i as [|i IH]; intros [s rs] Hi Hle Hno; cbn in Hle.
  all: pose proof (proj1 (Forall_lookup _ _) (proj2 Hm) _ _ Hi) as (H0 & _ & Hrs); cbn in H0, Hrs.
  all: cbn [find_loop]; rewrite Hi; destruct (addr <? s) eqn:E; zb; try lia.
  all: pose proof (scan_spec addr s rs Hrs H0) as Hscan.
  all: destruct (foldl _ _ rs) as [[p|] len]; cbn [fst].
  1, 3: destruct Hscan as (Hin & Ha & Hmin); eapply best_at; eauto; lia.
  - eapply none_from_step; [exact Hi|exact Hno|apply Hscan].
  - destruct (lookup_lt_is_Some_2 m i) as [[s' rs'] Hi']; [apply lookup_lt_Some in Hi; lia|].
    apply (IH (s', rs') Hi').
    + pose proof (keys_sorted m i (S i) _ _ (proj1 Hm) ltac:(lia) Hi' Hi). cbn in *. lia.
    + eapply none_from_step; [exact Hi|exact Hno|apply Hscan].
Qed.

Lemma map_lower_bound_spec m addr : StronglySorted Z.lt (map fst m) ->
  forall j y, m !! j = Some y -> if (j <? map_lower_bound m addr)%nat then fst y < addr else addr <= fst y.
Proof.
  induction m as [|[s rs] m IH]; intros Hs j y Hj; [discriminate|].
  pose proof Hs as Hs0. cbn in Hs. apply StronglySorted_inv in Hs as [Hs Hz]. cbn [map_lower_bound].
  destruct (s <? addr) eqn:E; zb.
  - destruct j as [|j]; [injection Hj as <-; exact E|]. exact (IH Hs j y Hj).
  - destruct j as [|j]; [injection Hj as <-; exact E|]. cbn.
    pose proof (keys_sorted ((s, rs) :: m) 0 (S j) (s, rs) y Hs0 ltac:(lia) eq_refl Hj). cbn in *. lia.
Qed.

Lemma none_from_keys m addr i : StronglySorted Z.lt (map fst m) -> (map_lower_bound m addr <= i)%nat ->
  (forall y, m !! i = Some y -> fst y <> addr) -> none_from m addr i.
Proof.
  intros Hs Hi Hne j y r Hj Hy _ Ha. pose proof (map_lower_bound_spec m addr Hs j y Hy) as Hk.
  destruct (j <? map_lower_bound m addr)%nat eqn:E; [apply Nat.ltb_lt in E; lia|].
  destruct (Nat.eq_dec i j) as [->|]; [specialize (Hne y Hy); lia|].
  destruct (lookup_lt_is_Some_2 m i) as [z Hz]; [apply lookup_lt_Some in Hy; lia|].
  pose proof (keys_sorted m i j z y Hs ltac:(lia) Hz Hy). pose proof (map_lower_bound_spec m addr Hs i z Hz) as Hk'.
  destruct (i <? map_lower_bound m addr)%nat eqn:E'; [apply Nat.ltb_lt in E'; lia|]. lia.
Qed.

Lemma map_lower_bound_le m addr : (map_lower_bound m addr <= length m)%nat.
Proof. induction m as [|[s rs] m IH]; cbn; [lia|]. destruct (s <? addr); lia. Qed.

Lemma none_holds m addr : none_from m addr 0 -> forall s e p, holds m s e p -> s <= addr -> e < addr.
Proof.
  intros Hno s e p (i & rs & Hi & Hr)%holds_lookup Hs. apply Z.nle_gt. intros He.
  apply (Hno i (s, rs) (mkRange e p)); auto; lia.
Qed.

(** The search from an entry that starts before [addr]. *)
Lemma find_from m addr i x : ipl_ok m -> m !! i = Some x -> fst x <= addr -> none_from m addr (S i) ->
  match find_loop m addr i with
  | Some (Some p) => best m addr p
  | Some None => forall s e p, holds m s e p -> addr < s
  | None => (exists s e p, holds m s e p /\ s <= addr) /\
            forall s e p, holds m s e p -> s <= addr -> e < addr
  end.
Proof.
  intros Hm Hi Hx Hno. pose proof (find_loop_spec m addr i x Hm Hi Hx Hno) as H.
  destruct (find_loop m addr i) as [[p|]|]; [exact H|contradiction|].
  split; [|exact (none_holds m addr H)].
  pose proof (proj1 (Forall_lookup _ _) (proj2 Hm) _ _ Hi) as (_ & Hne & _).
  destruct x as [s [|[e p] rs]]; [contradiction|]. exists s, e, p. split; [|exact Hx].
  apply holds_lookup. exists i, (mkRange e p :: rs). split; [exact Hi|left].
Qed.

(** The same when no range starts at [addr]. *)
Lemma find_prev m addr : ipl_ok m -> let i := map_lower_bound m addr in
  (forall y, m !! i = Some y -> fst y <> addr) ->
  match find_loop m addr (if negb (Nat.eqb i 0) then pred i else i) with
  | Some (Some p) => best m addr p
  | Some None => forall s e p, holds m s e p -> addr < s
  | None => (exists s e p, holds m s e p /\ s <= addr) /\
            forall s e p, holds m s e p -> s <= addr -> e < addr
  end.
Proof.
  intros Hm i Hne. unfold IpListMap in *. pose proof Hm as [Hs _]. pose proof (map_lower_bound_spec m addr Hs) as Hlb. fold i in Hlb.
  assert (none_from m addr i) as Hno by (apply none_from_keys; auto).
  pose proof (map_lower_bound_le m addr) as Hlen. fold i in Hlen. clearbody i.
  destruct i as [|k]; cbn [Nat.eqb negb pred].
  - assert (forall j s rs, m !! j = Some (s, rs) -> addr < s) as Hall.
    { intros j s rs Hj. destruct (lookup_lt_is_Some_2 m 0) as [z Hz]; [apply lookup_lt_Some in Hj; lia|].
      pose proof (Hlb O z Hz) as H0. specialize (Hne z Hz). cbn in H0.
      destruct j as [|j]; [rewrite Hj in Hz; injection Hz as <-; cbn in *; lia|].
      pose proof (keys_sorted m 0 (S j) _ _ Hs ltac:(lia) Hz Hj). cbn in *. lia. }
    assert (find_loop m addr 0 = Some None) as ->.
    { cbn [find_loop]. unfold IpListMap. destruct (m !! O) as [[s rs]|] eqn:E; [|reflexivity].
      specialize (Hall O s rs E). replace (addr <? s) with true by lia. reflexivity. }
    intros s e p (j & rs & Hj & _)%holds_lookup. exact (Hall j s rs Hj).
  - destruct (lookup_lt_is_Some_2 m k) as [x Hx]; [lia|].
    apply (find_from m addr k x Hm Hx); [|exact Hno].
    pose proof (Hlb k x Hx) as H. replace (k <? S k)%nat with true in H by (symmetry; apply Nat.ltb_lt; lia). lia.
Qed.

(** The search of a list answers with the payload of the range that contains the address,
    starts last and of these ends first, and with nothing when every range starts after the
    address.  When ranges start before the address and none contains it, the search moves
    before the first entry, which is undefined. *)
Theorem ipl_find_correct m addr : ipl_ok m ->
  match ipl_find m addr with
  | Some (Some p) => best m addr p
  | Some None => forall s e p, holds m s e p -> addr < s
  | None => (exists s e p, holds m s e p /\ s <= addr) /\
            forall s e p, holds m s e p -> s <= addr -> e < addr
  end.
Proof.
  intros Hm. unfold ipl_find. pose proof (find_prev m addr Hm) as Hprev.
  destruct (m !! map_lower_bound m addr) as [[s rs]|] eqn:Ei; [destruct (s =? addr) eqn:E; zb|]; cbn [negb andb].
  - subst s. apply (find_from m addr _ (addr, rs)); cbn; auto; [lia|].
    apply none_from_keys; [apply Hm|lia|]. intros y Hy.
    pose proof (keys_sorted m _ _ (addr, rs) y (proj1 Hm) (Nat.lt_succ_diag_r _) Ei Hy). cbn in *. lia.
  - apply Hprev. intros y Hy. rewrite Ei in Hy. injection Hy as <-. exact E.
  - apply Hprev. intros y Hy. rewrite Ei in Hy. discriminate.
Qed.

(** ** Adding a range *)

Lemma addRange_head m s e p err m' : addRange m s e p = (err, m') ->
  forall k, Forall (Z.lt k) (map fst m) -> k < s -> Forall (Z.lt k) (map fst m').
Proof.
  revert err m'. induction m as [|[s0 rs] m IH]; intros err m' H k Hk Hks; cbn in H.
  - injection H as <- <-. repeat constructor. exact Hks.
  - cbn in Hk. apply Forall_cons in Hk as [Hk0 Hk].
    destruct (s0 =? s) eqn:E; [|destruct (s <? s0) eqn:E2; [|destruct (addRange m s e p) as [e' r'] eqn:E3]].
    + destruct (existsb _ rs); injection H as <- <-; constructor; assumption.
    + injection H as <- <-. repeat constructor; assumption.
    + injection H as <- <-. constructor; [exact Hk0|]. eapply IH; eauto.
Qed.

Lemma holds_cons s0 rs m s e p : holds ((s0, rs) :: m) s e p <-> (s = s0 /\ mkRange e p ∈ rs) \/ holds m s e p.
Proof.
  unfold holds. split.
  - intros (rs' & [H|H]%elem_of_cons & Hr); [injection H as -> ->; auto|eauto].
  - intros [[-> Hr]|(rs' & H & Hr)]; [exists rs; split; [left|exact Hr]|exists rs'; split; [right; exact H|exact Hr]].
Qed.

Lemma addRange_ok m s e p : ipl_ok m -> 0 <= s <= e -> e < 2 ^ 32 -> ipl_ok (snd (addRange m s e p)).
Proof.
  induction m as [|[s0 rs] m IH]; intros [Hs Hok] Hse He.
  - split; cbn; repeat constructor; cbn; try lia. discriminate.
  - cbn in Hs. apply StronglySorted_inv in Hs as [Hs Hz]. apply Forall_cons in Hok as [(H0 & Hne & Hrs) Hok].
    cbn [addRange]. destruct (s0 =? s) eqn:E; [|destruct (s <? s0) eqn:E2]; zb.
    + subst s0. destruct (existsb _ rs); cbn [snd]; split; cbn [map fst];
        try (constructor; assumption); constructor; auto; cbn in *.
      split; [lia|]. split; [destruct rs; discriminate|].
      apply Forall_app. split; [exact Hrs|]. apply Forall_singleton. cbn. lia.
    + split; cbn [map fst snd].
      * constructor; [constructor; assumption|]. constructor; [exact E2|].
        eapply Forall_impl; [exact Hz|]. intros x Hx. cbn in *. lia.
      * constructor; [|constructor; [split|]; auto]. cbn. repeat split; try lia; [discriminate|].
        apply Forall_singleton. cbn. lia.
    + destruct (addRange m s e p) as [err r'] eqn:E3. cbn [snd]. destruct (IH (conj Hs Hok) Hse He) as [Hs' Hok'].
      split; cbn [map fst].
      * constructor; [exact Hs'|]. eapply addRange_head; [exact E3|exact Hz|lia].
      * constructor; [split|]; auto.
Qed.

Lemma mkRange_eq e p e' p' : mkRange e' p' = mkRange e p <-> e' = e /\ p' = p.
Proof. split; [intros H; injection H; auto|intros [-> ->]; reflexivity]. Qed.

Lemma exists_end rs e : existsb (fun x => rg_end x =? e) rs = true <-> exists p, mkRange e p ∈ rs.
Proof.
  rewrite existsb_exists. split.
  - intros ([e0 p] & Hin%list_elem_of_In & He%Z.eqb_eq). cbn in He. subst e0. exists p. exact Hin.
  - intros [p Hin]. exists (mkRange e p). split; [apply list_elem_of_In, Hin|apply Z.eqb_refl].
Qed.

Lemma holds_after m k : Forall (Z.lt k) (map fst m) -> forall s e p, holds m s e p -> k < s.
Proof.
  intros Hk s e p (rs & Hm & _). rewrite Forall_map, Forall_forall in Hk. exact (Hk _ Hm).
Qed.

(** C38.  Adding a range keeps the list in order with valid ranges and adds exactly that
    range, unless the list holds a range with the same ends, which is reported and leaves the
    list as it was. *)
Theorem addRange_correct m s e p : ipl_ok m -> 0 <= s <= e -> e < 2 ^ 32 ->
  let '(err, m') := addRange m s e p in
  ipl_ok m' /\
  ((err = 0 /\ (forall p', ~ holds m s e p') /\
    forall s' e' p', holds m' s' e' p' <-> holds m s' e' p' \/ (s' = s /\ e' = e /\ p' = p)) \/
   (err = ERR_ALREADY_EXISTS /\ m' = m /\ exists p', holds m s e p')).
Proof.
  intros Hm Hse He. pose proof (addRange_ok m s e p Hm Hse He) as Hok.
  destruct (addRange m s e p) as [err m'] eqn:E. split; [exact Hok|]. clear Hok.
  revert err m' E. induction m as [|[s0 rs] m IH]; intros err m' E.
  - injection E as <- <-. left. split; [reflexivity|]. split.
    + intros p' (rs & H%elem_of_nil & _). exact H.
    + intros. rewrite holds_cons, list_elem_of_singleton, mkRange_eq. tauto.
  - destruct Hm as [Hs Hok]. cbn in Hs. apply StronglySorted_inv in Hs as [Hs Hz]. apply Forall_cons in Hok as [Hr Hok].
    pose proof (holds_after m s0 Hz) as Haft. cbn [addRange] in E.
    destruct (s0 =? s) eqn:E1; [|destruct (s <? s0) eqn:E2]; zb.
    + subst s0. destruct (existsb _ rs) eqn:E3; injection E as <- <-.
      * apply exists_end in E3 as [p' Hp']. right. split; [reflexivity|]. split; [reflexivity|].
        exists p'. apply holds_cons. auto.
      * left. split; [reflexivity|]. split.
        -- intros p' [[_ Hp']|H]%holds_cons; [|specialize (Haft _ _ _ H); lia].
           apply not_true_iff_false in E3. apply E3, exists_end. eauto.
        -- intros. rewrite !holds_cons, elem_of_app, list_elem_of_singleton, mkRange_eq. tauto.
    + injection E as <- <-. left. split; [reflexivity|]. split.
      * intros p' [[-> _]|H]%holds_cons; [lia|]. specialize (Haft _ _ _ H). lia.
      * intros. rewrite (holds_cons s), list_elem_of_singleton, mkRange_eq. tauto.
    + destruct (addRange m s e p) as [err0 r'] eqn:E3. injection E as <- <-.
      destruct (IH (conj Hs Hok) _ _ eq_refl) as [(-> & Hno & Hh)|(-> & -> & p' & Hp')].
      * left. split; [reflexivity|]. split.
        -- intros p' [[-> _]|H]%holds_cons; [lia|]. exact (Hno p' H).
        -- intros. rewrite !holds_cons, Hh. tauto.
      * right. split; [reflexivity|]. split; [reflexivity|]. exists p'. apply holds_cons. auto.
Qed.

Definition sample_list : IpListMap := snd (addRange (snd (addRange [] 10 100 1)) 20 30 2).

Lemma sample_list_ok : ipl_ok sample_list.
Proof. unfold sample_list. apply addRange_ok; [apply addRange_ok|..]; try lia. split; constructor. Qed.

Lemma addRange_correct_witness :
  addRange sample_list 20 30 5 = (ERR_ALREADY_EXISTS, sample_list) /\ exists p, holds sample_list 20 30 p.
Proof.
  pose proof (addRange_correct sample_list 20 30 5 sample_list_ok ltac:(lia) ltac:(lia)) as H.
  split; [reflexivity|]. destruct H as [_ [(H & _)|(_ & _ & H)]]; [discriminate|exact H].
Defined.

Lemma ipl_find_correct_witness : best sample_list 25 2 /\ best sample_list 40 1 /\
  (forall s e p, holds sample_list s e p -> 5 < s) /\
  forall s e p, holds sample_list s e p -> s <= 101 -> e < 101.
Proof.
  pose proof (fun a => ipl_find_correct sample_list a sample_list_ok) as H.
  split; [exact (H 25)|]. split; [exact (H 40)|]. split; [exact (H 5)|]. exact (proj2 (H 101)).
Defined.
