(* ===== verification/AdcCommand.v ===== *)
(** * ADC commands: [client/AdcCommand.h], [client/AdcCommand.cpp]

    A command of the ADC protocol (and of its form inside NMDC, [$ADCxxx]): its text, the
    parser and the dispatch on its three letters.  Strings are lists of bytes; the four bytes
    of [cmdChar] are the number [cmdInt], little-endian. *)

From S2P Require Import Prelude CArray Base32 HashValue.

Record AdcCommand := mkAdc {
  ac_parameters : list (list Z); ac_features : list Z; ac_cmdInt : Z;
  ac_from : Z; ac_to : Z; ac_type : Z }.

Definition PARSE_OK := 0.
Definition PARSE_ERROR_TOO_SHORT := 1.
Definition PARSE_ERROR_INVALID_TYPE := 2.
Definition PARSE_ERROR_ESCAPE_AT_EOL := 3.
Definition PARSE_ERROR_UNKNOWN_ESCAPE := 4.
Definition PARSE_ERROR_INVALID_SID_LENGTH := 5.
Definition PARSE_ERROR_INVALID_FEATURE_LENGTH := 6.
Definition PARSE_ERROR_MISSING_FROM_SID := 7.
Definition PARSE_ERROR_MISSING_TO_SID := 8.
Definition PARSE_ERROR_MISSING_FEATURE := 9.

Definition TYPE_BROADCAST := 66.
Definition TYPE_CLIENT := 67.
Definition TYPE_DIRECT := 68.
Definition TYPE_ECHO := 69.
Definition TYPE_FEATURE := 70.
Definition TYPE_INFO := 73.
Definition TYPE_HUB := 72.
Definition TYPE_UDP := 85.

(** The macro [C(n, a, b, c)]. *)
Definition CMD (a b c : Z) : Z := Z.lor (Z.lor a (Z.shiftl b 8)) (Z.shiftl c 16).
Definition CMD_STA := CMD 83 84 65.
Definition HUB_SID := 0xFFFFFFFF.

Definition set_params (c : AdcCommand) ps := mkAdc ps (ac_features c) (ac_cmdInt c) (ac_from c) (ac_to c) (ac_type c).
Definition set_from (c : AdcCommand) f := mkAdc (ac_parameters c) (ac_features c) (ac_cmdInt c) f (ac_to c) (ac_type c).
Definition set_to (c : AdcCommand) t := mkAdc (ac_parameters c) (ac_features c) (ac_cmdInt c) (ac_from c) t (ac_type c).
Definition set_head (c : AdcCommand) cmd ty := mkAdc (ac_parameters c) (ac_features c) cmd (ac_from c) (ac_to c) ty.

(** [cmdChar[3] = 0]. *)
Definition clear3 (cmd : Z) : Z := le_load (take 3 (le_store 4 cmd) ++ [0]).

Definition new_cmd (cmd target type : Z) : AdcCommand := mkAdc [] [] (clear3 cmd) 0 target type.
Definition addParam (c : AdcCommand) (str : list Z) : AdcCommand := set_params c (ac_parameters c ++ [str]).
Definition addParam_named (c : AdcCommand) (name : Z) (value : list Z) : AdcCommand :=
  addParam c (le_store 2 name ++ value).
Definition new_status (sev err : Z) (desc : list Z) (type : Z) : AdcCommand :=
  addParam (addParam (new_cmd CMD_STA 0 type)
    (if (sev =? 0) && (err =? 0) then [48; 48; 48] else print_byte (sev * 100 + err))) desc.

Definition toSID (sid : list Z) : Z := if (length sid =? 4)%nat then le_load sid else 0.
Definition fromSID (sid : Z) : list Z := le_store 4 sid.

(** ** Parsing *)

Definition has_from (type : Z) : bool :=
  (type =? TYPE_BROADCAST) || (type =? TYPE_DIRECT) || (type =? TYPE_ECHO) || (type =? TYPE_FEATURE).
Definition has_to (type : Z) : bool := (type =? TYPE_DIRECT) || (type =? TYPE_ECHO).
Definition valid_type (type : Z) : bool :=
  existsb (Z.eqb type)
    [TYPE_BROADCAST; TYPE_CLIENT; TYPE_DIRECT; TYPE_ECHO; TYPE_FEATURE; TYPE_INFO; TYPE_HUB; TYPE_UDP].

(** The command being filled and the local variables [cur], [toSet], [featureSet], [fromSet]. *)
Record PState := mkPS { ps_cmd : AdcCommand; ps_cur : list Z; ps_to : bool; ps_feat : bool; ps_from : bool }.

(** What [parse] has when it returns: the code and the command as it was filled so far. *)
Abbreviation Result := (Z * AdcCommand)%type.

(** The end of a word: [case ' '], and the same code after the loop.  The word is emptied. *)
Definition end_word (st : PState) : Result + PState :=
  let '(mkPS c cur toSet featureSet fromSet) := st in
  let type := ac_type c in
  if has_from type && negb fromSet then
    let c := set_from c (toSID cur) in
    if ac_from c =? 0 then inl (PARSE_ERROR_INVALID_SID_LENGTH, c)
    else inr (mkPS c [] toSet featureSet true)
  else if has_to type && negb toSet then
    let c := set_to c (toSID cur) in
    if ac_to c =? 0 then inl (PARSE_ERROR_INVALID_SID_LENGTH, c)
    else inr (mkPS c [] true featureSet fromSet)
  else if (type =? TYPE_FEATURE) && negb featureSet then
    if negb (Nat.eqb (length cur mod 5) 0) then inl (PARSE_ERROR_INVALID_FEATURE_LENGTH, c)
    else inr (mkPS c [] toSet true fromSet)
  else inr (mkPS (addParam c cur) [] toSet featureSet fromSet).

Definition add_cur (st : PState) (x : Z) : PState :=
  mkPS (ps_cmd st) (ps_cur st ++ [x]) (ps_to st) (ps_feat st) (ps_from st).

(** The character after a backslash. *)
Definition unescape (nmdc : bool) (x : Z) : option Z :=
  if x =? 115 then Some 32
  else if x =? 110 then Some 10
  else if x =? 92 then Some 92
  else if (x =? 32) && nmdc then Some 32
  else None.

(** The loop over the characters from [i] on. *)
Fixpoint parse_loop (nmdc : bool) (st : PState) (s : list Z) : Result + PState :=
  match s with
  | [] => inr st
  | x :: s =>
      if x =? 92 then
        match s with
        | [] => inl (PARSE_ERROR_ESCAPE_AT_EOL, ps_cmd st)
        | y :: s =>
            match unescape nmdc y with
            | Some z => parse_loop nmdc (add_cur st z) s
            | None => inl (PARSE_ERROR_ESCAPE_AT_EOL, ps_cmd st)
            end
        end
      else if x =? 32 then
        match end_word st with inl r => inl r | inr st => parse_loop nmdc st s end
      else parse_loop nmdc (add_cur st x) s
  end.

(** What follows the loop. *)
Definition parse_end (st : PState) : Result :=
  match (match ps_cur st with [] => inr st | _ => end_word st end) with
  | inl r => r
  | inr st =>
      let c := ps_cmd st in
      if has_from (ac_type c) && negb (ps_from st) then (PARSE_ERROR_MISSING_FROM_SID, c)
      else if (ac_type c =? TYPE_FEATURE) && negb (ps_feat st) then (PARSE_ERROR_MISSING_FEATURE, c)
      else if has_to (ac_type c) && negb (ps_to st) then (PARSE_ERROR_MISSING_TO_SID, c)
      else (PARSE_OK, c)
  end.

(** The three letters read into [cmdChar]. *)
Definition read_cmd (cmd : Z) (a b c : Z) : Z := le_load ([a; b; c] ++ drop 3 (le_store 4 cmd)).

(** [parse] from the check of the type on. *)
Definition parse_body (c : AdcCommand) (buf : list Z) (nmdc : bool) (i : nat) : Result :=
  if negb (valid_type (ac_type c)) then (PARSE_ERROR_INVALID_TYPE, c)
  else
    let c := if ac_type c =? TYPE_INFO then set_from c HUB_SID else c in
    match parse_loop nmdc (mkPS c [] false false nmdc) (drop i buf) with
    | inl r => r
    | inr st => parse_end st
    end.

(** [parse(buf, len, nmdc)] on [c], of the characters [buf]. *)
Definition parse (c : AdcCommand) (buf : list Z) (nmdc : bool) : Result :=
  if nmdc then
    match buf with
    | _ :: _ :: _ :: _ :: a :: b :: d :: _ => parse_body (set_head c (read_cmd (ac_cmdInt c) a b d) TYPE_CLIENT) buf nmdc 8
    | _ => (PARSE_ERROR_TOO_SHORT, c)
    end
  else
    match buf with
    | t :: a :: b :: d :: _ => parse_body (set_head c (read_cmd (ac_cmdInt c) a b d) t) buf nmdc 5
    | _ => (PARSE_ERROR_TOO_SHORT, c)
    end.

(** ** Printing *)

Definition is_special (x : Z) : bool := (x =? 32) || (x =? 10) || (x =? 92).

Fixpoint first_special (s : list Z) : option nat :=
  match s with [] => None | x :: s => if is_special x then Some O else S <$> first_special s end.
Definition find_first_of (s : list Z) (i : nat) : option nat := (Nat.add i) <$> first_special (drop i s).

(** One pass of the loop of [escape] at the position [i] found. *)
Definition escape_at (tmp : list Z) (i : nat) (old : bool) : list Z :=
  if old then take i tmp ++ [92] ++ drop i tmp
  else take i tmp ++
       (match tmp !! i with
        | Some 32 => [92; 115]
        | Some 10 => [92; 110]
        | Some 92 => [92; 92]
        | Some x => [x]
        | None => []
        end) ++ drop (S i) tmp.

Fixpoint escape_loop (fuel : nat) (tmp : list Z) (i : nat) (old : bool) : list Z :=
  match fuel with
  | O => tmp
  | S fuel =>
      match find_first_of tmp i with
      | None => tmp
      | Some i => escape_loop fuel (escape_at tmp i old) (i + 2) old
      end
  end.

(** Each pass goes beyond one character of the text. *)
Definition escape (str : list Z) (old : bool) : list Z := escape_loop (S (length str)) str 0 old.

Definition getHeaderString (c : AdcCommand) (sid : Z) (nmdc : bool) : list Z :=
  (if nmdc then [36; 65; 68; 67] else [ac_type c]) ++ c_str (le_store 4 (ac_cmdInt c)) ++
  (if has_from (ac_type c) then 32 :: fromSID sid else []) ++
  (if has_to (ac_type c) then 32 :: fromSID (ac_to c) else []) ++
  (if ac_type c =? TYPE_FEATURE then 32 :: ac_features c else []).

Definition getHeaderString_cid (c : AdcCommand) (cid : list Z) : option (list Z) :=
  text ← CID_toBase32 cid; Some ([ac_type c] ++ c_str (le_store 4 (ac_cmdInt c)) ++ [32] ++ text).

Definition getParamString (c : AdcCommand) (nmdc : bool) : list Z :=
  concat (map (fun p => 32 :: escape p nmdc) (ac_parameters c)) ++ [if nmdc then 124 else 10].

Definition toString (c : AdcCommand) (sid : Z) (nmdc : bool) : list Z :=
  getHeaderString c sid nmdc ++ getParamString c nmdc.
Definition toString_cid (c : AdcCommand) (cid : list Z) (nmdc : bool) : option (list Z) :=
  h ← getHeaderString_cid c cid; Some (h ++ getParamString c nmdc).

(** ** Parameters by name *)

Definition toCode (x : list Z) : Z := le_load (take 2 x).

Definition getParam (c : AdcCommand) (name : Z) (start : nat) : option (list Z) :=
  (drop 2) <$> List.find (fun p => (2 <=? length p)%nat && (name =? toCode p)) (drop start (ac_parameters c)).

Definition hasFlag (c : AdcCommand) (name : Z) (start : nat) : bool :=
  existsb (fun p => (length p =? 3)%nat && (name =? toCode p) &&
                    match p !! 2%nat with Some x => x =? 49 | None => false end) (drop start (ac_parameters c)).

(** ** Dispatch *)

Definition handled : list Z :=
  [CMD 83 85 80; CMD 83 84 65; CMD 73 78 70; CMD 77 83 71; CMD 83 67 72; CMD 82 69 83; CMD 67 84 77;
   CMD 82 67 77; CMD 71 80 65; CMD 80 65 83; CMD 81 85 73; CMD 71 69 84; CMD 71 70 73; CMD 83 78 68;
   CMD 83 73 68; CMD 67 77 68; CMD 78 65 84; CMD 82 78 84; CMD 80 83 82; CMD 80 77 73; CMD 84 67 80;
   CMD 90 79 78; CMD 90 79 70].

(** [dispatch]: the command whose handler is called, with the letters that choose it. *)
Definition dispatch (buf : list Z) (nmdc : bool) : option (Z * AdcCommand) :=
  let '(r, c) := parse (new_cmd 0 0 TYPE_CLIENT) buf nmdc in
  if negb (r =? PARSE_OK) then None
  else if existsb (Z.eqb (ac_cmdInt c)) handled then Some (ac_cmdInt c, c) else None.

(** ** What [escape] writes *)

Definition esc_char (old : bool) (x : Z) : list Z :=
  if x =? 32 then (if old then [92; 32] else [92; 115])
  else if x =? 10 then (if old then [92; 10] else [92; 110])
  else if x =? 92 then [92; 92]
  else [x].
Fixpoint esc (old : bool) (s : list Z) : list Z :=
  match s with [] => [] | x :: s => esc_char old x ++ esc old s end.

Lemma esc_app old a b : esc old (a ++ b) = esc old a ++ esc old b.
Proof. induction a as [|x a IH]; cbn; [reflexivity|]. rewrite IH. apply app_assoc. Qed.

Lemma first_special_None s old : first_special s = None -> esc old s = s.
Proof.
  induction s as [|x s IH]; cbn; [reflexivity|]. unfold esc_char, is_special.
  destruct (x =? 32), (x =? 10), (x =? 92); cbn; try discriminate.
  destruct (first_special s); [discriminate|]. intros _. rewrite IH; reflexivity.
Qed.

Lemma first_special_Some s old k : first_special s = Some k ->
  exists l x r, s = l ++ x :: r /\ length l = k /\ esc old l = l /\ is_special x = true.
Proof.
  revert k. induction s as [|x s IH]; intros k H; cbn in H; [discriminate|].
  destruct (is_special x) eqn:E.
  - injection H as <-. exists [], x, s. auto.
  - destruct (first_special s) as [j|]; [|discriminate]. injection H as <-.
    destruct (IH j eq_refl) as (l & y & r & -> & <- & Hl & Hy). exists (x :: l), y, r.
    split; [reflexivity|]. split; [reflexivity|]. split; [|exact Hy].
    cbn [esc]. rewrite Hl. unfold esc_char. unfold is_special in E.
    destruct (x =? 32), (x =? 10), (x =? 92); cbn in E; try discriminate. reflexivity.
Qed.

Lemma escape_at_spec l x r old : is_special x = true ->
  escape_at (l ++ x :: r) (length l) old = l ++ esc_char old x ++ r /\ length (esc_char old x) = 2%nat.
Proof.
  intros H. unfold escape_at, is_special in *.
  rewrite take_app_length, list_lookup_middle by reflexivity.
  assert (drop (S (length l)) (l ++ x :: r) = r) as ->.
  { replace (l ++ x :: r) with ((l ++ [x]) ++ r) by (rewrite <- app_assoc; reflexivity).
    replace (S (length l)) with (length (l ++ [x])) by (rewrite length_app; cbn; lia). apply drop_app_length. }
  rewrite drop_app_length.
  assert (x = 32 \/ x = 10 \/ x = 92) as [->|[->| ->]] by lia; destruct old; auto.
Qed.

Lemma escape_loop_spec fuel pre rest old : (length rest < fuel)%nat ->
  escape_loop fuel (pre ++ rest) (length pre) old = pre ++ esc old rest.
Proof.
  revert pre rest. induction fuel as [|fuel IH]; intros pre rest Hf; [lia|]. cbn [escape_loop].
  unfold find_first_of. rewrite drop_app_length.
  destruct (first_special rest) as [k|] eqn:E; cbn [fmap option_fmap option_map].
  - destruct (first_special_Some rest old k E) as (l & x & r & -> & <- & Hl & Hx).
    rewrite app_assoc, <- length_app. destruct (escape_at_spec (pre ++ l) x r old Hx) as [-> H2].
    rewrite length_app in Hf. cbn in Hf. replace (length (pre ++ l) + 2)%nat
      with (length ((pre ++ l) ++ esc_char old x)) by (rewrite length_app; lia).
    rewrite (app_assoc (pre ++ l)), IH by lia.
    rewrite esc_app, Hl. cbn [esc]. rewrite <- !app_assoc. reflexivity.
  - rewrite (first_special_None rest old E). reflexivity.
Qed.

Lemma escape_esc str old : escape str old = esc old str.
Proof. exact (escape_loop_spec (S (length str)) [] str old (Nat.lt_succ_diag_r _)). Qed.

(** ** The words of a command *)

Definition plain (w : list Z) : Prop := Forall (fun x => x <> 32 /\ x <> 92) w.
Definition with_cur (st : PState) (v : list Z) : PState :=
  mkPS (ps_cmd st) v (ps_to st) (ps_feat st) (ps_from st).

(** The text [w] is read as the word [v]. *)
Definition decodes (nmdc : bool) (w v : list Z) : Prop :=
  forall st s, parse_loop nmdc st (w ++ s) = parse_loop nmdc (with_cur st (ps_cur st ++ v)) s.

Lemma with_cur_nil st : with_cur st (ps_cur st ++ []) = st.
Proof. destruct st. unfold with_cur. cbn. rewrite app_nil_r. reflexivity. Qed.

Lemma decodes_cons nmdc w v w1 x :
  (forall st s, parse_loop nmdc st (w1 ++ s) = parse_loop nmdc (add_cur st x) s) ->
  decodes nmdc w v -> decodes nmdc (w1 ++ w) (x :: v).
Proof.
  intros H1 Hd st s. rewrite <- app_assoc, H1, Hd. unfold add_cur, with_cur. cbn. rewrite <- app_assoc. reflexivity.
Qed.

Lemma decodes_plain nmdc w : plain w -> decodes nmdc w w.
Proof.
  induction 1 as [|x w [H1 H2] _ IH]; [intros st s; rewrite with_cur_nil; reflexivity|].
  apply (decodes_cons nmdc w w [x]); [|exact IH]. intros st s. cbn [app parse_loop].
  rewrite (proj2 (Z.eqb_neq _ _)) by assumption. rewrite (proj2 (Z.eqb_neq _ _)) by assumption. reflexivity.
Qed.

Lemma decodes_escape nmdc p : (nmdc = true -> 10 ∉ p) -> decodes nmdc (escape p nmdc) p.
Proof.
  rewrite escape_esc. induction p as [|x p IH]; intros Hn; [intros st s; rewrite with_cur_nil; reflexivity|].
  cbn [esc]. apply decodes_cons.
  - intros st s. unfold esc_char. destruct (x =? 32) eqn:E1; [|destruct (x =? 10) eqn:E2; [|destruct (x =? 92) eqn:E3]].
    all: zb; subst; destruct nmdc; try reflexivity; cbn [app parse_loop].
    + exfalso. apply Hn; [reflexivity|left].
    + rewrite (proj2 (Z.eqb_neq _ _) E3), (proj2 (Z.eqb_neq _ _) E1). reflexivity.
    + rewrite (proj2 (Z.eqb_neq _ _) E3), (proj2 (Z.eqb_neq _ _) E1). reflexivity.
  - apply IH. intros H Hp. apply (Hn H). right. exact Hp.
Qed.

(** The words of a line, one after the other. *)
Fixpoint end_words (st : PState) (vs : list (list Z)) : Result + PState :=
  match vs with
  | [] => inr st
  | v :: vs => match end_word (with_cur st v) with inl r => inl r | inr st => end_words st vs end
  end.

Lemma end_words_app st a b :
  end_words st (a ++ b) = match end_words st a with inl r => inl r | inr st => end_words st b end.
Proof. revert st. induction a as [|v a IH]; intros st; [reflexivity|]. cbn [app end_words].
  destruct (end_word (with_cur st v)); auto. Qed.

Lemma end_word_cur st st' : end_word st = inr st' -> ps_cur st' = [].
Proof.
  destruct st as [c cur t f fr]. cbn [end_word]. repeat case_if; intros Hr; try discriminate;
    injection Hr as <-; reflexivity.
Qed.

Lemma parse_end_word st : ps_cur st <> [] ->
  parse_end st = match end_word st with inl r => r | inr st => parse_end st end.
Proof.
  intros H. unfold parse_end at 1. destruct (ps_cur st) eqn:E; [contradiction|].
  destruct (end_word st) as [r|st'] eqn:E'; [reflexivity|].
  unfold parse_end. rewrite (end_word_cur st st' E'). reflexivity.
Qed.

(** A line of words is read word by word; the last one must not be empty. *)
Lemma parse_words nmdc ws vs st : Forall2 (decodes nmdc) ws vs -> ps_cur st = [] ->
  (forall v, last vs = Some v -> v <> []) ->
  match parse_loop nmdc st (drop 1 (concat (map (cons 32) ws))) with inl r => r | inr st => parse_end st end
  = match end_words st vs with inl r => r | inr st => parse_end st end.
Proof.
  intros Hd. revert st. induction Hd as [|w v ws vs Hw Hd IH]; intros st Hc Hl; [reflexivity|].
  cbn [map concat]. change (drop 1 ((32 :: w) ++ ?s)) with (w ++ s). rewrite (Hw st), Hc.
  cbn [app end_words]. destruct ws as [|w' ws].
  - apply Forall2_nil_inv_l in Hd. subst vs. cbn [map concat parse_loop end_words].
    rewrite parse_end_word by (apply Hl; reflexivity). destruct (end_word (with_cur st v)); reflexivity.
  - inversion Hd as [|? v' ? vs' Hw' Hd']; subst. cbn [map concat app parse_loop].
    change (32 =? 92) with false. change (32 =? 32) with true. cbn match.
    destruct (end_word (with_cur st v)) as [r|st'] eqn:E; [reflexivity|].
    rewrite <- IH; [reflexivity|eapply end_word_cur, E|]. intros u Hu. apply Hl. rewrite last_cons_cons. exact Hu.
Qed.

(** ** Round trip *)

Definition header_words (c : AdcCommand) (sid : Z) : list (list Z) :=
  (if has_from (ac_type c) then [fromSID sid] else []) ++
  (if has_to (ac_type c) then [fromSID (ac_to c)] else []) ++
  (if ac_type c =? TYPE_FEATURE then [ac_features c] else []).

Definition sid_ok (sid : Z) : Prop := 0 < sid < 2 ^ 32 /\ plain (fromSID sid).

(** A command that can be sent: its type is one of the protocol (and [C] inside NMDC), its
    name has three letters, its addresses are not zero and hold neither spaces nor
    backslashes, features are four letters after a sign each, and the last word is not empty. *)
Record sendable (c : AdcCommand) (sid : Z) (nmdc : bool) : Prop := {
  sd_type : valid_type (ac_type c) = true;
  sd_nmdc : nmdc = true -> ac_type c = TYPE_CLIENT;
  sd_cmd : exists a b d, Forall (fun x => 1 <= x <= 255) [a; b; d] /\ ac_cmdInt c = le_load [a; b; d; 0];
  sd_from : has_from (ac_type c) = true -> sid_ok sid;
  sd_to : has_to (ac_type c) = true -> sid_ok (ac_to c);
  sd_feat : ac_type c = TYPE_FEATURE -> (length (ac_features c) mod 5 = 0)%nat /\ plain (ac_features c);
  sd_lines : nmdc = true -> Forall (fun p => 10 ∉ p) (ac_parameters c);
  sd_last : forall v, last (header_words c sid ++ ac_parameters c) = Some v -> v <> [] }.

(** What the receiver has of it: the features are skipped. *)
Definition received (c : AdcCommand) (sid : Z) : AdcCommand :=
  mkAdc (ac_parameters c) [] (ac_cmdInt c)
    (if has_from (ac_type c) then sid else if ac_type c =? TYPE_INFO then HUB_SID else 0)
    (if has_to (ac_type c) then ac_to c else 0) (ac_type c).

Lemma toSID_fromSID sid : 0 < sid < 2 ^ 32 -> toSID (fromSID sid) = sid /\ (toSID (fromSID sid) =? 0) = false.
Proof.
  intros H. unfold toSID, fromSID. rewrite length_le_store. cbn [Nat.eqb].
  rewrite le_load_store by (cbn; lia). lia.
Qed.

Lemma cmd_letters cmd a b d : Forall (fun x => 1 <= x <= 255) [a; b; d] -> cmd = le_load [a; b; d; 0] ->
  c_str (le_store 4 cmd) = [a; b; d] /\ read_cmd 0 a b d = cmd.
Proof.
  intros H ->. split; [|reflexivity].
  change 4%nat with (length [a; b; d; 0]). rewrite le_store_load.
  - rewrite !Forall_cons in H. destruct H as (Ha & Hb & Hd & _). cbn [c_str].
    rewrite !(proj2 (Z.eqb_neq _ 0)) by lia. reflexivity.
  - rewrite !Forall_cons in H. unfold bytes_ok. rewrite !Forall_cons. unfold is_byte.
    destruct H as (Ha & Hb & Hd & _). repeat split; try lia. constructor.
Qed.

Lemma valid_type_cases t : valid_type t = true ->
  t = TYPE_BROADCAST \/ t = TYPE_CLIENT \/ t = TYPE_DIRECT \/ t = TYPE_ECHO \/ t = TYPE_FEATURE \/
  t = TYPE_INFO \/ t = TYPE_HUB \/ t = TYPE_UDP.
Proof. unfold valid_type. cbn [existsb]. intros H. zb. lia. Qed.

Lemma end_words_params c t f fr ps :
  has_from (ac_type c) && negb fr = false -> has_to (ac_type c) && negb t = false ->
  (ac_type c =? TYPE_FEATURE) && negb f = false ->
  end_words (mkPS c [] t f fr) ps = inr (mkPS (set_params c (ac_parameters c ++ ps)) [] t f fr).
Proof.
  intros H1 H2 H3. revert c H1 H2 H3. induction ps as [|p ps IH]; intros c H1 H2 H3; cbn [end_words].
  - rewrite app_nil_r. destruct c. reflexivity.
  - unfold with_cur, end_word. cbn [ps_cmd ps_to ps_feat ps_from]. cbv zeta. rewrite H1, H2, H3.
    rewrite IH by assumption. unfold addParam. cbn. rewrite <- app_assoc. reflexivity.
Qed.

(** The header words leave the addresses set. *)
Lemma end_words_header c sid nmdc cmd from0 : sendable c sid nmdc ->
  from0 = (if ac_type c =? TYPE_INFO then HUB_SID else 0) ->
  end_words (mkPS (mkAdc [] [] cmd from0 0 (ac_type c)) [] false false nmdc) (header_words c sid)
  = inr (mkPS (mkAdc [] [] cmd (if has_from (ac_type c) then sid else from0)
                (if has_to (ac_type c) then ac_to c else 0) (ac_type c)) []
              (has_to (ac_type c)) (ac_type c =? TYPE_FEATURE) (has_from (ac_type c) || nmdc)).
Proof.
  intros [Ht Hn _ Hf Hto Hfe _ _] ->. unfold header_words. revert Hn Hf Hto Hfe. destruct nmdc.
  - intros Hn _ _ _. rewrite (Hn eq_refl). reflexivity.
  - intros _ Hf Hto Hfe.
    destruct (valid_type_cases _ Ht) as [E|[E|[E|[E|[E|[E|[E|E]]]]]]]; rewrite E in *; try reflexivity;
      cbn in Hf, Hto; specialize (Hf eq_refl) as [Hs _]; pose proof (toSID_fromSID sid Hs) as [Es Es0].
    + cbn -[toSID fromSID Nat.modulo]. rewrite Es0, Es. reflexivity.
    + specialize (Hto eq_refl) as [Hs' _]. pose proof (toSID_fromSID _ Hs') as [Et Et0].
      cbn -[toSID fromSID Nat.modulo]. rewrite Es0, Es. cbn -[toSID fromSID Nat.modulo]. rewrite Et0, Et. reflexivity.
    + specialize (Hto eq_refl) as [Hs' _]. pose proof (toSID_fromSID _ Hs') as [Et Et0].
      cbn -[toSID fromSID Nat.modulo]. rewrite Es0, Es. cbn -[toSID fromSID Nat.modulo]. rewrite Et0, Et. reflexivity.
    + specialize (Hfe eq_refl) as [H5 _]. cbn -[toSID fromSID Nat.modulo]. rewrite Es0, Es. cbn -[toSID fromSID Nat.modulo]. rewrite H5. reflexivity.
Qed.

Lemma header_words_decode c sid nmdc : sendable c sid nmdc ->
  Forall2 (decodes nmdc) (header_words c sid) (header_words c sid).
Proof.
  intros [_ _ _ Hf Hto Hfe _ _]. unfold header_words.
  apply Forall2_app; [|apply Forall2_app].
  - destruct (has_from (ac_type c)); repeat constructor. apply decodes_plain, Hf. reflexivity.
  - destruct (has_to (ac_type c)); repeat constructor. apply decodes_plain, Hto. reflexivity.
  - destruct (ac_type c =? TYPE_FEATURE) eqn:E; repeat constructor. zb. apply decodes_plain, Hfe, E.
Qed.

Lemma params_decode nmdc ps : (nmdc = true -> Forall (fun p => 10 ∉ p) ps) ->
  Forall2 (decodes nmdc) (map (fun p => escape p nmdc) ps) ps.
Proof.
  intros H. induction ps as [|p ps IH]; constructor.
  - apply decodes_escape. intros Hn. specialize (H Hn). inversion H. assumption.
  - apply IH. intros Hn. specialize (H Hn). inversion H. assumption.
Qed.

Lemma toString_words c sid nmdc a b d : c_str (le_store 4 (ac_cmdInt c)) = [a; b; d] ->
  toString c sid nmdc =
  (if nmdc then [36; 65; 68; 67; a; b; d] else [ac_type c; a; b; d]) ++
  concat (map (cons 32) (header_words c sid ++ map (fun p => escape p nmdc) (ac_parameters c))) ++
  [if nmdc then 124 else 10].
Proof.
  intros Hc. unfold toString, getHeaderString, getParamString, header_words. rewrite Hc.
  rewrite !map_app, !concat_app, map_map.
  destruct nmdc, (has_from (ac_type c)), (has_to (ac_type c)), (ac_type c =? TYPE_FEATURE);
    cbn [map concat app]; rewrite <- ?app_assoc; cbn [app]; rewrite ?app_nil_r; rewrite <- ?app_assoc; reflexivity.
Qed.

Lemma parse_body_fresh cmd ty buf nmdc i : valid_type ty = true ->
  parse_body (set_head (new_cmd 0 0 TYPE_CLIENT) cmd ty) buf nmdc i =
  match parse_loop nmdc (mkPS (mkAdc [] [] cmd (if ty =? TYPE_INFO then HUB_SID else 0) 0 ty) [] false false nmdc)
          (drop i buf) with
  | inl r => r
  | inr st => parse_end st
  end.
Proof. intros H. unfold parse_body. cbn [set_head ac_type]. rewrite H. cbn [negb]. destruct (ty =? TYPE_INFO); reflexivity. Qed.

Lemma parse_end_ok c t f fr :
  has_from (ac_type c) && negb fr = false -> has_to (ac_type c) && negb t = false ->
  (ac_type c =? TYPE_FEATURE) && negb f = false ->
  parse_end (mkPS c [] t f fr) = (PARSE_OK, c).
Proof. intros H1 H2 H3. unfold parse_end. cbn [ps_cur ps_cmd ps_from ps_feat ps_to]. rewrite H1, H2, H3. reflexivity. Qed.

Lemma parse_sent c sid nmdc : sendable c sid nmdc ->
  exists text, toString c sid nmdc = text ++ [if nmdc then 124 else 10] /\
  parse (new_cmd 0 0 TYPE_CLIENT) text nmdc = (PARSE_OK, received c sid).
Proof.
  intros Hs. destruct (sd_cmd _ _ _ Hs) as (a & b & d & Hl & Hc).
  destruct (cmd_letters _ a b d Hl Hc) as [Hstr Hread]. rewrite (toString_words c sid nmdc a b d Hstr), app_assoc.
  eexists. split; [reflexivity|].
  pose proof (parse_words nmdc (header_words c sid ++ map (fun p => escape p nmdc) (ac_parameters c))
    (header_words c sid ++ ac_parameters c)
    (mkPS (mkAdc [] [] (ac_cmdInt c) (if ac_type c =? TYPE_INFO then HUB_SID else 0) 0 (ac_type c)) [] false false nmdc)
    (Forall2_app (header_words_decode c sid nmdc Hs) (params_decode nmdc _ (sd_lines _ _ _ Hs)))
    eq_refl (sd_last _ _ _ Hs)) as Hp.
  rewrite end_words_app, (end_words_header c sid nmdc _ _ Hs eq_refl), end_words_params, parse_end_ok in Hp.
  2-7: cbn; destruct (has_from (ac_type c)), (has_to (ac_type c)), (ac_type c =? TYPE_FEATURE); reflexivity.
  set (words := concat (map (cons 32) _)) in *.
  pose proof (sd_type _ _ _ Hs) as Ht. pose proof (sd_nmdc _ _ _ Hs) as Hn.
  destruct nmdc; unfold parse; cbn [app]; change (ac_cmdInt (new_cmd 0 0 TYPE_CLIENT)) with 0; rewrite Hread.
  - rewrite parse_body_fresh by reflexivity. unfold received. rewrite (Hn eq_refl) in *. exact Hp.
  - rewrite parse_body_fresh by exact Ht. exact Hp.
Qed.

(** C13.  A command that can be sent is read back by the receiver: the text without its
    terminator gives the type, the name, the sender, the addressee and all parameters,
    also those with spaces, backslashes or, outside NMDC, newlines, which are escaped; the list of
    features is checked and dropped.  The handler of its name is called with it, when there is one.
    A command can be sent if its type is one of the protocol, and [C] inside NMDC; its name has three
    characters other than 0; the identifiers of the sender and the addressee, where the type has them,
    are not 0 and have neither a space nor a backslash among their four bytes; the features have
    five characters each, none a space or a backslash; the last word is not empty; and inside NMDC no
    parameter has a newline ([parse] takes its escape for an error there). *)
Theorem AdcCommand_roundtrip c sid nmdc : sendable c sid nmdc ->
  exists text, toString c sid nmdc = text ++ [if nmdc then 124 else 10] /\
  parse (new_cmd 0 0 TYPE_CLIENT) text nmdc = (PARSE_OK, received c sid) /\
  dispatch text nmdc = if existsb (Z.eqb (ac_cmdInt c)) handled then Some (ac_cmdInt c, received c sid) else None.
Proof.
  intros Hs. destruct (parse_sent c sid nmdc Hs) as (text & Et & Ep). exists text. split; [exact Et|].
  split; [exact Ep|]. unfold dispatch. rewrite Ep. reflexivity.
Qed.

(** A search sent to one user, with the characters that are escaped. *)
Definition sample_command : AdcCommand :=
  mkAdc [[84; 79; 97; 32; 98]; []; [10; 92]] [] (CMD 83 67 72) 0 0x42424242 TYPE_DIRECT.

Lemma AdcCommand_roundtrip_witness : exists text,
  toString sample_command 0x41414141 false = text ++ [10] /\
  parse (new_cmd 0 0 TYPE_CLIENT) text false = (PARSE_OK, received sample_command 0x41414141) /\
  dispatch text false = Some (CMD 83 67 72, received sample_command 0x41414141).
Proof.
  apply (AdcCommand_roundtrip sample_command 0x41414141 false). split; try discriminate.
  - reflexivity.
  - exists 83, 67, 72. split; [repeat constructor; lia|reflexivity].
  - intros _. split; [lia|]. repeat constructor; vm_compute; discriminate.
  - intros _. split; [cbn; lia|]. repeat constructor; vm_compute; discriminate.
  - intros v H. vm_compute in H. injection H as <-. discriminate.
Defined.

(** ** Named parameters *)

Lemma find_app {A} (f : A -> bool) a b :
  List.find f (a ++ b) = match List.find f a with Some x => Some x | None => List.find f b end.
Proof. induction a as [|x a IH]; cbn; [reflexivity|]. destruct (f x); auto. Qed.

Lemma drop_snoc {A} n (l : list A) x :
  drop n (l ++ [x]) = if (n <=? length l)%nat then drop n l ++ [x] else [].
Proof.
  destruct (n <=? length l)%nat eqn:E.
  - apply Nat.leb_le in E. apply drop_app_le. exact E.
  - apply Nat.leb_gt in E. apply drop_ge. rewrite length_app. cbn. lia.
Qed.

Lemma toCode_tag name v : 0 <= name < 2 ^ 16 -> toCode (le_store 2 name ++ v) = name.
Proof.
  intros H. unfold toCode. rewrite take_app_le by (rewrite length_le_store; lia).
  rewrite take_ge by (rewrite length_le_store; lia). apply le_load_store. cbn. lia.
Qed.

(** A named parameter added to a command is the one [getParam] finds, unless the command
    already had one of that name, and it is a flag exactly when its value is [1]. *)
Theorem addParam_getParam c name v start : 0 <= name < 2 ^ 16 ->
  getParam (addParam_named c name v) name start =
    match getParam c name start with
    | Some w => Some w
    | None => if (start <=? length (ac_parameters c))%nat then Some v else None
    end /\
  hasFlag (addParam_named c name v) name start =
    hasFlag c name start || (start <=? length (ac_parameters c))%nat && bool_decide (v = [49]).
Proof.
  intros Hn. unfold getParam, hasFlag, addParam_named, addParam. cbn [set_params ac_parameters].
  rewrite drop_snoc. destruct (start <=? length (ac_parameters c))%nat eqn:E.
  - rewrite find_app, existsb_app. cbn [existsb List.find]. rewrite toCode_tag, Z.eqb_refl by exact Hn.
    rewrite length_app, length_le_store. cbn [Nat.add Nat.leb andb Nat.eqb].
    split; [destruct (List.find _ _); reflexivity|]. f_equal. rewrite orb_false_r.
    destruct v as [|x [|y v]]; cbn; try reflexivity. destruct (x =? 49) eqn:Ex; zb.
    + subst. reflexivity.
    + symmetry. apply bool_decide_eq_false. congruence.
    + symmetry. apply bool_decide_eq_false. congruence.
  - rewrite (drop_ge (ac_parameters c)) by (apply Nat.leb_gt in E; lia). split; reflexivity.
Qed.

Lemma addParam_getParam_witness :
  getParam (addParam_named sample_command 0x4F54 [49]) 0x4F54 0 = Some [97; 32; 98] /\
  hasFlag (addParam_named sample_command 0x4F54 [49]) 0x4F54 0 = true.
Proof.
  destruct (addParam_getParam sample_command 0x4F54 [49] 0 ltac:(lia)) as [-> ->]. split; reflexivity.
Defined.
