(* ===== verification/KBucket.v ===== *)
(** * The routing table of the DHT: [client/dht/KBucket.h], [client/dht/KBucket.cpp],
    [client/dht/NodeAddress.h], [client/dht/Constants.h] and [Utils::getDistance]

    The bucket holds pointers to nodes that other parts of the program share, so the nodes
    are in a store [kb_heap]; a pointer outside it is undefined ([None]).  [GET_TICK()] is an
    argument; [online] is what the client manager finds for a user that is online. *)

From S2P Require Import Prelude CArray Base32 HashValue.

Definition ID_BITS := 192.
Definition K := 10.
Definition NODE_RESPONSE_TIMEOUT := 2 * 60 * 1000.
Definition NODE_EXPIRATION := 2 * 60 * 60 * 1000.

Abbreviation ptr := positive.
Definition NodeAddress := (Z * Z)%type.

Record Node := mkNode {
  nd_cid : list Z; nd_passive : bool; nd_ip : Z; nd_port : Z;
  nd_created : Z; nd_expires : Z; nd_type : Z; nd_ipVerified : bool; nd_online : bool; nd_isInList : bool }.

Definition nd_addr (n : Node) : NodeAddress := (nd_ip n, nd_port n).
Definition set_life (n : Node) type expires :=
  mkNode (nd_cid n) (nd_passive n) (nd_ip n) (nd_port n) (nd_created n) expires type (nd_ipVerified n) (nd_online n) (nd_isInList n).
Definition set_addr (n : Node) ip port :=
  mkNode (nd_cid n) (nd_passive n) ip port (nd_created n) (nd_expires n) (nd_type n) (nd_ipVerified n) (nd_online n) (nd_isInList n).
Definition setIpVerified (n : Node) v :=
  mkNode (nd_cid n) (nd_passive n) (nd_ip n) (nd_port n) (nd_created n) (nd_expires n) (nd_type n) v (nd_online n) (nd_isInList n).
Definition set_inList (n : Node) v :=
  mkNode (nd_cid n) (nd_passive n) (nd_ip n) (nd_port n) (nd_created n) (nd_expires n) (nd_type n) (nd_ipVerified n) (nd_online n) v.

Definition new_node (cid : list Z) (passive : bool) (now : Z) : Node :=
  mkNode cid passive 0 0 now 0 3 false false false.

Definition setAlive (n : Node) (now : Z) : Node :=
  let hours := u64 (now - nd_created n) / (60 * 60 * 1000) in
  if hours =? 0 then set_life n 2 (u64 (now + NODE_EXPIRATION / 2))
  else if hours =? 1 then set_life n 1 (u64 (now + NODE_EXPIRATION * 2 / 3))
  else set_life n 0 (u64 (now + NODE_EXPIRATION)).

Definition setTimeout (n : Node) (now : Z) : Node :=
  if nd_type n =? 4 then n else set_life n (u8 (nd_type n + 1)) (u64 (now + NODE_RESPONSE_TIMEOUT)).

(** [kb_dht]: the users with the flag [User::DHT]; [kb_dirty]: [DHT::setDirty()] was called. *)
Record KBucket := mkKB {
  kb_heap : gmap ptr Node; kb_nodes : list ptr; kb_ipMap : gset NodeAddress;
  kb_dht : gset (list Z); kb_dirty : bool }.

(** ** Creating a node *)

(** The position of the user's node. *)
Fixpoint find_cid (h : gmap ptr Node) (cid : list Z) (l : list ptr) : option (option nat) :=
  match l with
  | [] => Some None
  | p :: l => n ← h !! p; if CID_eq cid (nd_cid n) then Some (Some O) else option_map (option_map S) (find_cid h cid l)
  end.

(** The update of a known node. *)
Definition update_node (b : KBucket) (p : ptr) (ip port : Z) (isUdpKeyValid : bool) (now : Z) : option KBucket :=
  n ← kb_heap b !! p;
  let moved := negb (ip =? nd_ip n) || negb (nd_port n =? port) in
  let n' := if moved then setIpVerified n false else n in
  let ipMap := if moved then {[ (ip, port) ]} ∪ (kb_ipMap b ∖ {[ nd_addr n ]}) else kb_ipMap b in
  let n' := if negb (nd_ipVerified n') then setIpVerified n' isUdpKeyValid else n' in
  Some (mkKB (<[ p := set_addr (setAlive n' now) ip port ]> (kb_heap b)) (kb_nodes b) ipMap (kb_dht b) true).

(** [createNode]: the bucket and the node. *)
Definition createNode (b : KBucket) (cid : list Z) (passive : bool) (online : list Z -> option ptr)
    (ip port : Z) (update isUdpKeyValid : bool) (now : Z) : option (KBucket * ptr) :=
  known ← (if bool_decide (cid ∈ kb_dht b) then
             found ← find_cid (kb_heap b) cid (kb_nodes b);
             match found with
             | Some i =>
                 p ← kb_nodes b !! i;
                 Some (Some (p, mkKB (kb_heap b) (delete i (kb_nodes b) ++ [p]) (kb_ipMap b) (kb_dht b) (kb_dirty b)))
             | None => Some ((fun p => (p, b)) <$> online cid)
             end
           else Some None);
  match known with
  | Some (p, b) =>
      if update then b ← update_node b p ip port isUdpKeyValid now; Some (b, p) else Some (b, p)
  | None =>
      let p := fresh (dom (kb_heap b)) in
      let n := setIpVerified (set_addr (new_node cid passive now) ip port) isUdpKeyValid in
      Some (mkKB (<[ p := n ]> (kb_heap b)) (kb_nodes b) (kb_ipMap b) ({[ cid ]} ∪ kb_dht b) (kb_dirty b), p)
  end.

(** ** Adding a node *)

Definition insert (b : KBucket) (p : ptr) : option (KBucket * bool) :=
  n ← kb_heap b !! p;
  if nd_isInList n then Some (b, true)
  else
    let na := nd_addr n in
    let isAcceptable := negb (bool_decide (na ∈ kb_ipMap b)) in
    if (Z.of_nat (length (kb_nodes b)) <? K * ID_BITS) && isAcceptable then
      Some (mkKB (<[ p := set_inList n true ]> (kb_heap b)) (kb_nodes b ++ [p]) ({[ na ]} ∪ kb_ipMap b) (kb_dht b) true, true)
    else Some (b, isAcceptable).

(** ** The closest nodes *)

Definition getDistance (cid1 cid2 : list Z) : list Z :=
  concat (map (fun i => le_store 8 (Z.lxor (cid_w cid1 i) (cid_w cid2 i))) (seq 0 3)).

(** [Node::Map], a [std::map], by increasing key. *)
Definition NodeMap := list (list Z * ptr).

Fixpoint nm_insert (m : NodeMap) (k : list Z) (p : ptr) : NodeMap :=
  match m with
  | [] => [(k, p)]
  | (k', p') :: r =>
      if CID_lt k k' then (k, p) :: m
      else if CID_lt k' k then (k', p') :: nm_insert r k p
      else m
  end.

Definition closest_step (cid : list Z) (max : nat) (maxType : Z) (closest : NodeMap) (p : ptr) (n : Node) : option NodeMap :=
  if (nd_type n <=? maxType) && nd_ipVerified n && negb (nd_passive n) then
    let distance := getDistance cid (nd_cid n) in
    if (length closest <? max)%nat then Some (nm_insert closest distance p)
    else
      '(k, _) ← last closest;
      if CID_lt distance k then Some (nm_insert (filter (fun x => CID_eq (fst x) k = false) closest) distance p)
      else Some closest
  else Some closest.

Fixpoint closest_loop (h : gmap ptr Node) (cid : list Z) (max : nat) (maxType : Z) (closest : NodeMap) (l : list ptr) : option NodeMap :=
  match l with
  | [] => Some closest
  | p :: l => n ← h !! p; closest ← closest_step cid max maxType closest p n; closest_loop h cid max maxType closest l
  end.

Definition getClosestNodes (b : KBucket) (cid : list Z) (closest : NodeMap) (max : nat) (maxType : Z) : option NodeMap :=
  closest_loop (kb_heap b) cid max maxType closest (kb_nodes b).

(** ** Expiration *)

Definition pingCount (size : nat) : nat := Nat.max 10 (Nat.min 20 (size / 100 + 1)).

(** What the loop has changed: the store, the addresses, the nodes kept, the nodes of
    [removedList], the nodes pinged, [dirty]. *)
Record EState := mkES {
  es_heap : gmap ptr Node; es_ipMap : gset NodeAddress; es_kept : list ptr;
  es_removed : list ptr; es_pinged : list ptr; es_dirty : bool }.

Definition dead (now : Z) (n : Node) : bool := (nd_type n =? 4) && (0 <? nd_expires n) && (nd_expires n <=? now).

Definition expire_step (now : Z) (count : nat) (st : EState) (p : ptr) : option EState :=
  n ← es_heap st !! p;
  if dead now n then
    Some (mkES (es_heap st) (es_ipMap st ∖ {[ nd_addr n ]}) (es_kept st)
            (if nd_online n then es_removed st ++ [p] else es_removed st) (es_pinged st) true)
  else
    let n := if nd_expires n =? 0 then set_life n (nd_type n) now else n in
    if (length (es_pinged st) <? count)%nat && (nd_type n <? 4) && (nd_expires n <=? now) then
      Some (mkES (<[ p := setTimeout n now ]> (es_heap st)) (es_ipMap st) (es_kept st ++ [p])
              (es_removed st) (es_pinged st ++ [p]) (es_dirty st))
    else
      Some (mkES (<[ p := n ]> (es_heap st)) (es_ipMap st) (es_kept st ++ [p]) (es_removed st) (es_pinged st) (es_dirty st)).

Fixpoint expire_loop (now : Z) (count : nat) (st : EState) (l : list ptr) : option EState :=
  match l with [] => Some st | p :: l => st ← expire_step now count st p; expire_loop now count st l end.

(** [checkExpiration]: the bucket, [removedList], the nodes pinged and the answer. *)
Definition checkExpiration (b : KBucket) (now : Z) : option (KBucket * list ptr * list ptr * bool) :=
  st ← expire_loop now (pingCount (length (kb_nodes b))) (mkES (kb_heap b) (kb_ipMap b) [] [] [] false) (kb_nodes b);
  Some (mkKB (es_heap st) (es_kept st) (es_ipMap st) (kb_dht b) (kb_dirty b), es_removed st, es_pinged st, es_dirty st).

(** ** Distances *)

Definition cid_ok (a : list Z) : Prop := bytes_ok a /\ length a = CID_SIZE.

Lemma cid_w_bound a i : cid_ok a -> (i < 3)%nat -> 0 <= cid_w a i < 2 ^ 64 /\
  le_store 8 (cid_w a i) = take 8 (drop (8 * i) a).
Proof.
  intros [Hb Hl] Hi. unfold CID_SIZE in Hl. unfold cid_w.
  assert (bytes_ok (take 8 (drop (8 * i) a))) as H8 by (apply Forall_take, Forall_drop, Hb).
  assert (length (take 8 (drop (8 * i) a)) = 8%nat) as H by (rewrite length_take, length_drop; lia).
  pose proof (le_load_bound _ H8) as Hr. rewrite H in Hr. split; [exact Hr|].
  rewrite <- H at 1. apply le_store_load, H8.
Qed.

Lemma cid_words a : cid_ok a -> a = concat (map (fun i => le_store 8 (cid_w a i)) (seq 0 3)).
Proof.
  intros Ha. cbn [seq map concat]. rewrite !(fun i Hi => proj2 (cid_w_bound a i Ha Hi)) by lia.
  destruct Ha as [_ Hl]. unfold CID_SIZE in Hl.
  change (8 * 0)%nat with 0%nat. change (8 * 1)%nat with 8%nat. change (8 * 2)%nat with 16%nat.
  rewrite drop_0, app_nil_r, (take_ge (drop 16 a)) by (rewrite length_drop; lia).
  rewrite <- (take_drop 8 a) at 1. f_equal. rewrite <- (take_drop 8 (drop 8 a)) at 1. rewrite drop_drop. reflexivity.
Qed.

Lemma lxor_u64 x y : 0 <= x < 2 ^ 64 -> 0 <= y < 2 ^ 64 -> 0 <= Z.lxor x y < 2 ^ 64.
Proof.
  intros Hx Hy. split; [apply Z.lxor_nonneg; lia|].
  destruct (Z.eq_dec (Z.lxor x y) 0) as [->|Hn]; [lia|].
  apply Z.log2_lt_pow2; [pose proof (proj2 (Z.lxor_nonneg x y)); lia|].
  eapply Z.le_lt_trans; [apply Z.log2_lxor; lia|].
  apply Z.max_lub_lt; (destruct (Z.eq_dec x 0), (Z.eq_dec y 0); subst; rewrite ?Z.log2_nonpos by lia; try lia;
    apply Z.log2_lt_pow2; lia).
Qed.

Lemma getDistance_length a b : length (getDistance a b) = CID_SIZE.
Proof. unfold getDistance. cbn [seq map concat]. rewrite !length_app, !length_le_store. reflexivity. Qed.

Lemma getDistance_inj c a b : cid_ok c -> cid_ok a -> cid_ok b -> getDistance c a = getDistance c b -> a = b.
Proof.
  intros Hc Ha Hb H. rewrite (cid_words a Ha), (cid_words b Hb).
  assert (forall i, (i < 3)%nat -> le_store 8 (Z.lxor (cid_w c i) (cid_w a i)) = le_store 8 (Z.lxor (cid_w c i) (cid_w b i)) ->
    cid_w a i = cid_w b i) as Hw.
  { intros i Hi Hs. pose proof (proj1 (cid_w_bound c i Hc Hi)). pose proof (proj1 (cid_w_bound a i Ha Hi)).
    pose proof (proj1 (cid_w_bound b i Hb Hi)). apply (f_equal le_load) in Hs.
    rewrite !le_load_store in Hs by (apply lxor_u64; assumption).
    apply (f_equal (Z.lxor (cid_w c i))) in Hs.
    rewrite <- !Z.lxor_assoc, Z.lxor_nilpotent, !Z.lxor_0_l in Hs. exact Hs. }
  unfold getDistance in H. cbn [seq map concat] in *.
  apply app_inj_1 in H as [H0 H]; [|rewrite !length_le_store; reflexivity].
  apply app_inj_1 in H as [H1 H]; [|rewrite !length_le_store; reflexivity].
  rewrite !app_nil_r in H.
  rewrite (Hw 0%nat), (Hw 1%nat), (Hw 2%nat) by (assumption || lia). reflexivity.
Qed.

(** ** The closest nodes *)

Definition klt (x y : list Z * ptr) : Prop := CID_lt (fst x) (fst y) = true.
Definition keys_ok (m : NodeMap) : Prop := Forall (fun x => length (fst x) = CID_SIZE) m.

Lemma klt_trans x y z : length (fst x) = CID_SIZE -> length (fst y) = CID_SIZE -> length (fst z) = CID_SIZE ->
  klt x y -> klt y z -> klt x z.
Proof. unfold klt, CID_lt. rewrite !Z.ltb_lt. intros. apply (memcmp_trans _ (fst y)); congruence. Qed.

Lemma klt_total x y : length (fst x) = CID_SIZE -> length (fst y) = CID_SIZE -> fst x <> fst y ->
  CID_lt (fst x) (fst y) = false -> klt y x.
Proof.
  unfold klt, CID_lt. rewrite Z.ltb_lt, Z.ltb_ge, (memcmp_antisym (fst x)). intros Hx Hy Hne Hle.
  destruct (Z.eq_dec (memcmp (fst x) (fst y)) 0) as [E|]; [|lia].
  apply memcmp_eq in E; [contradiction|congruence].
Qed.

Lemma nm_insert_spec m k p : StronglySorted klt m -> keys_ok m -> length k = CID_SIZE -> k ∉ map fst m ->
  StronglySorted klt (nm_insert m k p) /\ nm_insert m k p ≡ₚ (k, p) :: m.
Proof.
  intros Hs Hk Hl Hnin. induction m as [|[k' p'] m IH]; cbn [nm_insert]; [split; repeat constructor|].
  apply StronglySorted_inv in Hs as [Hs Hall]. apply Forall_cons in Hk as [Hk' Hk]. cbn in Hk', Hnin.
  apply not_elem_of_cons in Hnin as [Hne Hnin].
  destruct (CID_lt k k') eqn:E.
  - split; [|reflexivity]. constructor; [constructor; assumption|]. constructor; [exact E|].
    rewrite Forall_forall in Hall |- *. intros y Hy. rewrite Forall_forall in Hk.
    apply (klt_trans (k, p) (k', p') y); [exact Hl|exact Hk'|exact (Hk y Hy)|exact E|exact (Hall y Hy)].
  - pose proof (klt_total (k, p) (k', p') Hl Hk' Hne E) as Hlt. unfold klt in Hlt. cbn in Hlt. rewrite Hlt.
    destruct (IH Hs Hk Hnin) as [Hs' Hp]. split.
    + constructor; [exact Hs'|]. rewrite Hp. constructor; [exact Hlt|exact Hall].
    + rewrite Hp. apply Permutation_swap.
Qed.

(** A candidate taken into the map; the source's step on a node that qualifies. *)
Definition push (max : nat) (m : NodeMap) (x : list Z * ptr) : NodeMap :=
  if (length m <? max)%nat then nm_insert m (fst x) (snd x)
  else match last m with
       | Some (k, _) => if CID_lt (fst x) k then nm_insert (filter (fun y => CID_eq (fst y) k = false) m) (fst x) (snd x) else m
       | None => m
       end.

(** [m] holds the [max] first of the candidates [pre]. *)
Definition firsts (max : nat) (pre m : NodeMap) : Prop :=
  StronglySorted klt m /\ length m = Nat.min max (length pre) /\
  exists out, pre ≡ₚ m ++ out /\ forall y x, y ∈ m -> x ∈ out -> klt y x.

Lemma sorted_last m z : StronglySorted klt (m ++ [z]) -> keys_ok (m ++ [z]) ->
  StronglySorted klt m /\ Forall (fun y => klt y z) m /\
  filter (fun y => CID_eq (fst y) (fst z) = false) (m ++ [z]) = m.
Proof.
  intros Hs Hk.
  assert (StronglySorted klt m /\ Forall (fun y => klt y z) m) as [H1 H2].
  { clear Hk. induction m as [|y m IH]; [split; constructor|]. cbn in Hs. apply StronglySorted_inv in Hs as [Hs Hy].
    destruct (IH Hs) as [A B]. apply Forall_app in Hy as [Hy1 Hy2]. rewrite Forall_singleton in Hy2.
    split; [constructor; assumption|]. apply Forall_cons. split; assumption. }
  split; [exact H1|]. split; [exact H2|]. rewrite filter_app.
  rewrite filter_cons_False; [|unfold CID_eq; rewrite memcmp_refl; discriminate]. cbn. rewrite app_nil_r.
  clear - H2. induction H2 as [|y m Hy _ IH]; [reflexivity|]. rewrite filter_cons_True; [rewrite IH; reflexivity|].
  unfold klt, CID_lt in Hy. unfold CID_eq. apply Z.eqb_neq. zb. lia.
Qed.

Lemma push_firsts max pre m x : (0 < max)%nat -> keys_ok pre -> length (fst x) = CID_SIZE -> fst x ∉ map fst pre ->
  firsts max pre m -> firsts max (pre ++ [x]) (push max m x).
Proof.
  intros Hmax Hk Hx Hnin (Hs & Hlen & out & Hp & Hout). destruct x as [k p]. cbn in Hx, Hnin. unfold push, NodeMap in *. cbn [fst snd].
  assert (keys_ok (m ++ out)) as Hk' by (unfold keys_ok; rewrite <- Hp; exact Hk).
  pose proof (Permutation_length Hp) as Hpl. rewrite length_app in Hpl.
  assert (k ∉ map fst (m ++ out)) as Hnin' by (rewrite <- Hp; exact Hnin).
  rewrite map_app, not_elem_of_app in Hnin'. destruct Hnin' as [Hn1 Hn2].
  apply Forall_app in Hk' as [Hkm Hko].
  destruct (length m <? max)%nat eqn:E.
  - apply Nat.ltb_lt in E. assert (out = []) as -> by (apply nil_length_inv; lia). rewrite app_nil_r in Hp.
    destruct (nm_insert_spec m k p Hs Hkm Hx Hn1) as [Hs' Hp']. split; [exact Hs'|]. split.
    + rewrite (Permutation_length Hp'), length_app. cbn. lia.
    + exists []. split; [|intros y z _ Hz; apply elem_of_nil in Hz; contradiction].
      rewrite app_nil_r, Hp', Hp. rewrite Permutation_app_comm. reflexivity.
  - apply Nat.ltb_ge in E. destruct m as [|z m _] using rev_ind; [cbn in E; lia|].
    rewrite last_snoc. destruct z as [kz pz].
    destruct (sorted_last m (kz, pz) Hs Hkm) as (Hs1 & Hall & Hfil). cbn [fst] in Hfil.
    apply Forall_app in Hkm as [Hk1 Hkz]. rewrite Forall_singleton in Hkz. cbn in Hkz.
    rewrite map_app, not_elem_of_app in Hn1. destruct Hn1 as [Hn1 Hnz]. cbn in Hnz. rewrite list_elem_of_singleton in Hnz.
    assert (forall y, y ∈ out -> length (fst y) = CID_SIZE) as Hko' by (apply Forall_forall, Hko).
    destruct (CID_lt k kz) eqn:Elt.
    + rewrite Hfil. destruct (nm_insert_spec m k p Hs1 Hk1 Hx Hn1) as [Hs' Hp']. split; [exact Hs'|]. split.
      * rewrite (Permutation_length Hp'), length_app in *. cbn in *. lia.
      * exists ((kz, pz) :: out). split.
        -- rewrite Hp', Hp. solve_Permutation.
        -- intros y x Hy [->|Ho]%elem_of_cons; rewrite Hp' in Hy; apply elem_of_cons in Hy as [->|Hy].
           ++ exact Elt.
           ++ rewrite Forall_forall in Hall. exact (Hall y Hy).
           ++ apply (klt_trans (k, p) (kz, pz) x); auto. apply Hout; [apply elem_of_app; right; left|exact Ho].
           ++ apply Hout; [apply elem_of_app; left; exact Hy|exact Ho].
    + split; [exact Hs|]. split; [rewrite !length_app in *; cbn in *; lia|]. exists ((k, p) :: out). split.
      * rewrite Hp. solve_Permutation.
      * pose proof (klt_total (k, p) (kz, pz) Hx Hkz Hnz Elt) as Hzx.
        intros y x Hy [->|Ho]%elem_of_cons; [|apply Hout; assumption].
        apply elem_of_app in Hy as [Hy| ->%list_elem_of_singleton]; [|exact Hzx].
        rewrite Forall_forall in Hall, Hk1. apply (klt_trans y (kz, pz) (k, p)); auto.
Qed.

Definition eligible (maxType : Z) (n : Node) : bool := (nd_type n <=? maxType) && nd_ipVerified n && negb (nd_passive n).

(** The nodes that qualify, with their distances. *)
Definition candidates (h : gmap ptr Node) (cid : list Z) (maxType : Z) (l : list ptr) : NodeMap :=
  omap (fun p => n ← h !! p; if eligible maxType n then Some (getDistance cid (nd_cid n), p) else None) l.

Lemma firsts_len max pre m : firsts max pre m -> (length m <? max)%nat = false -> (0 < max)%nat -> exists z, last m = Some z.
Proof.
  intros (_ & Hl & _) H Hm. apply Nat.ltb_ge in H. destruct m as [|z m _] using rev_ind; [cbn in H; lia|].
  exists z. apply last_snoc.
Qed.

Lemma closest_step_push cid max maxType pre m p n : (0 < max)%nat -> firsts max pre m ->
  closest_step cid max maxType m p n =
  Some (if eligible maxType n then push max m (getDistance cid (nd_cid n), p) else m).
Proof.
  intros Hmax Hf. unfold closest_step, push. fold (eligible maxType n). destruct (eligible maxType n); [|reflexivity].
  cbn [fst snd]. destruct (length m <? max)%nat eqn:E; [reflexivity|].
  destruct (firsts_len max pre m Hf E Hmax) as [[k q] ->]. cbn. destruct (CID_lt _ _); reflexivity.
Qed.

Lemma closest_loop_spec h cid max maxType l pre m : (0 < max)%nat -> Forall (fun p => is_Some (h !! p)) l ->
  NoDup (map fst (pre ++ candidates h cid maxType l)) -> keys_ok pre -> firsts max pre m ->
  exists m', closest_loop h cid max maxType m l = Some m' /\ firsts max (pre ++ candidates h cid maxType l) m'.
Proof.
  intros Hmax Hl. revert pre m. induction Hl as [|p l [n Hn] Hl IH]; intros pre m Hnd Hk Hf.
  - exists m. cbn. rewrite app_nil_r. auto.
  - cbn [closest_loop]. rewrite Hn. cbn [mbind option_bind]. rewrite (closest_step_push _ _ _ pre) by assumption.
    cbn [mbind option_bind]. unfold candidates in *. cbn [omap list_omap] in *. rewrite Hn in *. cbn [mbind option_bind] in *.
    destruct (eligible maxType n) eqn:E; [|apply IH; assumption].
    set (x := (getDistance cid (nd_cid n), p)) in *.
    change (pre ++ x :: ?r) with (pre ++ [x] ++ r) in *. rewrite app_assoc in *. apply IH; [exact Hnd| |].
    + apply Forall_app. split; [exact Hk|]. apply Forall_singleton. apply getDistance_length.
    + apply push_firsts; [exact Hmax|exact Hk|apply getDistance_length| |exact Hf].
      rewrite !map_app in Hnd. apply NoDup_app in Hnd as (Hnd & _ & _). apply NoDup_app in Hnd as (_ & Hnd & _).
      intros Hin. apply (Hnd _ Hin). left.
Qed.

(** The users of the nodes. *)
Definition node_cids (h : gmap ptr Node) (l : list ptr) : list (list Z) := omap (fun p => nd_cid <$> h !! p) l.

Lemma candidate_cid h cid maxType l d p : (d, p) ∈ candidates h cid maxType l ->
  exists c, c ∈ node_cids h l /\ d = getDistance cid c.
Proof.
  unfold candidates, node_cids. rewrite list_elem_of_omap. intros (q & Hq & Hd). destruct (h !! q) as [n|] eqn:En; [|discriminate].
  cbn in Hd. destruct (eligible maxType n); [|discriminate]. injection Hd as <- <-.
  exists (nd_cid n). split; [|reflexivity]. apply list_elem_of_omap. exists q. rewrite En. auto.
Qed.

Lemma candidates_NoDup h cid maxType l : cid_ok cid -> Forall cid_ok (node_cids h l) -> NoDup (node_cids h l) ->
  NoDup (map fst (candidates h cid maxType l)).
Proof.
  intros Hc Hok Hnd. induction l as [|p l IH]; [constructor|]. unfold node_cids, candidates in *. cbn [omap list_omap] in *.
  destruct (h !! p) as [n|] eqn:En; cbn [fmap option_fmap option_map mbind option_bind] in *; [|apply IH; assumption].
  apply NoDup_cons in Hnd as [Hn Hnd]. apply Forall_cons in Hok as [Hok0 Hok].
  destruct (eligible maxType n); [|apply IH; assumption]. cbn [map]. apply NoDup_cons. split; [|apply IH; assumption].
  intros ([d q] & Hd & Hin)%list_elem_of_fmap. cbn in Hd. apply (candidate_cid h cid maxType l) in Hin as (c & Hcin & ->).
  apply getDistance_inj in Hd; auto; [subst; contradiction|]. rewrite Forall_forall in Hok. apply Hok, Hcin.
Qed.

(** C26.  The closest nodes found are the [max] nodes nearest to the identifier among those
    that qualify, ordered by their distance: the others are all farther than each of them. *)
Theorem getClosestNodes_correct b cid max maxType :
  (0 < max)%nat -> cid_ok cid -> Forall (fun p => is_Some (kb_heap b !! p)) (kb_nodes b) ->
  Forall cid_ok (node_cids (kb_heap b) (kb_nodes b)) -> NoDup (node_cids (kb_heap b) (kb_nodes b)) ->
  exists closest, getClosestNodes b cid [] max maxType = Some closest /\
    StronglySorted klt closest /\
    length closest = Nat.min max (length (candidates (kb_heap b) cid maxType (kb_nodes b))) /\
    exists others, candidates (kb_heap b) cid maxType (kb_nodes b) ≡ₚ closest ++ others /\
      forall y x, y ∈ closest -> x ∈ others -> klt y x.
Proof.
  intros Hmax Hc Hl Hok Hnd. pose proof (candidates_NoDup _ _ maxType _ Hc Hok Hnd) as Hnd'.
  destruct (closest_loop_spec (kb_heap b) cid max maxType (kb_nodes b) [] [] Hmax Hl Hnd') as (m & Hm & Hs & Hlen & Hout).
  - constructor.
  - split; [constructor|]. split; [cbn; lia|]. exists []. split; [reflexivity|]. intros y x Hy. apply elem_of_nil in Hy. contradiction.
  - exists m. auto.
Qed.

Definition sample_bucket : KBucket :=
  let n k := mkNode (replicate 23 7 ++ [k]) false k 4000 0 1 2 true false true in
  mkKB (<[ 1%positive := n 1 ]> (<[ 2%positive := n 2 ]> (<[ 3%positive := n 3 ]> ∅))) [1; 2; 3]%positive
    {[ (1, 4000); (2, 4000); (3, 4000) ]} ∅ false.

Lemma sample_cids : node_cids (kb_heap sample_bucket) (kb_nodes sample_bucket)
  = map (fun k => replicate 23 7 ++ [k]) [1; 2; 3].
Proof. reflexivity. Qed.

Lemma getClosestNodes_correct_witness :
  option_map (map snd) (getClosestNodes sample_bucket (replicate 23 7 ++ [3]) [] 2 3) = Some [3; 2]%positive /\
  exists closest, getClosestNodes sample_bucket (replicate 23 7 ++ [3]) [] 2 3 = Some closest /\ StronglySorted klt closest.
Proof.
  split; [vm_compute; reflexivity|].
  destruct (getClosestNodes_correct sample_bucket (replicate 23 7 ++ [3]) 2 3) as (m & Hm & Hs & _).
  - lia.
  - split; [repeat constructor; lia|reflexivity].
  - repeat constructor; vm_compute; eauto.
  - rewrite sample_cids. repeat constructor; lia.
  - rewrite sample_cids. apply (bool_decide_unpack _). vm_compute. exact I.
  - exists m. auto.
Defined.

(** ** Expiration *)

(** A test of the node at [p]. *)
Definition at_ptr (h : gmap ptr Node) (f : Node -> bool) (p : ptr) : bool :=
  match h !! p with Some n => f n | None => false end.

Definition refresh (now : Z) (n : Node) : Node := if nd_expires n =? 0 then set_life n (nd_type n) now else n.
Definition due (now : Z) (n : Node) : bool := negb (dead now n) && (nd_type n <? 4) && (nd_expires (refresh now n) <=? now).
Definition kept (now : Z) (n : Node) : bool := negb (dead now n).

(** A node after the pass. *)
Definition passed (now : Z) (pinged : list ptr) (p : ptr) (n : Node) : Node :=
  if dead now n then n else if bool_decide (p ∈ pinged) then setTimeout (refresh now n) now else refresh now n.

Lemma refresh_type now n : nd_type (refresh now n) = nd_type n.
Proof. unfold refresh. destruct (nd_expires n =? 0); reflexivity. Qed.

Lemma dead_refresh now n : dead now n = false -> due now n = (nd_type n <? 4) && (nd_expires (refresh now n) <=? now).
Proof. intros H. unfold due. rewrite H. reflexivity. Qed.

(** What the loop does from [st] over [l], with the nodes as they are in [h]. *)
Definition expired (h : gmap ptr Node) (now : Z) (count : nat) (l : list ptr) (st st' : EState) : Prop :=
  es_kept st' = es_kept st ++ List.filter (at_ptr h (kept now)) l /\
  es_removed st' = es_removed st ++ List.filter (at_ptr h (fun n => dead now n && nd_online n)) l /\
  es_pinged st' = take count (es_pinged st ++ List.filter (at_ptr h (due now)) l) /\
  es_dirty st' = es_dirty st || existsb (at_ptr h (dead now)) l /\
  (forall a, a ∈ es_ipMap st' <->
     a ∈ es_ipMap st /\ forall p n, p ∈ l -> h !! p = Some n -> dead now n = true -> nd_addr n <> a) /\
  (forall q, es_heap st' !! q = if decide (q ∈ l) then passed now (es_pinged st') q <$> h !! q else es_heap st !! q).

Lemma not_pinged h now count p l pinged : p ∉ l -> p ∉ pinged ->
  p ∉ take count (pinged ++ List.filter (at_ptr h (due now)) l).
Proof.
  intros Hl Hp H. apply elem_of_take in H as (i & Hi & _). apply list_elem_of_lookup_2 in Hi.
  apply elem_of_app in Hi as [Hi|Hi]; [contradiction|].
  apply list_elem_of_In, filter_In in Hi as [Hi _]. apply Hl, list_elem_of_In, Hi.
Qed.

Lemma heap_cons (h : gmap ptr Node) now pinged (hs h1 h' : gmap ptr Node) p n l : p ∉ l -> h !! p = Some n ->
  h1 !! p = Some (passed now pinged p n) -> (forall q, q <> p -> h1 !! q = hs !! q) ->
  (forall q, h' !! q = if decide (q ∈ l) then passed now pinged q <$> h !! q else h1 !! q) ->
  forall q, h' !! q = if decide (q ∈ p :: l) then passed now pinged q <$> h !! q else hs !! q.
Proof.
  intros Hpl Hn H1 Hne Hh q. rewrite Hh. destruct (decide (q ∈ l)) as [Hq|Hq], (decide (q ∈ p :: l)) as [Hq'|Hq'].
  - reflexivity.
  - exfalso. apply Hq'. right. exact Hq.
  - apply elem_of_cons in Hq' as [->|Hq']; [|contradiction]. rewrite H1, Hn. reflexivity.
  - apply Hne. intros ->. apply Hq'. left.
Qed.

Lemma dead_cons (h : gmap ptr Node) now p n l a : h !! p = Some n -> dead now n = false ->
  (forall q m, q ∈ p :: l -> h !! q = Some m -> dead now m = true -> nd_addr m <> a) <->
  (forall q m, q ∈ l -> h !! q = Some m -> dead now m = true -> nd_addr m <> a).
Proof.
  intros Hn Hd. split; intros H q m Hq Hm Hdm; [apply (H q m); auto; right; exact Hq|].
  apply elem_of_cons in Hq as [->|Hq]; [congruence|eauto].
Qed.

Lemma skip_ping count (p : ptr) (u : bool) pinged fl : (length pinged <= count)%nat ->
  (length pinged <? count)%nat && u = false ->
  take count (pinged ++ fl) = take count (pinged ++ (if u then p :: fl else fl)).
Proof.
  intros Hc H. destruct u; [|reflexivity]. rewrite andb_true_r in H. apply Nat.ltb_ge in H.
  rewrite !take_app_le by lia. reflexivity.
Qed.

(** The state after the node [n] at [p]. *)
Definition after (now : Z) (count : nat) (st : EState) (p : ptr) (n : Node) : EState :=
  if dead now n then
    mkES (es_heap st) (es_ipMap st ∖ {[ nd_addr n ]}) (es_kept st)
      (if nd_online n then es_removed st ++ [p] else es_removed st) (es_pinged st) true
  else if (length (es_pinged st) <? count)%nat && due now n then
    mkES (<[ p := setTimeout (refresh now n) now ]> (es_heap st)) (es_ipMap st) (es_kept st ++ [p])
      (es_removed st) (es_pinged st ++ [p]) (es_dirty st)
  else
    mkES (<[ p := refresh now n ]> (es_heap st)) (es_ipMap st) (es_kept st ++ [p])
      (es_removed st) (es_pinged st) (es_dirty st).

Lemma expire_step_after now count st p n : es_heap st !! p = Some n ->
  expire_step now count st p = Some (after now count st p n).
Proof.
  intros Hn. unfold expire_step, after. rewrite Hn. cbn [mbind option_bind]. fold (refresh now n).
  destruct (dead now n) eqn:E; [reflexivity|]. rewrite (dead_refresh now n E), refresh_type, andb_assoc.
  destruct (_ && _ && _); reflexivity.
Qed.

Lemma after_frame now count st p n : p ∉ es_pinged st -> (length (es_pinged st) <= count)%nat ->
  let st1 := after now count st p n in
  (forall q, q <> p -> es_heap st1 !! q = es_heap st !! q) /\ (length (es_pinged st1) <= count)%nat /\
  (forall q, q <> p -> q ∉ es_pinged st -> q ∉ es_pinged st1).
Proof.
  intros Hp Hc. unfold after. destruct (dead now n); [|destruct ((length (es_pinged st) <? count)%nat && due now n) eqn:E];
    cbn; split; auto; try (intros q Hq; apply lookup_insert_ne; congruence); split; auto.
  - apply andb_true_iff in E as [E%Nat.ltb_lt _]. rewrite length_app. cbn. lia.
  - intros q Hq Hn [H|H%list_elem_of_singleton]%elem_of_app; contradiction.
Qed.

(** One node, then the rest. *)
Lemma expired_cons h now count p n l st st' :
  p ∉ l -> h !! p = Some n -> p ∉ es_pinged st -> (length (es_pinged st) <= count)%nat -> es_heap st !! p = h !! p ->
  expired h now count l (after now count st p n) st' -> expired h now count (p :: l) st st'.
Proof.
  intros Hpl Hn Hpp Hc Hhp (Hk & Hr & Hp & Hd & Hi & Hh). unfold after in *.
  assert (at_ptr h (dead now) p = dead now n) as Ed by (unfold at_ptr; rewrite Hn; reflexivity).
  assert (at_ptr h (kept now) p = negb (dead now n)) as Ek by (unfold at_ptr; rewrite Hn; reflexivity).
  assert (at_ptr h (due now) p = due now n) as Eu by (unfold at_ptr; rewrite Hn; reflexivity).
  assert (at_ptr h (fun n => dead now n && nd_online n) p = dead now n && nd_online n) as Eo
    by (unfold at_ptr; rewrite Hn; reflexivity).
  unfold expired. cbn [List.filter existsb]. rewrite Ed, Ek, Eu, Eo.
  destruct (dead now n) eqn:Edead; [|destruct ((length (es_pinged st) <? count)%nat && due now n) eqn:Eping];
    cbn [es_kept es_removed es_pinged es_dirty es_ipMap es_heap negb andb orb] in *.
  - assert (due now n = false) as -> by (unfold due; rewrite Edead; reflexivity).
    split; [exact Hk|]. split; [destruct (nd_online n); rewrite Hr, <- ?app_assoc; reflexivity|]. split; [exact Hp|].
    split; [rewrite Hd, orb_true_r; reflexivity|]. split.
    + intros a. rewrite Hi, elem_of_difference, elem_of_singleton. split.
      * intros [[Ha Hna] Hall]. split; [exact Ha|]. intros q m [->|Hq]%elem_of_cons Hm Hdm; [|eauto].
        rewrite Hn in Hm. injection Hm as <-. congruence.
      * intros [Ha Hall]. split; [split; [exact Ha|]|]; [intros ->; apply (Hall p n); auto; left|].
        intros q m Hq. apply Hall. right. exact Hq.
    + apply (heap_cons h now _ _ (es_heap st) _ p n l); auto.
      rewrite Hhp, Hn. unfold passed. rewrite Edead. reflexivity.
  - apply andb_true_iff in Eping as [El Edue]. apply Nat.ltb_lt in El. rewrite Edue.
    split; [rewrite Hk, <- app_assoc; reflexivity|]. split; [exact Hr|].
    split; [rewrite Hp, <- app_assoc; reflexivity|]. split; [exact Hd|]. split.
    + intros a. rewrite Hi, (dead_cons h now p n) by assumption. reflexivity.
    + apply (heap_cons h now _ _ (<[ p := setTimeout (refresh now n) now ]> (es_heap st)) _ p n l); auto.
      * rewrite lookup_insert_eq. unfold passed. rewrite Edead, bool_decide_true; [reflexivity|].
        rewrite Hp, take_app_ge by (rewrite length_app; cbn; lia). apply elem_of_app. left. apply elem_of_app. right. left.
      * intros q Hq. apply lookup_insert_ne. congruence.
  - split; [rewrite Hk, <- app_assoc; reflexivity|]. split; [exact Hr|].
    split; [rewrite Hp; apply (skip_ping count p); assumption|]. split; [exact Hd|]. split.
    + intros a. rewrite Hi, (dead_cons h now p n) by assumption. reflexivity.
    + apply (heap_cons h now _ _ (<[ p := refresh now n ]> (es_heap st)) _ p n l); auto.
      * rewrite lookup_insert_eq. unfold passed. rewrite Edead, bool_decide_false; [reflexivity|].
        rewrite Hp. apply not_pinged; assumption.
      * intros q Hq. apply lookup_insert_ne. congruence.
Qed.

Lemma expire_loop_spec h now count l st :
  NoDup l -> Forall (fun p => is_Some (h !! p)) l -> (forall p, p ∈ l -> es_heap st !! p = h !! p) ->
  (forall p, p ∈ l -> p ∉ es_pinged st) -> (length (es_pinged st) <= count)%nat ->
  exists st', expire_loop now count st l = Some st' /\ expired h now count l st st'.
Proof.
  revert st. induction l as [|p l IH]; intros st Hnd Hin Hh Hp Hc.
  - exists st. split; [reflexivity|]. unfold expired. cbn. rewrite !app_nil_r, orb_false_r. split; [reflexivity|].
    split; [reflexivity|]. split; [symmetry; apply take_ge, Hc|]. split; [reflexivity|]. split.
    + intros a. split; [intros Ha; split; [exact Ha|]; intros q n Hq; apply elem_of_nil in Hq; contradiction|tauto].
    + intros q. destruct (decide (q ∈ [])) as [Hq|]; [apply elem_of_nil in Hq; contradiction|reflexivity].
  - apply NoDup_cons in Hnd as [Hpl Hnd]. apply Forall_cons in Hin as [[n Hn] Hin].
    assert (forall q, q ∈ l -> q <> p) as Hne by (intros q Hq ->; contradiction).
    assert (es_heap st !! p = Some n) as Hpn by (rewrite (Hh p) by left; exact Hn).
    cbn [expire_loop]. rewrite (expire_step_after now count st p n Hpn). cbn [mbind option_bind].
    destruct (after_frame now count st p n) as (H1 & H2 & H3); [apply Hp; left|exact Hc|].
    destruct (IH (after now count st p n)) as (st' & Hl & Hs); auto.
    + intros q Hq. rewrite H1 by auto. apply Hh. right. exact Hq.
    + intros q Hq. apply H3; [auto|]. apply Hp. right. exact Hq.
    + exists st'. split; [exact Hl|]. apply (expired_cons h now count p n); auto; [apply Hp; left|congruence].
Qed.

Lemma checkExpiration_spec b now :
  NoDup (kb_nodes b) -> Forall (fun p => is_Some (kb_heap b !! p)) (kb_nodes b) ->
  let h := kb_heap b in
  let pinged := take (pingCount (length (kb_nodes b))) (List.filter (at_ptr h (due now)) (kb_nodes b)) in
  exists b', checkExpiration b now =
    Some (b', List.filter (at_ptr h (fun n => dead now n && nd_online n)) (kb_nodes b), pinged,
          existsb (at_ptr h (dead now)) (kb_nodes b)) /\
  (length pinged <= 20)%nat /\
  kb_nodes b' = List.filter (at_ptr h (kept now)) (kb_nodes b) /\
  (forall a, a ∈ kb_ipMap b' <-> a ∈ kb_ipMap b /\
     forall p n, p ∈ kb_nodes b -> h !! p = Some n -> dead now n = true -> nd_addr n <> a) /\
  forall q, kb_heap b' !! q = if decide (q ∈ kb_nodes b) then passed now pinged q <$> h !! q else h !! q.
Proof.
  intros Hnd Hin h pinged. unfold checkExpiration.
  destruct (expire_loop_spec h now (pingCount (length (kb_nodes b))) (kb_nodes b) (mkES h (kb_ipMap b) [] [] [] false) Hnd Hin)
    as (st & Hst & Hk & Hr & Hp & Hd & Hi & Hh); cbn.
  - reflexivity.
  - intros p _. apply not_elem_of_nil.
  - lia.
  - fold h. rewrite Hst. cbn [mbind option_bind]. cbn in Hk, Hr, Hp, Hd, Hi, Hh. fold pinged in Hp.
    rewrite Hk, Hr, Hd, Hp. eexists. split; [reflexivity|]. cbn. rewrite Hp in Hh.
    split; [|split; [reflexivity|split; [exact Hi|exact Hh]]].
    subst pinged. rewrite length_take. unfold pingCount. lia.
Qed.

(** *** The pass from the outside

    What the pass has to do, by the fields of the nodes. *)
Definition lapsed (now : Z) (n : Node) : bool := bool_decide (nd_type n = 4 /\ 0 < nd_expires n <= now).
Definition to_ping (now : Z) (n : Node) : bool := bool_decide (nd_type n < 4 /\ (nd_expires n = 0 \/ nd_expires n <= now)).

Definition after_pass (now : Z) (pinged : list ptr) (p : ptr) (n : Node) : Node :=
  if lapsed now n then n
  else if bool_decide (p ∈ pinged) then set_life n (u8 (nd_type n + 1)) (u64 (now + 120000))
  else if nd_expires n =? 0 then set_life n (nd_type n) now
  else n.

Lemma dead_lapsed now n : dead now n = lapsed now n.
Proof. unfold dead, lapsed. apply eq_true_iff_eq. rewrite bool_decide_eq_true. lia. Qed.

Lemma due_to_ping now n : due now n = to_ping now n.
Proof.
  unfold due, dead, to_ping, refresh. apply eq_true_iff_eq. rewrite bool_decide_eq_true. destruct (nd_expires n =? 0) eqn:E; zb; cbn [nd_expires set_life]; lia.
Qed.

Lemma passed_after now pinged p n : (p ∈ pinged -> to_ping now n = true) -> passed now pinged p n = after_pass now pinged p n.
Proof.
  intros Hp. unfold passed, after_pass. rewrite dead_lapsed. destruct (lapsed now n); [reflexivity|]. case_bool_decide as Hin; [|reflexivity].
  specialize (Hp Hin). unfold to_ping in Hp. apply bool_decide_eq_true in Hp as [Ht _].
  unfold setTimeout. rewrite refresh_type, (proj2 (Z.eqb_neq _ _)) by lia. unfold refresh. destruct (nd_expires n =? 0); reflexivity.
Qed.

Lemma filter_at_ext (h : gmap ptr Node) f g l : (forall n, f n = g n) -> List.filter (at_ptr h f) l = List.filter (at_ptr h g) l.
Proof. intros H. apply filter_ext. intros p. unfold at_ptr. destruct (h !! p); [apply H|reflexivity]. Qed.

(** C27.  The pass over a table without duplicates removes exactly the nodes whose type is 4 and whose
    time has come ([0 < expires <= now]), with their addresses, keeps the others in their order, reports the removed ones that
    are online, and says whether there were any.  Of the nodes with a type below 4 whose time has
    come, or that have none yet, it pings the first in the order of the table, as many as
    1 + size/100 but at least 10 and at most 20: a pinged node has its type raised by one and 120000 ms to answer; a node that
    is not pinged and had no time gets the present; nothing else changes. *)
Theorem checkExpiration_correct b now :
  NoDup (kb_nodes b) -> Forall (fun p => is_Some (kb_heap b !! p)) (kb_nodes b) ->
  let h := kb_heap b in
  let pinged := take (Nat.max 10 (Nat.min 20 (length (kb_nodes b) / 100 + 1))) (List.filter (at_ptr h (to_ping now)) (kb_nodes b)) in
  exists b', checkExpiration b now =
    Some (b', List.filter (at_ptr h (fun n => lapsed now n && nd_online n)) (kb_nodes b), pinged,
          existsb (at_ptr h (lapsed now)) (kb_nodes b)) /\
  kb_nodes b' = List.filter (at_ptr h (fun n => negb (lapsed now n))) (kb_nodes b) /\
  (forall a, a ∈ kb_ipMap b' <-> a ∈ kb_ipMap b /\
     forall p n, p ∈ kb_nodes b -> h !! p = Some n -> lapsed now n = true -> nd_addr n <> a) /\
  (forall q, kb_heap b' !! q = if decide (q ∈ kb_nodes b) then after_pass now pinged q <$> h !! q else h !! q) /\
  kb_dht b' = kb_dht b /\ kb_dirty b' = kb_dirty b.
Proof.
  intros Hnd Hin h pinged. destruct (checkExpiration_spec b now Hnd Hin) as (b' & E & Hlen & Hn & Hi & Hh). fold h in E, Hn, Hi, Hh. set (pg := take _ _) in E, Hlen, Hh.
  assert (pg = pinged) as Epg by (unfold pg, pinged, pingCount; f_equal; apply filter_at_ext, due_to_ping). rewrite Epg in E, Hh. exists b'.
  split; [|split; [|split; [|split]]].
  - rewrite E. do 2 f_equal; [do 2 f_equal|].
    + apply filter_at_ext. intros n. rewrite dead_lapsed. reflexivity.
    + clear. induction (kb_nodes b) as [|p l IH]; [reflexivity|]. cbn. rewrite IH. f_equal. unfold at_ptr. destruct (h !! p); [apply dead_lapsed|reflexivity].
  - rewrite Hn. apply filter_at_ext. intros n. unfold kept. rewrite dead_lapsed. reflexivity.
  - intros a. rewrite Hi. setoid_rewrite dead_lapsed. reflexivity.
  - intros q. rewrite Hh. destruct (decide (q ∈ kb_nodes b)) as [Hq|]; [|reflexivity]. destruct (h !! q) as [n|] eqn:En; [|reflexivity]. cbn. f_equal. apply passed_after.
    intros Hp. unfold pinged in Hp. apply elem_of_take in Hp as (i & Hl & _). apply list_elem_of_lookup_2, list_elem_of_In, filter_In in Hl as [_ Hl].
    unfold at_ptr in Hl. rewrite En in Hl. exact Hl.
  - unfold checkExpiration in E. destruct (expire_loop _ _ _ _); [|discriminate]. injection E as <- _ _ _. split; reflexivity.
Qed.

Lemma checkExpiration_correct_witness : exists b',
  checkExpiration sample_bucket 100 = Some (b', [], [1; 2; 3]%positive, false) /\ kb_nodes b' = [1; 2; 3]%positive.
Proof.
  destruct (checkExpiration_correct sample_bucket 100) as (b' & H & Hn & _).
  - apply (bool_decide_unpack _). vm_compute. exact I.
  - repeat constructor; vm_compute; eauto.
  - exists b'. split; [exact H|exact Hn].
Defined.

(** ** The invariant of the table *)

(** The addresses of the nodes of a list. *)
Definition addrs (h : gmap ptr Node) (l : list ptr) : list NodeAddress := omap (fun p => nd_addr <$> h !! p) l.

(** The table holds at most 1920 different nodes, each marked as being in it, with different
    addresses, and the set of addresses is that of its nodes. *)
Record kb_ok (b : KBucket) : Prop := {
  ko_nodup : NoDup (kb_nodes b);
  ko_len : Z.of_nat (length (kb_nodes b)) <= K * ID_BITS;
  ko_in : forall p, p ∈ kb_nodes b -> exists n, kb_heap b !! p = Some n /\ nd_isInList n = true;
  ko_addr : NoDup (addrs (kb_heap b) (kb_nodes b));
  ko_map : forall a, a ∈ kb_ipMap b <-> a ∈ addrs (kb_heap b) (kb_nodes b) }.

Lemma addrs_ext h h' l : (forall p, p ∈ l -> nd_addr <$> h' !! p = nd_addr <$> h !! p) -> addrs h' l = addrs h l.
Proof.
  unfold addrs. induction l as [|p l IH]; intros H; [reflexivity|]. cbn [omap list_omap].
  rewrite (H p) by left. rewrite IH by (intros q Hq; apply H; right; exact Hq). reflexivity.
Qed.

Lemma addrs_insert h l p n : p ∉ l -> addrs (<[ p := n ]> h) l = addrs h l.
Proof. intros Hp. apply addrs_ext. intros q Hq. rewrite lookup_insert_ne; [reflexivity|]. intros ->. contradiction. Qed.

Lemma addrs_app h l1 l2 : addrs h (l1 ++ l2) = addrs h l1 ++ addrs h l2.
Proof. apply omap_app. Qed.

Lemma addrs_one (h : gmap ptr Node) p n : h !! p = Some n -> addrs h [p] = [nd_addr n].
Proof. intros H. unfold addrs. cbn. rewrite H. reflexivity. Qed.

Lemma insert_ok b p b' r : kb_ok b -> insert b p = Some (b', r) -> kb_ok b'.
Proof.
  intros [Hnd Hlen Hin Hadr Hmap] H. unfold insert in H. destruct (kb_heap b !! p) as [n|] eqn:En; [|discriminate].
  cbn [mbind option_bind] in H. destruct (nd_isInList n) eqn:El; [injection H as <- <-; split; assumption|].
  destruct ((_ <? _) && _) eqn:E; injection H as <- <-; [|split; assumption].
  apply andb_true_iff in E as [E1 E2]. zb. apply bool_decide_eq_false in E2.
  assert (p ∉ kb_nodes b) as Hp by (intros Hp; destruct (Hin p Hp) as (m & Hm & Hl); congruence).
  split; cbn [kb_nodes kb_heap kb_ipMap].
  - apply NoDup_app. split; [exact Hnd|]. split; [|apply NoDup_singleton].
    intros q Hq Hq'. apply list_elem_of_singleton in Hq' as ->. contradiction.
  - rewrite length_app. cbn. lia.
  - intros q [Hq|Hq%list_elem_of_singleton]%elem_of_app.
    + rewrite lookup_insert_ne by (intros ->; contradiction). auto.
    + subst q. rewrite lookup_insert_eq. eauto.
  - rewrite addrs_app, addrs_insert, (addrs_one _ p (set_inList n true)) by (assumption || apply lookup_insert_eq).
    apply NoDup_app. split; [exact Hadr|]. split; [|apply NoDup_singleton].
    intros a Ha Ha'. apply list_elem_of_singleton in Ha' as ->. apply E2, Hmap, Ha.
  - intros a. rewrite addrs_app, addrs_insert, (addrs_one _ p (set_inList n true)) by (assumption || apply lookup_insert_eq).
    rewrite elem_of_union, elem_of_app, Hmap, elem_of_singleton, list_elem_of_singleton. cbn. tauto.
Qed.

Lemma passed_addr now pinged p n : nd_addr (passed now pinged p n) = nd_addr n /\
  nd_isInList (passed now pinged p n) = nd_isInList n.
Proof.
  unfold passed, setTimeout, refresh, set_life. repeat case_if; auto.
Qed.

Lemma addrs_filter h f l a : Forall (fun p => is_Some (h !! p)) l ->
  a ∈ addrs h (List.filter (at_ptr h f) l) <-> exists p n, p ∈ l /\ h !! p = Some n /\ nd_addr n = a /\ f n = true.
Proof.
  intros Hin. unfold addrs. rewrite list_elem_of_omap. split.
  - intros (p & Hp & Hn). apply list_elem_of_In, filter_In in Hp as [Hp Hf]. unfold at_ptr in Hf.
    destruct (h !! p) as [n|] eqn:E; [|discriminate]. injection Hn as <-. exists p, n. rewrite list_elem_of_In. auto.
  - intros (p & n & Hp & Hn & <- & Hf). exists p. rewrite Hn. split; [|reflexivity].
    apply list_elem_of_In, filter_In. rewrite <- list_elem_of_In. split; [exact Hp|]. unfold at_ptr. rewrite Hn. exact Hf.
Qed.

Lemma filter_sublist {A} (f : A -> bool) l : List.filter f l `sublist_of` l.
Proof. induction l as [|x l IH]; cbn; [constructor|]. destruct (f x); constructor; exact IH. Qed.

Lemma sublist_omap {A B} (f : A -> option B) l1 l2 : l1 `sublist_of` l2 -> omap f l1 `sublist_of` omap f l2.
Proof. induction 1; cbn; [constructor|..]; destruct (f x); try constructor; assumption. Qed.

Lemma addrs_elem (h : gmap ptr Node) l a : a ∈ addrs h l <-> exists p n, p ∈ l /\ h !! p = Some n /\ nd_addr n = a.
Proof.
  unfold addrs. rewrite list_elem_of_omap. split.
  - intros (p & Hp & Hn). destruct (h !! p) as [n|] eqn:E; [|discriminate]. injection Hn as <-. eauto.
  - intros (p & n & Hp & Hn & <-). exists p. rewrite Hn. auto.
Qed.

Lemma addrs_inj (h : gmap ptr Node) l p q n m : NoDup (addrs h l) -> p ∈ l -> q ∈ l ->
  h !! p = Some n -> h !! q = Some m -> nd_addr n = nd_addr m -> p = q.
Proof.
  intros Hnd Hp Hq Hn Hm Ha. induction l as [|x l IH]; [apply elem_of_nil in Hp; contradiction|].
  unfold addrs in Hnd. cbn [omap list_omap] in Hnd. fold (addrs h l) in Hnd.
  assert (forall y k, x = y -> h !! y = Some k -> (nd_addr k ∉ addrs h l) /\ NoDup (addrs h l)) as Hx.
  { intros y k -> Hk. rewrite Hk in Hnd. cbn in Hnd. apply NoDup_cons in Hnd. exact Hnd. }
  assert (NoDup (addrs h l)) as Hnd' by (destruct (h !! x); [apply NoDup_cons in Hnd as [_ Hnd]|]; exact Hnd).
  apply elem_of_cons in Hp as [Hp|Hp], Hq as [Hq|Hq]; [congruence| | |auto]; exfalso.
  - destruct (Hx p n (eq_sym Hp) Hn) as [H _]. apply H, addrs_elem. exists q, m. auto.
  - destruct (Hx q m (eq_sym Hq) Hm) as [H _]. apply H, addrs_elem. exists p, n. auto.
Qed.

Lemma checkExpiration_ok b now b' r pg d : kb_ok b -> checkExpiration b now = Some (b', r, pg, d) -> kb_ok b'.
Proof.
  intros [Hnd Hlen Hin Hadr Hmap] H.
  assert (Forall (fun p => is_Some (kb_heap b !! p)) (kb_nodes b)) as Hall.
  { apply Forall_forall. intros p Hp. destruct (Hin p Hp) as (n & -> & _). eauto. }
  destruct (checkExpiration_spec b now Hnd Hall) as (b1 & H1 & _ & Hn & Hi & Hh).
  rewrite H1 in H. injection H as <- _ _ _. set (pinged := take _ _) in Hh.
  pose proof (filter_sublist (at_ptr (kb_heap b) (kept now)) (kb_nodes b)) as Hsub. rewrite <- Hn in Hsub.
  assert (forall p, p ∈ kb_nodes b1 -> p ∈ kb_nodes b) as Hincl.
  { intros p Hp. rewrite Hn in Hp. apply list_elem_of_In, filter_In in Hp as [Hp _]. apply list_elem_of_In, Hp. }
  assert (forall p, p ∈ kb_nodes b -> kb_heap b1 !! p = passed now pinged p <$> kb_heap b !! p) as Hh1.
  { intros p Hp. rewrite Hh. destruct (decide (p ∈ kb_nodes b)); [reflexivity|contradiction]. }
  assert (addrs (kb_heap b1) (kb_nodes b1) = addrs (kb_heap b) (kb_nodes b1)) as Ha.
  { apply addrs_ext. intros p Hp. rewrite Hh1 by auto. destruct (kb_heap b !! p) as [n|]; [|reflexivity].
    cbn. f_equal. apply passed_addr. }
  split; rewrite ?Ha.
  - eapply sublist_NoDup; [exact Hnd|exact Hsub].
  - apply sublist_length in Hsub. lia.
  - intros p Hp. rewrite Hh1 by auto. destruct (Hin p (Hincl p Hp)) as (n & -> & Hl). cbn. eexists. split; [reflexivity|].
    rewrite (proj2 (passed_addr now pinged p n)). exact Hl.
  - eapply sublist_NoDup; [exact Hadr|apply sublist_omap, Hsub].
  - intros a. rewrite Hi, Hmap, Hn, addrs_filter, addrs_elem by exact Hall. split.
    + intros [(p & n & Hp & Hpn & Hpa) Hd]. exists p, n. split; [exact Hp|]. split; [exact Hpn|]. split; [exact Hpa|].
      unfold kept. destruct (dead now n) eqn:E; [|reflexivity]. exfalso. apply (Hd p n); assumption.
    + intros (p & n & Hp & Hpn & Hpa & Hk). split; [eauto|]. intros q m Hq Hm Hd Hma.
      assert (q = p) as -> by (eapply addrs_inj; eauto; congruence). unfold kept in Hk. rewrite Hpn in Hm. injection Hm as ->.
      rewrite Hd in Hk. discriminate.
Qed.

Lemma kb_ok_perm b l : kb_nodes b ≡ₚ l -> kb_ok b -> kb_ok (mkKB (kb_heap b) l (kb_ipMap b) (kb_dht b) (kb_dirty b)).
Proof.
  intros Hp [Hnd Hlen Hin Hadr Hmap].
  assert (addrs (kb_heap b) (kb_nodes b) ≡ₚ addrs (kb_heap b) l) as Ha by (unfold addrs; rewrite Hp; reflexivity).
  split; cbn.
  - rewrite <- Hp. exact Hnd.
  - rewrite <- Hp. exact Hlen.
  - intros p. rewrite <- Hp. apply Hin.
  - rewrite <- Ha. exact Hadr.
  - intros a. rewrite <- Ha. apply Hmap.
Qed.

(** A change of a node of the table to an address that no other node has. *)
Lemma readdress_ok b p n n' l1 l2 d : kb_ok b -> kb_nodes b = l1 ++ p :: l2 -> kb_heap b !! p = Some n ->
  nd_isInList n' = nd_isInList n -> nd_addr n' <> nd_addr n -> nd_addr n' ∉ kb_ipMap b ->
  kb_ok (mkKB (<[ p := n' ]> (kb_heap b)) (kb_nodes b) ({[ nd_addr n' ]} ∪ (kb_ipMap b ∖ {[ nd_addr n ]})) (kb_dht b) d).
Proof.
  intros [Hnd Hlen Hin Hadr Hmap] El Hn Hl Hne Hfree. rewrite El in *.
  assert (NoDup (p :: l1 ++ l2)) as Hnd' by (rewrite Permutation_middle; exact Hnd).
  apply NoDup_cons in Hnd' as [Hp _]. rewrite not_elem_of_app in Hp. destruct Hp as [Hp1 Hp2].
  assert (forall h x, h !! p = Some x -> addrs h (l1 ++ p :: l2) ≡ₚ nd_addr x :: addrs h l1 ++ addrs h l2) as Hexp.
  { intros h x Hx. change (p :: l2) with ([p] ++ l2). rewrite !addrs_app, (addrs_one h p x Hx). solve_Permutation. }
  pose proof (Hexp _ n Hn) as E1. pose proof (Hexp _ n' (lookup_insert_eq (kb_heap b) p n')) as E2.
  rewrite (addrs_insert _ l1), (addrs_insert _ l2) in E2 by assumption.
  rewrite E1 in Hadr. apply NoDup_cons in Hadr as [Hna Hadr].
  assert (forall a, a ∈ kb_ipMap b <-> a = nd_addr n \/ a ∈ addrs (kb_heap b) l1 ++ addrs (kb_heap b) l2) as Hm
    by (intros a; rewrite Hmap, E1, elem_of_cons; reflexivity).
  split; cbn [kb_nodes kb_heap kb_ipMap]; auto.
  - intros q Hq. destruct (decide (q = p)) as [->|]; [|rewrite lookup_insert_ne by congruence; auto].
    rewrite lookup_insert_eq. destruct (Hin p) as (m & Hm' & Hml); [apply elem_of_app; right; left|].
    exists n'. split; [reflexivity|]. congruence.
  - rewrite E2. apply NoDup_cons. split; [|exact Hadr]. intros Ha. apply Hfree, Hm. auto.
  - intros a. rewrite E2, elem_of_union, elem_of_difference, !elem_of_singleton, elem_of_cons, Hm. split.
    + intros [->|[[->|Ha] Hna']]; [auto|contradiction|auto].
    + intros [->|Ha]; [auto|]. right. split; [auto|]. intros ->. contradiction.
Qed.

(** A change of a node of the table that keeps its address. *)
Lemma retouch_ok b p n n' d : kb_ok b -> kb_heap b !! p = Some n -> nd_isInList n' = nd_isInList n -> nd_addr n' = nd_addr n ->
  kb_ok (mkKB (<[ p := n' ]> (kb_heap b)) (kb_nodes b) (kb_ipMap b) (kb_dht b) d).
Proof.
  intros [Hnd Hlen Hin Hadr Hmap] Hn Hl Ha.
  assert (addrs (<[ p := n' ]> (kb_heap b)) (kb_nodes b) = addrs (kb_heap b) (kb_nodes b)) as E.
  { apply addrs_ext. intros q _. destruct (decide (q = p)) as [->|]; [|rewrite lookup_insert_ne by congruence; reflexivity].
    rewrite lookup_insert_eq, Hn. cbn. congruence. }
  split; cbn [kb_nodes kb_heap kb_ipMap]; rewrite ?E; auto.
  intros q Hq. destruct (decide (q = p)) as [->|]; [|rewrite lookup_insert_ne by congruence; auto].
  rewrite lookup_insert_eq. destruct (Hin p Hq) as (m & Hm & Hml). exists n'. split; [reflexivity|]. congruence.
Qed.

Lemma update_ok b p ip port v now b' : kb_ok b -> p ∈ kb_nodes b ->
  ((ip, port) ∉ kb_ipMap b \/ nd_addr <$> kb_heap b !! p = Some (ip, port)) ->
  update_node b p ip port v now = Some b' -> kb_ok b'.
Proof.
  intros Hb Hp Hfree H. unfold update_node in H. destruct (kb_heap b !! p) as [n|] eqn:En; [|discriminate].
  cbn [mbind option_bind] in H. destruct (negb (ip =? nd_ip n) || negb (nd_port n =? port)) eqn:Em; injection H as <-.
  - destruct Hfree as [Hfree|Hown]; [|injection Hown as <- <-; rewrite !Z.eqb_refl in Em; discriminate].
    apply list_elem_of_split in Hp as (l1 & l2 & El).
    set (n' := set_addr _ ip port). change (ip, port) with (nd_addr n') in *.
    apply (readdress_ok b p n n' l1 l2); auto.
    + subst n'. unfold setAlive. repeat case_if; reflexivity.
    + subst n'. unfold nd_addr. cbn. intros Heq. injection Heq as -> ->. rewrite !Z.eqb_refl in Em. discriminate.
  - zb. subst ip. apply (retouch_ok b p n); auto.
    + unfold setAlive. repeat case_if; reflexivity.
    + unfold nd_addr. cbn. congruence.
Qed.

Lemma find_cid_lookup h cid l i : find_cid h cid l = Some (Some i) -> exists p, l !! i = Some p.
Proof.
  revert i. induction l as [|q l IH]; intros i H; cbn in H; [discriminate|]. destruct (h !! q) as [n|]; [|discriminate].
  cbn in H. destruct (CID_eq cid (nd_cid n)); [injection H as <-; eauto|].
  destruct (find_cid h cid l) as [[j|]|]; [|discriminate..]. injection H as <-. exact (IH j eq_refl).
Qed.

Lemma createNode_ok b cid passive online ip port update v now b' p :
  kb_ok b ->
  (update = true -> online cid = None /\ ((ip, port) ∉ kb_ipMap b \/ nd_addr <$> kb_heap b !! p = Some (ip, port))) ->
  createNode b cid passive online ip port update v now = Some (b', p) -> kb_ok b'.
Proof.
  intros Hb Hu H. unfold createNode in H. set (fresh_case := mkKB _ (kb_nodes b) (kb_ipMap b) _ _) in H.
  assert (kb_ok fresh_case) as Hfresh.
  { destruct Hb as [Hnd Hlen Hin Hadr Hmap]. set (q := fresh (dom (kb_heap b))) in *.
    assert (q ∉ kb_nodes b) as Hq.
    { intros Hq. destruct (Hin q Hq) as (n & Hn & _). apply (is_fresh (dom (kb_heap b))). apply elem_of_dom. exists n. exact Hn. }
    split; cbn [fresh_case kb_nodes kb_heap kb_ipMap]; rewrite ?addrs_insert by exact Hq; auto.
    intros r Hr. rewrite lookup_insert_ne by (intros ->; contradiction). auto. }
  clearbody fresh_case.
  destruct (bool_decide (cid ∈ kb_dht b)); cbn [mbind option_bind] in H; [|injection H as <- _; exact Hfresh].
  destruct (find_cid _ cid _) as [[i|]|] eqn:Ef; cbn [mbind option_bind] in H; [| |discriminate].
  - destruct (find_cid_lookup _ _ _ _ Ef) as [q Hq]. rewrite Hq in H. cbn [mbind option_bind] in H.
    assert (kb_nodes b ≡ₚ delete i (kb_nodes b) ++ [q]) as Hperm.
    { rewrite (delete_Permutation (kb_nodes b) i q Hq) at 1. solve_Permutation. }
    pose proof (kb_ok_perm b _ Hperm Hb) as Hb1. destruct update; [|injection H as <- _; exact Hb1].
    destruct (update_node _ q ip port v now) as [b2|] eqn:Eu; [|discriminate]. cbn in H. injection H as <- <-.
    destruct (Hu eq_refl) as [_ Hf]. eapply update_ok; [exact Hb1| |exact Hf|exact Eu].
    cbn. apply elem_of_app. right. left.
  - destruct (online cid) as [q|] eqn:Eo; cbn [fmap option_fmap option_map mbind option_bind] in H; [|injection H as <- _; exact Hfresh].
    destruct update; [destruct (Hu eq_refl) as [? _]; congruence|]. injection H as <- _. exact Hb.
Qed.

(** *** Without what the callers ensure *)

(** The part of the invariant that needs nothing. *)
Definition kb_table (b : KBucket) : Prop :=
  NoDup (kb_nodes b) /\ Z.of_nat (length (kb_nodes b)) <= K * ID_BITS /\ forall p, p ∈ kb_nodes b -> exists n, kb_heap b !! p = Some n /\ nd_isInList n = true.

Lemma insert_table b p b' r : kb_table b -> insert b p = Some (b', r) -> kb_table b'.
Proof.
  intros (Hnd & Hlen & Hin) H. unfold insert in H. destruct (kb_heap b !! p) as [n|] eqn:En; [|discriminate].
  cbn [mbind option_bind] in H. destruct (nd_isInList n) eqn:El; [injection H as <- <-; split; auto|].
  destruct ((_ <? _) && _) eqn:E; injection H as <- <-; [|split; auto]. apply andb_true_iff in E as [E1 _]. zb.
  assert (p ∉ kb_nodes b) as Hp by (intros Hp; destruct (Hin p Hp) as (m & Hm & Hl); congruence). split; [|split]; cbn [kb_nodes kb_heap].
  - apply NoDup_app. split; [exact Hnd|]. split; [|apply NoDup_singleton]. intros q Hq Hq'. apply list_elem_of_singleton in Hq' as ->. contradiction.
  - rewrite length_app. cbn. lia.
  - intros q [Hq|Hq%list_elem_of_singleton]%elem_of_app; [rewrite lookup_insert_ne by (intros ->; contradiction); auto|]. subst q. rewrite lookup_insert_eq. eauto.
Qed.

Lemma checkExpiration_table b now b' r pg d : kb_table b -> checkExpiration b now = Some (b', r, pg, d) -> kb_table b'.
Proof.
  intros (Hnd & Hlen & Hin) H.
  assert (Forall (fun p => is_Some (kb_heap b !! p)) (kb_nodes b)) as Hall by (apply Forall_forall; intros p Hp; destruct (Hin p Hp) as (n & -> & _); eauto).
  destruct (checkExpiration_spec b now Hnd Hall) as (b1 & H1 & _ & Hn & _ & Hh). rewrite H1 in H. injection H as <- _ _ _.
  pose proof (filter_sublist (at_ptr (kb_heap b) (kept now)) (kb_nodes b)) as Hsub. rewrite <- Hn in Hsub. split; [|split].
  - eapply sublist_NoDup; [exact Hnd|exact Hsub].
  - apply sublist_length in Hsub. lia.
  - intros p Hp. assert (p ∈ kb_nodes b) as Hp' by (rewrite Hn in Hp; apply list_elem_of_In, filter_In in Hp as [Hp _]; apply list_elem_of_In, Hp).
    rewrite Hh. destruct (decide (p ∈ kb_nodes b)); [|contradiction]. destruct (Hin p Hp') as (n & -> & Hl). cbn. eexists. split; [reflexivity|].
    rewrite (proj2 (passed_addr now _ p n)). exact Hl.
Qed.

Lemma update_table b p ip port v now b' : kb_table b -> update_node b p ip port v now = Some b' -> kb_table b'.
Proof.
  intros (Hnd & Hlen & Hin) H. unfold update_node in H. destruct (kb_heap b !! p) as [n|] eqn:En; [|discriminate].
  cbn [mbind option_bind] in H. injection H as <-. split; [exact Hnd|]. split; [exact Hlen|]. cbn [kb_nodes kb_heap]. intros q Hq.
  destruct (decide (q = p)) as [->|]; [|rewrite lookup_insert_ne by congruence; auto]. rewrite lookup_insert_eq. destruct (Hin p Hq) as (m & Hm & Hl).
  eexists. split; [reflexivity|]. replace m with n in Hl by congruence. unfold setAlive. repeat case_if; exact Hl.
Qed.

Lemma createNode_table b cid passive online ip port update v now b' p :
  kb_table b -> createNode b cid passive online ip port update v now = Some (b', p) -> kb_table b'.
Proof.
  intros Hb H. unfold createNode in H. set (fresh_case := mkKB _ (kb_nodes b) (kb_ipMap b) _ _) in H.
  assert (kb_table fresh_case) as Hfresh.
  { destruct Hb as (Hnd & Hlen & Hin). split; [exact Hnd|]. split; [exact Hlen|]. cbn [fresh_case kb_nodes kb_heap]. intros r Hr.
    rewrite lookup_insert_ne; [auto|]. intros E. destruct (Hin r Hr) as (n & Hn & _). apply (is_fresh (dom (kb_heap b))). rewrite E. apply elem_of_dom. exists n. exact Hn. }
  clearbody fresh_case. destruct (bool_decide (cid ∈ kb_dht b)); cbn [mbind option_bind] in H; [|injection H as <- _; exact Hfresh].
  destruct (find_cid _ cid _) as [[i|]|] eqn:Ef; cbn [mbind option_bind] in H; [| |discriminate].
  - destruct (find_cid_lookup _ _ _ _ Ef) as [q Hq]. rewrite Hq in H. cbn [mbind option_bind] in H.
    assert (kb_nodes b ≡ₚ delete i (kb_nodes b) ++ [q]) as Hperm by (rewrite (delete_Permutation (kb_nodes b) i q Hq) at 1; solve_Permutation).
    assert (kb_table (mkKB (kb_heap b) (delete i (kb_nodes b) ++ [q]) (kb_ipMap b) (kb_dht b) (kb_dirty b))) as Hb1.
    { destruct Hb as (Hnd & Hlen & Hin). split; [|split]; cbn [kb_nodes kb_heap]; [rewrite <- Hperm; exact Hnd|rewrite <- Hperm; exact Hlen|]. intros r. rewrite <- Hperm. apply Hin. }
    destruct update; [|injection H as <- _; exact Hb1]. destruct (update_node _ q ip port v now) as [b2|] eqn:Eu; [|discriminate]. cbn in H. injection H as <- <-.
    eapply update_table; [exact Hb1|exact Eu].
  - destruct (online cid) as [q|]; cbn [fmap option_fmap option_map mbind option_bind] in H; [|injection H as <- _; exact Hfresh].
    destruct update; [|injection H as <- _; exact Hb]. destruct (update_node b q ip port v now) as [b2|] eqn:Eu; [|discriminate]. cbn in H. injection H as <- <-.
    eapply update_table; [exact Hb|exact Eu].
Qed.

(** The operations of the table.  [careful] updates are those for a node of the table, or for a user
    that is not online, from an address that no other node has; the code checks neither. *)
Definition careful_update (b : KBucket) (cid : list Z) (online : list Z -> option ptr) (ip port : Z) (p : ptr) : Prop :=
  online cid = None /\ ((ip, port) ∉ kb_ipMap b \/ nd_addr <$> kb_heap b !! p = Some (ip, port)).

Inductive kb_step (careful : bool) : KBucket -> KBucket -> Prop :=
| ks_create b cid passive online ip port update v now b' p :
    (careful = true -> update = true -> careful_update b cid online ip port p) ->
    createNode b cid passive online ip port update v now = Some (b', p) -> kb_step careful b b'
| ks_insert b p b' r : insert b p = Some (b', r) -> kb_step careful b b'
| ks_expire b now b' r pg d : checkExpiration b now = Some (b', r, pg, d) -> kb_step careful b b'.

(** C25.  From the empty table, whatever operations are called, the table stays within its size of 1920,
    holds no node twice, and its nodes are marked as being in it.  If also every update of a node
    by [createNode] is careful, that is, the user is not online outside the table and the address is
    the node's own or one that the set does not have, then the nodes have different addresses and the set of
    addresses is that of the nodes.  (The code does not check this; [createNode_reserves] shows the
    set growing without.) *)
Theorem KBucket_invariant careful h dht b : rtc (kb_step careful) (mkKB h [] ∅ dht false) b ->
  kb_table b /\
  (careful = true -> NoDup (addrs (kb_heap b) (kb_nodes b)) /\ forall a, a ∈ kb_ipMap b <-> a ∈ addrs (kb_heap b) (kb_nodes b)).
Proof.
  intros H. assert (kb_ok (mkKB h [] ∅ dht false)) as H0.
  { split; cbn [kb_nodes kb_heap kb_ipMap].
    - apply NoDup_nil_2.
    - vm_compute. discriminate.
    - intros p Hp. apply elem_of_nil in Hp. contradiction.
    - apply NoDup_nil_2.
    - intros a. rewrite elem_of_nil. apply elem_of_empty. }
  enough (kb_table b /\ (careful = true -> kb_ok b)) as [Ht Hb] by (split; [exact Ht|]; intros E; split; [apply (ko_addr b)|apply (ko_map b)]; auto).
  assert (kb_table (mkKB h [] ∅ dht false) /\ (careful = true -> kb_ok (mkKB h [] ∅ dht false))) as Hs by (split; [split; [apply H0|split; apply H0]|auto]).
  clear H0. revert Hs. induction H as [|b1 b2 b3 Hs _ IH]; [auto|]. intros [Ht Hb]. apply IH. destruct Hs as [? ? ? ? ? ? ? ? ? ? ? Hc Hs|? ? ? ? Hs|? ? ? ? ? ? Hs].
  - split; [eapply createNode_table; eauto|]. intros E. eapply createNode_ok; [apply Hb, E|exact (Hc E)|exact Hs].
  - split; [eapply insert_table; eauto|]. intros E. eapply insert_ok; [apply Hb, E|exact Hs].
  - split; [eapply checkExpiration_table; eauto|]. intros E. eapply checkExpiration_ok; [apply Hb, E|exact Hs].
Qed.

Definition joined (k : Z) (b : KBucket) : KBucket :=
  match createNode b (replicate 24 k) false (fun _ => None) k 4000 true true 0 with
  | Some (b1, p) => match insert b1 p with Some (b2, _) => b2 | None => b1 end
  | None => b
  end.

Lemma KBucket_invariant_witness :
  kb_nodes (joined 2 (joined 1 (mkKB ∅ [] ∅ ∅ false))) = [1; 2]%positive /\
  kb_table (joined 2 (joined 1 (mkKB ∅ [] ∅ ∅ false))) /\
  NoDup (addrs (kb_heap (joined 2 (joined 1 (mkKB ∅ [] ∅ ∅ false)))) [1; 2]%positive).
Proof.
  split; [vm_compute; reflexivity|]. destruct (KBucket_invariant true ∅ ∅ (joined 2 (joined 1 (mkKB ∅ [] ∅ ∅ false)))) as [Ht Ha].
  - eapply rtc_l; [eapply (ks_create _ _ (replicate 24 1) false (fun _ => None) 1 4000 true true 0); [|vm_compute; reflexivity]|].
    { intros _ _. split; [reflexivity|]. left. apply (bool_decide_unpack _). vm_compute. exact I. }
    eapply rtc_l; [eapply (ks_insert _ _ 1%positive); vm_compute; reflexivity|].
    eapply rtc_l; [eapply (ks_create _ _ (replicate 24 2) false (fun _ => None) 2 4000 true true 0); [|vm_compute; reflexivity]|].
    { intros _ _. split; [reflexivity|]. left. apply (bool_decide_unpack _). vm_compute. exact I. }
    eapply rtc_l; [eapply (ks_insert _ _ 2%positive); vm_compute; reflexivity|]. vm_compute. apply rtc_refl.
  - split; [exact Ht|]. exact (proj1 (Ha eq_refl)).
Defined.

(** A node that is online but not in the table and writes from a new address has that
    address put into the set of the table's addresses, though the table holds no node with it:
    from then on no node with that address can be added. *)
Theorem createNode_reserves b cid passive online p n ip port v now :
  kb_ok b -> cid ∈ kb_dht b -> find_cid (kb_heap b) cid (kb_nodes b) = Some None ->
  online cid = Some p -> kb_heap b !! p = Some n -> nd_addr n <> (ip, port) -> (ip, port) ∉ kb_ipMap b -> p ∉ kb_nodes b ->
  exists b', createNode b cid passive online ip port true v now = Some (b', p) /\
    ((ip, port) ∈ kb_ipMap b') /\ ((ip, port) ∉ addrs (kb_heap b') (kb_nodes b')) /\
    forall q m, kb_heap b' !! q = Some m -> nd_isInList m = false -> nd_addr m = (ip, port) -> insert b' q = Some (b', false).
Proof.
  intros Hb Hd Hf Ho Hn Hne Hfree Hp. unfold createNode. rewrite bool_decide_true by exact Hd. cbn [mbind option_bind].
  rewrite Hf. cbn [mbind option_bind]. rewrite Ho. cbn [fmap option_fmap option_map mbind option_bind].
  unfold update_node. rewrite Hn. cbn [mbind option_bind].
  replace (negb (ip =? nd_ip n) || negb (nd_port n =? port)) with true.
  2: { symmetry. apply not_false_iff_true. intros E. zb. apply Hne. unfold nd_addr. congruence. }
  eexists. split; [reflexivity|]. cbn [kb_ipMap kb_heap kb_nodes].
  assert ((ip, port) ∈ {[ (ip, port) ]} ∪ (kb_ipMap b ∖ {[ nd_addr n ]})) as Hin
    by (apply elem_of_union; left; apply elem_of_singleton; reflexivity).
  split; [exact Hin|]. split.
  - rewrite addrs_insert by exact Hp. intros H. apply Hfree, (ko_map b Hb), H.
  - intros q m Hq Hl Ha. unfold insert. cbn [kb_heap kb_nodes kb_ipMap]. rewrite Hq. cbn [mbind option_bind]. rewrite Hl, Ha.
    rewrite bool_decide_true by exact Hin. cbn [negb]. rewrite andb_false_r. reflexivity.
Qed.

Lemma createNode_reserves_witness :
  let b := mkKB {[ 1%positive := new_node (replicate 24 1) false 0 ]} [] ∅ {[ replicate 24 1 ]} false in
  exists b', createNode b (replicate 24 1) false (fun _ => Some 1%positive) 7 4000 true true 0 = Some (b', 1%positive) /\
    ((7, 4000) ∈ kb_ipMap b').
Proof.
  intros b. destruct (createNode_reserves b (replicate 24 1) false (fun _ => Some 1%positive) 1%positive
    (new_node (replicate 24 1) false 0) 7 4000 true 0) as (b' & H & Hin & _).
  - split; cbn.
    + apply NoDup_nil_2.
    + vm_compute. discriminate.
    + intros p Hp. apply elem_of_nil in Hp. contradiction.
    + apply NoDup_nil_2.
    + intros a. rewrite elem_of_nil. apply elem_of_empty.
  - apply (bool_decide_unpack _). vm_compute. exact I.
  - reflexivity.
  - reflexivity.
  - reflexivity.
  - discriminate.
  - apply not_elem_of_empty.
  - apply not_elem_of_nil.
  - exists b'. split; [exact H|exact Hin].
Defined.
