(* ===== verification/SearchQueue.v ===== *)
(** * The queue of outgoing searches: [client/SearchQueue.h], [client/SearchQueue.cpp]

    Searches wait in a queue and leave it at intervals; an even token marks an automatic
    search.  Strings are lists of bytes; the set of owners is a [gset]. *)

From S2P Require Import Prelude CArray.

Definition MODE_PASSIVE := 2.

Record Search := mkSearch {
  se_searchMode : Z; se_sizeMode : Z; se_size : Z; se_fileType : Z;
  se_filter : list Z; se_filterExclude : list Z; se_token : Z; se_extList : list (list Z); se_owners : gset Z }.

Definition isAutoToken (s : Search) : bool := Z.land (se_token s) 1 =? 0.
Definition set_owners (s : Search) o :=
  mkSearch (se_searchMode s) (se_sizeMode s) (se_size s) (se_fileType s) (se_filter s) (se_filterExclude s)
    (se_token s) (se_extList s) o.

Record SearchQueue := mkSQ {
  sq_queue : list Search; sq_lastSearchTime : Z; sq_lastSearchPassive : bool; sq_interval : Z; sq_intervalPassive : Z }.
Definition set_queue (q : SearchQueue) l :=
  mkSQ l (sq_lastSearchTime q) (sq_lastSearchPassive q) (sq_interval q) (sq_intervalPassive q).

Definition equals (lhs rhs : Search) : bool :=
  (se_sizeMode lhs =? se_sizeMode rhs) && (se_size lhs =? se_size rhs) && (se_fileType lhs =? se_fileType rhs) &&
  bool_decide (se_filter lhs = se_filter rhs) && bool_decide (se_filterExclude lhs = se_filterExclude rhs).

(** The search for a duplicate: the queue it leaves, and whether [add] goes on. *)
Fixpoint check_dupe (l : list Search) (s : Search) (owner : Z) : list Search * bool :=
  match l with
  | [] => ([], true)
  | x :: l =>
      if equals x s then
        if negb (isAutoToken s) && isAutoToken x then (l, true)
        else (set_owners x ({[ owner ]} ∪ se_owners x) :: l, false)
      else let '(l', r) := check_dupe l s owner in (x :: l', r)
  end.

(** Before the first automatic search, or at the end. *)
Fixpoint insert_manual (l : list Search) (s : Search) : list Search :=
  match l with
  | [] => [s]
  | x :: r => if isAutoToken x then s :: l else x :: insert_manual r s
  end.

(** [add]; [owner] is the first element of [s.owners]. *)
Definition add (q : SearchQueue) (s : Search) (owner : Z) : SearchQueue * bool :=
  let '(l, go) := check_dupe (sq_queue q) s owner in
  if go then
    match l with
    | [] => (set_queue q [s], true)
    | _ => if isAutoToken s then (set_queue q (l ++ [s]), true) else (set_queue q (insert_manual l s), true)
    end
  else (set_queue q l, false).

Definition gap (q : SearchQueue) : Z := if sq_lastSearchPassive q then sq_intervalPassive q else sq_interval q.

Definition pop (q : SearchQueue) (now : Z) : SearchQueue * option Search :=
  match sq_queue q with
  | [] => (q, None)
  | s :: l =>
      if negb (sq_lastSearchTime q =? 0) && (now <=? u64 (sq_lastSearchTime q + gap q)) then (q, None)
      else (mkSQ l now (se_searchMode s =? MODE_PASSIVE) (sq_interval q) (sq_intervalPassive q), Some s)
  end.

Fixpoint search_time (q : SearchQueue) (l : list Search) (owner searchTime : Z) : Z :=
  match l with
  | [] => 0
  | s :: l =>
      if isAutoToken s || bool_decide (se_owners s = ∅) then 0
      else if bool_decide (owner ∈ se_owners s) then searchTime
      else search_time q l owner
             (u64 (searchTime + (if se_searchMode s =? MODE_PASSIVE then sq_intervalPassive q else sq_interval q)))
  end.

Definition first_time (q : SearchQueue) (now : Z) : Z :=
  if negb (sq_lastSearchTime q =? 0) then
    let t := u64 (sq_lastSearchTime q + gap q) in if t <? now then now else t
  else now.

Definition getSearchTime (q : SearchQueue) (owner now : Z) : Z :=
  if owner =? 0 then 0 else search_time q (sq_queue q) owner (first_time q now).

Fixpoint cancel_loop (l : list Search) (owner : Z) : list Search * bool :=
  match l with
  | [] => ([], false)
  | s :: l =>
      if bool_decide (owner ∈ se_owners s) then
        let o := se_owners s ∖ {[ owner ]} in
        if bool_decide (o = ∅) then (l, true) else (set_owners s o :: l, true)
      else let '(l', r) := cancel_loop l owner in (s :: l', r)
  end.

Definition cancelSearch (q : SearchQueue) (owner : Z) : SearchQueue * bool :=
  let '(l, r) := cancel_loop (sq_queue q) owner in (set_queue q l, r).

Definition hasQueuedItems (q : SearchQueue) : bool := match sq_queue q with [] => false | _ => true end.

(** ** The order of the queue *)

(** What makes two searches the same. *)
Definition key (s : Search) : Z * Z * Z * list Z * list Z :=
  (se_sizeMode s, se_size s, se_fileType s, se_filter s, se_filterExclude s).

Lemma equals_key x s : equals x s = bool_decide (key x = key s).
Proof.
  unfold equals. destruct (bool_decide (key x = key s)) eqn:E.
  - apply bool_decide_eq_true in E. unfold key in E. injection E as -> -> -> -> ->. rewrite !Z.eqb_refl, !bool_decide_true by reflexivity. reflexivity.
  - apply bool_decide_eq_false in E. apply not_true_iff_false. intros H. zb.
    repeat match goal with H : bool_decide _ = true |- _ => apply bool_decide_eq_true in H end. apply E. unfold key. congruence.
Qed.

(** Manual searches wait before automatic ones, no search is there twice, and every search has
    an owner. *)
Record sq_ok (l : list Search) : Prop := {
  so_order : exists m a, l = m ++ a /\ Forall (fun s => isAutoToken s = false) m /\ Forall (fun s => isAutoToken s = true) a;
  so_keys : NoDup (map key l);
  so_owners : Forall (fun s => se_owners s <> ∅) l }.

Lemma Forall_sub {A} (P : A -> Prop) l' l : sublist l' l -> Forall P l -> Forall P l'.
Proof. rewrite !Forall_forall. intros Hs H x Hx. apply H. eapply elem_of_sublist; eauto. Qed.

Lemma map_sublist {A B} (f : A -> B) l' l : sublist l' l -> sublist (map f l') (map f l).
Proof. induction 1; cbn; constructor; assumption. Qed.

Lemma sq_ok_sublist l l' : sublist l' l -> sq_ok l -> sq_ok l'.
Proof.
  intros Hs [(m & a & -> & Hm & Ha) Hk Ho]. split.
  - apply sublist_app_r in Hs as (m' & a' & -> & H1 & H2). exists m', a'. split; [reflexivity|].
    split; eapply Forall_sub; eauto.
  - eapply sublist_NoDup; [exact Hk|]. apply map_sublist, Hs.
  - eapply Forall_sub; eauto.
Qed.

Lemma sq_ok_owners l1 x l2 o : o <> ∅ -> sq_ok (l1 ++ x :: l2) -> sq_ok (l1 ++ set_owners x o :: l2).
Proof.
  intros Hne [(m & a & E & Hm & Ha) Hk Ho]. split.
  - assert (forall f : Search -> Prop, (f x -> f (set_owners x o)) -> forall u v, Forall f (u ++ x :: v) -> Forall f (u ++ set_owners x o :: v)) as Hf.
    { intros f Hx u v H. apply Forall_app in H as [H1 H2]. apply Forall_cons in H2 as [H2 H3].
      apply Forall_app. split; [exact H1|]. apply Forall_cons. auto. }
    destruct (app_eq_inv _ _ _ _ E) as [(k & -> & Ek)|(k & -> & Ek)].
    + exists m, (k ++ set_owners x o :: l2). rewrite app_assoc. split; [reflexivity|]. split; [exact Hm|].
      rewrite Ek in Ha. apply Hf; auto.
    + destruct k as [|y k].
      * exists l1, (set_owners x o :: l2). cbn in Ek. subst a. split; [reflexivity|].
        rewrite app_nil_r in Hm. split; [exact Hm|]. apply (Hf (fun s => isAutoToken s = true) (fun H => H) []), Ha.
      * injection Ek as <- ->. exists (l1 ++ set_owners x o :: k), a. rewrite <- app_assoc. split; [reflexivity|].
        split; [apply Hf; auto|exact Ha].
  - rewrite map_app in Hk |- *. exact Hk.
  - apply Forall_app in Ho as [H1 H2]. apply Forall_cons in H2 as [H2 H3]. apply Forall_app. split; [exact H1|]. constructor; assumption.
Qed.

Lemma check_dupe_spec l s owner l' go : check_dupe l s owner = (l', go) -> NoDup (map key l) ->
  if go then sublist l' l /\ (key s ∉ map key l') /\ (isAutoToken s = true -> l' = l)
  else exists l1 x l2, l = l1 ++ x :: l2 /\ l' = l1 ++ set_owners x ({[ owner ]} ∪ se_owners x) :: l2 /\ key x = key s.
Proof.
  revert l' go. induction l as [|x l IH]; intros l' go H Hnd; cbn [check_dupe] in H.
  - injection H as <- <-. split; [constructor|]. split; [apply not_elem_of_nil|reflexivity].
  - cbn in Hnd. apply NoDup_cons in Hnd as [Hx Hnd]. rewrite equals_key in H. case_bool_decide as Ek.
    + destruct (negb (isAutoToken s) && isAutoToken x) eqn:Ea; injection H as <- <-.
      * split; [constructor; reflexivity|]. split; [rewrite <- Ek; exact Hx|]. intros Hs. rewrite Hs in Ea. discriminate.
      * exists [], x, l. auto.
    + destruct (check_dupe l s owner) as [l1 g] eqn:El. injection H as <- <-. specialize (IH _ _ eq_refl Hnd). destruct g.
      * destruct IH as (H1 & H2 & H3). split; [constructor; exact H1|]. split; [|intros Hs; rewrite (H3 Hs); reflexivity].
        cbn. apply not_elem_of_cons. split; [congruence|exact H2].
      * destruct IH as (u & y & v & -> & -> & Hy). exists (x :: u), y, v. auto.
Qed.

Lemma insert_manual_spec m a s : Forall (fun s => isAutoToken s = false) m -> Forall (fun s => isAutoToken s = true) a ->
  insert_manual (m ++ a) s = m ++ s :: a.
Proof.
  intros Hm Ha. induction Hm as [|x m Hx _ IH]; cbn.
  - destruct a as [|y a]; [reflexivity|]. apply Forall_cons in Ha as [Hy _]. cbn. rewrite Hy. reflexivity.
  - rewrite Hx, IH. reflexivity.
Qed.

Lemma add_ok q s owner : sq_ok (sq_queue q) -> se_owners s = {[ owner ]} -> sq_ok (sq_queue (fst (add q s owner))).
Proof.
  intros Hq Ho. unfold add. destruct (check_dupe (sq_queue q) s owner) as [l go] eqn:E.
  apply check_dupe_spec in E; [|apply Hq]. destruct go.
  - destruct E as (Hsub & Hk & _). pose proof (sq_ok_sublist _ _ Hsub Hq) as [(m & a & -> & Hm & Ha) Hnd Hown].
    assert (sq_queue (fst (match m ++ a with
      | [] => (set_queue q [s], true)
      | _ => if isAutoToken s then (set_queue q ((m ++ a) ++ [s]), true) else (set_queue q (insert_manual (m ++ a) s), true)
      end)) = if isAutoToken s then m ++ a ++ [s] else m ++ s :: a) as ->.
    { rewrite <- (insert_manual_spec m a s Hm Ha), (app_assoc m). destruct (m ++ a); destruct (isAutoToken s); reflexivity. }
    assert (se_owners s <> ∅) as Hne by (rewrite Ho; intros H0; apply (not_elem_of_empty (C := gset Z) owner); rewrite <- H0; apply elem_of_singleton; reflexivity).
    assert ((if isAutoToken s then m ++ a ++ [s] else m ++ s :: a) ≡ₚ s :: m ++ a) as Hperm by (destruct (isAutoToken s); solve_Permutation).
    split.
    + destruct (isAutoToken s) eqn:Es.
      * exists m, (a ++ [s]). split; [reflexivity|]. split; [exact Hm|]. apply Forall_app. split; [exact Ha|]. apply Forall_singleton, Es.
      * exists (m ++ [s]), a. rewrite <- app_assoc. split; [reflexivity|]. split; [|exact Ha].
        apply Forall_app. split; [exact Hm|]. apply Forall_singleton, Es.
    + rewrite (Permutation_map key Hperm). cbn. apply NoDup_cons. auto.
    + rewrite Hperm. constructor; assumption.
  - destruct E as (l1 & x & l2 & E & -> & _). cbn. rewrite E in Hq. apply sq_ok_owners; [|exact Hq].
    intros H0. apply (not_elem_of_empty (C := gset Z) owner). rewrite <- H0. apply elem_of_union. left. apply elem_of_singleton. reflexivity.
Qed.

Lemma cancel_loop_spec l owner l' r : cancel_loop l owner = (l', r) ->
  (r = false /\ l' = l /\ Forall (fun s => owner ∉ se_owners s) l) \/
  (r = true /\ exists l1 x l2, l = l1 ++ x :: l2 /\ (owner ∈ se_owners x) /\ Forall (fun s => owner ∉ se_owners s) l1 /\
    let o := se_owners x ∖ {[ owner ]} in
    (o = ∅ /\ l' = l1 ++ l2) \/ (o <> ∅ /\ l' = l1 ++ set_owners x o :: l2)).
Proof.
  revert l' r. induction l as [|x l IH]; intros l' r H; cbn [cancel_loop] in H.
  - injection H as <- <-. left. auto.
  - case_bool_decide as Ei.
    + right. case_bool_decide as Eo; injection H as <- <-; (split; [reflexivity|]); exists [], x, l;
        (split; [reflexivity|]); (split; [exact Ei|]); (split; [constructor|]); cbn; auto.
    + destruct (cancel_loop l owner) as [l1 g]. injection H as <- <-.
      destruct (IH _ _ eq_refl) as [(-> & -> & Hf)|(-> & u & y & v & -> & Hy & Hu & Hres)].
      * left. auto.
      * right. split; [reflexivity|]. exists (x :: u), y, v. split; [reflexivity|]. split; [exact Hy|].
        split; [constructor; assumption|]. destruct Hres as [[H1 ->]|[H1 ->]]; auto.
Qed.

Lemma cancelSearch_ok q owner : sq_ok (sq_queue q) -> sq_ok (sq_queue (fst (cancelSearch q owner))).
Proof.
  intros Hq. unfold cancelSearch. destruct (cancel_loop (sq_queue q) owner) as [l r] eqn:E. cbn.
  destruct (cancel_loop_spec _ _ _ _ E) as [(_ & -> & _)|(_ & l1 & x & l2 & E' & _ & _ & Hres)]; [exact Hq|].
  rewrite E' in Hq. destruct Hres as [[_ ->]|[Hne ->]].
  - eapply sq_ok_sublist; [|exact Hq]. apply sublist_app; [reflexivity|]. constructor. reflexivity.
  - apply sq_ok_owners; assumption.
Qed.

Lemma pop_ok q now : sq_ok (sq_queue q) -> sq_ok (sq_queue (fst (pop q now))).
Proof.
  intros Hq. unfold pop. destruct (sq_queue q) as [|s l] eqn:E; cbn; [rewrite E; exact Hq|].
  destruct (_ && _); cbn; [rewrite E; exact Hq|]. eapply sq_ok_sublist; [|exact Hq]. constructor. reflexivity.
Qed.

(** The operations; a search is added with its one owner. *)
Inductive sq_step : SearchQueue -> SearchQueue -> Prop :=
| ss_add q s owner : se_owners s = {[ owner ]} -> sq_step q (fst (add q s owner))
| ss_pop q now : sq_step q (fst (pop q now))
| ss_cancel q owner : sq_step q (fst (cancelSearch q owner)).

(** C29.  Whatever searches are added, sent and cancelled, manual searches wait before
    automatic ones, no two searches of the queue are the same and each has an owner. *)
Theorem SearchQueue_invariant t p i ip q : rtc sq_step (mkSQ [] t p i ip) q -> sq_ok (sq_queue q).
Proof.
  intros H. assert (sq_ok (sq_queue (mkSQ [] t p i ip))) as H0.
  { split; [exists [], []; auto|apply NoDup_nil_2|constructor]. }
  revert H0. induction H as [|q1 q2 q3 Hs _ IH]; [auto|]. intros Hq. apply IH. destruct Hs.
  - apply add_ok; assumption.
  - apply pop_ok, Hq.
  - apply cancelSearch_ok, Hq.
Qed.

Definition sample_search (token mode : Z) (filter : list Z) (owner : Z) : Search :=
  mkSearch mode 0 0 0 filter [] token [] {[ owner ]}.
Definition sample_queue : SearchQueue :=
  fst (add (fst (add (mkSQ [] 0 false 15000 30000) (sample_search 2 1 [97] 5) 5)) (sample_search 3 1 [98] 6) 6).

Lemma SearchQueue_invariant_witness :
  map se_token (sq_queue sample_queue) = [3; 2] /\ sq_ok (sq_queue sample_queue).
Proof.
  split; [vm_compute; reflexivity|]. apply (SearchQueue_invariant 0 false 15000 30000).
  eapply rtc_l; [apply (ss_add _ (sample_search 2 1 [97] 5) 5); reflexivity|].
  eapply rtc_l; [apply (ss_add _ (sample_search 3 1 [98] 6) 6); reflexivity|]. apply rtc_refl.
Defined.

(** ** The times of the searches *)

(** Attempts to send at the times [ts]: what was sent, and when. *)
Fixpoint pops (q : SearchQueue) (ts : list Z) : list (Z * Search) :=
  match ts with
  | [] => []
  | t :: ts => match pop q t with (q', Some s) => (t, s) :: pops q' ts | (q', None) => pops q' ts end
  end.

Definition times_ok (q : SearchQueue) (now : Z) (ts : list Z) : Prop :=
  0 <= sq_lastSearchTime q <= now /\ 0 < now /\ 0 < sq_interval q < 2 ^ 32 /\ 0 < sq_intervalPassive q < 2 ^ 32 /\
  StronglySorted Z.le (now :: ts) /\ Forall (fun t => t < 2 ^ 63) (now :: ts).

Lemma pop_time q now s q' : 0 <= sq_lastSearchTime q < 2 ^ 63 -> 0 < sq_interval q < 2 ^ 32 -> 0 < sq_intervalPassive q < 2 ^ 32 ->
  pop q now = (q', Some s) ->
  exists l, sq_queue q = s :: l /\ q' = mkSQ l now (se_searchMode s =? MODE_PASSIVE) (sq_interval q) (sq_intervalPassive q) /\
    (sq_lastSearchTime q <> 0 -> sq_lastSearchTime q + gap q < now).
Proof.
  intros Ht Hi Hp H. unfold pop in H. destruct (sq_queue q) as [|x l]; [discriminate|].
  destruct (negb (sq_lastSearchTime q =? 0) && (now <=? u64 (sq_lastSearchTime q + gap q))) eqn:E; [discriminate|].
  injection H as <- <-. exists l. split; [reflexivity|]. split; [reflexivity|]. intros Hne.
  assert (0 < gap q < 2 ^ 32) by (unfold gap; destruct (sq_lastSearchPassive q); assumption).
  unfold u64, wrap in E. rewrite Z.mod_small in E by lia. lia.
Qed.

Definition wait (q : SearchQueue) (s : Search) : Z :=
  if se_searchMode s =? MODE_PASSIVE then sq_intervalPassive q else sq_interval q.

(** Two searches sent one after the other. *)
Definition spaced (q : SearchQueue) (x y : Z * Search) : Prop := fst x + wait q (snd x) < fst y.

Lemma pop_None q t q' : pop q t = (q', None) -> q' = q.
Proof. unfold pop. destruct (sq_queue q); [congruence|]. destruct (_ && _); congruence. Qed.

Lemma times_ok_next q now t ts l p : times_ok q now (t :: ts) ->
  times_ok q t ts /\ times_ok (mkSQ l t p (sq_interval q) (sq_intervalPassive q)) t ts /\
  now <= t /\ 0 <= sq_lastSearchTime q < 2 ^ 63 /\ 0 < sq_interval q < 2 ^ 32 /\ 0 < sq_intervalPassive q < 2 ^ 32 /\ t < 2 ^ 63.
Proof.
  intros (Hl & Hn & Hi & Hp & Hs & Hb). apply StronglySorted_inv in Hs as [Hs Hle].
  rewrite Forall_cons in Hb, Hle. destruct Hb as [Hb0 Hb], Hle as [Hle0 Hle]. pose proof Hb as Hb'.
  rewrite Forall_cons in Hb. unfold times_ok. cbn. repeat split; auto; lia.
Qed.

Lemma pops_spaced q now ts : times_ok q now ts ->
  Sorted (spaced q) (pops q ts) /\
  match pops q ts with
  | [] => True
  | x :: _ => now <= fst x /\ (sq_lastSearchTime q <> 0 -> sq_lastSearchTime q + gap q < fst x)
  end.
Proof.
  revert q now. induction ts as [|t ts IH]; intros q now Hok; [split; [constructor|exact I]|].
  cbn [pops]. destruct (pop q t) as [q' [s|]] eqn:E.
  - destruct (times_ok_next q now t ts (drop 1 (sq_queue q)) (se_searchMode s =? MODE_PASSIVE) Hok) as (_ & H1 & Ht & Hl & Hi & Hp & Hb).
    destruct (pop_time q t s q' Hl Hi Hp E) as (l & Eq & -> & Hgap). rewrite Eq in H1. cbn [drop] in H1.
    destruct (IH _ t H1) as [IH1 IH2]. split; [|cbn; split; [lia|exact Hgap]]. constructor; [exact IH1|].
    destruct (pops _ ts) as [|y r]; constructor. unfold spaced. cbn [fst snd]. destruct IH2 as [_ IH2]. cbn in IH2.
    unfold gap in IH2. cbn in IH2. unfold wait. apply IH2. destruct Hok as (? & ? & _). lia.
  - apply pop_None in E as ->. destruct (times_ok_next q now t ts [] false Hok) as (H1 & _ & Ht & _).
    destruct (IH q t H1) as [IH1 IH2]. split; [exact IH1|]. destruct (pops q ts) as [|y r]; [exact I|].
    destruct IH2. split; [lia|assumption].
Qed.

(** [T] is not after any time at which a search can be sent. *)
Definition earliest (q : SearchQueue) (T : Z) (ts : list Z) : Prop :=
  0 <= T /\ forall t q' s, t ∈ ts -> pop q t = (q', Some s) -> T <= t.

Lemma pops_after q now ts t s : times_ok q now ts -> (t, s) ∈ pops q ts -> now <= t.
Proof.
  revert q now. induction ts as [|t0 ts IH]; intros q now Hok H; [apply elem_of_nil in H; contradiction|].
  cbn [pops] in H. destruct (pop q t0) as [q' [s0|]] eqn:E.
  - destruct (times_ok_next q now t0 ts (drop 1 (sq_queue q)) (se_searchMode s0 =? MODE_PASSIVE) Hok) as (_ & H1 & Ht & Hl & Hi & Hp & Hb).
    destruct (pop_time q t0 s0 q' Hl Hi Hp E) as (l & Eq & -> & _). rewrite Eq in H1.
    apply elem_of_cons in H as [H|H]; [injection H as -> ->; exact Ht|]. specialize (IH _ t0 H1 H). lia.
  - apply pop_None in E as ->. destruct (times_ok_next q now t0 ts [] false Hok) as (H1 & _ & Ht & _).
    specialize (IH q t0 H1 H). lia.
Qed.

Lemma search_time_ext q q' l owner T : sq_interval q' = sq_interval q -> sq_intervalPassive q' = sq_intervalPassive q ->
  search_time q' l owner T = search_time q l owner T.
Proof.
  intros H1 H2. revert T. induction l as [|s l IH]; intros T; cbn; [reflexivity|]. rewrite H1, H2, IH. reflexivity.
Qed.

Lemma pops_bound q now ts owner T : times_ok q now ts -> earliest q T ts ->
  forall t s, (t, s) ∈ pops q ts -> (owner ∈ se_owners s) -> search_time q (sq_queue q) owner T <= t.
Proof.
  revert q now T. induction ts as [|t0 ts IH]; intros q now T Hok [HT He] t s H Ho; [apply elem_of_nil in H; contradiction|].
  cbn [pops] in H. destruct (pop q t0) as [q' [s0|]] eqn:E.
  - destruct (times_ok_next q now t0 ts (drop 1 (sq_queue q)) (se_searchMode s0 =? MODE_PASSIVE) Hok) as (_ & H1 & Ht & Hl & Hi & Hp & Hb).
    pose proof (He t0 q' s0 ltac:(left) E) as HTt.
    destruct (pop_time q t0 s0 q' Hl Hi Hp E) as (l & Eq & -> & _). rewrite Eq in H1 |- *. cbn [drop] in H1. rewrite drop_0 in H1.
    assert (t0 <= t) as Htt by (apply elem_of_cons in H as [H|H]; [injection H; lia|eapply pops_after; eauto]).
    cbn [search_time]. destruct (isAutoToken s0 || _); [destruct Hok as (? & ? & _); lia|].
    case_bool_decide as Eo; [lia|]. apply elem_of_cons in H as [H|H]; [injection H as -> ->; contradiction|].
    set (q1 := mkSQ l t0 _ _ _) in *. fold (wait q s0).
    assert (0 < wait q s0 < 2 ^ 32) as Hw by (unfold wait; destruct (_ =? _); assumption).
    replace (u64 (T + wait q s0)) with (T + wait q s0) by (unfold wrap; rewrite Z.mod_small; lia).
    rewrite <- (search_time_ext q q1) by reflexivity. change l with (sq_queue q1).
    apply (IH q1 t0 (T + wait q s0) H1) with s; auto. split; [lia|]. intros t' q2 s2 Hin Ep.
    destruct (pop_time q1 t' s2 q2) as (l2 & _ & _ & Hgap); auto; [cbn; destruct Hok as (? & ? & _); lia|].
    unfold gap in Hgap. cbn in Hgap. unfold wait. destruct Hok as (? & ? & _). specialize (Hgap ltac:(lia)). lia.
  - apply pop_None in E as ->. destruct (times_ok_next q now t0 ts [] false Hok) as (H1 & _ & Ht & _).
    apply (IH q t0 T H1) with s; auto. split; [exact HT|]. intros t' q2 s2 Hin. apply He. right. exact Hin.
Qed.

(** C30.  The searches leave the queue at the required distances, however often the client
    tries to send, and the time announced to the owner of a queued search is a lower bound:
    as long as nothing else is queued, no search of that owner is sent before it. *)
Theorem getSearchTime_correct q now ts owner : times_ok q now ts ->
  Sorted (spaced q) (pops q ts) /\
  forall t s, (t, s) ∈ pops q ts -> (owner ∈ se_owners s) -> getSearchTime q owner now <= t.
Proof.
  intros Hok. split; [apply (pops_spaced q now ts Hok)|]. intros t s H Ho. unfold getSearchTime.
  pose proof (pops_after q now ts t s Hok H) as Ht. pose proof Hok as (Hl & Hn & Hi & Hp & Hs & Hb).
  destruct (owner =? 0); [lia|]. apply (pops_bound q now ts owner (first_time q now) Hok) with s; auto.
  assert (0 < gap q < 2 ^ 32) as Hg by (unfold gap; destruct (sq_lastSearchPassive q); assumption).
  rewrite Forall_cons in Hb. unfold first_time. replace (u64 (sq_lastSearchTime q + gap q)) with (sq_lastSearchTime q + gap q)
    by (unfold wrap; rewrite Z.mod_small; lia).
  apply StronglySorted_inv in Hs as [_ Hle]. rewrite Forall_forall in Hle. split.
  - destruct (sq_lastSearchTime q =? 0) eqn:E; cbn [negb]; [lia|]. destruct (_ <? now); lia.
  - intros t' q' s' Hin Ep. specialize (Hle t' Hin).
    destruct (pop_time q t' s' q') as (l & _ & _ & Hgap); auto; [lia|].
    destruct (sq_lastSearchTime q =? 0) eqn:E; cbn [negb]; [lia|]. zb. specialize (Hgap E).
    destruct (_ <? now) eqn:E2; zb; lia.
Qed.

Lemma getSearchTime_correct_witness :
  let q := mkSQ [sample_search 3 1 [97] 5; sample_search 5 2 [98] 6] 100 false 15000 30000 in
  getSearchTime q 6 1000 = 30100 /\ map fst (pops q [1000; 20000; 36000]) = [20000; 36000] /\
  Sorted (spaced q) (pops q [1000; 20000; 36000]) /\
  forall t s, (t, s) ∈ pops q [1000; 20000; 36000] -> (6 ∈ se_owners s) -> 30100 <= t.
Proof.
  intros q. split; [vm_compute; reflexivity|]. split; [vm_compute; reflexivity|].
  apply (getSearchTime_correct q 1000 [1000; 20000; 36000] 6).
  unfold times_ok, q. cbn [sq_lastSearchTime sq_interval sq_intervalPassive]. repeat split; try lia; repeat constructor; lia.
Defined.
