(* ===== verification/DhtFlood.v ===== *)
(** * Flood protection of the DHT: [client/dht/Utils.h], [client/dht/Utils.cpp] and the tests
    of addresses in [client/NetworkUtil.h]

    Packets received are counted by sender and command until the next clean-up; responses are
    let in only for a request that was sent.  A multiset is the list of its elements. *)

From S2P Require Import Prelude CArray Base32 HashValue AdcCommand.

Definition TIME_FOR_RESPONSE := 3 * 60 * 1000.

Definition CMD_SCH := CMD 83 67 72.
Definition CMD_PUB := CMD 80 85 66.
Definition CMD_INF := CMD 73 78 70.
Definition CMD_CTM := CMD 67 84 77.
Definition CMD_RCM := CMD 82 67 77.
Definition CMD_GET := CMD 71 69 84.
Definition CMD_PSR := CMD 80 83 82.
Definition CMD_SND := CMD 83 78 68.
Definition CMD_RES := CMD 82 69 83.
Definition CMD_MSG := CMD 77 83 71.

Record OutPacket := mkOut { op_ip : Z; op_time : Z; op_cmd : Z }.
Record Flood := mkFlood { fl_received : gmap Z (list Z); fl_sent : list OutPacket }.

Definition isPrivateIp (ip : Z) : bool :=
  (Z.land ip 0xff000000 =? 0x0a000000) || (Z.land ip 0xffff0000 =? 0xa9fe0000) ||
  (Z.land ip 0xfff00000 =? 0xac100000) || (Z.land ip 0xffff0000 =? 0xc0a80000) ||
  (Z.land ip 0xffc00000 =? 0x64400000).
Definition isPublicIp (ip : Z) : bool := negb (isPrivateIp ip || (Z.land ip 0xff000000 =? 0x7f000000)).

Definition isGoodIPPort (ip port : Z) : bool :=
  if (ip =? 0) || (ip =? 0xFFFFFFFF) || (port <? 1024) then false else isPublicIp ip.

(** The number of packets of a command let in per minute: the [switch] over requests. *)
Definition maxAllowedPacketsPerMinute (cmd : Z) : nat :=
  if cmd =? CMD_SCH then 20 else if cmd =? CMD_PUB then 10 else if cmd =? CMD_INF then 3
  else if cmd =? CMD_CTM then 2 else if cmd =? CMD_RCM then 2 else if cmd =? CMD_GET then 2
  else if cmd =? CMD_PSR then 3 else 0.

(** The request a response answers. *)
Definition requestCmd (cmd : Z) : option Z :=
  if cmd =? CMD_SND then Some CMD_GET else if cmd =? CMD_RES then Some CMD_SCH else None.

(** The first matching request sent is used up. *)
Fixpoint take_sent (l : list OutPacket) (cmd ip : Z) : option (list OutPacket) :=
  match l with
  | [] => None
  | x :: l => if (op_cmd x =? cmd) && (op_ip x =? ip) then Some l else cons x <$> take_sent l cmd ip
  end.

Definition count (c : Z) (l : list Z) : nat := length (List.filter (Z.eqb c) l).

Definition checkFlood (f : Flood) (ip : Z) (cmd : AdcCommand) : bool * Flood :=
  match ac_parameters cmd with
  | [] => (false, f)
  | _ =>
      let c := ac_cmdInt cmd in
      if c =? CMD_STA then (true, f)
      else
        match requestCmd c with
        | Some r =>
            match take_sent (fl_sent f) r ip with
            | Some l => (true, mkFlood (fl_received f) l)
            | None => (false, f)
            end
        | None =>
            let packetsPerIp := c :: default [] (fl_received f !! ip) in
            ((count c packetsPerIp <=? maxAllowedPacketsPerMinute c)%nat,
             mkFlood (<[ ip := packetsPerIp ]> (fl_received f)) (fl_sent f))
        end
  end.

Definition cleanFlood (f : Flood) : Flood := mkFlood ∅ (fl_sent f).

Definition tracked (c : Z) : bool :=
  existsb (Z.eqb c) [CMD_SCH; CMD_PUB; CMD_INF; CMD_CTM; CMD_GET; CMD_PSR].

Fixpoint drop_old (l : list OutPacket) (now : Z) : list OutPacket :=
  match l with [] => [] | x :: r => if TIME_FOR_RESPONSE <=? u64 (now - op_time x) then drop_old r now else l end.

Definition trackOutgoingPacket (f : Flood) (ip : Z) (cmd : AdcCommand) (now : Z) : Flood :=
  let sent := if tracked (ac_cmdInt cmd) then fl_sent f ++ [mkOut ip now (ac_cmdInt cmd)] else fl_sent f in
  mkFlood (fl_received f) (drop_old sent now).

Definition compressXML (xml : list Z) : list Z :=
  List.filter (fun ch => negb ((ch =? 13) || (ch =? 10) || (ch =? 9))) xml.

(** ** Requests *)

(** The answers to a sequence of packets. *)
Fixpoint answers (f : Flood) (ps : list (Z * AdcCommand)) : list bool :=
  match ps with
  | [] => []
  | (ip, cmd) :: ps => let '(r, f) := checkFlood f ip cmd in r :: answers f ps
  end.

Definition nonempty (cmd : AdcCommand) : bool := match ac_parameters cmd with [] => false | _ => true end.

(** A packet that is counted: not a response. *)
Definition is_request (cmd : AdcCommand) : bool :=
  nonempty cmd && negb (ac_cmdInt cmd =? CMD_STA) && match requestCmd (ac_cmdInt cmd) with Some _ => false | None => true end.

Definition same_request (ip : Z) (cmd : AdcCommand) (p : Z * AdcCommand) : bool :=
  (fst p =? ip) && (ac_cmdInt (snd p) =? ac_cmdInt cmd) && is_request (snd p).

Definition seen (f : Flood) (ip c : Z) : nat := count c (default [] (fl_received f !! ip)).

Lemma checkFlood_request f ip cmd : is_request cmd = true ->
  checkFlood f ip cmd =
  ((S (seen f ip (ac_cmdInt cmd)) <=? maxAllowedPacketsPerMinute (ac_cmdInt cmd))%nat,
   mkFlood (<[ ip := ac_cmdInt cmd :: default [] (fl_received f !! ip) ]> (fl_received f)) (fl_sent f)).
Proof.
  unfold is_request, nonempty, checkFlood, seen. intros H. destruct (ac_parameters cmd); [discriminate|]. cbn [andb] in H.
  destruct (ac_cmdInt cmd =? CMD_STA); [discriminate|]. destruct (requestCmd (ac_cmdInt cmd)); [discriminate|].
  unfold count at 1. cbn [List.filter]. rewrite Z.eqb_refl. reflexivity.
Qed.

Lemma checkFlood_other f ip cmd : is_request cmd = false -> fl_received (snd (checkFlood f ip cmd)) = fl_received f.
Proof.
  unfold is_request, nonempty, checkFlood. intros H. destruct (ac_parameters cmd); [reflexivity|]. cbn [andb] in H.
  destruct (ac_cmdInt cmd =? CMD_STA); [reflexivity|]. destruct (requestCmd (ac_cmdInt cmd)); [|discriminate].
  destruct (take_sent _ _ _); reflexivity.
Qed.

Lemma received_step f ip cmd ip' cmd' : is_request cmd' = true ->
  seen (snd (checkFlood f ip cmd)) ip' (ac_cmdInt cmd')
  = (seen f ip' (ac_cmdInt cmd') + (if same_request ip' cmd' (ip, cmd) then 1 else 0))%nat.
Proof.
  intros H'. unfold same_request. cbn [fst snd]. destruct (is_request cmd) eqn:H.
  - rewrite checkFlood_request by exact H. unfold seen. cbn [snd fl_received]. destruct (ip =? ip') eqn:E; zb; cbn [andb].
    + subst ip'. rewrite lookup_insert_eq. change (default [] (Some ?l)) with l. unfold count. cbn [List.filter].
      rewrite (Z.eqb_sym (ac_cmdInt cmd')). destruct (ac_cmdInt cmd =? ac_cmdInt cmd'); cbn; unfold id; lia.
    + rewrite lookup_insert_ne by exact E. lia.
  - unfold seen. rewrite checkFlood_other by exact H. rewrite andb_false_r. lia.
Qed.

Lemma answers_spec f ps i ip cmd : ps !! i = Some (ip, cmd) -> is_request cmd = true ->
  answers f ps !! i =
  Some ((S (seen f ip (ac_cmdInt cmd) + length (List.filter (same_request ip cmd) (take i ps)))
         <=? maxAllowedPacketsPerMinute (ac_cmdInt cmd))%nat).
Proof.
  revert f i. induction ps as [|[ip0 cmd0] ps IH]; intros f i Hi Hr; [discriminate|].
  cbn [answers]. destruct (checkFlood f ip0 cmd0) as [r f'] eqn:E. destruct i as [|i].
  - injection Hi as -> ->. rewrite checkFlood_request in E by exact Hr. injection E as <- _. cbn. rewrite Nat.add_0_r. reflexivity.
  - cbn [lookup list_lookup]. change (answers f' ps !! i = ?x) with (answers f' ps !! i = x).
    rewrite (IH f' i Hi Hr). do 2 f_equal. pose proof (received_step f ip0 cmd0 ip cmd Hr) as Hs. rewrite E in Hs. cbn [snd] in Hs.
    rewrite Hs. cbn [take List.filter]. destruct (same_request ip cmd (ip0, cmd0)); cbn [length]; lia.
Qed.

(** After a clean-up, a request is let in exactly when the same sender has sent fewer
    packets of that command than the command's limit, whatever else arrives in between; other
    commands than the listed ones, private messages among them, are never let in. *)
Theorem checkFlood_limit f ps i ip cmd : ps !! i = Some (ip, cmd) -> is_request cmd = true ->
  answers (cleanFlood f) ps !! i =
  Some ((length (List.filter (same_request ip cmd) (take i ps)) <? maxAllowedPacketsPerMinute (ac_cmdInt cmd))%nat).
Proof. intros Hi Hr. rewrite (answers_spec _ _ _ _ _ Hi Hr). reflexivity. Qed.

Lemma checkFlood_limit_witness :
  let get := mkAdc [[65]] [] CMD_GET 0 0 TYPE_UDP in
  let msg := mkAdc [[65]] [] CMD_MSG 0 0 TYPE_UDP in
  answers (cleanFlood (mkFlood ∅ [])) [(1, get); (1, get); (1, get); (2, msg)] !! 2%nat = Some false /\
  answers (cleanFlood (mkFlood ∅ [])) [(1, get); (1, get); (1, get); (2, msg)] !! 3%nat = Some false /\
  answers (cleanFlood (mkFlood ∅ [])) [(1, get); (1, get); (1, get); (2, msg)] !! 1%nat = Some true.
Proof.
  intros get msg. rewrite (checkFlood_limit (mkFlood ∅ []) _ 2 1 get), (checkFlood_limit (mkFlood ∅ []) _ 3 2 msg),
    (checkFlood_limit (mkFlood ∅ []) _ 1 1 get) by reflexivity. repeat split.
Defined.

(** ** Responses *)

Definition response_to (cmd : AdcCommand) : option Z :=
  if nonempty cmd && negb (ac_cmdInt cmd =? CMD_STA) then requestCmd (ac_cmdInt cmd) else None.

(** The requests [r] sent to [ip] that wait for a response. *)
Definition outstanding (l : list OutPacket) (r ip : Z) : nat :=
  length (List.filter (fun x => (op_cmd x =? r) && (op_ip x =? ip)) l).

Definition same_response (ip r : Z) (p : Z * AdcCommand) : bool :=
  (fst p =? ip) && match response_to (snd p) with Some r' => r' =? r | None => false end.

Lemma take_sent_spec l r ip r' ip' :
  match take_sent l r ip with
  | Some l' => (0 < outstanding l r ip)%nat /\
               (outstanding l r' ip' = outstanding l' r' ip' + (if (ip =? ip')%Z && (r =? r')%Z then 1 else 0))%nat
  | None => outstanding l r ip = O
  end.
Proof.
  unfold outstanding. induction l as [|x l IH]; cbn [take_sent List.filter]; [reflexivity|].
  destruct ((op_cmd x =? r) && (op_ip x =? ip)) eqn:E.
  - split; [cbn; lia|]. zb. subst. destruct (op_cmd x =? r'), (op_ip x =? ip'); cbn [andb length]; lia.
  - destruct (take_sent l r ip) as [l'|]; [|exact IH]. cbn [fmap option_fmap option_map List.filter].
    destruct IH as [IH1 IH2]. split; [exact IH1|]. destruct ((op_cmd x =? r') && (op_ip x =? ip')); cbn [length]; lia.
Qed.

Lemma checkFlood_sent f ip cmd r' ip' :
  fst (checkFlood f ip cmd) = (match response_to cmd with
                               | Some r => (0 <? outstanding (fl_sent f) r ip)%nat
                               | None => fst (checkFlood f ip cmd)
                               end) /\
  outstanding (fl_sent (snd (checkFlood f ip cmd))) r' ip'
  = (outstanding (fl_sent f) r' ip' - (if same_response ip' r' (ip, cmd) then 1 else 0))%nat.
Proof.
  unfold response_to, same_response, nonempty, checkFlood. cbn [fst snd]. unfold response_to, nonempty.
  destruct (ac_parameters cmd); cbn [andb]; [rewrite andb_false_r; split; [reflexivity|cbn [fst snd fl_sent]; lia]|].
  destruct (ac_cmdInt cmd =? CMD_STA); cbn [andb negb]; [rewrite andb_false_r; split; [reflexivity|cbn [fst snd fl_sent]; lia]|].
  destruct (requestCmd (ac_cmdInt cmd)) as [r|]; [|rewrite andb_false_r; split; [reflexivity|cbn [fst snd fl_sent]; lia]].
  pose proof (take_sent_spec (fl_sent f) r ip r' ip') as H. destruct (take_sent (fl_sent f) r ip) as [rest|]; cbn [fst snd fl_sent].
  - destruct H as [H1 H2]. split; [symmetry; apply Nat.ltb_lt, H1|]. rewrite H2. destruct (ip =? ip'), (r =? r'); cbn [andb]; lia.
  - split; [rewrite H; reflexivity|]. destruct (ip =? ip') eqn:E1, (r =? r') eqn:E2; zb; subst; cbn [andb]; lia.
Qed.

(** A response is let in exactly when a request to its sender is still open: of the
    responses of one kind that follow each other, as many are let in as requests were open. *)
Theorem checkFlood_responses f ps i ip cmd r : ps !! i = Some (ip, cmd) -> response_to cmd = Some r ->
  answers f ps !! i =
  Some ((length (List.filter (same_response ip r) (take i ps)) <? outstanding (fl_sent f) r ip)%nat).
Proof.
  revert f i. induction ps as [|[ip0 cmd0] ps IH]; intros f i Hi Hr; [discriminate|].
  cbn [answers]. pose proof (checkFlood_sent f ip0 cmd0 r ip) as [H1 H2].
  destruct (checkFlood f ip0 cmd0) as [a f']. cbn [fst snd] in H1, H2. destruct i as [|i].
  - injection Hi as -> ->. rewrite Hr in H1. cbn. rewrite H1. reflexivity.
  - cbn [lookup list_lookup]. change (answers f' ps !! i = ?x) with (answers f' ps !! i = x).
    rewrite (IH f' i Hi Hr), H2. f_equal. apply eq_true_iff_eq. rewrite !Nat.ltb_lt. cbn [take List.filter].
    destruct (same_response ip r (ip0, cmd0)); cbn [length]; lia.
Qed.

Lemma checkFlood_responses_witness :
  let res := mkAdc [[65]] [] CMD_RES 0 0 TYPE_UDP in
  let f := mkFlood ∅ [mkOut 1 0 CMD_SCH; mkOut 2 0 CMD_SCH] in
  answers f [(1, res); (1, res)] !! 0%nat = Some true /\ answers f [(1, res); (1, res)] !! 1%nat = Some false.
Proof.
  intros res f. rewrite (checkFlood_responses f _ 0 1 res CMD_SCH), (checkFlood_responses f _ 1 1 res CMD_SCH) by reflexivity.
  split; reflexivity.
Defined.
