(* ===== verification/DhtIndex.v ===== *)
(** * The index of the DHT: [client/dht/IndexManager.h], [client/dht/IndexManager.cpp]

    The sources of files published by other nodes, by the hash of the file, and the queue of
    this client's files to publish.  [GET_TICK()] is an argument; the XML files and the packets
    sent are not modelled. *)

From S2P Require Import Prelude CArray StrUtil Base32 HashValue AdcCommand.

Definition MAX_SEARCH_RESULTS : nat := 300.
Definition MIN_PUBLISH_FILESIZE := 1024 * 1024.
Definition REPUBLISH_TIME := 5 * 60 * 60 * 1000.
Definition PFS_REPUBLISH_TIME := 1 * 60 * 60 * 1000.
Definition MAX_PUBLISHES_AT_TIME := 3.

Record Source := mkSource {
  sr_cid : list Z; sr_ip : Z; sr_expires : Z; sr_size : Z; sr_udpPort : Z; sr_partial : bool }.
Record File := mkFile { fi_tth : list Z; fi_size : Z; fi_partial : bool }.

(** [ix_dirty]: [DHT::setDirty()] was called. *)
Record IndexManager := mkIndex {
  ix_tthList : gmap (list Z) (list Source); ix_publishQueue : list File; ix_publish : bool;
  ix_publishing : Z; ix_nextRepublishTime : Z; ix_dirty : bool }.

Definition set_list (m : IndexManager) l d :=
  mkIndex l (ix_publishQueue m) (ix_publish m) (ix_publishing m) (ix_nextRepublishTime m) d.
Definition set_publishing (m : IndexManager) q n :=
  mkIndex (ix_tthList m) q (ix_publish m) n (ix_nextRepublishTime m) (ix_dirty m).

(** The first source of the user goes. *)
Fixpoint erase_cid (l : list Source) (cid : list Z) : list Source :=
  match l with [] => [] | s :: l => if CID_eq cid (sr_cid s) then l else s :: erase_cid l cid end.

(** [addSource]; the node is its user and address. *)
Definition addSource (m : IndexManager) (tth cid : list Z) (ip port size : Z) (partial : bool) (now : Z) : IndexManager :=
  let source := mkSource cid ip (u64 (now + (if partial then PFS_REPUBLISH_TIME else REPUBLISH_TIME))) size port partial in
  let sources :=
    match ix_tthList m !! tth with
    | Some sources =>
        let sources := erase_cid sources cid ++ [source] in
        if (MAX_SEARCH_RESULTS <? length sources)%nat then drop 1 sources else sources
    | None => [source]
    end in
  set_list m (<[ tth := sources ]> (ix_tthList m)) true.

Definition findResult (m : IndexManager) (tth : list Z) : option (list Source) := ix_tthList m !! tth.

(** [publishNextFile]: the file handed to [findStore]. *)
Definition publishNextFile (m : IndexManager) : IndexManager * option File :=
  match ix_publishQueue m with
  | [] => (m, None)
  | f :: q => if MAX_PUBLISHES_AT_TIME <=? ix_publishing m then (m, None)
              else (set_publishing m q (ix_publishing m + 1), Some f)
  end.

Definition decPublishing (m : IndexManager) : IndexManager := set_publishing m (ix_publishQueue m) (ix_publishing m - 1).

Fixpoint drop_expired (l : list Source) (tick : Z) : list Source * bool :=
  match l with
  | [] => ([], false)
  | s :: r => if sr_expires s <=? tick then (fst (drop_expired r tick), true) else (l, false)
  end.

Definition checkExpiration (m : IndexManager) (tick : Z) : IndexManager :=
  let l := omap (fun l => match fst (drop_expired l tick) with [] => None | r => Some r end) (ix_tthList m) in
  let dirty := existsb (fun x => snd (drop_expired (snd x) tick)) (map_to_list (ix_tthList m)) in
  set_list m l (ix_dirty m || dirty).

Definition publishFile (m : IndexManager) (tth : list Z) (size : Z) : IndexManager :=
  if MIN_PUBLISH_FILESIZE <? size then set_publishing m (ix_publishQueue m ++ [mkFile tth size false]) (ix_publishing m) else m.
Definition publishPartialFile (m : IndexManager) (tth : list Z) : IndexManager :=
  set_publishing m (mkFile tth 0 true :: ix_publishQueue m) (ix_publishing m).

Definition setNextPublishing (m : IndexManager) (now : Z) : IndexManager :=
  mkIndex (ix_tthList m) (ix_publishQueue m) (ix_publish m) (ix_publishing m) (u64 (now + REPUBLISH_TIME)) (ix_dirty m).
Definition isTimeForPublishing (m : IndexManager) (now : Z) : bool := ix_nextRepublishTime m <=? now.
Definition setPublish (m : IndexManager) (v : bool) : IndexManager :=
  mkIndex (ix_tthList m) (ix_publishQueue m) v (ix_publishing m) (ix_nextRepublishTime m) (ix_dirty m).

Definition TAG (x y : Z) : Z := Z.lor x (Z.shiftl y 8).

(** [processPublishSourceRequest]: the index and the response sent, if any. *)
Definition processPublishSourceRequest (m : IndexManager) (cid : list Z) (ip port : Z) (cmd : AdcCommand) (now : Z)
  : option (IndexManager * option AdcCommand) :=
  match getParam cmd (TAG 84 82) 1, getParam cmd (TAG 83 73) 1 with
  | Some tth, Some size =>
      intSize ← toInt64 size;
      if intSize <=? 0 then Some (m, None)
      else
        let partial := default [] (getParam cmd (TAG 80 70) 1) in
        root ← HashValue_base32 tth;
        let m := addSource m root cid ip port intSize (bool_decide (partial = [49])) now in
        let res := new_status 0 0 [70; 105; 108; 101; 32; 112; 117; 98; 108; 105; 115; 104; 101; 100] TYPE_UDP in
        Some (m, Some (addParam_named (addParam res [70; 67; 80; 85; 66]) (TAG 84 82) tth))
  | _, _ => Some (m, None)
  end.

(** ** The sources of a file *)

(** At most 300 sources, one for each user. *)
Definition src_ok (l : list Source) : Prop :=
  NoDup (map sr_cid l) /\ (length l <= MAX_SEARCH_RESULTS)%nat /\ Forall (fun s => length (sr_cid s) = CID_SIZE) l.

(** The sources of other users. *)
Definition others (l : list Source) (cid : list Z) : list Source := filter (fun s => sr_cid s <> cid) l.

Lemma filter_keep (P : Source -> Prop) `{!forall x, Decision (P x)} l : Forall P l -> filter P l = l.
Proof. induction 1 as [|x l Hx _ IH]; [reflexivity|]. rewrite filter_cons_True, IH by exact Hx. reflexivity. Qed.

Lemma erase_cid_others l cid : NoDup (map sr_cid l) -> Forall (fun s => length (sr_cid s) = CID_SIZE) l -> length cid = CID_SIZE ->
  erase_cid l cid = others l cid.
Proof.
  intros Hnd Hlen Hc. unfold others. induction l as [|s l IH]; cbn [erase_cid]; [reflexivity|].
  cbn in Hnd. apply NoDup_cons in Hnd as [Hs Hnd]. apply Forall_cons in Hlen as [Hl0 Hlen]. unfold CID_eq.
  destruct (memcmp cid (sr_cid s) =? 0) eqn:E; zb.
  - apply memcmp_eq in E; [|congruence]. subst cid. rewrite filter_cons_False by auto. symmetry.
    apply filter_keep. apply Forall_forall. intros x Hx Heq. apply Hs. rewrite <- Heq. apply list_elem_of_fmap. exists x. auto.
  - rewrite filter_cons_True by (intros <-; rewrite memcmp_refl in E; contradiction). rewrite IH by assumption. reflexivity.
Qed.

Lemma src_ok_sublist l' l : sublist l' l -> src_ok l -> src_ok l'.
Proof.
  intros Hs (H1 & H2 & H3). split; [|split].
  - eapply sublist_NoDup; [exact H1|]. clear - Hs. induction Hs; cbn; constructor; assumption.
  - apply sublist_length in Hs. lia.
  - rewrite Forall_forall in H3 |- *. intros s Hin. apply H3. eapply elem_of_sublist; eauto.
Qed.

Lemma others_spec l cid : sublist (others l cid) l /\ (cid ∉ map sr_cid (others l cid)).
Proof.
  unfold others. split; [apply sublist_filter|]. intros (s & -> & Hs)%list_elem_of_fmap.
  apply list_elem_of_filter in Hs as [Hs _]. contradiction.
Qed.

Lemma addSource_spec m tth cid ip port size partial now :
  map_Forall (fun _ => src_ok) (ix_tthList m) -> length cid = CID_SIZE ->
  let m' := addSource m tth cid ip port size partial now in
  let rest := others (default [] (findResult m tth)) cid in
  let new := mkSource cid ip (u64 (now + (if partial then PFS_REPUBLISH_TIME else REPUBLISH_TIME))) size port partial in
  map_Forall (fun _ => src_ok) (ix_tthList m') /\
  (forall t, t <> tth -> findResult m' t = findResult m t) /\
  findResult m' tth = Some ((if (MAX_SEARCH_RESULTS <=? length rest)%nat then drop 1 rest else rest) ++ [new]).
Proof.
  intros Hok Hc m' rest new.
  assert (src_ok (default [] (findResult m tth))) as Hb.
  { unfold findResult. destruct (ix_tthList m !! tth) as [l|] eqn:E; [exact (Hok _ _ E)|].
    split; [apply NoDup_nil_2|split; [cbn; unfold MAX_SEARCH_RESULTS; lia|constructor]]. }
  assert (findResult m' tth = Some ((if (MAX_SEARCH_RESULTS <=? length rest)%nat then drop 1 rest else rest) ++ [new])) as Hr.
  { subst m' rest new. unfold findResult, addSource in *. cbn [ix_tthList set_list]. rewrite lookup_insert_eq. f_equal.
    destruct (ix_tthList m !! tth) as [l|]; [|reflexivity]. change (default [] (Some ?l)) with l in *.
    destruct Hb as (H1 & H2 & H3). rewrite erase_cid_others by assumption. rewrite length_app. cbn [length].
    replace (length (others l cid) + 1)%nat with (S (length (others l cid))) by lia.
    destruct (others l cid) as [|x r] eqn:Eo; [reflexivity|]. change (MAX_SEARCH_RESULTS <? ?n)%nat with (MAX_SEARCH_RESULTS <=? pred n)%nat.
    destruct (MAX_SEARCH_RESULTS <=? _)%nat; reflexivity. }
  split; [|split; [|exact Hr]].
  - intros t l Hl. destruct (decide (t = tth)) as [->|Hne].
    + unfold findResult in Hr. rewrite Hl in Hr. injection Hr as ->.
      destruct (others_spec (default [] (findResult m tth)) cid) as [Hsub Hnin]. fold rest in Hsub, Hnin.
      pose proof (src_ok_sublist _ _ Hsub Hb) as (R1 & R2 & R3).
      set (r := if (MAX_SEARCH_RESULTS <=? length rest)%nat then drop 1 rest else rest).
      assert (sublist r rest) as Hr by (subst r; destruct (_ <=? _)%nat; [apply sublist_drop|reflexivity]).
      destruct (src_ok_sublist _ _ Hr (conj R1 (conj R2 R3))) as (S1 & S2 & S3).
      split; [|split].
      * rewrite map_app. apply NoDup_app. split; [exact S1|]. split; [|apply NoDup_singleton].
        intros c Hin Hc'. apply list_elem_of_singleton in Hc' as ->. apply Hnin.
        apply list_elem_of_fmap in Hin as (s & Es & Hin). apply list_elem_of_fmap. exists s. split; [exact Es|].
        eapply elem_of_sublist; eauto.
      * assert (length r < MAX_SEARCH_RESULTS)%nat as Hlen; [|change (length (r ++ [new]) <= MAX_SEARCH_RESULTS)%nat; rewrite length_app; change (length [new]) with 1%nat; lia].
        subst r. destruct (MAX_SEARCH_RESULTS <=? length rest)%nat eqn:E; [|apply Nat.leb_gt, E].
        apply Nat.leb_le in E. rewrite length_drop. assert (0 < MAX_SEARCH_RESULTS)%nat by (unfold MAX_SEARCH_RESULTS; lia). lia.
      * apply Forall_app. split; [exact S3|]. apply Forall_singleton. exact Hc.
    + subst m'. unfold addSource in Hl. cbn in Hl. rewrite lookup_insert_ne in Hl by auto. exact (Hok _ _ Hl).
  - intros t Hne. subst m'. unfold findResult, addSource. cbn. apply lookup_insert_ne. auto.
Qed.

(** Publishing a source puts it last in the list of its file in place of the user's
    older one and keeps the others in their order, except the oldest when there would be more
    than 300; the lists of other files stay, and no list has a user twice. *)
Theorem addSource_correct m tth cid ip port size partial now :
  map_Forall (fun _ => src_ok) (ix_tthList m) -> length cid = CID_SIZE ->
  let m' := addSource m tth cid ip port size partial now in
  let rest := others (default [] (findResult m tth)) cid in
  let new := mkSource cid ip (u64 (now + (if partial then PFS_REPUBLISH_TIME else REPUBLISH_TIME))) size port partial in
  map_Forall (fun _ => src_ok) (ix_tthList m') /\
  (forall t, t <> tth -> findResult m' t = findResult m t) /\
  findResult m' tth = Some ((if (MAX_SEARCH_RESULTS <=? length rest)%nat then drop 1 rest else rest) ++ [new]).
Proof. apply addSource_spec. Qed.

Definition empty_index : IndexManager := mkIndex ∅ [] false 0 0 false.
Definition sample_index : IndexManager :=
  addSource (addSource empty_index [1] (replicate 24 7) 10 4000 99 false 0) [1] (replicate 24 8) 11 4000 99 true 5.

Lemma addSource_correct_witness :
  map_Forall (fun _ => src_ok) (ix_tthList sample_index) /\
  option_map (map sr_ip) (findResult (addSource sample_index [1] (replicate 24 7) 12 4000 99 false 9) [1]) = Some [11; 12].
Proof.
  assert (map_Forall (fun _ => src_ok) (ix_tthList sample_index)) as H.
  { unfold sample_index. apply addSource_correct; [|reflexivity]. apply addSource_correct; [|reflexivity]. apply map_Forall_empty. }
  split; [exact H|]. destruct (addSource_correct sample_index [1] (replicate 24 7) 12 4000 99 false 9 H eq_refl) as (_ & _ & ->).
  vm_compute. reflexivity.
Defined.

(** ** Expiration *)

Lemma drop_expired_sorted l tick : StronglySorted Z.le (map sr_expires l) ->
  fst (drop_expired l tick) = List.filter (fun s => negb (sr_expires s <=? tick)) l.
Proof.
  induction l as [|s l IH]; intros Hs; [reflexivity|]. cbn in Hs. apply StronglySorted_inv in Hs as [Hs Hle].
  cbn [drop_expired List.filter]. destruct (sr_expires s <=? tick) eqn:E; cbn [negb fst]; [apply IH, Hs|]. zb. f_equal.
  clear - Hle E. rewrite Forall_map in Hle. induction Hle as [|x l Hx _ IH]; [reflexivity|]. cbn [List.filter].
  cbn in Hx. replace (sr_expires x <=? tick) with false by lia. cbn. f_equal. exact IH.
Qed.

(** Only complete files are published, by a clock that does not go back: [t] is the time of the
    last step. *)
Inductive full_steps : IndexManager -> Z -> Prop :=
| fs_empty : full_steps empty_index 0
| fs_add m t tth cid ip port size now : full_steps m t -> t <= now < 2 ^ 63 -> length cid = CID_SIZE ->
    full_steps (addSource m tth cid ip port size false now) now
| fs_expire m t now : full_steps m t -> t <= now < 2 ^ 63 -> full_steps (checkExpiration m now) now.

Definition sorted_to (t : Z) (l : list Source) : Prop :=
  src_ok l /\ StronglySorted Z.le (map sr_expires l) /\ Forall (fun s => sr_expires s <= t + REPUBLISH_TIME) l.

Lemma sorted_to_sublist t l' l : sublist l' l -> sorted_to t l -> sorted_to t l'.
Proof.
  intros Hs (H1 & H2 & H3). split; [eapply src_ok_sublist; eauto|]. split.
  - clear H1 H3. induction Hs as [|x l1 l2 Hs IH|x l1 l2 Hs IH]; cbn in *; [constructor|..]; apply StronglySorted_inv in H2 as [H2 Hx].
    + constructor; [auto|]. rewrite Forall_map in Hx |- *. rewrite Forall_forall in Hx |- *. intros y Hy. apply Hx. eapply elem_of_sublist; eauto.
    + auto.
  - rewrite Forall_forall in H3 |- *. intros s Hin. apply H3. eapply elem_of_sublist; eauto.
Qed.

Lemma sorted_to_later t t' l : t <= t' -> sorted_to t l -> sorted_to t' l.
Proof. intros Ht (H1 & H2 & H3). split; [exact H1|]. split; [exact H2|]. eapply Forall_impl; [exact H3|]. cbn. lia. Qed.

Lemma sorted_snoc l x : StronglySorted Z.le l -> Forall (fun y => y <= x) l -> StronglySorted Z.le (l ++ [x]).
Proof.
  intros Hs Hx. induction Hs as [|y l Hs IH Hy]; cbn; [repeat constructor|]. apply Forall_cons in Hx as [Hyx Hx].
  constructor; [auto|]. apply Forall_app. split; [exact Hy|]. apply Forall_singleton. exact Hyx.
Qed.

Lemma drop_expired_sublist l tick : sublist (fst (drop_expired l tick)) l.
Proof. induction l as [|s l IH]; cbn; [constructor|]. destruct (_ <=? _); cbn; [constructor; exact IH|reflexivity]. Qed.

Lemma full_steps_ok m t : full_steps m t -> 0 <= t /\ map_Forall (fun _ => sorted_to t) (ix_tthList m).
Proof.
  induction 1 as [|m t tth cid ip port size now _ [H0 IH] Hn Hc|m t now _ [H0 IH] Hn].
  - split; [lia|apply map_Forall_empty].
  - split; [lia|]. intros u l Hl.
    assert (map_Forall (fun _ => src_ok) (ix_tthList m)) as Hsrc by (intros v k Hk; apply (IH v k Hk)).
    destruct (addSource_spec m tth cid ip port size false now Hsrc Hc) as (Hok & Hother & Hr).
    destruct (decide (u = tth)) as [->|Hne].
    2: { apply (sorted_to_later t); [lia|]. apply (IH u). rewrite <- Hl. symmetry. exact (Hother u Hne). }
    specialize (Hok _ _ Hl). unfold findResult in Hr at 1. rewrite Hl in Hr. injection Hr as ->.
    set (rest := others _ cid) in *. set (r := if (MAX_SEARCH_RESULTS <=? length rest)%nat then drop 1 rest else rest) in *.
    assert (sorted_to now r) as (_ & Hs & Hb).
    { apply (sorted_to_later t); [lia|]. apply (sorted_to_sublist t _ rest); [subst r; destruct (_ <=? _)%nat; [apply sublist_drop|reflexivity]|].
      unfold findResult in rest. destruct (ix_tthList m !! tth) as [k|] eqn:Ek; [|split; [split; [apply NoDup_nil_2|split; [cbn; lia|constructor]]|split; constructor]].
      apply (sorted_to_sublist t _ k); [apply others_spec|exact (IH _ _ Ek)]. }
    split; [exact Hok|]. split.
    + rewrite map_app. apply sorted_snoc; [exact Hs|]. rewrite Forall_map. cbn [map sr_expires].
      unfold wrap. rewrite Z.mod_small by (unfold REPUBLISH_TIME; lia). exact Hb.
    + apply Forall_app. split; [exact Hb|]. apply Forall_singleton. cbn [sr_expires]. unfold wrap.
      rewrite Z.mod_small by (unfold REPUBLISH_TIME; lia). lia.
  - split; [lia|]. intros u l Hl. cbn in Hl. rewrite lookup_omap in Hl. destruct (ix_tthList m !! u) as [k|] eqn:Ek; [|discriminate].
    cbn in Hl. apply (sorted_to_later t); [lia|]. apply (sorted_to_sublist t _ k); [|exact (IH _ _ Ek)].
    pose proof (drop_expired_sublist k now) as Hd. destruct (fst (drop_expired k now)) eqn:E; [discriminate|]. injection Hl as <-. exact Hd.
Qed.

(** As long as only complete files are published, the pass over the index removes exactly
    the sources whose time is over, and the files left without a source. *)
Theorem index_expiration m t tick tth : full_steps m t -> t <= tick ->
  findResult (checkExpiration m tick) tth =
  match List.filter (fun s => negb (sr_expires s <=? tick)) (default [] (findResult m tth)) with [] => None | l => Some l end.
Proof.
  intros Hm Ht. destruct (full_steps_ok m t Hm) as [_ Hok]. unfold findResult, checkExpiration. cbn [ix_tthList set_list].
  rewrite lookup_omap. destruct (ix_tthList m !! tth) as [l|] eqn:E; [|reflexivity]. cbn.
  rewrite drop_expired_sorted; [reflexivity|]. apply (Hok _ _ E).
Qed.

Lemma index_expiration_witness :
  let m := addSource (addSource empty_index [1] (replicate 24 7) 10 4000 99 false 0) [1] (replicate 24 8) 11 4000 99 false 5 in
  option_map (map sr_ip) (findResult (checkExpiration m REPUBLISH_TIME) [1]) = Some [11].
Proof.
  intros m. rewrite (index_expiration m 5 REPUBLISH_TIME [1]); [vm_compute; reflexivity| |vm_compute; discriminate].
  apply (fs_add _ 0); [|lia|reflexivity]. apply (fs_add _ 0); [apply fs_empty|lia|reflexivity].
Defined.

(** A source of a partial file behind one of the complete file outlives its time: the
    pass stops at the first source that is not expired, and the list is not in the order of the
    times. *)
Theorem index_keeps_expired m tth c1 c2 ip1 ip2 port size1 size2 now tick :
  findResult m tth = None -> length c1 = CID_SIZE -> length c2 = CID_SIZE -> c1 <> c2 -> 0 <= now < 2 ^ 63 ->
  now + PFS_REPUBLISH_TIME <= tick < now + REPUBLISH_TIME ->
  let m' := addSource (addSource m tth c1 ip1 port size1 false now) tth c2 ip2 port size2 true now in
  exists l s, findResult (checkExpiration m' tick) tth = Some l /\ (s ∈ l) /\ sr_partial s = true /\ sr_expires s <= tick.
Proof.
  intros Hn H1 H2 Hne Hnow Htick m'.
  assert (CID_eq c2 c1 = false) as Heq.
  { unfold CID_eq. apply Z.eqb_neq. intros E. apply memcmp_eq in E; congruence. }
  assert (forall x, 0 <= x < 2 ^ 40 -> u64 (now + x) = now + x) as Hu by (intros x Hx; unfold wrap; rewrite Z.mod_small; lia).
  exists [mkSource c1 ip1 (now + REPUBLISH_TIME) size1 port false; mkSource c2 ip2 (now + PFS_REPUBLISH_TIME) size2 port true].
  exists (mkSource c2 ip2 (now + PFS_REPUBLISH_TIME) size2 port true).
  split; [|split; [right; left|split; [reflexivity|cbn; lia]]].
  unfold findResult in *. subst m'. unfold checkExpiration. cbn [ix_tthList set_list]. rewrite lookup_omap. unfold addSource.
  cbn [ix_tthList set_list]. rewrite lookup_insert_eq, lookup_insert_eq, Hn. cbn [erase_cid sr_cid]. rewrite Heq.
  change (MAX_SEARCH_RESULTS <? length _)%nat with false. cbn [app mbind option_bind drop_expired sr_expires].
  rewrite !Hu by (vm_compute; split; congruence). replace (now + REPUBLISH_TIME <=? tick) with false by lia. reflexivity.
Qed.

Lemma index_keeps_expired_witness : exists l s,
  findResult (checkExpiration (addSource (addSource empty_index [1] (replicate 24 7) 10 4000 99 false 0)
    [1] (replicate 24 8) 11 4000 99 true 0) 4000000) [1] = Some l /\ (s ∈ l) /\ sr_partial s = true /\ sr_expires s <= 4000000.
Proof.
  apply (index_keeps_expired empty_index [1] (replicate 24 7) (replicate 24 8) 10 11 4000 99 99 0 4000000); try reflexivity.
  - discriminate.
  - lia.
  - unfold PFS_REPUBLISH_TIME, REPUBLISH_TIME. lia.
Defined.
