(* ===== verification/BufferedSocket.v ===== *)
(** * Reading from a connection: [client/BufferedSocket.h], [client/BufferedSocket.cpp]

    The buffer of a connection and the loop that cuts the bytes received into command lines
    and blocks of data.  The listener is a parameter: its callbacks take its own state and the
    part of the connection they may change (mode, remaining size, stop flag).  [decompress]
    hands the bytes to zlib and is a parameter too.  Positions in a buffer are natural numbers
    (a buffer has at most 1 MiB); [remainingSize] is a [size_t]. *)

From S2P Require Import Prelude CArray.

(** ** The buffer *)

Definition INITIAL_CAPACITY : nat := 8 * 1024.

Lemma INITIAL_CAPACITY_pos : (0 < INITIAL_CAPACITY)%nat.
Proof. unfold INITIAL_CAPACITY. lia. Qed.
#[global] Opaque INITIAL_CAPACITY.

Record Buffer := mkBuffer {
  b_buf : list Z; b_maxCapacity : nat; b_capacity : nat; b_writePtr : nat; b_readPtr : nat }.

Definition Buffer_new : Buffer := mkBuffer [] (Pos.to_nat 1048576) 0 0 0.

(** The bytes between the two positions. *)
Definition unread (b : Buffer) : list Z := take (b_writePtr b - b_readPtr b) (drop (b_readPtr b) (b_buf b)).
Definition fill (b : Buffer) : nat := b_writePtr b - b_readPtr b.

Definition set_ptrs (b : Buffer) w r := mkBuffer (b_buf b) (b_maxCapacity b) (b_capacity b) w r.

(** [memcpy(buf + writePtr, data, size); writePtr += size]. *)
Definition put (b : Buffer) (data : list Z) : Buffer :=
  mkBuffer (buf_write (b_buf b) (b_writePtr b) data) (b_maxCapacity b) (b_capacity b) (b_writePtr b + length data) (b_readPtr b).

(** A new array with [n] unread bytes at its start; the rest of it is not initialised. *)
Definition move_to (b : Buffer) (newCapacity n : nat) : Buffer :=
  mkBuffer (take n (unread b) ++ replicate (newCapacity - n) 0) (b_maxCapacity b) newCapacity n 0.

Definition double_capacity (b : Buffer) : nat :=
  let d := Nat.min (b_capacity b * 2) (b_maxCapacity b) in
  if (d <? INITIAL_CAPACITY)%nat then INITIAL_CAPACITY else d.

(** [grow(newCapacity)]; [None] is the exception. *)
Definition grow_to (b : Buffer) (newCapacity : nat) : option Buffer :=
  if (b_maxCapacity b <? newCapacity)%nat then None
  else
    let newCapacity := if (newCapacity <? double_capacity b)%nat then double_capacity b else newCapacity in
    Some (move_to b newCapacity (Nat.min (fill b) newCapacity)).

Definition grow (b : Buffer) : Buffer :=
  if (b_capacity b =? b_maxCapacity b)%nat then b else move_to b (double_capacity b) (fill b).

Definition shift (b : Buffer) : Buffer :=
  mkBuffer (buf_write (b_buf b) 0 (unread b)) (b_maxCapacity b) (b_capacity b) (fill b) 0.

Definition maybeShift (b : Buffer) : Buffer :=
  if (b_readPtr b =? b_writePtr b)%nat then set_ptrs b 0 0
  else if negb (b_readPtr b =? 0)%nat && (b_capacity b / 2 <? b_readPtr b)%nat then shift b
  else b.

Definition clear (b : Buffer) : Buffer := set_ptrs b 0 0.

Definition append (b : Buffer) (data : list Z) : option Buffer :=
  if (b_writePtr b + length data <=? b_capacity b)%nat then Some (put b data)
  else if (fill b + length data <=? b_capacity b)%nat then Some (put (shift b) data)
  else b ← grow_to b (fill b + length data); Some (put b data).

Definition remove (b : Buffer) (size : nat) : Buffer :=
  let r := (b_readPtr b + size)%nat in
  let r := if (b_writePtr b <? r)%nat then b_writePtr b else r in
  let b := set_ptrs b (b_writePtr b) r in
  if (b_capacity b / 2 <=? r)%nat then shift b else b.

(** ** Lines and data *)

Inductive Mode := MODE_LINE | MODE_ZPIPE | MODE_DATA.
#[export] Instance Mode_dec : EqDecision Mode. Proof. solve_decision. Defined.

(** The part of the connection that callbacks change. *)
Record Ctl := mkCtl { c_mode : Mode; c_remaining : Z; c_stop : bool }.
#[export] Instance Ctl_dec : EqDecision Ctl. Proof. solve_decision. Defined.
Definition set_mode (c : Ctl) m := mkCtl m (c_remaining c) (c_stop c).
Definition set_remaining (c : Ctl) r := mkCtl (c_mode c) r (c_stop c).

(** [(size_t) -1]. *)
Definition NO_LIMIT := 2 ^ 64 - 1.

Section Listener.
Context {A : Type}.
Context (onDataLine : A -> Ctl -> list Z -> A * Ctl) (onData : A -> Ctl -> list Z -> A * Ctl)
  (onModeChange : A -> Ctl -> A * Ctl) (decompress : A -> Ctl -> list Z -> option (A * Ctl * list Z)).
Context (maxLineSize : nat).

(** The listener, the connection and the bytes not read; [None] is an exception. *)
Definition Work : Type := (A * Ctl * list Z)%type.

(** The loop of [parseData] over the unread bytes; each pass uses up a byte. *)
Fixpoint parse_lines (fuel : nat) (sep : Z) (prevMode : Mode) (w : Work) : option Work :=
  let '(a, c, l) := w in
  match fuel, l with
  | O, _ | _, [] => Some w
  | S fuel, _ =>
      match memchr sep l with
      | Some len =>
          if (maxLineSize <? len)%nat then None
          else
            let '(a, c) := onDataLine a c (take len l) in
            let l := drop (len + 1) l in
            if c_stop c || negb (bool_decide (c_mode c = prevMode)) then Some (a, c, l)
            else parse_lines fuel sep prevMode (a, c, l)
      | None => if (maxLineSize <? length l)%nat then None else Some w
      end
  end.

Definition parseData (sep : Z) (w : Work) : option Work :=
  parse_lines (length (snd w)) sep (c_mode (snd (fst w))) w.

(** The loop of [consumeData]; each pass uses up a byte or ends it. *)
Fixpoint consume (fuel : nat) (w : Work) : Work :=
  let '(a, c, l) := w in
  match fuel, l with
  | O, _ | _, [] => w
  | S fuel, _ =>
      if c_remaining c =? 0 then
        let '(a, c) := onModeChange a (set_mode c MODE_LINE) in (a, c, l)
      else
        let size := if negb (c_remaining c =? NO_LIMIT) && (c_remaining c <? Z.of_nat (length l))
                    then Z.to_nat (c_remaining c) else length l in
        let '(a, c) := onData a c (take size l) in
        let '(a, c) :=
          if negb (c_remaining c =? NO_LIMIT) then
            let c := set_remaining c (u64 (c_remaining c - Z.of_nat size)) in
            if c_remaining c =? 0 then onModeChange a (set_mode c MODE_LINE) else (a, c)
          else (a, c) in
        let l := drop size l in
        if bool_decide (c_mode c = MODE_DATA) then consume fuel (a, c, l) else (a, c, l)
  end.

Definition consumeData (w : Work) : Work := consume (length (snd w)) w.

(** The inner loop of [readData]. *)
Fixpoint process (fuel : nat) (sep : Z) (w : Work) : option Work :=
  let '(a, c, l) := w in
  match fuel, l with
  | O, _ | _, [] => Some w
  | S fuel, _ =>
      w' ← (match c_mode c with
            | MODE_LINE => parseData sep w
            | MODE_ZPIPE => decompress a c l
            | MODE_DATA => Some (consumeData w)
            end);
      if bool_decide (c_mode (snd (fst w')) = c_mode c) then Some w' else process fuel sep w'
  end.

(** The connection, outside the connection to a proxy. *)
Record Conn := mkConn { cn_a : A; cn_ctl : Ctl; cn_rb : Buffer; cn_sep : Z }.

(** The buffer that the bytes are read into, and how many are asked for. *)
Definition read_buffer (s : Conn) : Buffer :=
  if (b_writePtr (cn_rb s) =? b_capacity (cn_rb s))%nat then grow (cn_rb s) else cn_rb s.
Definition read_size (s : Conn) : nat :=
  let b := read_buffer s in
  let n := (b_capacity b - b_writePtr b)%nat in
  let c := cn_ctl s in
  if bool_decide (c_mode c = MODE_DATA) && negb (c_remaining c =? NO_LIMIT) && (c_remaining c <? Z.of_nat n)
  then Z.to_nat (c_remaining c) else n.

(** Each change of mode uses up a byte or follows one that does. *)
Definition process_fuel (l : list Z) : nat := 2 * length l + 2.

(** One pass of the loop of [readData] in which the socket gives [data]: [None] is an exception,
    a read of no bytes the closed connection. *)
Definition readData (s : Conn) (data : list Z) : option Conn :=
  match data with
  | [] => None
  | x :: _ =>
      let b := put (read_buffer s) data in
      let sep := if cn_sep s =? 0 then (if x =? 36 then 124 else 10) else cn_sep s in
      let resizeFlag := (b_writePtr b =? b_capacity b)%nat in
      '(a, c, l) ← process (process_fuel (unread b)) sep (cn_a s, cn_ctl s, unread b);
      let b := set_ptrs b (b_writePtr b) (b_writePtr b - length l) in
      let b := if resizeFlag then grow b else b in
      Some (mkConn a c (maybeShift b) sep)
  end.
End Listener.

(** ** The buffer is a queue of bytes *)

Record buf_ok (b : Buffer) : Prop := {
  bo_len : length (b_buf b) = b_capacity b;
  bo_read : (b_readPtr b <= b_writePtr b)%nat;
  bo_write : (b_writePtr b <= b_capacity b)%nat;
  bo_cap : (b_capacity b <= b_maxCapacity b)%nat;
  bo_max : (INITIAL_CAPACITY <= b_maxCapacity b)%nat }.

Lemma length_unread b : buf_ok b -> length (unread b) = fill b.
Proof. intros [H1 H2 H3 _ _]. unfold unread, fill. rewrite length_take, length_drop. lia. Qed.

Lemma put_ok b data : buf_ok b -> (b_writePtr b + length data <= b_capacity b)%nat ->
  buf_ok (put b data) /\ unread (put b data) = unread b ++ data.
Proof.
  intros [H1 H2 H3 H4 H5] H. split.
  - split; cbn; try lia. rewrite length_buf_write; lia.
  - unfold unread, put, buf_write. cbn.
    rewrite drop_app_le by (rewrite length_take; lia).
    replace (b_writePtr b + length data - b_readPtr b)%nat with (fill b + length data)%nat by (unfold fill; lia).
    rewrite (app_assoc _ data). rewrite take_app_le by (rewrite length_app, length_drop, length_take; unfold fill; lia).
    rewrite take_ge by (rewrite length_app, length_drop, length_take; unfold fill; lia).
    f_equal. rewrite skipn_firstn_comm. reflexivity.
Qed.

Lemma move_to_ok b n : buf_ok b -> (fill b <= n)%nat -> (n <= b_maxCapacity b)%nat ->
  buf_ok (move_to b n (fill b)) /\ unread (move_to b n (fill b)) = unread b.
Proof.
  intros Hb Hn Hm. pose proof (length_unread b Hb) as Hl. destruct Hb as [H1 H2 H3 H4 H5]. split.
  - split; cbn; try lia. rewrite length_app, length_replicate, length_take. lia.
  - unfold unread at 1, move_to. cbn. rewrite Nat.sub_0_r, drop_0. rewrite (take_ge (unread b)) by lia.
    rewrite take_app_le by lia. apply take_ge. lia.
Qed.

Lemma shift_ok b : buf_ok b -> buf_ok (shift b) /\ unread (shift b) = unread b.
Proof.
  intros Hb. pose proof (length_unread b Hb) as Hl. destruct Hb as [H1 H2 H3 H4 H5].
  assert (fill b <= b_capacity b)%nat by (unfold fill; lia). split.
  - split; cbn; try lia. rewrite length_buf_write; lia.
  - unfold unread at 1, shift. cbn. rewrite Nat.sub_0_r, drop_0. unfold buf_write. cbn.
    rewrite take_0. cbn [app]. rewrite take_app_le by lia. apply take_ge. lia.
Qed.

Lemma grow_ok b : buf_ok b -> buf_ok (grow b) /\ unread (grow b) = unread b.
Proof.
  intros Hb. unfold grow. destruct (b_capacity b =? b_maxCapacity b)%nat eqn:E; [auto|].
  apply move_to_ok; [exact Hb|..]; destruct Hb as [H1 H2 H3 H4 H5]; unfold double_capacity, fill in *;
    destruct (_ <? INITIAL_CAPACITY)%nat eqn:E1; rewrite ?Nat.ltb_lt, ?Nat.ltb_ge in E1; lia.
Qed.

Lemma maybeShift_ok b : buf_ok b -> buf_ok (maybeShift b) /\ unread (maybeShift b) = unread b.
Proof.
  intros Hb. unfold maybeShift. destruct (b_readPtr b =? b_writePtr b)%nat eqn:E.
  - apply Nat.eqb_eq in E. destruct Hb as [H1 H2 H3 H4 H5]. split; [split; cbn; lia|].
    unfold unread. cbn. rewrite E, Nat.sub_diag. reflexivity.
  - destruct (_ && _); [apply shift_ok, Hb|auto].
Qed.

Lemma double_capacity_ok b : buf_ok b -> (b_capacity b <= double_capacity b)%nat /\ (double_capacity b <= b_maxCapacity b)%nat.
Proof.
  intros [H1 H2 H3 H4 H5]. unfold double_capacity.
  destruct (_ <? INITIAL_CAPACITY)%nat eqn:E1; rewrite ?Nat.ltb_lt, ?Nat.ltb_ge in E1; lia.
Qed.

Lemma append_ok b data : buf_ok b ->
  match append b data with
  | Some b' => buf_ok b' /\ unread b' = unread b ++ data
  | None => (b_maxCapacity b < length (unread b) + length data)%nat
  end.
Proof.
  intros Hb. rewrite (length_unread b Hb). unfold append.
  destruct (b_writePtr b + length data <=? b_capacity b)%nat eqn:E1; [apply put_ok, Nat.leb_le, E1; exact Hb|].
  destruct (fill b + length data <=? b_capacity b)%nat eqn:E2.
  - destruct (shift_ok b Hb) as [Hs Hu]. apply Nat.leb_le in E2. rewrite <- Hu. apply put_ok; [exact Hs|exact E2].
  - unfold grow_to. destruct (b_maxCapacity b <? _)%nat eqn:E3; cbn [mbind option_bind]; [apply Nat.ltb_lt, E3|].
    apply Nat.ltb_ge in E3. apply Nat.leb_gt in E2. destruct (double_capacity_ok b Hb) as [D1 D2].
    set (n := if (fill b + length data <? double_capacity b)%nat then double_capacity b else (fill b + length data)%nat).
    assert (fill b + length data <= n /\ n <= b_maxCapacity b)%nat as [N1 N2]
      by (subst n; destruct (_ <? double_capacity b)%nat eqn:E4; rewrite ?Nat.ltb_lt, ?Nat.ltb_ge in E4; lia).
    rewrite Nat.min_l by lia. destruct (move_to_ok b n Hb ltac:(lia) N2) as [Hm Hu]. rewrite <- Hu.
    apply put_ok; [exact Hm|exact N1].
Qed.

Lemma remove_ok b n : buf_ok b -> buf_ok (remove b n) /\ unread (remove b n) = drop n (unread b).
Proof.
  intros Hb. unfold remove. set (r := if (b_writePtr b <? b_readPtr b + n)%nat then b_writePtr b else (b_readPtr b + n)%nat).
  assert (b_readPtr b <= r <= b_writePtr b /\ r = Nat.min (b_readPtr b + n) (b_writePtr b))%nat as [Hr Er].
  { destruct Hb. subst r. destruct (_ <? _)%nat eqn:E; rewrite ?Nat.ltb_lt, ?Nat.ltb_ge in E; lia. }
  assert (buf_ok (set_ptrs b (b_writePtr b) r) /\ unread (set_ptrs b (b_writePtr b) r) = drop n (unread b)) as [H1 H2].
  { pose proof (length_unread b Hb) as Hl. destruct Hb as [B1 B2 B3 B4 B5]. split; [split; cbn; lia|]. unfold unread. cbn.
    rewrite skipn_firstn_comm, drop_drop. destruct (Nat.le_gt_cases (b_readPtr b + n) (b_writePtr b)).
    - replace r with (b_readPtr b + n)%nat by lia. f_equal. lia.
    - replace r with (b_writePtr b) by lia. rewrite Nat.sub_diag. replace (_ - _ - n)%nat with 0%nat by lia. rewrite !take_0. reflexivity. }
  destruct (_ <=? r)%nat; [|auto]. destruct (shift_ok _ H1) as [S1 S2]. split; [exact S1|]. rewrite S2. exact H2.
Qed.

(** C32.  The buffer of a connection is a queue of bytes: [append] adds at its end or fails when
    the bytes exceed the largest capacity, [remove] takes from its front, and moving or growing
    the array leaves its contents. *)
Theorem Buffer_queue b data n : buf_ok b ->
  (match append b data with
   | Some b' => buf_ok b' /\ unread b' = unread b ++ data
   | None => (b_maxCapacity b < length (unread b) + length data)%nat
   end) /\
  (buf_ok (remove b n) /\ unread (remove b n) = drop n (unread b)) /\
  (buf_ok (grow b) /\ unread (grow b) = unread b) /\
  (buf_ok (maybeShift b) /\ unread (maybeShift b) = unread b) /\
  (buf_ok (clear b) /\ unread (clear b) = []).
Proof.
  intros Hb. split; [apply append_ok, Hb|]. split; [apply remove_ok, Hb|]. split; [apply grow_ok, Hb|].
  split; [apply maybeShift_ok, Hb|]. destruct Hb. split; [split; cbn; lia|reflexivity].
Qed.

Lemma Buffer_queue_witness :
  let b := mkBuffer (replicate 10 7) INITIAL_CAPACITY 10 5 2 in unread (remove b 2) = [7].
Proof.
  intros b. destruct (Buffer_queue b [] 2) as (_ & [_ ->] & _); [|reflexivity].
  split; cbn; try lia; try reflexivity. change INITIAL_CAPACITY with (Pos.to_nat 8192). lia.
Defined.

(** ** Byte by byte *)

Section Bytes.
Context {A : Type}.
Context (onDataLine : A -> Ctl -> list Z -> A * Ctl) (onData : A -> Ctl -> list Z -> A * Ctl)
  (onModeChange : A -> Ctl -> A * Ctl) (decompress : A -> Ctl -> list Z -> option (A * Ctl * list Z)).
Context (maxLineSize : nat).

(** A connection that reads one byte at a time: the listener, the modes and the line so far.  It is
    [Failed] after a line that is too long.  [Quit] is the end of what the reading of bytes alone
    decides: a callback has stopped the connection, turned on the compression, or changed the mode where
    only a line may. *)
Inductive BState := Running (a : A) (c : Ctl) (line : list Z) | Failed | Quit.

Definition good (c : Ctl) : Prop := c_stop c = false /\ c_mode c <> MODE_ZPIPE /\ 0 <= c_remaining c < 2 ^ 64.
#[local] Instance good_dec c : Decision (good c).
Proof using. unfold good. apply _. Defined.

(** The block of data ends: the listener is told, and leaves the connection as it is. *)
Definition end_data (a : A) (c : Ctl) : A * Ctl := onModeChange a (set_mode c MODE_LINE).
Definition at_end (a : A) (c : Ctl) (k : A -> Ctl -> BState) : BState :=
  let '(a1, c1) := end_data a c in if bool_decide (c1 = set_mode c MODE_LINE) then k a1 c1 else Quit.

(** A byte of a line; a line may start a block of data. *)
Definition line_byte (sep : Z) (a : A) (c : Ctl) (line : list Z) (x : Z) : BState :=
  if x =? sep then
    let '(a1, c1) := onDataLine a c line in if bool_decide (good c1) then Running a1 c1 [] else Quit
  else if (maxLineSize <? S (length line))%nat then Failed
  else Running a c (line ++ [x]).

(** A byte of a block of data. *)
Definition data_byte (a : A) (c : Ctl) (x : Z) : BState :=
  let '(a1, c1) := onData a c [x] in
  if negb (bool_decide (c1 = c)) then Quit
  else if c_remaining c =? NO_LIMIT then Running a1 c []
  else if c_remaining c =? 1 then at_end a1 (set_remaining c 0) (fun a c => Running a c [])
  else Running a1 (set_remaining c (c_remaining c - 1)) [].

Definition byte_step (sep : Z) (st : BState) (x : Z) : BState :=
  match st with
  | Failed => Failed
  | Quit => Quit
  | Running a c line =>
      if bool_decide (c_mode c = MODE_DATA) then
        if c_remaining c =? 0 then at_end a c (fun a c => line_byte sep a c line x) else data_byte a c x
      else line_byte sep a c line x
  end.
Definition bytes (sep : Z) (st : BState) (l : list Z) : BState := foldl (byte_step sep) st l.

(** The listener takes data in pieces of any size, as long as it leaves the connection alone, and does
    not look at how many bytes are left. *)
Hypothesis onData_app : forall a c x y, snd (onData a c x) = c -> snd (onData (fst (onData a c x)) c y) = c ->
  onData a c (x ++ y) = onData (fst (onData a c x)) c y.
Hypothesis onData_remaining : forall a c r d, snd (onData a c d) = c ->
  onData a (set_remaining c r) d = (fst (onData a c d), set_remaining c r).

Lemma bytes_Failed sep l : bytes sep Failed l = Failed.
Proof using. unfold bytes. induction l; auto. Qed.

Lemma bytes_Quit sep l : bytes sep Quit l = Quit.
Proof using. unfold bytes. induction l; auto. Qed.

Lemma bytes_app sep st x y : bytes sep st (x ++ y) = bytes sep (bytes sep st x) y.
Proof using. apply foldl_app. Qed.

Lemma bytes_cons sep st x l : bytes sep st (x :: l) = bytes sep (byte_step sep st x) l.
Proof using. reflexivity. Qed.

(** A reading that goes on has not quit before. *)
Lemma bytes_on sep st l : bytes sep st l <> Quit -> st <> Quit.
Proof using. intros H ->. apply H, bytes_Quit. Qed.

Lemma step_line sep a c line x : c_mode c = MODE_LINE -> byte_step sep (Running a c line) x = line_byte sep a c line x.
Proof using. intros Hm. unfold byte_step. rewrite Hm, bool_decide_false by discriminate. reflexivity. Qed.

Lemma line_run sep a c line l : c_mode c = MODE_LINE -> memchr sep l = None -> (length line <= maxLineSize)%nat ->
  bytes sep (Running a c line) l = if (maxLineSize <? length line + length l)%nat then Failed else Running a c (line ++ l).
Proof using.
  intros Hm. revert line. induction l as [|x l IH]; intros line Hs Hl.
  - cbn [bytes foldl length]. rewrite app_nil_r, Nat.add_0_r, (proj2 (Nat.ltb_ge _ _) Hl). reflexivity.
  - apply memchr_None_cons in Hs as [Hx Hs]. rewrite bytes_cons, step_line by exact Hm. unfold line_byte. rewrite Hx.
    destruct (maxLineSize <? S (length line))%nat eqn:E.
    + rewrite bytes_Failed. apply Nat.ltb_lt in E. cbn [length]. rewrite (proj2 (Nat.ltb_lt _ _)) by lia. reflexivity.
    + apply Nat.ltb_ge in E. rewrite IH by (auto; rewrite length_app; cbn; lia). rewrite length_app. cbn [length].
      rewrite <- app_assoc. replace (length line + 1 + length l)%nat with (length line + S (length l))%nat by lia. reflexivity.
Qed.

(** The state after the bytes [l] of a block of data. *)
Definition after_data (a : A) (c : Ctl) (l : list Z) : BState :=
  let a1 := fst (onData a c l) in
  if c_remaining c =? NO_LIMIT then Running a1 c []
  else
    let c1 := set_remaining c (c_remaining c - Z.of_nat (length l)) in
    if c_remaining c1 =? 0 then at_end a1 c1 (fun a c => Running a c []) else Running a1 c1 [].

Lemma set_remaining_back c r : set_remaining (set_remaining c r) (c_remaining c) = c.
Proof using. destruct c; reflexivity. Qed.

Lemma data_run sep a c line l : c_mode c = MODE_DATA -> 0 < c_remaining c < 2 ^ 64 -> l <> [] ->
  (c_remaining c = NO_LIMIT \/ Z.of_nat (length l) <= c_remaining c) -> bytes sep (Running a c line) l <> Quit ->
  snd (onData a c l) = c /\ bytes sep (Running a c line) l = after_data a c l.
Proof using onData_app onData_remaining.
  revert a c line. induction l as [|x l IH]; intros a c line Hm Hr Hne Hle; [contradiction|]. clear Hne.
  rewrite bytes_cons. unfold byte_step at 1 2. rewrite Hm, bool_decide_true by reflexivity.
  rewrite (proj2 (Z.eqb_neq (c_remaining c) 0)) by lia. unfold data_byte.
  destruct (onData a c [x]) as [a1 c1] eqn:Ex. case_bool_decide as Ec; cbn [negb]; [subst c1|intros H; destruct H; apply bytes_Quit].
  destruct l as [|y l].
  { unfold after_data. rewrite Ex. cbn [fst snd length bytes foldl c_remaining set_remaining]. intros _. split; [reflexivity|].
    destruct (c_remaining c =? NO_LIMIT); [reflexivity|]. change (Z.of_nat 1) with 1. destruct (Z.eqb_spec (c_remaining c) 1) as [E|E].
    - rewrite E. reflexivity.
    - rewrite (proj2 (Z.eqb_neq (c_remaining c - 1) 0)) by lia. reflexivity. }
  assert (Happ : snd (onData a1 c (y :: l)) = c -> onData a c (x :: y :: l) = onData a1 c (y :: l)).
  { intros H. pose proof (onData_app a c [x] (y :: l)) as Ha. rewrite Ex in Ha. exact (Ha eq_refl H). }
  destruct (c_remaining c =? NO_LIMIT) eqn:E.
  - intros HQ. destruct (IH a1 c [] Hm Hr ltac:(discriminate)) as [I1 I2]; [left; apply Z.eqb_eq, E|exact HQ|].
    rewrite (Happ I1). split; [exact I1|]. rewrite I2. unfold after_data. rewrite E, (Happ I1). reflexivity.
  - zb. destruct Hle as [Hle|Hle]; [contradiction|]. cbn [length] in Hle. rewrite (proj2 (Z.eqb_neq (c_remaining c) 1)) by lia.
    set (c' := set_remaining c (c_remaining c - 1)). intros HQ.
    destruct (IH a1 c' [] Hm) as [I1 I2]; [cbn; lia|discriminate|right; cbn; lia|exact HQ|].
    pose proof (onData_remaining a1 c' (c_remaining c) (y :: l) I1) as Hback. unfold c' in Hback at 1 3. rewrite set_remaining_back in Hback.
    assert (onData a c (x :: y :: l) = onData a1 c (y :: l)) as Ha by (apply Happ; rewrite Hback; reflexivity).
    split; [rewrite Ha, Hback; reflexivity|]. rewrite I2. unfold after_data. rewrite Ha, Hback. cbn [fst].
    rewrite (proj2 (Z.eqb_neq (c_remaining c) NO_LIMIT)) by assumption. unfold c'. cbn [c_remaining set_remaining].
    rewrite (proj2 (Z.eqb_neq (c_remaining c - 1) NO_LIMIT)) by (unfold NO_LIMIT; lia). unfold set_remaining. cbn [c_mode c_stop].
    replace (c_remaining c - 1 - Z.of_nat (length (y :: l))) with (c_remaining c - Z.of_nat (length (x :: y :: l))) by (cbn [length]; lia). reflexivity.
Qed.

Lemma at_end_on a c k : at_end a c k <> Quit -> exists a1, end_data a c = (a1, set_mode c MODE_LINE) /\ at_end a c k = k a1 (set_mode c MODE_LINE).
Proof using.
  unfold at_end. destruct (end_data a c) as [a1 c1]. case_bool_decide as E; [subst c1|intros H; destruct H; reflexivity]. intros _. eauto.
Qed.

(** How much one pass of [consumeData] takes. *)
Definition piece (c : Ctl) (l : list Z) : nat :=
  if negb (c_remaining c =? NO_LIMIT) && (c_remaining c <? Z.of_nat (length l)) then Z.to_nat (c_remaining c) else length l.

Lemma piece_spec c l : 0 < c_remaining c -> l <> [] ->
  (0 < piece c l <= length l)%nat /\ (c_remaining c = NO_LIMIT \/ Z.of_nat (piece c l) <= c_remaining c).
Proof using.
  intros Hr Hl. assert (0 < length l)%nat by (destruct l; [contradiction|cbn; lia]). unfold piece.
  destruct (c_remaining c =? NO_LIMIT) eqn:E1, (c_remaining c <? Z.of_nat (length l)) eqn:E2; cbn; zb; lia.
Qed.

(** One pass of [consumeData] over bytes of the block. *)
Lemma consume_eq sep fuel a c l : good c -> c_mode c = MODE_DATA -> c_remaining c <> 0 -> l <> [] -> bytes sep (Running a c []) l <> Quit ->
  exists a1 c1, bytes sep (Running a c []) (take (piece c l) l) = Running a1 c1 [] /\ good c1 /\
    consume onData onModeChange (S fuel) (a, c, l) =
    if bool_decide (c_mode c1 = MODE_DATA) then consume onData onModeChange fuel (a1, c1, drop (piece c l) l)
    else (a1, c1, drop (piece c l) l).
Proof using onData_app onData_remaining.
  intros Hg Hm H0 Hl HQ. pose proof Hg as (Hs & Hz & Hr). destruct (piece_spec c l) as [P1 P2]; [lia|exact Hl|].
  assert (length (take (piece c l) l) = piece c l) as Ht by (rewrite length_take; lia).
  assert (HQ1 : bytes sep (Running a c []) (take (piece c l) l) <> Quit).
  { rewrite <- (take_drop (piece c l) l) in HQ at 1. rewrite bytes_app in HQ. exact (bytes_on _ _ _ HQ). }
  destruct (data_run sep a c [] (take (piece c l) l)) as [D1 D2]; [exact Hm|lia| |rewrite Ht; exact P2|exact HQ1|].
  { intros H. rewrite H in Ht. cbn in Ht. lia. }
  rewrite D2 in *. destruct l as [|x l0]; [contradiction|]. cbn [consume]. set (l := x :: l0) in *. cbv zeta.
  rewrite (proj2 (Z.eqb_neq (c_remaining c) 0)) by exact H0. fold (piece c l).
  destruct (onData a c (take (piece c l) l)) as [a1 c1] eqn:Eo. cbn [snd] in D1. subst c1. revert HQ1. unfold after_data. rewrite Eo, Ht. cbn [fst].
  destruct (c_remaining c =? NO_LIMIT) eqn:E; cbn [negb]; [intros _; exists a1, c; auto|]. zb. destruct P2 as [P2|P2]; [contradiction|].
  replace (u64 (c_remaining c - Z.of_nat (piece c l))) with (c_remaining c - Z.of_nat (piece c l)) by (unfold wrap; rewrite Z.mod_small; lia).
  set (c1 := set_remaining c _). destruct (c_remaining c1 =? 0) eqn:E1.
  - intros HQ1. destruct (at_end_on _ _ _ HQ1) as (a2 & Ee & ->). exists a2, (set_mode c1 MODE_LINE). split; [reflexivity|].
    split; [split; [exact Hs|split; [discriminate|cbn; lia]]|]. unfold end_data in Ee. rewrite Ee. reflexivity.
  - intros _. exists a1, c1. split; [reflexivity|]. split; [split; [exact Hs|split; [exact Hz|cbn; lia]]|reflexivity].
Qed.

(** [consumeData] of a block that has bytes left, or none. *)
Lemma consume_spec sep fuel a c l : good c -> c_mode c = MODE_DATA -> (length l <= fuel)%nat -> bytes sep (Running a c []) l <> Quit ->
  let '(a', c', l') := consume onData onModeChange fuel (a, c, l) in
  bytes sep (Running a c []) l = bytes sep (Running a' c' []) l' /\ good c' /\ (length l' <= length l)%nat /\
  (c_mode c' = MODE_DATA -> l' = []).
Proof using onData_app onData_remaining.
  revert a c l. induction fuel as [|fuel IH]; intros a c l Hg Hm Hf HQ.
  - destruct l; [|cbn in Hf; lia]. cbn. auto.
  - destruct (decide (l = [])) as [->|Hne]; [cbn; auto|]. pose proof Hg as (Hs & Hz & Hr). destruct (Z.eq_dec (c_remaining c) 0) as [E0|E0].
    + destruct l as [|x l]; [contradiction|]. cbn [consume]. rewrite E0. cbn [Z.eqb]. rewrite bytes_cons in HQ. pose proof (bytes_on _ _ _ HQ) as H1. cbn [byte_step] in H1.
      rewrite Hm, bool_decide_true, E0 in H1 by reflexivity. cbn [Z.eqb] in H1. destruct (at_end_on _ _ _ H1) as (a1 & Ee & Hk).
      change (onModeChange a (set_mode c MODE_LINE)) with (end_data a c). rewrite Ee.
      split; [|split; [split; [exact Hs|split; [discriminate|cbn; lia]]|split; [lia|discriminate]]].
      rewrite !bytes_cons. f_equal. cbn [byte_step]. rewrite Hm, bool_decide_true, E0 by reflexivity. cbn [Z.eqb]. rewrite Hk.
      cbn [set_mode c_mode]. rewrite bool_decide_false by discriminate. reflexivity.
    + destruct (consume_eq sep fuel a c l Hg Hm E0 Hne HQ) as (a1 & c1 & Eb & Hg1 & ->). destruct (piece_spec c l) as [P1 _]; [lia|exact Hne|].
      assert (bytes sep (Running a c []) l = bytes sep (Running a1 c1 []) (drop (piece c l) l)) as Hb.
      { rewrite <- (take_drop (piece c l) l) at 1. rewrite bytes_app, Eb. reflexivity. }
      rewrite Hb in *. pose proof (length_drop l (piece c l)) as Hd. case_bool_decide as Ed.
      * specialize (IH a1 c1 (drop (piece c l) l) Hg1 Ed ltac:(lia) HQ).
        destruct (consume onData onModeChange fuel _) as [[a' c'] l']. destruct IH as (I1 & I2 & I3 & I4). repeat split; auto; try apply I2. lia.
      * split; [reflexivity|]. split; [exact Hg1|]. split; [lia|]. intros H. contradiction.
Qed.

(** One line. *)
Lemma line_step sep a c x r : c_mode c = MODE_LINE -> memchr sep x = None ->
  bytes sep (Running a c []) (x ++ sep :: r) =
  if (maxLineSize <? length x)%nat then Failed
  else let '(a1, c1) := onDataLine a c x in if bool_decide (good c1) then bytes sep (Running a1 c1 []) r else Quit.
Proof using.
  intros Hm Hx. rewrite bytes_app, line_run by (auto; cbn; lia). cbn [length Nat.add app].
  destruct (maxLineSize <? length x)%nat eqn:E; [apply bytes_Failed|]. rewrite bytes_cons, step_line by exact Hm. unfold line_byte.
  rewrite Z.eqb_refl. destruct (onDataLine a c x). case_bool_decide; [reflexivity|apply bytes_Quit].
Qed.

(** What is left when no whole line is left. *)
Definition rest_ok (sep : Z) (l : list Z) : Prop := memchr sep l = None /\ (length l <= maxLineSize)%nat.

Lemma parse_lines_spec sep fuel a c l : good c -> c_mode c = MODE_LINE -> (length l <= fuel)%nat -> bytes sep (Running a c []) l <> Quit ->
  match parse_lines onDataLine maxLineSize fuel sep MODE_LINE (a, c, l) with
  | None => bytes sep (Running a c []) l = Failed
  | Some (a', c', l') =>
      bytes sep (Running a c []) l = bytes sep (Running a' c' []) l' /\ good c' /\
      (c_mode c' = MODE_LINE -> rest_ok sep l') /\ (c_mode c' <> MODE_LINE -> (length l' < length l)%nat)
  end.
Proof using.
  revert a c l. induction fuel as [|fuel IH]; intros a c l Hg Hm Hf HQ.
  - destruct l; [|cbn in Hf; lia]. cbn. split; [reflexivity|]. split; [exact Hg|]. split; [split; [reflexivity|cbn; lia]|congruence].
  - destruct (decide (l = [])) as [->|Hne].
    { cbn. split; [reflexivity|]. split; [exact Hg|]. split; [split; [reflexivity|cbn; lia]|congruence]. }
    assert (forall (P Q : option (A * Ctl * list Z)), (match l with [] => P | _ => Q end) = Q) as Hl by (destruct l; [contradiction|reflexivity]).
    cbn [parse_lines]. rewrite Hl. destruct (memchr sep l) as [n|] eqn:Ec.
    + destruct (memchr_Some sep l n Ec) as (x & r & -> & <- & Hx). rewrite line_step in * by assumption.
      destruct (maxLineSize <? length x)%nat; [reflexivity|]. rewrite take_app_length.
      replace (drop (length x + 1) (x ++ sep :: r)) with r
        by (rewrite drop_app_ge by lia; replace (length x + 1 - length x)%nat with 1%nat by lia; reflexivity).
      destruct (onDataLine a c x) as [a1 c1]. case_bool_decide as Hg1; [|contradiction].
      rewrite length_app in *. cbn [length] in *. pose proof Hg1 as (Hs1 & _ & _). rewrite Hs1. cbn [orb].
      case_bool_decide as Em; cbn [negb].
      * specialize (IH a1 c1 r Hg1 Em ltac:(lia) HQ).
        destruct (parse_lines onDataLine maxLineSize fuel sep MODE_LINE (a1, c1, r)) as [[[a' c'] l']|]; [|exact IH].
        destruct IH as (I1 & I2 & I3 & I4). split; [exact I1|]. split; [exact I2|]. split; [exact I3|]. intros H. specialize (I4 H). lia.
      * split; [reflexivity|]. split; [exact Hg1|]. split; [congruence|]. intros _. lia.
    + destruct (maxLineSize <? length l)%nat eqn:El.
      * rewrite line_run by (auto; cbn; lia). cbn [length Nat.add]. rewrite El. reflexivity.
      * apply Nat.ltb_ge in El. split; [reflexivity|]. split; [exact Hg|]. split; [split; assumption|congruence].
Qed.

(** The rank of a state: it falls with each change of mode. *)
Definition rank (c : Ctl) (l : list Z) : nat := 2 * length l + (if bool_decide (c_mode c = MODE_DATA) then 1 else 0).

(** What is left is the end of what was there. *)
Lemma drop_suffix (l l' : list Z) n : l' `suffix_of` drop n l -> l' `suffix_of` l.
Proof using. intros H. etransitivity; [exact H|]. exists (take n l). symmetry. apply take_drop. Qed.

Lemma parse_suffix sep fuel m a c l a' c' l' :
  parse_lines onDataLine maxLineSize fuel sep m (a, c, l) = Some (a', c', l') -> l' `suffix_of` l.
Proof using.
  revert a c l. induction fuel as [|fuel IH]; intros a c l H; cbn [parse_lines] in H; [injection H as _ _ <-; reflexivity|].
  destruct l as [|x l0]; [injection H as _ _ <-; reflexivity|]. set (l := x :: l0) in *. destruct (memchr sep l) as [n|].
  - destruct (maxLineSize <? n)%nat; [discriminate|]. destruct (onDataLine a c (take n l)) as [a1 c1].
    apply (drop_suffix l l' (n + 1)). destruct (c_stop c1 || _); [injection H as _ _ <-; reflexivity|exact (IH _ _ _ H)].
  - destruct (maxLineSize <? length l)%nat; [discriminate|]. injection H as _ _ <-. reflexivity.
Qed.

Lemma consume_suffix fuel a c l : snd (consume onData onModeChange fuel (a, c, l)) `suffix_of` l.
Proof using.
  revert a c l. induction fuel as [|fuel IH]; intros a c l; cbn [consume]; [reflexivity|].
  destruct l as [|x l0]; [reflexivity|]. set (l := x :: l0) in *. destruct (c_remaining c =? 0).
  - destruct (onModeChange a (set_mode c MODE_LINE)). reflexivity.
  - cbv zeta. set (n := if negb _ && _ then _ else _). destruct (onData a c (take n l)) as [a1 c1].
    destruct (if negb (c_remaining c1 =? NO_LIMIT) then _ else _) as [a2 c2].
    apply (drop_suffix l _ n). destruct (bool_decide _); [apply IH|reflexivity].
Qed.

(** What the next pass of the loop leaves is the end of what this one left. *)
Lemma process_again (r : option (A * Ctl * list Z)) l1 l sep st : l1 `suffix_of` l ->
  match r with
  | None => st = Failed
  | Some (a', c', l') => st = Running a' c' l' /\ good c' /\ rest_ok sep l' /\ (c_mode c' = MODE_DATA -> l' = []) /\ l' `suffix_of` l1
  end ->
  match r with
  | None => st = Failed
  | Some (a', c', l') => st = Running a' c' l' /\ good c' /\ rest_ok sep l' /\ (c_mode c' = MODE_DATA -> l' = []) /\ l' `suffix_of` l
  end.
Proof using. intros Hs. destruct r as [[[a' c'] l']|]; [|auto]. intros (H1 & H2 & H3 & H4 & H5). repeat split; try apply H2; try apply H3; auto. etransitivity; eassumption. Qed.

Lemma process_spec sep fuel a c l : good c -> (rank c l < fuel)%nat -> bytes sep (Running a c []) l <> Quit ->
  match process onDataLine onData onModeChange decompress maxLineSize fuel sep (a, c, l) with
  | None => bytes sep (Running a c []) l = Failed
  | Some (a', c', l') =>
      bytes sep (Running a c []) l = Running a' c' l' /\ good c' /\ rest_ok sep l' /\ (c_mode c' = MODE_DATA -> l' = []) /\ l' `suffix_of` l
  end.
Proof using onData_app onData_remaining.
  revert a c l. induction fuel as [|fuel IH]; intros a c l Hg Hf HQ; [lia|].
  destruct (decide (l = [])) as [->|Hne].
  { cbn. split; [reflexivity|]. split; [exact Hg|]. split; [split; [reflexivity|cbn; lia]|auto]. }
  assert (forall (P Q : option (A * Ctl * list Z)), (match l with [] => P | _ => Q end) = Q) as Hl by (destruct l; [contradiction|reflexivity]).
  cbn [process]. rewrite Hl. pose proof Hg as (_ & Hz & _). destruct (c_mode c) eqn:Em; [|contradiction|].
  - unfold parseData. cbn [snd fst]. rewrite Em. pose proof (parse_lines_spec sep (length l) a c l Hg Em ltac:(lia) HQ) as Hp.
    destruct (parse_lines onDataLine maxLineSize (length l) sep MODE_LINE (a, c, l)) as [[[a1 c1] l1]|] eqn:Ep; [|exact Hp].
    apply parse_suffix in Ep. cbn [mbind option_bind fst snd]. destruct Hp as (P1 & P2 & P3 & P4). rewrite P1 in *. case_bool_decide as E1.
    + specialize (P3 E1). pose proof P3 as [R1 R2]. rewrite line_run by (auto; cbn; lia). cbn [length Nat.add app].
      rewrite (proj2 (Nat.ltb_ge _ _) R2). split; [reflexivity|]. split; [exact P2|]. split; [exact P3|]. split; [congruence|exact Ep].
    + apply (process_again _ l1); [exact Ep|]. apply IH; [exact P2| |exact HQ]. specialize (P4 E1). unfold rank in *. rewrite Em in Hf.
      rewrite bool_decide_false in Hf by discriminate. destruct (bool_decide _); lia.
  - cbn [mbind option_bind]. unfold consumeData. cbn [snd fst].
    pose proof (consume_spec sep (length l) a c l Hg Em ltac:(lia) HQ) as Hp. pose proof (consume_suffix (length l) a c l) as Ep.
    destruct (consume onData onModeChange (length l) (a, c, l)) as [[a1 c1] l1]. destruct Hp as (P1 & P2 & P3 & P4).
    cbn [fst snd] in *. rewrite P1 in *. case_bool_decide as E1.
    + rewrite (P4 E1). cbn. split; [reflexivity|]. split; [exact P2|]. split; [split; [reflexivity|cbn; lia]|]. split; [auto|exists l; symmetry; apply app_nil_r].
    + apply (process_again _ l1); [exact Ep|]. apply IH; [exact P2| |exact HQ]. unfold rank in *. rewrite bool_decide_false by exact E1. rewrite Em in Hf.
      rewrite bool_decide_true in Hf by reflexivity. lia.
Qed.

(** ** The connection *)

Record conn_ok (s : @Conn A) : Prop := {
  co_buf : buf_ok (cn_rb s);
  co_good : good (cn_ctl s);
  co_rest : rest_ok (cn_sep s) (unread (cn_rb s));
  co_data : c_mode (cn_ctl s) = MODE_DATA -> unread (cn_rb s) = [];
  co_sep : cn_sep s = 0 -> unread (cn_rb s) = [] }.

Definition state_of (s : @Conn A) : BState := Running (cn_a s) (cn_ctl s) (unread (cn_rb s)).

(** The separator in use from the first bytes on. *)
Definition sep_of (s : @Conn A) (l : list Z) : Z :=
  if cn_sep s =? 0 then match l with x :: _ => if x =? 36 then 124 else 10 | [] => 0 end else cn_sep s.

Lemma state_of_bytes s l sep : conn_ok s -> sep = sep_of s l ->
  bytes sep (state_of s) l = bytes sep (Running (cn_a s) (cn_ctl s) []) (unread (cn_rb s) ++ l).
Proof using.
  intros [Hb (Hs & Hz & Hr) [Hc Hl] Hd H0] ->. rewrite bytes_app. unfold state_of, sep_of. destruct (cn_sep s =? 0) eqn:E; zb.
  - rewrite (H0 E). reflexivity.
  - destruct (c_mode (cn_ctl s)) eqn:Em; [|contradiction|rewrite (Hd eq_refl); reflexivity].
    rewrite (line_run _ _ _ [] (unread (cn_rb s))); [|exact Em|exact Hc|cbn; lia]. cbn [length Nat.add app]. rewrite (proj2 (Nat.ltb_ge _ _) Hl). reflexivity.
Qed.

Lemma unread_end b (l p : list Z) : buf_ok b -> unread b = p ++ l ->
  buf_ok (set_ptrs b (b_writePtr b) (b_writePtr b - length l)) /\ unread (set_ptrs b (b_writePtr b) (b_writePtr b - length l)) = l.
Proof using.
  intros Hb Hu. pose proof (length_unread b Hb) as Hl. rewrite Hu, length_app in Hl. unfold fill in Hl.
  destruct Hb as [B1 B2 B3 B4 B5]. split; [split; cbn; lia|]. unfold unread in *. cbn.
  replace (b_writePtr b - (b_writePtr b - length l))%nat with (length l) by lia.
  replace (b_writePtr b - length l)%nat with (b_readPtr b + length p)%nat by lia.
  rewrite <- drop_drop. apply (f_equal (drop (length p))) in Hu. rewrite drop_app_length, skipn_firstn_comm in Hu.
  rewrite <- Hu at 2. f_equal. lia.
Qed.

(** The room left in the buffer that is read into. *)
Lemma read_buffer_ok s : buf_ok (cn_rb s) -> buf_ok (read_buffer (A := A) s) /\ unread (read_buffer s) = unread (cn_rb s).
Proof using. intros H. unfold read_buffer. destruct (_ =? _)%nat; [apply grow_ok, H|auto]. Qed.

Lemma read_size_room s : (read_size (A := A) s <= b_capacity (read_buffer s) - b_writePtr (read_buffer s))%nat.
Proof using. unfold read_size. cbv zeta. destruct (_ && _ && _) eqn:E; [|lia]. zb. lia. Qed.

Lemma readData_spec s x d : conn_ok s -> (length (x :: d) <= read_size s)%nat -> bytes (sep_of s (x :: d)) (state_of s) (x :: d) <> Quit ->
  match readData onDataLine onData onModeChange decompress maxLineSize s (x :: d) with
  | None => bytes (sep_of s (x :: d)) (state_of s) (x :: d) = Failed
  | Some s' => bytes (sep_of s (x :: d)) (state_of s) (x :: d) = state_of s' /\ conn_ok s' /\ cn_sep s' = sep_of s (x :: d)
  end.
Proof using onData_app onData_remaining.
  intros Hok Hlen HQ. set (dd := x :: d) in *. rewrite (state_of_bytes s dd _ Hok eq_refl) in *.
  destruct (read_buffer_ok s (co_buf s Hok)) as [Hb Hu]. pose proof (read_size_room s) as Hroom.
  destruct (put_ok (read_buffer s) dd Hb) as [Hb1 Hu1]; [pose proof (bo_write _ Hb); lia|]. rewrite Hu in Hu1.
  set (sep := if cn_sep s =? 0 then if x =? 36 then 124 else 10 else cn_sep s). change (sep_of s dd) with sep in *. rewrite <- Hu1 in *.
  assert (readData onDataLine onData onModeChange decompress maxLineSize s dd =
    '(a, c, l) ← process onDataLine onData onModeChange decompress maxLineSize
                   (process_fuel (unread (put (read_buffer s) dd))) sep (cn_a s, cn_ctl s, unread (put (read_buffer s) dd));
    let b := set_ptrs (put (read_buffer s) dd) (b_writePtr (put (read_buffer s) dd)) (b_writePtr (put (read_buffer s) dd) - length l) in
    Some (mkConn a c (maybeShift (if (b_writePtr (put (read_buffer s) dd) =? b_capacity (put (read_buffer s) dd))%nat then grow b else b)) sep))
    as -> by reflexivity.
  pose proof (process_spec sep (process_fuel (unread (put (read_buffer s) dd))) (cn_a s) (cn_ctl s) (unread (put (read_buffer s) dd)) (co_good s Hok)) as Hp.
  destruct (process _ _ _ _ _ _ _ _) as [[[a c] l]|]; cbn [mbind option_bind].
  - destruct Hp as (P1 & P2 & P3 & P4 & [p Ep]); [unfold rank, process_fuel; destruct (bool_decide _); lia|exact HQ|]. rewrite P1.
    destruct (unread_end _ l p Hb1 Ep) as [E1 E2]. set (b2 := set_ptrs _ _ _) in *.
    assert (buf_ok (if (b_writePtr (put (read_buffer s) dd) =? b_capacity (put (read_buffer s) dd))%nat then grow b2 else b2) /\
      unread (if (b_writePtr (put (read_buffer s) dd) =? b_capacity (put (read_buffer s) dd))%nat then grow b2 else b2) = l) as [F1 F2].
    { destruct (_ =? _)%nat; [|auto]. destruct (grow_ok b2 E1) as [G1 G2]. split; [exact G1|]. rewrite G2. exact E2. }
    destruct (maybeShift_ok _ F1) as [M1 M2]. rewrite F2 in M2.
    split; [unfold state_of; cbn [cn_a cn_ctl cn_rb]; rewrite M2; reflexivity|]. split; [|reflexivity].
    split; cbn [cn_rb cn_ctl cn_sep]; rewrite ?M2; auto. intros H0. exfalso. subst sep.
    destruct (cn_sep s =? 0) eqn:E0; zb; [destruct (x =? 36); discriminate|contradiction].
  - apply Hp; [unfold rank, process_fuel; destruct (bool_decide _); lia|exact HQ].
Qed.

(** The bytes as they come from the socket: each piece is not empty and not more than what was
    asked for. *)
Fixpoint fits (s : @Conn A) (chunks : list (list Z)) : Prop :=
  match chunks with
  | [] => True
  | d :: ds => d <> [] /\ (length d <= read_size s)%nat /\
               match readData onDataLine onData onModeChange decompress maxLineSize s d with Some s' => fits s' ds | None => True end
  end.

(** The same as a test. *)
Fixpoint fits_b (s : @Conn A) (chunks : list (list Z)) : bool :=
  match chunks with
  | [] => true
  | d :: ds => negb (length d =? 0)%nat && (length d <=? read_size s)%nat &&
               match readData onDataLine onData onModeChange decompress maxLineSize s d with Some s' => fits_b s' ds | None => true end
  end.

Lemma fits_b_fits s chunks : fits_b s chunks = true -> fits s chunks.
Proof using.
  revert s. induction chunks as [|d ds IH]; intros s H; cbn [fits_b fits] in *; [exact I|].
  apply andb_true_iff in H as [H H2]. apply andb_true_iff in H as [H0 H1]. split; [intros ->; discriminate|].
  split; [apply Nat.leb_le, H1|]. destruct (readData _ _ _ _ _ s d); [apply IH, H2|exact I].
Qed.

Fixpoint feed (s : @Conn A) (chunks : list (list Z)) : option Conn :=
  match chunks with
  | [] => Some s
  | d :: ds => s' ← readData onDataLine onData onModeChange decompress maxLineSize s d; feed s' ds
  end.

(** C12.  However the bytes of a connection are cut into pieces, the lines and blocks of data
    handed to the listener are those of the bytes read one at a time, and so is the line begun
    at the end; a line longer than the limit ends the connection.  The connection is past its
    proxy, and each piece has at least one byte and at most as many as were asked for.  The listener
    may be any that takes data in pieces of any size while it leaves the connection alone and
    does not look at the number of bytes left.  The statement is about the bytes up to the first
    callback that does more than start a block of data from a line: one that stops the connection,
    turns on the compression ([$ZOn], [ZON]), or changes the connection from [onData] or
    [onModeChange], as a download does at the end of its file; from there on the bytewise reading is
    [Quit] and nothing is claimed. *)
Theorem readData_bytes s chunks : conn_ok s -> fits s chunks ->
  bytes (sep_of s (concat chunks)) (state_of s) (concat chunks) <> Quit ->
  match feed s chunks with
  | Some s' => state_of s' = bytes (sep_of s (concat chunks)) (state_of s) (concat chunks)
  | None => bytes (sep_of s (concat chunks)) (state_of s) (concat chunks) = Failed
  end.
Proof using onData_app onData_remaining.
  revert s. induction chunks as [|d ds IH]; intros s Hok Hf HQ; [reflexivity|]. destruct Hf as (Hne & Hlen & Hf).
  destruct d as [|x d]; [contradiction|]. cbn [feed concat] in *.
  assert (sep_of s ((x :: d) ++ concat ds) = sep_of s (x :: d)) as Es by reflexivity. rewrite Es, bytes_app in *.
  pose proof (readData_spec s x d Hok Hlen (bytes_on _ _ _ HQ)) as Hr.
  destruct (readData _ _ _ _ _ s (x :: d)) as [s1|]; cbn [mbind option_bind].
  - destruct Hr as (R1 & R2 & R3). rewrite R1 in *.
    assert (sep_of s (x :: d) <> 0) as Hn0.
    { unfold sep_of. destruct (cn_sep s =? 0) eqn:E; zb; [destruct (x =? 36); discriminate|exact E]. }
    assert (sep_of s1 (concat ds) = sep_of s (x :: d)) as Hsep.
    { unfold sep_of at 1. rewrite R3, (proj2 (Z.eqb_neq _ _) Hn0). reflexivity. }
    rewrite <- Hsep in *. exact (IH s1 R2 Hf HQ).
  - rewrite Hr. apply bytes_Failed.
Qed.

(** ** Room for the next bytes *)

(** The read position is in the first half of the array, as [maybeShift] leaves it. *)
Definition shifted (s : @Conn A) : Prop := (b_readPtr (cn_rb s) <= b_capacity (cn_rb s) / 2)%nat.

Lemma maybeShift_half b : (b_readPtr (maybeShift b) <= b_capacity (maybeShift b) / 2)%nat.
Proof using.
  unfold maybeShift. destruct (_ =? _)%nat; [cbn; lia|]. destruct (negb _ && _) eqn:E; [cbn; lia|].
  apply andb_false_iff in E as [E|E].
  - apply negb_false_iff, Nat.eqb_eq in E. rewrite E. lia.
  - apply Nat.ltb_ge in E. exact E.
Qed.

Lemma readData_shifted s d s' : readData onDataLine onData onModeChange decompress maxLineSize s d = Some s' -> shifted s'.
Proof using.
  unfold readData. destruct d; [discriminate|]. destruct (process _ _ _ _ _ _ _ _) as [[[a c] l]|]; [|discriminate].
  cbn [mbind option_bind]. intros H. injection H as <-. unfold shifted. cbn [cn_rb]. apply maybeShift_half.
Qed.

Lemma room_left s : conn_ok s -> shifted s -> (2 * maxLineSize < b_maxCapacity (cn_rb s))%nat ->
  (b_writePtr (read_buffer s) < b_capacity (read_buffer s))%nat.
Proof using.
  intros [Hb _ [_ Hl] _ _] Hs Hm. unfold shifted in Hs. rewrite (length_unread _ Hb) in Hl. unfold fill in Hl.
  pose proof (Nat.div_mod (b_capacity (cn_rb s)) 2 ltac:(lia)) as Hd.
  pose proof (Nat.mod_upper_bound (b_capacity (cn_rb s)) 2 ltac:(lia)) as Hd2.
  destruct (double_capacity_ok _ Hb) as [D1 D2]. destruct Hb as [B1 B2 B3 B4 B5].
  unfold read_buffer. destruct (_ =? _)%nat eqn:E; [|apply Nat.eqb_neq in E; lia]. apply Nat.eqb_eq in E.
  unfold grow. destruct (b_capacity (cn_rb s) =? b_maxCapacity (cn_rb s))%nat eqn:E2; [apply Nat.eqb_eq in E2; lia|].
  apply Nat.eqb_neq in E2. cbn. unfold fill. pose proof INITIAL_CAPACITY_pos.
  assert (b_capacity (cn_rb s) < double_capacity (cn_rb s))%nat; [|lia].
  unfold double_capacity. destruct (_ <? INITIAL_CAPACITY)%nat eqn:E3; rewrite ?Nat.ltb_lt, ?Nat.ltb_ge in E3; lia.
Qed.

(** C33.  When a line may have less than half of the largest capacity, the buffer has room for
    more bytes after every pass, so that the socket is asked for at least one byte: a read of no
    bytes would be taken for the end of the connection.  The one exception is a block of data
    with no byte left to read (data mode with a remaining size of 0), for which none are asked
    for. *)
Theorem read_room s : conn_ok s -> shifted s -> (2 * maxLineSize < b_maxCapacity (cn_rb s))%nat ->
  (b_writePtr (read_buffer s) < b_capacity (read_buffer s))%nat /\
  (read_size s = 0%nat <-> c_mode (cn_ctl s) = MODE_DATA /\ c_remaining (cn_ctl s) = 0).
Proof using.
  intros Hok Hs Hm. pose proof (room_left s Hok Hs Hm) as Hroom. split; [exact Hroom|].
  destruct Hok as [_ (_ & _ & Hr) _ _ _]. unfold read_size. cbv zeta.
  case_bool_decide as Ed; cbn [andb]; [|split; [lia|intros [? _]; contradiction]].
  destruct (Z.eqb_spec (c_remaining (cn_ctl s)) NO_LIMIT) as [E|E]; cbn [negb andb]; [unfold NO_LIMIT in E; split; [lia|intros [_ ?]; lia]|].
  destruct (Z.ltb_spec (c_remaining (cn_ctl s)) (Z.of_nat (b_capacity (read_buffer s) - b_writePtr (read_buffer s))));
    [split; [intros H0; split; [exact Ed|lia]|intros [_ H0]; rewrite H0; reflexivity]|split; [lia|intros [_ ?]; lia]].
Qed.

(** With a line that fills the largest buffer the next pass asks for no bytes. *)
Lemma read_size_full s : b_writePtr (cn_rb s) = b_capacity (cn_rb s) -> b_capacity (cn_rb s) = b_maxCapacity (cn_rb s) ->
  read_size (A := A) s = 0%nat.
Proof using.
  intros H1 H2. pose proof (read_size_room s) as H. unfold read_buffer, grow in H.
  rewrite H1, H2, !Nat.eqb_refl, H1, H2 in H. lia.
Qed.
End Bytes.

(** ** A listener

    It keeps all it gets.  A line [D] announces three bytes of data, a line [Z] the compression, and a
    byte 0 of data ends the block early, as the end of a file ends a download. *)

Definition log_line (a : list Z) (c : Ctl) (l : list Z) : list Z * Ctl :=
  (a ++ l ++ [0], if bool_decide (l = [68]) then mkCtl MODE_DATA 3 (c_stop c) else if bool_decide (l = [90]) then set_mode c MODE_ZPIPE else c).
Definition log_data (a : list Z) (c : Ctl) (d : list Z) : list Z * Ctl := (a ++ d, if bool_decide (0 ∈ d) then set_mode c MODE_LINE else c).
Definition log_mode (a : list Z) (c : Ctl) : list Z * Ctl := (a ++ [1], c).
Definition no_zlib (a : list Z) (c : Ctl) (l : list Z) : option (list Z * Ctl * list Z) := None.

Lemma log_data_app a c x y : snd (log_data a c x) = c -> snd (log_data (fst (log_data a c x)) c y) = c ->
  log_data a c (x ++ y) = log_data (fst (log_data a c x)) c y.
Proof.
  unfold log_data. cbn [fst snd]. rewrite app_assoc. intros Hx Hy. f_equal. repeat case_bool_decide; try congruence.
  rewrite elem_of_app in *. tauto.
Qed.

Lemma log_data_remaining a c r d : snd (log_data a c d) = c -> log_data a (set_remaining c r) d = (fst (log_data a c d), set_remaining c r).
Proof.
  unfold log_data. cbn [fst snd]. intros H. f_equal. case_bool_decide; [|reflexivity]. rewrite <- H. reflexivity.
Qed.

Definition sample_conn : Conn := mkConn (A := list Z) [] (mkCtl MODE_LINE NO_LIMIT false) (mkBuffer (replicate 32 0) INITIAL_CAPACITY 32 0 0) 0.

Lemma sample_conn_ok : conn_ok 20 sample_conn.
Proof.
  split; cbn.
  - split; cbn [b_buf b_capacity b_readPtr b_writePtr b_maxCapacity]; try lia; try reflexivity.
    change INITIAL_CAPACITY with (Pos.to_nat 8192). lia.
  - split; [reflexivity|]. split; [discriminate|]. unfold NO_LIMIT. cbn. lia.
  - split; [reflexivity|cbn; lia].
  - reflexivity.
  - reflexivity.
Qed.

Lemma readData_bytes_witness :
  match feed log_line log_data log_mode no_zlib 20 sample_conn [[97; 10; 68]; [10; 98]; [99; 100]; [101]] with
  | Some s' => state_of s' = Running [97; 0; 68; 0; 98; 99; 100; 1] (mkCtl MODE_LINE 0 false) [101]
  | None => False
  end.
Proof.
  pose proof (readData_bytes log_line log_data log_mode no_zlib 20 log_data_app log_data_remaining
    sample_conn [[97; 10; 68]; [10; 98]; [99; 100]; [101]] sample_conn_ok) as H.
  destruct (feed log_line log_data log_mode no_zlib 20 sample_conn _) as [s'|] eqn:E.
  - rewrite H; [vm_compute; reflexivity|apply fits_b_fits; vm_compute; reflexivity|vm_compute; discriminate].
  - vm_compute in E. discriminate.
Defined.

(** The compression ends the bytewise reading. *)
Example compressed_quits : bytes log_line log_data log_mode 20 10 (Running [] (mkCtl MODE_LINE NO_LIMIT false) []) [90; 10; 1] = Quit.
Proof. vm_compute. reflexivity. Qed.

Lemma read_room_witness :
  (b_writePtr (read_buffer sample_conn) < b_capacity (read_buffer sample_conn))%nat /\ read_size sample_conn <> 0%nat.
Proof.
  destruct (read_room 20 sample_conn sample_conn_ok) as [H1 H2].
  - unfold shifted. cbn. lia.
  - cbn. change INITIAL_CAPACITY with (Pos.to_nat 8192). lia.
  - split; [exact H1|]. intros [H _]%H2. discriminate.
Defined.
