(* ===== verification/JsonString.v ===== *)
(** * Strings of JSON texts: [JsonParser::unescape] ([client/JsonParser.cpp])

    The escapes of a string are replaced in place: [readPos] runs ahead of [writePos] in the
    same array.  Writing past its end would be undefined ([None]).  [unesc] is the reference,
    which makes a new string; [unescape_reference] is that both give the same result. *)

From S2P Require Import Prelude Text.

Inductive JsonError :=
| NO_ERROR | ERR_PARSING_ABORTED | ERR_NO_DATA | ERR_INVALID_STATE | ERR_MAX_NESTING_EXCEEDED
| ERR_UNEXPECTED_CHARACTER | ERR_COLON_EXPECTED | ERR_STRING_EXPECTED | ERR_UNKNOWN_KEYWORD
| ERR_UNESCAPED_CHARACTER | ERR_INVALID_ESCAPE | ERR_INVALID_NUMBER | ERR_STRING_NOT_TERMINATED
| ERR_COMPOUND_TYPE_NOT_CLOSED | ERR_TRAILING_COMMA_NOT_ALLOWED | ERR_KEYWORD_NOT_ALLOWED
| ERR_INVALID_UTF8 | ERR_INVALID_BOM.

#[export] Instance JsonError_eq_dec : EqDecision JsonError.
Proof. solve_decision. Defined.

(** A result of -1 is [None]. *)
Definition getHexDigit (c : Z) : option Z :=
  if (48 <=? c) && (c <=? 57) then Some (c - 48)
  else if (97 <=? c) && (c <=? 102) then Some (c - 97 + 10)
  else if (65 <=? c) && (c <=? 70) then Some (c - 65 + 10)
  else None.

Definition getHexChar (c1 c2 c3 c4 : Z) : option Z :=
  h1 ← getHexDigit c1; h2 ← getHexDigit c2; h3 ← getHexDigit c3; h4 ← getHexDigit c4;
  Some (Z.lor (Z.lor (Z.lor (Z.shiftl h1 12) (Z.shiftl h2 8)) (Z.shiftl h3 4)) h4).

(** The escapes of two characters. *)
Definition simple_escape (c : Z) : option Z :=
  if c =? 92 then Some 92 else if c =? 34 then Some 34 else if c =? 47 then Some 47
  else if c =? 98 then Some 8 else if c =? 102 then Some 12 else if c =? 110 then Some 10
  else if c =? 114 then Some 13 else if c =? 116 then Some 9 else None.

(** The variables of the loop. *)
Record UState := mkUS { us_data : list Z; us_write : nat; us_read : nat; us_prevPos : nat; us_prev : Z }.

Definition memmove (data : list Z) (dst src n : nat) : list Z := buf_write data dst (take n (drop src data)).

(** [chr] and [escapeLen] of the escape at [r], or [ERR_INVALID_ESCAPE]. *)
Definition read_escape (data : list Z) (r : nat) : option (Z * nat) :=
  c ← data !! (r + 1)%nat;
  if c =? 117 then
    if (length data - r <? 6)%nat then None
    else
      c1 ← data !! (r + 2)%nat; c2 ← data !! (r + 3)%nat; c3 ← data !! (r + 4)%nat; c4 ← data !! (r + 5)%nat;
      chr ← getHexChar c1 c2 c3 c4; Some (chr, 6%nat)
  else chr ← simple_escape c; Some (chr, 2%nat).

Inductive UNext := UGo (s : UState) | UBreak (s : UState) | UError.

(** A pass of the loop; [None] is a write past the end. *)
Definition unescape_step (s : UState) : option UNext :=
  let '(mkUS data writePos readPos prevPos prev) := s in
  let size := length data in
  if (readPos <? size)%nat then
    match memchr 92 (drop readPos data) with
    | None => Some (UBreak s)
    | Some delta =>
        let data := if (0 <? delta)%nat && negb (readPos =? writePos)%nat then memmove data writePos readPos delta else data in
        let readPos := (readPos + delta)%nat in
        let writePos := (writePos + delta)%nat in
        if (readPos + 1 =? size)%nat then Some UError
        else
          match read_escape data readPos with
          | None => Some UError
          | Some (chr, escapeLen) =>
              if (0xD800 <=? chr) && (chr <? 0xDC00) then
                if negb (prev =? 0) then Some UError
                else Some (UGo (mkUS data writePos (readPos + 6) readPos chr))
              else
                let put chr prevPos prev :=
                  if negb (prev =? 0) then Some UError
                  else
                    '(data, writePos) ← write_units data writePos (wcToUtf8 chr);
                    Some (UGo (mkUS data writePos (readPos + escapeLen) prevPos prev)) in
                if (0xDC00 <=? chr) && (chr <? 0xE000) then
                  if (prev =? 0) || negb (prevPos + 6 =? readPos)%nat then Some UError
                  else put (Z.lor (chr - 0xDC00) (Z.shiftl (prev - 0xD800) 10) + 0x10000) O 0
                else put chr prevPos prev
          end
    end
  else Some (UBreak s).

(** Every pass uses up a byte. *)
Fixpoint unescape_loop (fuel : nat) (s : UState) : option (option UState) :=
  match fuel with
  | O => None
  | S fuel =>
      n ← unescape_step s;
      match n with UGo s => unescape_loop fuel s | UBreak s => Some (Some s) | UError => Some None end
  end.

(** What follows the loop: the new contents of the string, or [ERR_INVALID_ESCAPE]. *)
Definition unescape_end (r : option UState) : JsonError + list Z :=
  match r with
  | None => inl ERR_INVALID_ESCAPE
  | Some (mkUS data writePos readPos _ prev) =>
      if negb (prev =? 0) then inl ERR_INVALID_ESCAPE
      else if (0 <? writePos)%nat then
        let delta := (length data - readPos)%nat in
        let data := if (0 <? delta)%nat && negb (readPos =? writePos)%nat then memmove data writePos readPos delta else data in
        inr (take (writePos + delta) data)
      else inr data
  end.

Definition unescape (s : list Z) : option (JsonError + list Z) :=
  match s with
  | [] => Some (inr [])
  | _ => unescape_end <$> unescape_loop (S (length s)) (mkUS s 0 0 0 0)
  end.

(** ** The reference *)

(** The escape at the front of a string and what follows it. *)
Definition split_escape (s : list Z) : option (Z * list Z) :=
  match s with
  | x :: c :: r =>
      if negb (x =? 92) then None
      else if c =? 117 then
        match r with
        | c1 :: c2 :: c3 :: c4 :: r => chr ← getHexChar c1 c2 c3 c4; Some (chr, r)
        | _ => None
        end
      else chr ← simple_escape c; Some (chr, r)
  | _ => None
  end.

Definition high_surrogate (v : Z) : bool := (0xD800 <=? v) && (v <? 0xDC00).
Definition low_surrogate (v : Z) : bool := (0xDC00 <=? v) && (v <? 0xE000).
Definition pair_value (h l : Z) : Z := (h - 0xD800) * 1024 + (l - 0xDC00) + 0x10000.

Fixpoint unesc_fuel (fuel : nat) (s : list Z) : option (list Z) :=
  match fuel, s with
  | _, [] => Some []
  | O, _ => None
  | S fuel, x :: r =>
      if x =? 92 then
        '(v, r) ← split_escape s;
        if high_surrogate v then
          '(l, r) ← split_escape r;
          if low_surrogate l then t ← unesc_fuel fuel r; Some (utf8_bytes (pair_value v l) ++ t) else None
        else if low_surrogate v then None
        else t ← unesc_fuel fuel r; Some (utf8_bytes v ++ t)
      else t ← unesc_fuel fuel r; Some (x :: t)
  end.
Definition unesc (s : list Z) : option (list Z) := unesc_fuel (length s) s.

Example unescape_sample : unescape [97; 92; 110; 92; 117; 100; 56; 51; 100; 92; 117; 100; 101; 48; 48; 98; 92; 34] =
  Some (inr ([97; 10] ++ utf8_bytes 0x1F600 ++ [98; 34])) /\
  unescape [92; 117; 100; 56; 51; 100; 98] = Some (inl ERR_INVALID_ESCAPE).
Proof. split; reflexivity. Qed.

(** ** Equations of the reference *)

Lemma split_escape_shorter s v r : split_escape s = Some (v, r) -> (length r < length s)%nat.
Proof.
  destruct s as [|x [|c l]]; [discriminate|discriminate|]. unfold split_escape. destruct (negb _); [discriminate|].
  destruct (c =? 117).
  - destruct l as [|c1 [|c2 [|c3 [|c4 l]]]]; try discriminate. destruct (getHexChar c1 c2 c3 c4); [|discriminate].
    intros [= _ <-]. cbn. lia.
  - destruct (simple_escape c); [|discriminate]. intros [= _ <-]. cbn. lia.
Qed.

Lemma unesc_fuel_enough f1 : forall f2 s, (length s <= f1)%nat -> (length s <= f2)%nat -> unesc_fuel f1 s = unesc_fuel f2 s.
Proof.
  induction f1 as [|f1 IH]; intros f2 [|x r] H1 H2; cbn [length] in *; try lia; (destruct f2 as [|f2]; [try lia|]); try reflexivity.
  cbn [unesc_fuel]. destruct (x =? 92); [|rewrite (IH f2 r) by lia; reflexivity].
  destruct (split_escape (x :: r)) as [[v r1]|] eqn:E1; [|reflexivity]. apply split_escape_shorter in E1. cbn [length] in E1.
  cbn [mbind option_bind]. rewrite (IH f2 r1) by lia. destruct (high_surrogate v); [|reflexivity].
  destruct (split_escape r1) as [[l r2]|] eqn:E2; [|reflexivity]. apply split_escape_shorter in E2.
  cbn [mbind option_bind]. rewrite (IH f2 r2) by lia. reflexivity.
Qed.

(** What is left to do after a first half of a surrogate pair, if [prev] is one. *)
Definition unesc_from (prev : Z) (s : list Z) : option (list Z) :=
  if prev =? 0 then unesc s
  else
    '(l, r) ← split_escape s;
    if low_surrogate l then t ← unesc r; Some (utf8_bytes (pair_value prev l) ++ t) else None.

Lemma unesc_plain x s : memchr 92 x = None -> unesc (x ++ s) = app x <$> unesc s.
Proof.
  induction x as [|c x IH]; intros Hx; cbn [app]; [destruct (unesc s); reflexivity|].
  apply memchr_None_cons in Hx as [Hc Hx]. unfold unesc at 1. cbn [length unesc_fuel]. rewrite Hc.
  change (unesc_fuel (length (x ++ s)) (x ++ s)) with (unesc (x ++ s)). rewrite IH by exact Hx. destruct (unesc s); reflexivity.
Qed.

Lemma unesc_escape s : match s with 92 :: _ => True | _ => False end ->
  unesc s = ('(v, r) ← split_escape s;
             if high_surrogate v then unesc_from v r
             else if low_surrogate v then None else t ← unesc r; Some (utf8_bytes v ++ t)).
Proof.
  intros Hs. destruct s as [|x r]; [contradiction|]. assert (x = 92) as ->.
  { destruct x as [|p|p]; try contradiction. repeat (destruct p as [p|p|]; try contradiction). reflexivity. }
  clear Hs. unfold unesc at 1. cbn [length unesc_fuel]. change (92 =? 92) with true. cbv iota.
  destruct (split_escape (92 :: r)) as [[v r1]|] eqn:E1; [|reflexivity]. apply split_escape_shorter in E1. cbn [length] in E1.
  cbn [mbind option_bind]. unfold unesc_from, unesc. rewrite (unesc_fuel_enough (length r) (length r1) r1) by lia.
  destruct (high_surrogate v) eqn:Hh; [|reflexivity]. unfold high_surrogate in Hh. zb. replace (v =? 0) with false by lia.
  destruct (split_escape r1) as [[l r2]|] eqn:E2; [|reflexivity]. apply split_escape_shorter in E2.
  cbn [mbind option_bind]. rewrite (unesc_fuel_enough (length r) (length r2) r2) by lia. reflexivity.
Qed.

(** ** In place *)

(** The array holds the result so far and what is left to read. *)
Definition view (data : list Z) (w r : nat) (out rest : list Z) : Prop :=
  take w data = out /\ drop r data = rest /\ (w <= r <= length data)%nat.

Lemma view_write data w r out rest us n : view data w r out rest -> (length us <= n)%nat -> (n <= length rest)%nat ->
  view (buf_write data w us) (w + length us) (r + n) (out ++ us) (drop n rest) /\ length (buf_write data w us) = length data.
Proof.
  intros (Ho & Hr & Hle) Hu Hn. assert (length rest = length data - r)%nat as Hlr by (rewrite <- Hr, length_drop; reflexivity).
  assert (length (buf_write data w us) = length data) as Hl by (apply length_buf_write; lia).
  split; [|exact Hl]. unfold view. rewrite Hl. split; [|split; [|lia]]; unfold buf_write.
  - rewrite app_assoc, take_app_le by (rewrite length_app, length_take; lia).
    rewrite take_ge by (rewrite length_app, length_take; lia). rewrite Ho. reflexivity.
  - rewrite app_assoc, drop_app_ge by (rewrite length_app, length_take; lia). rewrite length_app, length_take, Nat.min_l by lia.
    rewrite drop_drop. subst rest. rewrite drop_drop. f_equal. lia.
Qed.

Lemma view_move data w r out x rest : view data w r out (x ++ rest) ->
  let data' := if (0 <? length x)%nat && negb (r =? w)%nat then memmove data w r (length x) else data in
  view data' (w + length x) (r + length x) (out ++ x) rest /\ length data' = length data.
Proof.
  intros Hv. pose proof Hv as (Ho & Hr & Hle). cbv zeta. unfold memmove.
  assert (take (length x) (drop r data) = x) as Hx by (rewrite Hr; apply take_app_length).
  assert (length (x ++ rest) = length data - r)%nat as Hlr by (rewrite <- Hr, length_drop; reflexivity).
  rewrite length_app in Hlr.
  destruct (Nat.ltb_spec 0 (length x)); cbn [andb].
  - destruct (Nat.eqb_spec r w) as [->|]; cbn [negb].
    + split; [|reflexivity]. unfold view. split; [|split; [|lia]].
      * rewrite <- Hx at 2. rewrite <- Ho. symmetry. apply take_take_drop.
      * rewrite <- drop_drop, Hr. apply drop_app_length.
    + rewrite Hx. destruct (view_write data w r out (x ++ rest) x (length x) Hv) as [Hv' Hl]; [lia|rewrite length_app; lia|].
      rewrite drop_app_length in Hv'. split; assumption.
  - destruct x as [|c x]; [|cbn in *; lia]. cbn [length]. rewrite !Nat.add_0_r, app_nil_r. split; [exact Hv|reflexivity].
Qed.

Lemma getHexDigit_range c d : getHexDigit c = Some d -> 0 <= d < 16.
Proof. unfold getHexDigit. repeat (case_if; [intros [= <-]; lia|]). discriminate. Qed.

Lemma getHexChar_range c1 c2 c3 c4 v : getHexChar c1 c2 c3 c4 = Some v -> 0 <= v < 0x10000.
Proof.
  unfold getHexChar. destruct (getHexDigit c1) as [h1|] eqn:E1; [|discriminate]. destruct (getHexDigit c2) as [h2|] eqn:E2; [|discriminate].
  destruct (getHexDigit c3) as [h3|] eqn:E3; [|discriminate]. destruct (getHexDigit c4) as [h4|] eqn:E4; [|discriminate].
  apply getHexDigit_range in E1, E2, E3, E4. intros [= <-].
  replace (Z.shiftl h1 12) with (Z.shiftl (Z.shiftl (Z.shiftl h1 4) 4) 4) by (rewrite !Z.shiftl_shiftl by lia; reflexivity).
  replace (Z.shiftl h2 8) with (Z.shiftl (Z.shiftl h2 4) 4) by (rewrite !Z.shiftl_shiftl by lia; reflexivity).
  rewrite <- !Z.shiftl_lor. rewrite !lor_shiftl by lia. change (2 ^ 4) with 16. lia.
Qed.

Lemma simple_escape_range c v : simple_escape c = Some v -> 0 <= v < 0x80.
Proof. unfold simple_escape. repeat (case_if; [intros [= <-]; lia|]). discriminate. Qed.

(** The escape read from the array is the one at the front of the rest. *)
Lemma read_escape_split data k rest : drop k data = 92 :: rest -> rest <> [] ->
  match read_escape data k with
  | Some (chr, n) => split_escape (92 :: rest) = Some (chr, drop (k + n) data) /\ (k + n <= length data)%nat /\
      0 <= chr < 0x10000 /\ (length (utf8_bytes chr) <= n)%nat /\ (high_surrogate chr = true -> n = 6%nat) /\
      (low_surrogate chr = true -> n = 6%nat)
  | None => split_escape (92 :: rest) = None
  end.
Proof.
  intros Hd Hr. assert (forall i, data !! (k + i)%nat = (92 :: rest) !! i) as Hl by (intros i; rewrite <- lookup_drop, Hd; reflexivity).
  assert (length data - k = S (length rest))%nat as Hlen by (rewrite <- length_drop, Hd; reflexivity).
  unfold read_escape. rewrite !Hl. destruct rest as [|c r]; [contradiction|]. cbn [lookup list_lookup mbind option_bind].
  assert (forall n, drop (k + n) data = drop n (92 :: c :: r)) as Hdr by (intros n; rewrite <- drop_drop, Hd; reflexivity).
  unfold split_escape. change (negb (92 =? 92)) with false. cbv iota. cbn [length] in Hlen. destruct (c =? 117).
  - rewrite Hlen. destruct r as [|c1 [|c2 [|c3 [|c4 r]]]]; try reflexivity. cbn [length].
    replace (S (S (S (S (S (S (length r)))))) <? 6)%nat with false by (symmetry; apply Nat.ltb_ge; lia).
    cbn [lookup list_lookup mbind option_bind]. destruct (getHexChar c1 c2 c3 c4) as [v|] eqn:E; [|reflexivity].
    apply getHexChar_range in E. cbn [mbind option_bind]. rewrite Hdr. cbn [length] in Hlen.
    split; [reflexivity|]. split; [lia|]. split; [lia|]. pose proof (utf8_bytes_pos v). split; [lia|]. split; reflexivity.
  - destruct (simple_escape c) as [v|] eqn:E; [|reflexivity]. apply simple_escape_range in E. cbn [mbind option_bind]. rewrite Hdr.
    split; [reflexivity|]. split; [lia|]. split; [lia|]. split; [unfold utf8_bytes; case_if; [cbn; lia|lia]|].
    unfold high_surrogate, low_surrogate. split; intros H; zb; lia.
Qed.

(** The result that [unesc] asks for. *)
Definition expected (out : list Z) (t : option (list Z)) : JsonError + list Z :=
  match t with Some t => inr (out ++ t) | None => inl ERR_INVALID_ESCAPE end.

Lemma unescape_end_ok data w r pp prev out rest : view data w r out rest -> (prev = 0 -> w = O -> r = O) ->
  unescape_end (Some (mkUS data w r pp prev)) = if prev =? 0 then inr (out ++ rest) else inl ERR_INVALID_ESCAPE.
Proof.
  intros Hv Hw. cbn [unescape_end]. destruct (prev =? 0) eqn:E; zb; cbn [negb]; [|reflexivity]. pose proof Hv as (Ho & Hr & Hle).
  destruct (Nat.ltb_spec 0 w) as [H|H].
  - assert (length data - r = length rest)%nat as -> by (rewrite <- Hr, length_drop; reflexivity).
    rewrite <- (app_nil_r rest) in Hv at 1. destruct (view_move data w r out rest [] Hv) as [(Ho' & _) _].
    rewrite Ho'. reflexivity.
  - rewrite <- Ho, <- Hr. rewrite (Hw E ltac:(lia)). replace w with O by lia. reflexivity.
Qed.

Lemma no_escape_from prev rest : memchr 92 rest = None ->
  unesc_from prev rest = if prev =? 0 then Some rest else None.
Proof.
  intros H. unfold unesc_from. destruct (prev =? 0).
  - rewrite <- (app_nil_r rest) at 1. rewrite unesc_plain by exact H. cbn. rewrite app_nil_r. reflexivity.
  - destruct rest as [|x [|c r]]; try reflexivity. apply memchr_None_cons in H as [H _]. unfold split_escape. rewrite H. reflexivity.
Qed.

Lemma utf8_pair h l : high_surrogate h = true -> low_surrogate l = true ->
  wcToUtf8 (Z.lor (l - 0xDC00) (Z.shiftl (h - 0xD800) 10) + 0x10000) = utf8_bytes (pair_value h l).
Proof.
  unfold high_surrogate, low_surrogate. intros Hh Hl. zb. rewrite Z.lor_comm, lor_shiftl by (change (2 ^ 10) with 1024; lia).
  change (2 ^ 10) with 1024. unfold pair_value. apply wcToUtf8_bytes. lia.
Qed.

(** The characters before the next escape. *)
Lemma from_plain prev x s : memchr 92 x = None ->
  unesc_from prev (x ++ 92 :: s) =
  if prev =? 0 then app x <$> unesc (92 :: s) else match x with [] => unesc_from prev (92 :: s) | _ => None end.
Proof.
  intros Hx. unfold unesc_from at 1. destruct (prev =? 0) eqn:E; [apply unesc_plain, Hx|].
  destruct x as [|c x]; [unfold unesc_from; rewrite E; reflexivity|]. apply memchr_None_cons in Hx as [Hc _].
  cbn [app]. unfold split_escape. rewrite Hc. destruct (x ++ 92 :: s); reflexivity.
Qed.

Lemma expected_app out x t : expected out (app x <$> t) = expected (out ++ x) t.
Proof. destruct t; [|reflexivity]. cbn. rewrite app_assoc. reflexivity. Qed.

Lemma unescape_loop_ok fuel : forall data w r pp prev out rest,
  view data w r out rest -> (length rest < fuel)%nat ->
  (prev = 0 /\ (w = O -> r = O)) \/ (high_surrogate prev = true /\ (pp + 6 = r)%nat) ->
  exists res, unescape_loop fuel (mkUS data w r pp prev) = Some res /\
    unescape_end res = expected out (unesc_from prev rest).
Proof.
  induction fuel as [|fuel IH]; intros data w r pp prev out rest Hv Hf Hp; [lia|].
  cbn [unescape_loop]. unfold unescape_step. pose proof Hv as (Ho & Hr & Hle).
  assert (length rest = length data - r)%nat as Hlr by (rewrite <- Hr, length_drop; reflexivity).
  assert (prev = 0 -> w = O -> r = O) as Hw0.
  { intros ->. destruct Hp as [[_ H]|[H _]]; [exact H|discriminate]. }
  destruct (Nat.ltb_spec r (length data)) as [Hrl|Hrl].
  2:{ eexists. split; [reflexivity|]. rewrite (unescape_end_ok _ _ _ _ _ _ _ Hv Hw0).
      destruct rest; [|cbn in Hlr; lia]. rewrite no_escape_from by reflexivity. destruct (prev =? 0); reflexivity. }
  rewrite Hr. destruct (memchr 92 rest) as [delta|] eqn:Em.
  2:{ eexists. split; [reflexivity|]. rewrite (unescape_end_ok _ _ _ _ _ _ _ Hv Hw0). rewrite no_escape_from by exact Em.
      destruct (prev =? 0); reflexivity. }
  destruct (memchr_Some 92 rest delta Em) as (x & rest1 & -> & <- & Hx).
  destruct (view_move data w r out x (92 :: rest1) Hv) as [Hv1 Hl1].
  set (data1 := if _ && _ then _ else _) in *. clearbody data1. pose proof Hv1 as (Ho1 & Hr1 & Hle1).
  assert (length ((92%Z) :: rest1) = length data - (r + length x))%nat as Hl1r by (rewrite <- Hr1, length_drop, Hl1; reflexivity).
  cbn [length] in Hl1r. rewrite from_plain by exact Hx. rewrite length_app in Hf. cbn [length] in Hf.
  destruct (Nat.eqb_spec (r + length x + 1) (length data)) as [Hend|Hend].
  { eexists. split; [reflexivity|]. destruct rest1; [|cbn in Hl1r; lia]. destruct (prev =? 0) eqn:Ep; [reflexivity|].
    destruct x; [|reflexivity]. unfold unesc_from. rewrite Ep. reflexivity. }
  pose proof (read_escape_split data1 (r + length x) rest1 Hr1) as He. destruct rest1 as [|c1 rest1]; [cbn in Hl1r; lia|].
  specialize (He ltac:(discriminate)). remember (c1 :: rest1) as rest2 eqn:E2. clear E2.
  destruct (read_escape data1 (r + length x)) as [[chr n]|].
  2:{ eexists. split; [reflexivity|]. rewrite unesc_escape, He by exact I. destruct (prev =? 0) eqn:Ep; [reflexivity|].
      destruct x; [|reflexivity]. unfold unesc_from. rewrite Ep, He. reflexivity. }
  destruct He as (Hsp & Hn & Hc & Hu & Hh6 & Hl6). fold (high_surrogate chr). fold (low_surrogate chr).
  rewrite unesc_escape, Hsp by exact I. cbn [mbind option_bind].
  assert (unesc_from prev (92 :: rest2) = if prev =? 0 then unesc (92 :: rest2) else
    if low_surrogate chr then t ← unesc (drop (r + length x + n) data1); Some (utf8_bytes (pair_value prev chr) ++ t) else None) as Hfrom.
  { unfold unesc_from. rewrite Hsp. reflexivity. }
  assert (prev <> 0 -> low_surrogate chr = false \/ x <> [] ->
    (if prev =? 0 then app x <$> unesc (92 :: rest2) else match x with [] => unesc_from prev (92 :: rest2) | _ => None end) = None) as Hbad.
  { intros Hp0 Hor. rewrite (proj2 (Z.eqb_neq _ _) Hp0) in *. destruct x; [|reflexivity]. rewrite Hfrom. destruct Hor as [->|]; [reflexivity|contradiction]. }
  rewrite unesc_escape, Hsp in Hbad by exact I. cbn [mbind option_bind] in Hbad.
  pose proof (utf8_bytes_pos chr) as Hup.
  assert (length (drop (r + length x + n) data1) < fuel)%nat as Hfuel by (rewrite length_drop; lia).
  assert (forall us, (length us <= n)%nat -> exists data2, write_units data1 (w + length x) us = Some (data2, (w + length x + length us)%nat) /\
    view data2 (w + length x + length us) (r + length x + n) ((out ++ x) ++ us) (drop (r + length x + n) data1)) as Hwrite.
  { intros us Hus. rewrite write_units_ok by lia. eexists. split; [reflexivity|].
    destruct (view_write data1 _ _ _ _ us n Hv1 Hus) as [H _]; [cbn [length]; lia|]. rewrite <- Hr1, drop_drop in H. exact H. }
  destruct (high_surrogate chr) eqn:Hhi.
  - rewrite (Hh6 eq_refl) in *. destruct (prev =? 0) eqn:Ep; cbn [negb option_bind mbind].
    + zb. destruct (IH data1 (w + length x)%nat (r + length x + 6)%nat (r + length x)%nat chr (out ++ x) (drop (r + length x + 6) data1))
        as (res & -> & Hres); [| |right; split; [exact Hhi|reflexivity]|].
      * split; [exact Ho1|]. split; [reflexivity|lia].
      * exact Hfuel.
      * exists res. split; [reflexivity|]. rewrite Hres, expected_app. reflexivity.
    + eexists. split; [reflexivity|]. zb. rewrite Hbad; [reflexivity|exact Ep|]. left. unfold high_surrogate, low_surrogate in *. zb.
      apply andb_false_iff. left. apply Z.leb_gt. lia.
  - destruct (low_surrogate chr) eqn:Hlo.
    + destruct (prev =? 0) eqn:Ep; cbn [orb option_bind mbind]; [eexists; split; [reflexivity|reflexivity]|]. zb.
      destruct Hp as [[Hp _]|[Hp Hpp]]; [contradiction|]. destruct (Nat.eqb_spec (pp + 6) (r + length x)) as [Hx0|Hx0].
      * destruct x as [|]; [|cbn in Hx0; lia]. cbn [negb Z.eqb orb].
        rewrite (Hl6 eq_refl) in *. destruct (Hwrite (utf8_bytes (pair_value prev chr))) as (data2 & Hw2 & Hv2).
        { pose proof (utf8_bytes_pos (pair_value prev chr)). lia. }
        rewrite utf8_pair, Hw2 by assumption. cbn [option_bind mbind].
        destruct (IH _ _ _ O 0 _ _ Hv2 Hfuel) as (res & -> & Hres).
        { left. split; [reflexivity|]. pose proof (utf8_bytes_pos (pair_value prev chr)). lia. }
        exists res. split; [reflexivity|]. rewrite Hres, Hfrom.
        change (unesc_from 0 ?s) with (unesc s). destruct (unesc _); [|reflexivity]. cbn. rewrite app_nil_r, app_assoc. reflexivity.
      * cbn [negb orb]. eexists. split; [reflexivity|]. rewrite Hbad; [reflexivity|exact Ep|]. right. intros ->. cbn in Hx0. lia.
    + destruct (prev =? 0) eqn:Ep; cbn [negb option_bind mbind].
      * zb. destruct (Hwrite (utf8_bytes chr) Hu) as (data2 & Hw2 & Hv2). rewrite wcToUtf8_bytes, Hw2 by lia. cbn [option_bind mbind].
        destruct (IH _ _ _ pp prev _ _ Hv2 Hfuel) as (res & -> & Hres); [left; split; [exact Ep|lia]|].
        exists res. split; [reflexivity|]. rewrite Hres, expected_app, Ep. change (unesc_from 0 ?s) with (unesc s).
        destruct (unesc (drop (r + length x + n) data1)); [|reflexivity]. cbn. rewrite <- !app_assoc. reflexivity.
      * eexists. split; [reflexivity|]. zb. rewrite Hbad; [reflexivity|exact Ep|left; reflexivity].
Qed.

Lemma unescape_unesc s :
  unescape s = Some (match unesc s with Some t => inr t | None => inl ERR_INVALID_ESCAPE end).
Proof.
  destruct s as [|x s]; [reflexivity|]. unfold unescape.
  destruct (unescape_loop_ok (S (length (x :: s))) (x :: s) 0 0 0 0 [] (x :: s)) as (res & -> & Hres).
  - repeat split; cbn; lia.
  - lia.
  - left. auto.
  - cbn [fmap option_fmap option_map]. rewrite Hres. reflexivity.
Qed.

(** [unescape] works in place: it returns without writing past the string, and gives the
    string of the reference, or [ERR_INVALID_ESCAPE] when the reference has none (an unknown
    or cut escape, half of a surrogate pair). *)
Theorem unescape_reference s :
  unescape s = Some (match unesc s with Some t => inr t | None => inl ERR_INVALID_ESCAPE end).
Proof. apply unescape_unesc. Qed.

Lemma split_escape_bytes s v r : bytes_ok s -> split_escape s = Some (v, r) -> bytes_ok r /\ 0 <= v < 0x10000.
Proof.
  intros Hs. destruct s as [|x [|c l]]; [discriminate|discriminate|]. unfold split_escape. destruct (negb _); [discriminate|].
  apply Forall_cons in Hs as [_ Hs]. apply Forall_cons in Hs as [_ Hs]. destruct (c =? 117).
  - destruct l as [|c1 [|c2 [|c3 [|c4 l]]]]; try discriminate. destruct (getHexChar c1 c2 c3 c4) eqn:E; [|discriminate].
    intros [= <- <-]. apply getHexChar_range in E. split; [|exact E]. do 4 (apply Forall_cons in Hs as [_ Hs]). exact Hs.
  - destruct (simple_escape c) eqn:E; [|discriminate]. apply simple_escape_range in E. intros [= <- <-]. split; [exact Hs|lia].
Qed.

Lemma unesc_bytes s t : bytes_ok s -> unesc s = Some t -> bytes_ok t.
Proof.
  unfold unesc. generalize (length s) as fuel. intros fuel. revert s t. induction fuel as [|fuel IH]; intros s t Hs H.
  { destruct s; [injection H as <-; constructor|discriminate]. }
  destruct s as [|x r]; [injection H as <-; constructor|]. cbn [unesc_fuel] in H. destruct (x =? 92).
  2:{ apply Forall_cons in Hs as [Hx Hr]. destruct (unesc_fuel fuel r) eqn:E; [|discriminate]. injection H as <-.
      constructor; [exact Hx|exact (IH _ _ Hr E)]. }
  destruct (split_escape (x :: r)) as [[v r1]|] eqn:E1; [|discriminate]. apply split_escape_bytes in E1 as [H1 Hv]; [|exact Hs].
  cbn [mbind option_bind] in H. destruct (high_surrogate v) eqn:Hh.
  - destruct (split_escape r1) as [[l r2]|] eqn:E2; [|discriminate]. apply split_escape_bytes in E2 as [H2 _]; [|exact H1].
    cbn [mbind option_bind] in H. destruct (low_surrogate l) eqn:Hl; [|discriminate].
    destruct (unesc_fuel fuel r2) eqn:E; [|discriminate]. injection H as <-. apply Forall_app_2; [|exact (IH _ _ H2 E)].
    apply utf8_bytes_ok. unfold high_surrogate, low_surrogate, pair_value in *. zb. lia.
  - destruct (low_surrogate v); [discriminate|]. destruct (unesc_fuel fuel r1) eqn:E; [|discriminate]. injection H as <-.
    apply Forall_app_2; [apply utf8_bytes_ok; lia|exact (IH _ _ H1 E)].
Qed.
