(* ===== verification/JsonParser.v ===== *)
(** * Reading JSON texts: [client/JsonParser.h], [client/JsonParser.cpp]

    The parser is given a text in pieces ([process]) and calls the methods of a derived class
    for the values it finds.  These methods are arguments with a state of their own; their
    answer [false] aborts.  The pieces of a token seen in earlier calls are in [token]; those
    of the current call start at [tokenStart].  [None] is undefined behaviour, and the
    theorems show that there is none. *)

From S2P Require Import Prelude StrUtil Text JsonString.

Inductive JsonType := TYPE_NULL | TYPE_BOOL | TYPE_INT | TYPE_FLOAT | TYPE_STRING | TYPE_ARRAY | TYPE_OBJECT.
Inductive State := STATE_WHITESPACE | STATE_ERROR | STATE_STRING | STATE_NUMBER | STATE_KEYWORD | STATE_COMMENT.
Inductive Expect :=
| EXPECT_ANYTHING | EXPECT_NOTHING | EXPECT_ARRAY_ITEM | EXPECT_ARRAY_COMMA | EXPECT_OBJECT_COMMA
| EXPECT_KEY_NAME | EXPECT_KEY_VALUE | EXPECT_COLON.

#[export] Instance JsonType_eq_dec : EqDecision JsonType.
Proof. solve_decision. Defined.
#[export] Instance State_eq_dec : EqDecision State.
Proof. solve_decision. Defined.
#[export] Instance Expect_eq_dec : EqDecision Expect.
Proof. solve_decision. Defined.

Definition FLAG_VALIDATE_UTF8 := 0x01.
Definition FLAG_STRICT_NUMBER_CHECKS := 0x02.
Definition FLAG_ALLOW_BARE_NAMES := 0x04.
Definition FLAG_ALLOW_TRAILING_COMMA := 0x08.
Definition FLAG_ALLOW_COMMENTS := 0x10.

Definition STATE_FLAG_COMMA := 0x001.
Definition STATE_FLAG_QUOTE := 0x002.
Definition STATE_FLAG_FLOAT := 0x002.
Definition STATE_FLAG_WANT_DIGIT := 0x004.
Definition STATE_FLAG_FRAC := 0x008.
Definition STATE_FLAG_WANT_FRAC_DIGIT := 0x010.
Definition STATE_FLAG_EXP := 0x020.
Definition STATE_FLAG_WANT_EXP_DIGIT := 0x040.
Definition STATE_FLAG_EXP_SIGN := 0x080.
Definition STATE_FLAG_START_COMMENT := 0x002.
Definition STATE_FLAG_SINGLE_LINE_COMMENT := 0x004.
Definition STATE_FLAG_END_COMMENT := 0x008.

Definition maxNesting : nat := 512.

(** [fl & m], [fl & ~m]. *)
Definition has (fl m : Z) : bool := negb (Z.land fl m =? 0).
Definition without (fl m : Z) : Z := Z.ldiff fl m.

Section Parser.
Context {A : Type}.
Context (onNamedValue : A -> list Z -> list Z -> JsonType -> A * bool) (onValue : A -> list Z -> JsonType -> A * bool)
  (onEndStructure : A -> JsonType -> A * bool) (onComment : A -> list Z -> A * bool).

(** The fields that the characters change, with the state of the derived class; the top of the
    stack [st] comes first. *)
Record Core := mkCore {
  j_st : list JsonType; j_state : State; j_flags : Z; j_expect : Expect;
  j_token : list Z; j_key : list Z; j_hasKey : bool; j_found : bool; j_a : A }.

Definition set_state (c : Core) s fl := mkCore (j_st c) s fl (j_expect c) (j_token c) (j_key c) (j_hasKey c) (j_found c) (j_a c).
Definition set_flags (c : Core) fl := set_state c (j_state c) fl.
Definition set_expect (c : Core) e := mkCore (j_st c) (j_state c) (j_flags c) e (j_token c) (j_key c) (j_hasKey c) (j_found c) (j_a c).
Definition set_token (c : Core) t := mkCore (j_st c) (j_state c) (j_flags c) (j_expect c) t (j_key c) (j_hasKey c) (j_found c) (j_a c).
Definition set_st (c : Core) st := mkCore st (j_state c) (j_flags c) (j_expect c) (j_token c) (j_key c) (j_hasKey c) (j_found c) (j_a c).
Definition set_found (c : Core) := mkCore (j_st c) (j_state c) (j_flags c) (j_expect c) (j_token c) (j_key c) (j_hasKey c) true (j_a c).
Definition set_key (c : Core) k has a := mkCore (j_st c) (j_state c) (j_flags c) (j_expect c) (j_token c) k has (j_found c) a.

(** The characters from [s] to [p] of the current piece. *)
Definition slice (data : list Z) (s p : nat) : list Z := take (p - s) (drop s data).
Definition append_token (c : Core) (data : list Z) (s p : nat) : Core := set_token c (j_token c ++ slice data s p).

Definition updateExpect (c : Core) : Core :=
  set_expect c (match j_st c with
                | [] => EXPECT_NOTHING
                | t :: _ => if bool_decide (t = TYPE_OBJECT) then EXPECT_OBJECT_COMMA else EXPECT_ARRAY_COMMA
                end).

(** A value is handed on, with the key if there is one. *)
Definition hand_on (c : Core) (value : list Z) (type : JsonType) : Core * bool :=
  if j_hasKey c then
    let '(a, ok) := onNamedValue (j_a c) (j_key c) value type in
    if ok then (set_key c [] false a, true) else (set_key c (j_key c) true a, false)
  else let '(a, ok) := onValue (j_a c) value type in (set_key c (j_key c) false a, ok).

(** The end of a value: [token] is cleared and the value counts as found. *)
Definition end_value (c : Core) : Core := set_found (updateExpect (set_token c [])).

(** The key of an object. *)
Definition take_key (c : Core) : Core := set_token (set_key (set_expect c EXPECT_COLON) (j_token c) true (j_a c)) [].

(** The handlers after [token.append]. *)
Definition handleString (flags : Z) (c : Core) : option (Core * JsonError) :=
  r ← unescape (j_token c);
  match r with
  | inl err => Some (set_token c [], err)
  | inr token =>
      let c := set_token c token in
      valid ← validateUtf8 token 0;
      Some (
        if has flags FLAG_VALIDATE_UTF8 && negb valid then (c, ERR_INVALID_UTF8)
        else if bool_decide (j_expect c = EXPECT_KEY_NAME) then (take_key c, NO_ERROR)
        else
          let '(c, ok) := hand_on c token TYPE_STRING in
          if ok then (end_value (set_flags c 0), NO_ERROR) else (c, ERR_PARSING_ABORTED))
  end.

(** The test of [FLAG_STRICT_NUMBER_CHECKS]. *)
Definition bad_number (token : list Z) : bool :=
  match token with
  | c0 :: c1 :: r =>
      let c2 := match r with c :: _ => c | [] => 0 end in
      (c0 =? 45) && (c1 =? 48) && negb ((c2 =? 46) || (c2 =? 101) || (c2 =? 69) || (c2 =? 0)) ||
      (c0 =? 48) && negb ((c1 =? 46) || (c1 =? 101) || (c1 =? 69))
  | _ => false
  end.

Definition wants_digit (c : Core) : bool :=
  has (j_flags c) (Z.lor STATE_FLAG_WANT_DIGIT (Z.lor STATE_FLAG_WANT_EXP_DIGIT STATE_FLAG_WANT_FRAC_DIGIT)).
(** [c] is the parser before [token.append] and [tc] after it. *)
Definition handleNumber (flags : Z) (c tc : Core) : Core * JsonError :=
  if wants_digit c then (c, ERR_INVALID_NUMBER)
  else if has flags FLAG_STRICT_NUMBER_CHECKS && bad_number (j_token tc) then (tc, ERR_INVALID_NUMBER)
  else
    let '(c, ok) := hand_on tc (j_token tc) (if has (j_flags c) STATE_FLAG_FLOAT then TYPE_FLOAT else TYPE_INT) in
    if ok then (end_value (set_flags c 0), NO_ERROR) else (c, ERR_PARSING_ABORTED).

(** [Some TYPE_NULL] for null, [Some TYPE_BOOL] for false and true. *)
Definition keyword_type (token : list Z) : option JsonType :=
  if bool_decide (token = [110; 117; 108; 108]) then Some TYPE_NULL
  else if bool_decide (token = [102; 97; 108; 115; 101]) || bool_decide (token = [116; 114; 117; 101]) then Some TYPE_BOOL
  else None.

Definition handleKeyword (flags : Z) (c : Core) : option (Core * JsonError) :=
  valid ← validateUtf8 (j_token c) 0;
  Some (
    if bool_decide (j_expect c = EXPECT_KEY_NAME) then
      match keyword_type (j_token c) with
      | Some _ => (c, ERR_KEYWORD_NOT_ALLOWED)
      | None => if has flags FLAG_VALIDATE_UTF8 && negb valid then (c, ERR_INVALID_UTF8) else (take_key c, NO_ERROR)
      end
    else
      match keyword_type (j_token c) with
      | None => (c, ERR_UNKNOWN_KEYWORD)
      | Some type =>
          let '(c, ok) := hand_on c (j_token c) type in
          if ok then (end_value c, NO_ERROR) else (c, ERR_PARSING_ABORTED)
      end).

Definition handleComment (c : Core) : Core * JsonError :=
  let '(a, ok) := onComment (j_a c) (j_token c) in
  let c := set_key c (j_key c) (j_hasKey c) a in
  if ok then (set_token c [], NO_ERROR) else (c, ERR_PARSING_ABORTED).

Definition beginStructure (c : Core) (type : JsonType) : Core * JsonError :=
  if (maxNesting <=? length (j_st c))%nat then (c, ERR_MAX_NESTING_EXCEEDED)
  else
    let '(c, ok) := hand_on c [] type in
    if ok then
      let c := set_st c (type :: j_st c) in
      let c := set_expect c (if bool_decide (type = TYPE_ARRAY) then EXPECT_ARRAY_ITEM else EXPECT_KEY_NAME) in
      (set_flags c (without (j_flags c) STATE_FLAG_COMMA), NO_ERROR)
    else (c, ERR_PARSING_ABORTED).

Definition endStructure (c : Core) (type : JsonType) : Core * JsonError :=
  match j_st c with
  | [] => (c, ERR_UNEXPECTED_CHARACTER)
  | t :: st =>
      if bool_decide (t = type) then
        let '(a, ok) := onEndStructure (j_a c) type in
        let c := set_key c (j_key c) (j_hasKey c) a in
        if ok then (set_found (updateExpect (set_st c st)), NO_ERROR) else (c, ERR_PARSING_ABORTED)
      else (c, ERR_UNEXPECTED_CHARACTER)
  end.

(** ** The characters *)

(** What a character does: the next one is looked at; a token starts here or after it; a token
    has ended and this or the next character is looked at; an error. *)
Inductive Outcome :=
| Advance (c : Core) | Start (c : Core) (off : nat) | Finish (c : Core) (adv : nat) | Fail (c : Core) (err : JsonError).

Definition isWhiteSpace (c : Z) : bool := (c =? 32) || (c =? 9) || (c =? 13) || (c =? 10).
Definition is_letter (c : Z) : bool := ((97 <=? c) && (c <=? 122)) || ((65 <=? c) && (c <=? 90)) || (c =? 95).

(** The tests of [expect] before a value; [key] is whether a key may start like it. *)
Definition check_expect (c : Core) (key : bool) : JsonError :=
  match j_expect c with
  | EXPECT_COLON => ERR_COLON_EXPECTED
  | EXPECT_KEY_NAME => if key then NO_ERROR else ERR_STRING_EXPECTED
  | EXPECT_ARRAY_COMMA | EXPECT_OBJECT_COMMA | EXPECT_NOTHING => ERR_UNEXPECTED_CHARACTER
  | _ => NO_ERROR
  end.

Definition unless (err : JsonError) (c : Core) (o : Outcome) : Outcome :=
  if bool_decide (err = NO_ERROR) then o else Fail c err.
Definition after (r : Core * JsonError) (f : Core -> Outcome) : Outcome := unless (snd r) (fst r) (f (fst r)).

(** A closing bracket; [other] is the comma of the other structure. *)
Definition close_step (flags : Z) (c : Core) (type : JsonType) (other : Expect) : Outcome :=
  match j_expect c with
  | EXPECT_COLON => Fail c ERR_COLON_EXPECTED
  | EXPECT_KEY_VALUE | EXPECT_NOTHING => Fail c ERR_UNEXPECTED_CHARACTER
  | e =>
      if bool_decide (e = other) then Fail c ERR_UNEXPECTED_CHARACTER
      else if has (j_flags c) STATE_FLAG_COMMA then
        let c := set_flags c (Z.lxor (j_flags c) STATE_FLAG_COMMA) in
        if has flags FLAG_ALLOW_TRAILING_COMMA then after (endStructure c type) Advance
        else Fail c ERR_TRAILING_COMMA_NOT_ALLOWED
      else after (endStructure c type) Advance
  end.

Definition whitespace_step (flags : Z) (c : Core) (x : Z) : Outcome :=
  if x =? 34 then unless (check_expect c true) c (Start (set_state c STATE_STRING 0) 1)
  else if is_digit x || (x =? 45) then
    unless (check_expect c false) c (Start (set_state c STATE_NUMBER (if x =? 45 then STATE_FLAG_WANT_DIGIT else 0)) 0)
  else if is_letter x then
    unless (check_expect c (has flags FLAG_ALLOW_BARE_NAMES)) c (Start (set_state c STATE_KEYWORD 0) 0)
  else if x =? 44 then
    match j_expect c with
    | EXPECT_ARRAY_COMMA => Advance (set_flags (set_expect c EXPECT_ARRAY_ITEM) STATE_FLAG_COMMA)
    | EXPECT_OBJECT_COMMA => Advance (set_flags (set_expect c EXPECT_KEY_NAME) STATE_FLAG_COMMA)
    | _ => Fail c ERR_UNEXPECTED_CHARACTER
    end
  else if x =? 58 then
    if bool_decide (j_expect c = EXPECT_COLON) then Advance (set_expect c EXPECT_KEY_VALUE)
    else Fail c ERR_UNEXPECTED_CHARACTER
  else if (x =? 91) || (x =? 123) then
    unless (check_expect c false) c
      (after (beginStructure c (if x =? 91 then TYPE_ARRAY else TYPE_OBJECT)) Advance)
  else if x =? 93 then close_step flags c TYPE_ARRAY EXPECT_OBJECT_COMMA
  else if x =? 125 then close_step flags c TYPE_OBJECT EXPECT_ARRAY_COMMA
  else if isWhiteSpace x then Advance c
  else if (x =? 47) && has flags FLAG_ALLOW_COMMENTS then
    Start (set_state c STATE_COMMENT (Z.lor (Z.land (j_flags c) STATE_FLAG_COMMA) STATE_FLAG_START_COMMENT)) 1
  else Fail c ERR_UNEXPECTED_CHARACTER.

(** In a token; [tc] is the parser with the token up to here appended. *)
Definition string_step (flags : Z) (c tc : Core) (x : Z) : option Outcome :=
  if x =? 34 then
    if has (j_flags c) STATE_FLAG_QUOTE then Some (Advance (set_flags c (without (j_flags c) STATE_FLAG_QUOTE)))
    else r ← handleString flags tc; Some (after r (fun c => Finish (set_state c STATE_WHITESPACE (j_flags c)) 1))
  else Some (
    if x <? 0x20 then Fail c ERR_UNESCAPED_CHARACTER
    else if x =? 92 then Advance (set_flags c (Z.lxor (j_flags c) STATE_FLAG_QUOTE))
    else Advance (set_flags c (without (j_flags c) STATE_FLAG_QUOTE))).

Definition number_step (flags : Z) (c tc : Core) (x : Z) : Outcome :=
  let fl := j_flags c in
  if x =? 46 then
    if has fl (Z.lor STATE_FLAG_FRAC (Z.lor STATE_FLAG_EXP STATE_FLAG_WANT_DIGIT)) then Fail c ERR_INVALID_NUMBER
    else Advance (set_flags c (Z.lor fl (Z.lor STATE_FLAG_FRAC (Z.lor STATE_FLAG_WANT_FRAC_DIGIT STATE_FLAG_FLOAT))))
  else if (x =? 101) || (x =? 69) then
    if has fl (Z.lor STATE_FLAG_EXP STATE_FLAG_WANT_FRAC_DIGIT) then Fail c ERR_INVALID_NUMBER
    else Advance (set_flags c (Z.lor fl (Z.lor STATE_FLAG_EXP (Z.lor STATE_FLAG_WANT_EXP_DIGIT STATE_FLAG_FLOAT))))
  else if (x =? 43) || (x =? 45) then
    if negb (Z.land fl (Z.lor STATE_FLAG_WANT_EXP_DIGIT STATE_FLAG_EXP_SIGN) =? STATE_FLAG_WANT_EXP_DIGIT) then Fail c ERR_INVALID_NUMBER
    else Advance (set_flags c (Z.lor fl STATE_FLAG_EXP_SIGN))
  else if is_digit x then
    Advance (set_flags c (without fl (Z.lor STATE_FLAG_WANT_DIGIT (Z.lor STATE_FLAG_WANT_FRAC_DIGIT STATE_FLAG_WANT_EXP_DIGIT))))
  else if isWhiteSpace x then
    after (handleNumber flags c tc) (fun c => Finish (set_state c STATE_WHITESPACE (j_flags c)) 1)
  else if (x =? 44) || (x =? 93) || (x =? 125) then
    after (handleNumber flags c tc) (fun c => Finish (set_state c STATE_WHITESPACE (j_flags c)) 0)
  else Fail c ERR_UNEXPECTED_CHARACTER.

Definition keyword_step (flags : Z) (c tc : Core) (x : Z) : option Outcome :=
  if isWhiteSpace x then
    r ← handleKeyword flags tc; Some (after r (fun c => Finish (set_state c STATE_WHITESPACE (j_flags c)) 1))
  else if (x =? 44) || (x =? 93) || (x =? 125) || (x =? 58) then
    r ← handleKeyword flags tc; Some (after r (fun c => Finish (set_state c STATE_WHITESPACE (j_flags c)) 0))
  else Some (Advance c).

Definition comment_step (c tc : Core) (x : Z) : Outcome :=
  let fl := j_flags c in
  if x =? 42 then
    if has fl STATE_FLAG_START_COMMENT then Advance (set_flags c (Z.lxor fl STATE_FLAG_START_COMMENT))
    else if negb (has fl STATE_FLAG_SINGLE_LINE_COMMENT) then Advance (set_flags c (Z.lor fl STATE_FLAG_END_COMMENT))
    else Advance c
  else if x =? 47 then
    if has fl STATE_FLAG_START_COMMENT then
      Advance (set_flags c (Z.lor (without fl STATE_FLAG_START_COMMENT) STATE_FLAG_SINGLE_LINE_COMMENT))
    else if has fl STATE_FLAG_END_COMMENT then
      after (handleComment tc) (fun c => Finish (set_state c STATE_WHITESPACE (Z.lxor (j_flags c) STATE_FLAG_END_COMMENT)) 1)
    else Advance c
  else if x =? 10 then
    if has fl STATE_FLAG_START_COMMENT then Fail c ERR_UNEXPECTED_CHARACTER
    else if has fl STATE_FLAG_SINGLE_LINE_COMMENT then
      after (handleComment tc) (fun c => Finish (set_state c STATE_WHITESPACE (Z.lxor (j_flags c) STATE_FLAG_SINGLE_LINE_COMMENT)) 1)
    else Advance (set_flags c (without fl STATE_FLAG_END_COMMENT))
  else if has fl STATE_FLAG_START_COMMENT then Fail c ERR_UNEXPECTED_CHARACTER
  else Advance (set_flags c (without fl STATE_FLAG_END_COMMENT)).

Definition char_step (flags : Z) (c tc : Core) (x : Z) : option Outcome :=
  match j_state c with
  | STATE_WHITESPACE => Some (whitespace_step flags c x)
  | STATE_STRING => string_step flags c tc x
  | STATE_NUMBER => Some (number_step flags c tc x)
  | STATE_KEYWORD => keyword_step flags c tc x
  | STATE_COMMENT => Some (comment_step c tc x)
  | STATE_ERROR => Some (Fail c ERR_INVALID_STATE)
  end.

(** ** The pieces *)

(** The loop over a piece: the parser and [tokenStart] at its end, or the error with the
    parser and the position.  A character is looked at once or twice. *)
Fixpoint process_loop (fuel : nat) (flags : Z) (data : list Z) (c : Core) (tokenStart pos : nat) :
  option (Core * nat + Core * JsonError * nat) :=
  match fuel with
  | O => None
  | S fuel =>
      if (pos <? length data)%nat then
        x ← data !! pos;
        o ← char_step flags c (append_token c data tokenStart pos) x;
        match o with
        | Advance c => process_loop fuel flags data c tokenStart (pos + 1)
        | Start c off => process_loop fuel flags data c (pos + off) (pos + 1)
        | Finish c adv => process_loop fuel flags data c 0 (pos + adv)
        | Fail c err => Some (inr (c, err, pos))
        end
      else Some (inl (c, tokenStart))
  end.

Definition process_fuel (data : list Z) (pos : nat) : nat := 2 * (length data - pos) + 2.

Record JsonParser := mkJson {
  jp_flags : Z; jp_core : Core; jp_bomPos : Z; jp_totalProcessed : Z; jp_errorPos : Z }.

Definition core_new (a : A) : Core := mkCore [] STATE_WHITESPACE 0 EXPECT_ANYTHING [] [] false false a.
Definition JsonParser_new (a : A) : JsonParser := mkJson FLAG_VALIDATE_UTF8 (core_new a) 0 0 0.
Definition reset (p : JsonParser) : JsonParser := mkJson (jp_flags p) (core_new (j_a (jp_core p))) 0 0 0.
Definition setFlags (p : JsonParser) (flags : Z) : JsonParser :=
  mkJson flags (jp_core p) (jp_bomPos p) (jp_totalProcessed p) (jp_errorPos p).

(** [E(err)]. *)
Definition E (p : JsonParser) (c : Core) (bomPos : Z) (pos : nat) (err : JsonError) : JsonParser * JsonError :=
  (mkJson (jp_flags p) (set_state c STATE_ERROR (j_flags c)) bomPos (jp_totalProcessed p)
     (u64 (jp_totalProcessed p + Z.of_nat pos)), err).

Definition BOM : list Z := [0xEF; 0xBB; 0xBF].

(** The loop over a byte order mark: the error, [pos] and [bomPos] after it. *)
Fixpoint bom_loop (n : nat) (data : list Z) (pos : nat) (bomPos : Z) : JsonError * nat * Z :=
  match n with
  | O => (NO_ERROR, pos, bomPos)
  | S n =>
      if negb (nth (Z.to_nat bomPos) BOM 0 =? data !!! pos) then
        if negb (bomPos =? 0) then (ERR_INVALID_BOM, pos, bomPos) else (NO_ERROR, pos, -1)
      else bom_loop n data (pos + 1) (bomPos + 1)
  end.

Definition skip_bom (p : JsonParser) (data : list Z) : JsonError * nat * Z :=
  if (jp_totalProcessed p <? 3) && (0 <=? jp_bomPos p) then
    bom_loop (Nat.min (Z.to_nat (3 - jp_bomPos p)) (length data)) data 0 (jp_bomPos p)
  else (NO_ERROR, O, jp_bomPos p).

(** States from [STATE_STRING] on. *)
Definition in_token (s : State) : bool := match s with STATE_WHITESPACE | STATE_ERROR => false | _ => true end.

Definition process (p : JsonParser) (data : list Z) : option (JsonParser * JsonError) :=
  let '(err, pos, bomPos) := skip_bom p data in
  if bool_decide (err = NO_ERROR) then
    r ← process_loop (process_fuel data pos) (jp_flags p) data (jp_core p) 0 pos;
    Some (match r with
    | inr (c, err, pos) => E p c bomPos pos err
    | inl (c, tokenStart) =>
        let c := if in_token (j_state c) && (tokenStart <? length data)%nat then append_token c data tokenStart (length data) else c in
        (mkJson (jp_flags p) c bomPos (u64 (jp_totalProcessed p + Z.of_nat (length data))) (jp_errorPos p), NO_ERROR)
    end)
  else Some (E p (jp_core p) bomPos pos err).

Definition finish (p : JsonParser) : option (JsonParser * JsonError) :=
  let c := jp_core p in
  let done r := let '(c, err) := r in
    if bool_decide (err = NO_ERROR) then (mkJson (jp_flags p) c (jp_bomPos p) (jp_totalProcessed p) (jp_errorPos p), NO_ERROR)
    else E p c (jp_bomPos p) 0 err in
  if bool_decide (j_state c = STATE_STRING) then Some (E p c (jp_bomPos p) 0 ERR_STRING_NOT_TERMINATED)
  else if negb (bool_decide (j_st c = [])) then Some (E p c (jp_bomPos p) 0 ERR_COMPOUND_TYPE_NOT_CLOSED)
  else if (0 <? jp_bomPos p) && (jp_bomPos p <? 3) then Some (E p c (jp_bomPos p) 0 ERR_INVALID_BOM)
  else match j_state c with
  | STATE_NUMBER => Some (done (handleNumber (jp_flags p) c c))
  | STATE_KEYWORD => r ← handleKeyword (jp_flags p) c; Some (done r)
  | _ => Some (if negb (j_found c) then E p c (jp_bomPos p) 0 ERR_NO_DATA else done (c, NO_ERROR))
  end.

(** ** A text in pieces *)

Lemma slice_app_l d1 d2 s p : (p <= length d1)%nat -> slice (d1 ++ d2) s p = slice d1 s p.
Proof using.
  intros Hp. unfold slice. destruct (decide (s <= length d1)%nat).
  - rewrite drop_app_le, take_app_le by (rewrite ?length_drop; lia). reflexivity.
  - replace (p - s)%nat with O by lia. reflexivity.
Qed.

Lemma slice_app_r d1 d2 s p : slice (d1 ++ d2) (length d1 + s) (length d1 + p) = slice d2 s p.
Proof using. unfold slice. rewrite drop_app_add. f_equal. lia. Qed.

Lemma slice_snoc data s p x : data !! p = Some x -> (s <= p)%nat -> slice data s (p + 1) = slice data s p ++ [x].
Proof using.
  intros Hx Hs. unfold slice. replace (p + 1 - s)%nat with (S (p - s)) by lia.
  apply take_S_r. rewrite lookup_drop. replace (s + (p - s))%nat with p by lia. exact Hx.
Qed.

Lemma slice_none data s p : (p <= s)%nat -> slice data s p = [].
Proof using. intros H. unfold slice. replace (p - s)%nat with O by lia. reflexivity. Qed.

Lemma set_token_same c : set_token c (j_token c) = c.
Proof using. destruct c. reflexivity. Qed.


(** Between tokens a character stays there or starts a token. *)
Definition between (c : Core) (o : Outcome) : Prop :=
  match o with
  | Advance c' => j_state c' = STATE_WHITESPACE /\ j_token c' = j_token c
  | Start c' off => in_token (j_state c') = true /\ (off <= 1)%nat /\ j_token c' = j_token c
  | Finish _ _ => False
  | Fail _ e => e <> NO_ERROR
  end.

Lemma between_after c r : j_state (fst r) = STATE_WHITESPACE -> j_token (fst r) = j_token c -> between c (after r Advance).
Proof using. destruct r as [c' e]. intros H1 H2. unfold after, unless. case_bool_decide; [split; assumption|assumption]. Qed.

Lemma endStructure_fields c type : j_state (fst (endStructure c type)) = j_state c /\ j_token (fst (endStructure c type)) = j_token c.
Proof using.
  unfold endStructure. destruct (j_st c); [split; reflexivity|]. destruct (bool_decide _); [|split; reflexivity].
  destruct (onEndStructure _ _) as [a ok]. destruct ok; split; reflexivity.
Qed.

Lemma hand_on_fields c v type : let c' := fst (hand_on c v type) in
  j_state c' = j_state c /\ j_token c' = j_token c /\ j_flags c' = j_flags c /\ j_st c' = j_st c /\ j_expect c' = j_expect c.
Proof using.
  unfold hand_on. destruct (j_hasKey c); [destruct (onNamedValue _ _ _ _) as [a ok]; destruct ok|destruct (onValue _ _ _) as [a ok]];
    repeat split; reflexivity.
Qed.

Lemma close_between flags c type other : j_state c = STATE_WHITESPACE -> between c (close_step flags c type other).
Proof using.
  intros Hs. unfold close_step. destruct (j_expect c); try discriminate;
    (destruct (bool_decide _); [discriminate|]); (destruct (has (j_flags c) _); [destruct (has flags _); [|discriminate]|]);
    apply between_after; rewrite ?(proj1 (endStructure_fields _ _)), ?(proj2 (endStructure_fields _ _)); assumption || reflexivity.
Qed.

Lemma whitespace_between flags c x : j_state c = STATE_WHITESPACE -> between c (whitespace_step flags c x).
Proof using.
  intros Hs. unfold whitespace_step.
  repeat match goal with
  | |- between _ (if ?b then _ else _) => destruct b
  | |- between _ (unless ?e _ _) => unfold unless at 1; destruct (bool_decide_reflect (e = NO_ERROR))
  end; try discriminate; try assumption; try (split; reflexivity || assumption); try (split; [reflexivity|split; [lia|reflexivity]]);
    try (apply close_between, Hs).
  1: destruct (j_expect c); try discriminate; split; assumption || reflexivity.
  all: apply between_after; unfold beginStructure; (destruct (maxNesting <=? _)%nat; [assumption || reflexivity|]);
    match goal with |- context [hand_on ?c0 [] ?t] =>
      pose proof (hand_on_fields c0 [] t) as H; destruct (hand_on c0 [] t) as [c' ok] end;
    cbn [fst] in H; destruct H as (H1 & H2 & _); destruct ok; cbn; congruence.
Qed.



(** In a token, what is in [token] already makes no difference: only the completed token
    [tc] is looked at. *)
Definition inside (c : Core) (t : list Z) (o o' : Outcome) : Prop :=
  match o, o' with
  | Advance c1, Advance c2 => c2 = set_token c1 t /\ in_token (j_state c1) = true /\ j_token c1 = j_token c
  | Finish c1 n, Finish c2 m => c1 = c2 /\ n = m /\ j_state c1 = STATE_WHITESPACE /\ (n <= 1)%nat
  | Fail c1 e, Fail c2 e' => e = e' /\ j_a c1 = j_a c2 /\ e <> NO_ERROR
  | _, _ => False
  end.

Lemma inside_finish c t r f n : (forall c', j_state (f c') = STATE_WHITESPACE) -> (n <= 1)%nat ->
  inside c t (after r (fun c => Finish (f c) n)) (after r (fun c => Finish (f c) n)).
Proof using.
  intros Hf Hn. unfold after, unless. case_bool_decide; cbn; [repeat split; auto|repeat split; auto].
Qed.

Lemma inside_number flags c tc t f n : (forall c', j_state (f c') = STATE_WHITESPACE) -> (n <= 1)%nat ->
  inside c t (after (handleNumber flags c tc) (fun c => Finish (f c) n))
             (after (handleNumber flags (set_token c t) tc) (fun c => Finish (f c) n)).
Proof using.
  intros Hf Hn. unfold handleNumber. change (wants_digit (set_token c t)) with (wants_digit c). destruct (wants_digit c).
  - unfold after, unless. cbn [snd fst]. rewrite bool_decide_false by discriminate. repeat split; discriminate.
  - apply inside_finish; assumption.
Qed.

Ltac inside_ifs :=
  repeat match goal with
  | |- inside _ _ (if ?b then _ else _) _ => destruct b
  end.

Lemma char_step_inside flags c tc t x : in_token (j_state c) = true ->
  match char_step flags c tc x, char_step flags (set_token c t) tc x with
  | Some o, Some o' => inside c t o o'
  | None, None => True
  | _, _ => False
  end.
Proof using.
  intros Hs.
  assert (forall fl, inside c t (Advance (set_flags c fl)) (Advance (set_flags (set_token c t) fl))) as Ha.
  { intros fl. split; [reflexivity|]. split; [exact Hs|reflexivity]. }
  assert (forall e, e <> NO_ERROR -> inside c t (Fail c e) (Fail (set_token c t) e)) as Hf by (intros e He; repeat split; exact He).
  assert (inside c t (Advance c) (Advance (set_token c t))) as Ha0 by (split; [reflexivity|split; [exact Hs|reflexivity]]).
  unfold char_step. change (j_state (set_token c t)) with (j_state c). destruct (j_state c) eqn:Es; try discriminate Hs.
  - unfold string_step. change (j_flags (set_token c t)) with (j_flags c). destruct (x =? 34); [destruct (has _ _); [apply Ha|]|].
    + destruct (handleString flags tc); [|exact I]. apply inside_finish; [reflexivity|lia].
    + inside_ifs; auto; apply Hf; discriminate.
  - unfold number_step. change (j_flags (set_token c t)) with (j_flags c). inside_ifs; auto; try (apply Hf; discriminate); apply inside_number; (reflexivity || lia).
  - unfold keyword_step. destruct (isWhiteSpace x); [|destruct (_ || _); [|exact Ha0]];
      (destruct (handleKeyword flags tc); [|exact I]); apply inside_finish; (reflexivity || lia).
  - unfold comment_step. change (j_flags (set_token c t)) with (j_flags c). inside_ifs; auto; try (apply Hf; discriminate); apply inside_finish; (reflexivity || lia).
Qed.


Lemma char_step_cases flags c tc x o : char_step flags c tc x = Some o ->
  match o with
  | Advance c' => in_token (j_state c') = in_token (j_state c) /\ j_token c' = j_token c
  | Start c' off => in_token (j_state c) = false /\ in_token (j_state c') = true /\ (off <= 1)%nat /\ j_token c' = j_token c
  | Finish c' n => in_token (j_state c) = true /\ j_state c' = STATE_WHITESPACE /\ (n <= 1)%nat
  | Fail _ e => e <> NO_ERROR
  end.
Proof using.
  intros Ho. destruct (in_token (j_state c)) eqn:Hs.
  - pose proof (char_step_inside flags c tc (j_token c) x Hs) as H. rewrite set_token_same, Ho in H.
    destruct o; cbn in H; tauto.
  - unfold char_step in Ho. destruct (j_state c) eqn:Es; try discriminate Hs; injection Ho as <-; [|discriminate].
    pose proof (whitespace_between flags c x Es) as H. destruct (whitespace_step flags c x); cbn in H; try tauto.
    destruct H as [-> H]. split; [reflexivity|exact H].
Qed.

(** The fuel that is left always suffices. *)
Definition measure (c : Core) (data : list Z) (pos : nat) : nat :=
  2 * (length data - pos) + (if in_token (j_state c) then 1 else 0).

Lemma process_loop_fuel flags data f1 : forall f2 c ts pos, (measure c data pos < f1)%nat -> (measure c data pos < f2)%nat ->
  process_loop f1 flags data c ts pos = process_loop f2 flags data c ts pos.
Proof using.
  induction f1 as [|f1 IH]; intros f2 c ts pos H1 H2; [lia|]. destruct f2 as [|f2]; [lia|]. cbn [process_loop].
  destruct (Nat.ltb_spec pos (length data)) as [Hp|]; [|reflexivity].
  destruct (data !! pos) as [x|]; [|reflexivity]. cbn [mbind option_bind].
  destruct (char_step _ _ _ _) as [o|] eqn:Ho; [|reflexivity]. cbn [mbind option_bind]. apply char_step_cases in Ho.
  unfold measure in *. destruct o as [c'|c' off|c' n|c' e]; [| | |reflexivity].
  - destruct Ho as [Hi _]. apply IH; rewrite Hi; lia.
  - destruct Ho as (Hi & Hi' & _). apply IH; rewrite Hi'; rewrite Hi in *; lia.
  - destruct Ho as (Hi & Hi' & _). apply IH; rewrite Hi'; cbn [in_token]; rewrite Hi in *; lia.
Qed.

(** The loop over the first piece of a text. *)
Lemma process_loop_prefix flags d1 d2 f : forall f1 f2 c ts pos, (pos <= length d1)%nat -> (ts <= pos)%nat ->
  (measure c (d1 ++ d2) pos < f)%nat -> (measure c d1 pos < f1)%nat -> (2 * length d2 + 1 < f2)%nat ->
  match process_loop f1 flags d1 c ts pos with
  | Some (inl (c', ts')) => process_loop f flags (d1 ++ d2) c ts pos = process_loop f2 flags (d1 ++ d2) c' ts' (length d1) /\ (ts' <= length d1)%nat
  | r => process_loop f flags (d1 ++ d2) c ts pos = r
  end.
Proof using.
  induction f as [|f IH]; intros f1 f2 c ts pos Hp Ht Hf Hf1 Hf2; [lia|]. destruct f1 as [|f1]; [lia|]. cbn [process_loop].
  destruct (Nat.ltb_spec pos (length d1)) as [Hlt|Hge].
  2:{ assert (pos = length d1) as -> by lia. split; [|exact Ht].
      change (process_loop (S f) flags (d1 ++ d2) c ts (length d1) = process_loop f2 flags (d1 ++ d2) c ts (length d1)).
      apply process_loop_fuel; [exact Hf|]. unfold measure. rewrite length_app. destruct (in_token _); lia. }
  destruct (Nat.ltb_spec pos (length (d1 ++ d2))) as [_|H]; [|rewrite length_app in H; lia].
  rewrite lookup_app_l by exact Hlt. destruct (d1 !! pos) as [x|]; [|reflexivity]. cbn [mbind option_bind].
  unfold append_token. rewrite slice_app_l by lia. destruct (char_step _ _ _ _) as [o|] eqn:Ho; [|reflexivity].
  cbn [mbind option_bind]. apply char_step_cases in Ho. unfold measure in *. rewrite length_app in *.
  destruct o as [c'|c' off|c' n|c' e]; [| | |reflexivity].
  - destruct Ho as [Hi _]. apply IH; rewrite ?length_app, ?Hi; lia.
  - destruct Ho as (Hi & Hi' & Ho & _). rewrite Hi in *. apply IH; rewrite ?length_app, ?Hi'; lia.
  - destruct Ho as (Hi & Hi' & Ho). rewrite Hi in *. apply IH; rewrite ?length_app, ?Hi'; cbn [in_token]; lia.
Qed.


(** The parser with the token up to here. *)
Definition pend (c : Core) (data : list Z) (ts pos : nat) : Core :=
  if in_token (j_state c) then append_token c data ts pos else c.

Definition same_end (d1 d2 : list Z) (r r1 : option (Core * nat + Core * JsonError * nat)) : Prop :=
  match r, r1 with
  | Some (inl (c, ts)), Some (inl (c1, ts1)) => pend c (d1 ++ d2) ts (length (d1 ++ d2)) = pend c1 d2 ts1 (length d2)
  | Some (inr (c, e, pos)), Some (inr (c1, e1, pos1)) =>
      e = e1 /\ pos = (length d1 + pos1)%nat /\ j_a c = j_a c1 /\ e <> NO_ERROR
  | None, None => True
  | _, _ => False
  end.

Lemma pend_state c data ts pos : j_state (pend c data ts pos) = j_state c.
Proof using. unfold pend. destruct (in_token _); reflexivity. Qed.

Lemma pend_advance c data ts pos x : data !! pos = Some x -> (ts <= pos)%nat ->
  pend c data ts (pos + 1) = if in_token (j_state c) then set_token c ((j_token c ++ slice data ts pos) ++ [x]) else c.
Proof using.
  intros Hx Ht. unfold pend, append_token. rewrite (slice_snoc data ts pos x Hx Ht), app_assoc. reflexivity.
Qed.

(** The loop over the rest of a text, with the token begun before. *)
Lemma process_loop_suffix flags d1 d2 f : forall c ts k c1 ts1,
  pend c (d1 ++ d2) ts (length d1 + k) = pend c1 d2 ts1 k -> (ts <= length d1 + k)%nat -> (ts1 <= k)%nat -> (k <= length d2)%nat ->
  same_end d1 d2 (process_loop f flags (d1 ++ d2) c ts (length d1 + k)) (process_loop f flags d2 c1 ts1 k).
Proof using.
  induction f as [|f IH]; intros c ts k c1 ts1 HR Ht Ht1 Hk; [exact I|]. cbn [process_loop]. rewrite length_app.
  destruct (Nat.ltb_spec k (length d2)) as [Hlt|Hge].
  2:{ destruct (Nat.ltb_spec (length d1 + k) (length d1 + length d2)); [lia|]. assert (k = length d2) as -> by lia.
      cbn. rewrite length_app. exact HR. }
  destruct (Nat.ltb_spec (length d1 + k) (length d1 + length d2)); [|lia].
  rewrite lookup_app_r by lia. replace (length d1 + k - length d1)%nat with k by lia.
  destruct (lookup_lt_is_Some_2 d2 k Hlt) as [x Hx]. rewrite Hx. cbn [mbind option_bind].
  assert ((d1 ++ d2) !! (length d1 + k)%nat = Some x) as Hx'.
  { rewrite lookup_app_r by lia. replace (length d1 + k - length d1)%nat with k by lia. exact Hx. }
  assert (j_state c1 = j_state c) as Hst.
  { pose proof (f_equal j_state HR) as H'. rewrite !pend_state in H'. symmetry. exact H'. }
  replace (length d1 + k + 1)%nat with (length d1 + (k + 1))%nat in * by lia.
  destruct (in_token (j_state c)) eqn:Hi.
  - assert (append_token c (d1 ++ d2) ts (length d1 + k) = append_token c1 d2 ts1 k) as Htc.
    { unfold pend in HR. rewrite Hst, Hi in HR. exact HR. }
    assert (c1 = set_token c (j_token c1)) as Hc1.
    { destruct c, c1. unfold append_token, set_token in *. cbn in *. injection Htc as -> -> -> -> _ -> -> -> ->. reflexivity. }
    rewrite <- Htc. pose proof (char_step_inside flags c (append_token c (d1 ++ d2) ts (length d1 + k)) (j_token c1) x Hi) as Hin.
    rewrite <- Hc1 in Hin. destruct (char_step flags c _ x) as [o|], (char_step flags c1 _ x) as [o'|]; try contradiction; [|exact I].
    cbn [mbind option_bind]. destruct o as [ca| |ca n|ca e], o' as [cb| |cb m|cb e']; try contradiction; cbn in Hin.
    + destruct Hin as (-> & Hia & Hta). apply IH; [|lia|lia|lia].
      pose proof (f_equal j_token Htc) as Htok. cbn in Htok.
      replace (length d1 + (k + 1))%nat with (length d1 + k + 1)%nat by lia.
      rewrite (pend_advance ca _ _ _ x Hx' Ht), (pend_advance _ d2 ts1 k x Hx Ht1). cbn [j_state set_token]. rewrite Hia.
      rewrite Hta, Htok. reflexivity.
    + destruct Hin as (-> & <- & Hs & Hn). replace (length d1 + k + n)%nat with (length d1 + (k + n))%nat by lia.
      apply IH; [|lia|lia|lia]. unfold pend. rewrite Hs. reflexivity.
    + destruct Hin as (-> & Ha & He). repeat split; assumption.
  - assert (c1 = c) as ->. { unfold pend in HR. rewrite Hst, Hi in HR. symmetry. exact HR. }
    assert (forall tc, char_step flags c tc x = char_step flags c c x) as Htc.
    { intros tc. unfold char_step. destruct (j_state c); try discriminate Hi; reflexivity. }
    rewrite (Htc (append_token c (d1 ++ d2) _ _)), (Htc (append_token c d2 _ _)).
    destruct (char_step flags c c x) as [o|] eqn:Ho; [|exact I]. cbn [mbind option_bind]. apply char_step_cases in Ho.
    destruct o as [c'|c' off|c' n|c' e].
    + destruct Ho as [Hi' _]. rewrite Hi in Hi'. apply IH; [|lia|lia|lia]. unfold pend. rewrite Hi'. reflexivity.
    + destruct Ho as (_ & Hi' & Hoff & _). replace (length d1 + k + off)%nat with (length d1 + (k + off))%nat by lia.
      apply IH; [|lia|lia|lia]. unfold pend. rewrite Hi'. unfold append_token. rewrite slice_app_r. reflexivity.
    + destruct Ho as [Hi' _]. congruence.
    + repeat split; assumption.
Qed.


(** *** The byte order mark *)

Lemma bom_loop_prefix n d1 d2 : forall pos b, (pos + n <= length d1)%nat -> bom_loop n (d1 ++ d2) pos b = bom_loop n d1 pos b.
Proof using.
  induction n as [|n IH]; intros pos b H; [reflexivity|]. cbn [bom_loop]. rewrite lookup_total_app_l, IH by lia. reflexivity.
Qed.

Lemma bom_loop_suffix n d1 d2 : forall k b,
  bom_loop n (d1 ++ d2) (length d1 + k) b = let '(e, k', b') := bom_loop n d2 k b in (e, (length d1 + k')%nat, b').
Proof using.
  induction n as [|n IH]; intros k b; [reflexivity|]. cbn [bom_loop]. rewrite lookup_total_app_r by lia.
  replace (length d1 + k - length d1)%nat with k by lia.
  destruct (negb _); [destruct (negb _); reflexivity|]. replace (length d1 + k + 1)%nat with (length d1 + (k + 1))%nat by lia. apply IH.
Qed.

Lemma bom_loop_add n m data : forall pos b, 0 <= b ->
  bom_loop (n + m) data pos b =
  match bom_loop n data pos b with
  | (NO_ERROR, pos', b') => if b' =? -1 then (NO_ERROR, pos', b') else bom_loop m data pos' b'
  | r => r
  end.
Proof using.
  induction n as [|n IH]; intros pos b Hb; cbn [plus bom_loop]; [rewrite (proj2 (Z.eqb_neq b (-1))) by lia; reflexivity|].
  destruct (negb (nth _ _ _ =? _)); [destruct (negb (b =? 0)); reflexivity|]. apply IH. lia.
Qed.

Lemma bom_loop_cases n data : forall pos b, 0 <= b ->
  match bom_loop n data pos b with
  | (NO_ERROR, pos', b') => (b' = -1 /\ (pos' <= pos + n)%nat) \/ (b' = b + Z.of_nat n /\ pos' = (pos + n)%nat)
  | _ => True
  end.
Proof using.
  induction n as [|n IH]; intros pos b Hb; cbn [bom_loop]; [right; lia|].
  destruct (negb (nth _ _ _ =? _)); [destruct (negb (b =? 0)); [exact I|left; lia]|].
  specialize (IH (pos + 1)%nat (b + 1) ltac:(lia)). destruct (bom_loop _ _ _ _) as [[[] pos'] b']; try exact I. lia.
Qed.

(** What holds between calls: the mark is still being read, has been read or is not there. *)
Record json_ok (p : JsonParser) : Prop := {
  jo_total : 0 <= jp_totalProcessed p < 2 ^ 64;
  jo_bom : jp_bomPos p = -1 \/
    (0 <= jp_bomPos p < 3 /\ jp_totalProcessed p = jp_bomPos p /\ in_token (j_state (jp_core p)) = false) \/
    (jp_bomPos p = 3 /\ 3 <= jp_totalProcessed p) }.

(** The mark at the front of the first piece: it ends there or goes on in the next. *)
Lemma skip_bom_app p d1 d2 : json_ok p ->
  match skip_bom p d1 with
  | (NO_ERROR, pos, b) =>
      (skip_bom p (d1 ++ d2) = (NO_ERROR, pos, b) /\ (pos <= length d1)%nat /\ (b = -1 \/ (b = 3 /\ 3 <= jp_totalProcessed p + Z.of_nat (length d1)))) \/
      (pos = length d1 /\ 0 <= b < 3 /\ b = jp_totalProcessed p + Z.of_nat (length d1) /\ in_token (j_state (jp_core p)) = false /\
       skip_bom p (d1 ++ d2) =
         let '(e, k, b') := bom_loop (Nat.min (Z.to_nat (3 - b)) (length d2)) d2 0 b in (e, (length d1 + k)%nat, b'))
  | r => skip_bom p (d1 ++ d2) = r
  end.
Proof using.
  intros [Ht Hb]. unfold skip_bom. destruct Hb as [Hb|[(Hb & Heq & Hw)|(Hb & H3)]].
  - rewrite Hb, andb_false_r. left. split; [reflexivity|]. lia.
  - replace (jp_totalProcessed p <? 3) with true by lia. replace (0 <=? jp_bomPos p) with true by lia. cbn [andb].
    set (b := jp_bomPos p) in *. clearbody b. destruct (Nat.leb_spec (Z.to_nat (3 - b)) (length d1)) as [H|H].
    + rewrite !Nat.min_l by (rewrite ?length_app; lia). rewrite bom_loop_prefix by lia.
      pose proof (bom_loop_cases (Z.to_nat (3 - b)) d1 0 b ltac:(lia)) as Hc.
      destruct (bom_loop _ d1 _ _) as [[e pos] b']. destruct e; try reflexivity. left. split; [reflexivity|]. lia.
    + rewrite Nat.min_r by lia. pose proof (bom_loop_cases (length d1) d1 0 b ltac:(lia)) as Hc.
      replace (Nat.min (Z.to_nat (3 - b)) (length (d1 ++ d2))) with
        (length d1 + Nat.min (Z.to_nat (3 - (b + Z.of_nat (length d1)))) (length d2))%nat by (rewrite length_app; lia).
      rewrite bom_loop_add, bom_loop_prefix by lia.
      destruct (bom_loop _ d1 _ _) as [[e pos] b']. destruct e; try reflexivity.
      destruct Hc as [[-> Hp]|[-> ->]]; [left; split; [reflexivity|lia]|].
      replace (b + Z.of_nat (length d1) =? -1) with false by lia. right. split; [reflexivity|]. split; [lia|]. split; [lia|].
      split; [exact Hw|]. rewrite <- (Nat.add_0_r (length d1)) at 2. apply bom_loop_suffix.
  - replace (jp_totalProcessed p <? 3) with false by lia. left. split; [reflexivity|]. lia.
Qed.


(** *** Two pieces *)

(** The result of a call, from that of the loop. *)
Definition result (p : JsonParser) (data : list Z) (b : Z) (r : Core * nat + Core * JsonError * nat) : JsonParser * JsonError :=
  match r with
  | inr (c, err, pos) => E p c b pos err
  | inl (c, ts) =>
      (mkJson (jp_flags p) (pend c data ts (length data)) b (u64 (jp_totalProcessed p + Z.of_nat (length data))) (jp_errorPos p), NO_ERROR)
  end.

Lemma process_eq p data : process p data =
  let '(err, pos, b) := skip_bom p data in
  if bool_decide (err = NO_ERROR)
  then result p data b <$> process_loop (process_fuel data pos) (jp_flags p) data (jp_core p) 0 pos
  else Some (E p (jp_core p) b pos err).
Proof using.
  unfold process. destruct (skip_bom p data) as [[err pos] b]. destruct (bool_decide _); [|reflexivity].
  destruct (process_loop _ _ _ _ _ _) as [[[c ts]|[[c e] q]]|]; try reflexivity. cbn [mbind option_bind fmap option_fmap option_map result].
  do 3 f_equal. unfold pend. destruct (in_token _); [|reflexivity]. cbn [andb]. destruct (Nat.ltb_spec ts (length data)); [reflexivity|].
  unfold append_token. rewrite slice_none, app_nil_r by lia. symmetry. apply set_token_same.
Qed.

Definition agree (r r' : option (JsonParser * JsonError)) : Prop :=
  match r, r' with
  | Some (p, e), Some (p', e') =>
      e = e' /\ jp_errorPos p = jp_errorPos p' /\ j_a (jp_core p) = j_a (jp_core p') /\ (e = NO_ERROR -> p = p')
  | None, None => True
  | _, _ => False
  end.

Lemma agree_refl r : agree r r.
Proof using. destruct r as [[p e]|]; [|exact I]. repeat split; reflexivity. Qed.

Lemma agree_trans r1 r2 r3 : agree r1 r2 -> agree r2 r3 -> agree r1 r3.
Proof using.
  destruct r1 as [[p1 e1]|], r2 as [[p2 e2]|], r3 as [[p3 e3]|]; cbn; try tauto.
  intros (-> & H1 & H2 & H3) (-> & H4 & H5 & H6). repeat split; try congruence.
  intros He. rewrite H3, H6 by exact He. reflexivity.
Qed.

(** The loops on both sides of the cut give the same result. *)
Lemma same_result p d1 d2 b p1 : jp_flags p1 = jp_flags p -> jp_errorPos p1 = jp_errorPos p ->
  jp_totalProcessed p1 = u64 (jp_totalProcessed p + Z.of_nat (length d1)) ->
  forall r r1, same_end d1 d2 r r1 -> agree (result p (d1 ++ d2) b <$> r) (result p1 d2 b <$> r1).
Proof using.
  intros Hf He Ht [[[c ts]|[[c e] pos]]|] [[[c1 ts1]|[[c1 e1] pos1]]|] H; try contradiction; [| |exact I]; cbn in H |- *.
  - split; [reflexivity|]. split; [symmetry; exact He|]. rewrite Hf, He, Ht, u64_add_u64, length_app. rewrite length_app in H. rewrite H.
    split; [reflexivity|]. intros _. do 2 f_equal. lia.
  - destruct H as (-> & -> & Ha & Hne). split; [reflexivity|]. split; [|split; [exact Ha|contradiction]].
    rewrite Ht, u64_add_u64. f_equal. lia.
Qed.


Lemma pend_restart c d1 d2 ts : pend c (d1 ++ d2) ts (length d1) = pend (pend c d1 ts (length d1)) d2 0 0.
Proof using.
  unfold pend at 1 2. rewrite pend_state. unfold pend. destruct (in_token (j_state c)); [|reflexivity].
  unfold append_token. rewrite slice_app_l, (slice_none d2) by lia. cbn. rewrite app_nil_r. reflexivity.
Qed.

Lemma bom_loop_err n data : forall pos b, match bom_loop n data pos b with (e, _, _) => e = NO_ERROR \/ e = ERR_INVALID_BOM end.
Proof using.
  induction n as [|n IH]; intros pos b; cbn [bom_loop]; [auto|]. destruct (negb (_ =? data !!! _)); [destruct (negb _); auto|]. apply IH.
Qed.

Lemma process_ok p data p1 : json_ok p -> jp_totalProcessed p + Z.of_nat (length data) < 2 ^ 64 ->
  process p data = Some (p1, NO_ERROR) ->
  json_ok p1 /\ jp_totalProcessed p1 = jp_totalProcessed p + Z.of_nat (length data).
Proof using.
  intros Hok Hn. pose proof Hok as [Ht Hb]. rewrite process_eq.
  pose proof (skip_bom_app p data [] Hok) as Hs. destruct (skip_bom p data) as [[e pos] b] eqn:Esk.
  case_bool_decide as He; [subst e|intros [= _ H]; congruence].
  destruct (process_loop _ _ _ _ _ _) as [[[c ts]|[[c e] q]]|] eqn:El; [| |discriminate]; cbn.
  2:{ intros [= _ ->]. exfalso.
      pose proof (process_loop_suffix (jp_flags p) [] data (process_fuel data pos) (jp_core p) 0 pos (jp_core p) 0 eq_refl) as H.
      cbn [length app plus] in H. rewrite El in H.
      destruct H as (_ & _ & _ & H); [lia|lia| |congruence]. destruct Hs as [(_ & Hp & _)|(Hp & _)]; lia. }
  intros [= <-]. cbn. unfold wrap. rewrite Z.mod_small by lia. split; [|reflexivity]. split; cbn; [lia|].
  destruct Hs as [(_ & _ & [H|H])|(-> & H1 & H2 & H3 & _)]; [left; exact H|right; right; exact H|].
  right. left. split; [exact H1|]. split; [symmetry; exact H2|]. rewrite pend_state.
  revert El. unfold process_fuel. rewrite Nat.sub_diag. cbn [Nat.mul plus process_loop]. rewrite Nat.ltb_irrefl. intros [= <- _]. exact H3.
Qed.

Lemma process_app p d1 d2 : json_ok p -> jp_totalProcessed p + Z.of_nat (length (d1 ++ d2)) < 2 ^ 64 ->
  agree (process p (d1 ++ d2)) ('(p1, e) ← process p d1; if bool_decide (e = NO_ERROR) then process p1 d2 else Some (p1, e)).
Proof using.
  intros Hok Hn. rewrite length_app in Hn. rewrite (process_eq p d1), (process_eq p (d1 ++ d2)).
  pose proof (skip_bom_app p d1 d2 Hok) as Hs. destruct (skip_bom p d1) as [[e pos] b].
  destruct (bool_decide_reflect (e = NO_ERROR)) as [->|He].
  2:{ destruct e; try contradiction; rewrite Hs; cbn; rewrite bool_decide_false by discriminate; apply agree_refl. }
  assert (u64 (jp_totalProcessed p + Z.of_nat (length d1)) = jp_totalProcessed p + Z.of_nat (length d1)) as Hu.
  { destruct Hok as [Ht _]. apply Z.mod_small. lia. }
  destruct Hs as [(-> & Hp & Hb)|(-> & Hb & Hb' & Hw & ->)].
  - rewrite bool_decide_true by reflexivity.
    pose proof (process_loop_prefix (jp_flags p) d1 d2 (process_fuel (d1 ++ d2) pos) (process_fuel d1 pos) (process_fuel d2 0)
      (jp_core p) 0 pos Hp ltac:(lia)) as H. unfold measure, process_fuel in H |- *. rewrite !length_app in *.
    destruct (process_loop _ _ d1 _ _ _) as [[[c ts]|[[c e] q]]|] eqn:E1.
    + destruct H as [-> Hts]; try (first [lia|destruct (in_token _); lia]). cbn [fmap option_fmap option_map mbind option_bind result].
      rewrite bool_decide_true by reflexivity. rewrite process_eq. unfold skip_bom. cbn [jp_totalProcessed jp_bomPos jp_flags jp_core].
      rewrite Hu. replace ((jp_totalProcessed p + Z.of_nat (length d1) <? 3) && (0 <=? b)) with false by lia.
      rewrite bool_decide_true by reflexivity. apply same_result; try reflexivity; [symmetry; exact Hu|].
      rewrite <- (Nat.add_0_r (length d1)) at 1. unfold process_fuel. apply process_loop_suffix; [|lia|lia|lia].
      rewrite Nat.add_0_r. apply pend_restart.
    + rewrite H by (first [lia|destruct (in_token _); lia]). cbn [fmap option_fmap option_map mbind option_bind result E].
      case_bool_decide as He; [|apply agree_refl]. exfalso. subst e.
      pose proof (process_loop_suffix (jp_flags p) [] d1 (2 * (length d1 - pos) + 2) (jp_core p) 0 pos (jp_core p) 0 eq_refl
        ltac:(lia) ltac:(lia) Hp) as H'. cbn [length app plus] in H'. rewrite E1 in H'. destruct H' as (_ & _ & _ & H'). congruence.
    + rewrite H by (first [lia|destruct (in_token _); lia]). exact I.
  - replace (process_loop (process_fuel d1 (length d1)) (jp_flags p) d1 (jp_core p) 0 (length d1)) with (Some (inl (jp_core p, O)) : option (Core * nat + Core * JsonError * nat)).
    2:{ unfold process_fuel. rewrite Nat.sub_diag. cbn [Nat.mul plus process_loop]. rewrite Nat.ltb_irrefl. reflexivity. }
    cbn [fmap option_fmap option_map mbind option_bind result]. rewrite bool_decide_true by reflexivity.
    assert (pend (jp_core p) d1 0 (length d1) = jp_core p) as -> by (unfold pend; rewrite Hw; reflexivity).
    rewrite process_eq. unfold skip_bom. cbn [jp_totalProcessed jp_bomPos jp_flags jp_core]. rewrite Hu.
    replace ((jp_totalProcessed p + Z.of_nat (length d1) <? 3) && (0 <=? b)) with true by lia.
    pose proof (bom_loop_err (Nat.min (Z.to_nat (3 - b)) (length d2)) d2 0 b) as Hbe.
    pose proof (bom_loop_cases (Nat.min (Z.to_nat (3 - b)) (length d2)) d2 0 b ltac:(lia)) as Hbc.
    destruct (bom_loop _ d2 0 b) as [[e k] b']. destruct Hbe as [->| ->].
    + rewrite bool_decide_true by reflexivity. unfold process_fuel. rewrite length_app.
      replace (length d1 + length d2 - (length d1 + k))%nat with (length d2 - k)%nat by lia.
      apply same_result; try reflexivity; [symmetry; exact Hu|]. apply process_loop_suffix; [|lia|lia|].
      * unfold pend. rewrite Hw. reflexivity.
      * lia.
    + rewrite bool_decide_false by discriminate. cbn. split; [reflexivity|]. split; [|split; [reflexivity|discriminate]].
      rewrite <- Hu, u64_add_u64. f_equal. lia.
Qed.


(** *** No undefined behaviour *)

Definition good (o : option Outcome) : Prop :=
  match o with
  | None => False
  | Some (Advance c) | Some (Start c _) | Some (Finish c _) => bytes_ok (j_token c)
  | Some (Fail _ _) => True
  end.

Lemma good_finish r f n : (snd r = NO_ERROR -> bytes_ok (j_token (f (fst r)))) -> good (Some (after r (fun c => Finish (f c) n))).
Proof using. intros H. unfold after, unless. case_bool_decide; cbn; auto. Qed.

Lemma handleString_total flags c : bytes_ok (j_token c) -> exists r, handleString flags c = Some r /\ (snd r = NO_ERROR -> j_token (fst r) = []).
Proof using.
  intros Hc. unfold handleString. rewrite unescape_unesc. cbn [mbind option_bind].
  destruct (unesc (j_token c)) as [t|] eqn:Eu; [|eexists; split; [reflexivity|discriminate]].
  pose proof (unesc_bytes _ _ Hc Eu) as Ht. destruct (utf8ToWide_chars W4 t Ht) as (_ & -> & _). cbn [mbind option_bind].
  eexists. split; [reflexivity|]. destruct (has flags _ && _); [discriminate|]. destruct (bool_decide _); [reflexivity|].
  destruct (hand_on _ _ _) as [c' ok]. destruct ok; [reflexivity|discriminate].
Qed.

Lemma handleKeyword_total flags c : bytes_ok (j_token c) -> exists r, handleKeyword flags c = Some r /\ (snd r = NO_ERROR -> j_token (fst r) = []).
Proof using.
  intros Hc. unfold handleKeyword. destruct (utf8ToWide_chars W4 _ Hc) as (_ & -> & _). cbn [mbind option_bind].
  eexists. split; [reflexivity|]. destruct (bool_decide _); destruct (keyword_type _); try discriminate.
  - destruct (has flags _ && _); [discriminate|reflexivity].
  - destruct (hand_on _ _ _) as [c' ok]. destruct ok; [reflexivity|discriminate].
Qed.

Lemma handleNumber_token flags c tc : snd (handleNumber flags c tc) = NO_ERROR -> j_token (fst (handleNumber flags c tc)) = [].
Proof using.
  unfold handleNumber. destruct (wants_digit c); [discriminate|]. destruct (has flags _ && _); [discriminate|].
  destruct (hand_on _ _ _) as [c' ok]. destruct ok; [reflexivity|discriminate].
Qed.

Lemma handleComment_token c : snd (handleComment c) = NO_ERROR -> j_token (fst (handleComment c)) = [].
Proof using. unfold handleComment. destruct (onComment _ _) as [a ok]. destruct ok; [reflexivity|discriminate]. Qed.

Lemma char_step_good flags c tc x : bytes_ok (j_token c) -> bytes_ok (j_token tc) -> good (char_step flags c tc x).
Proof using.
  intros Hc Ht. assert (char_step flags c tc x <> None /\ forall c' n, char_step flags c tc x = Some (Finish c' n) -> j_token c' = []) as [Hn Hf].
  { unfold char_step. destruct (j_state c) eqn:Es; try (split; [discriminate|]).
    - intros c' n [= H]. pose proof (whitespace_between flags c x Es) as Hb. rewrite H in Hb. contradiction.
    - intros c' n [= H].
    - unfold string_step. destruct (x =? 34); [destruct (has _ _)|]; [split; [discriminate|intros c' n [= H]]| |].
      + destruct (handleString_total flags tc Ht) as ([c' e] & -> & Hr). cbn. split; [discriminate|]. intros c'' n. unfold after, unless.
        cbn in *. case_bool_decide; [|discriminate]. intros [= <- _]. apply Hr. assumption.
      + split; [discriminate|]. intros c' n. repeat case_if; discriminate.
    - intros c' n. unfold number_step.
      assert (forall m, Some (after (handleNumber flags c tc) (fun c => Finish (set_state c STATE_WHITESPACE (j_flags c)) m)) = Some (Finish c' n) -> j_token c' = []) as Hm.
      { intros m. unfold after, unless. pose proof (handleNumber_token flags c tc) as Hr. case_bool_decide; [|discriminate]. intros [= <- _]. auto. }
      repeat match goal with |- Some (if ?b then _ else _) = _ -> _ => destruct b end; try discriminate; apply Hm.
    - unfold keyword_step. destruct (handleKeyword_total flags tc Ht) as ([c' e] & -> & Hr).
      destruct (isWhiteSpace x); [|destruct (_ || _); [|split; [discriminate|intros c'' n [= H]]]];
        (split; [discriminate|]); intros c'' n; cbn; unfold after, unless; cbn in *; (case_bool_decide; [|discriminate]); intros [= <- _]; apply Hr; assumption.
    - intros c' n. unfold comment_step.
      assert (forall f m, (forall c, j_token (f c) = j_token c) -> Some (after (handleComment tc) (fun c => Finish (f c) m)) = Some (Finish c' n) -> j_token c' = []) as Hm.
      { intros f m Hf'. unfold after, unless. pose proof (handleComment_token tc) as Hr. case_bool_decide; [|discriminate]. intros [= <- _]. rewrite Hf'. auto. }
      repeat match goal with |- Some (if ?b then _ else _) = _ -> _ => destruct b end; try discriminate; apply Hm; reflexivity. }
  destruct (char_step flags c tc x) as [o|] eqn:Ho; [|congruence]. pose proof (char_step_cases _ _ _ _ _ Ho) as Hcase.
  destruct o as [c'|c' off|c' n|c' e]; cbn; [| | |exact I].
  - rewrite (proj2 Hcase). exact Hc.
  - destruct Hcase as (_ & _ & _ & ->). exact Hc.
  - rewrite (Hf _ _ eq_refl). constructor.
Qed.


Lemma process_loop_total flags data f : bytes_ok data -> forall c ts pos, bytes_ok (j_token c) -> (measure c data pos < f)%nat ->
  exists r, process_loop f flags data c ts pos = Some r /\ match r with inl (c', _) => bytes_ok (j_token c') | inr (_, e, _) => e <> NO_ERROR end.
Proof using.
  intros Hd. induction f as [|f IH]; intros c ts pos Hc Hf; [lia|]. cbn [process_loop].
  destruct (Nat.ltb_spec pos (length data)) as [Hp|]; [|eexists; split; [reflexivity|exact Hc]].
  destruct (lookup_lt_is_Some_2 data pos Hp) as [x Hx]. rewrite Hx. cbn [mbind option_bind].
  assert (bytes_ok (j_token (append_token c data ts pos))) as Ht.
  { apply Forall_app_2; [exact Hc|]. apply Forall_take, Forall_drop, Hd. }
  pose proof (char_step_good flags c (append_token c data ts pos) x Hc Ht) as Hg.
  destruct (char_step _ _ _ _) as [o|] eqn:Ho; [|contradiction]. cbn [mbind option_bind]. apply char_step_cases in Ho. unfold measure in *.
  destruct o as [c'|c' off|c' n|c' e]; cbn in Hg; [| | |eexists; split; [reflexivity|exact Ho]].
  - destruct Ho as [Hi _]. apply IH; [exact Hg|rewrite Hi; lia].
  - destruct Ho as (Hi & Hi' & _). apply IH; [exact Hg|rewrite Hi'; rewrite Hi in *; lia].
  - destruct Ho as (Hi & Hi' & _). apply IH; [exact Hg|rewrite Hi'; cbn [in_token]; rewrite Hi in *; lia].
Qed.

Lemma process_total p data : bytes_ok (j_token (jp_core p)) -> bytes_ok data ->
  exists p1 e, process p data = Some (p1, e) /\ (e = NO_ERROR -> bytes_ok (j_token (jp_core p1))).
Proof using.
  intros Ht Hd. rewrite process_eq. destruct (skip_bom p data) as [[err pos] b]. case_bool_decide as He; [|do 2 eexists; split; [reflexivity|contradiction]].
  destruct (process_loop_total (jp_flags p) data (process_fuel data pos) Hd (jp_core p) 0 pos Ht) as (r & -> & Hr).
  { unfold measure, process_fuel. destruct (in_token _); lia. }
  destruct r as [[c ts]|[[c e] q]]; cbn; do 2 eexists; (split; [reflexivity|]).
  - intros _. cbn. unfold pend. destruct (in_token _); [|exact Hr]. apply Forall_app_2; [exact Hr|]. apply Forall_take, Forall_drop, Hd.
  - intros ->. contradiction.
Qed.

(** *** Any number of pieces *)

(** A client that stops at the first error. *)
Fixpoint feed (p : JsonParser) (chunks : list (list Z)) : option (JsonParser * JsonError) :=
  match chunks with
  | [] => Some (p, NO_ERROR)
  | d :: chunks => '(p, e) ← process p d; if bool_decide (e = NO_ERROR) then feed p chunks else Some (p, e)
  end.

Lemma process_nil p : json_ok p -> process p [] = Some (p, NO_ERROR).
Proof using.
  intros [Ht _]. rewrite process_eq. unfold skip_bom. rewrite Nat.min_0_r.
  assert ((if (jp_totalProcessed p <? 3) && (0 <=? jp_bomPos p) then bom_loop 0 [] 0 (jp_bomPos p) else (NO_ERROR, O, jp_bomPos p)) =
    (NO_ERROR, O, jp_bomPos p)) as -> by (destruct (_ && _); reflexivity).
  cbn. do 2 f_equal. destruct p as [fl c b t ep]. cbn in *. unfold wrap. rewrite Z.add_0_r, Z.mod_small by lia. f_equal.
  unfold pend, append_token. destruct (in_token _); [|reflexivity]. rewrite slice_none, app_nil_r by lia. apply set_token_same.
Qed.

Lemma feed_process p chunks :
  json_ok p -> bytes_ok (j_token (jp_core p)) -> Forall bytes_ok chunks ->
  jp_totalProcessed p + Z.of_nat (length (concat chunks)) < 2 ^ 64 ->
  exists p1 p2 e, feed p chunks = Some (p1, e) /\ process p (concat chunks) = Some (p2, e) /\
    j_a (jp_core p1) = j_a (jp_core p2) /\ jp_errorPos p1 = jp_errorPos p2 /\ (e = NO_ERROR -> p1 = p2).
Proof using.
  revert p. induction chunks as [|d chunks IH]; intros p Hok Ht Hb Hn; cbn [feed concat] in *.
  { exists p, p, NO_ERROR. split; [reflexivity|]. split; [apply process_nil, Hok|]. auto. }
  apply Forall_cons in Hb as [Hd Hb]. pose proof (process_app p d (concat chunks) Hok Hn) as Ha. rewrite length_app in Hn.
  destruct (process_total p d Ht Hd) as (p1 & e & E1 & Ht1). rewrite E1 in *. cbn [mbind option_bind] in *.
  case_bool_decide as He.
  - subst e. destruct (process_ok p d p1 Hok ltac:(lia) E1) as [Hok1 Htot].
    destruct (IH p1 Hok1 (Ht1 eq_refl) Hb ltac:(lia)) as (q1 & q2 & e & Hf & Hp & H1 & H2 & H3). rewrite Hp in Ha.
    destruct (process p (d ++ concat chunks)) as [[q e']|] eqn:Eq; [|contradiction]. destruct Ha as (-> & A1 & A2 & A3).
    exists q1, q, e. split; [exact Hf|]. split; [reflexivity|]. split; [congruence|]. split; [congruence|]. intros ->.
    rewrite H3, A3 by reflexivity. reflexivity.
  - destruct (process p (d ++ concat chunks)) as [[q e']|] eqn:Eq; [|contradiction]. destruct Ha as (-> & A1 & A2 & A3).
    exists p1, q, e. split; [reflexivity|]. split; [reflexivity|]. split; [congruence|]. split; [congruence|contradiction].
Qed.

(** C15.  However a text is cut into pieces, the parser makes the same calls and ends with the
    same error at the same position as on the whole text, or without one in the same state; it
    always returns. *)
Theorem process_pieces p chunks :
  json_ok p -> bytes_ok (j_token (jp_core p)) -> Forall bytes_ok chunks ->
  jp_totalProcessed p + Z.of_nat (length (concat chunks)) < 2 ^ 64 ->
  exists p1 p2 e, feed p chunks = Some (p1, e) /\ process p (concat chunks) = Some (p2, e) /\
    j_a (jp_core p1) = j_a (jp_core p2) /\ jp_errorPos p1 = jp_errorPos p2 /\ (e = NO_ERROR -> p1 = p2).
Proof using. apply feed_process. Qed.

Lemma new_ok a : json_ok (JsonParser_new a) /\ bytes_ok (j_token (jp_core (JsonParser_new a))).
Proof using. split; [|constructor]. split; cbn; [lia|]. right. left. split; [lia|]. split; reflexivity. Qed.
(** *** Characters one at a time *)

(** The parser after some characters without an error. *)
Definition run (flags : Z) (c : Core) (data : list Z) : option Core :=
  match process_loop (process_fuel data 0) flags data c 0 0 with
  | Some (inl (c', ts)) => Some (pend c' data ts (length data))
  | _ => None
  end.

Lemma run_nil flags c : run flags c [] = Some c.
Proof using.
  unfold run. cbn. f_equal. unfold pend. destruct (in_token _); [|reflexivity]. unfold append_token.
  rewrite slice_none, app_nil_r by lia. apply set_token_same.
Qed.

Lemma run_app flags c d1 d2 : run flags c (d1 ++ d2) = (run flags c d1 ≫= fun c => run flags c d2).
Proof using.
  unfold run. pose proof (process_loop_prefix flags d1 d2 (process_fuel (d1 ++ d2) 0) (process_fuel d1 0) (process_fuel d2 0)
    c 0 0 ltac:(lia) ltac:(lia)) as H. unfold measure, process_fuel in *. rewrite length_app in *.
  destruct (process_loop (2 * (length d1 - 0) + 2) _ _ _ _ _) as [[[c' ts]|[[c' e] q]]|].
  - destruct H as [-> Hts]; try (first [lia|destruct (in_token _); lia]). cbn [mbind option_bind].
    pose proof (process_loop_suffix flags d1 d2 (2 * (length d2 - 0) + 2) c' ts 0 (pend c' d1 ts (length d1)) 0) as Hs.
    rewrite Nat.add_0_r in Hs. specialize (Hs (pend_restart c' d1 d2 ts) Hts ltac:(lia) ltac:(lia)).
    destruct (process_loop _ _ (d1 ++ d2) _ _ _) as [[[c1 ts1]|[[c1 e1] q1]]|], (process_loop _ _ d2 _ _ _) as [[[c2 ts2]|[[c2 e2] q2]]|];
      try contradiction; try reflexivity. cbn in Hs. rewrite length_app in Hs. rewrite Hs. reflexivity.
  - rewrite H by (first [lia|destruct (in_token _); lia]). reflexivity.
  - rewrite H by (first [lia|destruct (in_token _); lia]). reflexivity.
Qed.

Lemma run_cons flags c x d : run flags c (x :: d) = (run flags c [x] ≫= fun c => run flags c d).
Proof using. apply (run_app flags c [x] d). Qed.

Lemma append_none c data : append_token c data 0 0 = c.
Proof using. unfold append_token. rewrite slice_none, app_nil_r by lia. apply set_token_same. Qed.

Lemma run_one flags c x : run flags c [x] =
  match char_step flags c c x with
  | Some (Advance c1) => Some (if in_token (j_state c1) then set_token c1 (j_token c1 ++ [x]) else c1)
  | Some (Start c1 off) => Some (set_token c1 (j_token c1 ++ drop off [x]))
  | Some (Finish c1 adv) => if (adv =? 0)%nat then run flags c1 [x] else Some c1
  | _ => None
  end.
Proof using.
  assert (forall f c1 ts, process_loop (S f) flags [x] c1 ts 1 = Some (inl (c1, ts))) as Hend by reflexivity.
  unfold run at 1. change (process_fuel [x] 0) with (S 3).
  assert (process_loop (S 3) flags [x] c 0 0 =
    (o ← char_step flags c c x;
     match o with
     | Advance c => process_loop 3 flags [x] c 0 1
     | Start c off => process_loop 3 flags [x] c off 1
     | Finish c adv => process_loop 3 flags [x] c 0 adv
     | Fail c err => Some (inr (c, err, O))
     end)) as -> by (rewrite <- (append_none c [x]) at 3; reflexivity).
  destruct (char_step flags c c x) as [o|] eqn:Ho; [|reflexivity]. apply char_step_cases in Ho. cbn [mbind option_bind].
  destruct o as [c1|c1 off|c1 adv|c1 e]; [| | |reflexivity].
  - rewrite Hend. reflexivity.
  - rewrite Hend. unfold pend. rewrite (proj1 (proj2 Ho)). destruct Ho as (_ & _ & Hoff & _).
    destruct off as [|[|off]]; [reflexivity|reflexivity|lia].
  - destruct Ho as (_ & Hw & Hn). destruct adv as [|[|adv]]; [| |lia].
    + unfold run. change (process_fuel [x] 0) with (S 3).
      rewrite (process_loop_fuel flags [x] 3 (S 3)) by (unfold measure; rewrite Hw; cbn; lia). reflexivity.
    + rewrite Hend. unfold pend. rewrite Hw. reflexivity.
Qed.

(** A call of [process] past the byte order mark. *)
Lemma process_run p data c : jp_bomPos p = -1 -> run (jp_flags p) (jp_core p) data = Some c ->
  process p data = Some (mkJson (jp_flags p) c (-1) (u64 (jp_totalProcessed p + Z.of_nat (length data))) (jp_errorPos p), NO_ERROR).
Proof using.
  intros Hb Hr. rewrite process_eq. unfold skip_bom. rewrite Hb, andb_false_r. rewrite bool_decide_true by reflexivity. unfold run in Hr.
  destruct (process_loop _ _ _ _ _ _) as [[[c' ts]|]|]; try discriminate. injection Hr as <-. reflexivity.
Qed.

(** The first call, on a text whose first byte leads to no error and so is not that of a byte
    order mark. *)
Lemma process_start p data c : jp_bomPos p = 0 -> jp_totalProcessed p = 0 -> j_state (jp_core p) = STATE_WHITESPACE ->
  run (jp_flags p) (jp_core p) data = Some c ->
  exists b, process p data = Some (mkJson (jp_flags p) c b (u64 (Z.of_nat (length data))) (jp_errorPos p), NO_ERROR) /\ b <= 0.
Proof using.
  intros Hb Ht Hw Hr.
  assert (exists b, skip_bom p data = (NO_ERROR, O, b) /\ b <= 0) as (b & Hs & Hb0).
  { unfold skip_bom. rewrite Hb, Ht. change ((0 <? 3) && (0 <=? 0)) with true. cbv iota.
    destruct data as [|x data]; [exists 0; split; [reflexivity|lia]|].
    change (Z.to_nat (3 - 0)) with 3%nat. cbn [length Nat.min bom_loop]. change (nth (Z.to_nat 0) BOM 0) with 0xEF.
    change ((x :: data) !!! O) with x. destruct (Z.eqb_spec 0xEF x) as [<- |Hx]; [|exists (-1); split; [reflexivity|lia]].
    rewrite run_cons, run_one in Hr. unfold char_step in Hr. rewrite Hw in Hr. discriminate. }
  exists b. split; [|exact Hb0]. rewrite process_eq, Hs, bool_decide_true by reflexivity. unfold run in Hr.
  destruct (process_loop _ _ _ _ _ _) as [[[c' ts]|]|]; try discriminate. injection Hr as <-. cbn. rewrite Ht. reflexivity.
Qed.
End Parser.

(** *** A client that records the calls *)

Inductive Event :=
| Value (value : list Z) (type : JsonType) | Named (key value : list Z) (type : JsonType)
| EndOf (type : JsonType) | Comment (text : list Z).

Definition log_named (l : list Event) k v t : list Event * bool := (l ++ [Named k v t], true).
Definition log_value (l : list Event) v t : list Event * bool := (l ++ [Value v t], true).
Definition log_end (l : list Event) t : list Event * bool := (l ++ [EndOf t], true).
Definition log_comment (l : list Event) t : list Event * bool := (l ++ [Comment t], true).

Abbreviation log_process := (process log_named log_value log_end log_comment).
Abbreviation log_feed := (feed log_named log_value log_end log_comment).

(** The text [{"a":[1]}] in two pieces. *)
Lemma process_pieces_witness : exists p1 p2,
  log_feed (JsonParser_new []) [[123; 34]; [97; 34; 58; 91; 49; 93; 125]] = Some (p1, NO_ERROR) /\
  log_process (JsonParser_new []) [123; 34; 97; 34; 58; 91; 49; 93; 125] = Some (p2, NO_ERROR) /\ p1 = p2.
Proof.
  destruct (process_pieces log_named log_value log_end log_comment (JsonParser_new []) [[123; 34]; [97; 34; 58; 91; 49; 93; 125]])
    as (p1 & p2 & e & H1 & H2 & _ & _ & H).
  - apply new_ok.
  - apply new_ok.
  - repeat constructor; lia.
  - reflexivity.
  - cbn [concat app] in H2. exists p1, p2. assert (e = NO_ERROR) as ->.
    { vm_compute in H2. injection H2 as _ <-. reflexivity. }
    split; [exact H1|]. split; [exact H2|]. apply H. reflexivity.
Defined.
