(* ===== verification/JsonFormatter.v ===== *)
(** * Writing JSON texts: [client/JsonFormatter.h], [client/JsonFormatter.cpp]

    The text of a value that [JsonFormatter] writes is read back by [JsonParser].  Closing a
    structure that was not opened would ask for a negative number of tabs ([None]). *)

From S2P Require Import Prelude StrUtil Text JsonString JsonParser.

(** ** The formatter *)

Record JsonFormatter := mkFormatter {
  jf_s : list Z; jf_indent : nat; jf_expectValue : bool; jf_wantComma : bool; jf_decorate : bool }.

Definition JsonFormatter_new : JsonFormatter := mkFormatter [] 0 false false true.
Definition setDecorate (f : JsonFormatter) (flag : bool) : JsonFormatter :=
  mkFormatter (jf_s f) (jf_indent f) (jf_expectValue f) (jf_wantComma f) flag.

Definition tabs (n : nat) : list Z := replicate n 9.

Definition open (f : JsonFormatter) (c : Z) : JsonFormatter :=
  let s := jf_s f ++ (if jf_wantComma f then [44] else []) in
  if jf_decorate f then
    let s := s ++ (match s with [] => [] | _ => [10] end) in
    mkFormatter (s ++ tabs (jf_indent f) ++ [c]) (S (jf_indent f)) false false (jf_decorate f)
  else mkFormatter (s ++ [c]) (jf_indent f) false false (jf_decorate f).

Definition close (f : JsonFormatter) (c : Z) : option JsonFormatter :=
  if jf_decorate f then
    match jf_indent f with
    | O => None
    | S indent => Some (mkFormatter (jf_s f ++ [10] ++ tabs indent ++ [c]) indent (jf_expectValue f) true (jf_decorate f))
    end
  else Some (mkFormatter (jf_s f ++ [c]) (jf_indent f) (jf_expectValue f) true (jf_decorate f)).

Definition appendKey (f : JsonFormatter) (key : list Z) : JsonFormatter :=
  let s := jf_s f ++ (if jf_wantComma f then [44] else []) in
  let s := if jf_decorate f then s ++ [10] ++ tabs (jf_indent f) ++ [34] ++ key ++ [34; 32; 58; 32]
           else s ++ [34] ++ key ++ [34; 58] in
  mkFormatter s (jf_indent f) true false (jf_decorate f).

Definition appendValue (f : JsonFormatter) : JsonFormatter :=
  let s := if jf_wantComma f then jf_s f ++ (if jf_decorate f then [44; 32] else [44])
           else if jf_decorate f && negb (jf_expectValue f) then jf_s f ++ [10] ++ tabs (jf_indent f) else jf_s f in
  mkFormatter s (jf_indent f) false true (jf_decorate f).

Definition append (f : JsonFormatter) (text : list Z) : JsonFormatter :=
  mkFormatter (jf_s f ++ text) (jf_indent f) (jf_expectValue f) (jf_wantComma f) (jf_decorate f).

(** A digit of [%04x]. *)
Definition hex_digit (d : Z) : Z := if d <? 10 then 48 + d else 97 + (d - 10).

(** What is written for a character. *)
Definition escape_char (x : Z) : list Z :=
  if (x <? 32) || (x =? 92) || (x =? 34) then
    92 :: (if (x =? 92) || (x =? 34) then [x]
           else if x =? 8 then [98]
           else if x =? 12 then [102]
           else if x =? 10 then [110]
           else if x =? 13 then [114]
           else if x =? 9 then [116]
           else [117; 48; 48; hex_digit (x / 16); hex_digit (x mod 16)])
  else [x].

(** The loop of [appendStringValue] from position [i] on: the characters since [lastAppended]
    are appended before the next escape and at the end. *)
Fixpoint escape_loop (val : list Z) (lastAppended i : nat) (rest : list Z) : list Z :=
  match rest with
  | [] => drop lastAppended val
  | x :: rest =>
      if (x <? 32) || (x =? 92) || (x =? 34)
      then take (i - lastAppended) (drop lastAppended val) ++ escape_char x ++ escape_loop val (i + 1) (i + 1) rest
      else escape_loop val lastAppended (i + 1) rest
  end.

Definition appendStringValue (f : JsonFormatter) (val : list Z) (escape : bool) : JsonFormatter :=
  append (appendValue f) ([34] ++ (if escape then escape_loop val 0 0 val else val) ++ [34]).

Definition appendIntValue (f : JsonFormatter) (val : Z) : option JsonFormatter :=
  s ← intToString val; Some (append (appendValue f) s).
Definition appendInt64Value (f : JsonFormatter) (val : Z) : option JsonFormatter :=
  s ← intToString val; Some (append (appendValue f) s).
Definition appendBoolValue (f : JsonFormatter) (val : bool) : JsonFormatter :=
  append (appendValue f) (if val then [116; 114; 117; 101] else [102; 97; 108; 115; 101]).

(** ** Values *)

#[warnings="-register-all"]
Inductive Json :=
| JString (s : list Z) | JInt (n : Z) | JBool (b : bool) | JArray (l : list Json) | JObject (l : list (list Z * Json)).

(** A client writes a value by calls for its parts. *)
Fixpoint write_json (f : JsonFormatter) (v : Json) : option JsonFormatter :=
  match v with
  | JString s => Some (appendStringValue f s true)
  | JInt n => appendInt64Value f n
  | JBool b => Some (appendBoolValue f b)
  | JArray l =>
      f ← (fix items (f : JsonFormatter) (l : list Json) : option JsonFormatter :=
             match l with [] => Some f | v :: l => f ← write_json f v; items f l end) (open f 91) l;
      close f 93
  | JObject l =>
      f ← (fix members (f : JsonFormatter) (l : list (list Z * Json)) : option JsonFormatter :=
             match l with [] => Some f | (k, v) :: l => f ← write_json (appendKey f k) v; members f l end) (open f 123) l;
      close f 125
  end.

(** The calls that a parser makes for it. *)
Definition event (k : option (list Z)) (value : list Z) (type : JsonType) : Event :=
  match k with Some k => Named k value type | None => Value value type end.

Fixpoint events (k : option (list Z)) (v : Json) : list Event :=
  match v with
  | JString s => [event k s TYPE_STRING]
  | JInt n => [event k (default [] (intToString n)) TYPE_INT]
  | JBool b => [event k (if b then [116; 114; 117; 101] else [102; 97; 108; 115; 101]) TYPE_BOOL]
  | JArray l =>
      event k [] TYPE_ARRAY ::
      (fix items (l : list Json) : list Event := match l with [] => [] | v :: l => events None v ++ items l end) l ++ [EndOf TYPE_ARRAY]
  | JObject l =>
      event k [] TYPE_OBJECT ::
      (fix members (l : list (list Z * Json)) : list Event := match l with [] => [] | (k, v) :: l => events (Some k) v ++ members l end) l ++
      [EndOf TYPE_OBJECT]
  end.

Definition sample_json : Json :=
  JObject [([110], JString [97; 34; 10; 1]); ([120], JArray [JInt (-120); JBool true; JArray []; JInt 0]); ([98], JBool false)].

Definition sample_text (decorate : bool) : list Z :=
  match write_json (setDecorate JsonFormatter_new decorate) sample_json with Some f => jf_s f | None => [] end.

(** The calls made for a text in pieces that is read without an error to its end. *)
Definition read_json (flags : Z) (chunks : list (list Z)) : option (list Event) :=
  match log_feed (setFlags (JsonParser_new []) flags) chunks with
  | Some (p, NO_ERROR) =>
      match finish log_named log_value p with
      | Some (p, NO_ERROR) => Some (j_a (jp_core p))
      | _ => None
      end
  | _ => None
  end.

Example sample_read : read_json FLAG_VALIDATE_UTF8 [sample_text true] = Some (events None sample_json) /\
  read_json FLAG_STRICT_NUMBER_CHECKS [sample_text false] = Some (events None sample_json).
Proof. split; vm_compute; reflexivity. Qed.

(** ** The parser on the parts of a text *)

Section Reading.
Variable flags : Z.

Abbreviation lrun := (run log_named log_value log_end log_comment flags).
Abbreviation LCore := (@Core (list Event)).

Definition has_key (k : option (list Z)) : bool := match k with Some _ => true | None => false end.

(** The parser between tokens; in a token. *)
Definition at_ws st fl e k found a : LCore := mkCore st STATE_WHITESPACE fl e [] (default [] k) (has_key k) found a.
Definition in_tok st s fl e tok k found a : LCore := mkCore st s fl e tok (default [] k) (has_key k) found a.

(** What is expected after a value. *)
Definition expect_of (st : list JsonType) : Expect :=
  match st with
  | [] => EXPECT_NOTHING
  | t :: _ => if bool_decide (t = TYPE_OBJECT) then EXPECT_OBJECT_COMMA else EXPECT_ARRAY_COMMA
  end.

(** A value may come. *)
Definition value_ok (e : Expect) (k : option (list Z)) : Prop :=
  match e with
  | EXPECT_ANYTHING | EXPECT_ARRAY_ITEM => k = None
  | EXPECT_KEY_VALUE => k <> None
  | _ => False
  end.

Lemma value_checks st s fl e tok k found a b : value_ok e k -> check_expect (in_tok st s fl e tok k found a) b = NO_ERROR.
Proof using. destruct e; try contradiction; reflexivity. Qed.

Lemma value_checks_ws st fl e k found a b : value_ok e k -> check_expect (at_ws st fl e k found a) b = NO_ERROR.
Proof using. apply (value_checks st STATE_WHITESPACE fl e [] k found a b). Qed.

Lemma run_space st fl e k found a w : forallb isWhiteSpace w = true -> lrun (at_ws st fl e k found a) w = Some (at_ws st fl e k found a).
Proof using.
  induction w as [|x w IH]; intros H; [apply run_nil|]. cbn [forallb] in H. apply andb_prop in H as [Hx Hw].
  rewrite run_cons, run_one. unfold isWhiteSpace in Hx. repeat (apply orb_prop in Hx as [Hx|Hx]); apply Z.eqb_eq in Hx as ->;
    (cbn [char_step at_ws j_state]; change (whitespace_step _ _ _ _ _ _) with (@Advance (list Event) (at_ws st fl e k found a)); apply IH, Hw).
Qed.

Lemma run_comma st fl k found a :
  lrun (at_ws st fl EXPECT_ARRAY_COMMA k found a) [44] = Some (at_ws st STATE_FLAG_COMMA EXPECT_ARRAY_ITEM k found a) /\
  lrun (at_ws st fl EXPECT_OBJECT_COMMA k found a) [44] = Some (at_ws st STATE_FLAG_COMMA EXPECT_KEY_NAME k found a).
Proof using. split; rewrite run_one; reflexivity. Qed.

Lemma run_colon st fl k found a :
  lrun (at_ws st fl EXPECT_COLON k found a) [58] = Some (at_ws st fl EXPECT_KEY_VALUE k found a).
Proof using. rewrite run_one. reflexivity. Qed.

(** *** Strings *)

Lemma run_quote st fl e k found a : value_ok e k \/ e = EXPECT_KEY_NAME ->
  lrun (at_ws st fl e k found a) [34] = Some (in_tok st STATE_STRING 0 e [] k found a).
Proof using.
  intros H. rewrite run_one. cbn [char_step at_ws j_state]. unfold whitespace_step. change (34 =? 34) with true. cbv iota.
  assert (check_expect (at_ws st fl e k found a) true = NO_ERROR) as Hc.
  { destruct H as [H| ->]; [|reflexivity]. apply value_checks_ws, H. }
  unfold unless. fold (at_ws st fl e k found a). rewrite Hc, bool_decide_true by reflexivity. reflexivity.
Qed.

Definition plain (x : Z) : Prop := 32 <= x /\ x <> 34 /\ x <> 92.

(** One character of a string: [fl] is [STATE_FLAG_QUOTE] after a backslash. *)
Lemma run_string_char st fl e tok k found a x : 32 <= x -> (x = 34 -> fl = STATE_FLAG_QUOTE) -> fl = 0 \/ fl = STATE_FLAG_QUOTE ->
  lrun (in_tok st STATE_STRING fl e tok k found a) [x] =
  Some (in_tok st STATE_STRING (if (x =? 92) && (fl =? 0) then STATE_FLAG_QUOTE else 0) e (tok ++ [x]) k found a).
Proof using.
  intros H1 H2 Hfl. rewrite run_one.
  assert (char_step log_named log_value log_end log_comment flags (in_tok st STATE_STRING fl e tok k found a) (in_tok st STATE_STRING fl e tok k found a) x =
    Some (Advance (in_tok st STATE_STRING (if (x =? 92) && (fl =? 0) then STATE_FLAG_QUOTE else 0) e tok k found a))) as ->; [|reflexivity].
  unfold char_step. cbn [in_tok j_state]. unfold string_step. cbn [j_flags].
  destruct (x =? 34) eqn:E34; zb.
  - rewrite (H2 E34). subst x. reflexivity.
  - replace (x <? 0x20) with false by lia. destruct (x =? 92), Hfl as [-> | ->]; reflexivity.
Qed.

Ltac side := first [lia|intros; exfalso; lia|auto].

Lemma run_plain st e tok k found a s : Forall plain s ->
  lrun (in_tok st STATE_STRING 0 e tok k found a) s = Some (in_tok st STATE_STRING 0 e (tok ++ s) k found a).
Proof using.
  intros Hs. revert tok. induction Hs as [|x s (H1 & H2 & H3) _ IH]; intros tok; [rewrite run_nil, app_nil_r; reflexivity|].
  rewrite run_cons, run_string_char by side. cbn [mbind option_bind]. replace (x =? 92) with false by lia. cbn [andb].
  rewrite IH, <- app_assoc. reflexivity.
Qed.

Lemma run_escaped st e tok k found a s x r : Forall plain r -> 32 <= x -> s = 92 :: x :: r ->
  lrun (in_tok st STATE_STRING 0 e tok k found a) s = Some (in_tok st STATE_STRING 0 e (tok ++ s) k found a).
Proof using.
  intros Hr Hx ->. rewrite run_cons, run_string_char by side. cbn [mbind option_bind]. change ((92 =? 92) && (0 =? 0)) with true. cbv iota.
  rewrite run_cons, run_string_char by side. cbn [mbind option_bind]. change (STATE_FLAG_QUOTE =? 0) with false. rewrite andb_false_r.
  rewrite run_plain by exact Hr. rewrite <- !app_assoc. reflexivity.
Qed.

Lemma hex_digit_ok d : 0 <= d < 16 -> plain (hex_digit d) /\ getHexDigit (hex_digit d) = Some d.
Proof using.
  intros Hd. assert (forallb (fun d => (32 <=? hex_digit d) && negb (hex_digit d =? 34) && negb (hex_digit d =? 92) &&
    bool_decide (getHexDigit (hex_digit d) = Some d)) (seqZ 0 16) = true) as H by reflexivity.
  apply (forallb_seqZ _ _ d) in H; [|exact Hd]. cbv beta in H. zb. apply bool_decide_eq_true_1 in H0. split; [|assumption]. unfold plain. lia.
Qed.

Lemma run_escape_char st e tok k found a x : is_byte x ->
  lrun (in_tok st STATE_STRING 0 e tok k found a) (escape_char x) =
  Some (in_tok st STATE_STRING 0 e (tok ++ escape_char x) k found a).
Proof using.
  intros Hx. unfold is_byte in Hx. unfold escape_char. case_if.
  - destruct ((x =? 92) || (x =? 34)) eqn:E1.
    { eapply run_escaped; [| |reflexivity]; [constructor|]. apply orb_prop in E1 as [E1|E1]; zb; lia. }
    repeat (case_if; [eapply run_escaped; [| |reflexivity]; [constructor|lia]|]).
    eapply run_escaped; [| |reflexivity]; [|lia]. pose proof (Z.mod_pos_bound x 16 ltac:(lia)).
    assert (0 <= x / 16 < 16) by (split; [apply Z.div_pos; lia|apply Z.div_lt_upper_bound; lia]).
    constructor; [unfold plain; lia|]. constructor; [unfold plain; lia|].
    constructor; [apply hex_digit_ok; lia|]. constructor; [apply hex_digit_ok; lia|constructor].
  - apply run_plain. constructor; [unfold plain; lia|constructor].
Qed.

(** The text of a string and its characters. *)
Definition escaped (s : list Z) : list Z := concat (map escape_char s).

Lemma run_body st e tok k found a s : bytes_ok s ->
  lrun (in_tok st STATE_STRING 0 e tok k found a) (escaped s) = Some (in_tok st STATE_STRING 0 e (tok ++ escaped s) k found a).
Proof using.
  intros Hs. revert tok. induction Hs as [|x s Hx _ IH]; intros tok; unfold escaped; cbn [map concat]; [rewrite run_nil, app_nil_r; reflexivity|].
  rewrite run_app, run_escape_char by exact Hx. cbn [mbind option_bind]. rewrite IH, <- app_assoc. reflexivity.
Qed.
End Reading.

(** [escape_loop] writes the escapes of the characters. *)
Lemma escape_loop_ok val last i rest : drop i val = rest -> (last <= i)%nat ->
  escape_loop val last i rest = take (i - last) (drop last val) ++ escaped rest.
Proof.
  revert last i. induction rest as [|x rest IH]; intros last i Hd Hi; cbn [escape_loop].
  - unfold escaped. cbn. rewrite app_nil_r. symmetry. apply take_ge. rewrite length_drop.
    apply (f_equal length) in Hd. rewrite length_drop in Hd. cbn in Hd. lia.
  - assert (drop (i + 1) val = rest) as Hd' by (rewrite <- drop_drop, Hd; reflexivity).
    assert (val !! i = Some x) as Hx by (rewrite <- (Nat.add_0_r i), <- lookup_drop, Hd; reflexivity).
    unfold escaped. cbn [map concat]. fold (escaped rest). case_if.
    + rewrite IH by (assumption || lia). rewrite Nat.sub_diag. reflexivity.
    + rewrite IH by (assumption || lia). replace (i + 1 - last)%nat with (S (i - last)) by lia.
      rewrite (take_S_r _ _ x) by (rewrite lookup_drop; replace (last + (i - last))%nat with i by lia; exact Hx).
      unfold escape_char. match goal with |- context [if ?b then _ :: _ else _] => replace b with false end.
      * rewrite <- app_assoc. reflexivity.
      * repeat match goal with H : _ /\ _ |- _ => destruct H end. zb. symmetry. repeat (apply orb_false_intro); lia.
Qed.

Lemma split_escape_char x t : is_byte x -> (x <? 32) || (x =? 92) || (x =? 34) = true ->
  split_escape (escape_char x ++ t) = Some (x, t) /\ exists r, escape_char x = 92 :: r.
Proof.
  intros Hx Hb. unfold is_byte in Hx. unfold escape_char. rewrite Hb. split; [|eexists; reflexivity].
  destruct ((x =? 92) || (x =? 34)) eqn:E1.
  { apply orb_prop in E1 as [E1|E1]; zb; subst; reflexivity. }
  apply orb_false_elim in E1 as [E1 E2]. zb. assert (0 <= x < 32) as Hr by (repeat match goal with H : _ \/ _ |- _ => destruct H end; zb; lia).
  repeat (case_if; [subst; reflexivity|]).
  assert (forall c1 c2 d1 d2, getHexDigit c1 = Some d1 -> getHexDigit c2 = Some d2 ->
    getHexChar 48 48 c1 c2 = Some (Z.lor (Z.shiftl d1 4) d2)) as Hh.
  { intros c1 c2 d1 d2 H1 H2. unfold getHexChar. rewrite H1, H2. reflexivity. }
  pose proof (Z.mod_pos_bound x 16 ltac:(lia)). assert (0 <= x / 16 < 16) by (split; [apply Z.div_pos; lia|apply Z.div_lt_upper_bound; lia]).
  cbn [app split_escape]. change (negb (92 =? 92)) with false. change (117 =? 117) with true. cbv iota.
  rewrite (Hh _ _ (x / 16) (x mod 16)) by (apply hex_digit_ok; lia). cbn [mbind option_bind].
  rewrite lor_shiftl by lia. change (2 ^ 4) with 16. pose proof (Z.div_mod x 16 ltac:(lia)). do 2 f_equal. lia.
Qed.

Lemma unesc_escaped s : bytes_ok s -> unesc (escaped s) = Some s.
Proof.
  induction 1 as [|x s Hx _ IH]; [reflexivity|]. unfold escaped. cbn [map concat]. fold (escaped s).
  destruct ((x <? 32) || (x =? 92) || (x =? 34)) eqn:Hb.
  - destruct (split_escape_char x (escaped s) Hx Hb) as [Hs (r & Hr)]. rewrite unesc_escape, Hs by (rewrite Hr; exact I).
    cbn [mbind option_bind]. rewrite IH. unfold is_byte in Hx. unfold high_surrogate, low_surrogate.
    replace (0xD800 <=? x) with false by lia. replace (0xDC00 <=? x) with false by lia. cbn [andb mbind option_bind].
    unfold utf8_bytes. replace (x <? 0x80) with true; [reflexivity|].
    symmetry. apply Z.ltb_lt. apply orb_prop in Hb as [Hb|Hb]; [apply orb_prop in Hb as [Hb|Hb]|]; zb; lia.
  - unfold escape_char. rewrite Hb. apply orb_false_elim in Hb as [Hb _]. apply orb_false_elim in Hb as [_ Hb].
    rewrite unesc_plain by (cbn; rewrite Hb; reflexivity). rewrite IH. reflexivity.
Qed.

(** A string that the parser takes. *)
Definition text_ok (flags : Z) (s : list Z) : Prop :=
  bytes_ok s /\ (has flags FLAG_VALIDATE_UTF8 = true -> validateUtf8 s 0 = Some true).

Lemma validate_text flags s : text_ok flags s -> exists b, validateUtf8 s 0 = Some b /\ has flags FLAG_VALIDATE_UTF8 && negb b = false.
Proof.
  intros [Hb Hv]. destruct (utf8ToWide_chars W4 s Hb) as (_ & H & _). destruct (validateUtf8 s 0) as [b|]; [|discriminate].
  exists b. split; [reflexivity|]. destruct (has flags _); [|reflexivity]. specialize (Hv eq_refl). injection Hv as ->. reflexivity.
Qed.

Section Values.
Variable flags : Z.

Abbreviation lrun := (run log_named log_value log_end log_comment flags).

(** The parser after a value. *)
Definition done (st : list JsonType) (a : list Event) : Core := at_ws st 0 (expect_of st) None true a.

Lemma hand_on_log st s fl e tok k found a v type :
  hand_on log_named log_value (in_tok st s fl e tok k found a) v type =
  (mkCore st s fl e tok [] false found (a ++ [event k v type]), true).
Proof using. destruct k; reflexivity. Qed.

(** The closing quote of a value and of a key. *)
Lemma run_end_string st e k found a s : value_ok e k -> text_ok flags s ->
  lrun (in_tok st STATE_STRING 0 e (escaped s) k found a) [34] = Some (done st (a ++ [event k s TYPE_STRING])).
Proof using.
  intros He Hs. rewrite run_one. unfold char_step. unfold in_tok. cbn [j_state]. unfold string_step. change (34 =? 34) with true. cbv iota.
  cbn [j_flags]. change (has 0 STATE_FLAG_QUOTE) with false. cbv iota. unfold handleString. cbn [j_token].
  rewrite unescape_unesc, unesc_escaped by apply Hs. cbn [mbind option_bind].
  destruct (validate_text flags s Hs) as (b & -> & Hb). cbn [mbind option_bind]. rewrite Hb.
  change (set_token _ s) with (in_tok st STATE_STRING 0 e s k found a). cbn [j_expect in_tok].
  rewrite bool_decide_false by (intros ->; exact He). rewrite hand_on_log. reflexivity.
Qed.

Lemma run_end_key st k found a s : text_ok flags s -> Forall plain s ->
  lrun (in_tok st STATE_STRING 0 EXPECT_KEY_NAME s k found a) [34] = Some (at_ws st 0 EXPECT_COLON (Some s) found a).
Proof using.
  intros Hs Hp. rewrite run_one. unfold char_step. unfold in_tok. cbn [j_state]. unfold string_step. change (34 =? 34) with true. cbv iota.
  cbn [j_flags]. change (has 0 STATE_FLAG_QUOTE) with false. cbv iota. unfold handleString. cbn [j_token].
  assert (unesc s = Some s) as Hu.
  { rewrite <- (app_nil_r s) at 1. rewrite unesc_plain; [cbn; rewrite app_nil_r; reflexivity|].
    clear -Hp. induction Hp as [|x s (_ & _ & Hx) _ IH]; [reflexivity|]. cbn. rewrite (proj2 (Z.eqb_neq _ _) Hx), IH. reflexivity. }
  rewrite unescape_unesc, Hu. cbn [mbind option_bind]. destruct (validate_text flags s Hs) as (b & -> & Hb). cbn [mbind option_bind]. rewrite Hb.
  reflexivity.
Qed.

(** *** Numbers and keywords *)

(** A number or keyword ends only with the next character: [c] stands for [c'] when this is
    where the next character, or the end of the text, leads. *)
Definition delim (x : Z) : bool := isWhiteSpace x || (x =? 44) || (x =? 93) || (x =? 125).

Definition core_finish (c : Core) : option (Core * JsonError) :=
  match j_state c with
  | STATE_NUMBER => Some (handleNumber log_named log_value flags c c)
  | STATE_KEYWORD => handleKeyword log_named log_value flags c
  | _ => None
  end.

Definition stands (c c' : Core) : Prop :=
  c = c' \/
  (j_st c = j_st c' /\ (forall x, delim x = true -> lrun c [x] = lrun c' [x]) /\
   exists r, core_finish c = Some (r, NO_ERROR) /\ j_a r = j_a c').

Lemma delim_cases x : delim x = true -> isWhiteSpace x = true \/ x = 44 \/ x = 93 \/ x = 125.
Proof using.
  unfold delim. intros H. apply orb_prop in H as [H|H]; [|zb; auto]. apply orb_prop in H as [H|H]; [|zb; auto].
  apply orb_prop in H as [H|H]; [|zb; auto]. auto.
Qed.

Lemma space_cases x : isWhiteSpace x = true -> x = 32 \/ x = 9 \/ x = 13 \/ x = 10.
Proof using. unfold isWhiteSpace. intros H. repeat (apply orb_prop in H as [H|H]); zb; auto. Qed.

Lemma run_done_space st a x : isWhiteSpace x = true -> lrun (done st a) [x] = Some (done st a).
Proof using. intros H. apply run_space. cbn [forallb]. rewrite H. reflexivity. Qed.

Lemma number_stands st e tok k found a : value_ok e k -> bad_number tok = false ->
  stands (in_tok st STATE_NUMBER 0 e tok k found a) (done st (a ++ [event k tok TYPE_INT])).
Proof using.
  intros He Hb. right. split; [reflexivity|]. set (c := in_tok st STATE_NUMBER 0 e tok k found a).
  assert (exists r, handleNumber log_named log_value flags c c = (r, NO_ERROR) /\
    set_state r STATE_WHITESPACE (j_flags r) = done st (a ++ [event k tok TYPE_INT])) as (r & Hr & Hd).
  { unfold handleNumber. change (wants_digit c) with false. change (j_token c) with tok. rewrite Hb, andb_false_r.
    unfold c. rewrite hand_on_log. eexists. split; [reflexivity|]. reflexivity. }
  split; [|exists r; split; [unfold core_finish; change (j_state c) with STATE_NUMBER; rewrite Hr; reflexivity|]].
  2:{ apply (f_equal j_a) in Hd. exact Hd. }
  intros x Hx. rewrite run_one. unfold char_step. change (j_state c) with STATE_NUMBER. cbv iota.
  assert (forall n, after (handleNumber log_named log_value flags c c) (fun c => Finish (set_state c STATE_WHITESPACE (j_flags c)) n) =
    Finish (done st (a ++ [event k tok TYPE_INT])) n) as Ha.
  { intros n. rewrite Hr. unfold after, unless. cbn [fst snd]. rewrite bool_decide_true by reflexivity. rewrite Hd. reflexivity. }
  unfold number_step. rewrite !Ha.
  apply delim_cases in Hx as [Hx|[-> |[-> | ->]]]; [|reflexivity|reflexivity|reflexivity].
  rewrite run_done_space by exact Hx. apply space_cases in Hx as [-> |[-> |[-> | ->]]]; reflexivity.
Qed.

Lemma keyword_stands st e tok k found a : value_ok e k -> keyword_type tok = Some TYPE_BOOL ->
  stands (in_tok st STATE_KEYWORD 0 e tok k found a) (done st (a ++ [event k tok TYPE_BOOL])).
Proof using.
  intros He Hb. right. split; [reflexivity|]. set (c := in_tok st STATE_KEYWORD 0 e tok k found a).
  assert (exists r, handleKeyword log_named log_value flags c = Some (r, NO_ERROR) /\
    set_state r STATE_WHITESPACE (j_flags r) = done st (a ++ [event k tok TYPE_BOOL])) as (r & Hr & Hd).
  { unfold handleKeyword. change (j_token c) with tok. change (j_expect c) with e.
    assert (validateUtf8 tok 0 = Some true) as ->.
    { unfold keyword_type in Hb. destruct (bool_decide_reflect (tok = [110; 117; 108; 108])); [discriminate|].
      destruct (bool_decide_reflect (tok = [102; 97; 108; 115; 101])) as [->|]; [reflexivity|].
      destruct (bool_decide_reflect (tok = [116; 114; 117; 101])) as [->|]; [reflexivity|discriminate]. }
    cbn [mbind option_bind]. rewrite bool_decide_false by (intros ->; exact He). rewrite Hb. unfold c. rewrite hand_on_log.
    eexists. split; [reflexivity|]. reflexivity. }
  split; [|exists r; split; [unfold core_finish; change (j_state c) with STATE_KEYWORD; rewrite Hr; reflexivity|]].
  2:{ apply (f_equal j_a) in Hd. exact Hd. }
  intros x Hx. rewrite run_one. unfold char_step. change (j_state c) with STATE_KEYWORD. cbv iota. unfold keyword_step. rewrite Hr.
  cbn [mbind option_bind].
  assert (forall n, after (r, NO_ERROR) (fun c => Finish (set_state c STATE_WHITESPACE (j_flags c)) n) =
    Finish (done st (a ++ [event k tok TYPE_BOOL])) n) as Ha.
  { intros n. unfold after, unless. cbn [fst snd]. rewrite bool_decide_true by reflexivity. rewrite Hd. reflexivity. }
  rewrite !Ha. apply delim_cases in Hx as [Hx|[-> |[-> | ->]]]; [|reflexivity|reflexivity|reflexivity].
  rewrite run_done_space by exact Hx. rewrite Hx. reflexivity.
Qed.

Lemma run_digit st fl e k found a x : value_ok e k -> is_digit x = true ->
  lrun (at_ws st fl e k found a) [x] = Some (in_tok st STATE_NUMBER 0 e [x] k found a).
Proof using.
  intros He Hx. rewrite run_one. unfold char_step. cbn [at_ws j_state]. unfold whitespace_step. rewrite Hx. unfold is_digit in Hx. zb.
  replace (x =? 34) with false by lia. replace (x =? 45) with false by lia. cbv iota. cbn [orb]. unfold unless. fold (at_ws st fl e k found a).
  rewrite (value_checks_ws st fl e k found a false He), bool_decide_true by reflexivity. reflexivity.
Qed.

Lemma run_minus st fl e k found a : value_ok e k ->
  lrun (at_ws st fl e k found a) [45] = Some (in_tok st STATE_NUMBER STATE_FLAG_WANT_DIGIT e [45] k found a).
Proof using.
  intros He. rewrite run_one. unfold char_step. cbn [at_ws j_state]. unfold whitespace_step. change (is_digit 45) with false.
  change (45 =? 34) with false. change (45 =? 45) with true. cbv iota. cbn [orb]. unfold unless. fold (at_ws st fl e k found a).
  rewrite (value_checks_ws st fl e k found a false He), bool_decide_true by reflexivity. reflexivity.
Qed.

Lemma run_number st fl e tok k found a x ds : fl = 0 \/ fl = STATE_FLAG_WANT_DIGIT -> forallb is_digit (x :: ds) = true ->
  lrun (in_tok st STATE_NUMBER fl e tok k found a) (x :: ds) = Some (in_tok st STATE_NUMBER 0 e (tok ++ x :: ds) k found a).
Proof using.
  revert fl tok x. induction ds as [|y ds IH]; intros fl tok x Hfl H; cbn [forallb] in H; apply andb_prop in H as [Hx H]; rewrite run_cons.
  all: assert (lrun (in_tok st STATE_NUMBER fl e tok k found a) [x] = Some (in_tok st STATE_NUMBER 0 e (tok ++ [x]) k found a)) as ->
    by (rewrite run_one; unfold char_step; cbn [in_tok j_state]; unfold number_step; rewrite Hx; unfold is_digit in Hx; zb;
        replace (x =? 46) with false by lia; replace ((x =? 101) || (x =? 69)) with false by lia;
        replace ((x =? 43) || (x =? 45)) with false by lia; destruct Hfl as [-> | ->]; reflexivity).
  - apply run_nil.
  - cbn [mbind option_bind]. rewrite IH by auto. rewrite <- app_assoc. reflexivity.
Qed.

Lemma run_keyword st fl e k found a (b : bool) : value_ok e k ->
  let w := if b then [116; 114; 117; 101] else [102; 97; 108; 115; 101] in
  lrun (at_ws st fl e k found a) w = Some (in_tok st STATE_KEYWORD 0 e w k found a).
Proof using.
  intros He. destruct b; cbv zeta iota; rewrite run_cons, run_one; unfold char_step; cbn [at_ws j_state]; unfold whitespace_step;
    (match goal with |- context [if ?x =? 34 then _ else _] => change (x =? 34) with false; change (is_digit x) with false;
       change (x =? 45) with false; change (is_letter x) with true end); cbv iota; cbn [orb]; unfold unless; fold (at_ws st fl e k found a);
    rewrite (value_checks_ws st fl e k found a _ He), bool_decide_true by reflexivity; reflexivity.
Qed.
End Values.

(** *** Values in structures *)

(** The values that [write_json] writes so that they can be read: no key has a character that
    would have to be escaped. *)
Fixpoint fits (flags : Z) (v : Json) : Prop :=
  match v with
  | JString s => text_ok flags s
  | JInt n => - 2 ^ 63 <= n < 2 ^ 63
  | JBool _ => True
  | JArray l => (fix items (l : list Json) : Prop := match l with [] => True | v :: l => fits flags v /\ items l end) l
  | JObject l =>
      (fix members (l : list (list Z * Json)) : Prop :=
         match l with [] => True | (k, v) :: l => (text_ok flags k /\ Forall plain k) /\ fits flags v /\ members l end) l
  end.

Fixpoint depth (v : Json) : nat :=
  match v with
  | JArray l => S ((fix items (l : list Json) : nat := match l with [] => O | v :: l => Nat.max (depth v) (items l) end) l)
  | JObject l => S ((fix members (l : list (list Z * Json)) : nat := match l with [] => O | (k, v) :: l => Nat.max (depth v) (members l) end) l)
  | _ => O
  end.

Lemma Json_induction (P : Json -> Prop) :
  (forall s, P (JString s)) -> (forall n, P (JInt n)) -> (forall b, P (JBool b)) ->
  (forall l, Forall P l -> P (JArray l)) -> (forall l, Forall (fun kv => P (snd kv)) l -> P (JObject l)) -> forall v, P v.
Proof.
  intros Hs Hn Hb Ha Ho. fix IH 1. intros [s|n|b|l|l]; [apply Hs|apply Hn|apply Hb|apply Ha|apply Ho].
  - induction l as [|v l IHl]; constructor; [apply IH|exact IHl].
  - induction l as [|[k v] l IHl]; constructor; [apply IH|exact IHl].
Qed.

Section Structures.
Variable flags : Z.

Abbreviation lrun := (run log_named log_value log_end log_comment flags).
Abbreviation stands := (stands flags).

(** The text between values. *)
Definition sep (f : JsonFormatter) (w : list Z) : list Z := (if jf_wantComma f then [44] else []) ++ w.
Definition comma_flag (fl : Z) : Prop := fl = 0 \/ fl = STATE_FLAG_COMMA.

(** The parser has read what the formatter has written, and a value may come. *)
Definition Ready (f : JsonFormatter) (c : Core) (st : list JsonType) (k : option (list Z)) (a : list Event) : Prop :=
  if jf_wantComma f then k = None /\ (exists st', st = TYPE_ARRAY :: st') /\ stands c (done st a)
  else exists e found, c = at_ws st 0 e k found a /\ value_ok e k.

(** In an object, a key may come. *)
Definition ReadyKey (f : JsonFormatter) (c : Core) (st : list JsonType) (a : list Event) : Prop :=
  if jf_wantComma f then stands c (done (TYPE_OBJECT :: st) a)
  else exists found, c = at_ws (TYPE_OBJECT :: st) 0 EXPECT_KEY_NAME None found a.

Lemma stands_run c c' x r : stands c c' -> delim x = true -> lrun c (x :: r) = lrun c' (x :: r).
Proof using. intros [-> |(_ & H & _)] Hx; [reflexivity|]. rewrite run_cons, (H x Hx), <- run_cons. reflexivity. Qed.

Lemma run_sep f c st k a w : Ready f c st k a -> forallb isWhiteSpace w = true ->
  exists fl e found, lrun c (sep f w) = Some (at_ws st fl e k found a) /\ value_ok e k /\ comma_flag fl.
Proof using.
  unfold Ready, sep. intros H Hw. destruct (jf_wantComma f).
  - destruct H as (-> & (st' & ->) & Hs). exists STATE_FLAG_COMMA, EXPECT_ARRAY_ITEM, true. cbn [app].
    rewrite (stands_run _ _ 44 w Hs eq_refl), run_cons.
    change (done (TYPE_ARRAY :: st') a) with (at_ws (TYPE_ARRAY :: st') 0 EXPECT_ARRAY_COMMA None true a).
    rewrite (proj1 (run_comma _ _ _ _ _ _)). cbn [mbind option_bind]. rewrite run_space by exact Hw. unfold comma_flag. repeat split; auto.
  - destruct H as (e & found & -> & He). exists 0, e, found. cbn [app]. rewrite run_space by exact Hw. unfold comma_flag. auto.
Qed.

Lemma run_key_sep f c st a w : ReadyKey f c st a -> forallb isWhiteSpace w = true ->
  exists fl found, lrun c (sep f w) = Some (at_ws (TYPE_OBJECT :: st) fl EXPECT_KEY_NAME None found a).
Proof using.
  unfold ReadyKey, sep. intros H Hw. destruct (jf_wantComma f).
  - exists STATE_FLAG_COMMA, true. cbn [app]. rewrite (stands_run _ _ 44 w H eq_refl), run_cons.
    change (done (TYPE_OBJECT :: st) a) with (at_ws (TYPE_OBJECT :: st) 0 EXPECT_OBJECT_COMMA None true a).
    rewrite (proj2 (run_comma _ _ _ _ _ _)). cbn [mbind option_bind]. apply run_space, Hw.
  - destruct H as (found & ->). exists 0, found. cbn [app]. apply run_space, Hw.
Qed.

(** The opening and the closing bracket. *)
Lemma run_open st fl e k found a (arr : bool) : value_ok e k -> comma_flag fl -> (length st < 512)%nat ->
  lrun (at_ws st fl e k found a) [if arr then 91 else 123] =
  Some (if arr then at_ws (TYPE_ARRAY :: st) 0 EXPECT_ARRAY_ITEM None found (a ++ [event k [] TYPE_ARRAY])
        else at_ws (TYPE_OBJECT :: st) 0 EXPECT_KEY_NAME None found (a ++ [event k [] TYPE_OBJECT])).
Proof using.
  intros He Hfl Hst. rewrite run_one. unfold char_step. cbn [at_ws j_state]. fold (at_ws st fl e k found a).
  assert (forall x, x = (if arr then 91 else 123) -> whitespace_step log_named log_value log_end flags (at_ws st fl e k found a) x =
    unless (check_expect (at_ws st fl e k found a) false) (at_ws st fl e k found a)
      (after (beginStructure log_named log_value (at_ws st fl e k found a) (if arr then TYPE_ARRAY else TYPE_OBJECT)) Advance)) as ->.
  { intros x ->. destruct arr; reflexivity. }
  2: reflexivity.
  rewrite value_checks_ws by exact He. unfold unless. rewrite bool_decide_true by reflexivity. unfold beginStructure, maxNesting.
  cbn [j_st at_ws]. rewrite (proj2 (Nat.leb_gt 512 (length st)) Hst). fold (at_ws st fl e k found a).
  change (at_ws st fl e k found a) with (in_tok st STATE_WHITESPACE fl e [] k found a). rewrite hand_on_log.
  destruct Hfl as [-> | ->], arr; reflexivity.
Qed.

Definition closes (arr : bool) (e : Expect) : bool :=
  match e with
  | EXPECT_COLON | EXPECT_KEY_VALUE | EXPECT_NOTHING => false
  | EXPECT_OBJECT_COMMA => negb arr
  | EXPECT_ARRAY_COMMA => arr
  | _ => true
  end.

Lemma run_close st e found a (arr : bool) : closes arr e = true ->
  let t := if arr then TYPE_ARRAY else TYPE_OBJECT in
  lrun (at_ws (t :: st) 0 e None found a) [if arr then 93 else 125] = Some (done st (a ++ [EndOf t])).
Proof using. intros H t. rewrite run_one. subst t. destruct arr, e; try discriminate H; reflexivity. Qed.

(** *** What the formatter appends *)

Lemma tabs_space n : forallb isWhiteSpace (tabs n) = true.
Proof using. induction n; [reflexivity|assumption]. Qed.

Lemma newline_space n : forallb isWhiteSpace ([10] ++ tabs n) = true.
Proof using. apply tabs_space. Qed.

Lemma appendValue_text f : exists w, forallb isWhiteSpace w = true /\ jf_s (appendValue f) = jf_s f ++ sep f w.
Proof using.
  unfold appendValue, sep. cbn [jf_s]. destruct (jf_wantComma f), (jf_decorate f); cbn [andb].
  - exists [32]. split; reflexivity.
  - exists []. split; reflexivity.
  - destruct (jf_expectValue f); cbn [negb]; [exists []; split; [reflexivity|rewrite app_nil_r; reflexivity]|].
    exists ([10] ++ tabs (jf_indent f)). split; [apply newline_space|reflexivity].
  - exists []. split; [reflexivity|rewrite app_nil_r; reflexivity].
Qed.

Lemma open_text f x : exists w, forallb isWhiteSpace w = true /\ jf_s (open f x) = jf_s f ++ sep f w ++ [x] /\
  jf_wantComma (open f x) = false.
Proof using.
  unfold open, sep. destruct (jf_decorate f); cbn [jf_s jf_wantComma].
  - set (nl := match jf_s f ++ _ with [] => [] | _ => [10] end). exists (nl ++ tabs (jf_indent f)). split.
    + unfold nl. destruct (jf_s f ++ _); [apply tabs_space|apply newline_space].
    + rewrite <- !app_assoc. auto.
  - exists []. rewrite app_nil_r, <- app_assoc. auto.
Qed.

Lemma close_text f n x : jf_decorate f = true -> jf_indent f = S n ->
  exists w f', forallb isWhiteSpace w = true /\ close f x = Some f' /\ jf_s f' = jf_s f ++ w ++ [x] /\ jf_wantComma f' = true /\
    jf_decorate f' = true /\ jf_indent f' = n.
Proof using.
  intros Hd Hi. unfold close. rewrite Hd, Hi. exists ([10] ++ tabs n). eexists. split; [apply newline_space|]. split; [reflexivity|]. auto.
Qed.

(** What does not change while a value is written, and the value is read. *)
Definition same_place (f f' : JsonFormatter) : Prop := jf_decorate f' = jf_decorate f /\ (jf_decorate f = true -> jf_indent f' = jf_indent f).

Definition reads_back (v : Json) : Prop := forall f c st k a,
  fits flags v -> (length st + depth v <= 512)%nat -> Ready f c st k a ->
  exists f' t c', write_json f v = Some f' /\ same_place f f' /\ jf_wantComma f' = true /\ jf_s f' = jf_s f ++ t /\
    lrun c t = Some c' /\ stands c' (done st (a ++ events k v)).

(** The leaves: the text of the separator and of the value. *)
Lemma leaf_reads f c st k a body l : Ready f c st k a ->
  (forall fl e found, value_ok e k -> exists c', lrun (at_ws st fl e k found a) body = Some c' /\ stands c' (done st (a ++ l))) ->
  exists f' t c', Some (append (appendValue f) body) = Some f' /\ same_place f f' /\ jf_wantComma f' = true /\ jf_s f' = jf_s f ++ t /\
    lrun c t = Some c' /\ stands c' (done st (a ++ l)).
Proof using.
  intros Hr Hb. destruct (appendValue_text f) as (w & Hw & Ht). destruct (run_sep f c st k a w Hr Hw) as (fl & e & found & H1 & H2 & _).
  destruct (Hb fl e found H2) as (c1 & H3 & H4). exists (append (appendValue f) body), (sep f w ++ body), c1.
  split; [reflexivity|]. split; [split; auto|]. split; [reflexivity|]. split; [cbn [append jf_s]; rewrite Ht, app_assoc; reflexivity|].
  split; [|exact H4]. rewrite run_app, H1. exact H3.
Qed.

Lemma string_reads s : reads_back (JString s).
Proof using.
  intros f c st k a Hs _ Hr. eapply leaf_reads; [exact Hr|]. intros fl e found He. eexists. split; [|left; reflexivity].
  rewrite escape_loop_ok by (reflexivity || lia). change (take (0 - 0) (drop 0 s)) with (@nil Z). cbn [app].
  rewrite run_cons, run_quote by auto. cbn [mbind option_bind].
  rewrite run_app, run_body by apply Hs. cbn [mbind option_bind app]. apply run_end_string; assumption.
Qed.

Lemma bool_reads b : reads_back (JBool b).
Proof using.
  intros f c st k a _ _ Hr. eapply leaf_reads; [exact Hr|]. intros fl e found He. eexists. split; [apply run_keyword, He|].
  apply keyword_stands; [exact He|]. destruct b; reflexivity.
Qed.

Lemma int_reads n : reads_back (JInt n).
Proof using.
  intros f c st k a Hn _ Hr. cbn [fits] in Hn. cbn [write_json]. unfold appendInt64Value.
  destruct (intToString_ok n) as (x & ds & Hi & Hd & _ & Hz); [lia|]. cbn [events]. rewrite Hi. cbn [mbind option_bind default].
  eapply leaf_reads; [exact Hr|]. intros fl e found He. pose proof Hd as Hx. cbn [forallb] in Hx. apply andb_prop in Hx as [Hx Hds].
  eexists. split; [|apply number_stands; [exact He|]].
  - destruct (n <? 0).
    + rewrite run_cons, run_minus by exact He. cbn [mbind option_bind]. apply (run_number flags); auto.
    + rewrite run_cons, run_digit by assumption. cbn [mbind option_bind]. destruct ds as [|y ds]; [apply run_nil|].
      apply (run_number flags); auto.
  - unfold id, is_digit in *. destruct (Z.ltb_spec n 0); cbn [bad_number].
    + assert (x <> 48) by lia. replace (x =? 48) with false by lia. reflexivity.
    + destruct ds as [|y ds]; [reflexivity|]. assert (x <> 48) by (intros ->; destruct (Hz eq_refl); discriminate).
      replace (x =? 48) with false by lia. replace (x =? 45) with false by lia. reflexivity.
Qed.

(** A structure: the bracket, its parts, the other bracket. *)
Definition struct_type (arr : bool) : JsonType := if arr then TYPE_ARRAY else TYPE_OBJECT.
Definition closable (arr : bool) (c : Core) (st : list JsonType) (a : list Event) : Prop :=
  stands c (done (struct_type arr :: st) a) \/
  exists e found, c = at_ws (struct_type arr :: st) 0 e None found a /\ closes arr e = true.

Lemma closable_run arr c st a w : closable arr c st a -> forallb isWhiteSpace w = true ->
  lrun c (w ++ [if arr then 93 else 125]) = Some (done st (a ++ [EndOf (struct_type arr)])).
Proof using.
  intros Hc Hw. assert (exists e found, lrun c (w ++ [if arr then 93 else 125]) =
      lrun (at_ws (struct_type arr :: st) 0 e None found a) (w ++ [if arr then 93 else 125]) /\ closes arr e = true)
    as (e & found & -> & He).
  { destruct Hc as [Hc|(e & found & -> & He)]; [|eauto].
    exists (if arr then EXPECT_ARRAY_COMMA else EXPECT_OBJECT_COMMA), true. split; [|destruct arr; reflexivity].
    replace (at_ws _ _ _ _ _ _) with (done (struct_type arr :: st) a) by (destruct arr; reflexivity).
    destruct w as [|x w]; cbn [app]; apply stands_run; try assumption; [destruct arr; reflexivity|].
    cbn [forallb] in Hw. apply andb_prop in Hw as [Hx _]. unfold delim. rewrite Hx. reflexivity. }
  rewrite run_app, run_space by exact Hw. cbn [mbind option_bind]. apply run_close; assumption.
Qed.

Lemma struct_reads arr body l f c st k a : Ready f c st k a -> (length st < 512)%nat ->
  (forall f1 found a1, jf_wantComma f1 = false ->
    exists f2 t c2, body f1 = Some f2 /\ same_place f1 f2 /\ jf_s f2 = jf_s f1 ++ t /\
      lrun (at_ws (struct_type arr :: st) 0 (if arr then EXPECT_ARRAY_ITEM else EXPECT_KEY_NAME) None found a1) t = Some c2 /\
      closable arr c2 st (a1 ++ l)) ->
  exists f' t c', (f ← body (open f (if arr then 91 else 123)); close f (if arr then 93 else 125)) = Some f' /\ same_place f f' /\
    jf_wantComma f' = true /\ jf_s f' = jf_s f ++ t /\
    lrun c t = Some c' /\ stands c' (done st (a ++ event k [] (struct_type arr) :: l ++ [EndOf (struct_type arr)])).
Proof using.
  intros Hr Hst Hbody. destruct (open_text f (if arr then 91 else 123)) as (w & Hw & Ho & Hc). set (f1 := open f _) in *.
  destruct (run_sep f c st k a w Hr Hw) as (fl & e & found & H1 & H2 & H3).
  destruct (Hbody f1 found (a ++ [event k [] (struct_type arr)]) Hc) as (f2 & t & c2 & -> & [P1 P2] & Ht & Hrun & Hcl).
  cbn [mbind option_bind].
  assert (exists w' f', forallb isWhiteSpace w' = true /\ close f2 (if arr then 93 else 125) = Some f' /\ same_place f f' /\
    jf_wantComma f' = true /\ jf_s f' = jf_s f2 ++ w' ++ [if arr then 93 else 125]) as (w' & f' & Hw' & -> & Hp & Hwc & Hs').
  { unfold f1, open, same_place in *. destruct (jf_decorate f) eqn:Hd; cbn [jf_decorate jf_indent] in *.
    - destruct (close_text f2 (jf_indent f) (if arr then 93 else 125)) as (w' & f' & A1 & A2 & A3 & A4 & A5 & A6); auto.
      exists w', f'. auto.
    - exists []. eexists. unfold close. rewrite P1. split; [reflexivity|]. split; [reflexivity|]. cbn. repeat split; auto. }
  exists f', (sep f w ++ [if arr then 91 else 123] ++ t ++ w' ++ [if arr then 93 else 125]), (done st ((((a ++ [event k [] (struct_type arr)]) ++ l)) ++ [EndOf (struct_type arr)])).
  split; [reflexivity|]. split; [exact Hp|]. split; [exact Hwc|]. split; [rewrite Hs', Ht, Ho, <- !app_assoc; reflexivity|].
  split; [|left; rewrite <- !app_assoc; reflexivity].
  rewrite run_app, H1. cbn [mbind option_bind]. rewrite run_app, run_open by assumption. cbn [mbind option_bind].
  rewrite run_app. replace (if arr then at_ws _ _ _ _ _ _ else _) with
    (at_ws (struct_type arr :: st) 0 (if arr then EXPECT_ARRAY_ITEM else EXPECT_KEY_NAME) None found (a ++ [event k [] (struct_type arr)]))
    by (destruct arr; reflexivity).
  rewrite Hrun. cbn [mbind option_bind]. apply closable_run; assumption.
Qed.

(** The items of an array. *)
Fixpoint write_items (f : JsonFormatter) (l : list Json) : option JsonFormatter :=
  match l with [] => Some f | v :: l => f ← write_json f v; write_items f l end.

Lemma items_read l : Forall reads_back l -> forall f c st a, Ready f c (TYPE_ARRAY :: st) None a ->
  Forall (fun v => fits flags v /\ (length st + S (depth v) <= 512)%nat) l ->
  exists f' t c', write_items f l = Some f' /\ same_place f f' /\ jf_s f' = jf_s f ++ t /\ lrun c t = Some c' /\
    Ready f' c' (TYPE_ARRAY :: st) None (a ++ concat (map (events None) l)).
Proof using.
  induction 1 as [|v l Hv _ IH]; intros f c st a Hr Hf.
  - exists f, [], c. split; [reflexivity|]. split; [split; auto|]. cbn [map concat]. rewrite !app_nil_r. split; [reflexivity|]. split; [apply run_nil|exact Hr].
  - apply Forall_cons in Hf as [[Hfv Hd] Hf].
    destruct (Hv f c (TYPE_ARRAY :: st) None a Hfv ltac:(cbn; lia) Hr) as (f1 & t1 & c1 & W1 & [P1 P2] & Hc & T1 & R1 & S1).
    destruct (IH f1 c1 st (a ++ events None v)) as (f2 & t2 & c2 & W2 & [P3 P4] & T2 & R2 & S2); [|exact Hf|].
    { unfold Ready. rewrite Hc. eauto. }
    exists f2, (t1 ++ t2), c2. cbn [write_items]. rewrite W1. split; [exact W2|]. split; [|split; [|split]].
    + split; [congruence|]. intros Hdec. rewrite P4, P2 by congruence. reflexivity.
    + rewrite T2, T1, app_assoc. reflexivity.
    + rewrite run_app, R1. exact R2.
    + cbn [map concat]. rewrite app_assoc. exact S2.
Qed.

(** A key. *)
Lemma key_reads f c st a key : ReadyKey f c st a -> text_ok flags key -> Forall plain key ->
  exists t c', jf_s (appendKey f key) = jf_s f ++ t /\ lrun c t = Some c' /\ Ready (appendKey f key) c' (TYPE_OBJECT :: st) (Some key) a.
Proof using.
  intros Hr Ht Hp.
  assert (exists w1 w2 w3, forallb isWhiteSpace w1 = true /\ forallb isWhiteSpace w2 = true /\ forallb isWhiteSpace w3 = true /\
    jf_s (appendKey f key) = jf_s f ++ sep f w1 ++ [34] ++ key ++ [34] ++ w2 ++ [58] ++ w3) as (w1 & w2 & w3 & H1 & H2 & H3 & Hs).
  { unfold appendKey, sep. cbn [jf_s]. destruct (jf_decorate f).
    - exists ([10] ++ tabs (jf_indent f)), [32], [32]. split; [apply newline_space|]. split; [reflexivity|]. split; [reflexivity|].
      rewrite <- !app_assoc. reflexivity.
    - exists [], [], []. repeat split. rewrite <- !app_assoc. reflexivity. }
  destruct (run_key_sep f c st a w1 Hr H1) as (fl & found & R1).
  eexists _, (at_ws (TYPE_OBJECT :: st) 0 EXPECT_KEY_VALUE (Some key) found a). split; [exact Hs|]. split.
  - rewrite run_app, R1. cbn [mbind option_bind]. rewrite run_app, run_quote by auto. cbn [mbind option_bind].
    rewrite run_app, run_plain by exact Hp. cbn [mbind option_bind app]. rewrite run_cons, run_end_key by assumption. cbn [mbind option_bind].
    rewrite run_app, run_space by exact H2. cbn [mbind option_bind]. rewrite run_cons, run_colon. cbn [mbind option_bind]. apply run_space, H3.
  - exists EXPECT_KEY_VALUE, found. split; [reflexivity|discriminate].
Qed.

(** The members of an object. *)
Fixpoint write_members (f : JsonFormatter) (l : list (list Z * Json)) : option JsonFormatter :=
  match l with [] => Some f | (k, v) :: l => f ← write_json (appendKey f k) v; write_members f l end.

Lemma members_read l : Forall (fun kv => reads_back (snd kv)) l -> forall f c st a, ReadyKey f c st a ->
  Forall (fun kv => (text_ok flags (fst kv) /\ Forall plain (fst kv)) /\ fits flags (snd kv) /\ (length st + S (depth (snd kv)) <= 512)%nat) l ->
  exists f' t c', write_members f l = Some f' /\ same_place f f' /\ jf_s f' = jf_s f ++ t /\ lrun c t = Some c' /\
    ReadyKey f' c' st (a ++ concat (map (fun kv => events (Some (fst kv)) (snd kv)) l)).
Proof using.
  induction 1 as [|[k v] l Hv _ IH]; intros f c st a Hr Hf.
  - exists f, [], c. split; [reflexivity|]. split; [split; auto|]. cbn [map concat]. rewrite !app_nil_r. split; [reflexivity|]. split; [apply run_nil|exact Hr].
  - apply Forall_cons in Hf as [([Hk1 Hk2] & Hfv & Hd) Hf]. cbn [fst snd] in *.
    destruct (key_reads f c st a k Hr Hk1 Hk2) as (t0 & c0 & T0 & R0 & S0).
    destruct (Hv _ c0 (TYPE_OBJECT :: st) (Some k) a Hfv ltac:(cbn; lia) S0) as (f1 & t1 & c1 & W1 & [P1 P2] & Hc & T1 & R1 & S1).
    destruct (IH f1 c1 st (a ++ events (Some k) v)) as (f2 & t2 & c2 & W2 & [P3 P4] & T2 & R2 & S2); [|exact Hf|].
    { unfold ReadyKey. rewrite Hc. exact S1. }
    exists f2, (t0 ++ t1 ++ t2), c2. cbn [write_members]. rewrite W1. split; [exact W2|]. split; [|split; [|split]].
    + cbn [jf_decorate jf_indent appendKey] in P1, P2. split; [congruence|]. intros Hdec. rewrite P4, P2 by congruence. reflexivity.
    + rewrite T2, T1, T0, <- !app_assoc. reflexivity.
    + rewrite run_app, R0. cbn [mbind option_bind]. rewrite run_app, R1. exact R2.
    + cbn [map concat fst snd]. rewrite app_assoc. exact S2.
Qed.

Lemma array_reads l : Forall reads_back l -> reads_back (JArray l).
Proof using.
  intros Hl f c st k a Hf Hd Hr.
  assert (Forall (fun v => fits flags v /\ (length st + S (depth v) <= 512)%nat) l) as Hall.
  { clear -Hf Hd. induction l as [|v l IH]; constructor; cbn in Hf, Hd; [split; [apply Hf|lia]|].
    apply IH; [apply Hf|cbn; lia]. }
  assert (events k (JArray l) = event k [] TYPE_ARRAY :: concat (map (events None) l) ++ [EndOf TYPE_ARRAY]) as ->.
  { cbn [events]. do 2 f_equal. clear. induction l as [|v l IH]; [reflexivity|]. cbn [map concat]. rewrite <- IH. reflexivity. }
  apply (struct_reads true (fun f => write_items f l)); [exact Hr|cbn in Hd; lia|]. intros f1 found a1 Hc.
  destruct (items_read l Hl f1 (at_ws (TYPE_ARRAY :: st) 0 EXPECT_ARRAY_ITEM None found a1) st a1) as (f2 & t & c2 & H1 & H2 & H3 & H4 & H5).
  { unfold Ready. rewrite Hc. exists EXPECT_ARRAY_ITEM, found. split; reflexivity. }
  { exact Hall. }
  exists f2, t, c2. split; [exact H1|]. split; [exact H2|]. split; [exact H3|]. split; [exact H4|]. unfold Ready in H5.
  destruct (jf_wantComma f2); [left; apply H5|]. destruct H5 as (e & fd & -> & He). right. exists e, fd. split; [reflexivity|].
  destruct e; try contradiction; reflexivity.
Qed.

Lemma object_reads l : Forall (fun kv => reads_back (snd kv)) l -> reads_back (JObject l).
Proof using.
  intros Hl f c st k a Hf Hd Hr.
  assert (Forall (fun kv => (text_ok flags (fst kv) /\ Forall plain (fst kv)) /\ fits flags (snd kv) /\ (length st + S (depth (snd kv)) <= 512)%nat) l) as Hall.
  { clear -Hf Hd. induction l as [|[k v] l IH]; constructor; cbn in Hf, Hd; [split; [apply Hf|split; [apply Hf|cbn; lia]]|].
    apply IH; [apply Hf|cbn; lia]. }
  assert (events k (JObject l) = event k [] TYPE_OBJECT :: concat (map (fun kv => events (Some (fst kv)) (snd kv)) l) ++ [EndOf TYPE_OBJECT]) as ->.
  { cbn [events]. do 2 f_equal. clear. induction l as [|[k v] l IH]; [reflexivity|]. cbn [map concat fst snd]. rewrite <- IH. reflexivity. }
  apply (struct_reads false (fun f => write_members f l)); [exact Hr|cbn in Hd; lia|]. intros f1 found a1 Hc.
  destruct (members_read l Hl f1 (at_ws (TYPE_OBJECT :: st) 0 EXPECT_KEY_NAME None found a1) st a1) as (f2 & t & c2 & H1 & H2 & H3 & H4 & H5).
  { unfold ReadyKey. rewrite Hc. eauto. }
  { exact Hall. }
  exists f2, t, c2. split; [exact H1|]. split; [exact H2|]. split; [exact H3|]. split; [exact H4|]. unfold ReadyKey in H5.
  destruct (jf_wantComma f2); [left; exact H5|]. destruct H5 as (fd & ->). right. exists EXPECT_KEY_NAME, fd. auto.
Qed.

Lemma all_read v : reads_back v.
Proof using.
  induction v using Json_induction; [apply string_reads|apply int_reads|apply bool_reads|apply array_reads; assumption|apply object_reads; assumption].
Qed.
End Structures.

Lemma read_stands flags p c a : jp_bomPos p <= 0 -> jp_flags p = flags -> jp_core p = c -> stands flags c (done [] a) ->
  exists q, finish log_named log_value p = Some (q, NO_ERROR) /\ j_a (jp_core q) = a.
Proof.
  intros Hb Hf Hc Hs. unfold finish. rewrite Hc, Hf. replace (0 <? jp_bomPos p) with false by lia. cbn [andb].
  destruct Hs as [-> |(Hst & _ & r & Hr & Ha)]; [eexists; split; reflexivity|].
  rewrite Hst, bool_decide_false by (unfold core_finish in Hr; destruct (j_state c); discriminate).
  unfold core_finish in Hr. destruct (j_state c); try discriminate Hr; cbn [j_st done at_ws]; rewrite bool_decide_true by reflexivity; cbn [negb].
  - injection Hr as ->. eexists. split; [reflexivity|exact Ha].
  - rewrite Hr. eexists. split; [reflexivity|exact Ha].
Qed.

(** C14.  What is written is read back: the formatter writes any value of at most 512 levels, with
    or without line breaks, and the parser, given the text in any pieces, reports no error
    and makes the calls of that value.  Keys are written as they are and so must not need an
    escape; where the parser checks for UTF-8, strings and keys are UTF-8. *)
Theorem write_read_json flags decorate v :
  fits flags v -> (depth v <= 512)%nat ->
  exists f, write_json (setDecorate JsonFormatter_new decorate) v = Some f /\
    forall chunks, concat chunks = jf_s f -> Forall bytes_ok chunks -> Z.of_nat (length (jf_s f)) < 2 ^ 64 ->
      read_json flags chunks = Some (events None v).
Proof.
  intros Hf Hd. set (f0 := setDecorate JsonFormatter_new decorate). set (p0 := setFlags (JsonParser_new (A := list Event) []) flags).
  destruct (all_read flags v f0 (jp_core p0) [] None []) as (f & t & c & Hw & _ & _ & Ht & Hr & Hs); [exact Hf|exact Hd| |].
  { exists EXPECT_ANYTHING, false. split; reflexivity. }
  exists f. split; [exact Hw|]. intros chunks Hc Hb Hl. cbn [app] in Ht, Hs. change (jf_s f0 ++ t) with t in Ht.
  destruct (process_start log_named log_value log_end log_comment p0 t c) as (b & Hp & Hb0); [reflexivity|reflexivity|reflexivity|exact Hr|].
  destruct (feed_process log_named log_value log_end log_comment p0 chunks) as (p1 & p2 & e & H1 & H2 & _ & _ & H3);
    [destruct (new_ok (A := list Event) []) as [[] _]; split; assumption|constructor|exact Hb|rewrite Hc; exact Hl|].
  rewrite Hc, Ht, Hp in H2. set (pe := mkJson _ _ _ _ _) in H2. assert (e = NO_ERROR /\ p2 = pe) as [-> ->] by (split; congruence).
  rewrite (H3 eq_refl) in H1. unfold read_json. fold p0. rewrite H1.
  destruct (read_stands flags pe c (events None v)) as (q & -> & <-); auto.
Qed.

Lemma write_read_json_witness : exists f, write_json (setDecorate JsonFormatter_new true) sample_json = Some f /\
  read_json FLAG_VALIDATE_UTF8 [take 5 (jf_s f); drop 5 (jf_s f)] = Some (events None sample_json).
Proof.
  destruct (write_read_json FLAG_VALIDATE_UTF8 true sample_json) as (f & Hf & H).
  - cbn. unfold text_ok. repeat split; try (repeat constructor; unfold is_byte, plain; lia); try reflexivity; try lia.
  - cbn. lia.
  - exists f. split; [exact Hf|]. vm_compute in Hf. injection Hf as <-. apply H; [reflexivity| |reflexivity].
    repeat constructor; unfold is_byte; lia.
Defined.

(** A key with a quote is written as it is, and the text cannot be read. *)
Example key_not_escaped :
  match write_json (setDecorate JsonFormatter_new false) (JObject [([97; 34; 98], JBool true)]) with
  | Some f => read_json FLAG_VALIDATE_UTF8 [jf_s f] = None
  | None => False
  end.
Proof. vm_compute. reflexivity. Qed.

(** A number may have no digits before its exponent, even with the strict checks. *)
Example number_without_digits :
  read_json (Z.lor FLAG_VALIDATE_UTF8 FLAG_STRICT_NUMBER_CHECKS) [[45; 101; 53]] = Some [Value [45; 101; 53] TYPE_FLOAT].
Proof. vm_compute. reflexivity. Qed.
